(* ===== verification/_CoqProject ===== *)
-Q . S2P
Prelude.v
Text.v
Codec.v
WalBase.v
WalFile.v
WalFileSpec.v
WalSet.v
WalSetSpec.v
WalPurge.v
WalMeta.v
WalWriter.v
WalWriterSpec.v
WalReader.v
LogMemory.v
LogStore.v
KvCache.v
DLock.v
Notify.v
CacheSM.v
CacheSMSpec.v
ExtBase.v
ExtStore.v
ExtStoreSpec.v
ExtSound.v
ExtEngine.v
ExtEngineSpec.v
ExtLife.v
ExtRun.v
SqlRows.v
SqlRowsSpec.v
SqlBase.v
SqlWriter.v
SqlSM.v
SqlAgree.v
SqlSMSpec.v
SqlTxn.v
SqlMigrate.v
SqlDemo.v
SqlQuery.v
NetBase.v
NetServer.v
NetStream.v
NetStreamSpec.v
NetRaft.v
NetRaftSpec.v
NetAuth.v
NetLimit.v
NetClient.v
NetClientSpec.v
NetProxy.v
NetLock.v
NetListen.v
NetDemo.v
NetPush.v
Concrete.v
WalTheorems.v
CacheTheorems.v
ExtTheorems.v
Findings.v
SqlTheorems.v
ClusterBase.v
ClusterMgmt.v
ClusterSpec.v
ClusterInit.v
ClusterShutdown.v
NetTheorems.v
ClusterTheorems.v
ClusterCheck.v
Backup.v
BackupTheorems.v
Config.v
ConfigTheorems.v
NetPool.v
Derive.v
DeriveTheorems.v
ClientQuery.v
DashQuery.v
Dashboard.v
DashTheorems.v
CheckTheorems.v
