(* ===== verification/Prelude.v ===== *)
(** * hiqlite: logs, state machines, the client, the network and the node around them

    hiqlite is a Raft cluster around SQLite and an in-memory cache.  openraft
    drives each node through two interfaces: a log store, which keeps the log
    entries, the vote and the purge frontier, and a state machine, which applies
    committed entries.  A client call writes on the leader, its own node or one
    it reaches over a web socket; nodes join, leave and shut down through
    management endpoints.  This development models the two log stores of the
    repository, the cache state machine with its handler tasks, the SQLite state
    machine with its rows and migrations, the external state machine adapter, the
    client with its streams, the server side of them, the transport between Raft
    nodes, membership and shutdown, backups, the configuration, the checks at
    start, the derive macros, and the dashboard and the proxy, and proves what
    openraft, the clients and the operators rely on.

    ** Parts and files

    - [Prelude], [Text]: results of Rust code ([Res]: Ok, Err, panic, out of
      fuel or no return), the state monad [St], machine integers with their wrap-around, byte
      codecs, slices; the [str] functions the code uses.
    - [WalBase]: errors and checksum of [hiqlite-wal/src/{error,utils}.rs], and a
      file system with inodes, cached and durable bytes and memory maps.
    - [WalFile], [WalFileSpec]: [WalFile] of [wal.rs].  A file is well-formed
      ([file_ok bytes w rs]) when its header fields describe exactly the records
      [rs] in its bytes.  Appending, reading with the memo, the header round trip,
      the deep check.
    - [WalSet], [WalSetSpec], [WalPurge]: [WalFileSet] of [wal.rs].
      [set_ok fs s l] ties the set to its directory and to a list of files with
      their logs; roll-over, purge, truncation and the copy the readers get.
    - [WalMeta]: [metadata.rs], with the write as single system calls, and
      [lockfile.rs] ([Module LockFile]).
    - [WalWriter], [WalWriterSpec]: the writer task of [writer.rs]; every action
      keeps [writer_ok], which includes the copy shared with the readers and what
      is on the device.
    - [WalReader]: the reader task of [reader.rs] next to a running writer.
    - [LogMemory]: [hiqlite/src/store/logs/memory.rs].
    - [LogStore]: [log_store.rs] and [log_store_impl.rs], [LogStore::start]; the
      class [LogStorage] of a log store, [LogStorageSpec] of what it promises, an
      instance for the WAL and one for the memory store, and a client theorem
      proved against the class.
    - [KvCache], [DLock], [Notify]: the handler tasks
      [store/state_machine/memory/{kv_handler,dlock_handler,notify_handler}.rs].
    - [CacheSM], [CacheSMSpec]: [store/state_machine/memory/state_machine.rs] and
      the [CacheVariants] checks of [lib.rs], on top of the three handlers.
    - [ExtBase], [ExtStore]: [external_state_machine.rs], the tables the adapter
      keeps in the application's database ([load_state], [validate_receipts],
      [classify_commit], [apply_operation], [apply_advance] and their helpers).
    - [ExtStoreSpec], [ExtSound]: a history of applied requests as the abstract
      machine, the tables that store it, and that loading and validating accepts
      exactly the databases that store a history.
    - [ExtEngine], [ExtEngineSpec]: the engine around the tables: owner lock, state
      markers, writer requests, snapshots, restore, opening, adopting, rebuilding
      and shutdown, with the invariants of a running engine ([engine_ok]) and of
      the files at rest ([disk_ok]).
    - [ExtLife], [ExtRun]: opening; runs of requests, crashes and reopening.
    - [SqlRows], [SqlRowsSpec]: [query/rows.rs], [query/cust_types.rs] and the
      conversions of [sqlite/param.rs]: parameters, declared column types, owned
      rows, [TryFrom<ValueOwned>], [VecText].
    - [SqlBase]: what the writer uses of SQLite and rusqlite, as the class
      [SqlEngine] with its laws, and the connection.
    - [SqlWriter]: the writer thread of [sqlite/writer.rs] with
      [sqlite/transaction_env.rs], one definition per request.
    - [SqlSM]: [sqlite/state_machine.rs] and [sqlite/snapshot_builder.rs]: apply,
      snapshots, start with the lock file, shutdown.
    - [SqlAgree], [SqlSMSpec]: every request respects the equivalence of databases,
      ends, and keeps the files; snapshots and restarts.
    - [SqlTxn]: a transaction against its reference; [SqlMigrate]: [migration.rs],
      the deduplication of [client/migrate.rs], and the migrations of the writer
      against their reference.
    - [SqlDemo]: a small engine for evaluation.
    - [SqlQuery]: [query/mod.rs], local queries on the read pool.
    - [NetBase]: requests and responses of the client stream ([network/api.rs]) and
      the errors of [error.rs] the client looks into.
    - [NetServer]: [handle_socket_concurrent] of [network/api.rs]: reading a frame,
      serving every request, the writer; the class [NodeApi] of what it calls on its
      node, with laws the two state machines discharge; a call into openraft and the
      wait for a lock may never return.
    - [NetStream], [NetStreamSpec]: the stream manager of [client/stream.rs] as a
      state machine over the events of its loops.
    - [NetClient], [NetClientSpec]: the calls of [client/*.rs] for database, cache,
      events and locks, with leader routing and the retry after a leader change;
      the class [ClientWorld] of openraft and the channels; a send to the stream
      manager is taken, finds it gone, or blocks ([Sent]).
    - [NetLimit]: [client/rate_limit.rs]; [NetLock]: the heartbeat of a held lock in
      [client/dlock.rs]; [NetListen]: the remote listener of
      [client/listen_notify.rs]; [NetAuth]: the handshake of
      [network/{challenge_response,handshake}.rs].
    - [NetRaft], [NetRaftSpec]: [network/{raft_client,raft_server}.rs], both tasks and
      the connections between them.
    - [NetPush]: the [/listen] endpoint of [network/api.rs] and of the proxy next to
      the handler of the notifications ([Module Push]), the router of
      [server/proxy/notify.rs], and the two tasks of a client stream
      ([Module Responses]).
    - [NetProxy]: the proxy of [server/proxy/{stream,mod}.rs], on the
      calls of [NetClient], and the routes of a node and of a proxy; [NetPool]: its
      configuration ([server/proxy/config.rs]) and the permits of its streams
      ([server/proxy/{state,handlers}.rs]) on the class [Semaphore].
    - [Derive], [DeriveTheorems]: the derive macros of [hiqlite-derive/src], from the
      attributes to the expressions they generate, with an evaluator for these, and
      the arms of [params!] ([macros.rs], [Module Params]).
    - [ClientQuery]: [client/query.rs], mapped queries of local and remote clients.
    - [ClusterBase], [ClusterMgmt], [ClusterSpec]: the node as its cluster sees it
      ([helpers.rs], [app_state.rs]), the endpoints of [network/management.rs],
      health and readiness.
    - [ClusterInit]: [init.rs]; [ClusterShutdown]: the shutdown in
      [client/mgmt.rs] and [client/shutdown_handle.rs] as steps of concurrent
      callers, the handle of [hiqlite-wal/src/shutdown.rs], and the start of a node
      in [start.rs] and [store/mod.rs] as steps next to the tasks that join.
    - [ClusterCheck]: [split_brain_check.rs], [v0_15_auto_cache_migration.rs], the
      search for the leader of [client/helpers.rs], the listen addresses of
      [start.rs]; [CheckTheorems]: its theorems.
    - [Backup], [BackupTheorems]: [backup.rs], [client/backup.rs],
      durations, the backup endpoint.
    - [Config], [ConfigTheorems]: [config.rs], [config_toml.rs] and the
      settings of [tls.rs], [s3.rs] and [dashboard/mod.rs].
    - [DashQuery], [Dashboard], [DashTheorems]: [dashboard/query.rs] and
      access to the dashboard in [dashboard/{session,handlers,password}.rs].
    - [Codec]: a byte codec for countable types; [Concrete], [NetDemo]: instances of
      the parameters and started stores for evaluation.
    - [WalTheorems], [CacheTheorems], [ExtTheorems], [SqlTheorems], [NetTheorems],
      [ClusterTheorems]: the theorems of these parts and their instances;
      [Findings] and the ends of the others: runs in which the code does not do
      what it means to.

    ** How the state corresponds

    A [WalFile] record has the fields of the Rust struct; its maps are inode
    numbers.  The writer is the file system with its [Writer] record: the metadata
    and the shared set behind the locks, its own set, the dirty flag, and the
    replies it sent, oldest first.  Readers hold their own copy of the set and a
    memo.  The handler tasks of the cache are functions from a request to the new
    state and the answers; their channels are first in first out, so the state
    machine serves a message where it sends it.  Clocks are arguments, one per
    read in the source.

    A connection of the external adapter is the committed database with the view
    of its open transaction; the application's own tables are a type parameter and
    its callback is a function on them.  [Disk] has the database file, the marker
    and the databases that were committed since the last barrier; [survives] says
    which of them a crash may leave: with [synchronous = FULL] the last commit,
    with [NORMAL] any commit of that list, with [OFF] anything.  [Faults] says
    which calls into SQLite and the file system fail, [OpenEnv] what an opening
    reads from outside.

    The connection of the SQLite writer is the database its statements see with the
    one an open transaction returns to; a database has the tables of the
    application (a type parameter), the [_migrations] rows and the [_metadata] row.
    [Writer] adds the metadata in memory, the time of the last backup and the
    snapshot and backup folders; [Disk] is the folder of a stopped node and [Env]
    has the clock and the calls that fail while a request is served.  Databases
    are compared up to an equivalence on the tables that VACUUM stays inside of
    ([SqlEquiv]).  VACUUM may renumber the implicit rowids of a table, so only the
    statements that do not depend on them respect it ([rowid_free]), and the theorems
    that compare databases are about entries with such statements ([entry_free]).  [agree] adds the applied log and the
    membership.

    The tasks of the client and of the network are state machines: a state record
    with the fields of the task, one function per event its [select!] waits for, and
    runs over sequences of enabled events, so every order the scheduler may take is
    a run.  A reply channel is a number; what was answered, dropped and sent is
    recorded.  The calls of the client and the handlers of a node work in [St] over
    the shared state and a world [W], whose class says what openraft, HTTP and the
    clock answer and whose laws say what may change; [WorldLog] and [RaftLog] are
    what a world has in its logs, [ReplyLog] what other nodes have answered.  The environment of a configuration is a function,
    a TOML table a map out of which keys are taken.  Restoring works on the folder
    of the state machine with the files of the host and the objects of the bucket.

    ** What the theorems show

    - Single file: append and read are inverse, reading arbitrary bytes is safe,
      the header round-trips, the deep check recovers orphaned records and never
      takes a damaged one.
    - Writer and reader: each action does to the stored log what the storage
      interface asks for, replies once and keeps the invariant; acknowledged votes
      and synced logs are on the device; readers return exactly the requested
      range.
    - Stores: a sequence of operations on either store refines the same reference
      log; on the WAL, truncations may not start at the first log of a sealed file
      behind the first one, and the reader is one that was started afterwards.
    - Metadata and lock file: atomic replacement under a crash after any system
      call; exclusive use.
    - Cache: expiry semantics with the wrap-around of the difference to the clock,
      lock safety (leases, queue order, every waiter
      answered once, progress of the sweep), delivery of notifications; replicas
      in agreement that read the same times stay in agreement, a snapshot carries the whole replicated
      state, and a restart finds the newest one.
    - External adapter: accepted entries refine a history in which each request is
      executed exactly once, retries get the stored receipt inside the window and a
      refusal outside it; the state after a crash and reopening is one the history
      passed through, and delivering the log again repeats nothing; opening rejects
      every database that stores no history; snapshots carry the history.
    - SQLite state machine: replicas that agree reply alike and stay in agreement
      whatever their clocks, backups and file systems do, when no statement depends
      on an implicit rowid; with the same condition a crashed node comes back from its
      newest snapshot, an installed snapshot and a clean restart carry the whole
      state; transactions are all or nothing and resolve the outputs of earlier
      statements; a deployment runs exactly the missing migrations; parameters
      round-trip through columns, and a row is read exactly when its values fit.

    - Client and network: a write call is in the log once when it succeeds and at
      most once otherwise, also across a change of the leader and through a proxy;
      it returns unless a send blocks for good or a write without a timeout hangs;
      every reply channel is used once and with the answer to its own request; a
      request and its answer pass the stream unchanged; a server answers every
      request but the read of a counter with the variant the client expects, if the
      call into openraft returns; the rate limit bounds the calls;
      the handshake needs the secret; a call between Raft nodes is served at most
      once and answered with what the peer said to it.
    - Events and the proxy: a remote listener gets the notifications behind its
      registration in order and without gaps, also through a proxy; a proxy never
      has more streams than configured and loses no permit.
    - Derive macros: which structs are accepted; the generated code reads every field
      as it was declared, starting from the written attributes; the panicking and the
      fallible variant agree; and a local and a remote client get the same structs
      from a query when the values fit the types of the fields; a later version of a cache enum is compatible
      exactly when it appends variants.
    - Cluster: the endpoints never take the leader out in one step and end if openraft
      answers; only node 1 initializes; a node that joined saw itself in the membership; what
      the checks on other nodes ask and answer; the start is done in order and no stream is
      accepted before it is through; the shutdown is done once and in order and
      closes what the start opened; cached data is removed for v0.15 only when no old
      node answers.
    - Backups and configuration: a backup is restored to an equivalent database, an
      invalid one changes nothing, the retention keeps what is young enough; the
      environment gives the same configuration through both readers and stands
      before the table.
    - Dashboard: data is served only after a login, the scan for forbidden functions
      finds exactly the names directly in front of a parenthesis outside of literals
      and comments, and a manual query
      is written once or refused.

    ** Bounds and fuel

    [read_loop], [check_loop] and [recover_loop] get [len_max + 1] rounds; every
    record takes at least 17 bytes, and the theorems exclude [OutOfFuel].
    [expire_loop] gets one round more than there are buckets.  [batch_loop] and
    [script_loop] get one round more than the script has characters; each round
    takes at least one, which is a law of [SqlEngine].  [scan] of a manual query gets
    one round more than the query has bytes.  The polling loops of the endpoints have
    [POLLS] = 82 and [DEMOTION_POLLS] = 42 rounds; waiting takes time, which is a law
    of [RaftNodeOk], so their deadlines end them first.  The fuel of [lock_loop], [skip_loop], [try_become],
    [await_membership], [find_local], [find_remote], [remote_metrics_loop] and the
    waits of [restore_backup_finish] stands for loops that are not bounded in the
    source; their theorems say what holds when they end.  File names hold
    numbers below [10 ^ 16]; theorems that create files carry that bound.

    ** Conventions and what is not modelled

    Release build: [debug_assert!] is not executed and integer arithmetic wraps.
    CRC, bincode and openraft's types are parameters with the laws the code relies
    on; cargo features that change the code are parameters, [counters], [dlock]
    and [listen_notify] are on.  Error messages, logging, failing devices, and
    requesters that drop their reply channel in the lock handler are left out.
    In the external adapter a panicking application callback, file permissions and
    the joins of its tasks are left out.  In the SQLite state machine savepoints,
    pragmas and other state of a connection, the guards of
    [overwrite_non_det_fns] and the upload of backups are left out, and of the
    conversions those of chrono and JSON.  Also parameters: SHA-256, SQLite and
    rusqlite, uuid, HTTP, S3, cron schedules, argon2, spow and the encryption of
    cryptr.  Not modelled: TLS and the HTTP upgrade, the transfer and encryption of
    S3 objects, reading configuration files, the web UI with its static files and table listing, and the
    command line of the server binary: they are glue to other crates or text for a
    browser.  The syntax trees of [syn] are data types, and the conversions into the
    types of an application are the class [RustTypes]; those of the language are
    modelled in [ClientQuery] ([LanguageTypes]). *)
From stdpp Require Import base gmap strings list numbers.
From Stdlib Require Import Strings.Byte.

#[local] Open Scope Z_scope.

(** * Outcomes of Rust code

    [Ok] and [Err] are the two sides of [Result<T, Error>]; [Panic] is an
    unwinding panic (slice index out of range, [unwrap] on [None],
    [unreachable!]); [OutOfFuel] is the outcome of a loop that did not finish and
    of an awaited call that never returns; the theorems exclude it, or say when it
    happens. *)
Inductive Res (E A : Type) : Type :=
| Ok (a : A)
| Err (e : E)
| Panic
| OutOfFuel.
Arguments Ok {E A} a.
Arguments Err {E A} e.
Arguments Panic {E A}.
Arguments OutOfFuel {E A}.

#[export] Instance res_ret {E} : MRet (Res E) := fun A a => Ok a.
#[export] Instance res_bind {E} : MBind (Res E) := fun A B k m =>
  match m with
  | Ok a => k a
  | Err e => Err e
  | Panic => Panic
  | OutOfFuel => OutOfFuel
  end.

(** A computation that mutates a state [S]; what was mutated before an error
    stays mutated, as in Rust. *)
Definition St (E S A : Type) : Type := S -> Res E A * S.

#[export] Instance st_ret {E S} : MRet (St E S) := fun A a s => (Ok a, s).
#[export] Instance st_bind {E S} : MBind (St E S) := fun A B k m s =>
  match m s with
  | (Ok a, s') => k a s'
  | (Err e, s') => (Err e, s')
  | (Panic, s') => (Panic, s')
  | (OutOfFuel, s') => (OutOfFuel, s')
  end.

Definition st_lift {E S A} (r : Res E A) : St E S A := fun s => (r, s).
Definition st_get {E S} : St E S S := fun s => (Ok s, s).
Definition st_put {E S} (s : S) : St E S unit := fun _ => (Ok tt, s).
Definition st_err {E S A} (e : E) : St E S A := fun s => (Err e, s).
Definition st_panic {E S A} : St E S A := fun s => (Panic, s).

(** [match m { Ok(_) => None, Err(err) => Some(err) }]: an error that is reported
    instead of returned. *)
Definition st_try {E S A} (m : St E S A) : St E S (option E) := fun s =>
  match m s with
  | (Ok _, s') => (Ok None, s')
  | (Err e, s') => (Ok (Some e), s')
  | (Panic, s') => (Panic, s')
  | (OutOfFuel, s') => (OutOfFuel, s')
  end.

(** [opt.unwrap()] *)
Definition unwrap {E A} (o : option A) : Res E A :=
  match o with Some a => Ok a | None => Panic end.

Lemma res_bind_ok {E A B} (m : Res E A) (k : A -> Res E B) b :
  m ≫= k = Ok b -> exists a, m = Ok a /\ k a = Ok b.
Proof. destruct m; simpl; try discriminate. eauto. Qed.

Lemma st_bind_ok {E S A B} (m : St E S A) (k : A -> St E S B) s s' a :
  m s = (Ok a, s') -> (m ≫= k) s = k a s'.
Proof. unfold mbind, st_bind. intros ->. reflexivity. Qed.

Lemma st_bind_inv {E S A B} (m : St E S A) (k : A -> St E S B) s s' b :
  (m ≫= k) s = (Ok b, s') -> exists a s1, m s = (Ok a, s1) /\ k a s1 = (Ok b, s').
Proof. unfold mbind, st_bind. destruct (m s) as [[a|x| |] s1]; [eauto|done..]. Qed.

(** Neither a panic nor out of fuel. *)
Definition settled {E A} (r : Res E A) : Prop := match r with Ok _ | Err _ => True | _ => False end.
Lemma settled_bind {E A B} (m : Res E A) (k : A -> Res E B) :
  settled m -> (forall a, m = Ok a -> settled (k a)) -> settled (m ≫= k).
Proof. intros Hm Hk. destruct m; [by apply Hk|done..]. Qed.

(** * Machine integers *)
Definition wrap32 (z : Z) : Z := z mod 2 ^ 32.
Definition wrap64 (z : Z) : Z := z mod 2 ^ 64.
Definition u32_max : Z := 2 ^ 32 - 1.
Definition u64_max : Z := 2 ^ 64 - 1.
Definition i64_min : Z := - 2 ^ 63.
Definition wrap_i64 (z : Z) : Z := (z + 2 ^ 63) mod 2 ^ 64 - 2 ^ 63.
Definition i64_max : Z := 2 ^ 63 - 1.
Definition is_u32 (z : Z) : Prop := 0 <= z < 2 ^ 32.
Definition is_u64 (z : Z) : Prop := 0 <= z < 2 ^ 64.

(** [a.saturating_sub(b)] on unsigned operands. *)
Definition sat_sub (a b : Z) : Z := Z.max 0 (a - b).

Lemma wrap32_small z : is_u32 z -> wrap32 z = z.
Proof. unfold wrap32, is_u32. intros. apply Z.mod_small. lia. Qed.
Lemma wrap_i64_small z : i64_min <= z <= i64_max -> wrap_i64 z = z.
Proof. unfold wrap_i64, i64_min, i64_max. intros. rewrite Z.mod_small; lia. Qed.
Lemma wrap64_small z : is_u64 z -> wrap64 z = z.
Proof. unfold wrap64, is_u64. intros. apply Z.mod_small. lia. Qed.

(** * Bytes and big-endian integers *)
#[export] Instance byte_eqdec : EqDecision byte := Byte.byte_eq_dec.

Definition byte_to_Z (b : byte) : Z := Z.of_N (Byte.to_N b).
Definition byte_of_Z (z : Z) : byte :=
  match Byte.of_N (Z.to_N (z mod 256)) with
  | Some b => b
  | None => Byte.x00
  end.

Lemma byte_to_Z_bound b : 0 <= byte_to_Z b < 256.
Proof.
  unfold byte_to_Z. pose proof (Byte.to_N_bounded b). lia.
Qed.

Lemma byte_to_of_Z z : byte_to_Z (byte_of_Z z) = z mod 256.
Proof.
  unfold byte_to_Z, byte_of_Z.
  pose proof (Z.mod_pos_bound z 256 ltac:(lia)) as Hb.
  destruct (Byte.of_N (Z.to_N (z mod 256))) as [b|] eqn:E.
  - apply Byte.to_of_N in E. rewrite E. lia.
  - apply Byte.of_N_None_iff in E. lia.
Qed.

Lemma byte_of_to_Z b : byte_of_Z (byte_to_Z b) = b.
Proof.
  unfold byte_of_Z. rewrite Z.mod_small by apply byte_to_Z_bound.
  unfold byte_to_Z. rewrite N2Z.id, Byte.of_to_N. reflexivity.
Qed.

#[export] Instance byte_countable : Countable byte.
Proof. refine (inj_countable' byte_to_Z byte_of_Z _). intros b. by destruct b. Defined.

(** [n] little-endian bytes of [z]. *)
Fixpoint le_encode (n : nat) (z : Z) : list byte :=
  match n with
  | O => []
  | S n => byte_of_Z z :: le_encode n (z / 256)
  end.

Fixpoint le_decode (l : list byte) : Z :=
  match l with
  | [] => 0
  | b :: l => byte_to_Z b + 256 * le_decode l
  end.

(** [n] big-endian bytes, most significant first. *)
Definition be_encode (n : nat) (z : Z) : list byte := reverse (le_encode n z).
Definition be_decode (l : list byte) : Z := le_decode (reverse l).

Lemma length_le_encode n z : length (le_encode n z) = n.
Proof. revert z. induction n; intros; simpl; auto. Qed.

Lemma length_be_encode n z : length (be_encode n z) = n.
Proof. unfold be_encode. rewrite length_reverse. apply length_le_encode. Qed.

Lemma le_decode_encode n z : le_decode (le_encode n z) = z mod 256 ^ Z.of_nat n.
Proof.
  revert z. induction n as [|n IH]; intros z.
  { simpl. symmetry. apply Z.mod_1_r. }
  cbn [le_encode le_decode]. rewrite IH, byte_to_of_Z.
  rewrite Nat2Z.inj_succ, Z.pow_succ_r by lia.
  rewrite Z.rem_mul_r by lia. lia.
Qed.

Lemma be_decode_encode n z : be_decode (be_encode n z) = z mod 256 ^ Z.of_nat n.
Proof. unfold be_decode, be_encode. rewrite reverse_involutive. apply le_decode_encode. Qed.

Lemma le_decode_bound l : 0 <= le_decode l < 256 ^ Z.of_nat (length l).
Proof.
  induction l as [|b l IH]; [simpl; lia|].
  cbn [le_decode length]. rewrite Nat2Z.inj_succ, Z.pow_succ_r by lia.
  pose proof (byte_to_Z_bound b). lia.
Qed.

Lemma be_decode_bound l : 0 <= be_decode l < 256 ^ Z.of_nat (length l).
Proof. unfold be_decode. rewrite <- (length_reverse l). apply le_decode_bound. Qed.

Lemma be8_decode z : is_u64 z -> be_decode (be_encode 8 z) = z.
Proof. intros H. rewrite be_decode_encode. apply Z.mod_small. exact H. Qed.

Lemma be4_decode z : is_u32 z -> be_decode (be_encode 4 z) = z.
Proof. intros H. rewrite be_decode_encode. apply Z.mod_small. exact H. Qed.

(** * Slices of byte buffers

    [slice l a b] is [&l[a..b]]; [None] is the panic of an index out of
    range.  [splice l o bs] is the buffer after [bs] was copied over the bytes
    starting at [o]. *)
Definition zlen {A} (l : list A) : Z := Z.of_nat (length l).

Definition slice {A} (l : list A) (a b : Z) : option (list A) :=
  if bool_decide (0 <= a <= b /\ b <= zlen l)
  then Some (take (Z.to_nat (b - a)) (drop (Z.to_nat a) l))
  else None.

Definition splice {A} (l : list A) (o : Z) (bs : list A) : list A :=
  take (Z.to_nat o) l ++ bs ++ drop (Z.to_nat o + length bs) l.

Lemma zlen_nonneg {A} (l : list A) : 0 <= zlen l.
Proof. unfold zlen. lia. Qed.

Lemma zlen_app {A} (l k : list A) : zlen (l ++ k) = zlen l + zlen k.
Proof. unfold zlen. rewrite length_app. lia. Qed.

Lemma zlen_cons {A} (x : A) l : zlen (x :: l) = 1 + zlen l.
Proof. unfold zlen. simpl length. lia. Qed.

Lemma zlen_be n z : zlen (be_encode n z) = Z.of_nat n.
Proof. unfold zlen. rewrite length_be_encode. reflexivity. Qed.

Lemma zlen_le n z : zlen (le_encode n z) = Z.of_nat n.
Proof. unfold zlen. rewrite length_le_encode. reflexivity. Qed.

(** Lengths: rewriting with [hql] and linear arithmetic. *)
Create HintDb hql.
Create Rewrite HintDb hql.
#[export] Hint Rewrite @zlen_app @zlen_cons zlen_be zlen_le : hql.
#[export] Hint Resolve zlen_nonneg : hql.
Ltac zlen_lia := autorewrite with hql in *; lia.

Lemma slice_Some {A} (l : list A) a b x :
  slice l a b = Some x <->
  (0 <= a <= b /\ b <= zlen l) /\ x = take (Z.to_nat (b - a)) (drop (Z.to_nat a) l).
Proof.
  unfold slice. case_bool_decide; split.
  - intros [= <-]. auto.
  - intros [_ ->]. reflexivity.
  - discriminate.
  - intros [? _]. contradiction.
Qed.

Lemma slice_is_Some {A} (l : list A) a b :
  0 <= a <= b -> b <= zlen l -> exists x, slice l a b = Some x.
Proof. intros. eexists. apply slice_Some. eauto. Qed.

Lemma slice_bounds {A} (l : list A) a b x :
  slice l a b = Some x -> 0 <= a /\ a <= b /\ b <= zlen l /\ zlen x = b - a.
Proof.
  intros [[? ?] ->]%slice_Some. unfold zlen in *.
  rewrite length_take, length_drop. lia.
Qed.

Lemma slice_app {A} (l x y : list A) a b c :
  slice l a c = Some (x ++ y) -> b = a + zlen x ->
  slice l a b = Some x /\ slice l b c = Some y.
Proof.
  intros H ->. pose proof (slice_bounds _ _ _ _ H) as (? & ? & ? & Hl).
  rewrite zlen_app in Hl. pose proof (zlen_nonneg x). pose proof (zlen_nonneg y).
  apply slice_Some in H as [_ H].
  assert (drop (Z.to_nat a) l = x ++ y ++ drop (Z.to_nat (c - a)) (drop (Z.to_nat a) l)) as Hd.
  { rewrite app_assoc, H, take_drop. reflexivity. }
  split; apply slice_Some; (split; [lia|]); unfold zlen in *.
  - rewrite Hd. rewrite take_app_le by lia. rewrite take_ge by lia. reflexivity.
  - replace (Z.to_nat (a + Z.of_nat (length x))) with (Z.to_nat a + length x)%nat by lia.
    rewrite <- drop_drop, Hd, drop_app_length.
    rewrite take_app_le by lia. rewrite take_ge by lia. reflexivity.
Qed.

Lemma slice_join {A} (l x y : list A) a b c :
  slice l a b = Some x -> slice l b c = Some y -> slice l a c = Some (x ++ y).
Proof.
  intros H1 H2. pose proof (slice_bounds _ _ _ _ H1). pose proof (slice_bounds _ _ _ _ H2).
  apply slice_Some in H1 as [_ ->]. apply slice_Some in H2 as [_ ->].
  apply slice_Some. split; [lia|].
  replace (Z.to_nat (c - a)) with (Z.to_nat (b - a) + Z.to_nat (c - b))%nat by lia.
  rewrite <- take_take_drop, drop_drop.
  replace (Z.to_nat a + Z.to_nat (b - a))%nat with (Z.to_nat b) by lia. reflexivity.
Qed.

Lemma slice_full {A} (l : list A) : slice l 0 (zlen l) = Some l.
Proof.
  apply slice_Some. pose proof (zlen_nonneg l). split; [lia|].
  simpl. rewrite drop_0. rewrite take_ge by (unfold zlen; lia). reflexivity.
Qed.

Lemma zlen_splice {A} (l : list A) o bs :
  0 <= o -> o + zlen bs <= zlen l -> zlen (splice l o bs) = zlen l.
Proof.
  intros. unfold splice, zlen in *. rewrite !length_app, length_take, length_drop. lia.
Qed.

Lemma splice_decomp {A} (l : list A) o bs :
  0 <= o -> o + zlen bs <= zlen l ->
  exists p q, zlen p = o /\ splice l o bs = p ++ bs ++ q /\
    exists m, l = p ++ m ++ q /\ zlen m = zlen bs.
Proof.
  intros. exists (take (Z.to_nat o) l), (drop (Z.to_nat o + length bs) l).
  unfold zlen in *. split; [rewrite length_take; lia|]. split; [reflexivity|].
  exists (take (length bs) (drop (Z.to_nat o) l)).
  rewrite length_take, length_drop. split; [|lia].
  rewrite <- drop_drop, take_drop, take_drop. reflexivity.
Qed.

Lemma slice_app_mid {A} (p m q : list A) :
  slice (p ++ m ++ q) (zlen p) (zlen p + zlen m) = Some m.
Proof.
  pose proof (slice_full (p ++ m ++ q)) as H. rewrite !zlen_app in H.
  eapply slice_app in H as [_ H]; [|reflexivity].
  eapply slice_app in H as [H _]; [|reflexivity]. exact H.
Qed.

Lemma slice_splice_same {A} (l : list A) o bs :
  0 <= o -> o + zlen bs <= zlen l -> slice (splice l o bs) o (o + zlen bs) = Some bs.
Proof.
  intros H1 H2. destruct (splice_decomp l o bs H1 H2) as (p & q & <- & -> & _).
  apply slice_app_mid.
Qed.

Lemma slice_splice_other {A} (l : list A) o bs a b :
  0 <= o -> o + zlen bs <= zlen l -> b <= o \/ o + zlen bs <= a ->
  slice (splice l o bs) a b = slice l a b.
Proof.
  intros H1 H2 Hd. unfold slice. rewrite zlen_splice by lia.
  case_bool_decide as Hb; [|reflexivity]. f_equal.
  destruct (splice_decomp l o bs H1 H2) as (p & q & Hp & -> & m & -> & Hm).
  pose proof (zlen_nonneg m). unfold zlen in *. destruct Hd.
  - rewrite !drop_app_le by lia. rewrite !take_app_le by (rewrite length_drop; lia). reflexivity.
  - f_equal. rewrite !drop_app_ge by lia. f_equal. lia.
Qed.

(** * Filtered lists *)
Lemma filter_none {A} (P : A -> Prop) `{!forall x, Decision (P x)} (l : list A) :
  (forall x, x ∈ l -> ~ P x) -> filter P l = [].
Proof.
  induction l as [|x l IH]; intros Hl; [done|]. rewrite filter_cons_False by (apply Hl; by left).
  apply IH. intros y Hy. apply Hl. by right.
Qed.

Lemma filter_all {A} (P : A -> Prop) `{!forall x, Decision (P x)} (l : list A) :
  (forall x, x ∈ l -> P x) -> filter P l = l.
Proof.
  induction l as [|x l IH]; intros Hl; [done|]. rewrite filter_cons_True by (apply Hl; by left).
  f_equal. apply IH. intros y Hy. apply Hl. by right.
Qed.

Lemma filter_ext_in {A} (P Q : A -> Prop) `{!forall x, Decision (P x), !forall x, Decision (Q x)} (l : list A) :
  (forall x, x ∈ l -> P x <-> Q x) -> filter P l = filter Q l.
Proof.
  induction l as [|x l IH]; intros Hl; [done|]. rewrite !filter_cons. pose proof (Hl x ltac:(by left)) as Hx.
  rewrite IH by (intros y Hy; apply Hl; by right). repeat case_decide; tauto.
Qed.

#[global] Arguments slice : simpl never.
#[global] Arguments splice : simpl never.
#[global] Arguments zlen : simpl never.
#[global] Arguments be_encode : simpl never.
#[global] Arguments le_encode : simpl never.
#[global] Arguments be_decode : simpl never.
#[global] Arguments wrap32 : simpl never.
#[global] Arguments wrap64 : simpl never.
#[global] Arguments sat_sub : simpl never.

(** Steps through [Res] and [St] binds whose first computation is known. *)
Ltac step_res := cbn [unwrap mbind res_bind mret res_ret].
Ltac step_res_in H := cbn [unwrap mbind res_bind mret res_ret] in H.
(** Takes a chain of results that succeeded apart. *)
Ltac res_inv H := repeat match type of H with
  | mbind _ _ = Ok _ => let a := fresh "a" in let Ha := fresh "Ha" in apply res_bind_ok in H as (a & Ha & H)
  | (if ?b then Err _ else _) = Ok _ => let Hb := fresh "Hb" in destruct b eqn:Hb; [done|]
  end.

Ltac st_inv H := repeat match type of H with
  | (mbind _ _) _ = (Ok _, _) =>
      let a := fresh "a" in let s := fresh "s" in let Ha := fresh "Ha" in apply st_bind_inv in H as (a & s & Ha & H)
  end.

Ltac step_st := cbv beta iota delta [mbind st_bind mret st_ret st_lift st_get st_put st_err st_panic].
