(* ===== verification/Text.v ===== *)
(** Strings: the parts of Rust's [str] the code uses ([split_once],
    [rsplit_once], [ends_with], the decimal parsers and [to_string] on
    unsigned integers), with the round trips between them. *)
From stdpp Require Import base strings list numbers pretty.
From Stdlib Require Import Ascii.
From S2P Require Import Prelude.

#[local] Open Scope Z_scope.

Fixpoint split_once (c : ascii) (s : string) : option (string * string) :=
  match s with
  | EmptyString => None
  | String a s =>
      if Ascii.eqb a c then Some (EmptyString, s)
      else match split_once c s with
           | Some (l, r) => Some (String a l, r)
           | None => None
           end
  end.

Fixpoint rsplit_once (c : ascii) (s : string) : option (string * string) :=
  match s with
  | EmptyString => None
  | String a s =>
      match rsplit_once c s with
      | Some (l, r) => Some (String a l, r)
      | None => if Ascii.eqb a c then Some (EmptyString, s) else None
      end
  end.

Definition digit_of (a : ascii) : option Z :=
  let n := Z.of_N (Ascii.N_of_ascii a) in
  if (48 <=? n) && (n <=? 57) then Some (n - 48) else None.

Fixpoint parse_digits (max acc : Z) (s : string) : option Z :=
  match s with
  | EmptyString => Some acc
  | String a s =>
      match digit_of a with
      | Some d => let acc := acc * 10 + d in
                  if acc <=? max then parse_digits max acc s else None
      | None => None
      end
  end.

(** [s.parse::<u64>()]: an optional plus sign, at least one digit, no overflow. *)
Definition parse_u64 (s : string) : option Z :=
  match s with
  | EmptyString => None
  | String a s' =>
      if Ascii.eqb a "+"%char
      then match s' with EmptyString => None | _ => parse_digits u64_max 0 s' end
      else parse_digits u64_max 0 s
  end.

Fixpoint has_char (c : ascii) (s : string) : bool :=
  match s with
  | EmptyString => false
  | String a s => Ascii.eqb a c || has_char c s
  end.

(** [s.ends_with(suffix)] *)
Fixpoint ends_with (s suffix : string) : bool :=
  String.eqb s suffix ||
  match s with EmptyString => false | String _ s => ends_with s suffix end.

(** [s.strip_prefix(p)] *)
Fixpoint strip_prefix (p s : string) : option string :=
  match p, s with
  | EmptyString, _ => Some s
  | String a p, String b s => if Ascii.eqb a b then strip_prefix p s else None
  | String _ _, EmptyString => None
  end.

(** [n.to_string()] *)
Definition to_string (n : Z) : string := pretty (Z.to_N n).

Lemma split_once_app c l r :
  has_char c l = false -> split_once c (l +:+ String c r) = Some (l, r).
Proof.
  induction l as [|a l IH]; simpl; intros H.
  - by rewrite Ascii.eqb_refl.
  - apply orb_false_iff in H as [-> H]. by rewrite IH.
Qed.

Lemma rsplit_once_none c r : has_char c r = false -> rsplit_once c r = None.
Proof.
  induction r as [|a r IH]; simpl; intros H; [done|].
  apply orb_false_iff in H as [-> H]. by rewrite IH.
Qed.

Lemma rsplit_once_app c l r :
  has_char c r = false -> rsplit_once c (l +:+ String c r) = Some (l, r).
Proof.
  intros H. induction l as [|a l IH]; simpl.
  - by rewrite rsplit_once_none, Ascii.eqb_refl.
  - by rewrite IH.
Qed.

Lemma strip_prefix_app p s : strip_prefix p (p +:+ s) = Some s.
Proof. induction p as [|a p IH]; simpl; [by destruct s|]. by rewrite Ascii.eqb_refl. Qed.

Lemma strip_prefix_Some p s t : strip_prefix p s = Some t -> s = p +:+ t.
Proof.
  revert s. induction p as [|a p IH]; intros s; simpl; [by intros [= ->]|].
  destruct s as [|b s]; [done|]. destruct (Ascii.eqb_spec a b) as [->|]; [|done].
  intros ->%IH. done.
Qed.

(** ** Decimal digits *)
Fixpoint all_digits (s : string) : bool :=
  match s with
  | EmptyString => true
  | String a s => match digit_of a with Some _ => all_digits s | None => false end
  end.

Lemma digit_of_pretty x : (x < 10)%N -> digit_of (pretty_N_char x) = Some (Z.of_N x).
Proof.
  intros. assert (x = 0 \/ x = 1 \/ x = 2 \/ x = 3 \/ x = 4 \/ x = 5 \/ x = 6 \/ x = 7
    \/ x = 8 \/ x = 9)%N as Hx by lia.
  repeat destruct Hx as [->|Hx]; try reflexivity. by subst.
Qed.

Lemma all_digits_app s t : all_digits (s +:+ t) = all_digits s && all_digits t.
Proof. induction s as [|a s IH]; simpl; [done|]. by destruct (digit_of a). Qed.

Lemma all_digits_no_char c s : all_digits s = true -> digit_of c = None -> has_char c s = false.
Proof.
  intros Hs Hc. induction s as [|a s IH]; simpl in *; [done|].
  destruct (digit_of a) eqn:E; [|done]. rewrite (IH Hs).
  destruct (Ascii.eqb_spec a c); [congruence|done].
Qed.

Lemma all_digits_pretty_go x : forall s, all_digits s = true -> all_digits (pretty_N_go x s) = true.
Proof.
  induction (N.lt_wf_0 x) as [x _ IH]; intros s Hs.
  destruct (decide (x = 0)%N) as [->|]; [done|].
  rewrite pretty_N_go_step by lia. apply IH; [apply N.div_lt; lia|]. simpl.
  by rewrite digit_of_pretty by (apply N.mod_lt; lia).
Qed.

Lemma all_digits_to_string n : all_digits (to_string n) = true.
Proof. unfold to_string, pretty, pretty_N. case_decide; [done|]. by apply all_digits_pretty_go. Qed.

Lemma parse_digits_go max x :
  forall s, Z.of_N x <= max -> parse_digits max 0 (pretty_N_go x s) = parse_digits max (Z.of_N x) s.
Proof.
  induction (N.lt_wf_0 x) as [x _ IH]; intros s Hm.
  destruct (decide (x = 0)%N) as [->|]; [done|].
  pose proof (N.div_lt x 10 ltac:(lia) ltac:(lia)).
  rewrite pretty_N_go_step by lia. rewrite IH by lia.
  cbn [parse_digits]. rewrite digit_of_pretty by (apply N.mod_lt; lia).
  replace (Z.of_N (x `div` 10) * 10 + Z.of_N (x `mod` 10)) with (Z.of_N x).
  - by rewrite (proj2 (Z.leb_le _ _)).
  - pose proof (N.div_mod x 10 ltac:(lia)). lia.
Qed.

Lemma parse_digits_0 max s : 0 <= max -> parse_digits max 0 (String "0" s) = parse_digits max 0 s.
Proof.
  intros. change (parse_digits max 0 (String "0" s))
    with (if 0 <=? max then parse_digits max 0 s else None).
  by rewrite (proj2 (Z.leb_le _ _)).
Qed.

Lemma parse_digits_to_string max n : 0 <= n <= max -> parse_digits max 0 (to_string n) = Some n.
Proof.
  intros. unfold to_string, pretty, pretty_N. case_decide.
  - assert (n = 0) as -> by lia. rewrite parse_digits_0 by lia; done.
  - rewrite parse_digits_go by lia. cbn. f_equal. lia.
Qed.

Fixpoint all_zero (s : string) : bool :=
  match s with
  | EmptyString => true
  | String a s => Ascii.eqb a "0"%char && all_zero s
  end.

Lemma parse_digits_range max s : forall acc z, 0 <= acc -> acc <= max -> parse_digits max acc s = Some z -> 0 <= z <= max.
Proof.
  induction s as [|a s IH]; intros acc z H0 H1; simpl; [intros [= <-]; lia|].
  unfold digit_of. destruct ((48 <=? _) && _) eqn:E; [|done]. apply andb_prop in E as [E1 E2].
  destruct (Z.leb_spec (acc * 10 + (Z.of_N (Ascii.N_of_ascii a) - 48)) max); [|done]. apply IH; lia.
Qed.
Lemma parse_digits_all max s : forall acc z, parse_digits max acc s = Some z -> all_digits s = true.
Proof.
  induction s as [|a s IH]; intros acc z; simpl; [done|]. destruct (digit_of a); [|done].
  destruct (_ <=? _); [|done]. apply IH.
Qed.

(** Leading zeros do not change the value. *)
Lemma parse_digits_zeros max z s :
  0 <= max -> all_zero z = true -> parse_digits max 0 (z +:+ s) = parse_digits max 0 s.
Proof.
  intros Hm. induction z as [|a z IH]; [done|].
  intros [->%Ascii.eqb_eq Hz]%andb_prop. change (String "0" z +:+ s) with (String "0" (z +:+ s)).
  rewrite parse_digits_0 by done. by apply IH.
Qed.

Lemma all_zero_digits z : all_zero z = true -> all_digits z = true.
Proof. induction z as [|a z IH]; [done|]. intros [->%Ascii.eqb_eq Hz]%andb_prop. by apply IH. Qed.

Lemma all_zero_substring k s : all_zero s = true -> all_zero (String.substring 0 k s) = true.
Proof.
  revert k. induction s as [|a s IH]; intros [|k]; try done.
  intros [->%Ascii.eqb_eq Hz]%andb_prop. cbn. by apply IH.
Qed.

Lemma parse_u64_digits s :
  s <> EmptyString -> all_digits s = true -> parse_u64 s = parse_digits u64_max 0 s.
Proof.
  intros Hne Hd. unfold parse_u64. destruct s as [|a s]; [done|].
  destruct (Ascii.eqb_spec a "+"%char) as [->|]; [done|]. done.
Qed.

Lemma pretty_go_length x : forall s, (String.length s <= String.length (pretty_N_go x s))%nat.
Proof.
  induction (N.lt_wf_0 x) as [x _ IH]; intros s.
  destruct (decide (x = 0)%N) as [->|]; [done|].
  rewrite pretty_N_go_step by lia.
  etrans; [|apply IH; apply N.div_lt; lia]. simpl. lia.
Qed.

Lemma to_string_length_pos n : (1 <= String.length (to_string n))%nat.
Proof.
  unfold to_string, pretty, pretty_N. case_decide; [simpl; lia|].
  rewrite pretty_N_go_step by lia. etrans; [|apply pretty_go_length]. simpl. lia.
Qed.

Lemma to_string_nonempty n : to_string n <> EmptyString.
Proof. intros H. pose proof (to_string_length_pos n). rewrite H in *. simpl in *. lia. Qed.

Lemma string_app_assoc (s t u : string) : (s +:+ t) +:+ u = s +:+ (t +:+ u).
Proof. induction s as [|a s IH]; [done|]. change (String a ((s +:+ t) +:+ u) = String a (s +:+ (t +:+ u))). by rewrite IH. Qed.

Lemma string_app_nonempty s t : t <> EmptyString -> s +:+ t <> EmptyString.
Proof. by destruct s. Qed.

Lemma has_char_app c s t : has_char c (s +:+ t) = has_char c s || has_char c t.
Proof.
  induction s as [|a s IH]; [done|].
  change (Ascii.eqb a c || has_char c (s +:+ t) = Ascii.eqb a c || has_char c s || has_char c t).
  by rewrite IH, orb_assoc.
Qed.

Lemma string_length_app (s t : string) : String.length (s +:+ t) = (String.length s + String.length t)%nat.
Proof. induction s as [|a s IH]; [done|]. change (S (String.length (s +:+ t)) = S (String.length s) + String.length t)%nat. by rewrite IH. Qed.

Lemma pretty_go_length_le k : forall x s, (x < 10 ^ N.of_nat k)%N ->
  (String.length (pretty_N_go x s) <= k + String.length s)%nat.
Proof.
  induction k as [|k IH]; intros x s Hx.
  - assert (x = 0%N) as -> by (cbn in Hx; lia). by rewrite pretty_N_go_0.
  - destruct (decide (x = 0%N)) as [->|Hne]; [rewrite pretty_N_go_0; lia|].
    rewrite pretty_N_go_step by lia. etrans; [apply IH|cbn; lia].
    rewrite Nat2N.inj_succ, N.pow_succ_r' in Hx. apply N.Div0.div_lt_upper_bound. lia.
Qed.

(** A number below [10 ^ k] has at most [k] digits. *)
Lemma to_string_length_le k n : (1 <= k)%nat -> 0 <= n < 10 ^ Z.of_nat k -> (String.length (to_string n) <= k)%nat.
Proof.
  intros Hk Hn. unfold to_string, pretty, pretty_N. case_decide; [cbn; lia|].
  etrans; [apply (pretty_go_length_le k)|cbn; lia].
  apply N2Z.inj_lt. rewrite Z2N.id by lia. rewrite N2Z.inj_pow, nat_N_Z. cbn. lia.
Qed.

(** [s.parse::<i64>()] *)
Definition parse_i64 (s : string) : option Z :=
  match s with
  | EmptyString => None
  | String a s' =>
      if Ascii.eqb a "+"%char
      then match s' with EmptyString => None | _ => parse_digits i64_max 0 s' end
      else if Ascii.eqb a "-"%char
      then match s' with EmptyString => None | _ => Z.opp <$> parse_digits (i64_max + 1) 0 s' end
      else parse_digits i64_max 0 s
  end.

(** [s.lines()]: a line ends at a line feed, a carriage return right before it is
    not part of the line. *)
Definition LF : ascii := "010"%char.
Definition CR : ascii := "013"%char.
Definition starts_LF (s : string) : bool :=
  match s with String a _ => Ascii.eqb a LF | EmptyString => false end.
Fixpoint lines (s : string) : list string :=
  match s with
  | EmptyString => []
  | String a s =>
      if Ascii.eqb a LF then EmptyString :: lines s
      else if Ascii.eqb a CR && starts_LF s then lines s
      else match lines s with
           | [] => [String a EmptyString]
           | l :: ls => String a l :: ls
           end
  end.

Lemma lines_cons l s :
  has_char LF l = false -> has_char CR l = false -> lines (l +:+ String LF s) = l :: lines s.
Proof.
  induction l as [|a l IH]; intros Hn Hc; [done|]. cbn in Hn, Hc.
  apply orb_false_iff in Hn as [Hn Hn']. apply orb_false_iff in Hc as [Hc Hc'].
  change (lines (String a l +:+ String LF s)) with
    (if Ascii.eqb a LF then EmptyString :: lines (l +:+ String LF s)
     else if Ascii.eqb a CR && starts_LF (l +:+ String LF s) then lines (l +:+ String LF s)
     else match lines (l +:+ String LF s) with
          | [] => [String a EmptyString]
          | x :: ls => String a x :: ls
          end).
  rewrite Hn, Hc, IH by done. done.
Qed.

(** A number printed without a sign is read back. *)
Lemma parse_i64_digits s :
  s <> EmptyString -> all_digits s = true -> parse_i64 s = parse_digits i64_max 0 s.
Proof.
  intros Hne Hd. unfold parse_i64. destruct s as [|a s]; [done|].
  destruct (Ascii.eqb_spec a "+"%char) as [->|]; [done|].
  destruct (Ascii.eqb_spec a "-"%char) as [->|]; [done|]. done.
Qed.

(** ** Suffixes *)
Lemma ends_with_Some s t : ends_with s t = true -> exists p, s = p +:+ t.
Proof.
  induction s as [|a s IH]; cbn [ends_with]; intros [E|E]%orb_prop; try done.
  - exists EmptyString. by apply String.eqb_eq in E.
  - exists EmptyString. by apply String.eqb_eq in E.
  - destruct (IH E) as [p ->]. by exists (String a p).
Qed.

Lemma rsplit_once_suffix c p t l r :
  has_char c t = false -> rsplit_once c (p +:+ t) = Some (l, r) -> exists p', r = p' +:+ t.
Proof.
  intros Ht. revert l. induction p as [|a p IH]; intros l E.
  - change (EmptyString +:+ t) with t in E. by rewrite rsplit_once_none in E.
  - change (String a p +:+ t) with (String a (p +:+ t)) in E. cbn [rsplit_once] in E.
    destruct (rsplit_once c (p +:+ t)) as [[l' r']|] eqn:E'.
    + injection E as _ <-. by eapply IH.
    + destruct (Ascii.eqb a c); [|done]. injection E as _ <-. by exists p.
Qed.

(** What follows the last separator decides the suffixes without it. *)
Lemma ends_with_digits c s t l r :
  rsplit_once c s = Some (l, r) -> all_digits r = true -> has_char c t = false -> all_digits t = false -> ends_with s t = false.
Proof.
  intros E Hr Hc Ht. destruct (ends_with s t) eqn:Es; [|done]. apply ends_with_Some in Es as [p ->].
  destruct (rsplit_once_suffix c p t l r Hc E) as [p' ->]. rewrite all_digits_app, Ht, andb_false_r in Hr. done.
Qed.

Lemma parse_i64_to_string n : 0 <= n <= i64_max -> parse_i64 (to_string n) = Some n.
Proof.
  intros. rewrite parse_i64_digits by (apply to_string_nonempty || apply all_digits_to_string).
  by apply parse_digits_to_string.
Qed.

Lemma parse_u64_to_string n : 0 <= n <= u64_max -> parse_u64 (to_string n) = Some n.
Proof.
  intros. rewrite parse_u64_digits by (apply to_string_nonempty || apply all_digits_to_string).
  by apply parse_digits_to_string.
Qed.

Lemma pretty_to_string (n : Z) : 0 <= n -> pretty n = to_string n.
Proof. intros. by destruct n. Qed.

Lemma ends_with_app s t u : ends_with t u = true -> ends_with (s +:+ t) u = true.
Proof.
  intros Ht. induction s as [|a s IH]; [done|].
  change (String.eqb (String a (s +:+ t)) u || ends_with (s +:+ t) u = true). by rewrite IH, orb_true_r.
Qed.

Lemma ends_with_app_false s t u :
  (String.length u <= String.length t)%nat -> ends_with t u = false -> ends_with (s +:+ t) u = false.
Proof.
  intros Hl Ht. induction s as [|a s IH]; [done|].
  change (String.eqb (String a (s +:+ t)) u || ends_with (s +:+ t) u = false). rewrite IH, orb_false_r.
  apply String.eqb_neq. intros <-. cbn in Hl. rewrite string_length_app in Hl. lia.
Qed.
