(* ===== verification/Codec.v ===== *)
(** A byte codec for every countable type, for the instances on which theorems are
    evaluated: the bits of the code, one per byte. *)
From stdpp Require Import base gmap strings list numbers countable.
From Stdlib Require Import Strings.Byte.
From S2P Require Import Prelude.

Fixpoint pos_bytes (p : positive) : list byte :=
  match p with
  | xH => []
  | xO p => Byte.x00 :: pos_bytes p
  | xI p => Byte.x01 :: pos_bytes p
  end.
Fixpoint bytes_pos (l : list byte) : positive :=
  match l with
  | [] => xH
  | Byte.x00 :: l => xO (bytes_pos l)
  | _ :: l => xI (bytes_pos l)
  end.
Lemma bytes_pos_bytes p : bytes_pos (pos_bytes p) = p.
Proof. induction p as [p IH|p IH|]; cbn; by rewrite ?IH. Qed.

Definition to_bytes {A} `{Countable A} (a : A) : list byte := pos_bytes (encode a).
Definition of_bytes {A} `{Countable A} (l : list byte) : option A := decode (bytes_pos l).
Lemma of_to_bytes {A} `{Countable A} (a : A) : of_bytes (to_bytes a) = Some a.
Proof. unfold of_bytes, to_bytes. by rewrite bytes_pos_bytes, decode_encode. Qed.
