(* ===== verification/WalBase.v ===== *)
(** Errors, integer codecs and the file system the WAL crate runs on.

    [error.rs]: the error values, without their message text.  [utils.rs]: the
    big-endian codecs and the [crc!] macro; the CRC crate is a parameter.  The
    file system is a directory of inodes: a shared memory map of a file is an
    inode number, so a mapping survives the removal of the path it was opened
    with, two mappings of one file see each other's writes, and a flush copies
    the cached bytes to the durable ones.  Failures of the device itself are
    not modelled; opening a missing path, removing one, or creating an existing
    one fails as the system calls do. *)
From stdpp Require Import base gmap strings list numbers.
From Stdlib Require Import Strings.Byte.
From S2P Require Import Prelude.

#[local] Open Scope Z_scope.

(** [hiqlite_wal::error::Error] *)
Inductive Error : Type :=
| EDecode
| EGeneric
| EEncode
| EFileCorrupted
| EIntegrity
| EInternal
| EInvalidPath
| EInvalidFileName
| EIO
| ELocked
| EParse
| EWalSizeExceeded.

#[export] Instance Error_eqdec : EqDecision Error.
Proof. solve_decision. Defined.

(** [CHKSUM.checksum]: the CRC crate, a parameter. *)
Class Checksum : Type := checksum : list byte -> Z.

(** The cargo features that change the code. *)
Class Features : Type := {
  auto_heal : bool;
  oversized_entry_error : bool;
}.

(** [crc!(input)] *)
Definition crc `{Checksum} (input : list byte) : list byte := le_encode 4 (checksum input).

Definition u64_to_bin (id : Z) (buf : list byte) : list byte := buf ++ be_encode 8 id.
Definition u32_to_bin (id : Z) (buf : list byte) : list byte := buf ++ be_encode 4 id.

Definition bin_to_u64 (buf : list byte) : Res Error Z :=
  b ← unwrap (slice buf 0 8); Ok (be_decode b).
Definition bin_to_u32 (buf : list byte) : Res Error Z :=
  b ← unwrap (slice buf 0 4); Ok (be_decode b).

(** * File system *)
Record Inode : Type := mkInode { i_cache : list byte; i_disk : list byte }.

Record Fs : Type := mkFs {
  dir : gmap string nat;
  inodes : gmap nat Inode;
  next_ino : nat;
}.

Definition fs_empty : Fs := mkFs ∅ ∅ 0.

Definition fs_content (fs : Fs) (i : nat) : list byte :=
  match inodes fs !! i with Some n => i_cache n | None => [] end.
Definition fs_durable (fs : Fs) (i : nat) : list byte :=
  match inodes fs !! i with Some n => i_disk n | None => [] end.

(** Bytes stored through a mapping reach the cache only. *)
Definition fs_store (i : nat) (bs : list byte) (fs : Fs) : Fs :=
  mkFs (dir fs) (<[i := mkInode bs (fs_durable fs i)]> (inodes fs)) (next_ino fs).

(** [msync(MS_SYNC)] *)
Definition fs_msync (i : nat) (fs : Fs) : Fs :=
  mkFs (dir fs) (<[i := mkInode (fs_content fs i) (fs_content fs i)]> (inodes fs)) (next_ino fs).

Definition fs_open (path : string) (fs : Fs) : Res Error nat :=
  match dir fs !! path with Some i => Ok i | None => Err EIO end.

(** [File::create_new] followed by [set_len]: a file of zeros. *)
Definition fs_create_new (path : string) (len : Z) : St Error Fs nat := fun fs =>
  match dir fs !! path with
  | Some _ => (Err EIO, fs)
  | None =>
      let i := next_ino fs in
      (Ok i, mkFs (<[path := i]> (dir fs))
                  (<[i := mkInode (replicate (Z.to_nat len) Byte.x00) []]> (inodes fs)) (S i))
  end.

(** [fs::remove_file]: the path goes away, an open mapping keeps its inode. *)
Definition fs_remove_file (path : string) : St Error Fs unit := fun fs =>
  match dir fs !! path with
  | Some _ => (Ok tt, mkFs (delete path (dir fs)) (inodes fs) (next_ino fs))
  | None => (Err EIO, fs)
  end.

(** [(&mut mmap[a..b]).write_all(bs)]: a range outside the mapping panics; bytes
    that do not fit into the range are an I/O error after the ones that do. *)
Definition mmap_write (i : nat) (a b : Z) (bs : list byte) : St Error Fs unit := fun fs =>
  let l := fs_content fs i in
  match slice l a b with
  | None => (Panic, fs)
  | Some _ =>
      if zlen bs <=? b - a
      then (Ok tt, fs_store i (splice l a bs) fs)
      else (Err EIO, fs_store i (splice l a (take (Z.to_nat (b - a)) bs)) fs)
  end.

(** A directory whose files do not share inodes. *)
Record fs_wf (fs : Fs) : Prop := {
  fw_inj : forall p q i, dir fs !! p = Some i -> dir fs !! q = Some i -> p = q;
  fw_fresh : forall p i, dir fs !! p = Some i -> (i < next_ino fs)%nat;
}.

Lemma fs_content_store i bs fs : fs_content (fs_store i bs fs) i = bs.
Proof. unfold fs_content, fs_store. simpl. rewrite lookup_insert_eq. reflexivity. Qed.

Lemma fs_content_store_ne i j bs fs : i <> j -> fs_content (fs_store i bs fs) j = fs_content fs j.
Proof. intros. unfold fs_content, fs_store. simpl. rewrite lookup_insert_ne by done. reflexivity. Qed.

Lemma fs_content_msync i j fs : fs_content (fs_msync i fs) j = fs_content fs j.
Proof.
  unfold fs_content, fs_msync. simpl. rewrite lookup_insert. case_decide; subst; reflexivity.
Qed.

Lemma fs_durable_msync i fs : fs_durable (fs_msync i fs) i = fs_content fs i.
Proof. unfold fs_durable, fs_msync. simpl. rewrite lookup_insert_eq. reflexivity. Qed.

Lemma mmap_write_ok i a b bs fs :
  0 <= a -> a + zlen bs <= b -> b <= zlen (fs_content fs i) ->
  mmap_write i a b bs fs = (Ok tt, fs_store i (splice (fs_content fs i) a bs) fs).
Proof.
  intros. pose proof (zlen_nonneg bs).
  unfold mmap_write. destruct (slice_is_Some (fs_content fs i) a b) as [x ->]; [lia..|].
  rewrite (proj2 (Z.leb_le _ _)) by lia. reflexivity.
Qed.

Lemma bin_to_u64_be z : is_u64 z -> bin_to_u64 (be_encode 8 z) = Ok z.
Proof.
  intros. unfold bin_to_u64.
  replace 8 with (zlen (be_encode 8 z)) at 2 by (rewrite zlen_be; reflexivity).
  rewrite slice_full. simpl. rewrite be8_decode by done. reflexivity.
Qed.

Lemma bin_to_u32_be z : is_u32 z -> bin_to_u32 (be_encode 4 z) = Ok z.
Proof.
  intros. unfold bin_to_u32.
  replace 4 with (zlen (be_encode 4 z)) at 2 by (rewrite zlen_be; reflexivity).
  rewrite slice_full. simpl. rewrite be4_decode by done. reflexivity.
Qed.

Lemma fs_durable_store i j bs fs : fs_durable (fs_store i bs fs) j = fs_durable fs j.
Proof.
  unfold fs_durable, fs_store. simpl. rewrite lookup_insert. case_decide; [subst|]; reflexivity.
Qed.

Lemma fs_store_store i b1 b2 fs : fs_store i b2 (fs_store i b1 fs) = fs_store i b2 fs.
Proof.
  unfold fs_store at 1. rewrite fs_durable_store. unfold fs_store. simpl.
  rewrite insert_insert_eq. reflexivity.
Qed.

#[global] Arguments fs_store : simpl never.
#[global] Arguments fs_content : simpl never.
#[global] Arguments mmap_write : simpl never.
#[global] Arguments crc : simpl never.

Lemma mmap_write_store i a b bs c fs :
  0 <= a -> a + zlen bs <= b -> b <= zlen c ->
  mmap_write i a b bs (fs_store i c fs) = (Ok tt, fs_store i (splice c a bs) fs).
Proof.
  intros. rewrite mmap_write_ok by (rewrite ?fs_content_store; lia).
  rewrite fs_content_store, fs_store_store. reflexivity.
Qed.
