(* ===== verification/WalFile.v ===== *)
(** One WAL file: [hiqlite-wal/src/wal.rs], [WalRecord] and [WalFile].

    The record layout, the header, appending, reading with the read memo, and
    the two-phase integrity check with its repair. *)
From stdpp Require Import base gmap strings list numbers pretty.
From Stdlib Require Import Ascii Strings.Byte.
From S2P Require Import Prelude Text WalBase.

#[local] Open Scope Z_scope.

Definition MAGIC_NO_WAL : list byte :=
  [Byte.x48; Byte.x51; Byte.x4c; Byte.x5f; Byte.x57; Byte.x41; Byte.x4c].
Definition MIN_WAL_SIZE : Z := 8 * 1024.

Record WalRecord : Type := mkRecord {
  log_id : Z;
  rec_crc : list byte;
  rec_data : list byte;
}.

(** [WalRecord::len] *)
Definition record_len (r : WalRecord) : Z := wrap32 (8 + 4 + 4 + wrap32 (zlen (rec_data r))).

Record WalFile : Type := mkWal {
  version : Z;
  wal_no : Z;
  path : string;
  id_from : Z;
  id_until : Z;
  data_start : option Z;
  data_end : option Z;
  len_max : Z;
  mmap : option nat;
  mmap_mut : option nat;
  wfile : option nat;
}.

(** [reader::LogReadMemo] *)
Record LogReadMemo : Type := mkMemo {
  last_wal_no : Z;
  memo_id_from : Z;
  last_log_id : Z;
  memo_data_end : Z;
}.

Definition set_ids (f u : Z) (w : WalFile) : WalFile :=
  mkWal (version w) (wal_no w) (path w) f u (data_start w) (data_end w)
        (len_max w) (mmap w) (mmap_mut w) (wfile w).
Definition set_data (s e : option Z) (w : WalFile) : WalFile :=
  mkWal (version w) (wal_no w) (path w) (id_from w) (id_until w) s e
        (len_max w) (mmap w) (mmap_mut w) (wfile w).
Definition set_maps (m mm f : option nat) (w : WalFile) : WalFile :=
  mkWal (version w) (wal_no w) (path w) (id_from w) (id_until w) (data_start w) (data_end w)
        (len_max w) m mm f.

(** State of an operation on one file: the file system and [self]. *)
Abbreviation WSt := (St Error (Fs * WalFile)).

Definition w_get : WSt WalFile := fun s => (Ok s.2, s).
Definition w_modify (f : WalFile -> WalFile) : WSt unit := fun s => (Ok tt, (s.1, f s.2)).
Definition w_fs {A} (m : St Error Fs A) : WSt A := fun s =>
  let '(r, fs) := m s.1 in (r, (fs, s.2)).

Section WalFile.
Context `{Checksum} `{Features}.

Definition offset_logs (w : WalFile) : Res Error Z :=
  if version w =? 1 then Ok (7 + 1 + 8 + 8 + 4 + 4) else Panic.

Definition data_end_or_offset (w : WalFile) : Res Error Z :=
  match data_end w with
  | Some e => Ok e
  | None => o ← offset_logs w; Ok (wrap32 o)
  end.

Definition has_space (w : WalFile) (data_len : Z) : Res Error bool :=
  next ← data_end_or_offset w;
  Ok (next + 1 + 8 + 4 + 4 + data_len <? len_max w).

Definition space_left (w : WalFile) : Res Error Z :=
  next ← data_end_or_offset w;
  Ok (sat_sub (len_max w) next).

Definition build_header (w : WalFile) : Res Error (list byte) :=
  let buf := MAGIC_NO_WAL in
  if version w =? 1 then
    let buf := buf ++ [byte_of_Z (version w)] in
    let buf := u64_to_bin (id_from w) buf in
    let buf := u64_to_bin (id_until w) buf in
    let buf := u32_to_bin (default 0 (data_start w)) buf in
    Ok (u32_to_bin (default 0 (data_end w)) buf)
  else Panic.

Definition update_header : WSt unit :=
  w ← w_get;
  buf ← st_lift (build_header w);
  i ← st_lift (unwrap (mmap_mut w));
  w_fs (mmap_write i 0 (zlen buf) buf).

Definition flush : WSt unit :=
  w ← w_get;
  i ← st_lift (unwrap (mmap_mut w));
  w_fs (fun fs => (Ok tt, fs_msync i fs)).

(** Starts the writeback only: nothing is known to be durable afterwards. *)
Definition flush_async : WSt unit :=
  w ← w_get;
  _ ← st_lift (unwrap (wfile w));
  mret tt.

Definition append_log (id : Z) (data : list byte) : WSt unit :=
  w ← w_get;
  '(start, upd) ←
    match data_start w with
    | None =>
        off ← st_lift (offset_logs w);
        w_modify (fun w => set_data (Some (wrap32 off)) (data_end w) (set_ids id (id_until w) w));;
        mret (off, true)
    | Some _ =>
        e ← st_lift (unwrap (data_end w));
        mret (e + 1, false)
    end;
  i ← st_lift (unwrap (mmap_mut w));
  w_fs (mmap_write i (start + 8) (start + 8 + 8) (crc data));;
  let len := wrap32 (zlen data) in
  w_fs (mmap_write i (start + 8 + 4) (start + 8 + 4 + 4) (u32_to_bin len []));;
  w_fs (fun fs => mmap_write i (start + 8 + 4 + 4) (zlen (fs_content fs i)) data fs);;
  w_fs (mmap_write i start (start + 8) (u64_to_bin id []));;
  w_modify (fun w => set_data (data_start w) (Some (wrap32 (start + 8 + 4 + 4 + zlen data)))
                       (set_ids (id_from w) id w));;
  if upd : bool then update_header else mret tt.

Definition clone_no_mmap (w : WalFile) : WalFile := set_maps None None None w.

Definition clone_from_no_mmap (self other : WalFile) : WalFile :=
  set_data (data_start other) (data_end other)
    (set_ids (id_from other) (id_until other) self).

Definition read_bytes (fs : Fs) (w : WalFile) (from until : Z) : Res Error (list byte) :=
  match mmap w with
  | Some i => unwrap (slice (fs_content fs i) from until)
  | None =>
      match mmap_mut w with
      | Some i => unwrap (slice (fs_content fs i) from until)
      | None => Err EGeneric
      end
  end.

Definition read_record_unchecked (fs : Fs) (w : WalFile) (offset : Z) : Res Error WalRecord :=
  if len_max w <? offset + 8 + 4 + 4 then Err EIntegrity else
  head ← read_bytes fs w offset (wrap32 (offset + 8 + 4 + 4));
  idb ← unwrap (slice head 0 8);
  log_id ← bin_to_u64 idb;
  crcb ← unwrap (slice head 8 12);
  let data_from := wrap32 (offset + 8 + 4 + 4) in
  lenb ← unwrap (slice head 12 16);
  data_len ← bin_to_u32 lenb;
  if data_len =? 0 then Err EIntegrity else
  if len_max w <? offset + 8 + 4 + 4 + data_len then Err EIntegrity else
  data ← read_bytes fs w data_from (wrap32 (data_from + data_len));
  Ok (mkRecord log_id crcb data).

(** The result of [read_logs]: the returned offset, the memo and the logs read. *)
Abbreviation ReadResult := (Z * option LogReadMemo * list (Z * list byte))%type.

Fixpoint read_loop (fuel : nat) (fs : Fs) (w : WalFile) (from until : Z)
    (idx offset : Z) (memo : option LogReadMemo) (buf : list (Z * list byte))
    : Res Error ReadResult :=
  match fuel with
  | O => OutOfFuel
  | S fuel =>
      record ← read_record_unchecked fs w idx;
      let id := log_id record in
      let offset := if id =? from then idx else offset in
      let next (buf : list (Z * list byte)) :=
        if until <=? id then
          if version w =? 1 then
            Ok (offset,
                Some (mkMemo (wal_no w) (id_from w) id
                        (wrap32 (idx + 8 + 4 + 4 + wrap32 (zlen (rec_data record))))),
                buf)
          else Panic
        else read_loop fuel fs w from until (wrap32 (idx + record_len record + 1)) offset memo buf in
      if from <=? id then
        if id <=? until then
          if bool_decide (rec_crc record = crc (rec_data record))
          then next (buf ++ [(id, rec_data record)])
          else Err EIntegrity
        else Ok (offset, memo, buf)
      else next buf
  end.

Definition memo_start (w : WalFile) (from data_start : Z) (memo : option LogReadMemo) : Z :=
  match memo with
  | Some m =>
      if (last_wal_no m =? wal_no w) && (memo_id_from m =? id_from w) && (last_log_id m <? from)
      then wrap32 (memo_data_end m + 1)
      else data_start
  | None => data_start
  end.

Definition read_logs (fs : Fs) (w : WalFile) (from until : Z) (memo : option LogReadMemo)
    : Res Error ReadResult :=
  if from <? id_from w then Err EGeneric else
  if id_until w <? until then Err EGeneric else
  if until <? from then Err EGeneric else
  ds ← unwrap (data_start w);
  _ ← unwrap (data_end w);
  read_loop (S (Z.to_nat (len_max w))) fs w from until (memo_start w from ds memo) 0 memo [].

(** ** Files and mappings *)
Definition mmap_op : WSt unit :=
  w ← w_get;
  match mmap w with
  | Some _ => mret tt
  | None =>
      s ← st_get;
      i ← st_lift (fs_open (path w) s.1);
      w_modify (fun w => set_maps (Some i) (mmap_mut w) (wfile w) w)
  end.

Definition mmap_drop (w : WalFile) : WalFile := set_maps None (mmap_mut w) (wfile w) w.

Definition mmap_mut_op : WSt unit :=
  w ← w_get;
  match mmap_mut w with
  | Some _ => mret tt
  | None =>
      s ← st_get;
      i ← st_lift (fs_open (path w) s.1);
      w_modify (fun w => set_maps (mmap w) (Some i) (Some i) w)
  end.

(** [Drop for WalFile]: a file with a writable mapping writes its header and
    flushes when it goes out of scope. *)
Definition drop_file (fs : Fs) (w : WalFile) : Res Error Fs :=
  match mmap_mut w with
  | None => Ok fs
  | Some _ =>
      match (update_header;; flush) (fs, w) with
      | (Ok _, (fs, _)) => Ok fs
      | _ => Panic
      end
  end.

Definition zeros : string := "000000000000000".

Definition build_full_path (base_path : string) (wal_no : Z) : Res Error string :=
  let wal_no_str := to_string wal_no in
  let pad := 16 - Z.of_nat (String.length wal_no_str) in
  if (0 <=? pad) && (pad <=? Z.of_nat (String.length zeros))
  then Ok (base_path +:+ "/" +:+ String.substring 0 (Z.to_nat pad) zeros
             +:+ wal_no_str +:+ ".wal")
  else Panic.

Definition new (wal_no : Z) (base_path : string) (id_from id_until wal_size : Z)
    : Res Error WalFile :=
  if wal_size <? MIN_WAL_SIZE then Err EGeneric else
  path ← build_full_path base_path wal_no;
  Ok (mkWal 1 wal_no path id_from id_until None None wal_size None None None).

Definition create_file : WSt unit :=
  w ← w_get;
  i ← w_fs (fs_create_new (path w) (len_max w));
  buf ← st_lift (build_header w);
  w_fs (mmap_write i 0 (zlen buf) buf).

Definition some_if_nonzero (z : Z) : option Z := if z =? 0 then None else Some z.

Definition read_from_file (fs : Fs) (path_full : string) : Res Error WalFile :=
  match rsplit_once "/"%char path_full with
  | None => Err EInvalidPath
  | Some (_, fname) =>
      match split_once "."%char fname with
      | None => Err EInvalidPath
      | Some (num, ending) =>
          if negb (String.eqb ending "wal") then Err EInvalidFileName else
          match parse_u64 num with
          | None => Err EParse
          | Some wal_no =>
              i ← fs_open path_full fs;
              let bytes := fs_content fs i in
              match slice bytes 0 32 with
              | None => Err EIO
              | Some buf =>
                  magic ← unwrap (slice buf 0 7);
                  if negb (bool_decide (magic = MAGIC_NO_WAL)) then Err EFileCorrupted else
                  v ← unwrap (slice buf 7 8);
                  if negb (bool_decide (v = [Byte.x01])) then Err EFileCorrupted else
                  id_from ← (b ← unwrap (slice buf 8 16); bin_to_u64 b);
                  id_until ← (b ← unwrap (slice buf 16 24); bin_to_u64 b);
                  ds ← (b ← unwrap (slice buf 24 28); bin_to_u32 b);
                  de ← (b ← unwrap (slice buf 28 32); bin_to_u32 b);
                  Ok (mkWal 1 wal_no path_full id_from id_until (some_if_nonzero ds)
                        (some_if_nonzero de) (wrap32 (zlen bytes)) None None None)
              end
          end
      end
  end.

(** ** Integrity check and repair *)

(** Where phase 1 ends: [None] when the file was healed and the check returns,
    otherwise the offset and the last log id seen. *)
Abbreviation Phase1 := (option (Z * option Z)).

Definition heal (offset : Z) (id_before : option Z) : WSt unit :=
  w_modify (fun w =>
    match id_before with
    | Some id => set_data (data_start w) (Some (wrap32 (offset - 1))) (set_ids (id_from w) id w)
    | None => set_data None None (set_ids (id_from w) (id_from w) w)
    end);;
  w ← w_get;
  i ← st_lift (unwrap (mmap_mut w));
  w_fs (mmap_write i offset (offset + 8) (u64_to_bin 0 [])).

Fixpoint check_loop (fuel : nat) (offset : Z) (id_before : option Z) (de : Z) : WSt Phase1 :=
  match fuel with
  | O => st_lift OutOfFuel
  | S fuel =>
      s ← st_get;
      record ← st_lift (read_record_unchecked s.1 s.2 offset);
      if match id_before with
         | Some b => negb (log_id record =? wrap64 (b + 1))
         | None => false
         end
      then st_err EIntegrity
      else if negb (bool_decide (rec_crc record = crc (rec_data record)))
              || bool_decide (rec_data record = [])
      then if auto_heal then heal offset id_before;; mret None else st_err EIntegrity
      else
        let offset := wrap32 (offset + (record_len record + 1)) in
        if (de <? offset) || (log_id record =? id_until s.2)
        then mret (Some (offset, Some (log_id record)))
        else check_loop fuel offset (Some (log_id record)) de
  end.

Fixpoint recover_loop (fuel : nat) (offset : Z) (id_before : option Z) : WSt unit :=
  match fuel with
  | O => st_lift OutOfFuel
  | S fuel =>
      s ← st_get;
      if len_max s.2 <? offset + 8 + 4 + 4 then mret tt else
      match read_record_unchecked s.1 s.2 offset with
      | Ok record =>
          if 0 <? log_id record then
            if match id_before with
               | Some b => negb (log_id record =? wrap64 (b + 1))
               | None => false
               end
            then mret tt
            else if negb (bool_decide (rec_crc record = crc (rec_data record)))
            then mret tt
            else
              w_modify (fun w =>
                set_data (match data_start w with None => Some offset | Some d => Some d end)
                         (Some (wrap32 (offset + record_len record)))
                         (set_ids (id_from w) (log_id record) w));;
              update_header;;
              let offset := wrap32 (offset + (record_len record + 1)) in
              if len_max s.2 <=? offset then mret tt
              else recover_loop fuel offset (Some (log_id record))
          else mret tt
      | Err _ => mret tt
      | Panic => st_panic
      | OutOfFuel => st_lift OutOfFuel
      end
  end.

Definition check_repair_data_integrity : WSt unit :=
  w ← w_get;
  off ← st_lift (offset_logs w);
  let fuel := S (Z.to_nat (len_max w)) in
  p1 ← match data_start w with
       | Some start =>
           de ← st_lift (unwrap (data_end w));
           check_loop fuel start None de
       | None => mret (Some (wrap32 (wrap32 off + 1), None))
       end;
  match p1 with
  | None => mret tt
  | Some (offset, id_before) => recover_loop fuel offset id_before
  end.

End WalFile.
