(* ===== verification/WalFileSpec.v ===== *)
(** What a well-formed WAL file contains, and what appending, reading and
    repairing do to it. *)
From stdpp Require Import base gmap strings list numbers pretty.
From Stdlib Require Import Ascii Strings.Byte.
From S2P Require Import Prelude Text WalBase WalFile.

#[local] Open Scope Z_scope.

(** A log entry as the WAL sees it: its id and its bytes. *)
Abbreviation Entry := (Z * list byte)%type.

(** Bytes a record occupies, without the gap byte that follows it. *)
Definition rec_size (r : Entry) : Z := 16 + zlen r.2.

(** The offset at which the record after [rs] starts. *)
Fixpoint rec_end (off : Z) (rs : list Entry) : Z :=
  match rs with
  | [] => off
  | r :: rs => rec_end (off + rec_size r + 1) rs
  end.

(** The ids of [rs] count up from [i]. *)
Fixpoint ids_from (i : Z) (rs : list Entry) : Prop :=
  match rs with
  | [] => True
  | r :: rs => r.1 = i /\ ids_from (i + 1) rs
  end.

Definition select (from until : Z) (rs : list Entry) : list Entry :=
  filter (fun r => from <= r.1 <= until) rs.

Lemma rec_end_app off r1 r2 : rec_end off (r1 ++ r2) = rec_end (rec_end off r1) r2.
Proof. revert off. induction r1; intros; simpl; auto. Qed.

Lemma rec_size_pos r : 16 <= rec_size r.
Proof. unfold rec_size. pose proof (zlen_nonneg r.2). lia. Qed.

Lemma rec_end_ge off rs : off <= rec_end off rs.
Proof.
  revert off. induction rs as [|r rs IH]; intros off; simpl; [lia|].
  pose proof (rec_size_pos r). specialize (IH (off + rec_size r + 1)). lia.
Qed.

Lemma ids_from_app i r1 r2 : ids_from i (r1 ++ r2) <-> ids_from i r1 /\ ids_from (i + zlen r1) r2.
Proof.
  revert i. induction r1 as [|r r1 IH]; intros i; simpl.
  - change (zlen (@nil Entry)) with 0. rewrite Z.add_0_r. tauto.
  - rewrite IH, zlen_cons. replace (i + 1 + zlen r1) with (i + (1 + zlen r1)) by lia. tauto.
Qed.

Lemma ids_from_bounds i rs r : ids_from i rs -> r ∈ rs -> i <= r.1 < i + zlen rs.
Proof.
  revert i. induction rs as [|x rs IH]; intros i; simpl.
  - intros _ Hin. inversion Hin.
  - intros [<- Hrs] [->|Hin]%elem_of_cons; rewrite zlen_cons; pose proof (zlen_nonneg rs); [lia|].
    specialize (IH _ Hrs Hin). lia.
Qed.

Lemma select_app from until r1 r2 :
  select from until (r1 ++ r2) = select from until r1 ++ select from until r2.
Proof. apply filter_app. Qed.

Lemma select_none from until i rs :
  ids_from i rs -> i + zlen rs <= from \/ until < i -> select from until rs = [].
Proof.
  unfold select. intros Hids Hout.
  assert (forall r, r ∈ rs -> ~ from <= r.1 <= until) as Hno.
  { intros r Hr. pose proof (ids_from_bounds _ _ _ Hids Hr). lia. }
  clear - Hno. induction rs as [|r rs IH]; [done|].
  rewrite filter_cons_False by (apply Hno; left). apply IH. intros. apply Hno. by right.
Qed.

Lemma length_select_gen from until i rs :
  ids_from i rs ->
  zlen (select from until rs) = Z.max 0 (Z.min (until + 1) (i + zlen rs) - Z.max from i).
Proof.
  revert i. induction rs as [|r rs IH]; intros i; simpl.
  - intros _. unfold select. rewrite filter_nil. change (zlen []) with 0. lia.
  - intros [Hr Hids]. pose proof (zlen_nonneg rs). specialize (IH _ Hids).
    rewrite zlen_cons. unfold select in *. rewrite filter_cons.
    case_decide; rewrite ?zlen_cons, IH; lia.
Qed.

(** Every id of the range is found, once and in order. *)
Lemma length_select from until i rs :
  ids_from i rs -> i <= from -> until < i + zlen rs -> from <= until + 1 ->
  zlen (select from until rs) = until + 1 - from.
Proof. intros. rewrite (length_select_gen _ _ i) by done. lia. Qed.

(** The bytes a file is read through: the read mapping if there is one,
    otherwise the writable one. *)
Definition mapped (fs : Fs) (w : WalFile) : option (list byte) :=
  match mmap w with
  | Some i => Some (fs_content fs i)
  | None => fs_content fs <$> mmap_mut w
  end.

Lemma read_bytes_mapped fs w bytes a b :
  mapped fs w = Some bytes -> read_bytes fs w a b = unwrap (slice bytes a b).
Proof.
  unfold mapped, read_bytes. destruct (mmap w) as [i|]; simpl.
  - intros [= <-]. done.
  - destruct (mmap_mut w); simpl; [|done]. intros [= <-]. done.
Qed.

(** Runs the known prefix of a monadic operation on one file. *)
Ltac wstep := repeat (progress (cbv beta iota zeta
  delta [mbind st_bind mret st_ret st_lift st_get st_put st_err st_panic
         w_get w_fs w_modify unwrap]; cbn [fst snd])).

Section Layout.
Context `{Checksum}.

(** A record on disk. *)
Definition rec_bytes (r : Entry) : list byte :=
  be_encode 8 r.1 ++ crc r.2 ++ be_encode 4 (zlen r.2) ++ r.2.

(** A record the format can hold: a u64 id and a non-empty payload. *)
Definition rec_ok (r : Entry) : Prop := is_u64 r.1 /\ r.2 <> [].

(** The records [rs] lie one after the other from [off], with one unused byte
    after each. *)
Fixpoint recs_at (bytes : list byte) (off : Z) (rs : list Entry) : Prop :=
  match rs with
  | [] => True
  | r :: rs =>
      rec_ok r /\ slice bytes off (off + rec_size r) = Some (rec_bytes r) /\
      recs_at bytes (off + rec_size r + 1) rs
  end.

Lemma zlen_crc d : zlen (crc d) = 4.
Proof. apply zlen_le. Qed.
#[local] Hint Rewrite zlen_crc : hql.

Lemma zlen_rec_bytes r : zlen (rec_bytes r) = rec_size r.
Proof.
  unfold rec_bytes, rec_size. zlen_lia.
Qed.

Lemma rec_ok_size r : rec_ok r -> 17 <= rec_size r.
Proof.
  intros [_ Hd]. unfold rec_size. destruct r as [i d]; simpl in *.
  destruct d; [done|]. rewrite zlen_cons. pose proof (zlen_nonneg d). lia.
Qed.

Lemma recs_at_app bytes off r1 r2 :
  recs_at bytes off (r1 ++ r2) <-> recs_at bytes off r1 /\ recs_at bytes (rec_end off r1) r2.
Proof.
  revert off. induction r1 as [|r r1 IH]; intros off; simpl; [tauto|]. rewrite IH. tauto.
Qed.

(** Records survive every change outside the bytes they occupy. *)
Lemma recs_at_ext b1 b2 off rs :
  recs_at b1 off rs ->
  (forall a b, off <= a -> b <= rec_end off rs - 1 -> slice b1 a b = slice b2 a b) ->
  recs_at b2 off rs.
Proof.
  revert off. induction rs as [|r rs IH]; intros off; simpl; [done|].
  intros (Hok & Hs & Hrs) Hext. pose proof (rec_size_pos r).
  pose proof (rec_end_ge (off + rec_size r + 1) rs).
  split; [done|]. split.
  - rewrite <- Hext by lia. done.
  - apply IH; [done|]. intros. apply Hext; lia.
Qed.

Lemma recs_at_bound bytes off rs :
  recs_at bytes off rs -> rs <> [] -> 0 <= off /\ rec_end off rs - 1 <= zlen bytes.
Proof.
  revert off. induction rs as [|r rs IH]; intros off; simpl; [done|].
  intros (Hok & Hs & Hrs) _. apply slice_bounds in Hs as (?&?&?&_).
  split; [lia|]. destruct rs as [|r' rs]; [simpl; lia|].
  apply IH in Hrs; [|done]. lia.
Qed.

Section Read.
Context (fs : Fs) (w : WalFile) (bytes : list byte).
Hypothesis Hmap : mapped fs w = Some bytes.
Hypothesis Hlen : zlen bytes = len_max w.
Hypothesis Hmax : is_u32 (len_max w).

Lemma read_record_at off r :
  rec_ok r -> slice bytes off (off + rec_size r) = Some (rec_bytes r) ->
  read_record_unchecked fs w off = Ok (mkRecord r.1 (crc r.2) r.2).
Proof.
  intros [Hid Hd] Hs. pose proof (slice_bounds _ _ _ _ Hs) as (? & ? & ? & _).
  pose proof (rec_ok_size r (conj Hid Hd)) as Hsz.
  unfold is_u32 in Hmax. unfold rec_size in *.
  unfold rec_bytes in Hs. rewrite !app_assoc in Hs.
  eapply (slice_app _ _ _ _ (off + 16)) in Hs as [Hh Hdat].
  2:{ rewrite !zlen_app, !zlen_be, zlen_crc. lia. }
  unfold read_record_unchecked.
  rewrite (proj2 (Z.ltb_ge _ _)) by lia.
  rewrite !wrap32_small by (unfold is_u32; lia).
  rewrite (read_bytes_mapped _ _ _ _ _ Hmap).
  replace (off + 8 + 4 + 4) with (off + 16) by lia. rewrite Hh.
  set (h := (be_encode 8 r.1 ++ crc r.2) ++ be_encode 4 (zlen r.2)).
  assert (zlen h = 16) as Hhl by (unfold h; rewrite !zlen_app, !zlen_be, zlen_crc; lia).
  pose proof (slice_full h) as Hf. rewrite Hhl in Hf. unfold h in Hf at 2.
  eapply (slice_app _ _ _ _ 12) in Hf as [Hf1 Hf2]; [|rewrite zlen_app, zlen_be, zlen_crc; lia].
  eapply (slice_app _ _ _ _ 8) in Hf1 as [Hf1 Hf3]; [|rewrite zlen_be; lia].
  step_res. rewrite Hf1, Hf2, Hf3. step_res.
  rewrite bin_to_u64_be by done. step_res.
  rewrite bin_to_u32_be by (unfold is_u32; lia). step_res.
  rewrite (proj2 (Z.eqb_neq _ _)) by lia.
  rewrite (proj2 (Z.ltb_ge _ _)) by lia.
  rewrite wrap32_small by (unfold is_u32; lia).
  rewrite (read_bytes_mapped _ _ _ _ _ Hmap).
  replace (off + 16 + zlen r.2) with (off + (16 + zlen r.2)) by lia.
  rewrite Hdat. reflexivity.
Qed.

Lemma record_len_at r : 0 <= rec_size r < 2 ^ 32 ->
  record_len (mkRecord r.1 (crc r.2) r.2) = rec_size r.
Proof.
  unfold record_len, rec_size. simpl. intros. pose proof (zlen_nonneg r.2).
  rewrite (wrap32_small (zlen r.2)) by (unfold is_u32; lia).
  rewrite wrap32_small; [lia|]. unfold is_u32. lia.
Qed.

Hypothesis Hmax1 : len_max w < u32_max.
Hypothesis Hver : version w = 1.

Lemma recs_at_cons_bound off r rs :
  recs_at bytes off (r :: rs) -> 0 <= off /\ off + rec_size r <= len_max w < 2 ^ 32 - 1.
Proof.
  intros (_ & Hs & _). apply slice_bounds in Hs. unfold u32_max in Hmax1. lia.
Qed.

(** Reading from a position at which the records [rs] with ids from [i] on lie:
    the records of the range, the offset of the first one, and a memo pointing
    behind the last one. *)
Lemma read_loop_spec from until rs :
  forall fuel i idx offset memo buf,
  recs_at bytes idx rs -> ids_from i rs -> from <= until -> i <= until < i + zlen rs ->
  (length rs <= fuel)%nat ->
  read_loop fuel fs w from until idx offset memo buf =
  Ok (if i <=? from then rec_end idx (take (Z.to_nat (from - i)) rs) else offset,
      Some (mkMemo (wal_no w) (id_from w) until
              (rec_end idx (take (Z.to_nat (until - i + 1)) rs) - 1)),
      buf ++ select from until rs).
Proof.
  induction rs as [|r rs IH]; intros fuel i idx offset memo buf Hat Hids Hfu Hi Hfuel.
  { change (zlen []) with 0 in Hi. lia. }
  destruct fuel as [|fuel]; [simpl in Hfuel; lia|].
  pose proof (recs_at_cons_bound _ _ _ Hat) as [Hidx Hb]. pose proof (rec_size_pos r).
  destruct Hat as (Hok & Hs & Hrs). destruct Hids as [Hr Hids].
  destruct r as [ri d]; cbn [fst] in Hr; subst ri.
  rewrite zlen_cons in Hi. cbn [read_loop]. rewrite (read_record_at _ _ Hok Hs). step_res.
  rewrite record_len_at by lia. cbn [log_id rec_data rec_crc fst snd]. rewrite Hver.
  rewrite bool_decide_eq_true_2 by done. cbn [Z.eqb Pos.eqb].
  replace (wrap32 (idx + 8 + 4 + 4 + wrap32 (zlen d))) with (idx + rec_size (i, d)).
  2:{ unfold rec_size in *. cbn [snd] in *. pose proof (zlen_nonneg d).
      rewrite (wrap32_small (zlen d)), wrap32_small by (unfold is_u32; lia). lia. }
  rewrite wrap32_small by (unfold is_u32; lia).
  unfold select at 1. rewrite filter_cons. cbn [fst].
  destruct (decide (until = i)) as [->|Hne].
  - change (filter _ rs) with (select from i rs).
    rewrite (select_none _ _ (i + 1)) by (done || lia).
    rewrite Z.leb_refl, decide_True by lia.
    rewrite (proj2 (Z.leb_le from i)) by lia.
    replace (Z.to_nat (i - i + 1)) with 1%nat by lia.
    cbn [take rec_end]. rewrite take_0. cbn [rec_end].
    destruct (Z.eqb_spec i from) as [->|].
    + rewrite Z.leb_refl, Z.sub_diag. simpl. repeat f_equal. lia.
    + rewrite (proj2 (Z.leb_gt i from)) by lia. repeat f_equal. lia.
  - rewrite (proj2 (Z.leb_gt until i)) by lia. rewrite (proj2 (Z.leb_le i until)) by lia.
    replace (Z.to_nat (until - i + 1)) with (S (Z.to_nat (until - (i + 1) + 1))) by lia.
    cbn [take rec_end].
    assert (forall o b,
      read_loop fuel fs w from until (idx + rec_size (i, d) + 1) o memo b =
      Ok (if i + 1 <=? from
          then rec_end (idx + rec_size (i, d) + 1) (take (Z.to_nat (from - (i + 1))) rs) else o,
          Some (mkMemo (wal_no w) (id_from w) until
            (rec_end (idx + rec_size (i, d) + 1) (take (Z.to_nat (until - (i + 1) + 1)) rs) - 1)),
          b ++ select from until rs)) as Hrec.
    { intros. apply IH; try done; simpl in Hfuel; lia. }
    destruct (Z.leb_spec from i).
    + rewrite Hrec, decide_True by lia. rewrite (proj2 (Z.leb_gt (i + 1) from)) by lia.
      change (filter _ rs) with (select from until rs). rewrite <- app_assoc.
      destruct (Z.eqb_spec i from) as [->|].
      * rewrite Z.leb_refl, Z.sub_diag. reflexivity.
      * rewrite (proj2 (Z.leb_gt i from)) by lia. reflexivity.
    + rewrite Hrec, decide_False by lia. rewrite !(proj2 (Z.leb_le _ _)) by lia.
      replace (Z.to_nat (from - i)) with (S (Z.to_nat (from - (i + 1)))) by lia. reflexivity.
Qed.

(** Whatever the bytes are, a read at a non-negative offset is either refused
    or yields a non-empty record inside the file. *)
Lemma read_record_cases off : 0 <= off ->
  (exists e, read_record_unchecked fs w off = Err e) \/
  (exists r, read_record_unchecked fs w off = Ok r /\ 1 <= zlen (rec_data r) /\
             off + 16 + zlen (rec_data r) <= len_max w).
Proof.
  intros Hoff. unfold is_u32 in Hmax. unfold read_record_unchecked.
  destruct (Z.ltb_spec (len_max w) (off + 8 + 4 + 4)); [eauto|].
  rewrite !wrap32_small by (unfold is_u32; lia).
  rewrite (read_bytes_mapped _ _ _ _ _ Hmap).
  destruct (slice_is_Some bytes off (off + 8 + 4 + 4)) as [h Hh]; [lia..|].
  rewrite Hh. step_res. apply slice_bounds in Hh as (_ & _ & _ & Hhl).
  destruct (slice_is_Some h 0 8) as [h1 Hh1]; [lia..|].
  destruct (slice_is_Some h 8 12) as [h2 Hh2]; [lia..|].
  destruct (slice_is_Some h 12 16) as [h3 Hh3]; [lia..|].
  rewrite Hh1, Hh2, Hh3. apply slice_bounds in Hh1, Hh3. step_res.
  unfold bin_to_u64, bin_to_u32.
  destruct (slice_is_Some h1 0 8) as [x1 ->]; [lia..|]. step_res.
  destruct (slice_is_Some h3 0 4) as [x3 Hx3]; [lia..|]. rewrite Hx3. step_res.
  pose proof (be_decode_bound x3).
  destruct (Z.eqb_spec (be_decode x3) 0); [eauto|].
  destruct (Z.ltb_spec (len_max w) (off + 8 + 4 + 4 + be_decode x3)); [eauto|].
  rewrite wrap32_small by (unfold is_u32; lia).
  rewrite (read_bytes_mapped _ _ _ _ _ Hmap).
  destruct (slice_is_Some bytes (off + 8 + 4 + 4) (off + 8 + 4 + 4 + be_decode x3)) as [d Hd]; [lia..|].
  rewrite Hd. step_res. right. eexists. split; [reflexivity|]. simpl.
  apply slice_bounds in Hd. lia.
Qed.

(** A log the reader hands out: a stored record with a matching checksum. *)
Definition stored (r : Entry) : Prop :=
  exists pos, read_record_unchecked fs w pos = Ok (mkRecord r.1 (crc r.2) r.2).

Lemma read_loop_sound from until fuel :
  forall idx offset memo buf, 0 <= idx -> Z.max 0 (len_max w - idx) < 17 * Z.of_nat fuel ->
  match read_loop fuel fs w from until idx offset memo buf with
  | Ok (_, _, buf') =>
      exists out, buf' = buf ++ out /\ Forall (fun r => stored r /\ from <= r.1 <= until) out
  | Err _ => True
  | Panic | OutOfFuel => False
  end.
Proof.
  unfold u32_max in Hmax1.
  induction fuel as [|fuel IH]; intros idx offset memo buf Hidx Hfuel; [lia|].
  cbn [read_loop].
  destruct (read_record_cases idx Hidx) as [[e ->]|(r & Hr & Hd & Hin)]; [exact I|].
  rewrite Hr. step_res. rewrite Hver. cbn [Z.eqb Pos.eqb].
  assert (record_len r = 16 + zlen (rec_data r)) as ->.
  { unfold record_len. rewrite (wrap32_small (zlen _)), wrap32_small; unfold is_u32; lia. }
  rewrite (wrap32_small (idx + (16 + zlen (rec_data r)) + 1)) by (unfold is_u32; lia).
  destruct (Z.leb_spec from (log_id r)); [destruct (Z.leb_spec (log_id r) until)|].
  - case_bool_decide as Hc; [|exact I].
    assert (stored (log_id r, rec_data r) /\ from <= log_id r <= until) as Hst.
    { split; [|lia]. exists idx. cbn [fst snd]. rewrite <- Hc, Hr. destruct r. reflexivity. }
    destruct (Z.leb_spec until (log_id r)).
    + exists [(log_id r, rec_data r)]. auto.
    + specialize (IH (idx + (16 + zlen (rec_data r)) + 1)
        (if log_id r =? from then idx else offset) memo
        (buf ++ [(log_id r, rec_data r)]) ltac:(lia) ltac:(lia)).
      destruct (read_loop _ _ _ _ _ _ _ _ _) as [[[]]| | |]; try done.
      destruct IH as (out & -> & Hout). exists ((log_id r, rec_data r) :: out).
      rewrite <- app_assoc. auto.
  - exists []. rewrite app_nil_r. auto.
  - destruct (Z.leb_spec until (log_id r)); [exists []; rewrite app_nil_r; auto|].
    apply IH; lia.
Qed.

(** Reading at a position behind which nothing but a bad record lies. *)
Lemma read_loop_fuel_ok idx : 0 <= idx ->
  Z.max 0 (len_max w - idx) < 17 * Z.of_nat (S (Z.to_nat (len_max w))).
Proof. lia. Qed.

End Read.

(** ** Appending *)

(** The bytes after the four writes of [append_log]. *)
Definition append_bytes (bytes : list byte) (start : Z) (r : Entry) : list byte :=
  splice (splice (splice (splice bytes (start + 8) (crc r.2))
    (start + 8 + 4) (be_encode 4 (zlen r.2))) (start + 8 + 4 + 4) r.2) start (be_encode 8 r.1).

Lemma append_bytes_spec bytes start r :
  0 <= start -> start + rec_size r <= zlen bytes ->
  let bytes' := append_bytes bytes start r in
  zlen bytes' = zlen bytes /\
  slice bytes' start (start + rec_size r) = Some (rec_bytes r) /\
  (forall a b, b <= start \/ start + rec_size r <= a -> slice bytes' a b = slice bytes a b).
Proof.
  intros Hs Hfit. unfold rec_size in *. pose proof (zlen_nonneg r.2) as Hn.
  unfold append_bytes.
  set (b1 := splice bytes (start + 8) (crc r.2)).
  assert (zlen b1 = zlen bytes) as H1 by (apply zlen_splice; rewrite ?zlen_crc; lia).
  set (b2 := splice b1 (start + 8 + 4) (be_encode 4 (zlen r.2))).
  assert (zlen b2 = zlen bytes) as H2 by (rewrite <- H1; apply zlen_splice; rewrite ?zlen_be; lia).
  set (b3 := splice b2 (start + 8 + 4 + 4) r.2).
  assert (zlen b3 = zlen bytes) as H3 by (rewrite <- H2; apply zlen_splice; lia).
  assert (zlen (splice b3 start (be_encode 8 r.1)) = zlen bytes) as H4
    by (rewrite <- H3; apply zlen_splice; rewrite ?zlen_be; lia).
  split; [done|]. split.
  - unfold rec_bytes.
    apply (slice_join _ _ _ _ (start + 8)).
    { replace (start + 8) with (start + zlen (be_encode 8 r.1)) by (rewrite zlen_be; lia).
      apply slice_splice_same; rewrite ?zlen_be; lia. }
    apply (slice_join _ _ _ _ (start + 8 + 4)).
    { rewrite slice_splice_other by (rewrite ?zlen_be; lia). unfold b3.
      rewrite slice_splice_other by lia. unfold b2.
      rewrite slice_splice_other by (rewrite ?zlen_be; lia). unfold b1.
      replace (start + 8 + 4) with (start + 8 + zlen (crc r.2)) by (rewrite zlen_crc; lia).
      apply slice_splice_same; rewrite ?zlen_crc; lia. }
    apply (slice_join _ _ _ _ (start + 8 + 4 + 4)).
    { rewrite slice_splice_other by (rewrite ?zlen_be; lia). unfold b3.
      rewrite slice_splice_other by lia. unfold b2.
      replace (start + 8 + 4 + 4) with (start + 8 + 4 + zlen (be_encode 4 (zlen r.2)))
        by (rewrite zlen_be; lia).
      apply slice_splice_same; rewrite ?zlen_be; lia. }
    rewrite slice_splice_other by (rewrite ?zlen_be; lia). unfold b3.
    replace (start + (16 + zlen r.2)) with (start + 8 + 4 + 4 + zlen r.2) by lia.
    apply slice_splice_same; lia.
  - intros a b Hd. rewrite slice_splice_other by (rewrite ?zlen_be; lia). unfold b3.
    rewrite slice_splice_other by lia. unfold b2.
    rewrite slice_splice_other by (rewrite ?zlen_be; lia). unfold b1.
    apply slice_splice_other; rewrite ?zlen_crc; lia.
Qed.

(** ** Well-formed files *)

Definition data_ok (bytes : list byte) (w : WalFile) (rs : list Entry) : Prop :=
  match rs with
  | [] => data_start w = None /\ data_end w = None
  | _ :: _ => exists ds,
      32 <= ds /\ data_start w = Some ds /\ data_end w = Some (rec_end ds rs - 1) /\
      recs_at bytes ds rs /\ ids_from (id_from w) rs /\ id_until w = id_from w + zlen rs - 1
  end.

(** [w] describes a file with contents [bytes] that holds exactly the logs [rs]. *)
Record file_ok (bytes : list byte) (w : WalFile) (rs : list Entry) : Prop := {
  fo_version : version w = 1;
  fo_len : zlen bytes = len_max w;
  fo_max : 32 <= len_max w < u32_max;
  fo_data : data_ok bytes w rs;
}.

Lemma offset_logs_ok w : version w = 1 -> offset_logs w = Ok 32.
Proof. unfold offset_logs. intros ->. reflexivity. Qed.

(** Where the next record of [w] starts. *)
Definition next_start (w : WalFile) : Z :=
  match data_end w with Some e => e + 1 | None => 32 end.

(** [w] after the log [r] was appended. *)
Definition appended (w : WalFile) (r : Entry) : WalFile :=
  set_data (match data_start w with None => Some 32 | Some d => Some d end)
           (Some (next_start w + rec_size r))
           (set_ids (match data_start w with None => r.1 | Some _ => id_from w end) r.1 w).

Lemma file_ok_next bytes w rs r :
  file_ok bytes w rs -> has_space w (zlen r.2) = Ok true ->
  32 <= next_start w /\ next_start w + rec_size r < len_max w.
Proof.
  intros [Hv Hl Hm Hd] Hsp. unfold has_space, data_end_or_offset, next_start, rec_size in *.
  rewrite offset_logs_ok in Hsp by done. step_res_in Hsp.
  destruct rs as [|r0 rs].
  - destruct Hd as [_ Hde]. rewrite Hde in *. step_res_in Hsp.
    injection Hsp as Hsp. apply Z.ltb_lt in Hsp. rewrite wrap32_small in Hsp by (unfold is_u32; lia). lia.
  - destruct Hd as (ds & Hds & _ & Hde & Hat & _). rewrite Hde in *. step_res_in Hsp.
    injection Hsp as Hsp. apply Z.ltb_lt in Hsp. cbv iota.
    pose proof (rec_end_ge ds (r0 :: rs)). cbn [rec_end] in *. lia.
Qed.

Lemma build_header_ok w : version w = 1 -> exists h, build_header w = Ok h /\ zlen h = 32.
Proof.
  intros Hv. unfold build_header. rewrite Hv. eexists. split; [reflexivity|].
  unfold u64_to_bin, u32_to_bin. rewrite !zlen_app, !zlen_be. reflexivity.
Qed.

(** The header bytes of [w]. *)
Definition header_of (w : WalFile) : list byte :=
  match build_header w with Ok h => h | _ => [] end.

Lemma header_of_ok w : version w = 1 ->
  build_header w = Ok (header_of w) /\ zlen (header_of w) = 32.
Proof.
  intros Hv. unfold header_of. destruct (build_header_ok w Hv) as (h & -> & Hh). auto.
Qed.

Lemma update_header_ok fs w i :
  version w = 1 -> mmap_mut w = Some i -> 32 <= zlen (fs_content fs i) ->
  update_header (fs, w) =
  (Ok tt, (fs_store i (splice (fs_content fs i) 0 (header_of w)) fs, w)).
Proof.
  intros Hv Hi Hl. destruct (header_of_ok w Hv) as [Hh Hz].
  unfold update_header. wstep. rewrite Hh. wstep. rewrite Hi. wstep.
  rewrite mmap_write_ok by lia. wstep. reflexivity.
Qed.

(** A file is as well-formed as the bytes its records occupy. *)
Lemma file_ok_ext b1 b2 w rs :
  file_ok b1 w rs -> zlen b2 = zlen b1 ->
  (forall x y, 32 <= x -> y < next_start w -> slice b1 x y = slice b2 x y) ->
  file_ok b2 w rs.
Proof.
  intros [Hv Hl Hm Hd] Hz Hext. split; [done|lia|done|].
  destruct rs as [|r rs]; [done|]. destruct Hd as (ds & Hds & ? & Hde & Hat & ? & ?).
  exists ds. do 3 (split; [done|]). split; [|done].
  eapply recs_at_ext; [exact Hat|]. intros. apply Hext; [lia|].
  unfold next_start. rewrite Hde. lia.
Qed.

Lemma file_ok_extend bytes w rs r :
  file_ok bytes w rs -> rs <> [] -> recs_at bytes (next_start w) [r] -> r.1 = id_until w + 1 ->
  file_ok bytes (appended w r) (rs ++ [r]).
Proof.
  intros [Hv Hl Hm Hd] Hne Hat1 Hid. split; [done..|].
  destruct rs as [|r0 rs]; [done|]. destruct Hd as (ds & Hds & Hst & Hde & Hat & Hids & Hun).
  assert (next_start w = rec_end ds (r0 :: rs)) as Hn by (unfold next_start; rewrite Hde; lia).
  rewrite Hn in Hat1. cbn [app]. exists ds. unfold appended. rewrite Hst.
  cbn [data_start data_end set_data set_ids id_from id_until].
  change (r0 :: rs ++ [r]) with ((r0 :: rs) ++ [r]).
  rewrite rec_end_app, zlen_app, Hn. change (zlen [r]) with 1.
  split; [done|]. split; [done|]. split; [cbn; f_equal; lia|].
  split; [by apply recs_at_app|]. split; [|lia].
  apply ids_from_app. split; [done|]. cbn [ids_from]. split; [lia|done].
Qed.

(** Writing the header does not touch the records. *)
Lemma file_ok_header bytes w rs :
  file_ok bytes w rs -> file_ok (splice bytes 0 (header_of w)) w rs.
Proof.
  intros Hok. pose proof Hok as [Hv Hl Hm _]. destruct (header_of_ok w Hv) as [_ Hz].
  eapply file_ok_ext; [exact Hok|apply zlen_splice; lia|].
  intros. symmetry. apply slice_splice_other; lia.
Qed.

(** The contents of the file after [r] was appended. *)
Definition append_content (bytes : list byte) (w : WalFile) (r : Entry) : list byte :=
  let b := append_bytes bytes (next_start w) r in
  match data_start w with
  | None => splice b 0 (header_of (appended w r))
  | Some _ => b
  end.

Lemma file_ok_append_bytes bytes w rs r :
  file_ok bytes w rs -> rec_ok r -> has_space w (zlen r.2) = Ok true ->
  (rs = [] \/ r.1 = id_until w + 1) ->
  file_ok (append_bytes bytes (next_start w) r) (appended w r) (rs ++ [r]).
Proof.
  intros Hok Hr Hsp Hid. pose proof (file_ok_next _ _ _ _ Hok Hsp) as [Hs Hf].
  pose proof Hok as [Hv Hl Hm Hd].
  destruct (append_bytes_spec bytes (next_start w) r) as (Hz & Hrec & Hext); [lia..|].
  assert (file_ok (append_bytes bytes (next_start w) r) w rs) as Hok'.
  { eapply file_ok_ext; [exact Hok|done|]. intros. symmetry. apply Hext. lia. }
  destruct rs as [|r0 rs].
  - split; [done|rewrite Hz; done|done|]. destruct Hd as [Hds Hde]. unfold appended.
    assert (next_start w = 32) as Hn by (unfold next_start; by rewrite Hde).
    rewrite Hds, Hn in *. exists 32. cbn. change (zlen [r]) with 1.
    split; [lia|]. split; [done|]. split; [f_equal; lia|].
    split; [done|]. split; [done|]. lia.
  - apply file_ok_extend; [done..| |by destruct Hid]. cbn. auto.
Qed.

Lemma file_ok_append bytes w rs r :
  file_ok bytes w rs -> rec_ok r -> has_space w (zlen r.2) = Ok true ->
  (rs = [] \/ r.1 = id_until w + 1) ->
  file_ok (append_content bytes w r) (appended w r) (rs ++ [r]).
Proof.
  intros. unfold append_content.
  destruct (data_start w); [|apply file_ok_header]; by apply file_ok_append_bytes.
Qed.

(** The four writes of [append_log]. *)
Lemma append_writes fs i start r :
  0 <= start -> start + rec_size r <= zlen (fs_content fs i) -> zlen r.2 < 2 ^ 32 ->
  (_ ← mmap_write i (start + 8) (start + 8 + 8) (crc r.2);
   _ ← mmap_write i (start + 8 + 4) (start + 8 + 4 + 4) (u32_to_bin (wrap32 (zlen r.2)) []);
   _ ← (fun fs => mmap_write i (start + 8 + 4 + 4) (zlen (fs_content fs i)) r.2 fs);
   mmap_write i start (start + 8) (u64_to_bin r.1 [])) fs =
  (Ok tt, fs_store i (append_bytes (fs_content fs i) start r) fs).
Proof.
  destruct r as [id d]. cbn [fst snd]. intros Hs Hf Hlt.
  unfold rec_size in Hf. cbn [snd] in Hf. pose proof (zlen_nonneg d).
  unfold u32_to_bin, u64_to_bin. rewrite !app_nil_l, wrap32_small by (unfold is_u32; lia).
  unfold append_bytes. cbn [fst snd].
  set (b1 := splice (fs_content fs i) (start + 8) (crc d)).
  assert (zlen b1 = zlen (fs_content fs i)) by (apply zlen_splice; rewrite ?zlen_crc; lia).
  set (b2 := splice b1 (start + 8 + 4) (be_encode 4 (zlen d))).
  assert (zlen b2 = zlen b1) by (apply zlen_splice; rewrite ?zlen_be; lia).
  assert (zlen (splice b2 (start + 8 + 4 + 4) d) = zlen b2) by (apply zlen_splice; lia).
  wstep. rewrite mmap_write_ok by (rewrite ?zlen_crc; lia). fold b1. wstep.
  rewrite mmap_write_store by (rewrite ?zlen_be; lia). fold b2. wstep.
  rewrite fs_content_store, mmap_write_store by lia. wstep.
  rewrite mmap_write_store by (rewrite ?zlen_be; lia). reflexivity.
Qed.

Lemma append_log_ok fs w i rs r :
  file_ok (fs_content fs i) w rs -> mmap_mut w = Some i -> has_space w (zlen r.2) = Ok true ->
  append_log r.1 r.2 (fs, w) =
  (Ok tt, (fs_store i (append_content (fs_content fs i) w r) fs, appended w r)).
Proof.
  intros Hok Hi Hsp. pose proof (file_ok_next _ _ _ _ Hok Hsp) as [Hs Hf].
  destruct (append_bytes_spec (fs_content fs i) (next_start w) r) as (Hz & _ & _).
  { lia. } { destruct Hok. lia. }
  pose proof (append_writes fs i (next_start w) r ltac:(lia)) as Hw.
  destruct Hok as [Hv Hl Hm Hd]. unfold u32_max in Hm. pose proof (rec_size_pos r).
  specialize (Hw ltac:(lia) ltac:(unfold rec_size in *; pose proof (zlen_nonneg r.2); lia)).
  assert (wrap32 (next_start w + 8 + 4 + 4 + zlen r.2) = next_start w + rec_size r) as Hend.
  { unfold rec_size in *. rewrite wrap32_small by (unfold is_u32; lia). lia. }
  destruct r as [id d]. cbn [fst snd] in *.
  unfold append_log. revert Hw. wstep. unfold append_content, appended. cbn [fst snd].
  destruct (data_start w) as [ds|] eqn:Eds.
  - destruct rs as [|r0 rs]; [destruct Hd; congruence|].
    destruct Hd as (ds' & _ & _ & Hde & _).
    assert (rec_end ds' (r0 :: rs) - 1 + 1 = next_start w) as Hn by (unfold next_start; by rewrite Hde).
    rewrite Hde. wstep. rewrite Hi. wstep. rewrite Hn.
    repeat (match goal with |- context [mmap_write ?a ?b ?c ?d ?e] =>
              destruct (mmap_write a b c d e) as [[[]| | |] ?]; cbn [fst snd]; try (intros; discriminate) end).
    intros [= ->]. rewrite Hend. cbn. rewrite Eds. reflexivity.
  - destruct rs as [|r0 rs]; [|destruct Hd as (? & _ & Hst & _); congruence].
    destruct Hd as [_ Hde].
    assert (32 = next_start w) as Hn by (unfold next_start; by rewrite Hde).
    rewrite offset_logs_ok by done. wstep. rewrite Hi. wstep. rewrite Hn.
    repeat (match goal with |- context [mmap_write ?a ?b ?c ?d ?e] =>
              destruct (mmap_write a b c d e) as [[[]| | |] ?]; cbn [fst snd]; try (intros; discriminate) end).
    intros [= ->]. rewrite Hend. rewrite <- Hn in Hz |- *.
    rewrite (update_header_ok _ _ i); [|done|done|rewrite fs_content_store; lia].
    rewrite fs_content_store, fs_store_store. reflexivity.
Qed.

(** ** Reading a range *)

Lemma rec_end_length off rs : off + 17 * zlen rs <= rec_end off rs.
Proof.
  revert off. induction rs as [|r rs IH]; intros off; [change (zlen []) with 0; simpl; lia|].
  rewrite zlen_cons. cbn [rec_end]. pose proof (rec_size_pos r).
  specialize (IH (off + rec_size r + 1)). lia.
Qed.

Lemma rec_end_take_drop off rs k n :
  rec_end (rec_end off (take k rs)) (take n (drop k rs)) = rec_end off (take (k + n) rs).
Proof. rewrite <- rec_end_app, take_take_drop. reflexivity. Qed.

(** A memo that may be used for [w]: it points behind the record it names. *)
Definition memo_ok (w : WalFile) (rs : list Entry) (memo : option LogReadMemo) : Prop :=
  match memo with
  | None => True
  | Some m =>
      last_wal_no m = wal_no w -> memo_id_from m = id_from w -> last_log_id m <= id_until w ->
      id_from w <= last_log_id m /\
      memo_data_end m =
        rec_end (default 32 (data_start w)) (take (Z.to_nat (last_log_id m - id_from w + 1)) rs) - 1
  end.

(** The result [read_logs] has to return. *)
Definition read_result (w : WalFile) (rs : list Entry) (from until : Z)
    : Z * option LogReadMemo * list Entry :=
  let ds := default 32 (data_start w) in
  (rec_end ds (take (Z.to_nat (from - id_from w)) rs),
   Some (mkMemo (wal_no w) (id_from w) until
           (rec_end ds (take (Z.to_nat (until - id_from w + 1)) rs) - 1)),
   select from until rs).

Lemma read_result_memo w rs from until :
  id_from w <= until -> memo_ok w rs (read_result w rs from until).1.2.
Proof. intros. cbn. auto. Qed.

Lemma read_logs_ok fs w bytes rs from until memo :
  file_ok bytes w rs -> mapped fs w = Some bytes -> rs <> [] ->
  id_from w <= from -> from <= until -> until <= id_until w -> memo_ok w rs memo ->
  read_logs fs w from until memo = Ok (read_result w rs from until).
Proof.
  intros [Hv Hl Hm Hd] Hmap Hne Hf Hfu Hu Hmemo.
  destruct rs as [|r0 rs0]; [done|]. remember (r0 :: rs0) as rs eqn:Ers.
  assert (data_ok bytes w rs -> exists ds, 32 <= ds /\ data_start w = Some ds /\
    data_end w = Some (rec_end ds rs - 1) /\ recs_at bytes ds rs /\
    ids_from (id_from w) rs /\ id_until w = id_from w + zlen rs - 1) as Hdd
    by (rewrite Ers; exact (fun x => x)).
  destruct (Hdd Hd) as (ds & Hds & Hst & Hde & Hat & Hids & Hun). clear Hdd Hd Ers r0 rs0.
  unfold read_logs, read_result.
  rewrite !(proj2 (Z.ltb_ge _ _)) by lia. rewrite Hst, Hde. step_res. cbn [default from_option].
  pose proof (recs_at_bound _ _ _ Hat Hne) as [_ Hbd].
  pose proof (rec_end_length ds rs). unfold u32_max in *.
  assert (exists k, (k <= length rs)%nat /\ id_from w + Z.of_nat k <= from /\
            memo_start w from ds memo = rec_end ds (take k rs)) as (k & Hk & Hkf & ->).
  { unfold memo_start. destruct memo as [m|]; [|exists 0%nat; cbn; rewrite take_0; split; [lia|split; [lia|done]]].
    destruct (_ && _ && _) eqn:E; [|exists 0%nat; rewrite take_0; split; [lia|split; [lia|done]]].
    apply andb_prop in E as [[E1 E2]%andb_prop E3]. apply Z.eqb_eq in E1, E2. apply Z.ltb_lt in E3.
    destruct (Hmemo E1 E2 ltac:(lia)) as [Hlo Hmd]. rewrite Hst in Hmd. cbn in Hmd.
    exists (Z.to_nat (last_log_id m - id_from w + 1)). unfold zlen in *.
    split; [lia|]. split; [lia|]. rewrite Hmd.
    pose proof (rec_end_ge ds (take (Z.to_nat (last_log_id m - id_from w + 1)) rs)).
    pose proof (rec_end_ge (rec_end ds (take (Z.to_nat (last_log_id m - id_from w + 1)) rs))
                 (drop (Z.to_nat (last_log_id m - id_from w + 1)) rs)) as Hge.
    rewrite <- rec_end_app, take_drop in Hge.
    rewrite wrap32_small by (unfold is_u32; lia). lia. }
  rewrite <- (take_drop k rs) in Hat, Hids.
  apply recs_at_app in Hat as [_ Hat]. apply ids_from_app in Hids as [Hids1 Hids2].
  assert (zlen (take k rs) = Z.of_nat k) as Hzk by (unfold zlen; rewrite length_take; lia).
  rewrite Hzk in Hids2.
  assert (zlen (drop k rs) = zlen rs - Z.of_nat k) as Hzd by (unfold zlen; rewrite length_drop; lia).
  rewrite (read_loop_spec fs w bytes Hmap Hl) with (rs := drop k rs) (i := id_from w + Z.of_nat k);
    try done; try lia; try (unfold is_u32, u32_max, zlen in *; lia).
  rewrite (proj2 (Z.leb_le _ _)) by lia. rewrite !rec_end_take_drop, app_nil_l.
  assert (select from until (drop k rs) = select from until rs) as ->.
  { rewrite <- (take_drop k rs) at 2. rewrite select_app.
    rewrite (select_none from until (id_from w) (take k rs)) by (done || (left; lia)). done. }
  repeat f_equal; lia.
Qed.

(** ** Integrity check and repair *)

Lemma read_record_ext fs w b fs' w' b' off :
  mapped fs w = Some b -> mapped fs' w' = Some b' -> len_max w = len_max w' ->
  (forall x y, 32 <= x -> slice b x y = slice b' x y) -> 32 <= off -> is_u32 (len_max w) ->
  read_record_unchecked fs w off = read_record_unchecked fs' w' off.
Proof.
  intros Hm Hm' Hl Hs Ho Hu. unfold is_u32 in Hu. unfold read_record_unchecked. rewrite <- Hl.
  destruct (Z.ltb_spec (len_max w) (off + 8 + 4 + 4)); [done|].
  rewrite !wrap32_small by (unfold is_u32; lia).
  rewrite !(read_bytes_mapped _ _ _ _ _ Hm), !(read_bytes_mapped _ _ _ _ _ Hm').
  rewrite (Hs off) by lia. destruct (slice b' off (off + 8 + 4 + 4)); step_res; [|done].
  do 5 (match goal with |- ?m ≫= _ = _ => destruct m; step_res; try done end).
  destruct (_ =? 0); [done|]. destruct (Z.ltb_spec (len_max w) (off + 8 + 4 + 4 + a3)); [done|].
  rewrite !(read_bytes_mapped _ _ _ _ _ Hm), !(read_bytes_mapped _ _ _ _ _ Hm').
  rewrite Hs by lia. done.
Qed.


(** No record that continues the log follows at [off]: the end of the file,
    an unreadable or null record, a foreign id, or a bad checksum. *)
Definition log_ends (fs : Fs) (w : WalFile) (off : Z) (last : Z) : Prop :=
  len_max w < off + 16 \/
  match read_record_unchecked fs w off with
  | Ok r => log_id r <= 0 \/ log_id r <> wrap64 (last + 1) \/ rec_crc r <> crc (rec_data r)
  | Err _ => True
  | Panic | OutOfFuel => False
  end.

Section Repair.
Context `{Features}.

Lemma recover_loop_stop fuel fs w off last :
  log_ends fs w off last -> (0 < fuel)%nat ->
  recover_loop fuel off (Some last) (fs, w) = (Ok tt, (fs, w)).
Proof.
  intros Hend Hf. destruct fuel as [|fuel]; [lia|]. cbn [recover_loop]. wstep.
  destruct (Z.ltb_spec (len_max w) (off + 8 + 4 + 4)); [done|].
  destruct Hend as [|Hend]; [lia|].
  destruct (read_record_unchecked fs w off) as [r| | |]; try done.
  destruct (Z.ltb_spec 0 (log_id r)); [|done].
  destruct (Z.eqb_spec (log_id r) (wrap64 (last + 1))); [|done]. cbn [negb].
  case_bool_decide; [|done]. destruct Hend as [|[|]]; (lia || done).
Qed.

(** [w] after the logs [os] were recovered, and the bytes of its file. *)
Fixpoint recovered (w : WalFile) (os : list Entry) : WalFile :=
  match os with [] => w | r :: os => recovered (appended w r) os end.
Fixpoint recovered_bytes (bytes : list byte) (w : WalFile) (os : list Entry) : list byte :=
  match os with
  | [] => bytes
  | r :: os => recovered_bytes (splice bytes 0 (header_of (appended w r))) (appended w r) os
  end.

Lemma mapped_mut fs w i : mmap w = None -> mmap_mut w = Some i -> mapped fs w = Some (fs_content fs i).
Proof. unfold mapped. intros -> ->. reflexivity. Qed.

Lemma appended_maps w r : mmap (appended w r) = mmap w /\ mmap_mut (appended w r) = mmap_mut w /\
  len_max (appended w r) = len_max w /\ id_until (appended w r) = r.1 /\
  next_start (appended w r) = next_start w + rec_size r + 1.
Proof. unfold appended, next_start. cbn. auto. Qed.

Lemma log_ends_header fs w i off last r :
  mmap w = None -> mmap_mut w = Some i -> version w = 1 -> is_u32 (len_max w) -> 32 <= len_max w ->
  zlen (fs_content fs i) = len_max w -> 32 <= off ->
  log_ends fs w off last ->
  log_ends (fs_store i (splice (fs_content fs i) 0 (header_of (appended w r))) fs) (appended w r) off last.
Proof.
  intros Hm Hi Hv Hu Hmin Hz Ho. destruct (appended_maps w r) as (Am & Ai & Al & _).
  destruct (header_of_ok (appended w r) Hv) as [_ Hh].
  unfold log_ends. rewrite Al.
  rewrite (read_record_ext fs w (fs_content fs i) (fs_store i (splice (fs_content fs i) 0 (header_of (appended w r))) fs)
    (appended w r) (splice (fs_content fs i) 0 (header_of (appended w r)))); try done.
  - by apply mapped_mut.
  - rewrite (mapped_mut _ _ i) by congruence. by rewrite fs_content_store.
  - intros. symmetry. apply slice_splice_other; lia.
Qed.

Lemma file_ok_next_start bytes w rs : file_ok bytes w rs -> 32 <= next_start w.
Proof.
  intros [_ _ _ Hd]. unfold next_start. destruct rs as [|r rs].
  - destruct Hd as [_ ->]. lia.
  - destruct Hd as (ds & ? & _ & -> & _). pose proof (rec_end_ge ds (r :: rs)). lia.
Qed.

Lemma file_ok_data_start bytes w rs : file_ok bytes w rs -> rs <> [] -> is_Some (data_start w).
Proof. intros [_ _ _ Hd] Hne. destruct rs; [done|]. destruct Hd as (ds & _ & -> & _). eauto. Qed.

(** One round of the recovery loop takes over the record at its position. *)
Lemma recover_step i fuel fs w rs r :
  file_ok (fs_content fs i) w rs -> rs <> [] -> mmap w = None -> mmap_mut w = Some i ->
  0 <= id_until w -> recs_at (fs_content fs i) (next_start w) [r] -> r.1 = id_until w + 1 ->
  let w1 := appended w r in
  let fs1 := fs_store i (splice (fs_content fs i) 0 (header_of w1)) fs in
  recover_loop (S fuel) (next_start w) (Some (id_until w)) (fs, w) =
  if len_max w <=? next_start w1 then (Ok tt, (fs1, w1))
  else recover_loop fuel (next_start w1) (Some r.1) (fs1, w1).
Proof.
  intros Hok Hne Hm Hi Hid (Hrok & Hs & _) Hr. cbv zeta.
  pose proof Hok as [Hv Hl Hmx _]. pose proof (mapped_mut fs w i Hm Hi) as Hmap.
  destruct (appended_maps w r) as (Am & Ai & Al & Au & An).
  pose proof (slice_bounds _ _ _ _ Hs) as (Hs0 & _ & Hs1 & _). unfold u32_max in Hmx.
  pose proof (rec_ok_size _ Hrok).
  cbn [recover_loop]. wstep. rewrite (proj2 (Z.ltb_ge _ _)) by lia.
  rewrite (read_record_at fs w (fs_content fs i)) with (r := r); try done; [|unfold is_u32; lia].
  cbn [log_id rec_crc rec_data]. destruct Hrok as [Hu64 Hdne].
  rewrite (proj2 (Z.ltb_lt _ _)) by lia.
  rewrite wrap64_small by (rewrite <- Hr; done). rewrite <- Hr, Z.eqb_refl. cbn [negb].
  rewrite bool_decide_eq_true_2 by done. cbn [negb].
  rewrite record_len_at by lia.
  rewrite (wrap32_small (next_start w + rec_size r)), wrap32_small by (unfold is_u32; lia). wstep.
  assert (set_data match data_start w with Some d => Some d | None => Some (next_start w) end
    (Some (next_start w + rec_size r)) (set_ids (id_from w) r.1 w) = appended w r) as ->.
  { unfold appended. by destruct (file_ok_data_start _ _ _ Hok Hne) as [ds ->]. }
  rewrite (update_header_ok fs (appended w r) i) by (done || congruence || lia).
  replace (next_start w + (rec_size r + 1)) with (next_start (appended w r)) by (rewrite An; lia).
  by destruct (_ <=? _).
Qed.

Lemma recover_loop_ok i os :
  forall fuel fs w rs,
  file_ok (fs_content fs i) w rs -> rs <> [] -> mmap w = None -> mmap_mut w = Some i ->
  0 <= id_until w ->
  recs_at (fs_content fs i) (next_start w) os -> ids_from (id_until w + 1) os ->
  log_ends fs w (rec_end (next_start w) os) (id_until w + zlen os) ->
  (length os < fuel)%nat ->
  recover_loop fuel (next_start w) (Some (id_until w)) (fs, w) =
  (Ok tt, (match os with [] => fs
           | _ => fs_store i (recovered_bytes (fs_content fs i) w os) fs end, recovered w os)) /\
  file_ok (recovered_bytes (fs_content fs i) w os) (recovered w os) (rs ++ os).
Proof.
  induction os as [|r os IH]; intros fuel fs w rs Hok Hne Hm Hi Hid Hat Hids Hend Hfuel.
  { rewrite app_nil_r. split; [|done]. change (zlen []) with 0 in Hend. rewrite Z.add_0_r in Hend.
    apply recover_loop_stop; [done|simpl in Hfuel; lia]. }
  destruct fuel as [|fuel]; [simpl in Hfuel; lia|].
  destruct (appended_maps w r) as (Am & Ai & Al & Au & An).
  destruct Hids as [Hr Hids]. pose proof Hat as (Hrok & Hs & Hat').
  pose proof (file_ok_next_start _ _ _ Hok) as H32. pose proof (rec_ok_size _ Hrok).
  assert (file_ok (fs_content fs i) (appended w r) (rs ++ [r])) as Hok1.
  { apply file_ok_extend; [done..| |done]. cbn. auto. }
  pose proof (file_ok_header _ _ _ Hok1) as Hok2.
  pose proof Hok as [Hv Hl Hmx _]. unfold u32_max in Hmx.
  destruct (header_of_ok (appended w r) Hv) as [_ Hhz].
  pose proof (recover_step i fuel fs w rs r Hok Hne Hm Hi Hid) as Hstep. cbv zeta in Hstep.
  set (fs1 := fs_store i (splice (fs_content fs i) 0 (header_of (appended w r))) fs) in *.
  assert (fs_content fs1 i = splice (fs_content fs i) 0 (header_of (appended w r))) as Hc1
    by apply fs_content_store.
  rewrite <- Hc1 in Hok2. rewrite Hstep by (done || (cbn; auto)).
  destruct (IH fuel fs1 (appended w r) (rs ++ [r])) as [IH1 IH2];
    [done|by destruct rs|congruence|congruence|rewrite Au; lia|..].
  - rewrite An, Hc1. eapply recs_at_ext; [exact Hat'|]. intros. symmetry.
    apply slice_splice_other; lia.
  - rewrite Au, Hr. done.
  - rewrite An, Au, Hr. cbn [rec_end] in Hend. rewrite zlen_cons in Hend.
    replace (id_until w + 1 + zlen os) with (id_until w + (1 + zlen os)) by lia.
    pose proof (rec_end_ge (next_start w + rec_size r + 1) os).
    apply log_ends_header; try done; try lia. unfold is_u32. lia.
  - simpl in Hfuel. lia.
  - rewrite <- app_assoc, Hc1 in IH2. split; [|exact IH2]. rewrite Au in IH1.
    destruct (Z.leb_spec (len_max w) (next_start (appended w r))) as [Hbig|].
    + destruct os as [|r' os]; [done|].
      exfalso. destruct Hat' as (_ & Hs' & _). apply slice_bounds in Hs'.
      pose proof (rec_size_pos r'). rewrite An in Hbig. lia.
    + rewrite IH1. cbn [recovered recovered_bytes]. rewrite Hc1.
      destruct os; [reflexivity|]. unfold fs1. rewrite fs_store_store. reflexivity.
Qed.

(** The last id seen after the records [rs] with ids from [i] on. *)
Definition seen (idb : option Z) (i : Z) (rs : list Entry) : option Z :=
  match rs with [] => idb | _ => Some (i + zlen rs - 1) end.

Section Phase1.
Context (fs : Fs) (w : WalFile) (bytes : list byte).
Hypothesis Hmap : mapped fs w = Some bytes.
Hypothesis Hlen : zlen bytes = len_max w.
Hypothesis Hmax : 32 <= len_max w < u32_max.

Lemma check_step fuel off i idb de r :
  recs_at bytes off [r] -> r.1 = i -> (idb = None \/ idb = Some (i - 1)) ->
  check_loop (S fuel) off idb de (fs, w) =
  if (de <? off + rec_size r + 1) || (i =? id_until w)
  then (Ok (Some (off + rec_size r + 1, Some i)), (fs, w))
  else check_loop fuel (off + rec_size r + 1) (Some i) de (fs, w).
Proof.
  intros (Hrok & Hs & _) Hr Hidb. unfold u32_max in Hmax.
  pose proof (slice_bounds _ _ _ _ Hs) as (? & _ & ? & _). pose proof (rec_ok_size _ Hrok).
  cbn [check_loop]. wstep.
  rewrite (read_record_at fs w bytes) with (r := r); try done; [|unfold is_u32; lia].
  wstep. cbn [log_id rec_crc rec_data]. rewrite Hr.
  assert (match idb with Some b => negb (i =? wrap64 (b + 1)) | None => false end = false) as ->.
  { destruct Hidb as [->| ->]; [done|]. replace (i - 1 + 1) with i by lia.
    rewrite wrap64_small by (rewrite <- Hr; apply Hrok). by rewrite Z.eqb_refl. }
  rewrite bool_decide_eq_true_2 by done. rewrite bool_decide_eq_false_2 by apply Hrok. cbn [negb orb].
  rewrite <- Hr. rewrite record_len_at by lia. rewrite wrap32_small by (unfold is_u32; lia).
  replace (off + (rec_size r + 1)) with (off + rec_size r + 1) by lia. rewrite Hr.
  by destruct (_ || _).
Qed.

(** Phase 1 passes over records that are fine. *)
Lemma check_prefix r1 :
  forall fuel off i idb de,
  recs_at bytes off r1 -> ids_from i r1 -> (idb = None \/ idb = Some (i - 1)) ->
  rec_end off r1 <= de -> i + zlen r1 <= id_until w ->
  check_loop (length r1 + fuel) off idb de (fs, w) =
  check_loop fuel (rec_end off r1) (seen idb i r1) de (fs, w).
Proof.
  induction r1 as [|r r1 IH]; intros fuel off i idb de Hat Hids Hidb Hde Hun; [done|].
  destruct Hids as [Hr Hids]. pose proof Hat as (? & ? & Hat').
  rewrite zlen_cons in Hun. pose proof (zlen_nonneg r1). cbn [rec_end] in Hde.
  pose proof (rec_end_ge (off + rec_size r + 1) r1).
  cbn [length Nat.add]. rewrite (check_step _ _ i _ _ r) by (done || cbn; auto).
  rewrite (proj2 (Z.ltb_ge _ _)) by lia. rewrite (proj2 (Z.eqb_neq _ _)) by lia. cbn [orb].
  rewrite (IH _ _ (i + 1)); try done; [| |lia].
  - cbn [rec_end seen]. f_equal. destruct r1; cbn [seen]; rewrite ?zlen_cons; f_equal; [|lia].
    change (zlen []) with 0. lia.
  - right. f_equal. lia.
Qed.

Lemma check_loop_ok rs fuel off i :
  recs_at bytes off rs -> rs <> [] -> ids_from i rs -> id_until w = i + zlen rs - 1 ->
  (length rs <= fuel)%nat ->
  check_loop fuel off None (rec_end off rs - 1) (fs, w) =
  (Ok (Some (rec_end off rs, Some (id_until w))), (fs, w)).
Proof.
  destruct rs as [|r r1 _] using rev_ind; [done|].
  intros [Hat1 Hat2]%recs_at_app _ [Hids1 [Hr _]]%ids_from_app Hun Hfuel.
  rewrite zlen_app in Hun. change (zlen [r]) with 1 in Hun. rewrite length_app in Hfuel. simpl in Hfuel.
  pose proof (rec_size_pos r).
  replace fuel with (length r1 + S (fuel - length r1 - 1))%nat by lia.
  rewrite rec_end_app. cbn [rec_end].
  rewrite (check_prefix _ _ _ i) by (done || auto || lia).
  rewrite (check_step _ _ (id_until w) _ _ r); [|done|lia|].
  - rewrite Z.eqb_refl, orb_true_r. done.
  - destruct r1; [by left|right]. cbn [seen]. f_equal. lia.
Qed.

End Phase1.

Lemma check_repair_ok fs w i rs os :
  file_ok (fs_content fs i) w rs -> rs <> [] -> mmap w = None -> mmap_mut w = Some i ->
  recs_at (fs_content fs i) (next_start w) os -> ids_from (id_until w + 1) os ->
  log_ends fs w (rec_end (next_start w) os) (id_until w + zlen os) ->
  check_repair_data_integrity (fs, w) =
  (Ok tt, (match os with [] => fs
           | _ => fs_store i (recovered_bytes (fs_content fs i) w os) fs end, recovered w os)) /\
  file_ok (recovered_bytes (fs_content fs i) w os) (recovered w os) (rs ++ os).
Proof.
  intros Hok Hne Hm Hi Hat Hids Hend. pose proof Hok as [Hv Hl Hmx Hd].
  pose proof (mapped_mut fs w i Hm Hi) as Hmap.
  assert (exists ds, 32 <= ds /\ data_start w = Some ds /\ data_end w = Some (rec_end ds rs - 1) /\
    recs_at (fs_content fs i) ds rs /\ ids_from (id_from w) rs /\
    id_until w = id_from w + zlen rs - 1) as (ds & Hds & Hst & Hde & Hr & Hri & Hun)
    by (destruct rs; [done|exact Hd]).
  assert (next_start w = rec_end ds rs) as Hn by (unfold next_start; rewrite Hde; lia).
  pose proof (recs_at_bound _ _ _ Hr Hne) as [_ Hb]. pose proof (rec_end_length ds rs).
  unfold u32_max in Hmx.
  destruct (recover_loop_ok i os (S (Z.to_nat (len_max w))) fs w rs) as [Hrec Hfin]; try done.
  - destruct rs as [|[a d] rs]; [done|]. destruct Hr as ([Hu _] & _).
    destruct Hri as [Ha _]. cbn in Hu, Ha. unfold is_u64 in Hu. rewrite zlen_cons in Hun.
    pose proof (zlen_nonneg rs). lia.
  - destruct os as [|o os]; [simpl; lia|].
    pose proof (recs_at_bound _ _ _ Hat ltac:(done)) as [_ Hob].
    pose proof (rec_end_length (next_start w) (o :: os)). unfold zlen in *. lia.
  - split; [|exact Hfin]. unfold check_repair_data_integrity. wstep.
    rewrite offset_logs_ok by done. wstep. rewrite Hst, Hde. wstep.
    rewrite (check_loop_ok fs w (fs_content fs i)) with (rs := rs) (i := id_from w);
      try done; [|unfold zlen in *; lia].
    rewrite <- Hn. exact Hrec.
Qed.

(** [w] cut back to the healthy records [r1] in front of a bad one. *)
Definition healed (w : WalFile) (r1 : list Entry) : WalFile :=
  match r1 with
  | [] => set_data None None (set_ids (id_from w) (id_from w) w)
  | _ => set_data (data_start w) (Some (rec_end (default 32 (data_start w)) r1 - 1))
           (set_ids (id_from w) (id_from w + zlen r1 - 1) w)
  end.

Lemma check_repair_bad_crc fs w i r1 ds de bad :
  version w = 1 -> zlen (fs_content fs i) = len_max w -> 32 <= len_max w < u32_max ->
  mmap w = None -> mmap_mut w = Some i ->
  data_start w = Some ds -> 32 <= ds -> data_end w = Some de -> rec_end ds r1 <= de ->
  recs_at (fs_content fs i) ds r1 -> ids_from (id_from w) r1 -> id_from w + zlen r1 <= id_until w ->
  read_record_unchecked fs w (rec_end ds r1) = Ok bad -> is_u64 (log_id bad) ->
  log_id bad = id_from w + zlen r1 -> rec_crc bad <> crc (rec_data bad) ->
  let bytes' := splice (fs_content fs i) (rec_end ds r1) (be_encode 8 0) in
  check_repair_data_integrity (fs, w) =
    (if auto_heal then (Ok tt, (fs_store i bytes' fs, healed w r1)) else (Err EIntegrity, (fs, w)))
  /\ file_ok bytes' (healed w r1) r1.
Proof.
  intros Hv Hl Hmx Hm Hi Hst Hds Hde Hle Hat Hids Hun Hbad Hu64 Hbid Hcrc bytes'.
  pose proof (mapped_mut fs w i Hm Hi) as Hmap. pose proof (rec_end_ge ds r1).
  pose proof (rec_end_length ds r1). unfold u32_max in *.
  destruct (read_record_cases fs w _ Hmap Hl ltac:(unfold is_u32; lia) (rec_end ds r1))
    as [[e He]|(r & Hr & Hd1 & Hin)]; [lia|congruence|]. rewrite Hbad in Hr. injection Hr as <-.
  assert (zlen bytes' = zlen (fs_content fs i)) as Hz
    by (apply zlen_splice; rewrite ?zlen_be; lia).
  split.
  - unfold check_repair_data_integrity. wstep. rewrite offset_logs_ok by done. wstep.
    rewrite Hst, Hde. wstep.
    replace (S (Z.to_nat (len_max w)))
      with (length r1 + S (Z.to_nat (len_max w) - length r1))%nat by (unfold zlen in *; lia).
    rewrite (check_prefix fs w (fs_content fs i)) with (i := id_from w); try done; auto.
    cbn [check_loop]. wstep. rewrite Hbad. wstep.
    assert (match seen None (id_from w) r1 with
            | Some b => negb (log_id bad =? wrap64 (b + 1)) | None => false end = false) as ->.
    { destruct r1; [done|]. cbn [seen].
      replace (id_from w + zlen (p :: r1) - 1 + 1) with (log_id bad) by lia.
      rewrite wrap64_small by done. by rewrite Z.eqb_refl. }
    rewrite bool_decide_eq_false_2 by done. cbn [negb orb]. destruct auto_heal; [|done].
    unfold heal. wstep.
    replace (match seen None (id_from w) r1 with
      | Some id => set_data (data_start w) (Some (wrap32 (rec_end ds r1 - 1))) (set_ids (id_from w) id w)
      | None => set_data None None (set_ids (id_from w) (id_from w) w) end) with (healed w r1).
    2:{ unfold healed. rewrite Hst. destruct r1; [done|]. cbn [seen default from_option].
        rewrite wrap32_small by (unfold is_u32; lia). done. }
    assert (mmap_mut (healed w r1) = Some i) as -> by (by destruct r1).
    wstep. unfold u64_to_bin. rewrite app_nil_l, mmap_write_ok by (rewrite ?zlen_be; lia). done.
  - split; [by destruct r1|rewrite Hz; by destruct r1|by destruct r1|].
    unfold healed. destruct r1 as [|r0 r1]; [done|]. rewrite Hst. cbn [default from_option].
    exists ds. do 3 (split; [done|]). split; [|done].
    eapply recs_at_ext; [exact Hat|]. intros. symmetry.
    apply slice_splice_other; rewrite ?zlen_be; lia.
Qed.

End Repair.
End Layout.

(** ** The header on disk *)

Lemma build_full_path_shape base n p :
  build_full_path base n = Ok p ->
  exists pad, all_zero pad = true /\ p = base +:+ "/" +:+ pad +:+ to_string n +:+ ".wal".
Proof.
  unfold build_full_path. destruct (_ && _) eqn:E; [|done].
  intros Hp. exists (String.substring 0 (Z.to_nat (16 - Z.of_nat (String.length (to_string n)))) zeros).
  split; [by apply all_zero_substring|]. congruence.
Qed.

(** At most 16 digits fit into a file name; more panic. *)
Lemma build_full_path_total base n :
  (exists p, build_full_path base n = Ok p) <-> (String.length (to_string n) <= 16)%nat.
Proof.
  unfold build_full_path. pose proof (to_string_length_pos n).
  change (Z.of_nat (String.length zeros)) with 15.
  destruct (Z.leb_spec 0 (16 - Z.of_nat (String.length (to_string n))));
    destruct (Z.leb_spec (16 - Z.of_nat (String.length (to_string n))) 15); cbn [andb];
    (split; [intros [p Hp]; try done; lia|intros; try lia; eauto]).
Qed.

Definition opt_u32 (o : option Z) : Prop :=
  match o with Some z => 0 < z < 2 ^ 32 | None => True end.

(** What a header can hold. *)
Record header_fields_ok (w : WalFile) : Prop := {
  hf_version : version w = 1;
  hf_from : is_u64 (id_from w);
  hf_until : is_u64 (id_until w);
  hf_start : opt_u32 (data_start w);
  hf_end : opt_u32 (data_end w);
  hf_len : 32 <= len_max w < u32_max;
}.

Lemma some_if_nonzero_default o : opt_u32 o -> some_if_nonzero (default 0 o) = o.
Proof.
  unfold some_if_nonzero. destruct o as [z|]; cbn; [|done].
  intros. by rewrite (proj2 (Z.eqb_neq _ _)) by lia.
Qed.

Lemma header_slices w :
  version w = 1 ->
  slice (header_of w) 0 7 = Some MAGIC_NO_WAL /\
  slice (header_of w) 7 8 = Some [Byte.x01] /\
  slice (header_of w) 8 16 = Some (be_encode 8 (id_from w)) /\
  slice (header_of w) 16 24 = Some (be_encode 8 (id_until w)) /\
  slice (header_of w) 24 28 = Some (be_encode 4 (default 0 (data_start w))) /\
  slice (header_of w) 28 32 = Some (be_encode 4 (default 0 (data_end w))).
Proof.
  intros Hv. destruct (header_of_ok w Hv) as [_ Hz]. pose proof (slice_full (header_of w)) as H.
  rewrite Hz in H. unfold header_of at 2 in H. unfold build_header in H. rewrite Hv in H.
  unfold u64_to_bin, u32_to_bin in H. cbn [Z.eqb Pos.eqb] in H.
  eapply (slice_app _ _ _ _ 28) in H as [H H6]; [|rewrite !zlen_app, !zlen_be; reflexivity].
  eapply (slice_app _ _ _ _ 24) in H as [H H5]; [|rewrite !zlen_app, !zlen_be; reflexivity].
  eapply (slice_app _ _ _ _ 16) in H as [H H4]; [|rewrite !zlen_app, !zlen_be; reflexivity].
  eapply (slice_app _ _ _ _ 8) in H as [H H3]; [|rewrite !zlen_app; reflexivity].
  eapply (slice_app _ _ _ _ 7) in H as [H1 H2]; [|reflexivity].
  auto 10.
Qed.

(** The parts [read_from_file] takes a path apart into. *)
Lemma path_parts_ok base n p :
  is_u64 n -> build_full_path base n = Ok p ->
  exists num fname, rsplit_once "/"%char p = Some (base, fname) /\
    split_once "."%char fname = Some (num, "wal") /\ parse_u64 num = Some n /\
    p = base +:+ "/" +:+ fname /\ fname = num +:+ ".wal".
Proof.
  intros Hn Hp. destruct (build_full_path_shape _ _ _ Hp) as (pad & Hpad & ->).
  pose proof (all_digits_to_string n) as Hdig.
  assert (all_digits (pad +:+ to_string n) = true) as Hnum.
  { rewrite all_digits_app, Hdig, all_zero_digits by done. done. }
  exists (pad +:+ to_string n), ((pad +:+ to_string n) +:+ String "." "wal").
  replace (base +:+ "/" +:+ pad +:+ to_string n +:+ ".wal")
    with (base +:+ String "/" ((pad +:+ to_string n) +:+ String "." "wal"))
    by (rewrite string_app_assoc; reflexivity).
  rewrite rsplit_once_app by (by rewrite has_char_app, all_digits_no_char).
  rewrite split_once_app by (by apply all_digits_no_char).
  rewrite parse_u64_digits; [|apply string_app_nonempty, to_string_nonempty|done].
  unfold is_u64 in Hn. rewrite parse_digits_zeros by (done || (unfold u64_max; lia)).
  rewrite parse_digits_to_string by (unfold u64_max; lia). auto.
Qed.

(** Different file numbers have different paths. *)
Lemma build_full_path_inj base n m p :
  is_u64 n -> is_u64 m -> build_full_path base n = Ok p -> build_full_path base m = Ok p -> n = m.
Proof.
  intros Hn Hm Hp Hq. destruct (path_parts_ok _ _ _ Hn Hp) as (x & f & E1 & E2 & E3 & _).
  destruct (path_parts_ok _ _ _ Hm Hq) as (y & g & F1 & F2 & F3 & _). congruence.
Qed.

(** The header written for [w] is read back as [w], without its mappings. *)
Lemma read_from_file_ok fs w i base :
  header_fields_ok w -> is_u64 (wal_no w) -> build_full_path base (wal_no w) = Ok (path w) ->
  dir fs !! path w = Some i -> zlen (fs_content fs i) = len_max w ->
  slice (fs_content fs i) 0 32 = Some (header_of w) ->
  read_from_file fs (path w) = Ok (clone_no_mmap w).
Proof.
  intros [Hv Hf Hu Hs He Hlm] Hno Hp Hdir Hlen Hhdr.
  destruct (path_parts_ok _ _ _ Hno Hp) as (num & fname & E1 & E2 & E3 & _).
  unfold read_from_file. rewrite E1, E2, E3. cbn [String.eqb negb].
  change (String.eqb "wal" "wal") with true. cbn [negb].
  unfold fs_open. rewrite Hdir. step_res. rewrite Hhdr.
  destruct (header_slices w Hv) as (-> & -> & -> & -> & -> & ->). step_res.
  rewrite !bool_decide_eq_true_2 by done. cbn [negb].
  rewrite !bin_to_u64_be by done. step_res.
  assert (forall o, opt_u32 o -> is_u32 (default 0 o)) as Hou
    by (intros [z|]; unfold opt_u32, is_u32; cbn; lia).
  rewrite !bin_to_u32_be by auto. step_res. rewrite !some_if_nonzero_default by done.
  unfold u32_max in Hlm. rewrite Hlen, wrap32_small by (unfold is_u32; lia).
  unfold clone_no_mmap, set_maps. rewrite Hv. reflexivity.
Qed.
