(* ===== verification/WalSet.v ===== *)
(** The set of WAL files of one log store: [hiqlite-wal/src/wal.rs],
    [WalFileSet].

    The [VecDeque] of files is a list, the owned file set and the file system
    are the state.  A file that goes out of scope runs its [Drop]. *)
From stdpp Require Import base gmap strings list numbers sorting.
From Stdlib Require Import Ascii Strings.Byte.
From S2P Require Import Prelude Text WalBase WalFile.

#[local] Open Scope Z_scope.

Record WalFileSet : Type := mkSet {
  active : option nat;
  base_path : string;
  files : list WalFile;
}.

Definition set_active (a : option nat) (s : WalFileSet) : WalFileSet :=
  mkSet a (base_path s) (files s).
Definition set_files (l : list WalFile) (s : WalFileSet) : WalFileSet :=
  mkSet (active s) (base_path s) l.

Abbreviation SSt := (St Error (Fs * WalFileSet)).

Definition s_get : SSt WalFileSet := fun s => (Ok s.2, s).
Definition s_modify (f : WalFileSet -> WalFileSet) : SSt unit := fun s => (Ok tt, (s.1, f s.2)).
Definition s_fs {A} (m : St Error Fs A) : SSt A := fun s =>
  let '(r, fs) := m s.1 in (r, (fs, s.2)).

(** Runs an operation on the file at position [k]; a missing position is the
    panic of [get_mut(k).unwrap()]. *)
Definition on_file {A} (k : nat) (m : WSt A) : SSt A := fun s =>
  match files s.2 !! k with
  | None => (Panic, s)
  | Some w =>
      let '(r, (fs, w')) := m (s.1, w) in
      (r, (fs, set_files (<[k := w']> (files s.2)) s.2))
  end.

Section WalSet.
Context `{Checksum} `{Features}.

(** [WalFileSet::active()]: the index of the active file. *)
Definition active_idx : SSt nat :=
  s ← s_get; st_lift (unwrap (active s)).

Definition on_active {A} (m : WSt A) : SSt A :=
  k ← active_idx; on_file k m.

Definition back_file (l : list WalFile) : option WalFile := last l.
Definition front_file (l : list WalFile) : option WalFile := head l.

(** [wal.create_file(buf)] on a file that is not in the set yet. *)
Definition create_in (wal : WalFile) : St Error Fs WalFile := fun fs =>
  let '(r, (fs, w)) := create_file (fs, wal) in (_ ← r; Ok w, fs).

Definition add_file (wal_size : Z) : SSt unit :=
  s ← s_get;
  let wal_no := match back_file (files s) with Some w => wrap64 (wal_no w + 1) | None => 1 end in
  wal ← st_lift (new wal_no (base_path s) 0 0 wal_size);
  wal ← s_fs (create_in wal);
  s_modify (fun s => set_files (files s ++ [wal]) s);;
  if wal_no =? 1 then s_modify (set_active (Some 0%nat)) else mret tt.

(** ** Header checks at startup *)
Definition check_data_bounds (w : WalFile) : Res Error unit :=
  if len_max w <? default 0 (data_end w) then Err EIntegrity else Ok tt.

Definition check_offsets (w : WalFile) : Res Error unit :=
  if negb (Bool.eqb (bool_decide (is_Some (data_start w))) (bool_decide (is_Some (data_end w))))
  then Err EIntegrity
  else match data_start w with
       | None => Ok tt
       | Some ds =>
           de ← unwrap (data_end w);
           off ← offset_logs w;
           if ds <? wrap32 off then Err EIntegrity
           else if (ds =? de) || (de <? wrap32 (ds + 8 + 4 + 4)) then Err EIntegrity
           else Ok tt
       end.

Fixpoint check_headers (no until : Z) (l : list WalFile) : Res Error unit :=
  match l with
  | [] => Ok tt
  | w :: l =>
      check_data_bounds w;;
      if negb (wrap64 (no + 1) =? wal_no w) then Err EIntegrity
      else if (id_from w =? 0) && (id_until w =? 0) then Ok tt
      else
        check_offsets w;;
        if negb (wrap64 (until + 1) =? id_from w) then Err EIntegrity
        else check_headers (wal_no w) (id_until w) l
  end.

Definition check_integrity (wal_deep_integrity_check env_check : bool) : SSt unit :=
  s ← s_get;
  match files s with
  | [] => mret tt
  | first :: rest =>
      st_lift (check_data_bounds first);;
      if id_until first <? id_from first then st_err EFileCorrupted
      else
        st_lift (check_headers (wal_no first) (id_until first) rest);;
        if wal_deep_integrity_check || env_check
        then on_active (mmap_mut_op;; check_repair_data_integrity)
        else mret tt
  end.

(** ** Sharing the set with the readers *)
Definition clone_no_map (s : WalFileSet) : WalFileSet :=
  mkSet (active s) (base_path s) (clone_no_mmap <$> files s).

Fixpoint update_each (self other : list WalFile) : Res Error (list WalFile) :=
  match self, other with
  | [], _ => Ok []
  | f :: self, upd :: other =>
      rest ← update_each self other;
      Ok (clone_from_no_mmap f upd :: rest)
  | _ :: _, [] => Panic
  end.

Definition clone_files_from_no_mmap (s : WalFileSet) (other : list WalFile) : Res Error WalFileSet :=
  let kept := filter (fun f => Exists (fun upd => wal_no upd = wal_no f) other) (files s) in
  upd ← update_each kept other;
  Ok (set_files (upd ++ (clone_no_mmap <$> drop (length upd) other)) s).

(** ** Opening a directory *)
Definition dir_names (fs : Fs) (base : string) : list string :=
  omap (fun kv : string * nat => strip_prefix (base +:+ "/") kv.1) (map_to_list (dir fs)).

Definition string_le (a b : string) : Prop := String.leb a b = true.
#[local] Instance string_le_dec : RelDecision string_le.
Proof. intros a b. unfold string_le. apply _. Defined.

Fixpoint read_files (fs : Fs) (base : string) (names : list string) : Res Error (list WalFile) :=
  match names with
  | [] => Ok []
  | name :: names =>
      match read_from_file fs (base +:+ "/" +:+ name) with
      | Ok w => rest ← read_files fs base names; Ok (w :: rest)
      | Err _ => read_files fs base names
      | Panic => Panic
      | OutOfFuel => OutOfFuel
      end
  end.

Definition read (base : string) (wal_size : Z) : St Error Fs WalFileSet :=
  fs ← st_get;
  let names := merge_sort string_le (filter (fun n => ends_with n ".wal" = true) (dir_names fs base)) in
  l ← st_lift (read_files fs base names);
  match l with
  | [] =>
      wal ← st_lift (new 1 base 0 0 wal_size);
      wal ← create_in wal;
      mret (mkSet (Some 0%nat) base [wal])
  | _ => mret (mkSet (Some (length l - 1)%nat) base l)
  end.

(** ** Rolling over and deleting *)
Definition roll_over (wal_size : Z) : SSt unit :=
  last_id ← on_active (
    update_header;; flush;;
    w_modify (fun w => set_maps (mmap w) None None w);;
    w ← w_get; mret (id_until w));
  add_file wal_size;;
  s_modify (fun s => set_active (Some (length (files s) - 1)%nat) s);;
  on_active (
    mmap_mut_op;;
    w_modify (set_ids (wrap64 (last_id + 1)) (wrap64 (last_id + 1)))).

(** Removes the file of a popped entry; the entry is dropped either way. *)
Definition remove_popped (w : WalFile) : St Error Fs unit := fun fs =>
  let '(r, fs) := fs_remove_file (path w) fs in
  match drop_file fs w with
  | Ok fs => (r, fs)
  | _ => (Panic, fs)
  end.

Fixpoint purge_front_files (l : list WalFile) (until : Z) : SSt unit :=
  match l with
  | [] => mret tt
  | w :: l =>
      if id_until w <? until then
        s_modify (set_files l);;
        s_fs (remove_popped w);;
        purge_front_files l until
      else mret tt
  end.

(** Pops from the back; [l] is the reversed list of files. *)
Fixpoint truncate_back_files (l : list WalFile) (from : Z) : SSt unit :=
  match l with
  | [] => mret tt
  | w :: l =>
      if from <? id_from w then
        s_modify (set_files (reverse l));;
        s_fs (remove_popped w);;
        truncate_back_files l from
      else mret tt
  end.

Definition add_file_if_empty (wal_size : Z) : SSt unit :=
  s ← s_get;
  match files s with
  | [] => add_file wal_size;; on_file 0 mmap_mut_op
  | _ => mret tt
  end.

(** [Some(a) <= o] on [Option<u64>]: [None] is the smallest value. *)
Definition some_le (a : Z) (o : option Z) : bool :=
  match o with Some b => a <=? b | None => false end.
Definition some_ge (a : Z) (o : option Z) : bool :=
  match o with Some b => b <=? a | None => true end.

(** Reads the offset of log [id] of the file, for cutting the file there. *)
Definition offset_of_log (id : Z) : WSt Z :=
  mmap_mut_op;;
  s ← st_get;
  '(offset, _, _) ← st_lift (read_logs s.1 s.2 id id None);
  mret offset.

Definition cut_front (until : Z) : WSt unit :=
  w ← w_get;
  if (id_from w <? until) && bool_decide (is_Some (data_end w)) then
    offset ← offset_of_log until;
    w_modify (fun w => set_data (Some offset) (data_end w) (set_ids until (id_until w) w))
  else mret tt.

Definition cut_back (from : Z) : WSt unit :=
  w ← w_get;
  if id_from w =? from then
    w_modify (fun w => set_data None None (set_ids (id_from w) from w))
  else if from <=? id_until w then
    offset ← offset_of_log from;
    w_modify (fun w => set_data (data_start w) (Some (wrap32 (offset - 1)))
                         (set_ids (id_from w) (wrap64 (from - 1)) w))
  else mret tt.

Definition shift_delete_logs (from until wal_size : Z) : SSt unit :=
  s ← s_get;
  let purge_front := some_le from (id_from <$> front_file (files s)) in
  let truncate_back := some_ge until (id_until <$> back_file (files s)) in
  (if purge_front then
     purge_front_files (files s) until;;
     add_file_if_empty wal_size;;
     on_file 0 (cut_front until)
   else if truncate_back then
     truncate_back_files (reverse (files s)) from;;
     add_file_if_empty wal_size;;
     s ← s_get;
     on_file (length (files s) - 1) (cut_back from)
   else mret tt);;
  s_modify (fun s => set_active (Some (length (files s) - 1)%nat) s).

End WalSet.
