(* ===== verification/WalSetSpec.v ===== *)
(** The set of WAL files refines one log: appending, rolling over, purging and
    truncating. *)
From stdpp Require Import base gmap strings list numbers sorting.
From Stdlib Require Import Ascii Strings.Byte.
From S2P Require Import Prelude Text WalBase WalFile WalFileSpec WalSet.

#[local] Open Scope Z_scope.

(** A file of the set with the logs it holds. *)
Abbreviation FileLogs := (WalFile * list Entry)%type.

(** The logs of the whole set, oldest first. *)
Definition log_of (l : list FileLogs) : list Entry := concat (l.*2).

(** File numbers and log ids continue from file to file; only the last file may
    be empty, and then its ids name the log that comes next. *)
Fixpoint chain (no next : Z) (l : list FileLogs) : Prop :=
  match l with
  | [] => True
  | (w, rs) :: l =>
      wal_no w = no /\ id_from w = next /\
      (rs = [] -> l = [] /\ id_until w = next) /\
      chain (no + 1) (next + zlen rs) l
  end.

Lemma chain_app no next l1 l2 :
  chain no next (l1 ++ l2) <->
  chain no next l1 /\ chain (no + zlen l1) (next + zlen (log_of l1)) l2 /\
  (l2 <> [] -> Forall (fun e => e.2 <> []) l1).
Proof.
  revert no next. induction l1 as [|[w rs] l1 IH]; intros no next; cbn [app chain].
  - change (log_of []) with (@nil Entry).
    change (zlen (@nil FileLogs)) with 0. change (zlen (@nil Entry)) with 0. rewrite !Z.add_0_r.
    split; [intros Hc|tauto]. split; [done|]. split; [done|]. constructor.
  - rewrite IH. change (log_of ((w, rs) :: l1)) with (rs ++ log_of l1). rewrite zlen_cons, zlen_app.
    replace (no + 1 + zlen l1) with (no + (1 + zlen l1)) by lia.
    replace (next + (zlen rs + zlen (log_of l1))) with (next + zlen rs + zlen (log_of l1)) by lia.
    split.
    + intros (? & ? & Hrs & ? & ? & Hf). split; [|split; [done|]].
      * split; [done|]. split; [done|]. split; [|done].
        intros E. destruct (Hrs E) as [[-> _]%app_eq_nil ?]. done.
      * intros Hne. constructor; [|auto]. cbn. intros E.
        destruct (Hrs E) as [[_ ->]%app_eq_nil _]. done.
    + intros ((? & ? & Hrs & ?) & ? & Hf). split; [done|]. split; [done|].
      split; [|split; [done|split; [done|]]].
      * intros E. destruct (Hrs E) as [-> ?]. destruct l2; [done|].
        specialize (Hf ltac:(done)). by inversion Hf.
      * intros Hne. specialize (Hf Hne). by inversion Hf.
Qed.

Lemma chain_next_file no next l w rs w2 rs2 l2 :
  chain no next (l ++ (w, rs) :: (w2, rs2) :: l2) -> id_from w2 = id_from w + zlen rs /\ rs <> [].
Proof.
  intros Hch. apply chain_app in Hch as (_ & (_ & Hif & Hem & _ & Hif2 & _) & _). split; [lia|].
  intros E. by destruct (Hem E).
Qed.

(** Runs the known prefix of a monadic operation on the set. *)
Ltac sstep := repeat (progress (cbv beta iota zeta
  delta [mbind st_bind mret st_ret st_lift st_get st_put st_err st_panic
         s_get s_fs s_modify unwrap]; cbn [fst snd])).

Section WalSetSpec.
Context `{Checksum} `{Features}.

(** One file of the set: on disk under its own number, well-formed, and mapped
    to its own inode where it is mapped. *)
Definition entry_at (fs : Fs) (base : string) (e : FileLogs) (i : nat) : Prop :=
  dir fs !! path e.1 = Some i /\ file_ok (fs_content fs i) e.1 e.2 /\
  (mmap_mut e.1 = None \/ mmap_mut e.1 = Some i) /\ mmap e.1 = None /\
  build_full_path base (wal_no e.1) = Ok (path e.1) /\ 1 <= wal_no e.1 < u64_max /\
  wfile e.1 = mmap_mut e.1.

Definition entry_ok (fs : Fs) (base : string) (e : FileLogs) : Prop := exists i, entry_at fs base e i.

Definition mapped_mut_last (l : list FileLogs) : Prop :=
  exists e, last l = Some e /\ is_Some (mmap_mut e.1).

(** The set as a directory of files, whichever of them is active. *)
Record set_core (fs : Fs) (s : WalFileSet) (l : list FileLogs) : Prop := {
  sc_fs : fs_wf fs;
  sc_files : files s = l.*1;
  sc_entries : Forall (entry_ok fs (base_path s)) l;
  sc_chain : exists no next, chain no next l /\ 0 <= next;
  sc_dir : forall n p, is_u64 n -> build_full_path (base_path s) n = Ok p -> is_Some (dir fs !! p) ->
    exists e, e ∈ l /\ wal_no e.1 = n;
}.

(** The set between two actions of the writer: the last file is active and
    mapped for writing. *)
Record set_ok (fs : Fs) (s : WalFileSet) (l : list FileLogs) : Prop := {
  so_core : set_core fs s l;
  so_active : active s = Some (length l - 1)%nat;
  so_mapped : mapped_mut_last l;
}.

Lemma entry_frame fs fs' base e :
  entry_ok fs base e -> dir fs' !! path e.1 = dir fs !! path e.1 ->
  (forall i, dir fs !! path e.1 = Some i -> fs_content fs' i = fs_content fs i) ->
  entry_ok fs' base e.
Proof.
  intros (i & Hd & Hf & ?) Hdir Hc. exists i. unfold entry_at. rewrite Hdir, (Hc _ Hd). auto.
Qed.

Lemma entries_frame fs fs' base l :
  Forall (entry_ok fs base) l ->
  (forall e, e ∈ l -> dir fs' !! path e.1 = dir fs !! path e.1 /\
     forall i, dir fs !! path e.1 = Some i -> fs_content fs' i = fs_content fs i) ->
  Forall (entry_ok fs' base) l.
Proof.
  rewrite !Forall_forall. intros He Hf e Hin. destruct (Hf e Hin). eapply entry_frame; eauto.
Qed.

Lemma chain_wal_no no next l k e : chain no next l -> l !! k = Some e -> wal_no e.1 = no + Z.of_nat k.
Proof.
  revert no next k. induction l as [|[w rs] l IH]; intros no next k; [done|].
  intros (Hno & _ & _ & Hc). destruct k as [|k]; cbn.
  - intros [= <-]. cbn. lia.
  - intros Hk. rewrite (IH _ _ _ Hc Hk). lia.
Qed.

(** Files at different positions have different paths. *)
Lemma set_paths_ne fs base no next l j k e e' :
  Forall (entry_ok fs base) l -> chain no next l ->
  l !! j = Some e -> l !! k = Some e' -> j <> k -> path e.1 <> path e'.1.
Proof.
  intros He Hc Hj Hk Hne Hp. pose proof (chain_wal_no _ _ _ _ _ Hc Hj). pose proof (chain_wal_no _ _ _ _ _ Hc Hk).
  rewrite Forall_lookup in He. destruct (He _ _ Hj) as (i & _ & _ & _ & _ & Hb & Hn).
  destruct (He _ _ Hk) as (i' & _ & _ & _ & _ & Hb' & Hn'). rewrite Hp in Hb. unfold u64_max in *.
  assert (wal_no e.1 = wal_no e'.1); [|lia].
  eapply build_full_path_inj; [..|exact Hb|exact Hb']; unfold is_u64; lia.
Qed.

(** Storing into the inode of one file leaves the others alone. *)
Lemma store_frame fs base no next l k e i c :
  fs_wf fs -> Forall (entry_ok fs base) l -> chain no next l -> l !! k = Some e ->
  dir fs !! path e.1 = Some i ->
  forall j e', l !! j = Some e' -> j <> k -> entry_ok (fs_store i c fs) base e'.
Proof.
  intros Hw He Hc Hk Hi j e' Hj Hne.
  pose proof (set_paths_ne _ _ _ _ _ _ _ _ _ He Hc Hj Hk Hne) as Hp.
  rewrite Forall_lookup in He. eapply entry_frame; [by eapply He|done|].
  intros i' Hi'. apply fs_content_store_ne. intros <-. apply Hp. by eapply fw_inj.
Qed.

Lemma fs_wf_store fs i c : fs_wf fs -> fs_wf (fs_store i c fs).
Proof. intros [? ?]. by split. Qed.
Lemma fs_wf_msync fs i : fs_wf fs -> fs_wf (fs_msync i fs).
Proof. intros [? ?]. by split. Qed.

(** ** Operations on the last file *)
Lemma on_active_last {A} (m : WSt A) fs s (l : list WalFile) w :
  files s = l ++ [w] -> active s = Some (length l) ->
  on_active m (fs, s) =
  let '(r, (fs', w')) := m (fs, w) in (r, (fs', set_files (l ++ [w']) s)).
Proof.
  intros Hf Ha. unfold on_active, active_idx, on_file, s_get. step_st. cbn [fst snd].
  rewrite Ha. cbn [unwrap fst snd]. rewrite Hf.
  rewrite lookup_app_r, Nat.sub_diag by lia. cbn.
  destruct (m (fs, w)) as [r [fs' w']]. rewrite insert_app_r_alt by lia. by rewrite Nat.sub_diag.
Qed.

Lemma set_ok_last fs s l :
  set_ok fs s l -> exists l0 w rs i, l = l0 ++ [(w, rs)] /\ entry_at fs (base_path s) (w, rs) i /\
    mmap_mut w = Some i /\ files s = l0.*1 ++ [w] /\ active s = Some (length (l0.*1)).
Proof.
  intros [[_ Hf He _ _] Ha (e & Hl & Hm)]. destruct e as [w rs].
  apply last_Some in Hl as [l0 ->]. exists l0, w, rs.
  apply Forall_app in He as [_ He]. inversion He as [|? ? (i & Hi) _]; subst. exists i.
  pose proof Hi as (_ & _ & [Hn|Hn] & _); cbn in *; [rewrite Hn in Hm; destruct Hm; done|].
  do 3 (split; [done|]). split.
  - rewrite Hf. by rewrite fmap_app.
  - rewrite Ha, length_app, length_fmap. cbn. f_equal. lia.
Qed.

(** Replacing the last file keeps the set well-formed, when its bytes changed
    only in its own inode. *)
Lemma core_replace_last fs fs' s l0 w rs w' rs' i :
  set_core fs s (l0 ++ [(w, rs)]) -> entry_at fs (base_path s) (w, rs) i ->
  dir fs' = dir fs -> next_ino fs' = next_ino fs ->
  (forall j, j <> i -> fs_content fs' j = fs_content fs j) ->
  file_ok (fs_content fs' i) w' rs' -> (mmap_mut w' = None \/ mmap_mut w' = Some i) ->
  mmap w' = None -> path w' = path w -> wal_no w' = wal_no w -> wfile w' = mmap_mut w' ->
  ((l0 = [] /\ 0 <= id_from w') \/ id_from w' = id_from w) ->
  (rs' = [] -> id_until w' = id_from w') ->
  set_core fs' (set_files (l0.*1 ++ [w']) s) (l0 ++ [(w', rs')]).
Proof.
  intros Hset (Hdi & Hfo & Hmm & Hm0 & Hb & Hno & Hwf0) Hdir Hnx Hcont Hfo' Hmm' Hm0' Hp Hn Hwf' Hid Hemp.
  pose proof Hset as [Hwf Hf He (no & next & Hch & Hnn) Hdd]. cbn [fst snd] in *.
  split.
  - destruct Hwf. split; rewrite Hdir, ?Hnx; done.
  - cbn. by rewrite fmap_app.
  - cbn [base_path set_files]. apply Forall_app. split.
    + apply Forall_lookup. intros j e Hj.
      assert (j < length l0)%nat by (eapply lookup_lt_Some; eauto).
      eapply entry_frame; [eapply (proj1 (Forall_lookup _ _) He j); by apply lookup_app_l_Some|by rewrite Hdir|].
      intros i' Hi'. apply Hcont. intros ->.
      eapply (set_paths_ne _ _ _ _ _ j (length l0) e (w, rs) He Hch); [by apply lookup_app_l_Some| |lia|].
      * rewrite lookup_app_r, Nat.sub_diag by lia. done.
      * cbn. by eapply fw_inj.
    + constructor; [|constructor]. exists i. unfold entry_at. cbn [fst snd].
      rewrite Hdir, Hp, Hn. auto 10.
  - apply chain_app in Hch as (Hc0 & (Hc1 & Hc2 & _) & Hc3).
    exists no, (id_from w' - zlen (log_of l0)).
    assert (l0 = [] \/ id_from w' - zlen (log_of l0) = next) as Hor
      by (destruct Hid as [[? _]|Hid]; [by left|right; lia]).
    split.
    + apply chain_app. split; [by destruct Hor as [->| ->]|].
      split; [|intros _; by apply Hc3]. cbn. rewrite Hn. split; [done|]. split; [lia|].
      split; [|done]. intros E. split; [done|]. rewrite Hemp by done. lia.
    + destruct Hid as [[-> Hge]|Hid]; [|lia]. change (zlen (log_of [])) with 0. lia.
  - cbn [base_path set_files]. intros n p Hu Hpp Hsome. rewrite Hdir in Hsome.
    destruct (Hdd n p Hu Hpp Hsome) as (e & [Hin|Hin]%elem_of_app & Hne).
    + exists e. rewrite elem_of_app. auto.
    + apply list_elem_of_singleton in Hin as ->. exists (w', rs'). rewrite elem_of_app.
      cbn in *. split; [right; by left|congruence].
Qed.

Lemma set_ok_of_last fs s l w rs :
  set_core fs s (l ++ [(w, rs)]) -> active s = Some (length l) -> is_Some (mmap_mut w) ->
  set_ok fs s (l ++ [(w, rs)]).
Proof.
  intros Hc Ha Hm. split; [done| |].
  - rewrite Ha, length_app. cbn. f_equal. lia.
  - exists (w, rs). by rewrite last_snoc.
Qed.

Lemma file_ok_ids bytes w rs : file_ok bytes w rs -> ids_from (id_from w) rs.
Proof. intros [_ _ _ Hd]. destruct rs; [done|]. by destruct Hd as (ds & _ & _ & _ & _ & ? & _). Qed.

(** The ids of the set count up without a gap. *)
Lemma log_of_ids fs base no next l :
  Forall (entry_ok fs base) l -> chain no next l -> ids_from next (log_of l).
Proof.
  revert no next. induction l as [|[w rs] l IH]; intros no next; [done|].
  intros He (_ & Hf & _ & Hc). inversion He as [|? ? (i & _ & Hfo & _) He']; subst.
  apply (proj2 (ids_from_app (id_from w) rs (log_of l))). split; [by eapply file_ok_ids|eauto].
Qed.

Lemma ids_from_last i rs x : ids_from i rs -> last rs = Some x -> x.1 = i + zlen rs - 1.
Proof.
  intros Hids [l ->]%last_Some. apply ids_from_app in Hids as [_ [-> _]].
  rewrite zlen_app. change (zlen [x]) with 1. lia.
Qed.

Lemma log_of_snoc l w rs : log_of (l ++ [(w, rs)]) = log_of l ++ rs.
Proof. unfold log_of. rewrite fmap_app, concat_app. cbn. by rewrite app_nil_r. Qed.

(** The first id of the active file after an append fits the files before it. *)
Lemma append_id_from fs base l0 w rs i r :
  Forall (entry_ok fs base) (l0 ++ [(w, rs)]) -> (exists no next, chain no next (l0 ++ [(w, rs)]) /\ 0 <= next) ->
  file_ok (fs_content fs i) w rs -> rec_ok r ->
  (forall x, last (log_of (l0 ++ [(w, rs)])) = Some x -> r.1 = x.1 + 1) ->
  (l0 = [] /\ 0 <= id_from (appended w r)) \/ id_from (appended w r) = id_from w.
Proof.
  intros He (no & next & Hch & Hnn) Hfo Hr Hlast. unfold appended.
  destruct rs as [|r0 rs].
  2:{ right. by destruct (file_ok_data_start _ _ _ Hfo ltac:(done)) as [ds ->]. }
  destruct Hfo as [_ _ _ [-> _]]. cbn.
  destruct (last (log_of l0)) as [x|] eqn:El.
  - right. apply chain_app in Hch as (Hc0 & (_ & -> & _) & _).
    apply Forall_app in He as [He _].
    rewrite (Hlast x); [|by rewrite log_of_snoc, app_nil_r].
    rewrite (ids_from_last _ _ _ (log_of_ids _ _ _ _ _ He Hc0) El). lia.
  - left. apply last_None in El. split; [|apply Hr].
    apply chain_app in Hch as (_ & _ & Hne). specialize (Hne ltac:(done)).
    destruct l0 as [|[w0 rs0] l0]; [done|]. inversion Hne as [|? ? Hx _]; subst. cbn in Hx.
    apply app_eq_nil in El as [El _]. done.
Qed.

(** Appending a log to the active file. *)
Lemma on_active_append fs s l0 w rs i r :
  set_ok fs s (l0 ++ [(w, rs)]) -> entry_at fs (base_path s) (w, rs) i -> mmap_mut w = Some i ->
  rec_ok r -> has_space w (zlen r.2) = Ok true ->
  (forall x, last (log_of (l0 ++ [(w, rs)])) = Some x -> r.1 = x.1 + 1) ->
  let fs' := fs_store i (append_content (fs_content fs i) w r) fs in
  let s' := set_files (l0.*1 ++ [appended w r]) s in
  on_active (append_log r.1 r.2) (fs, s) = (Ok tt, (fs', s')) /\
  set_ok fs' s' (l0 ++ [(appended w r, rs ++ [r])]).
Proof.
  intros Hset Hat Hmm Hr Hsp Hlast fs' s'. pose proof Hat as (_ & Hfo & _). cbn [fst snd] in Hfo.
  destruct (set_ok_last _ _ _ Hset) as (l1 & w1 & rs1 & i1 & E & _ & _ & Hfl & Hact).
  apply app_inj_tail in E as [<- [= <- <-]].
  assert (rs = [] \/ r.1 = id_until w + 1) as Hid.
  { destruct (last rs) as [x|] eqn:El; [right|left; by apply last_None].
    rewrite (Hlast x), (ids_from_last _ _ _ (file_ok_ids _ _ _ Hfo) El).
    - destruct rs; [done|]. destruct Hfo as [_ _ _ (ds & _ & _ & _ & _ & _ & ->)]. lia.
    - rewrite log_of_snoc. by rewrite last_app, El. }
  split.
  - rewrite (on_active_last _ _ _ (l0.*1) w) by done.
    rewrite (append_log_ok _ _ i rs) by done. done.
  - pose proof (file_ok_append _ _ _ _ Hfo Hr Hsp Hid) as Hfo'.
    destruct (appended_maps w r) as (Am & Ai & _ & Au & _).
    apply set_ok_of_last; [|cbn; by rewrite Hact, length_fmap|rewrite Ai, Hmm; eauto].
    eapply (core_replace_last fs fs' s l0 w rs _ _ i);
      [apply Hset|done..| | | | |done|done| | |by destruct rs].
    + intros j Hj. by apply fs_content_store_ne.
    + unfold fs'. by rewrite fs_content_store.
    + right. congruence.
    + rewrite Am. apply Hat.
    + rewrite Ai. apply Hat.
    + apply (append_id_from fs (base_path s) l0 w rs i); [apply Hset|apply Hset|done..].
Qed.

(** ** New files *)

(** The file system after the file of [w] was created. *)
Definition fs_created (fs : Fs) (w : WalFile) : Fs :=
  let i := next_ino fs in
  mkFs (<[path w := i]> (dir fs))
       (<[i := mkInode (splice (replicate (Z.to_nat (len_max w)) Byte.x00) 0 (header_of w)) []]>
          (inodes fs)) (S i).

Lemma create_in_ok fs w :
  version w = 1 -> 32 <= len_max w -> dir fs !! path w = None ->
  create_in w fs = (Ok w, fs_created fs w).
Proof.
  intros Hv Hl Hd. destruct (header_of_ok w Hv) as [Hh Hz].
  unfold create_in, create_file, fs_create_new. wstep. rewrite Hd. wstep. rewrite Hh. wstep.
  rewrite mmap_write_ok; try lia.
  - unfold fs_created, fs_store, fs_content, fs_durable. cbn. rewrite lookup_insert_eq. cbn.
    by rewrite insert_insert_eq.
  - unfold fs_content. cbn. rewrite lookup_insert_eq. cbn. unfold zlen. rewrite length_replicate. unfold zlen in *. lia.
Qed.

Lemma fs_content_created fs w j : (j < next_ino fs)%nat -> fs_content (fs_created fs w) j = fs_content fs j.
Proof. intros. unfold fs_content, fs_created. cbn. by rewrite lookup_insert_ne by lia. Qed.

Lemma fs_wf_created fs w : fs_wf fs -> dir fs !! path w = None -> fs_wf (fs_created fs w).
Proof.
  intros [Hi Hf] Hd. split; cbn.
  - intros p q i. rewrite !lookup_insert. repeat case_decide; subst; try done.
    + intros [= <-] Hq%Hf. lia.
    + intros Hq%Hf [= <-]. lia.
    + eauto.
  - intros p i. rewrite lookup_insert. case_decide; [intros [= <-]; lia|]. intros ?%Hf. lia.
Qed.

(** A file that was just created and mapped. *)
Lemma fresh_file_ok fs w :
  version w = 1 -> 32 <= len_max w < u32_max -> data_start w = None -> data_end w = None ->
  file_ok (fs_content (fs_created fs w) (next_ino fs)) w [].
Proof.
  intros Hv Hl Hs He. destruct (header_of_ok w Hv) as [_ Hz].
  assert (fs_content (fs_created fs w) (next_ino fs) =
          splice (replicate (Z.to_nat (len_max w)) Byte.x00) 0 (header_of w)) as ->.
  { unfold fs_content, fs_created. cbn. by rewrite lookup_insert_eq. }
  assert (zlen (replicate (Z.to_nat (len_max w)) Byte.x00) = len_max w).
  { unfold zlen. rewrite length_replicate. lia. }
  split; [done|rewrite zlen_splice; lia|done|done].
Qed.

Lemma entry_created fs base w e :
  fs_wf fs -> dir fs !! path w = None -> entry_ok fs base e -> entry_ok (fs_created fs w) base e.
Proof.
  intros [_ Hf] Hd He. pose proof He as (i & Hi & _). eapply entry_frame; [done| |].
  - cbn. rewrite lookup_insert_ne by congruence. done.
  - intros j Hj. apply fs_content_created. by eapply Hf.
Qed.

(** The file [add_file] creates. *)
Definition fresh (no : Z) (p : string) (wal_size : Z) : WalFile :=
  mkWal 1 no p 0 0 None None wal_size None None None.

Lemma new_ok no base ws p :
  MIN_WAL_SIZE <= ws -> build_full_path base no = Ok p -> new no base 0 0 ws = Ok (fresh no p ws).
Proof. intros. unfold new. rewrite (proj2 (Z.ltb_ge _ _)) by lia. by rewrite H2. Qed.

(** A number no file of the set has is free in the directory. *)
Lemma path_free fs s l no next n p :
  set_core fs s l -> chain no next l -> is_u64 n -> build_full_path (base_path s) n = Ok p ->
  ~ (no <= n < no + zlen l) -> dir fs !! p = None.
Proof.
  intros Hc Hch Hn Hp Hout. destruct (dir fs !! p) eqn:E; [|done]. exfalso. apply Hout.
  destruct (sc_dir _ _ _ Hc n p Hn Hp ltac:(eauto)) as (e & [k Hk]%list_elem_of_lookup & <-).
  rewrite (chain_wal_no _ _ _ _ _ Hch Hk). apply lookup_lt_Some in Hk. unfold zlen. lia.
Qed.

(** Adding an empty file behind the last one. *)
Lemma core_add_file fs s l no next n p ws ids :
  set_core fs s l -> chain no next l -> 0 <= next -> 0 <= ids -> 1 <= n < u64_max ->
  build_full_path (base_path s) n = Ok p -> MIN_WAL_SIZE <= ws < u32_max ->
  Forall (fun e => e.2 <> []) l ->
  (l = [] \/ (n = no + zlen l /\ ids = next + zlen (log_of l))) -> dir fs !! p = None ->
  let w := set_ids ids ids (set_maps None (Some (next_ino fs)) (Some (next_ino fs)) (fresh n p ws)) in
  set_core (fs_created fs (fresh n p ws)) (set_files (l.*1 ++ [w]) s) (l ++ [(w, [])]).
Proof.
  intros Hc Hch Hnn Hids Hn Hp Hws Hne Hor Hfree w. pose proof Hc as [Hwf Hf He _ Hdd].
  unfold u64_max, MIN_WAL_SIZE in *. split.
  - by apply fs_wf_created.
  - cbn. by rewrite fmap_app.
  - cbn [base_path set_files]. apply Forall_app. split.
    + eapply Forall_impl; [exact He|]. intros. by apply entry_created.
    + constructor; [|constructor]. exists (next_ino fs). unfold entry_at. cbn [fst snd].
      split; [cbn; by rewrite lookup_insert_eq|]. split; [|unfold u64_max; auto 10].
      pose proof (fresh_file_ok fs (fresh n p ws) eq_refl ltac:(cbn; lia) eq_refl eq_refl) as [? ? ? ?].
      by split.
  - destruct Hor as [->|[-> ->]].
    + exists n, ids. cbn. auto 10.
    + exists no, next. split; [|lia]. apply chain_app. cbn. auto 10.
  - cbn [base_path set_files]. intros m q Hm Hq Hs. cbn in Hs. rewrite lookup_insert in Hs.
    case_decide as Hpq.
    + subst q. exists (w, []). rewrite elem_of_app. split; [right; by left|].
      eapply build_full_path_inj; [|exact Hm|exact Hp|exact Hq]. unfold is_u64. cbn. lia.
    + destruct (Hdd m q Hm Hq Hs) as (e & Hin & ?). exists e. rewrite elem_of_app. auto.
Qed.

Definition next_no (l : list WalFile) : Z :=
  match last l with Some w => wrap64 (wal_no w + 1) | None => 1 end.

Lemma add_file_ok fs s ws p :
  MIN_WAL_SIZE <= ws -> build_full_path (base_path s) (next_no (files s)) = Ok p ->
  dir fs !! p = None ->
  let w := fresh (next_no (files s)) p ws in
  add_file ws (fs, s) =
  (Ok tt, (fs_created fs w,
     mkSet (if next_no (files s) =? 1 then Some 0%nat else active s) (base_path s) (files s ++ [w]))).
Proof.
  intros Hws Hp Hfree w. unfold add_file, back_file. sstep. fold (next_no (files s)).
  rewrite (new_ok _ _ _ p) by done. sstep. fold w.
  rewrite create_in_ok; [|done|cbn; unfold MIN_WAL_SIZE in *; lia|done]. sstep.
  destruct (next_no (files s) =? 1); reflexivity.
Qed.

Lemma mmap_mut_op_ok fs w i :
  dir fs !! path w = Some i -> mmap_mut w = None ->
  mmap_mut_op (fs, w) = (Ok tt, (fs, set_maps (mmap w) (Some i) (Some i) w)).
Proof.
  intros Hd Hm. unfold mmap_mut_op. wstep. rewrite Hm. wstep. unfold fs_open. by rewrite Hd.
Qed.

Lemma mmap_mut_op_mapped fs w i : mmap_mut w = Some i -> mmap_mut_op (fs, w) = (Ok tt, (fs, w)).
Proof. intros Hm. unfold mmap_mut_op. wstep. by rewrite Hm. Qed.

(** Sealing a file: header written, flushed, no longer writable. *)
Definition seal : WSt Z :=
  update_header;; flush;;
  w_modify (fun w => set_maps (mmap w) None None w);;
  w ← w_get; mret (id_until w).

Definition fs_sealed (fs : Fs) (i : nat) (w : WalFile) : Fs :=
  fs_msync i (fs_store i (splice (fs_content fs i) 0 (header_of w)) fs).

Lemma seal_ok fs w i :
  version w = 1 -> mmap_mut w = Some i -> 32 <= zlen (fs_content fs i) ->
  seal (fs, w) = (Ok (id_until w), (fs_sealed fs i w, set_maps (mmap w) None None w)).
Proof.
  intros Hv Hm Hz. unfold seal. rewrite (st_bind_ok _ _ _ _ _ (update_header_ok fs w i Hv Hm Hz)).
  unfold flush. wstep. rewrite Hm. reflexivity.
Qed.

Lemma core_seal fs s l0 w rs i :
  set_core fs s (l0 ++ [(w, rs)]) -> entry_at fs (base_path s) (w, rs) i ->
  (rs = [] -> id_until w = id_from w) ->
  set_core (fs_sealed fs i w) (set_files (l0.*1 ++ [set_maps (mmap w) None None w]) s)
    (l0 ++ [(set_maps (mmap w) None None w, rs)]).
Proof.
  intros Hc Hat Hemp. pose proof Hat as (_ & Hfo & _ & Hm0 & _). cbn [fst snd] in *.
  eapply (core_replace_last fs _ s l0 w rs _ _ i); [done..| | | | |done|done|done| |done].
  - intros j Hj. unfold fs_sealed. rewrite fs_content_msync. by apply fs_content_store_ne.
  - unfold fs_sealed. rewrite fs_content_msync, fs_content_store.
    destruct (file_ok_header _ _ _ Hfo). by split.
  - by left.
  - done.
  - by right.
Qed.

(** The file a roll-over adds. *)
Definition rolled (fs : Fs) (w : WalFile) (p : string) (ws : Z) : WalFile :=
  set_ids (id_until w + 1) (id_until w + 1)
    (set_maps None (Some (next_ino fs)) (Some (next_ino fs)) (fresh (wal_no w + 1) p ws)).

Lemma roll_over_ok fs s l0 w rs i ws p :
  set_ok fs s (l0 ++ [(w, rs)]) -> entry_at fs (base_path s) (w, rs) i -> mmap_mut w = Some i ->
  rs <> [] -> MIN_WAL_SIZE <= ws < u32_max -> wal_no w + 1 < u64_max -> id_until w < u64_max ->
  build_full_path (base_path s) (wal_no w + 1) = Ok p ->
  let fs' := fs_created (fs_sealed fs i w) (fresh (wal_no w + 1) p ws) in
  let l' := l0 ++ [(set_maps (mmap w) None None w, rs)] ++ [(rolled fs w p ws, [])] in
  let s' := mkSet (Some (S (length l0))) (base_path s) (l'.*1) in
  roll_over ws (fs, s) = (Ok tt, (fs', s')) /\ set_ok fs' s' l'.
Proof.
  intros Hset Hat Hmm Hne Hws Hno Hid Hp fs' l' s'.
  destruct (set_ok_last _ _ _ Hset) as (l1 & w1 & rs1 & i1 & E & _ & _ & Hfl & Hact).
  apply app_inj_tail in E as [<- [= <- <-]].
  pose proof Hat as (Hdi & Hfo & _ & Hm0 & Hb & Hn). cbn [fst snd] in *.
  pose proof (core_seal _ _ _ _ _ _ (so_core _ _ _ Hset) Hat ltac:(done)) as Hc1.
  destruct (sc_chain _ _ _ Hc1) as (no & next & Hch & Hnn).
  assert (wal_no w = no + zlen l0 /\ id_until w + 1 = next + zlen (log_of (l0 ++ [(w, rs)]))) as [En Ei].
  { apply chain_app in Hch as (_ & (Hn0 & Hf & _) & _). cbn in Hn0, Hf. split; [done|].
    destruct Hfo as [_ _ _ Hd]. destruct rs; [done|]. destruct Hd as (ds & _ & _ & _ & _ & _ & ->).
    rewrite log_of_snoc, zlen_app. lia. }
  set (s1 := set_files (l0.*1 ++ [set_maps (mmap w) None None w]) s) in *.
  unfold u64_max in *.
  assert (is_u64 (wal_no w + 1)) as Hu by (unfold is_u64; lia).
  assert (dir (fs_sealed fs i w) !! p = None) as Hfree.
  { eapply (path_free _ s1 _ no next (wal_no w + 1)); [done|done|done|exact Hp|].
    rewrite zlen_app. change (zlen [_]) with 1. lia. }
  assert (next_no (files s1) = wal_no w + 1) as Hnx.
  { unfold next_no. cbn. rewrite last_snoc. cbn. by rewrite wrap64_small. }
  pose proof (core_add_file (fs_sealed fs i w) s1 (l0 ++ [(set_maps (mmap w) None None w, rs)]) no next
    (wal_no w + 1) p ws (id_until w + 1) Hc1 Hch Hnn) as Hc2.
  cbv zeta in Hc2. change (next_ino (fs_sealed fs i w)) with (next_ino fs) in Hc2.
  fold (rolled fs w p ws) in Hc2.
  rewrite log_of_snoc, zlen_app in Ei.
  assert (Forall (fun e : FileLogs => e.2 <> []) (l0 ++ [(set_maps (mmap w) None None w, rs)])) as Hall.
  { apply chain_app in Hch as (_ & _ & Hl). apply Forall_app. split; [by apply Hl|by repeat constructor]. }
  pose proof (zlen_nonneg (log_of l0)). pose proof (zlen_nonneg rs).
  specialize (Hc2 ltac:(lia) ltac:(unfold u64_max; lia) Hp Hws Hall
    ltac:(right; rewrite log_of_snoc, !zlen_app; change (zlen [_]) with 1; lia) Hfree).
  rewrite fmap_app in Hc2. cbn [fmap list_fmap fst] in Hc2.
  assert (files s1 ++ [rolled fs w p ws] = l'.*1) as Efiles.
  { unfold l'. cbn. by rewrite fmap_app, <- app_assoc. }
  assert (roll_over ws (fs, s) = (Ok tt, (fs', s'))) as Hrun.
  { unfold roll_over. fold seal.
    rewrite (st_bind_ok _ _ _ (fs_sealed fs i w, s1) (id_until w)).
    2:{ rewrite (on_active_last _ _ _ (l0.*1) w) by done.
        rewrite (seal_ok _ _ i); [done|apply Hfo|done|]. destruct Hfo as [_ -> ? _]. lia. }
    rewrite (st_bind_ok _ _ _ _ _ (add_file_ok _ s1 ws p ltac:(lia) ltac:(by rewrite Hnx) Hfree)).
    rewrite Hnx. sstep.
    rewrite (on_active_last _ _ _ (files s1) (fresh (wal_no w + 1) p ws)); [|done|].
    2:{ cbn. f_equal. rewrite !length_app. cbn. lia. }
    fold fs'. rewrite (mmap_mut_op_ok fs' (fresh (wal_no w + 1) p ws) (next_ino fs)
      (lookup_insert_eq _ _ _) eq_refl).
    unfold w_modify. wstep. rewrite wrap64_small by (unfold is_u64; lia).
    unfold s'. rewrite <- Efiles. unfold set_files. cbn [base_path active set_active].
    do 4 f_equal. cbn. rewrite !length_app, length_fmap. cbn. lia. }
  split; [done|]. unfold l'. rewrite app_assoc. apply set_ok_of_last; [|cbn; f_equal; rewrite length_app; cbn; lia|cbn; eauto].
  unfold s'. rewrite <- Efiles. destruct Hc2 as [X1 X2 X3 X4 X5]. by split.
Qed.
End WalSetSpec.
