(* ===== verification/WalPurge.v ===== *)
(** Deleting logs at either end of the set: [WalFileSet::shift_delete_logs].

    A purge keeps exactly the logs from [until] on, a truncation exactly the logs
    before [from]; the rest of the set keeps its shape. *)
From stdpp Require Import base gmap strings list numbers sorting.
From Stdlib Require Import Ascii Strings.Byte.
From S2P Require Import Prelude Text WalBase WalFile WalFileSpec WalSet WalSetSpec.
#[local] Open Scope Z_scope.

Definition keep_from (until : Z) (rs : list Entry) : list Entry := filter (fun r => until <= r.1) rs.
Definition keep_below (from : Z) (rs : list Entry) : list Entry := filter (fun r => r.1 < from) rs.

Lemma keep_from_ids i until rs :
  ids_from i rs -> keep_from until rs = drop (Z.to_nat (until - i)) rs.
Proof.
  revert i. induction rs as [|r rs IH]; intros i; [by rewrite drop_nil|].
  intros [Hi Hr]. unfold keep_from in *. rewrite filter_cons, Hi. case_decide.
  - replace (Z.to_nat (until - i)) with 0%nat by lia. rewrite (IH _ Hr).
    by replace (Z.to_nat (until - (i + 1))) with 0%nat by lia.
  - rewrite (IH _ Hr). by replace (Z.to_nat (until - i)) with (S (Z.to_nat (until - (i + 1)))) by lia.
Qed.

Lemma keep_below_ids i from rs :
  ids_from i rs -> keep_below from rs = take (Z.to_nat (from - i)) rs.
Proof.
  revert i. induction rs as [|r rs IH]; intros i; [by rewrite take_nil|].
  intros [Hi Hr]. unfold keep_below in *. rewrite filter_cons, Hi. case_decide.
  - rewrite (IH _ Hr). by replace (Z.to_nat (from - i)) with (S (Z.to_nat (from - (i + 1)))) by lia.
  - replace (Z.to_nat (from - i)) with 0%nat by lia. rewrite (IH _ Hr).
    by replace (Z.to_nat (from - (i + 1))) with 0%nat by lia.
Qed.

Section Delete.
Context `{Checksum} `{Features}.

(** ** Cutting one file *)
Definition wmapped (i : nat) (w : WalFile) : WalFile :=
  match mmap_mut w with Some _ => w | None => set_maps (mmap w) (Some i) (Some i) w end.

Lemma offset_of_log_ok fs w i rs id :
  dir fs !! path w = Some i -> (mmap_mut w = None \/ mmap_mut w = Some i) -> mmap w = None ->
  file_ok (fs_content fs i) w rs -> rs <> [] -> id_from w <= id <= id_until w ->
  offset_of_log id (fs, w) =
    (Ok (rec_end (default 32 (data_start w)) (take (Z.to_nat (id - id_from w)) rs)), (fs, wmapped i w)).
Proof.
  intros Hd Hmm Hm Hfo Hne Hid. unfold offset_of_log.
  assert (mmap_mut_op (fs, w) = (Ok tt, (fs, wmapped i w))) as E.
  { unfold wmapped. destruct Hmm as [E|E]; rewrite E; [by apply mmap_mut_op_ok|by eapply mmap_mut_op_mapped]. }
  rewrite (st_bind_ok _ _ _ _ _ E). wstep.
  assert (mapped fs (wmapped i w) = Some (fs_content fs i)) as Hmap.
  { apply mapped_mut; unfold wmapped; destruct Hmm as [E'|E']; rewrite E'; done. }
  assert (file_ok (fs_content fs i) (wmapped i w) rs) as Hfo'.
  { destruct Hfo. unfold wmapped. destruct (mmap_mut w); by split. }
  rewrite (read_logs_ok _ _ _ rs _ _ None Hfo' Hmap Hne);
    unfold wmapped; destruct (mmap_mut w); cbn; try done; lia.
Qed.

Definition cut_front_file (i : nat) (w : WalFile) (rs : list Entry) (until : Z) : WalFile :=
  set_data (Some (rec_end (default 32 (data_start w)) (take (Z.to_nat (until - id_from w)) rs)))
    (data_end w) (set_ids until (id_until w) (wmapped i w)).

Definition cut_back_file (i : nat) (w : WalFile) (rs : list Entry) (from : Z) : WalFile :=
  set_data (data_start w)
    (Some (rec_end (default 32 (data_start w)) (take (Z.to_nat (from - id_from w)) rs) - 1))
    (set_ids (id_from w) (from - 1) (wmapped i w)).

Lemma wmapped_fields i w :
  version (wmapped i w) = version w /\ len_max (wmapped i w) = len_max w /\
  data_start (wmapped i w) = data_start w /\ data_end (wmapped i w) = data_end w /\
  id_from (wmapped i w) = id_from w /\ id_until (wmapped i w) = id_until w /\
  path (wmapped i w) = path w /\ wal_no (wmapped i w) = wal_no w /\ mmap (wmapped i w) = mmap w.
Proof. unfold wmapped. destruct (mmap_mut w); auto 10. Qed.

Lemma wmapped_file i w : wfile w = mmap_mut w -> wfile (wmapped i w) = mmap_mut (wmapped i w).
Proof. unfold wmapped. destruct (mmap_mut w) eqn:E; [congruence|done]. Qed.

Lemma cut_front_file_ok bytes i w rs until :
  file_ok bytes w rs -> rs <> [] -> id_from w <= until <= id_until w ->
  file_ok bytes (cut_front_file i w rs until) (drop (Z.to_nat (until - id_from w)) rs).
Proof.
  intros [Hv Hl Hm Hd] Hne Hu. destruct (wmapped_fields i w) as (Ev & El & Es & Ee & _).
  split; cbn; rewrite ?Ev, ?El; try done.
  set (k := Z.to_nat (until - id_from w)). destruct rs as [|r0 rs0]; [done|].
  destruct Hd as (ds & Hds & Hst & Hde & Hat & Hids & Hun). remember (r0 :: rs0) as rs.
  unfold cut_front_file. rewrite Hst. fold k. cbn [default from_option]. rewrite <- (take_drop k rs) in Hat, Hids, Hde.
  assert (Z.of_nat k < zlen rs) by (unfold k; lia). unfold zlen in *.
  assert (zlen (take k rs) = until - id_from w) as Hz by (unfold zlen; rewrite length_take; unfold k; lia).
  apply recs_at_app in Hat as [_ Hat]. apply ids_from_app in Hids as [_ Hids]. rewrite rec_end_app in Hde.
  destruct (drop k rs) as [|r1 rs1] eqn:Edrop.
  { apply (f_equal length) in Edrop. rewrite length_drop in Edrop. cbn in Edrop. lia. }
  exists (rec_end ds (take k rs)). pose proof (rec_end_ge ds (take k rs)).
  split; [lia|]. split; [done|]. split; [done|]. split; [done|]. cbn [id_from id_until set_data set_ids].
  split; [by replace until with (id_from w + zlen (take k rs)) by lia|].
  apply (f_equal length) in Edrop. rewrite length_drop in Edrop. cbn [length] in Edrop.
  unfold zlen. cbn [length]. unfold k in *. lia.
Qed.

Lemma cut_back_file_ok bytes i w rs from :
  file_ok bytes w rs -> rs <> [] -> id_from w < from <= id_until w ->
  file_ok bytes (cut_back_file i w rs from) (take (Z.to_nat (from - id_from w)) rs).
Proof.
  intros [Hv Hl Hm Hd] Hne Hu. destruct (wmapped_fields i w) as (Ev & El & Es & Ee & _).
  split; cbn; rewrite ?Ev, ?El; try done.
  set (k := Z.to_nat (from - id_from w)). destruct rs as [|r0 rs0]; [done|].
  destruct Hd as (ds & Hds & Hst & Hde & Hat & Hids & Hun). remember (r0 :: rs0) as rs.
  unfold cut_back_file. rewrite Hst. fold k. cbn [default from_option]. rewrite <- (take_drop k rs) in Hat, Hids.
  assert (Z.of_nat k < zlen rs) by (unfold k; lia). unfold zlen in *.
  assert (zlen (take k rs) = from - id_from w) as Hz by (unfold zlen; rewrite length_take; unfold k; lia).
  apply recs_at_app in Hat as [Hat _]. apply ids_from_app in Hids as [Hids _].
  destruct (take k rs) as [|r1 rs1] eqn:Et; [unfold zlen in Hz; cbn in Hz; lia|].
  exists ds. cbn [id_from id_until data_start data_end set_data set_ids]. split; [lia|]. split; [done|]. split; [done|].
  split; [done|]. split; [done|]. unfold zlen in *. lia.
Qed.

Lemma cut_front_run fs w i rs until :
  dir fs !! path w = Some i -> (mmap_mut w = None \/ mmap_mut w = Some i) -> mmap w = None ->
  file_ok (fs_content fs i) w rs -> rs <> [] -> id_from w < until <= id_until w ->
  cut_front until (fs, w) = (Ok tt, (fs, cut_front_file i w rs until)).
Proof.
  intros Hd Hmm Hm Hfo Hne Hu. unfold cut_front. wstep. rewrite (proj2 (Z.ltb_lt _ _)) by lia.
  assert (bool_decide (is_Some (data_end w)) = true) as ->.
  { apply bool_decide_eq_true. destruct Hfo as [_ _ _ Hx]. destruct rs; [done|].
    destruct Hx as (? & _ & _ & -> & _). eauto. }
  cbn [andb]. rewrite (offset_of_log_ok _ _ i rs) by (done || lia). unfold w_modify. wstep.
  destruct (wmapped_fields i w) as (_ & _ & _ & Ee & _ & Eu & _). by rewrite Ee, Eu.
Qed.

Lemma cut_back_run fs w i rs from :
  dir fs !! path w = Some i -> (mmap_mut w = None \/ mmap_mut w = Some i) -> mmap w = None ->
  file_ok (fs_content fs i) w rs -> rs <> [] -> 0 <= id_from w -> from < 2 ^ 64 ->
  id_from w < from <= id_until w ->
  cut_back from (fs, w) = (Ok tt, (fs, cut_back_file i w rs from)).
Proof.
  intros Hd Hmm Hm Hfo Hne Hpos H64 Hu. unfold cut_back. wstep. rewrite (proj2 (Z.eqb_neq _ _)) by lia.
  rewrite (proj2 (Z.leb_le _ _)) by lia.
  rewrite (offset_of_log_ok _ _ i rs) by (done || lia). unfold w_modify. wstep.
  destruct (wmapped_fields i w) as (_ & _ & Es & _ & Ef & _). rewrite Es, Ef.
  rewrite wrap64_small by (unfold is_u64; lia). unfold cut_back_file.
  rewrite wrap32_small; [done|]. destruct Hfo as [_ Hl Hmx Hx]. destruct rs as [|r0 rs0]; [done|].
  destruct Hx as (ds & Hds & -> & _ & Hat & _). remember (r0 :: rs0) as rs. cbn [default from_option].
  pose proof (recs_at_bound _ _ _ Hat ltac:(by subst)) as [_ Hbd]. unfold u32_max in *.
  set (k := Z.to_nat (from - id_from w)). pose proof (rec_end_ge ds (take k rs)).
  pose proof (rec_end_ge (rec_end ds (take k rs)) (drop k rs)) as Hge.
  rewrite <- rec_end_app, take_drop in Hge. unfold is_u32. cbn [id]. lia.
Qed.

(** ** Removing whole files *)

(** The file system after the popped file [w] was removed and dropped. *)
Definition fs_popped (fs : Fs) (i : nat) (w : WalFile) : Fs :=
  let fs' := mkFs (delete (path w) (dir fs)) (inodes fs) (next_ino fs) in
  match mmap_mut w with None => fs' | Some _ => fs_sealed fs' i w end.

Lemma remove_popped_ok fs w i rs :
  dir fs !! path w = Some i -> (mmap_mut w = None \/ mmap_mut w = Some i) ->
  file_ok (fs_content fs i) w rs ->
  remove_popped w fs = (Ok tt, fs_popped fs i w).
Proof.
  intros Hd Hmm [Hv Hl Hmx _]. unfold remove_popped, fs_remove_file, fs_popped, drop_file. rewrite Hd.
  destruct Hmm as [E|E]; rewrite E; [done|].
  set (fs' := mkFs _ _ _). assert (32 <= zlen (fs_content fs' i)) as Hz.
  { change (fs_content fs' i) with (fs_content fs i). lia. }
  rewrite (st_bind_ok _ _ _ _ _ (update_header_ok fs' w i Hv E Hz)).
  unfold flush. wstep. rewrite E. reflexivity.
Qed.

Lemma fs_popped_dir fs i w : dir (fs_popped fs i w) = delete (path w) (dir fs).
Proof. unfold fs_popped. by destruct (mmap_mut w). Qed.

Lemma fs_popped_content fs i w j : j <> i -> fs_content (fs_popped fs i w) j = fs_content fs j.
Proof.
  intros Hj. unfold fs_popped. destruct (mmap_mut w); [|done].
  unfold fs_sealed. rewrite fs_content_msync, fs_content_store_ne by done. done.
Qed.

Lemma fs_wf_popped fs i w : fs_wf fs -> fs_wf (fs_popped fs i w).
Proof.
  intros [Hi Hf]. assert (next_ino (fs_popped fs i w) = next_ino fs) as Hn
    by (unfold fs_popped; by destruct (mmap_mut w)).
  split; rewrite fs_popped_dir, ?Hn.
  - intros p q j [_ ?]%lookup_delete_Some [_ ?]%lookup_delete_Some. eauto.
  - intros p j [_ ?]%lookup_delete_Some. eauto.
Qed.

Lemma fs_popped_durable fs i w j : j <> i -> fs_durable (fs_popped fs i w) j = fs_durable fs j.
Proof.
  intros Hj. unfold fs_popped. destruct (mmap_mut w); [|done].
  unfold fs_sealed, fs_msync, fs_store, fs_durable, fs_content. cbn. by rewrite !lookup_insert_ne by done.
Qed.

(** The files of [l] are where they were, with the same bytes on the device. *)
Definition same_on (fs fs' : Fs) (l : list FileLogs) : Prop :=
  forall e, e ∈ l -> dir fs' !! path e.1 = dir fs !! path e.1 /\
    forall j, dir fs !! path e.1 = Some j -> fs_durable fs' j = fs_durable fs j.

Lemma same_on_refl fs l : same_on fs fs l.
Proof. by intros e _. Qed.

Lemma same_on_trans f1 f2 f3 l : same_on f1 f2 l -> same_on f2 f3 l -> same_on f1 f3 l.
Proof.
  intros H12 H23 e He. destruct (H12 e He) as [D1 C1]. destruct (H23 e He) as [D2 C2].
  split; [congruence|]. intros j Hj. rewrite C2 by congruence. auto.
Qed.

Lemma same_on_sub fs fs' l l' : (forall e, e ∈ l' -> e ∈ l) -> same_on fs fs' l -> same_on fs fs' l'.
Proof. intros Hs Ho e He. auto. Qed.

(** [e'] is the file of [e], holding some of its logs in the same bytes. *)
Record cut_of (e e' : FileLogs) : Prop := {
  co_path : path e'.1 = path e.1;
  co_no : wal_no e'.1 = wal_no e.1;
  co_len : len_max e'.1 = len_max e.1;
  co_bytes : e'.2 = [] \/ forall bytes, file_ok bytes e.1 e.2 -> file_ok bytes e'.1 e'.2;
  co_empty : e.2 = [] -> e'.2 = [];
}.

Lemma cut_of_refl e : cut_of e e.
Proof. split; auto. Qed.

(** Every file of [l'] is one of [l], whole or cut, or the first file of an
    emptied set. *)
Definition derives (fs fs' : Fs) (ws : Z) (l l' : list FileLogs) : Prop :=
  forall e', e' ∈ l' ->
    (l' = [e'] /\ wal_no e'.1 = 1 /\ e'.2 = [] /\ len_max e'.1 = ws) \/
    exists e, e ∈ l /\ cut_of e e' /\ same_on fs fs' [e].

Lemma same_on_popped fs (e : FileLogs) i l :
  fs_wf fs -> dir fs !! path e.1 = Some i -> Forall (fun x : FileLogs => path x.1 <> path e.1) l ->
  same_on fs (fs_popped fs i e.1) l.
Proof.
  intros Hwf Hi Hp x Hx. rewrite Forall_forall in Hp. specialize (Hp x Hx). split.
  - by rewrite fs_popped_dir, lookup_delete_ne by done.
  - intros j Hj. apply fs_popped_durable. intros ->. apply Hp. by eapply fw_inj.
Qed.

(** Popping one file off either end leaves a well-formed set. *)
Lemma core_pop fs s l l' e i :
  set_core fs s l -> (forall x, x ∈ l <-> x = e \/ x ∈ l') -> entry_at fs (base_path s) e i ->
  Forall (fun x => path x.1 <> path e.1) l' -> (exists no next, chain no next l' /\ 0 <= next) ->
  set_core (fs_popped fs i e.1) (set_files (l'.*1) s) l' /\ same_on fs (fs_popped fs i e.1) l'.
Proof.
  intros [Hwf Hf He _ Hdd] Hin (Hdi & _ & _ & _ & Hb & Hno & _) Hpn Hch.
  split; [|by apply same_on_popped].
  rewrite Forall_forall in He, Hpn. split; [by apply fs_wf_popped|done| |done|].
  - cbn [base_path set_files]. apply Forall_forall. intros x Hx.
    eapply entry_frame; [apply He, Hin; by right| |].
    + rewrite fs_popped_dir, lookup_delete_ne; [done|]. intros E. by apply (Hpn x Hx).
    + intros j Hj. apply fs_popped_content. intros ->. apply (Hpn x Hx). by eapply fw_inj.
  - cbn [base_path set_files]. intros n p Hn Hp [j Hs]. rewrite fs_popped_dir in Hs.
    apply lookup_delete_Some in Hs as [Hne Hs].
    destruct (Hdd n p Hn Hp ltac:(eauto)) as (x & [->|Hx]%Hin & <-); [congruence|eauto].
Qed.

Lemma paths_differ fs base no next l k e l' :
  Forall (entry_ok fs base) l -> chain no next l -> l !! k = Some e ->
  (forall x, x ∈ l' -> exists j, j <> k /\ l !! j = Some x) -> Forall (fun x => path x.1 <> path e.1) l'.
Proof.
  intros He Hc Hk Hl'. apply Forall_forall. intros x (j & Hj & Hx)%Hl'.
  by eapply (set_paths_ne _ _ _ _ _ j k).
Qed.

Lemma core_pop_front fs s e l i :
  set_core fs s (e :: l) -> entry_at fs (base_path s) e i ->
  set_core (fs_popped fs i e.1) (set_files (l.*1) s) l /\ same_on fs (fs_popped fs i e.1) l.
Proof.
  intros Hc Hat. pose proof Hc as [_ _ He (no & next & Hch & Hnn) _]. eapply core_pop; [done| |done| |].
  - intros x. by rewrite elem_of_cons.
  - eapply (paths_differ _ _ _ _ _ 0); [done..|]. intros x [j Hj]%list_elem_of_lookup. by exists (S j).
  - destruct e as [w rs]. destruct Hch as (_ & _ & _ & Hch). pose proof (zlen_nonneg rs).
    eexists _, _. split; [exact Hch|lia].
Qed.

Lemma core_pop_back fs s e l i :
  set_core fs s (l ++ [e]) -> entry_at fs (base_path s) e i ->
  set_core (fs_popped fs i e.1) (set_files (l.*1) s) l /\ same_on fs (fs_popped fs i e.1) l.
Proof.
  intros Hc Hat. pose proof Hc as [_ _ He (no & next & Hch & Hnn) _]. eapply core_pop; [done| |done| |].
  - intros x. rewrite elem_of_app, list_elem_of_singleton. tauto.
  - eapply (paths_differ _ _ _ _ _ (length l)); [done..| |].
    + by rewrite lookup_app_r, Nat.sub_diag by lia.
    + intros x [j Hj]%list_elem_of_lookup. exists j. apply lookup_lt_Some in Hj as Hlt.
      split; [lia|by apply lookup_app_l_Some].
  - apply chain_app in Hch as [Hch _]. eauto.
Qed.

(** The file numbers of [s] do not matter for popping. *)
Lemma purge_front_files_ok until l fs s :
  set_core fs s l ->
  exists fs' l1 l2, l = l1 ++ l2 /\
    purge_front_files (l.*1) until (fs, s) = (Ok tt, (fs', set_files (l2.*1) s)) /\
    set_core fs' (set_files (l2.*1) s) l2 /\ same_on fs fs' l2 /\
    Forall (fun e => id_until e.1 < until) l1 /\
    match l2 with [] => True | e :: _ => until <= id_until e.1 end.
Proof.
  revert fs s. induction l as [|[w rs] l IH]; intros fs s Hc.
  - exists fs, [], []. pose proof Hc as [_ Hf _ _ _]. cbn in *.
    assert (set_files [] s = s) as -> by (destruct s; cbn in *; by subst). done.
  - cbn [fmap list_fmap purge_front_files fst]. destruct (Z.ltb_spec (id_until w) until) as [Hlt|Hge].
    + pose proof Hc as [_ _ He _ _]. inversion He as [|? ? (i & Hat) _]; subst.
      pose proof Hat as (Hd & Hfo & Hmm & _). cbn [fst snd] in *.
      destruct (core_pop_front _ _ _ _ _ Hc Hat) as [Hc' Hon].
      destruct (IH _ _ Hc') as (fs' & l1 & l2 & -> & Hrun & Hc2 & Hon2 & Hall & Hhd).
      exists fs', ((w, rs) :: l1), l2. split; [done|]. split.
      * sstep. rewrite (remove_popped_ok _ _ i rs) by done. sstep. exact Hrun.
      * split; [done|]. split; [|split; [by constructor|done]].
        eapply same_on_trans; [|exact Hon2]. eapply same_on_sub; [|exact Hon]. intros x Hx. apply elem_of_app. by right.
    + exists fs, [], ((w, rs) :: l). pose proof Hc as [_ Hf _ _ _].
      assert (set_files ((w :: l.*1)) s = s) as E by (destruct s; cbn in *; by subst).
      cbn [fmap list_fmap fst]. rewrite E. split; [done|]. split; [done|]. split; [done|].
      split; [apply same_on_refl|]. split; [constructor|done].
Qed.

Lemma truncate_back_files_ok from l fs s :
  set_core fs s l ->
  exists fs' l1 l2, l = l1 ++ l2 /\
    truncate_back_files (reverse (l.*1)) from (fs, s) = (Ok tt, (fs', set_files (l1.*1) s)) /\
    set_core fs' (set_files (l1.*1) s) l1 /\ same_on fs fs' l1 /\
    Forall (fun e => from < id_from e.1) l2 /\
    match last l1 with None => True | Some e => id_from e.1 <= from end.
Proof.
  revert fs s. induction l as [|[w rs] l IH] using rev_ind; intros fs s Hc.
  - exists fs, [], []. pose proof Hc as [_ Hf _ _ _]. cbn in *.
    assert (set_files [] s = s) as -> by (destruct s; cbn in *; by subst). done.
  - rewrite fmap_app, reverse_app. cbn [fmap list_fmap fst reverse rev_append app].
    cbn [truncate_back_files]. destruct (Z.ltb_spec from (id_from w)) as [Hlt|Hge].
    + pose proof Hc as [_ _ He _ _]. apply Forall_app in He as [_ He].
      inversion He as [|? ? (i & Hat) _]; subst.
      pose proof Hat as (Hd & Hfo & Hmm & _). cbn [fst snd] in *.
      destruct (core_pop_back _ _ _ _ _ Hc Hat) as [Hc' Hon].
      destruct (IH _ _ Hc') as (fs' & l1 & l2 & -> & Hrun & Hc2 & Hon2 & Hall & Hhd).
      exists fs', l1, (l2 ++ [(w, rs)]). split; [by rewrite app_assoc|]. split; [|].
      * sstep. rewrite reverse_involutive, (remove_popped_ok _ _ i rs) by done. sstep. exact Hrun.
      * split; [done|]. split; [|split; [|done]].
        -- eapply same_on_trans; [|exact Hon2]. eapply same_on_sub; [|exact Hon]. intros x Hx. apply elem_of_app. by left.
        -- apply Forall_app. split; [done|by repeat constructor].
    + exists fs, (l ++ [(w, rs)]), []. pose proof Hc as [_ Hf _ _ _].
      assert (set_files ((l ++ [(w, rs)]).*1) s = s) as E by (destruct s; cbn in *; by subst).
      rewrite E, last_snoc, app_nil_r. split; [done|]. split; [done|]. split; [done|].
      split; [apply same_on_refl|]. split; [constructor|done].
Qed.

(** ** Purging *)
Lemma keep_from_none until rs : (forall r, r ∈ rs -> r.1 < until) -> keep_from until rs = [].
Proof.
  intros Hr. apply filter_none. intros r Hin. specialize (Hr r Hin). lia.
Qed.

Lemma keep_from_all until rs : (forall r, r ∈ rs -> until <= r.1) -> keep_from until rs = rs.
Proof. intros Hr. by apply filter_all. Qed.

Lemma keep_below_none from rs : (forall r, r ∈ rs -> from <= r.1) -> keep_below from rs = [].
Proof.
  intros Hr. apply filter_none. intros r Hin. specialize (Hr r Hin). lia.
Qed.

Lemma keep_below_all from rs : (forall r, r ∈ rs -> r.1 < from) -> keep_below from rs = rs.
Proof. intros Hr. by apply filter_all. Qed.

Lemma file_ok_id_range bytes w rs r : file_ok bytes w rs -> r ∈ rs -> id_from w <= r.1 <= id_until w.
Proof.
  intros Hfo Hin. pose proof (ids_from_bounds _ _ _ (file_ok_ids _ _ _ Hfo) Hin).
  destruct Hfo as [_ _ _ Hd]. destruct rs; [by inversion Hin|].
  destruct Hd as (ds & _ & _ & _ & _ & _ & ->). lia.
Qed.

Lemma elem_of_log_of r l : r ∈ log_of l <-> exists e, e ∈ l /\ r ∈ e.2.
Proof.
  unfold log_of. rewrite list_elem_of_In, in_concat. setoid_rewrite <- list_elem_of_In. split.
  - intros (x & Hx & Hr). apply list_elem_of_fmap in Hx as (e & -> & He). eauto.
  - intros (e & He & Hr). exists e.2. split; [|done]. apply list_elem_of_fmap. eauto.
Qed.

Lemma core_replace_first fs s w rs l w' rs' i :
  set_core fs s ((w, rs) :: l) -> entry_at fs (base_path s) (w, rs) i ->
  file_ok (fs_content fs i) w' rs' -> (mmap_mut w' = None \/ mmap_mut w' = Some i) ->
  mmap w' = mmap w -> path w' = path w -> wal_no w' = wal_no w -> wfile w' = mmap_mut w' ->
  0 <= id_from w' -> id_from w' + zlen rs' = id_from w + zlen rs -> rs' <> [] ->
  set_core fs (set_files (w' :: l.*1) s) ((w', rs') :: l).
Proof.
  intros [Hwf Hf He (no & next & Hch & Hnn) Hdd] (Hdi & Hfo & Hmm & Hm0 & Hb & Hno & _) Hfo' Hmm' Hm Hp Hn Hwf' Hid Hz Hne.
  cbn [fst snd] in *. split; [done|done| | |].
  - cbn [base_path set_files]. inversion He; subst. constructor; [|done].
    exists i. unfold entry_at. cbn [fst snd]. rewrite Hp, Hn, Hm. auto 10.
  - destruct Hch as (Hno' & Hf' & _ & Hch). exists no, (id_from w'). split; [|done].
    cbn. rewrite Hn, Hz, Hf'. split; [done|]. split; [done|]. split; [done|]. done.
  - cbn [base_path set_files]. intros n p Hu Hq Hs.
    destruct (Hdd n p Hu Hq Hs) as (e & [->|Hin]%elem_of_cons & <-).
    + exists (w', rs'). rewrite elem_of_cons. cbn. auto.
    + exists e. rewrite elem_of_cons. auto.
Qed.

Lemma on_file_at {A} k (m : WSt A) fs s w :
  files s !! k = Some w ->
  on_file k m (fs, s) = let '(r, (fs', w')) := m (fs, w) in (r, (fs', set_files (<[k := w']> (files s)) s)).
Proof. intros E. unfold on_file. cbn [snd fst]. by rewrite E. Qed.

Lemma cut_front_noop fs w until :
  until <= id_from w \/ data_end w = None -> cut_front until (fs, w) = (Ok tt, (fs, w)).
Proof.
  intros Hor. unfold cut_front. wstep. destruct Hor as [Hle| ->].
  - by rewrite (proj2 (Z.ltb_ge _ _)) by lia.
  - by rewrite bool_decide_eq_false_2, andb_false_r by (intros [? ?]; done).
Qed.

(** The front file after a purge, whether it had to be cut or not. *)
Lemma purge_cut fs s w rs l until :
  set_core fs s ((w, rs) :: l) -> until <= id_until w ->
  exists w' rs',
    on_file 0 (cut_front until) (fs, s) = (Ok tt, (fs, set_files (w' :: l.*1) s)) /\
    set_core fs (set_files (w' :: l.*1) s) ((w', rs') :: l) /\
    log_of ((w', rs') :: l) = keep_from until (log_of ((w, rs) :: l)) /\
    (is_Some (mmap_mut w) -> is_Some (mmap_mut w')) /\ cut_of (w, rs) (w', rs').
Proof.
  intros Hc Hu. pose proof Hc as [_ Hf He (no & next & Hch & Hnn) _].
  inversion He as [|? ? (i & Hat) Hel]; subst. pose proof Hat as (Hd & Hfo & Hmm & Hm0 & _ & _ & Hwf). cbn [fst snd] in *.
  pose proof Hch as (_ & Hif & Hemp & Hch').
  rewrite (on_file_at _ _ _ _ w) by (by rewrite Hf).
  change (log_of ((w, rs) :: l)) with (rs ++ log_of l). unfold keep_from. rewrite filter_app. fold (keep_from until).
  fold (keep_from until rs). fold (keep_from until (log_of l)).
  assert (rs <> [] -> keep_from until (log_of l) = log_of l) as Hrest.
  { intros Hne. apply keep_from_all. intros r Hr.
    pose proof (ids_from_bounds _ _ _ (log_of_ids _ _ _ _ _ Hel Hch') Hr).
    destruct Hfo as [_ _ _ Hx]. destruct rs; [done|]. destruct Hx as (ds & _ & _ & _ & _ & _ & Hx). lia. }
  destruct (decide (id_from w < until /\ rs <> [])) as [[Hlt Hne]|Hno].
  - exists (cut_front_file i w rs until), (drop (Z.to_nat (until - id_from w)) rs).
    rewrite (cut_front_run _ _ i rs) by (done || lia).
    pose proof (cut_front_file_ok _ i w rs until Hfo Hne ltac:(lia)) as Hfo'.
    destruct (wmapped_fields i w) as (_ & _ & _ & _ & _ & _ & Ep & En & Em).
    assert (zlen (drop (Z.to_nat (until - id_from w)) rs) = zlen rs - (until - id_from w) /\ until - id_from w < zlen rs)
      as [Hz Hzz].
    { destruct Hfo as [_ _ _ Hx]. destruct rs; [done|]. destruct Hx as (ds & _ & _ & _ & _ & _ & Hx).
      unfold zlen in *. rewrite length_drop. lia. }
    split; [by rewrite Hf|]. split; [|split; [|split]].
    + eapply core_replace_first; [done|done|done| |done|done|done|by apply wmapped_file|cbn; lia|cbn; lia|].
      * unfold cut_front_file, wmapped. cbn. destruct Hmm as [E|E]; rewrite E; cbn; auto.
      * intros E. rewrite E in Hz. change (zlen []) with 0 in Hz. lia.
    + rewrite Hrest by done. rewrite (keep_from_ids (id_from w)) by (by eapply file_ok_ids). done.
    + intros [? E]. unfold cut_front_file, wmapped. cbn. rewrite E. eauto.
    + destruct (wmapped_fields i w) as (_ & El & _). split; cbn; [done..| |done].
      right. intros bytes Hb. apply cut_front_file_ok; [done..|lia].
  - exists w, rs. assert (until <= id_from w \/ rs = []) as Hor by (destruct rs; [by right|left; destruct (Z.lt_ge_cases (id_from w) until); [exfalso; by apply Hno|lia]]).
    rewrite cut_front_noop.
    2:{ destruct Hor as [?| ->]; [by left|right]. by destruct Hfo as [_ _ _ [_ ?]]. }
    split; [by rewrite Hf|].
    assert (set_files (w :: l.*1) s = s) as -> by (destruct s; cbn in *; by subst).
    split; [done|]. split; [|split; [done|apply cut_of_refl]].
    destruct rs as [|r0 rs0]; [destruct (Hemp eq_refl) as [-> _]; done|].
    rewrite Hrest by done. rewrite keep_from_all; [done|]. intros r Hr.
    pose proof (file_ok_id_range _ _ _ _ Hfo Hr). destruct Hor as [?|?]; [lia|done].
Qed.

Lemma add_file_if_empty_fresh fs s ws p :
  set_core fs s [] -> MIN_WAL_SIZE <= ws < u32_max -> build_full_path (base_path s) 1 = Ok p ->
  exists fs' w, add_file_if_empty ws (fs, s) = (Ok tt, (fs', mkSet (Some 0%nat) (base_path s) [w])) /\
    set_ok fs' (mkSet (Some 0%nat) (base_path s) [w]) [(w, [])] /\ data_end w = None /\
    wal_no w = 1 /\ len_max w = ws.
Proof.
  intros Hc Hws Hp. pose proof Hc as [_ Hf _ (no & next & Hch & Hnn) _]. cbn in Hf.
  assert (next_no (files s) = 1) as Hnx by (by rewrite Hf).
  assert (dir fs !! p = None) as Hfree.
  { eapply (path_free fs s [] 0 0 1); [done|done|unfold is_u64; lia|done|]. change (zlen []) with 0. lia. }
  pose proof (core_add_file fs s [] no next 1 p ws 0 Hc I Hnn ltac:(lia) ltac:(unfold u64_max; lia) Hp Hws
    ltac:(constructor) ltac:(by left) Hfree) as Hc2. cbv zeta in Hc2. cbn [app fmap list_fmap] in Hc2.
  set (w := set_ids 0 0 (set_maps None (Some (next_ino fs)) (Some (next_ino fs)) (fresh 1 p ws))) in *.
  exists (fs_created fs (fresh 1 p ws)), w.
  assert (set_core (fs_created fs (fresh 1 p ws)) (mkSet (Some 0%nat) (base_path s) [w]) [(w, [])]) as Hc3
    by (destruct Hc2; by split).
  split; [|split; [|done]].
  - unfold add_file_if_empty. sstep. rewrite Hf.
    rewrite (add_file_ok fs s ws p ltac:(lia) ltac:(by rewrite Hnx) Hfree).
    rewrite Hnx. cbn [Z.eqb Pos.eqb]. rewrite Hf. cbn [app].
    rewrite (on_file_at _ _ _ _ (fresh 1 p ws)) by done.
    by rewrite (mmap_mut_op_ok _ (fresh 1 p ws) (next_ino fs)) by (done || apply lookup_insert_eq).
  - apply (set_ok_of_last _ _ [] w []); [done|done|cbn; eauto].
Qed.

Lemma purge_ok fs s l from until ws :
  set_ok fs s l -> (forall e, head l = Some e -> from <= id_from e.1) -> MIN_WAL_SIZE <= ws < u32_max ->
  exists fs' s' l', shift_delete_logs from until ws (fs, s) = (Ok tt, (fs', s')) /\
    set_ok fs' s' l' /\ log_of l' = keep_from until (log_of l) /\ base_path s' = base_path s /\
    derives fs fs' ws l l'.
Proof.
  intros Hset Hfrom Hws. pose proof Hset as [Hc Ha (em & Hlast & Hmm)].
  destruct (purge_front_files_ok until l fs s Hc) as (fs1 & l1 & l2 & -> & Hrun & Hc1 & Hon & Hall & Hhd).
  pose proof Hc as [_ Hf He (no & next & Hch & Hnn) _].
  assert (log_of (l1 ++ l2) = log_of l1 ++ log_of l2) as -> by (unfold log_of; by rewrite fmap_app, concat_app).
  unfold keep_from. rewrite filter_app. fold (keep_from until (log_of l1)). fold (keep_from until (log_of l2)).
  rewrite (keep_from_none until (log_of l1)).
  2:{ intros r (e & Hin & Hr)%elem_of_log_of. rewrite Forall_forall in Hall. specialize (Hall _ Hin).
      apply Forall_app in He as [He _]. rewrite Forall_forall in He. destruct (He _ Hin) as (i & _ & Hfo & _).
      pose proof (file_ok_id_range _ _ _ _ Hfo Hr). lia. }
  assert (some_le from (id_from <$> front_file (files s)) = true) as Hpf.
  { rewrite Hf. unfold front_file. destruct (l1 ++ l2) as [|e l] eqn:E; [done|]. cbn.
    apply Z.leb_le. by apply Hfrom. }
  unfold shift_delete_logs. sstep. rewrite Hpf. unfold mbind in Hrun. rewrite Hf, Hrun. cbn [app].
  destruct l2 as [|[w rs] l2].
  - destruct (proj2 (build_full_path_total (base_path s) 1) ltac:(vm_compute; lia)) as [p Hp].
    destruct (add_file_if_empty_fresh fs1 _ ws p Hc1 Hws Hp) as (fs2 & w & Hrun2 & Hset2 & Hde & Hw1 & Hwl).
    rewrite Hrun2. rewrite (on_file_at _ _ _ _ w) by done. rewrite cut_front_noop by (by right).
    cbn. eexists _, _, _. split; [reflexivity|]. split; [exact Hset2|]. split; [done|]. split; [done|].
    intros e ->%list_elem_of_singleton. left. auto.
  - destruct (purge_cut _ _ _ _ _ until Hc1 Hhd) as (w' & rs' & Hcut & Hc2 & Hlog & Hmut & Hco).
    unfold add_file_if_empty. sstep.
    change (files (set_files (((w, rs) :: l2).*1) s)) with (w :: l2.*1). cbv iota beta.
    rewrite Hcut. cbn.
    eexists _, _, _. split; [reflexivity|]. split; [|split; [exact Hlog|split; [done|]]].
    2:{ intros e' [->|Hin]%elem_of_cons; right.
        - exists (w, rs). split; [apply elem_of_app; right; by left|]. split; [done|].
          intros x ->%list_elem_of_singleton. apply Hon. by left.
        - exists e'. split; [apply elem_of_app; right; by right|]. split; [apply cut_of_refl|].
          intros x ->%list_elem_of_singleton. apply Hon. by right. }
    split; [destruct Hc2; by split|cbn; by rewrite length_fmap, Nat.sub_0_r|].
    destruct l2 as [|e3 l3 _] using rev_ind.
    + rewrite last_snoc in Hlast. injection Hlast as <-. exists (w', rs'). split; [done|]. by apply Hmut.
    + change ((w, rs) :: l3 ++ [e3]) with (((w, rs) :: l3) ++ [e3]) in Hlast. rewrite app_assoc, last_snoc in Hlast.
      injection Hlast as <-. exists e3. split; [|done]. by rewrite app_comm_cons, last_snoc.
Qed.

(** ** Truncating *)
Lemma log_before_last fs base no next l w rs r :
  Forall (entry_ok fs base) (l ++ [(w, rs)]) -> chain no next (l ++ [(w, rs)]) -> r ∈ log_of l -> r.1 < id_from w.
Proof.
  intros He Hch Hr. apply Forall_app in He as [He _]. apply chain_app in Hch as (Hch & (_ & Hif & _) & _).
  pose proof (ids_from_bounds _ _ _ (log_of_ids _ _ _ _ _ He Hch) Hr). lia.
Qed.

Lemma truncate_cut fs s l0 w rs from :
  set_core fs s (l0 ++ [(w, rs)]) -> id_from w <= from < 2 ^ 64 ->
  exists w' rs',
    on_file (length l0) (cut_back from) (fs, s) = (Ok tt, (fs, set_files (l0.*1 ++ [w']) s)) /\
    set_core fs (set_files (l0.*1 ++ [w']) s) (l0 ++ [(w', rs')]) /\
    rs' = keep_below from rs /\
    (is_Some (mmap_mut w) \/ id_from w < from <= id_until w -> is_Some (mmap_mut w')) /\
    cut_of (w, rs) (w', rs').
Proof.
  intros Hc Hfr. pose proof Hc as [_ Hf He (no & next & Hch & Hnn) _].
  pose proof (Forall_app (entry_ok fs (base_path s)) l0 [(w, rs)]) as [HF _]. destruct (HF He) as [_ He'].
  inversion He' as [|? ? (i & Hat) _]; subst. pose proof Hat as (Hd & Hfo & Hmm & Hm0 & _ & _ & Hwf). cbn [fst snd] in *.
  rewrite fmap_app in Hf. cbn [fmap list_fmap fst] in Hf.
  rewrite (on_file_at _ _ _ _ w) by (rewrite Hf, lookup_app_r; rewrite length_fmap; [by rewrite Nat.sub_diag|lia]).
  assert (forall w', <[length l0 := w']> (files s) = l0.*1 ++ [w']) as Hins.
  { intros w'. rewrite Hf, insert_app_r_alt; rewrite length_fmap; [by rewrite Nat.sub_diag|lia]. }
  pose proof (file_ok_ids _ _ _ Hfo) as Hids. rewrite (keep_below_ids (id_from w)) by done.
  assert (0 <= id_from w) as Hpos.
  { apply chain_app in Hch as (_ & (_ & -> & _) & _). pose proof (zlen_nonneg (log_of l0)). lia. }
  destruct (decide (id_from w = from)) as [<-|Hne]; [|destruct (decide (from <= id_until w)) as [Hle|Hgt]].
  - exists (set_data None None (set_ids (id_from w) (id_from w) w)), [].
    unfold cut_back. wstep. rewrite Z.eqb_refl. unfold w_modify. wstep. rewrite Hins. split; [done|].
    split; [|split; [|split]].
    + eapply (core_replace_last fs fs s l0 w rs _ _ i); try done; [|by right].
      destruct Hfo. by split.
    + by rewrite Z.sub_diag, take_0.
    + intros [?|?]; [done|lia].
    + split; auto.
  - destruct rs as [|r0 rs0].
    { exfalso. apply chain_app in Hch as (_ & (_ & Hif & Hem & _) & _). destruct (Hem eq_refl). lia. }
    remember (r0 :: rs0) as rs. assert (rs <> []) as Hrs by (by subst).
    exists (cut_back_file i w rs from), (take (Z.to_nat (from - id_from w)) rs).
    rewrite (cut_back_run _ _ i rs) by (done || lia). rewrite Hins. split; [done|].
    destruct (wmapped_fields i w) as (_ & _ & _ & _ & _ & _ & Ep & En & Em).
    assert (mmap_mut (cut_back_file i w rs from) = Some i) as Ei
      by (unfold cut_back_file, wmapped; cbn; destruct Hmm as [E|E]; rewrite E; done).
    split; [|split; [done|split; [rewrite Ei; eauto|]]].
    2:{ destruct (wmapped_fields i w) as (_ & El & _). split; cbn; [done..| |done].
        right. intros bytes Hb. apply cut_back_file_ok; [done..|lia]. }
    eapply (core_replace_last fs fs s l0 w rs _ _ i); try done; [| | |by apply wmapped_file|by right|].
    + apply cut_back_file_ok; [done..|lia].
    + by right.
    + cbn. by rewrite Em.
    + intros E. apply (f_equal length) in E. rewrite length_take in E. subst rs. cbn in E. lia.
  - exists w, rs. unfold cut_back. wstep. rewrite (proj2 (Z.eqb_neq _ _)) by lia.
    rewrite (proj2 (Z.leb_gt _ _)) by lia. wstep. rewrite Hins. split; [done|].
    assert (set_files (l0.*1 ++ [w]) s = s) as -> by (destruct s; cbn in *; by subst).
    split; [done|]. split; [|split; [intros [?|?]; [done|lia]|apply cut_of_refl]].
    rewrite take_ge; [done|]. destruct rs as [|r0 rs0]; [cbn; lia|].
    destruct Hfo as [_ _ _ Hx]. destruct Hx as (ds & _ & _ & _ & _ & _ & Hx). unfold zlen in *. lia.
Qed.

Lemma truncate_ok fs s l from until ws :
  set_ok fs s l -> (forall e, head l = Some e -> id_from e.1 < from) -> from < 2 ^ 64 ->
  (forall e, last l = Some e -> id_until e.1 <= until) ->
  Forall (fun e => id_from e.1 <> from) (take (length l - 1) l) ->
  exists fs' s' l', shift_delete_logs from until ws (fs, s) = (Ok tt, (fs', s')) /\
    set_ok fs' s' l' /\ log_of l' = keep_below from (log_of l) /\ base_path s' = base_path s /\
    derives fs fs' ws l l'.
Proof.
  intros Hset Hfrom H64 Huntil Hstart. pose proof Hset as [Hc Ha (em & Hlast & Hmm)].
  destruct (truncate_back_files_ok from l fs s Hc) as (fs1 & l1 & l2 & -> & Hrun & Hc1 & Hon & Hall & Hhd).
  pose proof Hc as [_ Hf He (no & next & Hch & Hnn) _].
  destruct l1 as [|[w rs] l0 _] using rev_ind.
  { exfalso. destruct l2 as [|e l2]; [by cbn in Hlast|]. specialize (Hfrom e eq_refl). inversion Hall; subst. lia. }
  rewrite last_snoc in Hhd. cbn in Hhd.
  destruct (truncate_cut _ _ _ _ _ from Hc1 ltac:(lia)) as (w' & rs' & Hcut & Hc2 & Hrs' & Hmut & Hco).
  assert (some_le from (id_from <$> front_file (files s)) = false) as Hpf.
  { rewrite Hf. unfold front_file. destruct ((l0 ++ [(w, rs)]) ++ l2) as [|e l] eqn:E; [by destruct l0|]. cbn.
    apply Z.leb_gt. by apply Hfrom. }
  assert (some_ge until (id_until <$> back_file (files s)) = true) as Htb.
  { rewrite Hf. unfold back_file. rewrite fmap_last, Hlast. cbn. apply Z.leb_le. by apply Huntil. }
  exists fs1, (mkSet (Some (length (l0.*1 ++ [w']) - 1)%nat) (base_path s) (l0.*1 ++ [w'])), (l0 ++ [(w', rs')]).
  split; [|split; [|split; [|split; [done|]]]].
  4:{ intros e' [Hin| ->%list_elem_of_singleton]%elem_of_app; right.
      - exists e'. split; [rewrite !elem_of_app; auto|]. split; [apply cut_of_refl|].
        intros x ->%list_elem_of_singleton. apply Hon. rewrite elem_of_app. auto.
      - exists (w, rs). split; [rewrite !elem_of_app; left; right; by left|]. split; [done|].
        intros x ->%list_elem_of_singleton. apply Hon. rewrite elem_of_app. right. by left. }
  - unfold shift_delete_logs. sstep. rewrite Hpf, Htb, Hf, Hrun. unfold add_file_if_empty. sstep.
    change (files (set_files ?a s)) with a. rewrite fmap_app. cbn [fmap list_fmap fst].
    destruct (l0.*1 ++ [w]) as [|w0 ws0] eqn:E0; [by destruct l0|]. cbv iota beta. rewrite <- E0. clear E0 w0 ws0.
    rewrite fmap_app in Hcut. cbn [fmap list_fmap fst] in Hcut. cbn [snd].
    change (files (set_files ?a s)) with a.
    replace (length (l0.*1 ++ [w]) - 1)%nat with (length l0) by (rewrite length_app, length_fmap; cbn; lia).
    by rewrite Hcut.
  - apply set_ok_of_last.
    + destruct Hc2. by split.
    + cbn. rewrite length_app, length_fmap. cbn. f_equal. lia.
    + apply Hmut. destruct l2 as [|[w2 rs2] l2].
      * left. rewrite app_nil_r, last_snoc in Hlast. by injection Hlast as <-.
      * right. inversion Hall as [|? ? Hlt _]; subst. cbn in Hlt.
        rewrite <- app_assoc in Hch. apply chain_next_file in Hch as [Hn Hne].
        apply Forall_app in He as [He _]. apply Forall_app in He as [_ He].
        inversion He as [|? ? (i & _ & Hfo & _) _]; subst. cbn in Hfo.
        destruct Hfo as [_ _ _ Hx]. destruct rs; [done|]. destruct Hx as (ds & _ & _ & _ & _ & _ & Hx).
        assert (id_from w <> from); [|lia].
        rewrite Forall_forall in Hstart. apply (Hstart (w, p :: rs)).
        rewrite !length_app. cbn [length]. rewrite <- app_assoc. cbn [app].
        replace (length l0 + 1 + S (length l2) - 1)%nat with (length l0 + S (length l2))%nat by lia.
        rewrite take_app_add. cbn. apply elem_of_app. right. by left.
  - rewrite !log_of_snoc. assert (log_of ((l0 ++ [(w, rs)]) ++ l2) = log_of l0 ++ rs ++ log_of l2) as ->.
    { unfold log_of. rewrite !fmap_app, !concat_app. cbn. by rewrite app_nil_r, app_assoc. }
    unfold keep_below. rewrite !filter_app. fold (keep_below from (log_of l0)) (keep_below from rs) (keep_below from (log_of l2)).
    rewrite Hrs'. pose proof Hc1 as [_ _ He1 (no1 & next1 & Hch1 & _) _].
    rewrite (keep_below_all from (log_of l0)), (keep_below_none from (log_of l2)), app_nil_r; [done| |].
    + intros r (e & Hin & Hr)%elem_of_log_of. rewrite Forall_forall in Hall. specialize (Hall _ Hin).
      apply Forall_app in He as [_ He]. rewrite Forall_forall in He. destruct (He _ Hin) as (i & _ & Hfo & _).
      pose proof (file_ok_id_range _ _ _ _ Hfo Hr). lia.
    + intros r Hr. pose proof (log_before_last _ _ _ _ _ _ _ _ He1 Hch1 Hr). lia.
Qed.

End Delete.

(** * The copy of the set that the readers share *)
#[local] Open Scope Z_scope.

(** What a reader needs of a file: everything but its mappings and its size. *)
Definition view (w : WalFile) : Z * Z * string * (Z * Z) * (option Z * option Z) :=
  (version w, wal_no w, path w, (id_from w, id_until w), (data_start w, data_end w)).

(** File numbers count up from [no]. *)
Definition consec (no : Z) (l : list WalFile) : Prop :=
  forall k w, l !! k = Some w -> wal_no w = no + Z.of_nat k.

Definition named (base : string) (w : WalFile) : Prop :=
  version w = 1 /\ build_full_path base (wal_no w) = Ok (path w).

Lemma consec_drop no l n : consec no l -> consec (no + Z.of_nat n) (drop n l).
Proof. intros Hc k w. rewrite lookup_drop. intros Hk%Hc. lia. Qed.

Lemma consec_take no l n : consec no l -> consec no (take n l).
Proof. intros Hc k w [Hk _]%lookup_take_Some. by apply Hc. Qed.

(** The files the shared copy keeps are the ones at the front of the new list. *)
Lemma kept_prefix a b (t s : list WalFile) :
  consec a t -> consec b s -> a <= b \/ b + zlen s <= a ->
  exists k, filter (fun f => Exists (fun upd => wal_no upd = wal_no f) s) t = k /\
    consec b k /\ (length k <= length s)%nat /\ (forall f, f ∈ k -> f ∈ t).
Proof.
  intros Ht Hs Hab. set (P := fun f : WalFile => Exists (fun upd => wal_no upd = wal_no f) s).
  assert (forall f, P f <-> b <= wal_no f < b + zlen s) as HP.
  { intros f. unfold P, zlen. rewrite Exists_exists. split.
    - intros (u & [k Hk]%list_elem_of_lookup & <-). rewrite (Hs _ _ Hk). apply lookup_lt_Some in Hk. lia.
    - intros Hb. destruct (lookup_lt_is_Some_2 s (Z.to_nat (wal_no f - b)) ltac:(lia)) as [u Hu].
      exists u. split; [by eapply list_elem_of_lookup_2|]. rewrite (Hs _ _ Hu). lia. }
  eexists. split; [reflexivity|]. change (fun f => Exists _ s) with P.
  assert (forall f, f ∈ filter P t -> f ∈ t) as Hsub by (by intros f [_ ?]%list_elem_of_filter).
  destruct Hab as [Hab|Hab].
  - set (m := Z.to_nat (b - a)).
    rewrite <- (take_drop m t), filter_app, (filter_none P (take m t)).
    2:{ intros f [k Hk]%list_elem_of_lookup. apply lookup_take_Some in Hk as [Hk Hlt].
        rewrite HP, (Ht _ _ Hk). unfold m in Hlt. lia. }
    pose proof (consec_drop _ _ m Ht) as Hd. destruct (Z.le_gt_cases b (a + zlen t)) as [Hle|Hgt].
    + replace (a + Z.of_nat m) with b in Hd by (unfold m; lia).
      assert (filter P (drop m t) = take (length s) (drop m t)) as E.
      { rewrite <- (take_drop (length s) (drop m t)) at 1. rewrite filter_app, filter_all, filter_none, app_nil_r; [done| |].
        - intros f [k Hk]%list_elem_of_lookup. rewrite lookup_drop in Hk. rewrite HP, (Hd _ _ Hk). unfold zlen. lia.
        - intros f [k Hk]%list_elem_of_lookup. apply lookup_take_Some in Hk as [Hk Hlt].
          rewrite HP, (Hd _ _ Hk). unfold zlen. lia. }
      rewrite app_nil_l, E. split; [by apply consec_take|]. split; [rewrite length_take; lia|].
      intros f Hf. rewrite take_drop. apply Hsub. rewrite <- (take_drop m t), filter_app, E. apply elem_of_app. by right.
    + rewrite drop_ge by (unfold m, zlen in *; lia). rewrite app_nil_l. cbn.
      split; [by intros k w|]. split; [lia|]. intros f Hf. by inversion Hf.
  - rewrite filter_none.
    + split; [by intros k w|]. split; [cbn; lia|]. intros f Hf. by inversion Hf.
    + intros f [k Hk]%list_elem_of_lookup. rewrite HP, (Ht _ _ Hk). lia.
Qed.

Lemma update_each_ok k s :
  (length k <= length s)%nat -> update_each k s = Ok (zip_with clone_from_no_mmap k s).
Proof.
  revert s. induction k as [|f k IH]; intros [|u s]; cbn; intros Hl; try done; [lia|].
  rewrite IH by lia. done.
Qed.

(** The file list after an update, with the files it keeps. *)
Lemma clone_files_run t s a b :
  consec a (files t) -> consec b s -> a <= b \/ b + zlen s <= a ->
  exists k, (forall f, f ∈ k -> f ∈ files t) /\ consec b k /\ (length k <= length s)%nat /\
    clone_files_from_no_mmap t s =
      Ok (set_files (zip_with clone_from_no_mmap k s ++ (clone_no_mmap <$> drop (length k) s)) t).
Proof.
  intros Ht Hs Hab. destruct (kept_prefix _ _ _ _ Ht Hs Hab) as (k & E & Hk & Hl & Hsub).
  exists k. split; [done|]. split; [done|]. split; [done|].
  unfold clone_files_from_no_mmap. rewrite E, update_each_ok by done. step_res.
  rewrite length_zip_with_l by lia. done.
Qed.

Lemma clone_files_view base b k s :
  consec b k -> consec b s -> (length k <= length s)%nat ->
  Forall (named base) k -> Forall (named base) s ->
  let t' := zip_with clone_from_no_mmap k s ++ (clone_no_mmap <$> drop (length k) s) in
  view <$> t' = view <$> s.
Proof.
  intros Hk Hs Hl Hnk Hns. cbv zeta. revert b s Hk Hs Hl Hns.
  induction k as [|f k IH]; intros b [|u s] Hk Hs Hl Hns; cbn in *; try done; try lia.
  - f_equal. rewrite <- list_fmap_compose. by apply list_fmap_ext.
  - inversion Hnk as [|? ? [Vf Pf] Hnk']; subst. inversion Hns as [|? ? [Vu Pu] Hns']; subst.
    pose proof (Hk 0%nat f eq_refl) as Nf. pose proof (Hs 0%nat u eq_refl) as Nu.
    assert (wal_no f = wal_no u) as En by congruence.
    f_equal.
    + unfold view, clone_from_no_mmap, set_data, set_ids. cbn. rewrite En in *. congruence.
    + apply (IH Hnk' (b + 1)); [| |lia|done].
      * intros j w Hj. rewrite (Hk (S j) w Hj). lia.
      * intros j w Hj. rewrite (Hs (S j) w Hj). lia.
Qed.

(** The shared copy mirrors the writer's set. *)
Record shared_ok (base : string) (s t : WalFileSet) : Prop := {
  sh_active : active t = active s;
  sh_view : view <$> files t = view <$> files s;
  sh_named : Forall (named base) (files s);
}.

Lemma view_named base l l' : view <$> l' = view <$> l -> Forall (named base) l -> Forall (named base) l'.
Proof.
  revert l. induction l' as [|w l' IH]; intros [|u l] E; try done.
  cbn in E. injection E as Ev En Ep Ei Eu Ed Ee E'. intros Hf. inversion Hf as [|? ? [? ?] ?]; subst.
  constructor; [split; congruence|eauto].
Qed.

Lemma view_consec no l l' : view <$> l' = view <$> l -> consec no l -> consec no l'.
Proof.
  intros E Hc k w Hk.
  assert ((view <$> l') !! k = Some (view w)) as Hv by (by rewrite list_lookup_fmap, Hk).
  rewrite E, list_lookup_fmap in Hv. destruct (l !! k) as [u|] eqn:Eu; [|done].
  cbn in Hv. rewrite <- (Hc _ _ Eu). injection Hv. congruence.
Qed.

(** An update brings the copy back in line with the set. *)
Lemma share_update base s t a b :
  consec a (files t) -> Forall (named base) (files t) ->
  consec b (files s) -> a <= b \/ b + zlen (files s) <= a -> Forall (named base) (files s) ->
  exists t', clone_files_from_no_mmap (set_active (active s) t) (files s) = Ok t' /\ shared_ok base s t' /\
    forall n, Forall (fun f => len_max f = n) (files t) -> Forall (fun f => len_max f = n) (files s) ->
      Forall (fun f => len_max f = n) (files t').
Proof.
  intros Ha Hnt Hb Hab Hns.
  destruct (clone_files_run (set_active (active s) t) (files s) a b) as (k & Hsub & Hk & Hl & ->); [done..|].
  eexists. split; [reflexivity|]. split; [split; [done| |done]|].
  - eapply clone_files_view; [done..| |done].
    apply Forall_forall. intros f Hf. rewrite Forall_forall in Hnt. apply Hnt. by apply Hsub.
  - intros n Ht Hs. rewrite Forall_forall in Ht, Hs. cbn [files set_files]. apply Forall_forall.
    intros f [Hf|Hf]%elem_of_app.
    + apply list_elem_of_lookup in Hf as [j Hj]. apply lookup_zip_with_Some in Hj as (x & y & -> & Hx & _).
      apply (Ht x). apply (Hsub x). by eapply list_elem_of_lookup_2.
    + apply list_elem_of_fmap in Hf as (x & -> & Hx). apply (Hs x). apply list_elem_of_lookup in Hx as [j Hj].
      rewrite lookup_drop in Hj. by eapply list_elem_of_lookup_2.
Qed.
