(* ===== verification/WalMeta.v ===== *)
(** The metadata file and the lock file of a log store:
    [hiqlite-wal/src/metadata.rs] and [hiqlite-wal/src/lockfile.rs].

    The metadata is replaced by writing a temporary file, syncing it and renaming
    it; the states between those system calls are kept apart, so that a crash can
    be placed between any two of them. *)
From stdpp Require Import base gmap strings list numbers.
From Stdlib Require Import Ascii Strings.Byte.
From S2P Require Import Prelude Text WalBase.

#[local] Open Scope Z_scope.

Record Metadata : Type := mkMeta {
  last_purged_log_id : option (list byte);
  vote : option (list byte);
}.

#[export] Instance Metadata_eqdec : EqDecision Metadata.
Proof. solve_decision. Defined.

(** [bincode_next] on [Metadata]: a parameter. *)
Class MetaCodec : Type := {
  serialize : Metadata -> list byte;
  deserialize : list byte -> option Metadata;
}.

(** What the code relies on: bincode reads back what it wrote, and the two
    option tags make every encoding at least two bytes long. *)
Class MetaCodecOk `{MetaCodec} : Prop := {
  deserialize_serialize m : deserialize (serialize m) = Some m;
  serialize_length m : 2 <= zlen (serialize m);
}.

Definition MAGIC_NO_META : list byte :=
  [Byte.x48; Byte.x51; Byte.x4c; Byte.x4d; Byte.x45; Byte.x54; Byte.x41].

(** ** System calls on plain files *)

(** [File::create]: truncates an existing file, or adds an empty one. *)
Definition fs_create (path : string) (fs : Fs) : nat * Fs :=
  match dir fs !! path with
  | Some i => (i, fs_store i [] fs)
  | None =>
      let i := next_ino fs in
      (i, mkFs (<[path := i]> (dir fs)) (<[i := mkInode [] []]> (inodes fs)) (S i))
  end.

(** [file.write_all(bs)] on a handle opened for writing. *)
Definition fs_append (i : nat) (bs : list byte) (fs : Fs) : Fs :=
  fs_store i (fs_content fs i ++ bs) fs.

(** [fs::rename]: one atomic change of the directory. *)
Definition fs_rename (from to : string) (fs : Fs) : Fs :=
  match dir fs !! from with
  | Some i => mkFs (<[to := i]> (delete from (dir fs))) (inodes fs) (next_ino fs)
  | None => fs
  end.

Section WalMeta.
Context `{Checksum} `{MetaCodec}.

Definition meta_path (base : string) : string := base +:+ "/meta.hql".
Definition meta_tmp (base : string) : string := meta_path base +:+ "~".

(** The contents of the metadata file for an encoded [Metadata]. *)
Definition meta_bytes (bytes : list byte) : list byte :=
  MAGIC_NO_META ++ [Byte.x01] ++ crc bytes ++ bytes.

(** The system calls of [write_unchecked] after the temporary file was opened,
    one by one. *)
Definition write_calls (base : string) (i : nat) (bytes : list byte) : list (Fs -> Fs) :=
  [fs_append i MAGIC_NO_META; fs_append i [Byte.x01]; fs_append i (crc bytes); fs_append i bytes;
   fs_msync i; fs_rename (meta_tmp base) (meta_path base)].

Definition run_calls (calls : list (Fs -> Fs)) (fs : Fs) : Fs := foldl (fun fs f => f fs) fs calls.

Definition write_unchecked (base : string) (bytes : list byte) (fs : Fs) : Fs :=
  let '(i, fs) := fs_create (meta_tmp base) fs in run_calls (write_calls base i bytes) fs.

Definition write (meta : Metadata) (base : string) (fs : Fs) : Fs :=
  write_unchecked base (serialize meta) fs.

Definition read_or_create (base : string) : St Error Fs Metadata := fun fs =>
  match dir fs !! meta_path base with
  | None =>
      let slf := mkMeta None None in
      (Ok slf, write_unchecked base (serialize slf) fs)
  | Some i =>
      let bytes := fs_content fs i in
      (if zlen bytes <? 14 then Err EFileCorrupted else
       magic ← unwrap (slice bytes 0 7);
       if negb (bool_decide (magic = MAGIC_NO_META)) then Err EFileCorrupted else
       version ← unwrap (slice bytes 7 8);
       if bool_decide (version = [Byte.x01]) then
         c ← unwrap (slice bytes 8 12);
         data ← unwrap (slice bytes 12 (zlen bytes));
         if negb (bool_decide (c = crc data)) then Err EFileCorrupted
         else match deserialize data with Some m => Ok m | None => Err EDecode end
       else Err EFileCorrupted, fs)
  end.

(** ** Lemmas *)
Lemma meta_tmp_ne base : meta_tmp base <> meta_path base.
Proof.
  unfold meta_tmp. intros E. apply (f_equal String.length) in E.
  rewrite string_length_app in E. cbn in E. lia.
Qed.

Lemma run_calls_app c1 c2 fs : run_calls (c1 ++ c2) fs = run_calls c2 (run_calls c1 fs).
Proof. unfold run_calls. apply foldl_app. Qed.

(** The calls before the rename only touch the inode of the temporary file. *)
Lemma calls_frame base i bytes n fs :
  (n <= 5)%nat ->
  let fs' := run_calls (take n (write_calls base i bytes)) fs in
  dir fs' = dir fs /\ next_ino fs' = next_ino fs /\
  (forall j, j <> i -> fs_content fs' j = fs_content fs j /\ fs_durable fs' j = fs_durable fs j).
Proof.
  intros Hn.
  assert (forall (f : Fs -> Fs) fs, f ∈ take 5 (write_calls base i bytes) ->
    dir (f fs) = dir fs /\ next_ino (f fs) = next_ino fs /\
    (forall j, j <> i -> fs_content (f fs) j = fs_content fs j /\ fs_durable (f fs) j = fs_durable fs j)) as Hf.
  { intros f fs0 Hin. unfold write_calls in Hin. cbn [take] in Hin.
    rewrite !elem_of_cons in Hin.
    destruct Hin as [->|[->|[->|[->|[->|Hin]]]]]; [..|by inversion Hin];
      (split; [done|]; split; [done|]; intros j Hj); unfold fs_append, fs_msync, fs_store, fs_content, fs_durable;
      cbn; by rewrite lookup_insert_ne by done. }
  assert (forall f, f ∈ take n (write_calls base i bytes) -> f ∈ take 5 (write_calls base i bytes)) as Hsub.
  { intros f (k & Hk & Hlt)%elem_of_take. apply elem_of_take. exists k. split; [done|lia]. }
  revert Hsub. generalize (take n (write_calls base i bytes)) as cs. clear Hn n. intros cs. revert fs.
  induction cs as [|f cs IH]; intros fs Hsub; cbn; [done|].
  destruct (Hf f fs (Hsub f ltac:(by left))) as (Hd & Hx & Hj).
  destruct (IH (f fs) ltac:(intros g Hg; apply Hsub; by right)) as (Hd' & Hx' & Hj').
  unfold run_calls in *. rewrite Hd', Hx', Hd, Hx. split; [done|]. split; [done|].
  intros j Hne. destruct (Hj' j Hne) as [-> ->]. by apply Hj.
Qed.

(** What the temporary file holds when it is renamed. *)
Lemma calls_content base i bytes fs :
  fs_content fs i = [] ->
  let fs' := run_calls (take 5 (write_calls base i bytes)) fs in
  fs_content fs' i = meta_bytes bytes /\ fs_durable fs' i = meta_bytes bytes.
Proof.
  intros E. cbn. unfold run_calls. cbn. rewrite fs_content_msync, fs_durable_msync.
  unfold fs_append. rewrite !fs_content_store, E. unfold meta_bytes. cbn [app]. by rewrite <- ?app_assoc.
Qed.

Lemma fs_create_spec p fs :
  let '(i, fs') := fs_create p fs in
  dir fs' !! p = Some i /\ fs_content fs' i = [] /\
  (forall q, q <> p -> dir fs' !! q = dir fs !! q) /\
  (forall j, j <> i -> fs_content fs' j = fs_content fs j /\ fs_durable fs' j = fs_durable fs j) /\
  (dir fs !! p = Some i \/ i = next_ino fs).
Proof.
  unfold fs_create. destruct (dir fs !! p) as [i|] eqn:E.
  - split; [done|]. rewrite fs_content_store. split; [done|]. split; [done|].
    split; [|by left]. intros j Hj. by rewrite fs_content_store_ne, fs_durable_store by done.
  - cbn. rewrite lookup_insert_eq. split; [done|]. unfold fs_content, fs_durable. cbn.
    rewrite lookup_insert_eq. split; [done|]. split; [intros q Hq; by rewrite lookup_insert_ne by done|].
    split; [|by right]. intros j Hj. by rewrite lookup_insert_ne by done.
Qed.

Lemma write_calls_split base i bytes :
  write_calls base i bytes = take 5 (write_calls base i bytes) ++ [fs_rename (meta_tmp base) (meta_path base)].
Proof. reflexivity. Qed.

(** The directory and the files after a complete write. *)
Lemma write_unchecked_spec base bytes fs :
  fs_wf fs ->
  let fs' := write_unchecked base bytes fs in
  fs_wf fs' /\ dir fs' !! meta_tmp base = None /\
  (exists i, dir fs' !! meta_path base = Some i /\
     fs_content fs' i = meta_bytes bytes /\ fs_durable fs' i = meta_bytes bytes) /\
  (forall q, q <> meta_path base -> q <> meta_tmp base -> dir fs' !! q = dir fs !! q /\
     forall j, dir fs !! q = Some j -> fs_content fs' j = fs_content fs j /\ fs_durable fs' j = fs_durable fs j).
Proof.
  intros Hwf. unfold write_unchecked. pose proof (fs_create_spec (meta_tmp base) fs) as Hcr.
  assert (fs_wf (fs_create (meta_tmp base) fs).2) as Hwf1.
  { destruct Hwf as [Hi Hf]. unfold fs_create. destruct (dir fs !! meta_tmp base) eqn:E; [by split|].
    split; cbn.
    - intros p q i. rewrite !lookup_insert. repeat case_decide; subst; try done.
      + intros [= <-] Hq%Hf. lia.
      + intros Hq%Hf [= <-]. lia.
      + eauto.
    - intros p i. rewrite lookup_insert. case_decide; [intros [= <-]; lia|]. intros ?%Hf. lia. }
  destruct (fs_create (meta_tmp base) fs) as [i fs1]. cbn [snd] in Hwf1.
  destruct Hcr as (Hd & Hc & Hq & Hj & Hor).
  rewrite write_calls_split, run_calls_app.
  pose proof (calls_frame base i bytes 5 fs1 ltac:(lia)) as (Ed & En & Ej).
  pose proof (calls_content base i bytes fs1 Hc) as (Ec & Edu).
  set (fs2 := run_calls (take 5 (write_calls base i bytes)) fs1) in *. cbn zeta in *.
  unfold run_calls. cbn [foldl]. unfold fs_rename. rewrite Ed, Hd.
  assert (fs_wf (mkFs (<[meta_path base := i]> (delete (meta_tmp base) (dir fs1))) (inodes fs2) (next_ino fs2))) as Hwf2.
  { destruct Hwf1 as [Hi Hf]. split; cbn [dir next_ino]; [|rewrite En].
    - intros p q j. rewrite !lookup_insert. repeat case_decide; subst; try done.
      + intros [= <-] [Hne Hq']%lookup_delete_Some. exfalso. apply Hne. by eapply Hi.
      + intros [Hne Hq']%lookup_delete_Some [= <-]. exfalso. apply Hne. by eapply Hi.
      + intros [_ ?]%lookup_delete_Some [_ ?]%lookup_delete_Some. eauto.
    - intros p j. rewrite lookup_insert. case_decide; [intros [= <-]; eauto|].
      intros [_ ?]%lookup_delete_Some. eauto. }
  split; [done|]. cbn [dir]. pose proof (meta_tmp_ne base). split.
  { rewrite lookup_insert_ne by done. apply lookup_delete_eq. }
  split.
  { exists i. rewrite lookup_insert_eq. split; [done|]. done. }
  intros q Hq1 Hq2. rewrite lookup_insert_ne, lookup_delete_ne, Hq by done. split; [done|].
  intros j Hqj. assert (j <> i) as Hne.
  { intros ->. destruct Hwf as [Hi Hf]. destruct Hor as [?| ->]; [apply Hq2; eauto|]. specialize (Hf _ _ Hqj). lia. }
  destruct (Hj j Hne) as [<- <-]. by apply Ej.
Qed.

Lemma crc_length d : zlen (crc d) = 4.
Proof. apply zlen_le. Qed.

Lemma meta_slices bytes :
  slice (meta_bytes bytes) 0 7 = Some MAGIC_NO_META /\
  slice (meta_bytes bytes) 7 8 = Some [Byte.x01] /\
  slice (meta_bytes bytes) 8 12 = Some (crc bytes) /\
  slice (meta_bytes bytes) 12 (zlen (meta_bytes bytes)) = Some bytes /\
  zlen (meta_bytes bytes) = 12 + zlen bytes.
Proof.
  assert (zlen (meta_bytes bytes) = 12 + zlen bytes) as Hz.
  { unfold meta_bytes. rewrite !zlen_app, crc_length. change (zlen MAGIC_NO_META) with 7.
    change (zlen [Byte.x01]) with 1. lia. }
  pose proof (slice_full (meta_bytes bytes)) as Hs. unfold meta_bytes in Hs at 3.
  apply (slice_app _ _ _ 0 7) in Hs as [? Hs]; [|reflexivity].
  apply (slice_app _ _ _ 7 8) in Hs as [? Hs]; [|reflexivity].
  apply (slice_app _ _ _ 8 12) in Hs as [? Hs]; [|by rewrite crc_length].
  done.
Qed.

Lemma read_or_create_bytes base fs i m :
  MetaCodecOk -> dir fs !! meta_path base = Some i -> fs_content fs i = meta_bytes (serialize m) ->
  read_or_create base fs = (Ok m, fs).
Proof.
  intros Hok Hd Hc. unfold read_or_create. rewrite Hd, Hc.
  destruct (meta_slices (serialize m)) as (-> & -> & -> & -> & Hz).
  pose proof (serialize_length m). rewrite (proj2 (Z.ltb_ge _ _)) by lia. step_res.
  rewrite !(bool_decide_eq_true_2 (_ = _)) by done. cbn [negb]. step_res.
  by rewrite deserialize_serialize.
Qed.

(** What a crash after [n] of the system calls of a write leaves in the
    metadata file: the old contents up to the rename, the new ones after it. *)
Lemma write_crash base bytes fs i0 n :
  fs_wf fs -> dir fs !! meta_path base = Some i0 ->
  let fs1 := (fs_create (meta_tmp base) fs).2 in
  let i := (fs_create (meta_tmp base) fs).1 in
  let fs' := run_calls (take n (write_calls base i bytes)) fs1 in
  exists j, dir fs' !! meta_path base = Some j /\
    fs_durable fs' j = if decide (n <= 5)%nat then fs_durable fs i0 else meta_bytes bytes.
Proof.
  intros Hwf Hm fs1 i fs'. case_decide as Hn.
  - pose proof (fs_create_spec (meta_tmp base) fs) as Hcr. unfold fs', fs1, i.
    destruct (fs_create (meta_tmp base) fs) as [k fsk]. cbn [fst snd].
    destruct Hcr as (Hd & Hc & Hq & Hj & Hor).
    destruct (calls_frame base k bytes n fsk ltac:(lia)) as (Ed & _ & Ej).
    pose proof (meta_tmp_ne base). exists i0. rewrite Ed, Hq by done. split; [done|].
    assert (i0 <> k) as Hne.
    { intros ->. destruct Hwf as [Hi Hf]. destruct Hor as [?| ->]; [apply (meta_tmp_ne base); eauto|].
      specialize (Hf _ _ Hm). lia. }
    destruct (Ej _ Hne) as [_ ->]. by destruct (Hj _ Hne) as [_ ->].
  - unfold fs', fs1, i. rewrite take_ge by (cbn; lia).
    destruct (write_unchecked_spec base bytes fs Hwf) as (_ & _ & (k & Hk & _ & Hd) & _).
    unfold write_unchecked in *. destruct (fs_create (meta_tmp base) fs) as [k' fsk]. eauto.
Qed.

(** Reading never panics, and what it returns was checksummed. *)
Lemma read_or_create_total base fs :
  (exists m fs', read_or_create base fs = (Ok m, fs')) \/ (exists e, read_or_create base fs = (Err e, fs)).
Proof.
  unfold read_or_create. destruct (dir fs !! meta_path base) as [i|]; [|eauto].
  set (b := fs_content fs i). destruct (Z.ltb_spec (zlen b) 14); [eauto|].
  destruct (slice_is_Some b 0 7) as [x ->]; [lia..|]. step_res. destruct (negb _); [eauto|].
  destruct (slice_is_Some b 7 8) as [y ->]; [lia..|]. step_res. destruct (bool_decide _); [|eauto].
  destruct (slice_is_Some b 8 12) as [z ->]; [lia..|]. step_res.
  destruct (slice_is_Some b 12 (zlen b)) as [d ->]; [lia..|]. step_res.
  destruct (negb _); [eauto|]. destruct (deserialize d); eauto.
Qed.

End WalMeta.

(** * The lock file *)

(** Advisory locks on inodes, taken by [try_lock] and released when the handle
    that holds them is dropped. *)
Record Sys : Type := mkSys { sys_fs : Fs; locks : gset nat }.

Module LockFile.

Definition path (base : string) : string := base +:+ "/lock.hql".

Definition exists_ (base : string) (y : Sys) : bool := bool_decide (is_Some (dir (sys_fs y) !! path base)).

(** Opens with [create] and [truncate]; the handle is the inode. *)
Definition create (base : string) (y : Sys) : nat * Sys :=
  let '(i, fs) := fs_create (path base) (sys_fs y) in (i, mkSys fs (locks y)).

Definition lock_file (i : nat) (y : Sys) : Res Error unit * Sys :=
  if bool_decide (i ∈ locks y) then (Err EInternal, y)
  else (Ok tt, mkSys (sys_fs y) ({[i]} ∪ locks y)).

(** The handle it opens for the attempt is dropped again. *)
Definition is_locked (base : string) (y : Sys) : Res Error bool :=
  match dir (sys_fs y) !! path base with
  | None => Err EIO
  | Some i => Ok (match lock_file i y with (Ok _, _) => false | _ => true end)
  end.

Definition drop_handle (i : nat) (y : Sys) : Sys := mkSys (sys_fs y) (locks y ∖ {[i]}).

Definition remove (base : string) (y : Sys) : Res Error unit * Sys :=
  let '(r, fs) := fs_remove_file (path base) (sys_fs y) in (r, mkSys fs (locks y)).

(** The lock taken at the start of a store, as [LogStore::start] does it: [None]
    is the panic on a store in use, otherwise the handle and whether a lock file
    was left behind. *)
Definition acquire (base : string) (y : Sys) : Res Error (nat * bool) * Sys :=
  let lock_exists := exists_ base y in
  match (if lock_exists then is_locked base y else Ok false) with
  | Ok true => (Panic, y)
  | Ok false =>
      let '(i, y) := create base y in
      let '(r, y) := lock_file i y in
      (_ ← r; Ok (i, lock_exists), y)
  | Err e => (Err e, y)
  | Panic => (Panic, y)
  | OutOfFuel => (OutOfFuel, y)
  end.

(** The end of the writer: drop the handle, remove the file. *)
Definition release (base : string) (i : nat) (y : Sys) : Res Error unit * Sys :=
  remove base (drop_handle i y).

Lemma acquire_locks base y i ex y' :
  acquire base y = (Ok (i, ex), y') ->
  dir (sys_fs y') !! path base = Some i /\ i ∈ locks y' /\ ex = exists_ base y.
Proof.
  unfold acquire. destruct (if exists_ base y then _ else _) as [[|]| | |] eqn:E; try done.
  unfold create. pose proof (fs_create_spec (path base) (sys_fs y)) as Hcr.
  destruct (fs_create (path base) (sys_fs y)) as [k fs]. destruct Hcr as (Hd & _).
  unfold lock_file. cbn [locks sys_fs]. case_bool_decide; cbn; [done|].
  intros [= <- <- <-]. cbn. split; [done|]. split; [set_solver|done].
Qed.

(** A store in use cannot be opened a second time. *)
Lemma acquire_twice base y i ex y' :
  acquire base y = (Ok (i, ex), y') -> acquire base y' = (Panic, y').
Proof.
  intros Ha. destruct (acquire_locks _ _ _ _ _ Ha) as (Hd & Hl & _). unfold acquire, exists_.
  rewrite bool_decide_eq_true_2 by (rewrite Hd; eauto). unfold is_locked. rewrite Hd.
  unfold lock_file. by rewrite bool_decide_eq_true_2 by done.
Qed.

(** A store that was released opens cleanly; one that was not (its process died,
    so its locks are gone) opens with the integrity check requested. *)
Lemma acquire_after_release base y i ex y' :
  fs_wf (sys_fs y) -> (forall j, j ∈ locks y -> (j < next_ino (sys_fs y))%nat) ->
  acquire base y = (Ok (i, ex), y') ->
  exists y'' j, release base i y' = (Ok tt, y'') /\ exists y3, acquire base y'' = (Ok (j, false), y3).
Proof.
  intros Hwf Hlt Ha. pose proof (acquire_locks _ _ _ _ _ Ha) as (Hd & Hl & _).
  assert (forall j, j ∈ locks y' -> (j < next_ino (sys_fs y'))%nat) as Hlt'.
  { revert Ha. unfold acquire. destruct (if exists_ base y then _ else _) as [[|]| | |]; try done.
    unfold create, fs_create, lock_file. destruct Hwf as [_ Hf].
    destruct (dir (sys_fs y) !! path base) as [k|] eqn:Ek; cbn [locks sys_fs];
      case_bool_decide; cbn; try done; intros [= <- <- <-] j; cbn; rewrite elem_of_union, elem_of_singleton;
      intros [->|Hj%Hlt]; first [lia|exact Hj|by eapply Hf]. }
  unfold release, remove, drop_handle, fs_remove_file. cbn [sys_fs locks]. rewrite Hd.
  eexists _, (next_ino (sys_fs y')). split; [reflexivity|].
  unfold acquire, exists_, create, fs_create, lock_file. cbn [sys_fs dir locks].
  rewrite lookup_delete_eq, bool_decide_eq_false_2 by (intros [? ?]; done).
  cbn [locks sys_fs next_ino]. rewrite bool_decide_eq_false_2; [eexists; reflexivity|].
  rewrite elem_of_difference. intros [Hj%Hlt' _]. lia.
Qed.

(** After a crash the lock file is left behind, not locked: the next start gets
    the lock and sees that the last shutdown was not clean. *)
Lemma acquire_after_crash base y i ex y' :
  acquire base y = (Ok (i, ex), y') ->
  exists y3, acquire base (mkSys (sys_fs y') ∅) = (Ok (i, true), y3).
Proof.
  intros Ha. destruct (acquire_locks _ _ _ _ _ Ha) as (Hd & _). unfold acquire, exists_. cbn [sys_fs].
  rewrite bool_decide_eq_true_2 by (rewrite Hd; eauto). unfold is_locked, create, fs_create. cbn [sys_fs].
  rewrite Hd. unfold lock_file. cbn [locks sys_fs]. rewrite bool_decide_eq_false_2 by set_solver. eauto.
Qed.

End LockFile.
