(* ===== verification/WalWriter.v ===== *)
(** The writer task of a log store: [hiqlite-wal/src/writer.rs].

    The task owns the file set and is the only one that writes it; a copy without
    mappings is shared with the readers.  A channel is the list of the messages
    received from it, the answers to the senders are collected in [out].  [Err]
    out of a handler is the [?] that ends the task. *)
From stdpp Require Import base gmap strings list numbers.
From Stdlib Require Import Ascii Strings.Byte.
From S2P Require Import Prelude Text WalBase WalFile WalSet WalMeta.

#[local] Open Scope Z_scope.

Inductive Action : Type :=
| Append (entries : list (Z * list byte))
| Remove (from until : Z) (last_log : option (list byte))
| Vote (value : list byte)
| Sync
| Shutdown.

Inductive LogSync : Type :=
| Immediate
| ImmediateAsync
| IntervalMillis (ms : Z).

(** [LogSync::try_from] *)
Definition LogSync_try_from (s : string) : Res Error LogSync :=
  if String.eqb s "immediate" then Ok Immediate
  else if String.eqb s "immediate_async" then Ok ImmediateAsync
  else match strip_prefix "interval_" s with
       | Some ms =>
           match parse_u64 ms with
           | Some ms => Ok (IntervalMillis ms)
           | None => Err EGeneric
           end
       | None => Err EGeneric
       end.

(** What the task sends: the ack of a request ([None] is success), the openraft
    callback of an append, the ack of a shutdown. *)
Inductive Reply : Type :=
| RAck (err : option Error)
| RCallback (err : option Error)
| RShutdown.

Record Writer : Type := mkWriter {
  meta : Metadata;
  wal_locked : WalFileSet;
  wal : WalFileSet;
  is_dirty : bool;
  out : list Reply;
}.

Definition set_meta (m : Metadata) (w : Writer) : Writer :=
  mkWriter m (wal_locked w) (wal w) (is_dirty w) (out w).
Definition set_locked (s : WalFileSet) (w : Writer) : Writer :=
  mkWriter (meta w) s (wal w) (is_dirty w) (out w).
Definition set_wal (s : WalFileSet) (w : Writer) : Writer :=
  mkWriter (meta w) (wal_locked w) s (is_dirty w) (out w).
Definition set_dirty (b : bool) (w : Writer) : Writer :=
  mkWriter (meta w) (wal_locked w) (wal w) b (out w).
Definition add_reply (r : Reply) (w : Writer) : Writer :=
  mkWriter (meta w) (wal_locked w) (wal w) (is_dirty w) (out w ++ [r]).

(** The arguments of the task. *)
Record Cfg : Type := mkCfg { sync : LogSync; wal_size : Z; data_len_limit : Z }.

Abbreviation WrSt := (St Error (Fs * Writer)).

Definition wr_get : WrSt Writer := fun s => (Ok s.2, s).
Definition wr_modify (f : Writer -> Writer) : WrSt unit := fun s => (Ok tt, (s.1, f s.2)).
Definition wr_fs (f : Fs -> Fs) : WrSt unit := fun s => (Ok tt, (f s.1, s.2)).
Definition on_set {A} (m : SSt A) : WrSt A := fun s =>
  let '(r, (fs, t)) := m (s.1, wal s.2) in (r, (fs, set_wal t s.2)).
Definition reply (r : Reply) : WrSt unit := wr_modify (add_reply r).

Section WalWriter.
Context `{Checksum} `{Features} `{MetaCodec}.

(** Reads the active file. *)
Definition active_file : SSt WalFile := on_active w_get.

(** [lock.active = wal.active; lock.clone_files_from_no_mmap(&wal.files)] *)
Definition share_files : WrSt unit :=
  w ← wr_get;
  t ← st_lift (clone_files_from_no_mmap (set_active (active (wal w)) (wal_locked w)) (files (wal w)));
  wr_modify (set_locked t).

(** [lock.active().clone_from_no_mmap(wal.active())] *)
Definition share_active : WrSt unit :=
  a ← on_set active_file;
  w ← wr_get;
  k ← st_lift (unwrap (active (wal_locked w)));
  f ← st_lift (unwrap (files (wal_locked w) !! k));
  wr_modify (set_locked (set_files (<[k := clone_from_no_mmap f a]> (files (wal_locked w))) (wal_locked w))).

(** [Metadata::write(meta.clone(), &wal.base_path)] *)
Definition write_meta : WrSt unit :=
  w ← wr_get; wr_fs (write (meta w) (base_path (wal w))).

Definition flush_blocking : WrSt unit :=
  w ← wr_get;
  if negb (is_dirty w) then mret tt else
  on_set (on_active (update_header;; flush));;
  wr_modify (set_dirty false).

Definition roll_and_share (cfg : Cfg) : WrSt unit :=
  on_set (roll_over (wal_size cfg));; share_files.

(** The loop over the entries of one batch; the result is [res] of the source. *)
Fixpoint append_loop (cfg : Cfg) (entries : list (Z * list byte)) : WrSt (option Error) :=
  match entries with
  | [] => mret None
  | (id, bytes) :: entries =>
      if data_len_limit cfg <? zlen bytes
      then if oversized_entry_error then mret (Some EWalSizeExceeded) else st_panic
      else
        a ← on_set active_file;
        space ← st_lift (has_space a (wrap32 (zlen bytes)));
        (if space : bool then mret tt else roll_and_share cfg);;
        e ← st_try (on_set (on_active (append_log id bytes)));
        match e with
        | Some err => mret (Some err)
        | None => append_loop cfg entries
        end
  end.

Definition or_else (e res : option Error) : option Error := match e with Some _ => e | None => res end.

Definition handle_append (cfg : Cfg) (entries : list (Z * list byte)) : WrSt unit :=
  res ← append_loop cfg entries;
  share_active;;
  reply (RAck res);;
  wr_modify (set_dirty true);;
  res_cb ← match sync cfg with
           | Immediate => e ← st_try flush_blocking; mret (or_else e res)
           | ImmediateAsync => e ← st_try (on_set (on_active flush_async)); mret (or_else e res)
           | IntervalMillis _ => mret res
           end;
  reply (RCallback res_cb);;
  a ← on_set active_file;
  left ← st_lift (space_left a);
  if left <? 4 * 1024 then roll_and_share cfg else mret tt.

Definition set_purged (p : option (list byte)) (w : Writer) : Writer :=
  set_meta (mkMeta p (vote (meta w))) w.

Definition handle_remove (cfg : Cfg) (from until : Z) (last_log : option (list byte)) : WrSt unit :=
  e ← st_try flush_blocking;
  match e with
  | Some err => reply (RAck (Some err))
  | None =>
      w ← wr_get;
      let previous_purged := last_purged_log_id (meta w) in
      let persist_purged := bool_decide (is_Some last_log) in
      (if persist_purged then wr_modify (set_purged last_log);; write_meta else mret tt);;
      e ← st_try (on_set (shift_delete_logs from until (wal_size cfg)));
      match e with
      | None => share_files;; reply (RAck None)
      | Some err =>
          (if persist_purged then wr_modify (set_purged previous_purged);; write_meta else mret tt);;
          reply (RAck (Some err))
      end
  end.

Definition handle_vote (value : list byte) : WrSt unit :=
  flush_blocking;;
  wr_modify (fun w => set_meta (mkMeta (last_purged_log_id (meta w)) (Some value)) w);;
  write_meta;;
  reply (RAck None).

(** One turn of the loop; [false] ends it. *)
Definition handle (cfg : Cfg) (a : Action) : WrSt bool :=
  match a with
  | Append entries => handle_append cfg entries;; mret true
  | Remove from until last_log => handle_remove cfg from until last_log;; mret true
  | Vote value => handle_vote value;; mret true
  | Sync => flush_blocking;; mret true
  | Shutdown => mret false
  end.

(** The loop: [true] when it ended with a shutdown request, [false] when the
    channel was closed. *)
Fixpoint handle_all (cfg : Cfg) (l : list Action) : WrSt bool :=
  match l with
  | [] => mret false
  | a :: l =>
      continue ← handle cfg a;
      if continue : bool then handle_all cfg l else mret true
  end.

(** The files of the set as the task ends: each runs its [Drop]. *)
Fixpoint drop_files (l : list WalFile) (fs : Fs) : Res Error Fs :=
  match l with
  | [] => Ok fs
  | w :: l => fs ← drop_file fs w; drop_files l fs
  end.


(** The whole task on the messages it receives; [lock] is the handle of the lock
    file.  The shutdown ack is sent after the lock file is gone. *)
Definition run (snc : LogSync) (size : Z) (lock : nat) (l : list Action)
    : St Error (Sys * Writer) unit := fun s =>
  let body : WrSt bool :=
    a ← on_set active_file;
    off ← st_lift (offset_logs a);
    on_set (on_active mmap_mut_op);;
    let cfg := mkCfg snc size (wrap64 (size - off - 2)) in
    shutdown ← handle_all cfg l;
    on_set (on_active (update_header;; flush));;
    write_meta;;
    mret shutdown in
  let '(r, (fs, w)) := body (sys_fs s.1, s.2) in
  let y := mkSys fs (locks s.1) in
  match r with
  | Ok shutdown =>
      let '(r, y) := LockFile.release (base_path (wal w)) lock y in
      match r with
      | Ok _ =>
          let w := if shutdown then add_reply RShutdown w else w in
          match drop_files (files (wal w)) (sys_fs y) with
          | Ok fs => (Ok tt, (mkSys fs (locks y), w))
          | _ => (Panic, (y, w))
          end
      | _ => (Panic, (y, w))
      end
  | Err e =>
      match drop_files (files (wal w)) fs with
      | Ok fs => (Err e, (LockFile.drop_handle lock (mkSys fs (locks y)), w))
      | _ => (Panic, (LockFile.drop_handle lock y, w))
      end
  | Panic =>
      let fs := match drop_files (files (wal w)) fs with Ok fs => fs | _ => fs end in
      (Panic, (LockFile.drop_handle lock (mkSys fs (locks y)), w))
  | OutOfFuel => (OutOfFuel, (y, w))
  end.

(** ** Starting the task *)

(** [openraft::LogId<u64>] *)
Record LogId : Type := mkLogId { term : Z; node_id : Z; index : Z }.

(** bincode on [LogId]: a parameter.  [decode_log_id] also reads the leading log
    id of an encoded entry, since bincode ignores the bytes that follow. *)
Class LogIdCodec : Type := {
  encode_log_id : LogId -> list byte;
  decode_log_id : list byte -> option LogId;
}.

(** The repair of a missing purge frontier: the log before the first one of the
    front file. *)
Definition fix_last_purged `{LogIdCodec} (m : Metadata) (s : WalFileSet) : St Error Fs (Metadata * WalFileSet) :=
  match last_purged_log_id m, files s with
  | None, front :: rest =>
      if (1 <? wal_no front) && (2 <? id_from front) then
        fs ← st_get;
        i ← st_lift (match mmap front with Some i => Ok i | None => fs_open (path front) fs end);
        let front := set_maps (Some i) (mmap_mut front) (wfile front) front in
        '(_, _, buf) ← st_lift (read_logs fs front (id_from front) (id_until front) None);
        r ← st_lift (unwrap (head buf));
        log ← st_lift (match decode_log_id r.2 with Some l => Ok l | None => Err EDecode end);
        let log_id := mkLogId (term log) (node_id log) (wrap64 (index log - 1)) in
        let m := mkMeta (Some (encode_log_id log_id)) (vote m) in
        st_put (write m (base_path s) fs);;
        mret (m, set_files (mmap_drop front :: rest) s)
      else mret (m, s)
  | _, _ => mret (m, s)
  end.

(** [s.add_file(..)] and [s.check_integrity(..)] on a set that is not shared yet. *)
Definition on_local {A} (m : SSt A) (t : WalFileSet) : St Error Fs WalFileSet := fun fs =>
  let '(r, (fs, t)) := m (fs, t) in (_ ← r; Ok t, fs).

(** [writer::spawn] up to the start of the thread: the state the task starts with. *)
Definition spawn `{LogIdCodec} (base : string) (size : Z) (deep env_check : bool) (m : Metadata)
    : St Error Fs Writer :=
  set ← read base size;
  set ← on_local (check_integrity deep env_check) set;
  set ← (match files set with [] => on_local (add_file size) set | _ => mret set end);
  let locked := clone_no_map set in
  '(m, set) ← fix_last_purged m set;
  mret (mkWriter m locked set false []).

End WalWriter.
