(* ===== verification/WalWriterSpec.v ===== *)
(** The writer task keeps one log: what each action does to the logs of the set,
    to the copy shared with the readers, to the metadata and to the device. *)
From stdpp Require Import base gmap strings list numbers sorting.
From Stdlib Require Import Ascii Strings.Byte.
From S2P Require Import Prelude Text WalBase WalFile WalFileSpec WalSet WalSetSpec WalPurge WalMeta WalWriter.

#[local] Open Scope Z_scope.

(** Runs the known prefix of a writer action. *)
Ltac rstep := repeat (progress (cbv beta iota zeta
  delta [mbind st_bind mret st_ret st_lift st_get st_put st_err st_panic
         wr_get wr_fs wr_modify reply unwrap]; cbn [fst snd])).

Section WalWriterSpec.
Context `{Checksum} `{Features} `{MetaCodec}.

Record cfg_ok (cfg : Cfg) : Prop := {
  co_size : MIN_WAL_SIZE <= wal_size cfg < u32_max;
  co_limit : data_len_limit cfg = wal_size cfg - 34;
}.

(** The bytes of the file that are on the device hold its logs. *)
Definition dur_ok (fs : Fs) (e : FileLogs) : Prop :=
  e.2 = [] \/ exists i, dir fs !! path e.1 = Some i /\ file_ok (fs_durable fs i) e.1 e.2.

(** The copy mirrors every file but the active one, of which only the name. *)
Record half_shared (base : string) (s t : WalFileSet) : Prop := {
  hs_active : active t = active s;
  hs_files : exists s0 t0 w w', files s = s0 ++ [w] /\ files t = t0 ++ [w'] /\
    view <$> t0 = view <$> s0 /\ wal_no w' = wal_no w /\ named base w';
  hs_named : Forall (named base) (files s);
}.

(** The writer in the middle of a batch; [f] is the active file. *)
Record loop_ok (cfg : Cfg) (fs : Fs) (w : Writer) (l : list FileLogs) (f : WalFile) (rs : list Entry) : Prop := {
  lo_set : set_ok fs (wal w) (l ++ [(f, rs)]);
  lo_shared : half_shared (base_path (wal w)) (wal w) (wal_locked w);
  lo_size : Forall (fun e : FileLogs => len_max e.1 = wal_size cfg) (l ++ [(f, rs)]);
  lo_lsize : Forall (fun f => len_max f = wal_size cfg) (files (wal_locked w));
  lo_dur : Forall (dur_ok fs) l;
  lo_ids : Forall (fun r : Entry => r.1 < u64_max) (log_of (l ++ [(f, rs)]));
}.

(** What an action leaves alone. *)
Definition same_rest (w w' : Writer) : Prop :=
  meta w' = meta w /\ is_dirty w' = is_dirty w /\ out w' = out w /\ base_path (wal w') = base_path (wal w).

Lemma same_rest_trans a b c : same_rest a b -> same_rest b c -> same_rest a c.
Proof. intros (? & ? & ? & ?) (? & ? & ? & ?). unfold same_rest. by repeat split; etrans. Qed.

Lemma core_named fs s l : set_core fs s l -> Forall (named (base_path s)) (files s).
Proof.
  intros [_ -> He _ _]. apply Forall_forall. intros w (e & -> & Hin)%list_elem_of_fmap.
  rewrite Forall_forall in He. destruct (He _ Hin) as (i & _ & [Hv _ _ _] & _ & _ & Hb & _). done.
Qed.

Lemma core_consec fs s l : set_core fs s l -> exists no, consec no (files s) /\ exists next, chain no next l /\ 0 <= next.
Proof.
  intros [_ Hf _ (no & next & Hch & Hnn) _]. exists no. split; [|eauto]. intros k w Hk. rewrite Hf, list_lookup_fmap in Hk.
  destruct (l !! k) as [e|] eqn:E; [|done]. injection Hk as <-. by eapply chain_wal_no.
Qed.

Lemma half_shared_consec base s t a :
  half_shared base s t -> consec a (files s) -> consec a (files t) /\ Forall (named base) (files t).
Proof.
  intros [_ (s0 & t0 & w & w' & Es & Et & Hv & Hn & Hw') Hns] Hc. rewrite Es in Hc, Hns. rewrite Et.
  assert (length t0 = length s0) as Hl by (apply (f_equal length) in Hv; by rewrite !length_fmap in Hv).
  assert (consec a s0) as Hc0 by (intros k x Hk; apply Hc; by apply lookup_app_l_Some).
  pose proof (view_consec _ _ _ Hv Hc0) as Hct. split.
  - intros k x Hk. apply lookup_app_Some in Hk as [Hk|[Hge Hk]]; [by apply Hct|].
    apply list_lookup_singleton_Some in Hk as [Hk <-]. rewrite Hn.
    apply Hc. rewrite lookup_app_r by lia. by replace (k - length s0)%nat with 0%nat by lia.
  - apply Forall_app in Hns as [Hns _]. apply Forall_app. split; [by eapply view_named|by apply Forall_singleton].
Qed.

Lemma shared_half base s t : files s <> [] -> shared_ok base s t -> half_shared base s t.
Proof.
  intros Hne [Ha Hv Hn]. split; [done| |done].
  pose proof (view_named _ _ _ Hv Hn) as Hnt.
  destruct (files s) as [|w s0 _] eqn:Es using rev_ind; [done|].
  destruct (files t) as [|w' t0 _] eqn:Et using rev_ind; [by destruct s0|].
  rewrite !fmap_app in Hv. cbn in Hv. apply app_inj_tail in Hv as [Hv Hw].
  exists s0, t0, w, w'. do 3 (split; [done|]). split; [by injection Hw|].
  apply Forall_app in Hnt as [_ Hnt]. by inversion Hnt.
Qed.

Lemma path_exists base n : 0 <= n < 10 ^ 16 -> exists p, build_full_path base n = Ok p.
Proof. intros Hn. apply build_full_path_total. apply to_string_length_le; [lia|done]. Qed.

Lemma dur_frame fs fs' e :
  dur_ok fs e -> dir fs' !! path e.1 = dir fs !! path e.1 ->
  (forall i, dir fs !! path e.1 = Some i -> fs_durable fs' i = fs_durable fs i) -> dur_ok fs' e.
Proof.
  intros [?|(i & Hi & Hf)] Hd Hj; [by left|]. right. exists i. by rewrite Hd, (Hj _ Hi).
Qed.

(** The binds that only read or update the writer's fields. *)
Lemma bind_modify {A} g (k : unit -> WrSt A) fs w : (wr_modify g ≫= k) (fs, w) = k tt (fs, g w).
Proof. reflexivity. Qed.
Lemma bind_reply {A} r (k : unit -> WrSt A) fs w : (reply r ≫= k) (fs, w) = k tt (fs, add_reply r w).
Proof. reflexivity. Qed.
Lemma bind_get {A} (k : Writer -> WrSt A) fs w : (wr_get ≫= k) (fs, w) = k w (fs, w).
Proof. reflexivity. Qed.
Lemma bind_lift {A B} (a : A) (k : A -> WrSt B) s : (st_lift (Ok a) ≫= k) s = k a s.
Proof. by destruct s. Qed.
Lemma bind_assoc {A B C} (m : WrSt A) (k : A -> WrSt B) (h : B -> WrSt C) s :
  ((m ≫= k) ≫= h) s = (m ≫= (fun a => k a ≫= h)) s.
Proof. unfold mbind, st_bind. by destruct (m s) as [[] ?]. Qed.
Lemma try_ok {A} (m : WrSt A) s s' a : m s = (Ok a, s') -> st_try m s = (Ok None, s').
Proof. intros E. unfold st_try. by rewrite E. Qed.

Lemma sizes_fst n (l : list FileLogs) : Forall (fun e => len_max e.1 = n) l -> Forall (fun f => len_max f = n) (l.*1).
Proof. intros Hl. by apply Forall_fmap. Qed.

(** ** Rolling over *)
Lemma fs_durable_created fs w j : (j < next_ino fs)%nat -> fs_durable (fs_created fs w) j = fs_durable fs j.
Proof. intros. unfold fs_durable, fs_created. cbn. by rewrite lookup_insert_ne by lia. Qed.

Lemma fs_durable_sealed fs i w :
  fs_durable (fs_sealed fs i w) i = splice (fs_content fs i) 0 (header_of w) /\
  forall j, j <> i -> fs_durable (fs_sealed fs i w) j = fs_durable fs j.
Proof.
  unfold fs_sealed. rewrite fs_durable_msync, fs_content_store. split; [done|].
  intros j Hj. unfold fs_durable, fs_msync, fs_store. cbn. by rewrite !lookup_insert_ne by done.
Qed.

Lemma wal_inodes fs base e i : fs_wf fs -> entry_ok fs base e -> dir fs !! path e.1 = Some i -> (i < next_ino fs)%nat.
Proof. intros [_ Hf] _. eauto. Qed.

(** Sealing the active file makes all of its logs durable. *)
Lemma dur_roll fs s l f rs i p ws :
  set_core fs s (l ++ [(f, rs)]) -> entry_at fs (base_path s) (f, rs) i -> Forall (dur_ok fs) l ->
  dir fs !! p = None ->
  Forall (dur_ok (fs_created (fs_sealed fs i f) (fresh (wal_no f + 1) p ws)))
    (l ++ [(set_maps (mmap f) None None f, rs)]).
Proof.
  intros Hc Hat Hdur Hp. pose proof Hc as [Hwf _ He (no & next & Hch & _) _]. pose proof Hat as (Hdi & Hfo & _).
  cbn [fst snd] in *. destruct (fs_durable_sealed fs i f) as [Hi Hj].
  assert (forall q j, dir fs !! q = Some j ->
    dir (fs_created (fs_sealed fs i f) (fresh (wal_no f + 1) p ws)) !! q = Some j /\ (j < next_ino fs)%nat) as Hdir.
  { intros q j Hq. split; [|by eapply fw_fresh]. cbn. rewrite lookup_insert_ne; [done|congruence]. }
  apply Forall_app. split.
  - rewrite Forall_forall in Hdur. apply Forall_forall. intros e Hin.
    destruct (Hdur e Hin) as [?|(j & Hej & Hf)]; [by left|]. right. destruct (Hdir _ _ Hej) as [Hd Hlt].
    exists j. split; [done|]. rewrite fs_durable_created by done. rewrite Hj; [done|].
    intros ->. apply list_elem_of_lookup in Hin as [k Hk].
    eapply (set_paths_ne _ _ _ _ _ k (length l) e (f, rs) He Hch).
    + by apply lookup_app_l_Some.
    + by rewrite lookup_app_r, Nat.sub_diag by lia.
    + apply lookup_lt_Some in Hk. lia.
    + cbn. by eapply fw_inj.
  - apply Forall_singleton. destruct rs as [|r0 rs]; [by left|]. right. destruct (Hdir _ _ Hdi) as [Hd Hlt].
    exists i. split; [done|]. rewrite fs_durable_created, Hi by done.
    destruct (file_ok_header _ _ _ Hfo). by split.
Qed.

Lemma on_set_run {A} (m : SSt A) fs w r fs' s' :
  m (fs, wal w) = (r, (fs', s')) -> on_set m (fs, w) = (r, (fs', set_wal s' w)).
Proof. intros E. unfold on_set. cbn [fst snd]. by rewrite E. Qed.

Lemma log_of_reseal l f rs f' : log_of (l ++ [(f', rs)]) = log_of (l ++ [(f, rs)]).
Proof. by rewrite !log_of_snoc. Qed.

Lemma id_until_in_log fs base l f rs :
  entry_ok fs base (f, rs) -> rs <> [] -> exists r, r ∈ log_of (l ++ [(f, rs)]) /\ r.1 = id_until f.
Proof.
  intros (i & _ & Hfo & _) Hne. cbn in Hfo. destruct (last rs) as [x|] eqn:El; [|by apply last_None in El].
  exists x. rewrite log_of_snoc. split.
  - apply elem_of_app. right. apply last_Some in El as [rs0 ->]. apply elem_of_app. right. by left.
  - rewrite (ids_from_last _ _ _ (file_ok_ids _ _ _ Hfo) El). destruct rs; [done|].
    destruct Hfo as [_ _ _ (ds & _ & _ & _ & _ & _ & ->)]. done.
Qed.

Lemma roll_and_share_ok cfg fs w l f rs :
  cfg_ok cfg -> loop_ok cfg fs w l f rs -> rs <> [] -> wal_no f + 1 < 10 ^ 16 ->
  exists fs' w' f2 f', roll_and_share cfg (fs, w) = (Ok tt, (fs', w')) /\
    loop_ok cfg fs' w' (l ++ [(f2, rs)]) f' [] /\ shared_ok (base_path (wal w')) (wal w') (wal_locked w') /\
    same_rest w w' /\ wal_no f' = wal_no f + 1.
Proof.
  intros [Hws Hlim] [Hset Hsh Hsz Hlsz Hdur Hids] Hne Hno.
  destruct (set_ok_last _ _ _ Hset) as (l1 & f1 & rs1 & i & E & Hat & Hmm & _).
  apply app_inj_tail in E as [<- [= <- <-]]. pose proof Hat as (_ & _ & _ & Hm0 & _ & Hpos & _). cbn [fst] in Hpos, Hm0.
  destruct (path_exists (base_path (wal w)) (wal_no f + 1) ltac:(lia)) as [p Hp].
  assert (id_until f < u64_max) as Hid.
  { destruct (id_until_in_log fs (base_path (wal w)) l f rs (ex_intro _ i Hat) Hne) as (r & Hr & <-).
    rewrite Forall_forall in Hids. by apply Hids. }
  destruct (roll_over_ok fs (wal w) l f rs i (wal_size cfg) p Hset Hat Hmm Hne Hws ltac:(unfold u64_max; lia) Hid Hp)
    as [Hrun Hset'].
  cbv zeta in Hrun, Hset'. rewrite app_assoc in Hrun, Hset'. set (fs' := fs_created _ _) in *. set (s' := mkSet _ _ _) in *.
  set (f2 := set_maps (mmap f) None None f) in *. set (f' := rolled fs f p (wal_size cfg)) in *.
  destruct (core_consec _ _ _ (so_core _ _ _ Hset)) as (a & Ha & next & Hch & Hnn).
  destruct (half_shared_consec _ _ _ _ Hsh Ha) as [Hat' Hnt].
  destruct (core_consec _ _ _ (so_core _ _ _ Hset')) as (b & Hb & next' & Hch' & _).
  assert (b = a) as ->.
  { destruct l as [|e0 l]; cbn in Hch, Hch'; [destruct Hch as [<- _], Hch' as [<- _]; done|].
    destruct e0 as [w0 rs0]. destruct Hch as [<- _], Hch' as [<- _]. done. }
  destruct (share_update (base_path (wal w)) s' (wal_locked w) a a Hat' Hnt Hb (or_introl (Z.le_refl a))
    (core_named _ _ _ (so_core _ _ _ Hset'))) as (t' & Ht' & Hsh' & Hlen').
  assert (Forall (fun e : FileLogs => len_max e.1 = wal_size cfg) ((l ++ [(f2, rs)]) ++ [(f', [])])) as Hsz'.
  { apply Forall_app in Hsz as [Hsz Hsz1]. apply Forall_app. split; [|by apply Forall_singleton].
    apply Forall_app. split; [done|]. apply Forall_singleton. by inversion Hsz1. }
  exists fs', (set_locked t' (set_wal s' w)), f2, f'. split; [|split; [|split; [done|split; [done|done]]]].
  - unfold roll_and_share. rewrite (st_bind_ok _ _ _ _ _ (on_set_run _ _ _ _ _ _ Hrun)).
    unfold share_files. rstep. cbn [wal wal_locked set_wal]. by rewrite Ht'.
  - split; cbn [wal wal_locked set_locked set_wal].
    + done.
    + apply shared_half; [|done]. unfold s'. cbn. by destruct l.
    + exact Hsz'.
    + apply Hlen'; [done|]. unfold s'. cbn [files]. by apply sizes_fst.
    + apply (dur_roll _ (wal w)); [apply Hset|done|done|].
      destruct (dir fs !! p) eqn:Ep; [|done]. exfalso.
      assert (dir fs !! p = None) as Hn; [|congruence].
      eapply (path_free _ (wal w) _ a next (wal_no f + 1)); [apply Hset|done|unfold is_u64; lia|done|].
      apply chain_app in Hch as (_ & (Hn0 & _) & _). rewrite zlen_app. change (zlen [_]) with 1. lia.
    + rewrite log_of_snoc, app_nil_r, (log_of_reseal l f rs f2). done.
Qed.

(** ** Appending *)

(** [es] continues the log [log] without a gap. *)
Definition appends (log es : list Entry) : Prop :=
  exists i, ids_from i es /\ forall x, last log = Some x -> i = x.1 + 1.

(** An entry that fits into a file of the configured size. *)
Record fits (cfg : Cfg) (r : Entry) : Prop := {
  ft_rec : rec_ok r;
  ft_id : r.1 < u64_max;
  ft_len : 49 + zlen r.2 < wal_size cfg;
}.

Lemma appends_cons log r es :
  appends log (r :: es) -> (forall x, last log = Some x -> r.1 = x.1 + 1) /\ appends (log ++ [r]) es.
Proof.
  intros (i & [Hi Hes] & Hl). split; [intros x Hx; rewrite Hi; auto|].
  exists (i + 1). split; [done|]. intros x. rewrite last_snoc. intros [= <-]. lia.
Qed.

Lemma half_shared_last base s t l f f' :
  half_shared base s t -> files s = l ++ [f] -> wal_no f' = wal_no f -> named base f' ->
  half_shared base (set_files (l ++ [f']) s) t.
Proof.
  intros [Ha (s0 & t0 & w & w' & Es & Et & Hv & Hn & Hw') Hns] Ef Hno Hnm.
  rewrite Ef in Es, Hns. apply app_inj_tail in Es as [<- <-]. split; [done| |].
  - exists l, t0, f', w'. split; [done|]. split; [done|]. split; [done|]. split; [congruence|done].
  - cbn. apply Forall_app in Hns as [Hns _]. apply Forall_app. split; [done|by apply Forall_singleton].
Qed.

Lemma loop_files cfg fs w l f rs :
  loop_ok cfg fs w l f rs -> files (wal w) = l.*1 ++ [f] /\ active (wal w) = Some (length (l.*1)) /\
  exists i, entry_at fs (base_path (wal w)) (f, rs) i /\ mmap_mut f = Some i.
Proof.
  intros [Hset _ _ _ _ _]. destruct (set_ok_last _ _ _ Hset) as (l1 & f1 & rs1 & i & E & Hat & Hmm & Hf & Ha).
  apply app_inj_tail in E as [<- [= <- <-]]. eauto 10.
Qed.

Lemma active_file_run cfg fs w l f rs :
  loop_ok cfg fs w l f rs -> on_set active_file (fs, w) = (Ok f, (fs, w)).
Proof.
  intros Hlo. destruct (loop_files _ _ _ _ _ _ Hlo) as (Hf & Ha & _).
  unfold active_file. erewrite on_set_run; [|by rewrite (on_active_last _ _ _ _ _ Hf Ha)].
  rewrite <- Hf. by destruct w as [? ? [] ? ?].
Qed.

Lemma append_one cfg fs w l f rs r :
  loop_ok cfg fs w l f rs -> fits cfg r -> has_space f (zlen r.2) = Ok true ->
  (forall x, last (log_of (l ++ [(f, rs)])) = Some x -> r.1 = x.1 + 1) ->
  exists fs' w' f', on_set (on_active (append_log r.1 r.2)) (fs, w) = (Ok tt, (fs', w')) /\
    loop_ok cfg fs' w' l f' (rs ++ [r]) /\ same_rest w w' /\ wal_no f' = wal_no f.
Proof.
  intros Hlo [Hr Hid Hlen] Hsp Hlast. pose proof Hlo as [Hset Hsh Hsz Hlsz Hdur Hids].
  destruct (loop_files _ _ _ _ _ _ Hlo) as (Hf & Ha & i & Hat & Hmm).
  destruct (on_active_append fs (wal w) l f rs i r Hset Hat Hmm Hr Hsp Hlast) as [Hrun Hset'].
  cbv zeta in Hrun, Hset'.
  set (fs' := fs_store _ _ _) in *. set (s' := set_files _ _) in *.
  assert (wal_no (appended f r) = wal_no f /\ path (appended f r) = path f /\ version (appended f r) = version f /\
          len_max (appended f r) = len_max f) as (En & Ep & Ev & El)
    by (unfold appended; destruct (data_start f); done).
  exists fs', (set_wal s' w), (appended f r). split; [by apply on_set_run|]. split; [|split; [done|done]].
  assert (named (base_path (wal w)) (appended f r)) as Hnm.
  { pose proof (core_named _ _ _ (so_core _ _ _ Hset')) as Hn. cbn in Hn. apply Forall_app in Hn as [_ Hn]. by inversion Hn. }
  split; cbn [wal wal_locked set_wal].
  - done.
  - by eapply half_shared_last.
  - apply Forall_app in Hsz as [Hsz Hsz1]. apply Forall_app. split; [done|]. apply Forall_singleton. cbn [fst]. rewrite El.
    by inversion Hsz1.
  - done.
  - eapply Forall_impl; [exact Hdur|]. intros e He. eapply dur_frame; [done|done|].
    intros j _. apply fs_durable_store.
  - rewrite log_of_snoc, app_assoc, <- (log_of_snoc l f rs). apply Forall_app. split; [done|by apply Forall_singleton].
Qed.

Lemma has_space_total bytes f rs n : file_ok bytes f rs -> exists b, has_space f n = Ok b.
Proof.
  intros [Hv _ _ _]. unfold has_space, data_end_or_offset. rewrite offset_logs_ok by done.
  destruct (data_end f); step_res; eauto.
Qed.

Lemma has_space_empty bytes f cfg r :
  file_ok bytes f [] -> wal_size cfg <= len_max f -> fits cfg r -> has_space f (zlen r.2) = Ok true.
Proof.
  intros [Hv _ _ [_ Hd]] Hsz [_ _ Hl]. unfold has_space, data_end_or_offset. rewrite Hd, offset_logs_ok by done.
  step_res. rewrite wrap32_small by (unfold is_u32; lia). f_equal. apply Z.ltb_lt. lia.
Qed.

(** A batch that fits is appended entry by entry, rolling over where needed. *)
Lemma append_loop_ok cfg es : cfg_ok cfg -> forall fs w l f rs,
  loop_ok cfg fs w l f rs -> Forall (fits cfg) es -> appends (log_of (l ++ [(f, rs)])) es ->
  wal_no f + zlen es < 10 ^ 16 ->
  exists fs' w' l' f' rs', append_loop cfg es (fs, w) = (Ok None, (fs', w')) /\
    loop_ok cfg fs' w' l' f' rs' /\ log_of (l' ++ [(f', rs')]) = log_of (l ++ [(f, rs)]) ++ es /\
    same_rest w w' /\ wal_no f <= wal_no f' <= wal_no f + zlen es.
Proof.
  intros Hcfg. induction es as [|r es IH]; intros fs w l f rs Hlo Hfit Happ Hroom.
  { exists fs, w, l, f, rs. rewrite app_nil_r. change (zlen []) with 0. do 4 (split; [done|]). lia. }
  rewrite zlen_cons in Hroom. inversion Hfit as [|? ? Hr Hfit']; subst. pose proof Hr as [_ _ Hlen].
  apply appends_cons in Happ as [Hfst Happ]. pose proof (zlen_nonneg es) as Hz. pose proof (zlen_nonneg r.2) as Hz2.
  pose proof Hcfg as [Hws Hlim]. destruct r as [id bytes]. cbn [fst snd] in *. cbn [append_loop].
  rewrite (proj2 (Z.ltb_ge _ _)) by lia.
  rewrite (st_bind_ok _ _ _ _ _ (active_file_run _ _ _ _ _ _ Hlo)).
  destruct (loop_files _ _ _ _ _ _ Hlo) as (_ & _ & i & (_ & Hfo & _) & _). cbn [fst snd] in Hfo.
  unfold u32_max in *. rewrite wrap32_small by (unfold is_u32; lia).
  destruct (has_space_total _ _ _ (zlen bytes) Hfo) as [sp Hsp]. rewrite Hsp.
  assert (exists fs1 w1 l1 f1 rs1, (if sp then mret tt else roll_and_share cfg) (fs, w) = (Ok tt, (fs1, w1)) /\
    loop_ok cfg fs1 w1 l1 f1 rs1 /\ log_of (l1 ++ [(f1, rs1)]) = log_of (l ++ [(f, rs)]) /\ same_rest w w1 /\
    wal_no f <= wal_no f1 <= wal_no f + 1 /\ has_space f1 (zlen bytes) = Ok true)
    as (fs1 & w1 & l1 & f1 & rs1 & Hrun & Hlo1 & Hlog1 & Hsame1 & Hno1 & Hsp1).
  { destruct sp; [exists fs, w, l, f, rs; do 4 (split; [done|]); split; [lia|done]|].
    assert (rs <> []) as Hne.
    { intros ->. assert (has_space f (zlen bytes) = Ok true) as Ht; [|congruence].
      eapply (has_space_empty _ _ cfg (id, bytes) Hfo); [|done].
      destruct Hlo as [_ _ Hsz _ _ _]. apply Forall_app in Hsz as [_ Hsz]. inversion Hsz; subst. cbn in *. lia. }
    destruct (roll_and_share_ok cfg fs w l f rs Hcfg Hlo Hne ltac:(lia)) as (fs1 & w1 & f2 & f1 & Hrun & Hlo1 & _ & Hs & Hn).
    exists fs1, w1, (l ++ [(f2, rs)]), f1, []. split; [done|]. split; [done|].
    split; [by rewrite log_of_snoc, app_nil_r, !log_of_snoc|]. split; [done|]. split; [lia|].
    destruct (loop_files _ _ _ _ _ _ Hlo1) as (_ & _ & i1 & (_ & Hfo1 & _) & _).
    eapply (has_space_empty _ _ cfg (id, bytes) Hfo1); [|done].
    destruct Hlo1 as [_ _ Hsz _ _ _]. apply Forall_app in Hsz as [_ Hsz]. inversion Hsz; subst. cbn in *. lia. }
  rewrite <- Hlog1 in Hfst, Happ.
  rewrite bind_lift, (st_bind_ok _ _ _ _ _ Hrun). rstep.
  destruct (append_one cfg fs1 w1 l1 f1 rs1 (id, bytes) Hlo1 Hr Hsp1 Hfst) as (fs2 & w2 & f2 & Hrun2 & Hlo2 & Hs2 & Hn2).
  unfold st_try. cbn [fst snd] in Hrun2. rewrite Hrun2.
  rewrite log_of_snoc in Happ. rewrite <- app_assoc in Happ.
  destruct (IH fs2 w2 l1 f2 (rs1 ++ [(id, bytes)]) Hlo2 Hfit') as (fs3 & w3 & l3 & f3 & rs3 & Hrun3 & Hlo3 & Hlog3 & Hs3 & Hn3).
  - by rewrite log_of_snoc.
  - lia.
  - exists fs3, w3, l3, f3, rs3. split; [exact Hrun3|]. split; [done|]. split.
    + rewrite Hlog3, <- Hlog1, !log_of_snoc, <- !app_assoc. done.
    + split; [by eapply same_rest_trans; [|eapply same_rest_trans]|]. rewrite zlen_cons. lia.
Qed.

(** ** Between two actions *)
Record writer_ok (cfg : Cfg) (fs : Fs) (w : Writer) (l : list FileLogs) (f : WalFile) (rs : list Entry) : Prop := {
  wr_loop : loop_ok cfg fs w l f rs;
  wr_shared : shared_ok (base_path (wal w)) (wal w) (wal_locked w);
  wr_dur : is_dirty w = false -> dur_ok fs (f, rs);
}.

(** All logs of the set are on the device. *)
Definition durable (fs : Fs) (l : list FileLogs) : Prop := Forall (dur_ok fs) l.

Lemma writer_durable cfg fs w l f rs :
  writer_ok cfg fs w l f rs -> is_dirty w = false -> durable fs (l ++ [(f, rs)]).
Proof.
  intros [[_ _ _ _ Hd _] _ Hf] Hdirty. apply Forall_app. split; [done|]. apply Forall_singleton. auto.
Qed.

Lemma share_active_ok cfg fs w l f rs :
  loop_ok cfg fs w l f rs ->
  exists t, share_active (fs, w) = (Ok tt, (fs, set_locked t w)) /\
    shared_ok (base_path (wal w)) (wal w) t /\ Forall (fun f => len_max f = wal_size cfg) (files t).
Proof.
  intros Hlo. pose proof Hlo as [_ [Ha (s0 & t0 & w0 & w1 & Es & Et & Hv & Hn & Hw1) Hns] _ Hlsz _ _].
  destruct (loop_files _ _ _ _ _ _ Hlo) as (Hf & Hact & _).
  rewrite Hf in Es. apply app_inj_tail in Es as [<- <-].
  assert (length t0 = length (l.*1)) as Hl by (apply (f_equal length) in Hv; by rewrite !length_fmap in *).
  unfold share_active. rewrite (st_bind_ok _ _ _ _ _ (active_file_run _ _ _ _ _ _ Hlo)). rstep.
  rewrite Ha, Hact, Et. rewrite <- Hl, lookup_app_r, Nat.sub_diag by lia. cbn [lookup list_lookup].
  rewrite insert_app_r_alt, Nat.sub_diag by lia. cbn [insert list_insert].
  eexists. split; [reflexivity|].
  assert (Forall (fun f => len_max f = wal_size cfg) (t0 ++ [clone_from_no_mmap w1 f])) as Hlsz'.
  { rewrite Et in Hlsz. apply Forall_app in Hlsz as [Hx Hy]. apply Forall_app. split; [done|]. apply Forall_singleton.
    by inversion Hy. }
  split; [|exact Hlsz']. split; [cbn; congruence| |done].
  cbn [files set_files]. rewrite Hf, !fmap_app, Hv. cbn. do 2 f_equal. unfold view, clone_from_no_mmap. cbn.
  rewrite Hf in Hns. apply Forall_app in Hns as [_ Hns]. inversion Hns as [|? ? [Hvf Hpf] _]; subst.
  destruct Hw1 as [Hv1 Hp1]. rewrite Hn in Hp1. congruence.
Qed.

(** Header and data of the active file on the device. *)
Lemma flush_active_ok cfg fs w l f rs :
  loop_ok cfg fs w l f rs ->
  exists fs', on_set (on_active (update_header;; flush)) (fs, w) = (Ok tt, (fs', w)) /\
    loop_ok cfg fs' w l f rs /\ dur_ok fs' (f, rs).
Proof.
  intros Hlo. pose proof Hlo as [Hset Hsh Hsz Hlsz Hdur Hids].
  destruct (loop_files _ _ _ _ _ _ Hlo) as (Hf & Ha & i & Hat & Hmm).
  pose proof Hat as (Hdi & Hfo & _ & Hm0 & _). cbn [fst snd] in *. pose proof Hfo as [Hv Hl Hm _].
  assert (w = set_wal (set_files (l.*1 ++ [f]) (wal w)) w) as Ew by (rewrite <- Hf; by destruct w as [? ? [] ? ?]).
  exists (fs_sealed fs i f). split; [|split].
  - erewrite on_set_run; [by rewrite <- Ew|]. rewrite (on_active_last _ _ _ _ _ Hf Ha).
    rewrite (st_bind_ok _ _ _ _ _ (update_header_ok fs f i Hv Hmm ltac:(lia))).
    unfold flush. wstep. rewrite Hmm. reflexivity.
  - assert (set_core (fs_sealed fs i f) (set_files (l.*1 ++ [f]) (wal w)) (l ++ [(f, rs)])) as Hc.
    { eapply (core_replace_last fs _ _ l f rs f rs i); try done; [apply Hset| | |by right|apply Hat|by right|].
      - intros j Hj. unfold fs_sealed. rewrite fs_content_msync. by apply fs_content_store_ne.
      - unfold fs_sealed. rewrite fs_content_msync, fs_content_store. by apply file_ok_header.
      - destruct (so_core _ _ _ Hset) as [_ _ _ (no & next & Hch & _) _].
        apply chain_app in Hch as (_ & (_ & -> & Hem & _) & _). intros E. by destruct (Hem E). }
    assert (set_files (l.*1 ++ [f]) (wal w) = wal w) as E by (rewrite <- Hf; by destruct (wal w)).
    rewrite E in Hc. destruct Hset as [_ Ha' Hm']. split; [by split|done..| |done].
    pose proof (so_core _ _ _ (lo_set _ _ _ _ _ _ Hlo)) as [Hwf _ He (no & next & Hch & _) _].
    rewrite Forall_forall in Hdur. apply Forall_forall. intros e Hin. eapply dur_frame; [by apply Hdur|done|].
    intros j Hj. apply fs_durable_sealed. intros ->. apply list_elem_of_lookup in Hin as [k Hk].
    eapply (set_paths_ne _ _ _ _ _ k (length l) e (f, rs) He Hch).
    + by apply lookup_app_l_Some.
    + by rewrite lookup_app_r, Nat.sub_diag by lia.
    + apply lookup_lt_Some in Hk. lia.
    + cbn. by eapply fw_inj.
  - destruct rs as [|r0 rs]; [by left|]. right. exists i. split; [done|]. cbn [fst snd].
    destruct (fs_durable_sealed fs i f) as [-> _]. by apply file_ok_header.
Qed.

Lemma loop_rest cfg fs w w' l f rs :
  loop_ok cfg fs w l f rs -> wal w' = wal w -> wal_locked w' = wal_locked w -> loop_ok cfg fs w' l f rs.
Proof. intros [? ? ? ? ? ?] E1 E2. split; rewrite ?E1, ?E2; done. Qed.

Lemma loop_share cfg fs w t l f rs :
  loop_ok cfg fs w l f rs -> shared_ok (base_path (wal w)) (wal w) t ->
  Forall (fun f => len_max f = wal_size cfg) (files t) -> loop_ok cfg fs (set_locked t w) l f rs.
Proof.
  intros Hlo Hsh Hsz. pose proof (loop_files _ _ _ _ _ _ Hlo) as (Hf & _). destruct Hlo. split; cbn; try done.
  apply shared_half; [|done]. rewrite Hf. by destruct (l.*1).
Qed.

Lemma flush_blocking_ok cfg fs w l f rs :
  loop_ok cfg fs w l f rs -> (is_dirty w = false -> dur_ok fs (f, rs)) ->
  exists fs', flush_blocking (fs, w) = (Ok tt, (fs', set_dirty false w)) /\
    loop_ok cfg fs' w l f rs /\ dur_ok fs' (f, rs).
Proof.
  intros Hlo Hd. unfold flush_blocking. rewrite bind_get.
  destruct (is_dirty w) eqn:E; cbn [negb].
  - destruct (flush_active_ok _ _ _ _ _ _ Hlo) as (fs' & Hrun & Hlo' & Hd').
    rewrite (st_bind_ok _ _ _ _ _ Hrun). eauto.
  - exists fs. split; [|auto]. destruct w. cbn in *. by subst.
Qed.

(** The flush of an append, by sync mode. *)
Definition flush_mode (cfg : Cfg) (res : option Error) : WrSt (option Error) :=
  match sync cfg with
  | Immediate => e ← st_try flush_blocking; mret (or_else e res)
  | ImmediateAsync => e ← st_try (on_set (on_active flush_async)); mret (or_else e res)
  | IntervalMillis _ => mret res
  end.

Lemma flush_mode_ok cfg fs w l f rs :
  loop_ok cfg fs w l f rs -> is_dirty w = true ->
  exists fs' b, flush_mode cfg None (fs, w) = (Ok None, (fs', set_dirty b w)) /\
    loop_ok cfg fs' w l f rs /\ (b = false -> dur_ok fs' (f, rs)) /\ (sync cfg = Immediate -> b = false).
Proof.
  intros Hlo Hd. assert (set_dirty true w = w) as Ew by (destruct w; cbn in *; by subst).
  unfold flush_mode. destruct (sync cfg).
  - destruct (flush_blocking_ok _ _ _ _ _ _ Hlo ltac:(congruence)) as (fs' & Hrun & Hlo' & Hd').
    exists fs', false. unfold st_try. rstep. rewrite Hrun. auto.
  - exists fs, true. rewrite Ew. destruct (loop_files _ _ _ _ _ _ Hlo) as (Hf & Ha & i & Hat & Hmm).
    assert (wfile f = Some i) as Hwf by (rewrite <- Hmm; apply Hat).
    assert (on_set (on_active flush_async) (fs, w) = (Ok tt, (fs, w))) as Hrun.
    { erewrite on_set_run.
      2:{ rewrite (on_active_last _ _ _ _ _ Hf Ha). unfold flush_async. wstep. rewrite Hwf. wstep. reflexivity. }
      rewrite <- Hf. by destruct w as [? ? [] ? ?]. }
    unfold st_try. rstep. rewrite Hrun. done.
  - exists fs, true. rewrite Ew. done.
Qed.

Lemma space_left_total bytes f rs :
  file_ok bytes f rs -> exists n, space_left f = Ok n /\ (rs = [] -> n = len_max f - 32).
Proof.
  intros [Hv _ Hm Hd]. unfold space_left, data_end_or_offset. rewrite offset_logs_ok by done.
  destruct (data_end f) as [e|] eqn:E; step_res; (eexists; split; [reflexivity|]); intros ->.
  - destruct Hd as [_ Hd]. congruence.
  - rewrite wrap32_small by (unfold is_u32; lia). unfold sat_sub. lia.
Qed.

(** [Action::Append] on a batch that fits. *)
Lemma handle_append_ok cfg fs w l f rs es :
  cfg_ok cfg -> writer_ok cfg fs w l f rs -> Forall (fits cfg) es ->
  appends (log_of (l ++ [(f, rs)])) es -> wal_no f + zlen es + 1 < 10 ^ 16 ->
  exists fs' w' l' f' rs', handle_append cfg es (fs, w) = (Ok tt, (fs', w')) /\
    writer_ok cfg fs' w' l' f' rs' /\ log_of (l' ++ [(f', rs')]) = log_of (l ++ [(f, rs)]) ++ es /\
    out w' = out w ++ [RAck None; RCallback None] /\ meta w' = meta w /\
    base_path (wal w') = base_path (wal w) /\ (sync cfg = Immediate -> is_dirty w' = false) /\
    wal_no f <= wal_no f' <= wal_no f + zlen es + 1.
Proof.
  intros Hcfg [Hlo Hsh Hdur] Hfit Happ Hroom. pose proof Hcfg as [Hws _].
  destruct (append_loop_ok cfg es Hcfg fs w l f rs Hlo Hfit Happ ltac:(lia))
    as (fs1 & w1 & l1 & f1 & rs1 & Hrun1 & Hlo1 & Hlog1 & (Em & Ed & Eo & Eb) & Hn1).
  unfold handle_append. rewrite (st_bind_ok _ _ _ _ _ Hrun1).
  destruct (share_active_ok _ _ _ _ _ _ Hlo1) as (t & Hrun2 & Hsh2 & Hsz2). rewrite (st_bind_ok _ _ _ _ _ Hrun2).
  pose proof (loop_share _ _ _ _ _ _ _ Hlo1 Hsh2 Hsz2) as Hlo2.
  set (w3 := set_dirty true (add_reply (RAck None) (set_locked t w1))).
  rewrite bind_reply, bind_modify. fold w3.
  pose proof (loop_rest _ _ _ w3 _ _ _ Hlo2 eq_refl eq_refl) as Hlo3.
  destruct (flush_mode_ok _ _ _ _ _ _ Hlo3 eq_refl) as (fs4 & b & Hrun4 & Hlo4 & Hd4 & Himm).
  fold (flush_mode cfg None). rewrite (st_bind_ok _ _ _ _ _ Hrun4).
  set (w5 := add_reply (RCallback None) (set_dirty b w3)).
  rewrite bind_reply. fold w5.
  pose proof (loop_rest _ _ _ w5 _ _ _ Hlo4 eq_refl eq_refl) as Hlo5.
  rewrite (st_bind_ok _ _ _ _ _ (active_file_run _ _ _ _ _ _ Hlo5)).
  destruct (loop_files _ _ _ _ _ _ Hlo5) as (_ & _ & i & (_ & Hfo & _) & _). cbn [fst snd] in Hfo.
  destruct (space_left_total _ _ _ Hfo) as (n & Hn & Hemp). rewrite Hn, bind_lift.
  assert (out w5 = out w ++ [RAck None; RCallback None]) as Eo5
    by (cbn; rewrite Eo, <- app_assoc; reflexivity).
  destruct (Z.ltb_spec n (4 * 1024)) as [Hlt|Hge].
  - assert (rs1 <> []) as Hne.
    { intros E. specialize (Hemp E). destruct Hlo5 as [_ _ Hsz _ _ _]. apply Forall_app in Hsz as [_ Hsz].
      inversion Hsz as [|? ? Hx _]; subst. cbn in Hx. unfold MIN_WAL_SIZE in *. lia. }
    destruct (roll_and_share_ok cfg fs4 w5 l1 f1 rs1 Hcfg Hlo5 Hne ltac:(lia))
      as (fs6 & w6 & f2 & f6 & Hrun6 & Hlo6 & Hsh6 & (Em6 & Ed6 & Eo6 & Eb6) & Hn6).
    exists fs6, w6, (l1 ++ [(f2, rs1)]), f6, []. split; [done|].
    split; [split; [done|done|by left]|]. split; [rewrite log_of_snoc, app_nil_r, <- Hlog1; by rewrite !log_of_snoc|].
    rewrite Eo6, Em6, Eb6, Ed6. split; [done|]. split; [done|]. split; [done|]. split; [done|]. lia.
  - exists fs4, w5, l1, f1, rs1. split; [done|].
    split; [split; [done|done|done]|]. split; [done|]. split; [done|]. split; [done|]. split; [done|]. split; [done|]. lia.
Qed.

(** ** Metadata writes and the files of the set *)
Lemma wal_path_not_meta base n p :
  is_u64 n -> build_full_path base n = Ok p -> p <> meta_path base /\ p <> meta_tmp base.
Proof.
  intros Hn Hp. destruct (path_parts_ok _ _ _ Hn Hp) as (num & fname & E1 & E2 & _).
  assert (forall q, has_char "/"%char q = false -> p = base +:+ String "/" q -> q = fname) as Hq.
  { intros q Hc ->. rewrite rsplit_once_app in E1 by done. congruence. }
  split; intros E.
  - pose proof (Hq "meta.hql" eq_refl E) as <-. done.
  - unfold meta_tmp, meta_path in E. rewrite string_app_assoc in E.
    pose proof (Hq "meta.hql~" eq_refl E) as <-. done.
Qed.

(** A change of the file system that leaves the WAL files alone. *)
Lemma core_fs_frame fs fs' s l :
  set_core fs s l -> fs_wf fs' ->
  (forall n p, is_u64 n -> build_full_path (base_path s) n = Ok p -> dir fs' !! p = dir fs !! p /\
     forall j, dir fs !! p = Some j -> fs_content fs' j = fs_content fs j) ->
  set_core fs' s l.
Proof.
  intros [Hwf Hf He Hch Hdd] Hwf' Hfr. split; [done|done| |done|].
  - apply (entries_frame fs fs'); [done|]. intros e Hin. rewrite Forall_forall in He.
    destruct (He _ Hin) as (i & _ & _ & _ & _ & Hb & Hn & _). eapply Hfr; [|done]. unfold is_u64, u64_max in *. lia.
  - intros n p Hn Hp Hs. destruct (Hfr n p Hn Hp) as [E _]. rewrite E in Hs. by eapply Hdd.
Qed.

Lemma entry_is_wal fs base e : entry_ok fs base e -> is_u64 (wal_no e.1) /\ build_full_path base (wal_no e.1) = Ok (path e.1).
Proof. intros (i & _ & _ & _ & _ & Hb & Hn & _). unfold is_u64, u64_max in *. split; [lia|done]. Qed.

Lemma loop_write_meta cfg fs w l f rs m :
  loop_ok cfg fs w l f rs ->
  let fs' := write m (base_path (wal w)) fs in
  loop_ok cfg fs' w l f rs /\ (dur_ok fs (f, rs) -> dur_ok fs' (f, rs)).
Proof.
  intros [Hset Hsh Hsz Hlsz Hdur Hids] fs'. pose proof Hset as [Hc Ha Hm].
  destruct (write_unchecked_spec (base_path (wal w)) (serialize m) fs (sc_fs _ _ _ Hc)) as (Hwf' & _ & _ & Hq).
  fold (write m (base_path (wal w)) fs) in Hwf', Hq. fold fs' in Hwf', Hq.
  assert (forall e, e ∈ l ++ [(f, rs)] -> dur_ok fs e -> dur_ok fs' e) as Hd.
  { intros e Hin Hde. pose proof (sc_entries _ _ _ Hc) as He. rewrite Forall_forall in He.
    destruct (entry_is_wal _ _ _ (He _ Hin)) as [Hn Hb]. destruct (wal_path_not_meta _ _ _ Hn Hb) as [N1 N2].
    destruct (Hq _ N1 N2) as [Ed Ej]. eapply dur_frame; [done|done|]. intros j Hj. by apply Ej. }
  split; [|apply Hd; apply elem_of_app; right; by left]. split; [|done|done|done| |done].
  - split; [|done|done]. eapply core_fs_frame; [done|done|]. intros n p Hn Hp.
    destruct (wal_path_not_meta _ _ _ Hn Hp) as [N1 N2]. destruct (Hq _ N1 N2) as [Ed Ej].
    split; [done|]. intros j Hj. by apply Ej.
  - rewrite Forall_forall in Hdur. apply Forall_forall. intros e Hin. apply Hd; [apply elem_of_app; by left|by apply Hdur].
Qed.

(** ** Removing *)
Lemma derived_dur fs fs' ws l l' :
  derives fs fs' ws l l' -> Forall (dur_ok fs) l -> Forall (dur_ok fs') l'.
Proof.
  intros Hder Hdur. rewrite Forall_forall in Hdur. apply Forall_forall. intros e' Hin.
  destruct (Hder e' Hin) as [(_ & _ & ? & _)|(e & He & [Hp Hn Hl Hb Hem] & Hon)]; [by left|].
  destruct (Hon e ltac:(by left)) as [Hd Hj].
  destruct (Hdur e He) as [E|(i & Hi & Hf)]; [left; auto|].
  destruct Hb as [?|Hb]; [by left|]. right. exists i. rewrite Hp, Hd, (Hj _ Hi). auto.
Qed.

Lemma derived_sizes fs fs' ws l l' :
  derives fs fs' ws l l' -> Forall (fun e : FileLogs => len_max e.1 = ws) l -> Forall (fun e : FileLogs => len_max e.1 = ws) l'.
Proof.
  intros Hder Hsz. rewrite Forall_forall in Hsz. apply Forall_forall. intros e' Hin.
  destruct (Hder e' Hin) as [(_ & _ & _ & ->)|(e & He & [_ _ Hl _ _] & _)]; [done|]. rewrite Hl. auto.
Qed.

(** The numbers of the remaining files fit the copy of the readers. *)
Lemma derived_numbers fs fs' ws base l l' a b next next' :
  derives fs fs' ws l l' -> Forall (entry_ok fs base) l -> chain a next l -> chain b next' l' -> l <> [] -> l' <> [] ->
  (a <= b \/ b + zlen l' <= a) /\ b + zlen l' <= a + zlen l.
Proof.
  intros Hder He Ha Hb Hne Hne'.
  assert (1 <= a) as Ha1.
  { destruct l as [|[w0 rs0] l]; [done|]. destruct Ha as [<- _]. inversion He as [|? ? (i & _ & _ & _ & _ & _ & Hn & _) _].
    cbn in Hn. lia. }
  assert (0 < zlen l) by (destruct l; [done|]; rewrite zlen_cons; pose proof (zlen_nonneg l); lia).
  assert (0 < zlen l') by (destruct l'; [done|]; rewrite zlen_cons; pose proof (zlen_nonneg l'); lia).
  assert (forall k e', l' !! k = Some e' -> (zlen l' = 1 /\ b = 1 /\ k = 0%nat) \/ a <= b + Z.of_nat k < a + zlen l) as Hk.
  { intros k e' Hk. pose proof (chain_wal_no _ _ _ _ _ Hb Hk) as Hno.
    destruct (Hder e' ltac:(by eapply list_elem_of_lookup_2)) as [(E & Hw1 & _ & _)|(e & Hin & [_ Hn _ _ _] & _)].
    - left. rewrite E in Hk |- *. apply list_lookup_singleton_Some in Hk as [-> _]. change (zlen [e']) with 1. lia.
    - right. apply list_elem_of_lookup in Hin as [j Hj]. pose proof (chain_wal_no _ _ _ _ _ Ha Hj).
      apply lookup_lt_Some in Hj. unfold zlen. lia. }
  destruct (lookup_lt_is_Some_2 l' 0 ltac:(unfold zlen in *; lia)) as [e0 He0].
  destruct (lookup_lt_is_Some_2 l' (length l' - 1) ltac:(unfold zlen in *; lia)) as [e1 He1].
  destruct (Hk _ _ He0) as [?|?], (Hk _ _ He1) as [?|?]; unfold zlen in *; lia.
Qed.

(** After a deletion the copy is shared again and the state is well-formed. *)
Lemma remove_core cfg fs w l f rs fs' s' l' :
  loop_ok cfg fs w l f rs -> dur_ok fs (f, rs) -> is_dirty w = false -> set_ok fs' s' l' ->
  base_path s' = base_path (wal w) -> derives fs fs' (wal_size cfg) (l ++ [(f, rs)]) l' ->
  (forall r, r ∈ log_of l' -> r ∈ log_of (l ++ [(f, rs)])) ->
  exists t l0 f' rs', share_files (fs', set_wal s' w) = (Ok tt, (fs', set_locked t (set_wal s' w))) /\
    l' = l0 ++ [(f', rs')] /\ writer_ok cfg fs' (set_locked t (set_wal s' w)) l0 f' rs' /\ wal_no f' <= wal_no f.
Proof.
  intros Hlo Hdf Hdirty Hset' Hbase Hder Hsub. pose proof Hlo as [Hset Hsh Hsz Hlsz Hdur Hids].
  destruct (set_ok_last _ _ _ Hset') as (l0 & f' & rs' & i' & -> & _).
  destruct (core_consec _ _ _ (so_core _ _ _ Hset)) as (a & Ha & next & Hch & _).
  destruct (core_consec _ _ _ (so_core _ _ _ Hset')) as (b & Hb & next' & Hch' & _).
  destruct (half_shared_consec _ _ _ _ Hsh Ha) as [Hat Hnt].
  destruct (derived_numbers _ _ _ _ _ _ _ _ _ _ Hder (sc_entries _ _ _ (so_core _ _ _ Hset)) Hch Hch') as [Hab Hmax];
    [by destruct l|by destruct l0|].
  assert (zlen (files s') = zlen (l0 ++ [(f', rs')])) as Hzl.
  { rewrite (sc_files _ _ _ (so_core _ _ _ Hset')). unfold zlen. by rewrite length_fmap. }
  pose proof (core_named _ _ _ (so_core _ _ _ Hset')) as Hns. rewrite Hbase in Hns.
  destruct (share_update (base_path (wal w)) s' (wal_locked w) a b Hat Hnt Hb ltac:(rewrite Hzl; done) Hns)
    as (t & Ht & Hsh' & Hlen').
  assert (Forall (dur_ok fs') (l0 ++ [(f', rs')])) as Hd'.
  { eapply derived_dur; [done|]. apply Forall_app. split; [done|by apply Forall_singleton]. }
  apply Forall_app in Hd' as [Hd0 Hd1].
  exists t, l0, f', rs'. split; [|split; [done|split]].
  - unfold share_files. rewrite bind_get. cbn [wal wal_locked set_wal]. rewrite Ht, bind_lift. done.
  - rewrite <- Hbase in Hsh'. split; [|done|intros _; by apply Forall_singleton].
    split; cbn [wal wal_locked set_locked set_wal].
    + done.
    + apply shared_half; [|done]. rewrite (sc_files _ _ _ (so_core _ _ _ Hset')), fmap_app. by destruct (l0.*1).
    + by eapply derived_sizes.
    + apply Hlen'; [done|]. rewrite (sc_files _ _ _ (so_core _ _ _ Hset')). apply sizes_fst. by eapply derived_sizes.
    + done.
    + rewrite Forall_forall in Hids. apply Forall_forall. intros r Hr. by apply Hids, Hsub.
  - pose proof (chain_wal_no _ _ _ (length l) (f, rs) Hch ltac:(by rewrite lookup_app_r, Nat.sub_diag by lia)) as N1.
    pose proof (chain_wal_no _ _ _ (length l0) (f', rs') Hch' ltac:(by rewrite lookup_app_r, Nat.sub_diag by lia)) as N2.
    cbn [fst] in N1, N2. rewrite !zlen_app in Hmax. change (zlen [_]) with 1 in Hmax. unfold zlen in *. lia.
Qed.

(** [Action::Remove] when the deletion itself succeeds. *)
Lemma handle_remove_run cfg fs w l f rs from until last_log (P : list FileLogs -> Prop) :
  writer_ok cfg fs w l f rs ->
  (forall fs1, loop_ok cfg fs1 w l f rs ->
     exists fs' s' l', shift_delete_logs from until (wal_size cfg) (fs1, wal w) = (Ok tt, (fs', s')) /\
       set_ok fs' s' l' /\ P l' /\ base_path s' = base_path (wal w) /\
       derives fs1 fs' (wal_size cfg) (l ++ [(f, rs)]) l' /\
       (forall r, r ∈ log_of l' -> r ∈ log_of (l ++ [(f, rs)]))) ->
  exists fs' w' l' f' rs', handle_remove cfg from until last_log (fs, w) = (Ok tt, (fs', w')) /\
    writer_ok cfg fs' w' l' f' rs' /\ P (l' ++ [(f', rs')]) /\ is_dirty w' = false /\
    out w' = out w ++ [RAck None] /\ base_path (wal w') = base_path (wal w) /\
    vote (meta w') = vote (meta w) /\ wal_no f' <= wal_no f /\
    last_purged_log_id (meta w') = match last_log with Some _ => last_log | None => last_purged_log_id (meta w) end.
Proof.
  intros [Hlo Hsh Hdur] Hdel. unfold handle_remove.
  destruct (flush_blocking_ok _ _ _ _ _ _ Hlo Hdur) as (fs1 & Hrun1 & Hlo1 & Hd1).
  rewrite (st_bind_ok _ _ _ _ _ (try_ok _ _ _ _ Hrun1)), bind_get. cbv zeta.
  set (w1 := set_dirty false w). pose proof (loop_rest _ _ _ w1 _ _ _ Hlo1 eq_refl eq_refl) as Hlo1'.
  set (persist := if bool_decide (is_Some last_log) then wr_modify (set_purged last_log);; write_meta else mret tt).
  assert (exists fs2 w2, persist (fs1, w1) = (Ok tt, (fs2, w2)) /\ loop_ok cfg fs2 w2 l f rs /\ dur_ok fs2 (f, rs) /\
    wal w2 = wal w /\ wal_locked w2 = wal_locked w /\ is_dirty w2 = false /\ out w2 = out w /\ vote (meta w2) = vote (meta w) /\
    last_purged_log_id (meta w2) = match last_log with Some _ => last_log | None => last_purged_log_id (meta w) end)
    as (fs2 & w2 & Hrun2 & Hlo2 & Hd2 & E1 & E2 & E3 & E4 & E5 & E6).
  { unfold persist. destruct last_log as [p|].
    - rewrite bool_decide_eq_true_2 by eauto. rewrite bind_modify. unfold write_meta. rewrite bind_get.
      destruct (loop_write_meta cfg fs1 (set_purged (Some p) w1) l f rs (meta (set_purged (Some p) w1))) as [Hl Hd].
      { by eapply loop_rest. }
      eexists _, _. split; [reflexivity|]. split; [exact Hl|]. split; [by apply Hd|]. done.
    - rewrite bool_decide_eq_false_2 by (intros [? ?]; done). exists fs1, w1. auto 10. }
  rewrite (st_bind_ok _ _ _ _ _ Hrun2).
  destruct (Hdel fs2 (loop_rest _ _ _ w _ _ _ Hlo2 (eq_sym E1) (eq_sym E2))) as (fs3 & s3 & l3 & Hrun3 & Hset3 & HP & Hb3 & Hder & Hsub).
  rewrite <- E1 in Hrun3, Hb3. rewrite (st_bind_ok _ _ _ _ _ (try_ok _ _ _ _ (on_set_run _ _ _ _ _ _ Hrun3))).
  destruct (remove_core _ _ _ _ _ _ _ _ _ Hlo2 Hd2 E3 Hset3 Hb3 Hder Hsub) as (t & l0 & f' & rs' & Hrun4 & -> & Hok & Hno).
  rewrite (st_bind_ok _ _ _ _ _ Hrun4).
  exists fs3, (add_reply (RAck None) (set_locked t (set_wal s3 w2))), l0, f', rs'.
  split; [done|]. split; [|cbn; rewrite E4, E5, E6, Hb3, E1; auto 10].
  destruct Hok as [? ? ?]. split; [by eapply loop_rest|done|done].
Qed.

Lemma head_id_nonneg fs s l e : set_core fs s l -> head l = Some e -> 0 <= id_from e.1.
Proof.
  intros [_ _ _ (no & next & Hch & Hnn) _] He. destruct l as [|[w0 rs0] l]; [done|].
  injection He as <-. destruct Hch as (_ & Hif & _). cbn. lia.
Qed.

Lemma keep_from_sub until log r : r ∈ keep_from until log -> r ∈ log.
Proof. unfold keep_from. by intros [_ ?]%list_elem_of_filter. Qed.
Lemma keep_below_sub from log r : r ∈ keep_below from log -> r ∈ log.
Proof. unfold keep_below. by intros [_ ?]%list_elem_of_filter. Qed.

(** [purge]: the logs below [until] go, and the frontier is recorded. *)
Lemma handle_purge_ok cfg fs w l f rs until last_log :
  cfg_ok cfg -> writer_ok cfg fs w l f rs ->
  exists fs' w' l' f' rs', handle_remove cfg 0 until (Some last_log) (fs, w) = (Ok tt, (fs', w')) /\
    writer_ok cfg fs' w' l' f' rs' /\
    log_of (l' ++ [(f', rs')]) = keep_from until (log_of (l ++ [(f, rs)])) /\ is_dirty w' = false /\
    out w' = out w ++ [RAck None] /\ base_path (wal w') = base_path (wal w) /\
    vote (meta w') = vote (meta w) /\ wal_no f' <= wal_no f /\ last_purged_log_id (meta w') = Some last_log.
Proof.
  intros [Hws _] Hok. apply (handle_remove_run cfg fs w l f rs 0 until (Some last_log)
    (fun l' => log_of l' = keep_from until (log_of (l ++ [(f, rs)]))) Hok).
  intros fs1 [Hset _ _ _ _ _].
  destruct (purge_ok fs1 (wal w) _ 0 until (wal_size cfg) Hset) as (fs' & s' & l' & Hrun & Hset' & Hlog & Hb & Hder); [|done|].
  { intros e He. by eapply head_id_nonneg; [apply Hset|]. }
  exists fs', s', l'. do 5 (split; [done|]). intros r. rewrite Hlog. apply keep_from_sub.
Qed.

Lemma last_id_until cfg fs w l f rs from :
  loop_ok cfg fs w l f rs -> from < 2 ^ 64 -> (forall e, head (l ++ [(f, rs)]) = Some e -> id_from e.1 < from) ->
  id_until f <= u64_max.
Proof.
  intros [Hset _ _ _ _ Hids] H64 Hhd. pose proof (so_core _ _ _ Hset) as [_ _ He (no & next & Hch & _) _].
  rewrite Forall_forall in Hids. destruct rs as [|r0 rs].
  - pose proof Hch as Hch'. apply chain_app in Hch as (Hc0 & (_ & Hif & Hem & _) & Hne).
    destruct (Hem eq_refl) as [_ ->]. destruct l as [|e0 l].
    + specialize (Hhd _ eq_refl). cbn [fst] in Hhd. unfold u64_max. lia.
    + specialize (Hne ltac:(done)). destruct (last (log_of (e0 :: l))) as [x|] eqn:El.
      * apply Forall_app in He as [He _]. rewrite log_of_snoc, app_nil_r in Hids.
        pose proof (ids_from_last _ _ _ (log_of_ids _ _ _ _ _ He Hc0) El) as Hx.
        apply last_Some in El as [rs El]. specialize (Hids x ltac:(rewrite El; apply elem_of_app; right; by left)). lia.
      * apply last_None in El. destruct e0 as [w0 rs0]. inversion Hne as [|? ? Hx _]; subst. cbn in Hx. by apply app_eq_nil in El as [? _].
  - apply Forall_app in He as [_ He]. inversion He as [|? ? He1 _]; subst.
    destruct (id_until_in_log _ _ l f (r0 :: rs) He1 ltac:(done)) as (r & Hr & <-). specialize (Hids r Hr). lia.
Qed.

(** [truncate]: the logs from [from] on go.  A sealed file in the middle must not
    start at [from]. *)
Lemma handle_truncate_ok cfg fs w l f rs from :
  cfg_ok cfg -> writer_ok cfg fs w l f rs -> from < 2 ^ 64 ->
  Forall (fun e : FileLogs => id_from e.1 <> from) (drop 1 l) ->
  exists fs' w' l' f' rs', handle_remove cfg from u64_max None (fs, w) = (Ok tt, (fs', w')) /\
    writer_ok cfg fs' w' l' f' rs' /\
    log_of (l' ++ [(f', rs')]) = keep_below from (log_of (l ++ [(f, rs)])) /\ is_dirty w' = false /\
    out w' = out w ++ [RAck None] /\ base_path (wal w') = base_path (wal w) /\
    vote (meta w') = vote (meta w) /\ wal_no f' <= wal_no f /\
    last_purged_log_id (meta w') = last_purged_log_id (meta w).
Proof.
  intros [Hws _] Hok H64 Hmid. apply (handle_remove_run cfg fs w l f rs from u64_max None
    (fun l' => log_of l' = keep_below from (log_of (l ++ [(f, rs)]))) Hok).
  intros fs1 Hlo. pose proof Hlo as [Hset _ _ _ _ Hids].
  destruct (l ++ [(f, rs)]) as [|e0 l1] eqn:El; [by destruct l|].
  assert (exists fs' s' l', shift_delete_logs from u64_max (wal_size cfg) (fs1, wal w) = (Ok tt, (fs', s')) /\
    set_ok fs' s' l' /\ log_of l' = keep_below from (log_of (e0 :: l1)) /\ base_path s' = base_path (wal w) /\
    derives fs1 fs' (wal_size cfg) (e0 :: l1) l') as (fs' & s' & l' & Hrun & Hset' & Hlog & Hb & Hder).
  { destruct (Z.le_gt_cases from (id_from e0.1)) as [Hle|Hgt].
    - destruct (purge_ok fs1 (wal w) _ from u64_max (wal_size cfg) Hset) as (fs' & s' & l' & Hrun & Hset' & Hlog & Hb & Hder);
        [by intros e [= <-]|done|].
      exists fs', s', l'. do 2 (split; [done|]). split; [|done]. rewrite Hlog.
      rewrite Forall_forall in Hids. rewrite keep_from_none by (by intros r ?%Hids).
      symmetry. apply keep_below_none. intros r Hr.
      pose proof (so_core _ _ _ Hset) as [_ _ He (no & next & Hch & _) _].
      pose proof (ids_from_bounds _ _ _ (log_of_ids _ _ _ _ _ He Hch) Hr). destruct e0 as [w0 rs0].
      destruct Hch as (_ & Hif & _). cbn in Hle. lia.
    - apply (truncate_ok fs1 (wal w) (e0 :: l1) from u64_max (wal_size cfg) Hset); [by intros e [= <-]|done| |].
      + intros e He. rewrite <- El, last_snoc in He. injection He as <-. cbn.
        eapply (last_id_until _ _ _ _ _ _ from); [by rewrite <- El in Hlo || exact Hlo|done|]. rewrite El. by intros e [= <-].
      + rewrite <- El. rewrite length_app, Nat.add_sub, take_app_length.
        destruct l as [|e1 l]; [constructor|]. injection El as -> _. constructor; [lia|done]. }
  exists fs', s', l'. do 5 (split; [done|]). intros r. rewrite Hlog. apply keep_below_sub.
Qed.

(** [Action::Vote]: the vote is in the metadata, in memory and in the file. *)
Lemma handle_vote_ok cfg fs w l f rs value :
  writer_ok cfg fs w l f rs ->
  exists fs' w', handle_vote value (fs, w) = (Ok tt, (fs', w')) /\ writer_ok cfg fs' w' l f rs /\
    meta w' = mkMeta (last_purged_log_id (meta w)) (Some value) /\ out w' = out w ++ [RAck None] /\
    is_dirty w' = false /\ wal w' = wal w /\
    exists i, dir fs' !! meta_path (base_path (wal w)) = Some i /\
      fs_durable fs' i = meta_bytes (serialize (meta w')) /\ fs_content fs' i = meta_bytes (serialize (meta w')).
Proof.
  intros [Hlo Hsh Hdur]. unfold handle_vote.
  destruct (flush_blocking_ok _ _ _ _ _ _ Hlo Hdur) as (fs1 & Hrun1 & Hlo1 & Hd1).
  rewrite (st_bind_ok _ _ _ _ _ Hrun1), bind_modify. unfold write_meta. rewrite bind_assoc, bind_get.
  cbn [meta set_meta set_dirty]. set (m := mkMeta _ _).
  destruct (loop_write_meta cfg fs1 w l f rs m Hlo1) as [Hlo2 Hd2].
  exists (write m (base_path (wal w)) fs1), (add_reply (RAck None) (set_meta m (set_dirty false w))).
  split; [done|]. split.
  { split; [by eapply loop_rest|done|]. intros _. auto. }
  do 4 (split; [done|]).
  destruct (write_unchecked_spec (base_path (wal w)) (serialize m) fs1) as (_ & _ & (i & Hi & Hc & Hdd) & _).
  { apply Hlo1. }
  exists i. done.
Qed.

(** [Action::Sync]: everything is on the device. *)
Lemma handle_sync_ok cfg fs w l f rs :
  writer_ok cfg fs w l f rs ->
  exists fs', flush_blocking (fs, w) = (Ok tt, (fs', set_dirty false w)) /\
    writer_ok cfg fs' (set_dirty false w) l f rs /\ durable fs' (l ++ [(f, rs)]).
Proof.
  intros [Hlo Hsh Hdur]. destruct (flush_blocking_ok _ _ _ _ _ _ Hlo Hdur) as (fs1 & Hrun1 & Hlo1 & Hd1).
  exists fs1. split; [done|]. assert (writer_ok cfg fs1 (set_dirty false w) l f rs) as Hok
    by (split; [by eapply loop_rest|done|done]).
  split; [done|]. by eapply writer_durable.
Qed.

(** ** Entries that are too large *)

(** With the feature, an entry over the limit fails the append and leaves the
    log and the writer as they were; without it the writer panics. *)
Lemma append_oversized cfg fs w id bytes es :
  data_len_limit cfg < zlen bytes ->
  append_loop cfg ((id, bytes) :: es) (fs, w) =
    if oversized_entry_error then (Ok (Some EWalSizeExceeded), (fs, w)) else (Panic, (fs, w)).
Proof.
  intros Hl. cbn [append_loop]. rewrite (proj2 (Z.ltb_lt _ _)) by done. by destruct oversized_entry_error.
Qed.

(** ** The state the task starts with *)
(** No file below any path looks like a WAL file. *)
Definition no_wal (fs : Fs) : Prop := forall p i, dir fs !! p = Some i -> ends_with p ".wal" = false.

Lemma wal_path_suffix base n p : build_full_path base n = Ok p -> ends_with p ".wal" = true.
Proof. intros (pad & _ & ->)%build_full_path_shape. by repeat apply ends_with_app. Qed.

Lemma no_wal_free fs base n p : no_wal fs -> build_full_path base n = Ok p -> dir fs !! p = None.
Proof.
  intros Hno Hp%wal_path_suffix. destruct (dir fs !! p) as [i|] eqn:E; [|done]. apply Hno in E. congruence.
Qed.

Lemma no_wal_names fs base : no_wal fs -> filter (fun n => ends_with n ".wal" = true) (dir_names fs base) = [].
Proof.
  intros Hno. apply filter_none. intros n Hn He. unfold dir_names in Hn. apply list_elem_of_omap in Hn as ([p i] & Hin & Hs).
  apply elem_of_map_to_list in Hin. cbn in Hs. apply strip_prefix_Some in Hs as ->. apply Hno in Hin.
  rewrite string_app_assoc in Hin. rewrite !ends_with_app in Hin; done.
Qed.

Lemma empty_core fs base : fs_wf fs -> no_wal fs -> set_core fs (mkSet None base []) [].
Proof.
  intros Hwf Hd. split; [done|done|constructor|exists 0, 0; done|].
  intros n p _ Hp [x Hx]. cbn in Hp. rewrite (no_wal_free _ _ _ _ Hd Hp) in Hx. done.
Qed.

(** Spawning on a directory without WAL files: one empty file, mapped by the task. *)
Lemma spawn_empty `{LogIdCodec} fs base size snc m :
  fs_wf fs -> no_wal fs -> MIN_WAL_SIZE <= size < u32_max ->
  exists fs' w w' f, spawn base size false false m fs = (Ok w, fs') /\
    on_set (on_active mmap_mut_op) (fs', w) = (Ok tt, (fs', w')) /\
    writer_ok (mkCfg snc size (size - 34)) fs' w' [] f [] /\ wal_no f = 1 /\
    meta w' = m /\ out w' = [] /\ base_path (wal w') = base /\
    ends_with (path f) ".wal" = true /\ forall q, q <> path f -> dir fs' !! q = dir fs !! q.
Proof.
  intros Hwf Hd Hws. destruct (path_exists base 1 ltac:(lia)) as [p Hp].
  pose proof (empty_core fs base Hwf Hd) as Hc.
  pose proof (no_wal_free _ _ _ _ Hd Hp) as Hfree.
  pose proof (core_add_file fs (mkSet None base []) [] 0 0 1 p size 0 Hc I ltac:(lia) ltac:(lia) ltac:(unfold u64_max; lia) Hp Hws
    ltac:(constructor) ltac:(by left) Hfree) as Hc2. cbv zeta in Hc2. cbn [app fmap list_fmap] in Hc2.
  set (f0 := fresh 1 p size) in *. set (fs' := fs_created fs f0) in *.
  set (f := set_ids 0 0 (set_maps None (Some (next_ino fs)) (Some (next_ino fs)) f0)) in *.
  set (w := mkWriter m (mkSet (Some 0%nat) base [f0]) (mkSet (Some 0%nat) base [f0]) false []).
  set (w' := set_wal (mkSet (Some 0%nat) base [f]) w).
  exists fs', w, w', f. split; [|split; [|split; [|do 4 (split; [done|]); split; [by eapply wal_path_suffix|]]]].
  - unfold spawn, read. rstep. rewrite no_wal_names by done. change (merge_sort string_le []) with (@nil string). cbn [read_files].
    rewrite (new_ok _ _ _ p) by (done || lia). fold f0.
    rewrite (create_in_ok fs f0) by (done || (cbn; unfold MIN_WAL_SIZE in *; lia)). fold fs'.
    unfold on_local, check_integrity. rstep. unfold s_get. cbn [fst snd files]. unfold check_data_bounds.
    cbn [len_max f0 data_end fresh default from_option]. rewrite (proj2 (Z.ltb_ge _ _)) by (unfold MIN_WAL_SIZE in *; lia).
    unfold fix_last_purged. destruct m as [[?|] ?]; reflexivity.
  - erewrite on_set_run; [reflexivity|]. rewrite (on_active_last _ _ _ [] f0) by done.
    rewrite (mmap_mut_op_ok fs' f0 (next_ino fs)); [reflexivity|apply lookup_insert_eq|done].
  - assert (shared_ok base (mkSet (Some 0%nat) base [f]) (mkSet (Some 0%nat) base [f0])) as Hsh.
    { split; [done|done|]. cbn. by apply Forall_singleton. }
    split; [|done|by left]. split; cbn [wal wal_locked w' w set_wal base_path].
    + apply (set_ok_of_last _ _ [] f []); [|done|cbn; eauto]. destruct Hc2. by split.
    + by apply shared_half.
    + by apply Forall_singleton.
    + by apply Forall_singleton.
    + constructor.
    + constructor.
  - intros q Hq. cbn in Hq. unfold fs', fs_created. cbn. by rewrite lookup_insert_ne.
Qed.

End WalWriterSpec.
