(* ===== verification/WalReader.v ===== *)
(** A reader task of a log store: [hiqlite-wal/src/reader.rs].

    A reader keeps its own copy of the file set with read mappings and the memo of
    the last log it read; before every request it takes over the file list the
    writer shares.  What it sends to the requester is a list of messages; the
    closing [None] is the end of the list. *)
From stdpp Require Import base gmap strings list numbers sorting.
From Stdlib Require Import Ascii Strings.Byte.
From S2P Require Import Prelude Text WalBase WalFile WalFileSpec WalSet WalSetSpec WalPurge WalMeta.

#[local] Open Scope Z_scope.

Inductive Msg : Type :=
| Data (bytes : list byte)
| Failed (e : Error).

Record LogState : Type := mkLogState {
  ls_last_purged : option (list byte);
  ls_last_log : option (list byte);
}.

Record Reader : Type := mkReader { rd_wal : WalFileSet; rd_memo : option LogReadMemo }.

Section WalReader.
Context `{Checksum}.

(** [wal.active = wal_upd.active; wal.clone_files_from_no_mmap(&wal_upd.files)] *)
Definition refresh (locked : WalFileSet) (r : Reader) : Res Error Reader :=
  t ← clone_files_from_no_mmap (set_active (active locked) (rd_wal r)) (files locked);
  Ok (mkReader t (rd_memo r)).

(** [log.mmap().unwrap()] *)
Definition mapped_file (fs : Fs) (log : WalFile) : Res Error WalFile :=
  match mmap_op (fs, log) with
  | (Ok _, (_, log)) => Ok log
  | (OutOfFuel, _) => OutOfFuel
  | _ => Panic
  end.

Definition data_of (buf : list (Z * list byte)) : list Msg := (fun e => Data e.2) <$> buf.

(** The loop over the files: the files with their new mappings, the memo and the
    messages sent. *)
Fixpoint logs_loop (fs : Fs) (until from_next : Z) (memo : option LogReadMemo) (l : list WalFile)
    : Res Error (list WalFile * option LogReadMemo * list Msg) :=
  match l with
  | [] => Ok ([], memo, [])
  | log :: rest =>
      if id_until log <? from_next then
        '(rest, memo, ms) ← logs_loop fs until from_next memo rest;
        Ok (log :: rest, memo, ms)
      else
        log ← mapped_file fs log;
        if id_until log <? until then
          match read_logs fs log from_next (id_until log) memo with
          | Ok (_, memo, buf) =>
              '(rest, memo, ms) ← logs_loop fs until (wrap64 (id_until log + 1)) memo rest;
              Ok (mmap_drop log :: rest, memo, data_of buf ++ ms)
          | Err e => Ok (log :: rest, memo, [Failed e])
          | Panic => Panic
          | OutOfFuel => OutOfFuel
          end
        else
          match read_logs fs log from_next until memo with
          | Ok (_, memo, buf) => Ok (log :: rest, memo, data_of buf)
          | Err e => Ok (log :: rest, memo, [Failed e])
          | Panic => Panic
          | OutOfFuel => OutOfFuel
          end
  end.

(** [Action::Logs] *)
Definition handle_logs (fs : Fs) (locked : WalFileSet) (from until : Z) (r : Reader)
    : Res Error (Reader * list Msg) :=
  r ← refresh locked r;
  '(l, memo, ms) ← logs_loop fs until from (rd_memo r) (files (rd_wal r));
  Ok (mkReader (set_files l (rd_wal r)) memo, ms).

(** The id [Action::LogState] looks for. *)
Definition latest_log_id (l : list WalFile) : Res Error (option Z) :=
  file ← unwrap (last l);
  if bool_decide (is_Some (data_start file)) then Ok (Some (id_until file))
  else if (1 <? length l)%nat then
    prev ← unwrap (l !! (length l - 2)%nat); Ok (Some (id_until prev))
  else Ok None.

(** Reads one log of the file at position [k]; the read is [unwrap]ped. *)
Definition read_one (fs : Fs) (k : nat) (id : Z) (unmap : bool) (r : Reader) : Res Error (Reader * list Entry) :=
  f ← unwrap (files (rd_wal r) !! k);
  f ← mapped_file fs f;
  match read_logs fs f id id (rd_memo r) with
  | Ok (_, memo, buf) =>
      let f := if unmap then mmap_drop f else f in
      Ok (mkReader (set_files (<[k := f]> (files (rd_wal r))) (rd_wal r)) memo, buf)
  | OutOfFuel => OutOfFuel
  | _ => Panic
  end.

(** [Action::LogState] *)
Definition handle_log_state (fs : Fs) (locked : WalFileSet) (m : Metadata) (r : Reader)
    : Res Error (Reader * LogState) :=
  r ← refresh locked r;
  let l := files (rd_wal r) in
  latest ← latest_log_id l;
  match latest with
  | None => Ok (r, mkLogState (last_purged_log_id m) None)
  | Some id =>
      a ← unwrap (active (rd_wal r));
      f ← unwrap (l !! a);
      '(r, buf) ←
        (if bool_decide (is_Some (data_start f)) then read_one fs a id false r
         else if (1 <? length l)%nat then read_one fs (length l - 2) id true r
         else Ok (r, []));
      e ← unwrap (head buf);
      Ok (r, mkLogState (last_purged_log_id m) (Some e.2))
  end.

(** [Action::Vote] *)
Definition handle_vote_read (m : Metadata) : option (list byte) := vote m.

(** * What a reader sees *)

(** The reader's copy [w] of the file that holds the logs [rs]: its mapping, where
    it has one, is the file that is in the directory now. *)
Definition reads (fs : Fs) (w : WalFile) (rs : list Entry) : Prop :=
  exists i, dir fs !! path w = Some i /\ file_ok (fs_content fs i) w rs /\
    (mmap w = None \/ mmap w = Some i) /\ mmap_mut w = None.

(** The list of files a reader has, with the logs of each. *)
Definition reader_files (fs : Fs) (memo : option LogReadMemo) (l : list FileLogs) : Prop :=
  Forall (fun e => reads fs e.1 e.2 /\ memo_ok e.1 e.2 memo) l.

Lemma mapped_file_ok fs w rs :
  reads fs w rs -> exists w', mapped_file fs w = Ok w' /\ view w' = view w /\ reads fs w' rs /\
    mapped fs w' = Some (default [] (fs_content fs <$> dir fs !! path w)) /\
    file_ok (default [] (fs_content fs <$> dir fs !! path w)) w' rs /\ reads fs (mmap_drop w') rs.
Proof.
  intros (i & Hd & Hfo & Hm & Hmm). unfold mapped_file, mmap_op. wstep. rewrite Hd. cbn [fmap option_fmap option_map default].
  assert (forall m, (m = None \/ m = Some i) -> reads fs (set_maps m (mmap_mut w) (wfile w) w) rs) as Hr.
  { intros m Hm'. exists i. split; [done|]. split; [destruct Hfo; by split|done]. }
  destruct Hm as [E|E]; rewrite E; wstep.
  - unfold fs_open. rewrite Hd. wstep. unfold w_modify. wstep. eexists. split; [reflexivity|]. split; [done|].
    split; [apply Hr; auto|]. split; [done|]. split; [destruct Hfo; by split|]. apply (Hr None). by left.
  - exists w. split; [done|]. split; [done|]. split; [exists i; auto|].
    split; [unfold mapped; by rewrite E|]. split; [done|]. apply (Hr None). by left.
Qed.

Lemma memo_ok_view w w' rs memo : view w' = view w -> memo_ok w rs memo -> memo_ok w' rs memo.
Proof. intros Hv. injection Hv as _ E1 _ E2 E3 E4 _. unfold memo_ok. by rewrite E1, E2, E3, E4. Qed.

Lemma memo_other w rs m : last_wal_no m <> wal_no w -> memo_ok w rs (Some m).
Proof. intros Hne. cbn. intros E. congruence. Qed.

Lemma select_cut from u1 u2 i rs :
  ids_from i rs -> i + zlen rs - 1 <= u1 -> i + zlen rs - 1 <= u2 -> select from u1 rs = select from u2 rs.
Proof.
  unfold select. intros Hids Hu1 Hu2. apply filter_ext_in. intros r Hr.
  pose proof (ids_from_bounds _ _ _ Hids Hr). lia.
Qed.

Lemma data_of_app a b : data_of (a ++ b) = data_of a ++ data_of b.
Proof. apply fmap_app. Qed.

Lemma reads_ids fs w rs : reads fs w rs -> ids_from (id_from w) rs /\ (rs <> [] -> id_until w = id_from w + zlen rs - 1).
Proof.
  intros (i & _ & Hfo & _). split; [by eapply file_ok_ids|]. intros Hne.
  destruct Hfo as [_ _ _ Hd]. destruct rs; [done|]. by destruct Hd as (ds & _ & _ & _ & _ & _ & ?).
Qed.

Lemma reader_log_ids fs memo no next l : reader_files fs memo l -> chain no next l -> ids_from next (log_of l).
Proof.
  revert no next. induction l as [|[w rs] l IH]; intros no next; [done|].
  intros Hr (_ & Hf & _ & Hc). inversion Hr as [|? ? [Hx _] Hr']; subst.
  apply (proj2 (ids_from_app (id_from w) rs (log_of l))). split; [by eapply reads_ids|eauto].
Qed.

Lemma reader_memo_swap fs memo m no next l :
  reader_files fs memo l -> chain no next l -> ~ no <= last_wal_no m < no + zlen l -> reader_files fs (Some m) l.
Proof.
  intros Hr Hc Hm. apply Forall_lookup. intros k e Hk. pose proof (chain_wal_no _ _ _ _ _ Hc Hk) as Hn.
  unfold reader_files in Hr. rewrite Forall_lookup in Hr. destruct (Hr _ _ Hk) as [Hx _]. split; [done|].
  apply memo_other. apply lookup_lt_Some in Hk. unfold zlen in Hm. lia.
Qed.

(** Reading one file of the list, and what it leaves behind. *)
Lemma read_file_ok fs w rs memo from u :
  reads fs w rs -> memo_ok w rs memo -> rs <> [] -> id_from w <= from <= u -> u <= id_until w ->
  exists w' o m, mapped_file fs w = Ok w' /\ view w' = view w /\
    read_logs fs w' from u memo = Ok (o, Some m, select from u rs) /\ last_wal_no m = wal_no w /\
    (forall w2, w2 = w' \/ w2 = mmap_drop w' -> view w2 = view w /\ reads fs w2 rs /\ memo_ok w2 rs (Some m)).
Proof.
  intros Hr Hm Hne Hf Hu. destruct (mapped_file_ok _ _ _ Hr) as (w' & Hrun & Hv & Hr' & Hmap & Hfo & Hrd).
  pose proof Hv as Hv'. injection Hv' as Ev En Ep Ef Eu Ed Ee.
  pose proof (read_logs_ok fs w' _ rs from u memo Hfo Hmap Hne ltac:(lia) ltac:(lia) ltac:(lia) (memo_ok_view _ _ _ _ Hv Hm)) as Hread.
  exists w', (read_result w' rs from u).1.1, (mkMemo (wal_no w') (id_from w') u
    (rec_end (default 32 (data_start w')) (take (Z.to_nat (u - id_from w' + 1)) rs) - 1)).
  split; [done|]. split; [done|]. split; [done|]. split; [done|].
  pose proof (read_result_memo w' rs from u ltac:(lia)) as Hmm.
  intros w2 [->| ->]; [auto|]. split; [done|]. split; [done|]. eapply memo_ok_view; [|exact Hmm]. done.
Qed.

(** [Action::Logs] on an up-to-date file list: exactly the logs of the range, in
    order, whatever the memo and the mappings were. *)
Lemma logs_loop_ok fs until : forall l no next from memo,
  reader_files fs memo l -> chain no next l -> 0 <= next -> next + zlen (log_of l) < 2 ^ 64 ->
  next <= from <= until -> until < next + zlen (log_of l) ->
  exists l' m, logs_loop fs until from memo (l.*1) = Ok (l'.*1, Some m, data_of (select from until (log_of l))) /\
    view <$> l'.*1 = view <$> l.*1 /\ l'.*2 = l.*2 /\ reader_files fs (Some m) l' /\
    no <= last_wal_no m < no + zlen l.
Proof.
  induction l as [|[w rs] l IH]; intros no next from memo Hr Hc Hnn H64 Hf Hu.
  { change (zlen (log_of [])) with 0 in Hu. lia. }
  change (log_of ((w, rs) :: l)) with (rs ++ log_of l) in *. rewrite zlen_app in H64, Hu.
  pose proof Hr as Hr0. inversion Hr as [|? ? [Hw Hm] Hrl]; subst. cbn [fst snd] in Hw, Hm.
  destruct Hc as (Hno & Hif & Hemp & Hc). destruct (reads_ids _ _ _ Hw) as [Hids Hun].
  pose proof (reader_log_ids _ _ _ _ _ Hrl Hc) as Hidl. pose proof (zlen_nonneg rs). pose proof (zlen_nonneg (log_of l)).
  assert (rs <> []) as Hne.
  { intros ->. destruct (Hemp eq_refl) as [-> _]. change (zlen (log_of [])) with 0 in *. change (zlen []) with 0 in *. lia. }
  specialize (Hun Hne). rewrite Hif in Hids. rewrite select_app, data_of_app, zlen_cons.
  cbn [fmap list_fmap fst logs_loop].
  destruct (Z.ltb_spec (id_until w) from) as [Hskip|Hread].
  - destruct (IH (no + 1) (next + zlen rs) from memo Hrl Hc) as (l' & m & Hrun & Hv & H2 & Hrl' & Hmn); [lia..|].
    cbn [fmap list_fmap] in Hrun. rewrite Hrun. step_res.
    rewrite (select_none from until next rs) by (done || lia).
    exists ((w, rs) :: l'), m. split; [done|]. split; [cbn in *; by rewrite Hv|]. split; [cbn in *; by rewrite H2|].
    split; [|lia]. constructor; [|done]. split; [done|]. apply memo_other. cbn. lia.
  - destruct (Z.ltb_spec (id_until w) until) as [Hpart|Hlast].
    + destruct (read_file_ok fs w rs memo from (id_until w) Hw Hm Hne ltac:(lia) ltac:(lia))
        as (w' & o & m0 & Hmap & Hv0 & Hrd & Hn0 & Hpost).
      rewrite Hmap. step_res. pose proof Hv0 as Hv0'. injection Hv0' as _ _ _ _ Eu _ _. rewrite Eu.
      rewrite (proj2 (Z.ltb_lt _ _)) by lia. rewrite Hrd.
      rewrite wrap64_small by (unfold is_u64; lia). replace (id_until w + 1) with (next + zlen rs) by lia.
      pose proof (reader_memo_swap _ _ m0 _ _ _ Hrl Hc ltac:(lia)) as Hrl2.
      destruct (IH (no + 1) (next + zlen rs) (next + zlen rs) (Some m0) Hrl2 Hc) as (l' & m & Hrun & Hv & H2 & Hrl' & Hmn); [lia..|].
      cbn [fmap list_fmap] in Hrun. rewrite Hrun. step_res.
      destruct (Hpost (mmap_drop w') (or_intror eq_refl)) as (Hv1 & Hr1 & _).
      exists ((mmap_drop w', rs) :: l'), m. split; [|split; [cbn in *; by rewrite Hv, Hv1|split; [cbn in *; by rewrite H2|split; [|lia]]]].
      * rewrite (select_cut from (id_until w) until next rs) by (done || lia).
        assert (select (next + zlen rs) until (log_of l) = select from until (log_of l)) as ->; [|done].
        apply filter_ext_in. intros r Hr2. pose proof (ids_from_bounds _ _ _ Hidl Hr2). lia.
      * constructor; [|done]. split; [done|]. apply memo_other.
        injection Hv1 as _ En1 _ _ _ _ _. change (wal_no (mmap_drop w', rs).1) with (wal_no w'). lia.
    + destruct (read_file_ok fs w rs memo from until Hw Hm Hne ltac:(lia) ltac:(lia))
        as (w' & o & m0 & Hmap & Hv0 & Hrd & Hn0 & Hpost).
      rewrite Hmap. step_res. pose proof Hv0 as Hv0'. injection Hv0' as _ _ _ _ Eu _ _. rewrite Eu.
      rewrite (proj2 (Z.ltb_ge _ _)) by lia. rewrite Hrd.
      rewrite (select_none from until (next + zlen rs) (log_of l)) by (done || lia). rewrite app_nil_r.
      destruct (Hpost w' (or_introl eq_refl)) as (Hv1 & Hr1 & Hm1). pose proof (zlen_nonneg l).
      exists ((w', rs) :: l), m0. split; [done|]. split; [cbn; by rewrite Hv1|]. split; [done|]. split; [|lia].
      constructor; [done|]. eapply reader_memo_swap; [done|done|lia].
Qed.

(** ** A reader next to the writer *)

(** The reader's copy may be behind the set [l] that the writer shares as [t];
    what it holds of files that still exist is not stale. *)
Record reader_ok (fs : Fs) (base : string) (l : list FileLogs) (t : WalFileSet) (r : Reader) : Prop := {
  ro_len : len_max <$> files t = len_max <$> l.*1;
  ro_numbers : exists a, consec a (files (rd_wal r)) /\
    forall b next, chain b next l -> a <= b \/ b + zlen l <= a;
  ro_named : Forall (named base) (files (rd_wal r));
  ro_maps : forall f e, f ∈ files (rd_wal r) -> e ∈ l -> wal_no f = wal_no e.1 ->
    len_max f = len_max e.1 /\ mmap_mut f = None /\ (mmap f = None \/ mmap f = dir fs !! path e.1);
  ro_memo : Forall (fun e : FileLogs => memo_ok e.1 e.2 (rd_memo r)) l;
}.

Lemma clone_lookup b k s j w :
  consec b k -> consec b s -> (length k <= length s)%nat ->
  (zip_with clone_from_no_mmap k s ++ (clone_no_mmap <$> drop (length k) s)) !! j = Some w ->
  exists u, s !! j = Some u /\
    ((exists f, f ∈ k /\ wal_no f = wal_no u /\ w = clone_from_no_mmap f u) \/ w = clone_no_mmap u).
Proof.
  intros Hk Hs Hl [Hj|[Hge Hj]]%lookup_app_Some.
  - apply lookup_zip_with_Some in Hj as (f & u & -> & Hf & Hu). exists u. split; [done|]. left. exists f.
    split; [by eapply list_elem_of_lookup_2|]. split; [|done]. rewrite (Hk _ _ Hf), (Hs _ _ Hu). done.
  - rewrite length_zip_with_l in * by lia. rewrite list_lookup_fmap, lookup_drop in Hj.
    destruct (s !! _) as [u|] eqn:E; [|done]. injection Hj as <-. exists u. split; [|by right].
    by replace j with (length k + (j - length k))%nat by lia.
Qed.

Lemma core_chain_consec b next l : chain b next l -> consec b (l.*1).
Proof.
  intros Hc k w Hk. rewrite list_lookup_fmap in Hk. destruct (l !! k) eqn:E; [|done]. injection Hk as <-.
  by eapply chain_wal_no.
Qed.

Lemma file_ok_view bytes w w' rs : view w' = view w -> len_max w' = len_max w -> file_ok bytes w rs -> file_ok bytes w' rs.
Proof.
  intros Hv Hl [? ? ? Hd]. injection Hv as E1 _ _ E2 E3 E4 E5. split; try congruence.
  unfold data_ok in *. by rewrite E2, E3, E4, E5.
Qed.

(** A refresh brings the reader's files in line with the set. *)
Lemma refresh_ok fs s l t r :
  set_core fs s l -> shared_ok (base_path s) s t -> reader_ok fs (base_path s) l t r ->
  exists r' l', refresh t r = Ok r' /\ files (rd_wal r') = l'.*1 /\ l'.*2 = l.*2 /\
    view <$> l'.*1 = view <$> l.*1 /\ len_max <$> l'.*1 = len_max <$> l.*1 /\ reader_files fs (rd_memo r') l' /\
    rd_memo r' = rd_memo r /\ active (rd_wal r') = active s /\
    (forall e e', e ∈ l' -> e' ∈ l -> wal_no e.1 = wal_no e'.1 -> mmap_mut e.1 = None /\ (mmap e.1 = None \/ mmap e.1 = dir fs !! path e'.1)).
Proof.
  intros Hc [Ha Hv Hn] [Hlen (a & Hca & Hab) Hnr Hmaps Hmemo]. pose proof Hc as [_ Hf He (b & next & Hch & _) _].
  pose proof (core_chain_consec _ _ _ Hch) as Hcb. rewrite Hf in Hv.
  pose proof (view_consec _ _ _ Hv Hcb) as Hct.
  assert (length (files t) = length l) as Hlt by (apply (f_equal length) in Hlen; by rewrite !length_fmap in Hlen).
  pose proof (Hab _ _ Hch) as Hab'.
  destruct (clone_files_run (set_active (active t) (rd_wal r)) (files t) a b) as (k & Hsub & Hk & Hl & Hrun);
    [done|done|unfold zlen in *; rewrite Hlt; done|].
  set (T := zip_with clone_from_no_mmap k (files t) ++ (clone_no_mmap <$> drop (length k) (files t))) in *.
  assert (view <$> T = view <$> l.*1) as HvT.
  { rewrite <- Hv. unfold T. eapply clone_files_view; [done..| |].
    - apply Forall_forall. intros f Hin. rewrite Forall_forall in Hnr. apply Hnr. by apply Hsub.
    - eapply view_named; [done|]. by rewrite <- Hf. }
  assert (length T = length l) as HlT by (apply (f_equal length) in HvT; by rewrite !length_fmap in HvT).
  assert (forall j w e, T !! j = Some w -> l !! j = Some e ->
    view w = view e.1 /\ len_max w = len_max e.1 /\ mmap_mut w = None /\ (mmap w = None \/ mmap w = dir fs !! path e.1)) as HT.
  { intros j w e Hw Hej.
    assert (view w = view e.1) as Hve.
    { assert ((view <$> T) !! j = Some (view w)) as E by (by rewrite list_lookup_fmap, Hw).
      rewrite HvT, !list_lookup_fmap, Hej in E. cbn in E. congruence. }
    split; [done|].
    destruct (clone_lookup _ _ _ _ _ Hk Hct Hl Hw) as (u & Hu & Hor).
    assert (len_max u = len_max e.1) as Hlu.
    { assert ((len_max <$> files t) !! j = Some (len_max u)) as E by (by rewrite list_lookup_fmap, Hu).
      rewrite Hlen, !list_lookup_fmap, Hej in E. cbn in E. congruence. }
    destruct Hor as [(f & Hfk & Hno & ->)| ->]; [|split; [done|split; [done|by left]]].
    apply (Hmaps f e); [by apply (Hsub f)|by eapply list_elem_of_lookup_2|].
    injection Hve as _ E _. done. }
  exists (mkReader (set_files T (set_active (active t) (rd_wal r))) (rd_memo r)), (zip T (l.*2)).
  assert ((zip T (l.*2)).*1 = T) as Z1 by (apply fst_zip; rewrite length_fmap; lia).
  assert ((zip T (l.*2)).*2 = l.*2) as Z2 by (apply snd_zip; rewrite length_fmap; lia).
  rewrite Z1, Z2. split; [unfold refresh; by rewrite Hrun|]. split; [done|]. split; [done|]. split; [done|].
  assert (len_max <$> T = len_max <$> l.*1) as HlenT.
  { apply list_eq. intros j. rewrite !list_lookup_fmap. destruct (T !! j) as [w|] eqn:Ew, (l !! j) as [e|] eqn:Ee; cbn; try done.
    - destruct (HT _ _ _ Ew Ee) as (_ & -> & _). done.
    - apply lookup_lt_Some in Ew. apply lookup_ge_None in Ee. lia.
    - apply lookup_lt_Some in Ee. apply lookup_ge_None in Ew. lia. }
  split; [done|].
  assert (forall j x, zip T (l.*2) !! j = Some x -> exists e, l !! j = Some e /\ T !! j = Some x.1 /\ x.2 = e.2) as Hz.
  { intros j x Hx. rewrite lookup_zip_with in Hx. destruct (T !! j) as [w|] eqn:Ew; [|done]. cbn in Hx.
    rewrite list_lookup_fmap in Hx. destruct (l !! j) as [e|] eqn:Ee; [|done]. cbn in Hx. injection Hx as <-. eauto. }
  split; [|split; [done|split; [done|]]].
  - apply Forall_lookup. intros j x Hx. destruct (Hz _ _ Hx) as (e & Hej & Hw & ->).
    destruct (HT _ _ _ Hw Hej) as (Hve & Hle & Hmm & Hm). rewrite Forall_lookup in He, Hmemo.
    destruct (He _ _ Hej) as (i & Hdi & Hfo & _). pose proof Hve as Hve'. injection Hve' as _ _ Ep _ _ _ _.
    split; [exists i; rewrite Ep; split; [done|]; split; [by eapply file_ok_view|]; rewrite <- Hdi; done|].
    eapply memo_ok_view; [done|]. by apply (Hmemo j).
  - intros x e' [j Hx]%list_elem_of_lookup [j' He']%list_elem_of_lookup Hno.
    destruct (Hz _ _ Hx) as (e & Hej & Hw & _). destruct (HT _ _ _ Hw Hej) as (Hve & _ & Hmm & Hm).
    injection Hve as _ En _ _ _ _ _. pose proof (chain_wal_no _ _ _ _ _ Hch Hej). pose proof (chain_wal_no _ _ _ _ _ Hch He').
    assert (j = j') as <- by lia. assert (e = e') as <- by congruence. done.
Qed.

(** [Action::Logs]: a request inside the log is answered with exactly its logs,
    and the reader stays usable. *)
Lemma handle_logs_ok fs s l t r from until :
  set_core fs s l -> shared_ok (base_path s) s t -> reader_ok fs (base_path s) l t r ->
  (forall x, head (log_of l) = Some x -> x.1 <= from) -> from <= until ->
  (forall x, last (log_of l) = Some x -> until <= x.1 < u64_max) -> log_of l <> [] ->
  exists r', handle_logs fs t from until r = Ok (r', data_of (select from until (log_of l))).
Proof.
  intros Hc Hsh Hro Hfrom Hfu Huntil Hne. pose proof Hc as [_ _ He (b & next & Hch & Hnn) _].
  destruct (refresh_ok _ _ _ _ _ Hc Hsh Hro) as (r1 & l1 & Hrun & Hfl & H2 & Hv & _ & Hrf & _).
  assert (log_of l1 = log_of l) as Hlog by (unfold log_of; by rewrite H2).
  assert (chain b next l1) as Hch1.
  { clear - Hch Hv H2. revert l b next Hch Hv H2. induction l1 as [|[w rs] l1 IH]; intros [|[w0 rs0] l] b next; try done.
    cbn. intros (Hno & Hif & Hem & Hch) Hv. injection Hv as _ E1 _ E2 E3 _ _ Hv. intros [= <- H2].
    split; [congruence|]. split; [congruence|]. split; [|by eapply IH].
    intros E. destruct (Hem E) as [-> ?]. split; [by destruct l1|congruence]. }
  pose proof (log_of_ids _ _ _ _ _ He Hch) as Hids.
  destruct (last (log_of l)) as [x|] eqn:El; [|by apply last_None in El]. specialize (Huntil x eq_refl).
  pose proof (ids_from_last _ _ _ Hids El) as Hx. destruct (log_of l) as [|x0 xs] eqn:Elog; [done|].
  specialize (Hfrom x0 eq_refl). destruct Hids as [Hx0 Hids]. rewrite <- Hlog in Hx |- *. unfold u64_max in *.
  destruct (logs_loop_ok fs until l1 b next from (rd_memo r1) Hrf Hch1) as (l2 & m & Hrun2 & _); [lia..|].
  eexists. unfold handle_logs. rewrite Hrun. step_res. rewrite Hfl, Hrun2. step_res. reflexivity.
Qed.

Lemma select_last i rs x : ids_from i rs -> last rs = Some x -> select x.1 x.1 rs = [x].
Proof.
  intros Hids Hl. pose proof (ids_from_last _ _ _ Hids Hl) as Hx. apply last_Some in Hl as [rs0 ->].
  apply ids_from_app in Hids as [Hids _]. rewrite zlen_app in Hx. change (zlen [x]) with 1 in Hx.
  rewrite select_app, (select_none _ _ i rs0) by (done || lia). unfold select.
  rewrite filter_cons_True by lia. done.
Qed.

(** Reading the last log of a file through [read_one]. *)
Lemma read_one_last fs r l1 k w rs x b :
  files (rd_wal r) = l1.*1 -> l1 !! k = Some (w, rs) -> reads fs w rs -> memo_ok w rs (rd_memo r) -> last rs = Some x ->
  exists r', read_one fs k (id_until w) b r = Ok (r', [x]).
Proof.
  intros Hf Hk Hr Hm Hx. assert (rs <> []) as Hne by (by intros ->).
  destruct (reads_ids _ _ _ Hr) as [Hids Hun]. specialize (Hun Hne). pose proof (ids_from_last _ _ _ Hids Hx) as Hxi.
  pose proof (zlen_nonneg rs). assert (0 < zlen rs) by (destruct rs; [done|]; rewrite zlen_cons; pose proof (zlen_nonneg rs); lia).
  destruct (read_file_ok fs w rs (rd_memo r) (id_until w) (id_until w) Hr Hm Hne ltac:(lia) ltac:(lia))
    as (w' & o & m & Hmap & _ & Hrd & _).
  unfold read_one. rewrite Hf, list_lookup_fmap, Hk. cbn [fmap option_fmap option_map fst]. step_res.
  rewrite Hmap. step_res. rewrite Hrd. replace (id_until w) with x.1 by lia.
  rewrite (select_last _ _ _ Hids Hx). eauto.
Qed.

(** [Action::LogState]: the last log of the set, or none when it is empty. *)
Lemma handle_log_state_ok fs s l t r mt :
  set_ok fs s l -> shared_ok (base_path s) s t -> reader_ok fs (base_path s) l t r ->
  exists r', handle_log_state fs t mt r =
    Ok (r', mkLogState (last_purged_log_id mt) (snd <$> last (log_of l))).
Proof.
  intros [Hc Hact Hm] Hsh Hro. pose proof Hc as [_ _ _ (b & next & Hch & _) _].
  destruct (refresh_ok _ _ _ _ _ Hc Hsh Hro) as (r1 & l1 & Hrun & Hfl & H2 & Hv & _ & Hrf & _ & Ha1 & _).
  assert (log_of l1 = log_of l) as Hlog by (unfold log_of; by rewrite H2).
  assert (length l1 = length l) as Hll by (apply (f_equal length) in H2; by rewrite !length_fmap in H2).
  assert (Forall2 (fun e e' : FileLogs => view e.1 = view e'.1 /\ e.2 = e'.2) l1 l) as HF.
  { clear - Hv H2. revert l Hv H2. induction l1 as [|e l1 IH]; intros [|e' l]; try done; cbn.
    intros Hv [= Hr H2]. assert (view e.1 = view e'.1 /\ view <$> l1.*1 = view <$> l.*1) as [? ?] by (by split; congruence).
    constructor; auto. }
  unfold handle_log_state. rewrite Hrun. step_res. rewrite Hfl.
  destruct l as [|[w rs] l0 _] using rev_ind; [by destruct Hm as (? & ? & _)|].
  apply Forall2_app_inv_r in HF as (l10 & l11 & HF0 & HF1 & ->).
  inversion HF1 as [|[w1 rs1] ? ? ? [Hvw Ers] HF2]; subst. inversion HF2; subst. cbn [fst snd] in Hvw, Ers. subst rs1.
  pose proof (Forall2_length _ _ _ HF0) as Hl10.
  apply Forall_app in Hrf as [Hrf0 Hrf1]. inversion Hrf1 as [|? ? [Hr1 Hm1] _]; subst. cbn [fst snd] in Hr1, Hm1.
  assert (active (rd_wal r1) = Some (length l10)) as Ha by (rewrite Ha1, Hact, length_app; cbn; f_equal; lia).
  rewrite fmap_app. cbn [fmap list_fmap fst]. unfold latest_log_id. rewrite last_snoc. step_res.
  rewrite !log_of_snoc in *. pose proof Hr1 as (i1 & _ & [_ _ _ Hd1] & _).
  assert (forall (x : WalFile), (l10.*1 ++ [x]) !! length l10 = Some x) as Hlk
    by (intros x; rewrite lookup_app_r; rewrite length_fmap; [by rewrite Nat.sub_diag|lia]).
  destruct (last rs) as [x|] eqn:El.
  - assert (is_Some (data_start w1)) as Hds by (destruct rs; [done|]; destruct Hd1 as (ds & _ & -> & _); eauto).
    rewrite bool_decide_eq_true_2 by done. step_res. rewrite Ha. step_res. rewrite Hlk. step_res.
    rewrite bool_decide_eq_true_2 by done.
    destruct (read_one_last fs r1 (l10 ++ [(w1, rs)]) (length l10) w1 rs x false Hfl) as [r2 Hr2]; [|done..|].
    { by rewrite lookup_app_r, Nat.sub_diag by lia. }
    rewrite Hr2. step_res. rewrite last_app, El. eauto.
  - apply last_None in El as ->. destruct Hd1 as [Hd1 _].
    rewrite bool_decide_eq_false_2 by (rewrite Hd1; intros [? ?]; done).
    rewrite length_app, length_fmap. cbn [length]. rewrite app_nil_r in *.
    destruct l10 as [|[w2 rs2] l20 _] using rev_ind.
    { apply Forall2_nil_inv_l in HF0 as ->. eexists. cbn. reflexivity. }
    apply Forall2_app_inv_l in HF0 as (l00 & l01 & HF3 & HF4 & ->).
    inversion HF4 as [|? [w0 rs0] ? ? [Hv2 E2] HF5]; subst. inversion HF5; subst. cbn [fst snd] in Hv2, E2. subst rs0.
    assert (rs2 <> []) as Hne2.
    { rewrite <- app_assoc in Hch. by apply chain_next_file in Hch as [_ ?]. }
    rewrite length_app. cbn [length]. rewrite (proj2 (Nat.ltb_lt _ _)) by lia.
    replace (length l20 + 1 + 1 - 2)%nat with (length l20) by lia.
    rewrite fmap_app. cbn [fmap list_fmap fst]. rewrite <- app_assoc.
    rewrite (lookup_app_r (l20.*1)); rewrite length_fmap; [|lia]. rewrite Nat.sub_diag. cbn [app lookup list_lookup]. step_res.
    rewrite Ha. step_res. change [w2; w1] with ([w2] ++ [w1]). rewrite app_assoc.
    assert (((l20.*1 ++ [w2]) ++ [w1]) !! length (l20 ++ [(w2, rs2)]) = Some w1) as ->
      by (specialize (Hlk w1); rewrite fmap_app in Hlk; exact Hlk).
    step_res. rewrite bool_decide_eq_false_2 by (rewrite Hd1; intros [? ?]; done).
    apply Forall_app in Hrf0 as [_ Hrf2]. inversion Hrf2 as [|? ? [Hr2 Hm2] _]; subst. cbn [fst snd] in Hr2, Hm2.
    destruct (last rs2) as [x|] eqn:El2; [|by apply last_None in El2].
    destruct (read_one_last fs r1 ((l20 ++ [(w2, rs2)]) ++ [(w1, [])]) (length l20) w2 rs2 x true Hfl) as [r3 Hr3]; [|done..|].
    { rewrite <- app_assoc, lookup_app_r, Nat.sub_diag by lia. done. }
    rewrite Hr3. step_res. rewrite log_of_snoc, last_app, El2. eauto.
Qed.

End WalReader.
