(* ===== verification/LogMemory.v ===== *)
(** The in-memory Raft log of the cache: [hiqlite/src/store/logs/memory.rs].

    [E] is the entry type with its log id, [V] the vote; the deque is a list.
    The panics are those of a release build: an index outside the deque in
    [range] or [drain]. *)
From stdpp Require Import base list numbers sorting.
From S2P Require Import Prelude WalWriter.

#[local] Open Scope Z_scope.

(** [std::collections::Bound<u64>] *)
Inductive Bound : Type :=
| Included (i : Z)
| Excluded (i : Z)
| Unbounded.

(** An entry type: [RaftLogId::get_log_id]. *)
Class HasLogId (E : Type) : Type := get_log_id : E -> LogId.

Definition idx {E} `{HasLogId E} (e : E) : Z := index (get_log_id e).

(** Log indices count up by one from [i]. *)
Fixpoint idx_from {E} `{HasLogId E} (i : Z) (l : list E) : Prop :=
  match l with
  | [] => True
  | e :: l => idx e = i /\ idx_from (i + 1) l
  end.

Section Indices.
Context {E : Type} `{HasLogId E}.
Implicit Types l : list E.

Definition above (i : Z) (l : list E) : list E := filter (fun e => i < idx e) l.
Definition below (i : Z) (l : list E) : list E := filter (fun e => idx e < i) l.
Definition between (a b : Z) (l : list E) : list E := filter (fun e => a <= idx e <= b) l.

Lemma idx_from_app i l1 l2 : idx_from i (l1 ++ l2) <-> idx_from i l1 /\ idx_from (i + zlen l1) l2.
Proof.
  revert i. induction l1 as [|e l1 IH]; intros i; cbn.
  - change (zlen (@nil E)) with 0. rewrite Z.add_0_r. tauto.
  - rewrite IH, zlen_cons. replace (i + 1 + zlen l1) with (i + (1 + zlen l1)) by lia. tauto.
Qed.

Lemma idx_from_bounds i l e : idx_from i l -> e ∈ l -> i <= idx e < i + zlen l.
Proof.
  revert i. induction l as [|x l IH]; intros i; cbn; [by intros _ Hin; inversion Hin|].
  intros [<- Hl] [->|Hin]%elem_of_cons; rewrite zlen_cons; pose proof (zlen_nonneg l); [lia|].
  specialize (IH _ Hl Hin). lia.
Qed.

Lemma idx_unique i l a b : idx_from i l -> a ∈ l -> b ∈ l -> idx a = idx b -> a = b.
Proof.
  revert i. induction l as [|y l IH]; intros i Hl Ha; [by inversion Ha|].
  intros Hb Hab. destruct Hl as [Hy Hl]. apply elem_of_cons in Ha as [->|Ha], Hb as [->|Hb]; [done| | |eauto].
  - pose proof (idx_from_bounds _ _ _ Hl Hb). lia.
  - pose proof (idx_from_bounds _ _ _ Hl Ha). lia.
Qed.

Lemma above_drop i k l : idx_from i l -> i <= k + 1 -> above k l = drop (Z.to_nat (k + 1 - i)) l.
Proof.
  revert i. induction l as [|e l IH]; intros i; [by rewrite drop_nil|].
  intros [He Hl] Hk. unfold above in *. rewrite filter_cons, He. case_decide.
  - replace (Z.to_nat (k + 1 - i)) with 0%nat by lia. cbn. f_equal. apply filter_all.
    intros x Hx. pose proof (idx_from_bounds _ _ _ Hl Hx). lia.
  - rewrite (IH _ Hl) by lia. by replace (Z.to_nat (k + 1 - i)) with (S (Z.to_nat (k + 1 - (i + 1)))) by lia.
Qed.

Lemma below_take i k l : idx_from i l -> below k l = take (Z.to_nat (k - i)) l.
Proof.
  revert i. induction l as [|e l IH]; intros i; [by rewrite take_nil|].
  intros [He Hl]. unfold below in *. rewrite filter_cons, He. case_decide.
  - rewrite (IH _ Hl). by replace (Z.to_nat (k - i)) with (S (Z.to_nat (k - (i + 1)))) by lia.
  - replace (Z.to_nat (k - i)) with 0%nat by lia. cbn. apply filter_none.
    intros x Hx. pose proof (idx_from_bounds _ _ _ Hl Hx). lia.
Qed.

Lemma between_slice i a b l :
  idx_from i l -> i <= a -> a <= b -> b < i + zlen l ->
  between a b l = take (Z.to_nat (b - a + 1)) (drop (Z.to_nat (a - i)) l).
Proof.
  intros Hl Ha Hab Hb.
  assert (between a b l = below (b + 1) (above (a - 1) l)) as ->.
  { unfold between, below, above. rewrite list_filter_filter. apply list_filter_iff. intros e. lia. }
  rewrite (above_drop i) by (done || lia). replace (a - 1 + 1 - i) with (a - i) by lia.
  rewrite (below_take a); [by replace (b + 1 - a) with (b - a + 1) by lia|].
  rewrite <- (take_drop (Z.to_nat (a - i)) l) in Hl. apply idx_from_app in Hl as [_ Hl].
  unfold zlen in *. rewrite length_take in Hl.
  by replace (i + Z.of_nat (Z.to_nat (a - i) `min` length l)) with a in Hl by lia.
Qed.

End Indices.

Module Memory.
Section Memory.
Context {E V : Type} `{HasLogId E}.

Record LogStoreMemory : Type := mkMem {
  logs : list E;
  last_purged : option LogId;
  vote : option V;
}.

Definition set_logs (l : list E) (s : LogStoreMemory) : LogStoreMemory := mkMem l (last_purged s) (vote s).

Definition new : LogStoreMemory := mkMem [] None None.

(** [logs.range(a..=b)] *)
Definition range (l : list E) (a b : Z) : Res unit (list E) :=
  if (a <=? b + 1) && (b <? zlen l) then Ok (take (Z.to_nat (b + 1 - a)) (drop (Z.to_nat a) l)) else Panic.

Definition try_get_log_entries (lo hi : Bound) (s : LogStoreMemory) : Res unit (list E) :=
  let start := match lo with Included i => i | Excluded i => wrap64 (i + 1) | Unbounded => 0 end in
  match hi with
  | Unbounded => Panic
  | Excluded 0 => Ok []
  | Included e | Excluded e =>
      let last := match hi with Included i => i | _ => wrap64 (e - 1) end in
      if last <? start then Ok [] else
      match logs s with
      | [] => Ok []
      | first :: _ => range (logs s) (wrap64 (start - idx first)) (wrap64 (last - idx first))
      end
  end.

(** [last_purged_log_id] and [last_log_id] *)
Definition get_log_state (s : LogStoreMemory) : option LogId * option LogId :=
  (last_purged s,
   match last (logs s) with Some e => Some (get_log_id e) | None => last_purged s end).

Definition save_vote (v : V) (s : LogStoreMemory) : LogStoreMemory := mkMem (logs s) (last_purged s) (Some v).
Definition read_vote (s : LogStoreMemory) : option V := vote s.

(** The callback is answered with [Ok]. *)
Definition append (es : list E) (s : LogStoreMemory) : LogStoreMemory := set_logs (logs s ++ es) s.

Definition truncate (log_id : LogId) (s : LogStoreMemory) : LogStoreMemory :=
  match logs s with
  | [] => s
  | first :: _ => set_logs (take (Z.to_nat (wrap64 (index log_id - idx first))) (logs s)) s
  end.

(** [logs.drain(..n)] followed by [logs.pop_front()] *)
Definition purge (log_id : LogId) (s : LogStoreMemory) : Res unit LogStoreMemory :=
  match logs s with
  | [] => Ok (mkMem [] (Some log_id) (vote s))
  | first :: _ =>
      let purge_until := wrap64 (index log_id - idx first) in
      if zlen (logs s) <? purge_until then Panic else
      let rest := drop (Z.to_nat purge_until) (logs s) in
      let popped := get_log_id <$> head rest in
      Ok (mkMem (tail rest)
            (match popped with Some p => Some p | None => last_purged s end) (vote s))
  end.

(** ** Invariant: indices are contiguous and behind the purge frontier *)
Record mem_ok (s : LogStoreMemory) : Prop := {
  mo_idx : exists i, idx_from i (logs s) /\ 0 <= i /\ i + zlen (logs s) < 2 ^ 64;
  mo_purged : forall p, last_purged s = Some p -> Forall (fun e => index p < idx e) (logs s);
}.

Lemma append_ok s es :
  mem_ok s ->
  (exists i, idx_from i (logs s ++ es) /\ 0 <= i /\ i + zlen (logs s ++ es) < 2 ^ 64) ->
  (forall p, last_purged s = Some p -> Forall (fun e => index p < idx e) es) ->
  mem_ok (append es s) /\ logs (append es s) = logs s ++ es.
Proof.
  intros [_ Hp] Hi Hes. split; [|done]. split; [done|]. intros p Hpp. cbn. apply Forall_app. split; [by apply Hp|by apply Hes].
Qed.

Lemma mem_truncate_ok s id :
  mem_ok s -> (forall e, head (logs s) = Some e -> idx e <= index id < 2 ^ 64) ->
  mem_ok (truncate id s) /\ logs (truncate id s) = below (index id) (logs s) /\
  last_purged (truncate id s) = last_purged s /\ vote (truncate id s) = vote s.
Proof.
  intros [(i & Hi & Hnn & H64) Hp] Hid. unfold truncate. destruct (logs s) as [|e l] eqn:El.
  { split; [split; [exists i; rewrite El; done|by rewrite El]|]. by rewrite El. }
  specialize (Hid e eq_refl). pose proof Hi as [He _]. rewrite wrap64_small by (unfold is_u64; lia).
  rewrite He, <- (below_take i) by done. split; [|done]. split.
  - exists i. cbn [logs set_logs]. rewrite (below_take i) by done.
    rewrite <- (take_drop (Z.to_nat (index id - i)) (e :: l)) in Hi. apply idx_from_app in Hi as [Hi _].
    split; [done|]. split; [done|]. unfold zlen in *. rewrite length_take. lia.
  - intros p Hpp. cbn [logs set_logs]. specialize (Hp p Hpp). rewrite Forall_forall in Hp. apply Forall_forall.
    intros x [_ Hx]%list_elem_of_filter. by apply Hp.
Qed.

(** Purging a log that is present removes it and everything before it, and
    records its id. *)
Lemma mem_purge_ok s id :
  mem_ok s -> (exists e, e ∈ logs s /\ idx e = index id /\ get_log_id e = id) ->
  exists s', purge id s = Ok s' /\ mem_ok s' /\ logs s' = above (index id) (logs s) /\
    last_purged s' = Some id /\ vote s' = vote s.
Proof.
  intros [(i & Hi & Hnn & H64) Hp] (e & Hin & Hidx & Hid). pose proof (idx_from_bounds _ _ _ Hi Hin) as Hb.
  unfold purge. destruct (logs s) as [|e0 l] eqn:El; [by inversion Hin|]. pose proof Hi as [He0 _].
  rewrite wrap64_small by (unfold is_u64; lia). rewrite (proj2 (Z.ltb_ge _ _)) by lia.
  rewrite (above_drop i) by (done || lia). rewrite He0.
  set (n := Z.to_nat (index id - i)). replace (Z.to_nat (index id + 1 - i)) with (n + 1)%nat by (unfold n; lia).
  assert (drop (n + 1) (e0 :: l) = tail (drop n (e0 :: l))) as Et by (rewrite <- drop_drop; by destruct (drop n (e0 :: l))).
  destruct (drop n (e0 :: l)) as [|x rest] eqn:Ed.
  { apply (f_equal length) in Ed. rewrite length_drop in Ed. unfold zlen in *. cbn in Ed. cbn [length] in *. unfold n in Ed. lia. }
  rewrite Et. cbn [tail]. pose proof Hi as Hi0.
  rewrite <- (take_drop n (e0 :: l)), Ed in Hi0. apply idx_from_app in Hi0 as [_ Hi0].
  assert (zlen (take n (e0 :: l)) = index id - i) as Hz by (unfold zlen in *; rewrite length_take; unfold n; cbn [length] in *; lia).
  rewrite Hz in Hi0. replace (i + (index id - i)) with (index id) in Hi0 by lia. destruct Hi0 as [Hx Hrest].
  assert (x = e) as ->.
  { eapply (idx_unique i (e0 :: l)); [done| |done|lia].
    rewrite <- (take_drop n (e0 :: l)), Ed. apply elem_of_app. right. by left. }
  eexists. split; [reflexivity|]. split; [|cbn; by rewrite Hid].
  split; cbn.
  - exists (index id + 1). split; [done|]. split; [lia|]. apply (f_equal length) in Ed. rewrite length_drop in Ed.
    unfold zlen in *. cbn [length] in *. unfold n in Ed. lia.
  - intros p [= <-]. apply Forall_forall. intros y Hy. pose proof (idx_from_bounds _ _ _ Hrest Hy). rewrite Hid. lia.
Qed.

(** A range inside the log is answered with exactly its entries. *)
Lemma try_get_ok s a b :
  mem_ok s -> (forall e, head (logs s) = Some e -> idx e <= a) -> 0 <= a <= b ->
  (forall e, last (logs s) = Some e -> b <= idx e) ->
  try_get_log_entries (Included a) (Included b) s = Ok (between a b (logs s)).
Proof.
  intros [(i & Hi & Hnn & H64) _] Ha Hab Hb. unfold try_get_log_entries. rewrite (proj2 (Z.ltb_ge _ _)) by lia.
  destruct (logs s) as [|e0 l] eqn:El; [done|]. specialize (Ha e0 eq_refl). pose proof Hi as [He0 _].
  destruct (last (e0 :: l)) as [x|] eqn:Elast; [|by apply last_None in Elast]. specialize (Hb x eq_refl).
  apply last_Some in Elast as [l' Elast]. pose proof Hi as Hi'. rewrite Elast in Hi'.
  apply idx_from_app in Hi' as [_ [Hx _]].
  assert (zlen (e0 :: l) = zlen l' + 1) as Hz by (rewrite Elast, zlen_app; done). pose proof (zlen_nonneg l').
  rewrite !wrap64_small by (unfold is_u64; lia). unfold range.
  rewrite (proj2 (Z.leb_le _ _)), (proj2 (Z.ltb_lt _ _)) by lia. cbn [andb].
  rewrite (between_slice i) by (done || lia). rewrite He0. do 2 f_equal. lia.
Qed.

End Memory.
End Memory.
