(* ===== verification/LogStore.v ===== *)
(** The Raft log storage of openraft, as an interface and its two
    implementations: the WAL store ([hiqlite-wal/src/log_store_impl.rs]) and the
    in-memory store ([hiqlite/src/store/logs/memory.rs]).

    A request to the WAL store is one message to the writer or a reader and the
    wait for its answer, so the operations run the handlers in sequence. *)
From stdpp Require Import base gmap strings list numbers sorting.
From Stdlib Require Import Ascii Strings.Byte.
From S2P Require Import Prelude Text WalBase WalFile WalFileSpec WalSet WalSetSpec WalPurge WalMeta.
From S2P Require Import WalWriter WalWriterSpec WalReader LogMemory.

#[local] Open Scope Z_scope.

(** * The interface *)

(** The operations a Raft node uses on its log; [T] is the entry type. *)
Class LogStorage (S T : Type) : Type := {
  ls_append : list T -> S -> option S;
  ls_truncate : LogId -> S -> option S;
  ls_purge : LogId -> S -> option S;
  ls_read : Z -> Z -> S -> option (list T);
}.

(** What a store promises.  [ls_log s log] relates a state to the log it holds;
    the [can_*] predicates are the requests a store accepts.  A purge removes no
    entry behind the purged id and keeps only a suffix. *)
Class LogStorageSpec (S T : Type) `{LogStorage S T, HasLogId T} : Type := {
  ls_log : S -> list T -> Prop;
  can_append : S -> list T -> Prop;
  can_truncate : S -> LogId -> Prop;
  can_purge : S -> LogId -> Prop;
  ls_contiguous s log : ls_log s log -> exists i, idx_from i log;
  ls_append_spec s log es : ls_log s log -> (exists i, idx_from i (log ++ es)) -> can_append s es ->
    exists s', ls_append es s = Some s' /\ ls_log s' (log ++ es);
  ls_truncate_spec s log id : ls_log s log -> can_truncate s id ->
    exists s', ls_truncate id s = Some s' /\ ls_log s' (below (index id) log);
  ls_purge_spec s log id : ls_log s log -> can_purge s id ->
    exists s' log', ls_purge id s = Some s' /\ ls_log s' log' /\
      above (index id) log' = above (index id) log /\ exists n, log' = drop n log;
  ls_read_spec s log a b : ls_log s log ->
    (forall e, head log = Some e -> idx e <= a) -> 0 <= a <= b ->
    (forall e, last log = Some e -> b <= idx e) -> log <> [] ->
    ls_read a b s = Some (between a b log);
}.

(** * Starting a store *)
Section Start.
Context `{Checksum} `{Features} `{MetaCodec} `{LogIdCodec}.

(** [LogStore::start]: the lock, the metadata, the writer.  The handle of the lock
    file belongs to the writer; when spawning it fails the handle is dropped. *)
Definition start (base : string) (size : Z) (env_check : bool) : St Error Sys (nat * Writer) := fun y =>
  match LockFile.acquire base y with
  | (Ok (i, lock_exists), y) =>
      let '(r, fs) := (m ← read_or_create base; spawn base size lock_exists env_check m) (sys_fs y) in
      let y := mkSys fs (locks y) in
      match r with
      | Ok w => (Ok (i, w), y)
      | Err e => (Err e, LockFile.drop_handle i y)
      | Panic => (Panic, LockFile.drop_handle i y)
      | OutOfFuel => (OutOfFuel, LockFile.drop_handle i y)
      end
  | (Err e, y) => (Err e, y)
  | (Panic, y) => (Panic, y)
  | (OutOfFuel, y) => (OutOfFuel, y)
  end.

Lemma acquire_fresh base y :
  dir (sys_fs y) !! LockFile.path base = None -> (forall j, j ∈ locks y -> (j < next_ino (sys_fs y))%nat) -> fs_wf (sys_fs y) ->
  exists y', LockFile.acquire base y = (Ok (next_ino (sys_fs y), false), y') /\ fs_wf (sys_fs y') /\
    locks y' = {[next_ino (sys_fs y)]} ∪ locks y /\ dir (sys_fs y') = <[LockFile.path base := next_ino (sys_fs y)]> (dir (sys_fs y)).
Proof.
  intros Hn Hl [Hi Hf]. unfold LockFile.acquire, LockFile.exists_. rewrite Hn. rewrite bool_decide_eq_false_2 by (by intros []).
  unfold LockFile.create, fs_create. rewrite Hn. unfold LockFile.lock_file. cbn.
  rewrite bool_decide_eq_false_2 by (intros Hin; specialize (Hl _ Hin); lia). eexists. split; [reflexivity|]. cbn.
  split; [|done]. split.
  - intros p q i Hp Hq. cbn in *. apply lookup_insert_Some in Hp, Hq. destruct Hp as [[<- Hp]|[Hp0 Hp]], Hq as [[<- Hq]|[Hq0 Hq]]; subst; try done.
    + apply Hf in Hq. lia.
    + apply Hf in Hp. lia.
    + by eapply Hi.
  - intros p i Hp. cbn in *. apply lookup_insert_Some in Hp as [[<- <-]|[_ Hp]]; [lia|]. apply Hf in Hp. lia.
Qed.

(** A start on a directory without WAL files, metadata and lock file. *)
Lemma start_fresh_ok base size snc y :
  fs_wf (sys_fs y) -> no_wal (sys_fs y) -> dir (sys_fs y) !! LockFile.path base = None ->
  dir (sys_fs y) !! meta_path base = None -> (forall j, j ∈ locks y -> (j < next_ino (sys_fs y))%nat) ->
  MIN_WAL_SIZE <= size < u32_max ->
  exists i w w' y' f, start base size false y = (Ok (i, w), y') /\ LockFile.acquire base y' = (Panic, y') /\
    on_set (on_active mmap_mut_op) (sys_fs y', w) = (Ok tt, (sys_fs y', w')) /\
    writer_ok (mkCfg snc size (size - 34)) (sys_fs y') w' [] f [] /\ meta w' = mkMeta None None.
Proof.
  intros Hwf Hno Hlk Hmeta Hl Hsz.
  assert (LockFile.path base <> meta_path base) as Hlm by (unfold LockFile.path, meta_path; by intros ?%(inj _)).
  assert (LockFile.path base <> meta_tmp base) as Hlt.
  { unfold LockFile.path, meta_tmp, meta_path. rewrite string_app_assoc. by intros ?%(inj _). }
  destruct (acquire_fresh base y Hlk Hl Hwf) as (y1 & Hacq & Hwf1 & Hlocks & Hdir).
  assert (dir (sys_fs y1) !! meta_path base = None) as Hm1 by (by rewrite Hdir, lookup_insert_ne).
  set (fs2 := write_unchecked base (serialize (mkMeta None None)) (sys_fs y1)).
  destruct (write_unchecked_spec base (serialize (mkMeta None None)) (sys_fs y1) Hwf1) as (Hwf2 & Htmp & (im & Him & _) & Hoth).
  fold fs2 in Hwf2, Htmp, Him, Hoth.
  assert (dir fs2 !! LockFile.path base = Some (next_ino (sys_fs y))) as Hlk2.
  { destruct (Hoth (LockFile.path base) Hlm Hlt) as [-> _]. by rewrite Hdir, lookup_insert_eq. }
  assert (no_wal fs2) as Hno2.
  { intros p i Hp. destruct (decide (p = meta_path base)) as [->|N1].
    { unfold meta_path. by apply ends_with_app_false; [cbn; lia|]. }
    destruct (decide (p = meta_tmp base)) as [->|N2]; [congruence|].
    destruct (Hoth p N1 N2) as [E _]. rewrite E, Hdir in Hp. apply lookup_insert_Some in Hp as [[<- _]|[_ Hp]]; [|by eapply Hno].
    unfold LockFile.path. by apply ends_with_app_false; [cbn; lia|]. }
  destruct (spawn_empty fs2 base size snc (mkMeta None None) Hwf2 Hno2 Hsz) as
    (fs3 & w & w' & f & Hsp & Hmap & Hok & _ & Hm & _ & _ & Hpf & Hq).
  exists (next_ino (sys_fs y)), w, w', (mkSys fs3 (locks y1)), f. split; [|split; [|done]].
  - unfold start. rewrite Hacq. unfold read_or_create, mbind, st_bind. rewrite Hm1. fold fs2. by rewrite Hsp.
  - assert (LockFile.path base <> path f) as Hne.
    { intros E. rewrite <- E in Hpf. unfold LockFile.path in Hpf. rewrite ends_with_app_false in Hpf; [done|cbn; lia|done]. }
    unfold LockFile.acquire, LockFile.exists_, LockFile.is_locked, LockFile.lock_file. cbn [sys_fs locks].
    rewrite (Hq _ Hne), Hlk2. rewrite bool_decide_eq_true_2 by eauto. rewrite bool_decide_eq_true_2 by (rewrite Hlocks; apply elem_of_union; left; by apply elem_of_singleton). done.
Qed.

End Start.

(** * The WAL store *)

(** The serialisation of entries: bincode, a parameter. *)
Class EntryCodec (T : Type) : Type := {
  enc : T -> list byte;
  dec : list byte -> option T;
}.
Class EntryCodecOk (T : Type) `{EntryCodec T} : Prop := {
  dec_enc e : dec (enc e) = Some e;
  enc_nonempty e : enc e <> [];
}.

(** [from] and [until] of [try_get_log_entries]. *)
Definition range_from (b : Bound) : Z :=
  match b with
  | Included i => i
  | Excluded i => if i =? u64_max then u64_max else i + 1
  | Unbounded => 0
  end.
Definition range_until (b : Bound) : Res Error Z :=
  match b with
  | Included i => Ok i
  | Excluded i => Ok (sat_sub i 1)
  | Unbounded => Panic
  end.

Section WalStore.
Context `{Checksum} `{Features} `{MetaCodec} `{LogIdCodec}.
Context {T : Type} `{HasLogId T} `{EntryCodec T}.

Record WalStore : Type := mkStore { st_fs : Fs; st_writer : Writer }.

Definition entry_of (e : T) : Entry := (idx e, enc e).

(** The reader a [get_log_reader] call starts. *)
Definition spawn_reader (s : WalStore) : Reader := mkReader (clone_no_map (wal_locked (st_writer s))) None.

(** The answers of a reader, decoded one by one; the first failure ends it. *)
Fixpoint decode_all (ms : list Msg) : Res Error (list T) :=
  match ms with
  | [] => Ok []
  | Failed e :: _ => Err e
  | Data b :: ms =>
      match dec b with
      | Some x => rest ← decode_all ms; Ok (x :: rest)
      | None => Err EDecode
      end
  end.

Definition try_get_log_entries (lo hi : Bound) (s : WalStore) (r : Reader) : Res Error (Reader * list T) :=
  let from := range_from lo in
  until ← range_until hi;
  if until <? from then Ok (r, []) else
  '(r, ms) ← handle_logs (st_fs s) (wal_locked (st_writer s)) from until r;
  res ← decode_all ms;
  Ok (r, res).

(** [last_purged_log_id] and [last_log_id]; an entry starts with its log id. *)
Definition get_log_state (s : WalStore) (r : Reader) : Res Error (Reader * (option LogId * option LogId)) :=
  '(r, st) ← handle_log_state (st_fs s) (wal_locked (st_writer s)) (meta (st_writer s)) r;
  let decode o := match o with
                  | None => Ok None
                  | Some b => match decode_log_id b with Some l => Ok (Some l) | None => Err EDecode end
                  end in
  p ← decode (ls_last_purged st);
  l ← decode (ls_last_log st);
  Ok (r, (p, l)).

(** Runs one action of the writer and returns the ack it sent. *)
Definition request (cfg : Cfg) (a : Action) (s : WalStore) : Res Error (option Error) * WalStore :=
  let n := length (out (st_writer s)) in
  let '(r, (fs, w)) := handle cfg a (st_fs s, st_writer s) in
  let s' := mkStore fs w in
  match r with
  | Ok _ => match out w !! n with Some (RAck e) => (Ok e, s') | _ => (Panic, s') end
  | Err e => (Err e, s')
  | Panic => (Panic, s')
  | OutOfFuel => (OutOfFuel, s')
  end.

Definition append (cfg : Cfg) (es : list T) : WalStore -> Res Error (option Error) * WalStore :=
  request cfg (Append (entry_of <$> es)).
Definition truncate (cfg : Cfg) (id : LogId) : WalStore -> Res Error (option Error) * WalStore :=
  request cfg (Remove (index id) u64_max None).
Definition purge (cfg : Cfg) (id : LogId) : WalStore -> Res Error (option Error) * WalStore :=
  request cfg (Remove 0 (index id) (Some (encode_log_id id))).
Definition save_vote (cfg : Cfg) (v : list byte) : WalStore -> Res Error (option Error) * WalStore :=
  request cfg (Vote v).
Definition read_vote (s : WalStore) : option (list byte) := handle_vote_read (meta (st_writer s)).

(** ** The state of a running store *)

(** The store holds [log] and its writer is well-formed. *)
Definition store_ok (cfg : Cfg) (s : WalStore) (log : list T) : Prop :=
  exists l f rs, writer_ok cfg (st_fs s) (st_writer s) l f rs /\ log_of (l ++ [(f, rs)]) = entry_of <$> log.

(** There are file numbers left for [n] more roll-overs. *)
Definition room (n : Z) (s : WalStore) : Prop :=
  forall f, last (files (wal (st_writer s))) = Some f -> wal_no f + n + 1 < 10 ^ 16.

(** No sealed file but the first starts at log [i]. *)
Definition no_seam (i : Z) (s : WalStore) : Prop :=
  forall k f, (0 < k < length (files (wal (st_writer s))) - 1)%nat ->
    files (wal (st_writer s)) !! k = Some f -> id_from f <> i.

Lemma ids_of_log i (log : list T) : ids_from i (entry_of <$> log) <-> idx_from i log.
Proof. revert i. induction log as [|e log IH]; intros i; cbn; [done|]. by rewrite IH. Qed.

Lemma fmap_filter_entry (P : Entry -> Prop) (Q : T -> Prop)
    `{!forall x, Decision (P x), !forall x, Decision (Q x)} (log : list T) :
  (forall e, P (entry_of e) <-> Q e) -> filter P (entry_of <$> log) = entry_of <$> filter Q log.
Proof.
  intros HPQ. induction log as [|e log IH]; [done|]. rewrite fmap_cons, !filter_cons. pose proof (HPQ e).
  repeat case_decide; try tauto; rewrite ?fmap_cons, IH; done.
Qed.

Lemma select_entry a b (log : list T) : select a b (entry_of <$> log) = entry_of <$> between a b log.
Proof. by apply fmap_filter_entry. Qed.
Lemma keep_below_entry i (log : list T) : keep_below i (entry_of <$> log) = entry_of <$> below i log.
Proof. by apply fmap_filter_entry. Qed.
Lemma keep_from_entry i (log : list T) : keep_from i (entry_of <$> log) = entry_of <$> filter (fun e => i <= idx e) log.
Proof. by apply fmap_filter_entry. Qed.

Lemma decode_all_data `{!EntryCodecOk T} (log : list T) : decode_all (data_of (entry_of <$> log)) = Ok log.
Proof.
  induction log as [|e log IH]; [done|].
  change (data_of (entry_of <$> e :: log)) with (Data (enc e) :: data_of (entry_of <$> log)).
  cbn [decode_all]. by rewrite dec_enc, IH.
Qed.

(** What a handler's replies mean for the requester. *)
Lemma request_ack cfg a s b fs' w' more :
  handle cfg a (st_fs s, st_writer s) = (Ok b, (fs', w')) ->
  out w' = out (st_writer s) ++ RAck None :: more -> request cfg a s = (Ok None, mkStore fs' w').
Proof.
  intros Hrun Hout. unfold request. rewrite Hrun, Hout. rewrite lookup_app_r, Nat.sub_diag by lia. done.
Qed.

Lemma appends_of_idx i (log es : list T) :
  idx_from i (log ++ es) -> appends (entry_of <$> log) (entry_of <$> es).
Proof.
  intros [Hl He]%idx_from_app. exists (i + zlen log). rewrite ids_of_log. split; [done|].
  intros x Hx. rewrite fmap_last in Hx. destruct (last log) as [e|] eqn:El; [|done]. injection Hx as <-. cbn.
  apply last_Some in El as [l0 ->]. apply idx_from_app in Hl as [_ [-> _]]. rewrite zlen_app. change (zlen [e]) with 1. lia.
Qed.

Lemma store_append_ok cfg s log es i :
  cfg_ok cfg -> store_ok cfg s log -> Forall (fun e => fits cfg (entry_of e)) es -> idx_from i (log ++ es) ->
  room (zlen es) s ->
  exists s', append cfg es s = (Ok None, s') /\ store_ok cfg s' (log ++ es).
Proof.
  intros Hcfg (l & f & rs & Hok & Hlog) Hfit Hidx Hroom.
  destruct (loop_files _ _ _ _ _ _ (wr_loop _ _ _ _ _ _ Hok)) as (Hf & _).
  assert (zlen (entry_of <$> es) = zlen es) as Hz by (unfold zlen; by rewrite length_fmap).
  destruct (handle_append_ok cfg _ _ l f rs (entry_of <$> es) Hcfg Hok) as
    (fs' & w' & l' & f' & rs' & Hrun & Hok' & Hlog' & Hout & _).
  - by apply Forall_fmap.
  - rewrite Hlog. by eapply appends_of_idx.
  - rewrite Hz. apply Hroom. by rewrite Hf, last_snoc.
  - eexists. split.
    + eapply request_ack; [|exact Hout]. cbn [handle]. by rewrite (st_bind_ok _ _ _ _ _ Hrun).
    + exists l', f', rs'. split; [done|]. by rewrite Hlog', Hlog, fmap_app.
Qed.

Lemma store_truncate_ok cfg s log id :
  cfg_ok cfg -> store_ok cfg s log -> index id < 2 ^ 64 -> no_seam (index id) s ->
  exists s', truncate cfg id s = (Ok None, s') /\ store_ok cfg s' (below (index id) log).
Proof.
  intros Hcfg (l & f & rs & Hok & Hlog) H64 Hseam.
  destruct (loop_files _ _ _ _ _ _ (wr_loop _ _ _ _ _ _ Hok)) as (Hf & _).
  destruct (handle_truncate_ok cfg _ _ l f rs (index id) Hcfg Hok H64) as
    (fs' & w' & l' & f' & rs' & Hrun & Hok' & Hlog' & _ & Hout & _).
  - apply Forall_lookup. intros k e Hk. rewrite lookup_drop in Hk. pose proof (lookup_lt_Some _ _ _ Hk).
    apply (Hseam (S k) e.1).
    + rewrite Hf, length_app, length_fmap. cbn. lia.
    + rewrite Hf, lookup_app_l by (rewrite length_fmap; lia). rewrite list_lookup_fmap. change (S k) with (1 + k)%nat. by rewrite Hk.
  - eexists. split.
    + eapply request_ack; [|exact Hout]. cbn [handle]. by rewrite (st_bind_ok _ _ _ _ _ Hrun).
    + exists l', f', rs'. split; [done|]. by rewrite Hlog', Hlog, keep_below_entry.
Qed.

Lemma store_purge_ok cfg s log id :
  cfg_ok cfg -> store_ok cfg s log ->
  exists s', purge cfg id s = (Ok None, s') /\ store_ok cfg s' (filter (fun e => index id <= idx e) log) /\
    last_purged_log_id (meta (st_writer s')) = Some (encode_log_id id).
Proof.
  intros Hcfg (l & f & rs & Hok & Hlog).
  destruct (handle_purge_ok cfg _ _ l f rs (index id) (encode_log_id id) Hcfg Hok) as
    (fs' & w' & l' & f' & rs' & Hrun & Hok' & Hlog' & _ & Hout & _ & _ & _ & Hp).
  eexists. split; [|split].
  - eapply request_ack; [|exact Hout]. cbn [handle]. by rewrite (st_bind_ok _ _ _ _ _ Hrun).
  - exists l', f', rs'. split; [done|]. by rewrite Hlog', Hlog, keep_from_entry.
  - done.
Qed.

(** A reader that was just started is in line with the set. *)
Lemma spawn_reader_ok cfg s l f rs :
  writer_ok cfg (st_fs s) (st_writer s) l f rs ->
  reader_ok (st_fs s) (base_path (wal (st_writer s))) (l ++ [(f, rs)]) (wal_locked (st_writer s)) (spawn_reader s).
Proof.
  intros [Hlo [Ha Hv Hn] _]. pose proof Hlo as [Hset _ Hsz Hlsz _ _]. pose proof (so_core _ _ _ Hset) as [_ Hf _ (b & next & Hch & _) _].
  destruct (core_consec _ _ _ (so_core _ _ _ Hset)) as (a & Hca & _).
  assert (length (files (wal_locked (st_writer s))) = length (l ++ [(f, rs)])) as Hlen.
  { apply (f_equal length) in Hv. rewrite !length_fmap, Hf, length_fmap in Hv. done. }
  split.
  - apply list_eq. intros k. rewrite !list_lookup_fmap.
    destruct (files (wal_locked (st_writer s)) !! k) as [x|] eqn:Ex, ((l ++ [(f, rs)]) !! k) as [y|] eqn:Ey; cbn; [|exfalso..|done].
    + rewrite Forall_lookup in Hsz. rewrite Forall_lookup in Hlsz. by rewrite (Hsz _ _ Ey), (Hlsz _ _ Ex).
    + apply lookup_lt_Some in Ex. apply lookup_ge_None in Ey. lia.
    + apply lookup_lt_Some in Ey. apply lookup_ge_None in Ex. lia.
  - exists b. split.
    + intros k w Hk. cbn in Hk. rewrite list_lookup_fmap in Hk. destruct (files (wal_locked (st_writer s)) !! k) as [x|] eqn:Ex; [|done].
      injection Hk as <-. cbn. rewrite Hf in Hv. exact (view_consec b _ _ Hv (core_chain_consec _ _ _ Hch) _ _ Ex).
    + intros b' next' Hch'. left. destruct (l ++ [(f, rs)]) as [|[w0 rs0] l0] eqn:El0; [by destruct l|].
      destruct Hch as [<- _], Hch' as [<- _]. lia.
  - cbn. apply Forall_fmap. eapply Forall_impl; [by eapply view_named|]. done.
  - intros x e Hx He Hno. cbn in Hx. apply list_elem_of_fmap in Hx as (y & -> & Hy).
    rewrite Forall_forall in Hsz. rewrite Forall_forall in Hlsz. split; [cbn; by rewrite (Hsz _ He), (Hlsz _ Hy)|]. split; [done|by left].
  - apply Forall_forall. done.
Qed.

(** Reading through a new reader. *)
Lemma store_read_ok `{!EntryCodecOk T} cfg s log a b :
  store_ok cfg s log -> (forall e, head log = Some e -> idx e <= a) -> a <= b ->
  (forall e, last log = Some e -> b <= idx e) -> log <> [] ->
  exists r, try_get_log_entries (Included a) (Included b) s (spawn_reader s) = Ok (r, between a b log).
Proof.
  intros (l & f & rs & Hok & Hlog) Ha Hab Hb Hne. pose proof Hok as [Hlo Hsh _].
  pose proof (spawn_reader_ok _ _ _ _ _ Hok) as Hro.
  destruct (handle_logs_ok (st_fs s) (wal (st_writer s)) (l ++ [(f, rs)]) (wal_locked (st_writer s)) (spawn_reader s) a b) as [r Hr].
  - apply Hlo.
  - done.
  - done.
  - rewrite Hlog. destruct log as [|e log]; [done|]. intros x [= <-]. cbn. by apply Ha.
  - done.
  - rewrite Hlog. intros x Hx. rewrite fmap_last in Hx. destruct (last log) as [e|] eqn:El; [|done]. injection Hx as <-. cbn.
    specialize (Hb e eq_refl). split; [done|]. pose proof (lo_ids _ _ _ _ _ _ Hlo) as Hids. rewrite Hlog, Forall_fmap, Forall_forall in Hids.
    apply (Hids e). apply last_Some in El as [l0 ->]. apply elem_of_app. right. by left.
  - rewrite Hlog. by destruct log.
  - exists r. unfold try_get_log_entries. cbn [range_from range_until]. step_res. rewrite (proj2 (Z.ltb_ge _ _)) by lia.
    rewrite Hr. step_res. rewrite Hlog, select_entry, decode_all_data. done.
Qed.

End WalStore.

(** * Both stores implement the interface *)
Section Instances.
Context `{Checksum} `{Features} `{MetaCodec} `{LogIdCodec}.
Context {T V : Type} `{HasLogId T} `{EntryCodec T} `{!EntryCodecOk T}.
Context (cfg : Cfg) (Hcfg : cfg_ok cfg).

(** A request succeeded when its ack carries no error. *)
Definition acked (r : Res Error (option Error) * WalStore) : option WalStore :=
  match r with (Ok None, s) => Some s | _ => None end.

#[local] Instance wal_storage : LogStorage WalStore T := {|
  ls_append es s := acked (append cfg es s);
  ls_truncate id s := acked (truncate cfg id s);
  ls_purge id s := acked (purge cfg id s);
  ls_read a b s :=
    match try_get_log_entries (Included a) (Included b) s (spawn_reader s) with Ok (_, l) => Some l | _ => None end;
|}.

Lemma above_purged id (log : list T) i :
  idx_from i log ->
  above (index id) (filter (fun e => index id <= idx e) log) = above (index id) log /\
  exists n, filter (fun e => index id <= idx e) log = drop n log.
Proof.
  intros Hi. split.
  - unfold above. rewrite list_filter_filter. apply list_filter_iff. intros e. lia.
  - destruct (Z.le_gt_cases i (index id)) as [Hle|Hgt].
    + exists (Z.to_nat (index id - i)).
      assert (filter (fun e => index id <= idx e) log = above (index id - 1) log) as ->.
      { apply list_filter_iff. intros e. lia. }
      rewrite (above_drop i) by (done || lia). f_equal. lia.
    + exists 0%nat. rewrite drop_0. apply filter_all. intros e He. pose proof (idx_from_bounds _ _ _ Hi He). lia.
Qed.

Lemma store_idx s log : store_ok cfg s log -> exists i, idx_from i log.
Proof using Type.
  intros (l & f & rs & [[Hset _ _ _ _ _] _ _] & Hlog). pose proof (so_core _ _ _ Hset) as [_ _ He (no & next & Hch & _) _].
  exists next. apply ids_of_log. rewrite <- Hlog. by eapply log_of_ids.
Qed.

#[local] Program Instance wal_storage_spec : LogStorageSpec WalStore T := {|
  ls_log := store_ok cfg;
  can_append s es := Forall (fun e => fits cfg (entry_of e)) es /\ room (zlen es) s;
  can_truncate s id := index id < 2 ^ 64 /\ no_seam (index id) s;
  can_purge s id := True;
|}.
Next Obligation. intros. by eapply store_idx. Qed.
Next Obligation.
  intros s log es Hok [i Hi] [Hfit Hroom]. cbn.
  destruct (store_append_ok cfg s log es i Hcfg Hok Hfit Hi Hroom) as (s' & -> & ?). eauto.
Qed.
Next Obligation.
  intros s log id Hok [H64 Hseam]. cbn.
  destruct (store_truncate_ok cfg s log id Hcfg Hok H64 Hseam) as (s' & -> & ?). eauto.
Qed.
Next Obligation.
  intros s log id Hok _. cbn. destruct (store_purge_ok cfg s log id Hcfg Hok) as (s' & -> & ? & _).
  destruct (store_idx _ _ Hok) as [i Hi]. destruct (above_purged id log i Hi). eexists _, _. eauto.
Qed.
Next Obligation.
  intros s log a b Hok Ha [_ Hab] Hb Hne. cbn [ls_read wal_storage].
  destruct (store_read_ok cfg s log a b Hok Ha Hab Hb Hne) as [r ->]. done.
Qed.

(** ** The memory store *)
Abbreviation Mem := (Memory.LogStoreMemory (E:=T) (V:=V)).

#[local] Instance mem_storage : LogStorage Mem T := {|
  ls_append es s := Some (Memory.append es s);
  ls_truncate id s := Some (Memory.truncate id s);
  ls_purge id s := match Memory.purge id s with Ok s => Some s | _ => None end;
  ls_read a b s := match Memory.try_get_log_entries (Included a) (Included b) s with Ok l => Some l | _ => None end;
|}.

Lemma idx_range i (l : list T) :
  idx_from i l -> l <> [] -> Forall (fun e => 0 <= idx e < 2 ^ 64 - 1) l -> 0 <= i /\ i + zlen l < 2 ^ 64.
Proof using Type.
  intros Hi Hne Hb. rewrite Forall_forall in Hb. destruct (last l) as [x|] eqn:El; [|by apply last_None in El].
  apply last_Some in El as [l0 ->]. pose proof Hi as Hi'. apply idx_from_app in Hi' as [_ [Hx _]].
  pose proof (Hb x ltac:(apply elem_of_app; right; by left)) as Hxb. rewrite zlen_app. change (zlen [x]) with 1.
  split; [|lia]. destruct l0 as [|y l0]; [change (zlen (@nil T)) with 0 in Hx; lia|].
  destruct Hi as [Hy _]. pose proof (Hb y ltac:(by left)). lia.
Qed.

#[local] Program Instance mem_storage_spec : LogStorageSpec Mem T := {|
  ls_log s log := Memory.mem_ok s /\ Memory.logs s = log /\ Forall (fun e => 0 <= idx e < 2 ^ 64 - 1) log;
  can_append s es := Forall (fun e => 0 <= idx e < 2 ^ 64 - 1) es /\
    forall p, Memory.last_purged s = Some p -> Forall (fun e => index p < idx e) es;
  can_truncate s id := (forall e, head (Memory.logs s) = Some e -> idx e <= index id < 2 ^ 64);
  can_purge s id := exists e, e ∈ Memory.logs s /\ idx e = index id /\ get_log_id e = id;
|}.
Next Obligation. intros s log (Hok & <- & _). destruct (Memory.mo_idx _ Hok) as (i & ? & _). eauto. Qed.
Next Obligation.
  intros s log es (Hok & <- & Hb) [i Hi] [Hes Hp]. cbn. eexists. split; [done|].
  assert (Forall (fun e => 0 <= idx e < 2 ^ 64 - 1) (Memory.logs s ++ es)) as Hall by (by apply Forall_app).
  split; [|done]. apply Memory.append_ok; [done| |done].
  destruct (decide (Memory.logs s ++ es = [])) as [E|Hne].
  - exists 0. rewrite E. done.
  - exists i. split; [done|]. by apply idx_range.
Qed.
Next Obligation.
  intros s log id (Hok & <- & Hb) Hc. cbn. eexists. split; [done|].
  destruct (Memory.mem_truncate_ok s id Hok Hc) as (? & Hl & _). split; [done|]. split; [done|].
  rewrite Forall_forall in Hb. apply Forall_forall. intros e [_ He]%list_elem_of_filter. by apply Hb.
Qed.
Next Obligation.
  intros s log id (Hok & <- & Hb) Hc. cbn.
  destruct (Memory.mem_purge_ok s id Hok Hc) as (s' & -> & Hok' & Hl & _). eexists _, _. split; [done|].
  assert (above (index id) (above (index id) (Memory.logs s)) = above (index id) (Memory.logs s)) as Ha.
  { unfold above. rewrite list_filter_filter. apply list_filter_iff. intros e. lia. }
  split; [|split; [exact Ha|]].
  - split; [done|]. split; [done|]. rewrite Forall_forall in Hb. apply Forall_forall.
    intros e [_ He]%list_elem_of_filter. by apply Hb.
  - destruct (Memory.mo_idx _ Hok) as (i & Hi & _). destruct Hc as (e & He & Hx & _).
    pose proof (idx_from_bounds _ _ _ Hi He). eexists. rewrite (above_drop i) by (done || lia). done.
Qed.
Next Obligation.
  intros s log a b (Hok & <- & _) Ha Hab Hb Hne. cbn [ls_read mem_storage]. by rewrite Memory.try_get_ok.
Qed.

End Instances.

(** * A client of the interface *)

(** The operations a Raft node runs on its log, and the reference log they
    describe: the entries behind the last purged id. *)
Inductive Op (T : Type) : Type :=
| OAppend (es : list T)
| OTruncate (id : LogId)
| OPurge (id : LogId).
Arguments OAppend {T} es.
Arguments OTruncate {T} id.
Arguments OPurge {T} id.

Section Client.
Context {S T : Type} `{LogStorageSpec S T}.

Definition run_op (o : Op T) (s : S) : option S :=
  match o with
  | OAppend es => ls_append es s
  | OTruncate id => ls_truncate id s
  | OPurge id => ls_purge id s
  end.

Fixpoint run_ops (os : list (Op T)) (s : S) : option S :=
  match os with
  | [] => Some s
  | o :: os => s ← run_op o s; run_ops os s
  end.

(** The reference: the frontier and the log behind it. *)
Definition ref_op (o : Op T) (r : Z * list T) : Z * list T :=
  let '(p, log) := r in
  match o with
  | OAppend es => (p, log ++ es)
  | OTruncate id => (p, below (index id) log)
  | OPurge id => (Z.max p (index id), above (index id) log)
  end.

(** The store accepts the operations, one after the other; new entries continue
    the log behind the frontier. *)
Definition op_ok (o : Op T) (s : S) (log : list T) (p : Z) : Prop :=
  match o with
  | OAppend es => can_append s es /\ (exists i, idx_from i (log ++ es)) /\ Forall (fun e => p < idx e) es
  | OTruncate id => can_truncate s id
  | OPurge id => can_purge s id
  end.

Fixpoint ops_ok (os : list (Op T)) (s : S) (p : Z) : Prop :=
  match os with
  | [] => True
  | o :: os =>
      (forall log, ls_log s log -> op_ok o s log p) /\
      forall s', run_op o s = Some s' -> ops_ok os s' (match o with OPurge id => Z.max p (index id) | _ => p end)
  end.

Lemma above_above i j (l : list T) : above i (above j l) = above (Z.max i j) l.
Proof using Type. unfold above. rewrite list_filter_filter. apply list_filter_iff. intros e. lia. Qed.
Lemma above_below i j (l : list T) : above i (below j l) = below j (above i l).
Proof using Type. unfold above, below. rewrite !list_filter_filter. apply list_filter_iff. intros e. lia. Qed.
Lemma above_app i (l k : list T) : above i (l ++ k) = above i l ++ above i k.
Proof using Type. apply filter_app. Qed.

(** One operation on the store and on the reference. *)
Lemma run_op_ref o s log p :
  ls_log s log -> op_ok o s log p ->
  exists s' log', run_op o s = Some s' /\ ls_log s' log' /\
    (match o with OPurge id => Z.max p (index id) | _ => p end, above (match o with OPurge id => Z.max p (index id) | _ => p end) log') =
    ref_op o (p, above p log).
Proof.
  intros Hl Ho. destruct o as [es|id|id]; cbn [run_op ref_op op_ok] in *.
  - destruct Ho as (Hc & Hi & Hp). destruct (ls_append_spec s log es Hl Hi Hc) as (s' & Hr & Hl').
    exists s', (log ++ es). split; [done|]. split; [done|]. rewrite above_app. do 2 f_equal.
    apply filter_all. by apply Forall_forall.
  - destruct (ls_truncate_spec s log id Hl Ho) as (s' & Hr & Hl'). exists s', (below (index id) log).
    split; [done|]. split; [done|]. by rewrite above_below.
  - destruct (ls_purge_spec s log id Hl Ho) as (s' & log' & Hr & Hl' & Ha & _). exists s', log'.
    split; [done|]. split; [done|]. f_equal.
    by rewrite above_above, (Z.max_comm (index id) p), <- (above_above p (index id) log), <- Ha, above_above.
Qed.

(** Any accepted sequence of operations leaves the log that the reference has
    behind its frontier. *)
Lemma run_ops_ref os : forall s log p,
  ls_log s log -> ops_ok os s p ->
  exists s' log', run_ops os s = Some s' /\ ls_log s' log' /\
    let r := fold_left (fun r o => ref_op o r) os (p, above p log) in above r.1 log' = r.2.
Proof.
  induction os as [|o os IH]; intros s log p Hl Hok; [by exists s, log|].
  destruct Hok as [Ho Hrest]. destruct (run_op_ref o s log p Hl (Ho log Hl)) as (s1 & log1 & Hr & Hl1 & Href).
  destruct (IH s1 log1 _ Hl1 (Hrest s1 Hr)) as (s' & log' & Hr' & Hl' & Hfin).
  exists s', log'. cbn [run_ops fold_left]. rewrite Hr. cbn [mbind option_bind]. split; [done|]. split; [done|].
  rewrite <- Href. exact Hfin.
Qed.

End Client.
