(* ===== verification/KvCache.v ===== *)
(** One cache: [hiqlite/src/store/state_machine/memory/kv_handler.rs].

    The task owns the values with their expiry, the counters, and an index from
    expiry instants to the keys due then.  [now] is the wall clock in
    microseconds, read where the code reads it.  An answer of [None] is a request
    without a reply channel. *)
From stdpp Require Import base gmap strings list numbers sorting.
From Stdlib Require Import Strings.Byte.
From S2P Require Import Prelude.

#[local] Open Scope Z_scope.
#[local] Set Warnings "-clear-no-such-hyp".

Module Kv.

Abbreviation Values := (gmap string (list byte * option Z)).
Abbreviation Expiries := (gmap Z (list string)).
Abbreviation CacheSnapshot := (Values * gmap string Z)%type.

Inductive CacheRequestHandler : Type :=
| Get (key : string)
| GetRemove (key : string)
| Put (key : string) (value : list byte) (expires : option Z)
| Replace (key : string) (value : list byte) (expires : option Z)
| Delete (key : string)
| Clear
| ClearCounters
| SnapshotBuildCacheOnly
| SnapshotBuild
| SnapshotInstall (snapshot : CacheSnapshot)
| CounterGet (key : string)
| CounterSet (key : string) (value : Z)
| CounterAdd (key : string) (delta : Z)
| CounterDel (key : string).

Inductive Reply : Type :=
| RValue (v : option (list byte))
| RKvs (m : gmap string (list byte))
| RSnapshot (s : CacheSnapshot)
| RCounter (v : option Z)
| RDone.

Record Cache : Type := mkCache {
  values : Values;
  counters : gmap string Z;
  expiries : Expiries;
}.

Definition empty_cache : Cache := mkCache ∅ ∅ ∅.

Definition remove_expiry (exp : Z) (key : string) (e : Expiries) : Expiries :=
  match e !! exp with
  | Some keys =>
      let keys := filter (fun k => k <> key) keys in
      match keys with [] => delete exp e | _ => <[exp := keys]> e end
  | None => e
  end.

Definition register_expiry (key : string) (exp : Z) (e : Expiries) : Expiries :=
  <[exp := default [] (e !! exp) ++ [key]]> e.

(** [drop_expiry]: reads the expiry of the stored entry. *)
Definition drop_expiry (v : Values) (key : string) (e : Expiries) : Expiries :=
  match v !! key with
  | Some (_, Some exp) => remove_expiry exp key e
  | _ => e
  end.

Definition register_opt (key : string) (expires : option Z) (e : Expiries) : Expiries :=
  match expires with Some exp => register_expiry key exp e | None => e end.

(** [expiries.first_key_value()]: the smallest key. *)
Fixpoint min_key (l : list (Z * list string)) : option (Z * list string) :=
  match l with
  | [] => None
  | (k, ks) :: l =>
      match min_key l with
      | Some (k', ks') => if k' <? k then Some (k', ks') else Some (k, ks)
      | None => Some (k, ks)
      end
  end.
Definition first_key_value (e : Expiries) : option (Z * list string) := min_key (map_to_list e).

Definition remove_keys (keys : list string) (v : Values) : Values := foldl (fun v k => delete k v) v keys.

(** [exp - Utc::now().timestamp_micros() < 1], on [i64]: the difference wraps. *)
Definition is_due (now exp : Z) : bool := wrap_i64 (exp - now) <? 1.

(** One turn of the loop head: [true] when an expiry was due and popped. *)
Definition expire_step (now : Z) (c : Cache) : Cache * bool :=
  match first_key_value (expiries c) with
  | Some (exp, keys) =>
      if is_due now exp
      then (mkCache (remove_keys keys (values c)) (counters c) (delete exp (expiries c)), true)
      else (c, false)
  | None => (c, false)
  end.

Fixpoint expire_loop (fuel : nat) (now : Z) (c : Cache) : option Cache :=
  match fuel with
  | O => None
  | S fuel =>
      let '(c, again) := expire_step now c in
      if again : bool then expire_loop fuel now c else Some c
  end.

Definition expire_due (now : Z) (c : Cache) : option Cache := expire_loop (S (size (expiries c))) now c.

(** [current.saturating_add(delta)] on [i64] *)
Definition saturating_add (a b : Z) : Z := Z.max i64_min (Z.min i64_max (a + b)).

(** What a lookup may answer at [now]. *)
Definition visible (now : Z) (o : option (list byte * option Z)) : option (list byte) :=
  match o with
  | Some (v, Some exp) => if exp <=? now then None else Some v
  | Some (v, None) => Some v
  | None => None
  end.

Definition rebuild_index (v : Values) : Expiries :=
  foldl (fun e kv => register_opt kv.1 kv.2.2 e) ∅ (map_to_list v).

(** One request. *)
Definition handle (now : Z) (req : CacheRequestHandler) (c : Cache) : Cache * option Reply :=
  match req with
  | Get key => (c, Some (RValue (visible now (values c !! key))))
  | GetRemove key =>
      let e := drop_expiry (values c) key (expiries c) in
      (mkCache (delete key (values c)) (counters c) e, Some (RValue (visible now (values c !! key))))
  | Put key value expires =>
      let e := register_opt key expires (drop_expiry (values c) key (expiries c)) in
      (mkCache (<[key := (value, expires)]> (values c)) (counters c) e, None)
  | Replace key value expires =>
      let e := register_opt key expires (drop_expiry (values c) key (expiries c)) in
      (mkCache (<[key := (value, expires)]> (values c)) (counters c) e,
       Some (RValue (fst <$> (values c !! key))))
  | Delete key =>
      let e := drop_expiry (values c) key (expiries c) in
      (mkCache (delete key (values c)) (counters c) e, None)
  | Clear => (mkCache ∅ (counters c) ∅, None)
  | ClearCounters => (mkCache (values c) ∅ (expiries c), None)
  | SnapshotBuildCacheOnly => (c, Some (RKvs (fst <$> values c)))
  | SnapshotBuild => (c, Some (RSnapshot (values c, counters c)))
  | SnapshotInstall (kvs, counts) => (mkCache kvs counts (rebuild_index kvs), Some RDone)
  | CounterGet key => (c, Some (RCounter (counters c !! key)))
  | CounterSet key value => (mkCache (values c) (<[key := value]> (counters c)) (expiries c), None)
  | CounterAdd key delta =>
      let v := match counters c !! key with
               | Some current => saturating_add current delta
               | None => delta
               end in
      (mkCache (values c) (<[key := v]> (counters c)) (expiries c), Some (RCounter (Some v)))
  | CounterDel key => (mkCache (values c) (delete key (counters c)) (expiries c), None)
  end.

(** One iteration of the task: due entries are dropped, then the request is
    handled; the clock may advance in between. *)
Definition serve (now now' : Z) (req : CacheRequestHandler) (c : Cache) : option (Cache * option Reply) :=
  c ← expire_due now c; Some (handle now' req c).

(** * The index mirrors the values *)

Definition due (e : Expiries) (exp : Z) (key : string) : Prop := exists keys, e !! exp = Some keys /\ key ∈ keys.

Record cache_ok (c : Cache) : Prop := {
  ck_index : forall exp key, due (expiries c) exp key <-> exists v, values c !! key = Some (v, Some exp);
  ck_bucket : forall exp keys, expiries c !! exp = Some keys -> keys <> [] /\ NoDup keys;
}.

(** Index operations in terms of [due]. *)
Lemma due_remove exp key e exp' key' :
  due (remove_expiry exp key e) exp' key' <-> due e exp' key' /\ ~ (exp' = exp /\ key' = key).
Proof.
  unfold remove_expiry, due. destruct (e !! exp) as [keys|] eqn:E.
  - assert (forall ks, filter (fun k => k <> key) keys = ks ->
      due (match ks with [] => delete exp e | _ => <[exp := ks]> e end) exp' key' <->
      (exists keys, e !! exp' = Some keys /\ key' ∈ keys) /\ ~ (exp' = exp /\ key' = key)) as Hx; [|by apply Hx].
    intros ks Hks. assert (forall k, k ∈ ks <-> k <> key /\ k ∈ keys) as Hin.
    { intros k. rewrite <- Hks. by rewrite list_elem_of_filter. }
    unfold due. destruct (decide (exp' = exp)) as [->|Hne].
    + rewrite E. destruct ks as [|k0 ks].
      * rewrite lookup_delete_eq. split; [by intros (? & ? & _)|]. intros [(ks' & [= <-] & Hk) Hno].
        exfalso. assert (key' ∈ @nil string) as Hx; [|by inversion Hx]. apply Hin. split; [|done]. intros ->. by apply Hno.
      * rewrite lookup_insert_eq. split.
        -- intros (ks' & [= <-] & Hk). apply Hin in Hk as [Hk1 Hk2]. split; [eauto|]. by intros [_ ?].
        -- intros [(ks' & [= <-] & Hk) Hno]. eexists. split; [done|]. apply Hin. split; [|done]. intros ->. by apply Hno.
    + assert ((match ks with [] => delete exp e | _ => <[exp := ks]> e end) !! exp' = e !! exp') as ->.
      { destruct ks; [by rewrite lookup_delete_ne|by rewrite lookup_insert_ne]. }
      split; [intros Hd; split; [done|by intros [? _]]|by intros [? _]].
  - split; [|by intros [? _]]. intros (keys & Hk & Hin). split; [eauto|]. intros [-> _]. congruence.
Qed.

Lemma due_register exp key e exp' key' :
  due (register_expiry key exp e) exp' key' <-> due e exp' key' \/ (exp' = exp /\ key' = key).
Proof.
  unfold register_expiry, due. destruct (decide (exp' = exp)) as [->|Hne].
  - rewrite lookup_insert_eq. split.
    + intros (ks & [= <-] & [Hin|Hin]%elem_of_app).
      * left. destruct (e !! exp) as [ks|]; [eauto|by inversion Hin].
      * right. by apply list_elem_of_singleton in Hin.
    + intros [(ks & -> & Hin)|[_ ->]]; eexists; (split; [done|]); apply elem_of_app; [by left|right; by left].
  - rewrite lookup_insert_ne by done. split; [by left|]. intros [?|[? _]]; done.
Qed.

Definition bucket_ok (e : Expiries) : Prop := forall exp keys, e !! exp = Some keys -> keys <> [] /\ NoDup keys.

Lemma bucket_remove exp key e : bucket_ok e -> bucket_ok (remove_expiry exp key e).
Proof.
  intros Hb. unfold remove_expiry. destruct (e !! exp) as [keys|] eqn:E; [|done].
  destruct (filter (fun k => k <> key) keys) as [|k ks] eqn:Ef; intros exp' keys' Hl.
  - apply lookup_delete_Some in Hl as [_ Hl]. eauto.
  - apply lookup_insert_Some in Hl as [[<- <-]|[_ Hl]]; [|eauto]. split; [done|].
    rewrite <- Ef. apply NoDup_filter. by eapply Hb.
Qed.

Lemma bucket_register exp key e : bucket_ok e -> ~ due e exp key -> bucket_ok (register_expiry key exp e).
Proof.
  intros Hb Hd. intros exp' keys' Hl. unfold register_expiry in Hl.
  apply lookup_insert_Some in Hl as [[<- <-]|[_ Hl]]; [|eauto].
  split; [by destruct (default [] (e !! exp))|]. destruct (e !! exp) as [ks|] eqn:E; cbn.
  - apply NoDup_app. split; [by eapply Hb|]. split; [|apply NoDup_singleton].
    intros k Hk ->%list_elem_of_singleton. apply Hd. by exists ks.
  - apply NoDup_singleton.
Qed.

Lemma due_drop c key exp k :
  cache_ok c -> due (drop_expiry (values c) key (expiries c)) exp k <-> due (expiries c) exp k /\ k <> key.
Proof.
  intros [Hi _]. unfold drop_expiry. destruct (values c !! key) as [[v [x|]]|] eqn:E.
  - rewrite due_remove. split; intros [Hd Hn]; (split; [done|]).
    + intros ->. apply Hn. split; [|done]. apply Hi in Hd as [v' Hv]. congruence.
    + intros [_ ?]. done.
  - split; [|by intros [? _]]. intros Hd. split; [done|]. intros ->. apply Hi in Hd as [v' Hv]. congruence.
  - split; [|by intros [? _]]. intros Hd. split; [done|]. intros ->. apply Hi in Hd as [v' Hv]. congruence.
Qed.

Lemma bucket_drop c key : cache_ok c -> bucket_ok (drop_expiry (values c) key (expiries c)).
Proof.
  intros [_ Hb]. unfold drop_expiry. destruct (values c !! key) as [[v [x|]]|]; [by apply bucket_remove|done|done].
Qed.

(** Storing an entry: the index follows. *)
Lemma store_ok c key value expires cnt :
  cache_ok c ->
  cache_ok (mkCache (<[key := (value, expires)]> (values c)) cnt
              (register_opt key expires (drop_expiry (values c) key (expiries c)))).
Proof.
  intros Hok. pose proof Hok as [Hi _].
  assert (forall exp k, due (register_opt key expires (drop_expiry (values c) key (expiries c))) exp k <->
    (due (expiries c) exp k /\ k <> key) \/ (expires = Some exp /\ k = key)) as Hd.
  { intros exp k. unfold register_opt. destruct expires as [x|].
    - rewrite due_register, due_drop by done. naive_solver.
    - rewrite due_drop by done. naive_solver. }
  split; cbn.
  - intros exp k. rewrite Hd, Hi, lookup_insert. case_decide as Hk; [subst|]; naive_solver.
  - unfold register_opt. destruct expires as [x|]; [|by apply bucket_drop].
    apply bucket_register; [by apply bucket_drop|]. rewrite due_drop by done. by intros [_ ?].
Qed.

Lemma delete_ok c key cnt :
  cache_ok c -> cache_ok (mkCache (delete key (values c)) cnt (drop_expiry (values c) key (expiries c))).
Proof.
  intros Hok. pose proof Hok as [Hi _]. split; cbn; [|by apply bucket_drop].
  intros exp k. rewrite due_drop, Hi by done. rewrite lookup_delete. case_decide; naive_solver.
Qed.

(** The index of an installed snapshot is built from its entries. *)
Lemma rebuild_ok v cnt : cache_ok (mkCache v cnt (rebuild_index v)).
Proof.
  unfold rebuild_index.
  assert (forall (l : list (string * (list byte * option Z))) e (m : Values), NoDup (l.*1) -> (forall k x, (k, x) ∈ l -> m !! k = None) ->
    (forall exp key, due e exp key <-> exists v, m !! key = Some (v, Some exp)) -> bucket_ok e ->
    let e' := foldl (fun e kv => register_opt kv.1 kv.2.2 e) e l in
    bucket_ok e' /\ forall exp key, due e' exp key <->
      (exists v, m !! key = Some (v, Some exp)) \/ exists v, (key, (v, Some exp)) ∈ l) as Hgen.
  { induction l as [|[k [val exp0]] l IH]; intros e m Hnd Hfresh Hi Hb; cbn.
    - split; [done|]. intros exp key. rewrite Hi. split; [auto|]. intros [?|(? & Hx)]; [done|by inversion Hx].
    - inversion Hnd as [|? ? Hk Hnd']; subst. pose proof (Hfresh k _ ltac:(by left)) as Hmk.
      destruct (IH (register_opt k exp0 e) (<[k := (val, exp0)]> m)) as [Hb' Hd']; [done| | | |].
      + intros k' x Hin. rewrite lookup_insert_ne; [eapply Hfresh; by right|].
        intros <-. apply Hk. apply list_elem_of_fmap. by exists (k, x).
      + intros exp key. unfold register_opt. rewrite lookup_insert. case_decide as Ek.
        * subst key. destruct exp0 as [x|]; [rewrite due_register|]; rewrite Hi, Hmk; naive_solver.
        * destruct exp0 as [x|]; [rewrite due_register|]; rewrite Hi; naive_solver.
      + unfold register_opt. destruct exp0 as [x|]; [|done]. apply bucket_register; [done|].
        rewrite Hi, Hmk. by intros [? ?].
      + split; [done|]. intros exp key. rewrite Hd'. setoid_rewrite elem_of_cons. rewrite lookup_insert.
        case_decide as Ek; [subst key; rewrite Hmk|]; naive_solver. }
  destruct (Hgen (map_to_list v) ∅ ∅) as [Hb Hd].
  - apply NoDup_fst_map_to_list.
  - intros. apply lookup_empty.
  - intros exp key. unfold due. rewrite !lookup_empty. naive_solver.
  - intros exp keys. by rewrite lookup_empty.
  - split; cbn; [|done]. intros exp key. rewrite Hd, lookup_empty. setoid_rewrite elem_of_map_to_list. naive_solver.
Qed.

(** Every request keeps the index in line with the values. *)
Lemma handle_preserves now req c : cache_ok c -> cache_ok (handle now req c).1.
Proof.
  intros Hok. destruct req as [k|k|k v x|k v x|k| | | | |[kvs cs]|k|k v|k v|k]; cbn [handle fst];
    try done; try (by apply store_ok); try (by apply delete_ok); try (by apply rebuild_ok);
    try (by destruct Hok; split).
Qed.

(** * Expiry *)
Definition liveb (now : Z) (exp : option Z) : bool := match exp with Some e => now <? e | None => true end.

(** The entries that have not expired at [now]. *)
Definition alive (now : Z) (v : Values) : Values := filter (fun kv => liveb now kv.2.2 = true) v.

Lemma alive_lookup now v key :
  alive now v !! key = match v !! key with Some x => if liveb now x.2 then Some x else None | None => None end.
Proof.
  unfold alive. rewrite map_lookup_filter. destruct (v !! key) as [x|]; [|done]. cbn.
  destruct (liveb now x.2) eqn:E; cbn; case_guard; naive_solver.
Qed.

Lemma min_key_spec l :
  match min_key l with
  | Some (k, ks) => (k, ks) ∈ l /\ forall k' ks', (k', ks') ∈ l -> k <= k'
  | None => l = []
  end.
Proof.
  induction l as [|[k ks] l IH]; cbn; [done|]. destruct (min_key l) as [[k' ks']|].
  - destruct IH as [Hin Hmin]. destruct (Z.ltb_spec k' k) as [Hlt|Hge].
    + split; [by right|]. intros k2 ks2 [[= -> ->]|H2]%elem_of_cons; [lia|eauto].
    + split; [by left|]. intros k2 ks2 [[= -> ->]|H2]%elem_of_cons; [lia|]. specialize (Hmin _ _ H2). lia.
  - subst. split; [by left|]. intros k2 ks2 [[= -> ->]|H2]%elem_of_cons; [lia|by inversion H2].
Qed.

Lemma first_key_value_spec e :
  match first_key_value e with
  | Some (k, ks) => e !! k = Some ks /\ forall k' ks', e !! k' = Some ks' -> k <= k'
  | None => e = ∅
  end.
Proof.
  unfold first_key_value. pose proof (min_key_spec (map_to_list e)) as Hm. destruct (min_key _) as [[k ks]|].
  - destruct Hm as [Hin Hmin]. apply elem_of_map_to_list in Hin. split; [done|].
    intros k' ks' Hk. by eapply Hmin, elem_of_map_to_list.
  - by apply map_to_list_empty_iff.
Qed.

Lemma remove_keys_lookup keys v k : remove_keys keys v !! k = if decide (k ∈ keys) then None else v !! k.
Proof.
  unfold remove_keys. revert v. induction keys as [|x keys IH]; intros v; cbn; [done|]. rewrite IH.
  destruct (decide (k ∈ keys)) as [Hin|Hn]; [by rewrite decide_True by (by right)|].
  rewrite lookup_delete. case_decide as Ex; [subst; by rewrite decide_True by (by left)|].
  rewrite decide_False; [done|]. rewrite elem_of_cons. naive_solver.
Qed.

(** What the loop head leaves: it stops at the first expiry that is not due, so
    an entry stays when it has no expiry or there is one up to its own that is not
    due. *)
Definition staysb (now : Z) (v : Values) (exp : option Z) : bool :=
  match exp with
  | None => true
  | Some e => existsb (fun kv => match kv.2.2 with Some e' => (e' <=? e) && negb (is_due now e') | None => false end) (map_to_list v)
  end.
Definition swept (now : Z) (v : Values) : Values := filter (fun kv => staysb now v kv.2.2 = true) v.

(** All expiries lie within 2^63 microseconds of the clock. *)
Definition clock_fits (now : Z) (v : Values) : Prop :=
  map_Forall (fun _ x => forall e, x.2 = Some e -> i64_min <= e - now <= i64_max) v.

Lemma staysb_spec now v e :
  staysb now v (Some e) = true <-> exists k x e', v !! k = Some (x, Some e') /\ e' <= e /\ is_due now e' = false.
Proof.
  cbn. rewrite existsb_exists. split.
  - intros ([k [x [e'|]]] & Hin & Hb); [|done]. cbn in Hb. apply andb_true_iff in Hb as [Hle Hd].
    apply list_elem_of_In, elem_of_map_to_list in Hin. exists k, x, e'. split; [done|]. split; [lia|]. by apply negb_true_iff.
  - intros (k & x & e' & Hk & Hle & Hd). exists (k, (x, Some e')). split; [by apply list_elem_of_In, elem_of_map_to_list|].
    cbn. rewrite Hd. cbn. rewrite andb_true_r. by apply Z.leb_le.
Qed.

Lemma swept_lookup now v key :
  swept now v !! key = match v !! key with Some x => if staysb now v x.2 then Some x else None | None => None end.
Proof.
  unfold swept. rewrite map_lookup_filter. destruct (v !! key) as [x|]; [|done]. cbn [mbind option_bind snd].
  destruct (staysb now v x.2) eqn:E; case_guard; naive_solver.
Qed.

Lemma is_due_fits now e : i64_min <= e - now <= i64_max -> is_due now e = (e <=? now).
Proof. intros Hr. unfold is_due. rewrite wrap_i64_small by done. destruct (Z.ltb_spec (e - now) 1), (Z.leb_spec e now); lia. Qed.

(** Within the range of the clock these are the entries that have not expired. *)
Lemma swept_alive now v : clock_fits now v -> swept now v = alive now v.
Proof.
  intros Hf. apply map_eq. intros k. rewrite swept_lookup, alive_lookup. destruct (v !! k) as [[x [e|]]|] eqn:Ek; [|done|done].
  cbn [snd liveb]. pose proof (Hf _ _ Ek e eq_refl) as Hr.
  assert (staysb now v (Some e) = (now <? e)) as ->; [|done].
  apply Bool.eq_true_iff_eq. rewrite staysb_spec, Z.ltb_lt. split.
  - intros (k' & x' & e' & Hk' & Hle & Hd). rewrite (is_due_fits _ _ (Hf _ _ Hk' e' eq_refl)), Z.leb_gt in Hd. lia.
  - intros Hlt. exists k, x, e. split; [done|]. split; [lia|]. rewrite is_due_fits, Z.leb_gt by done. lia.
Qed.

Lemma expire_step_due now c exp keys :
  cache_ok c -> first_key_value (expiries c) = Some (exp, keys) -> is_due now exp = true ->
  let c' := mkCache (remove_keys keys (values c)) (counters c) (delete exp (expiries c)) in
  cache_ok c' /\ swept now (values c') = swept now (values c).
Proof.
  intros [Hi Hb] Hf Hdue c'. pose proof (first_key_value_spec (expiries c)) as Hs. rewrite Hf in Hs. destruct Hs as [Hk Hmin].
  assert (forall k, k ∈ keys <-> exists v, values c !! k = Some (v, Some exp)) as Hkeys.
  { intros k. rewrite <- Hi. unfold due. rewrite Hk. naive_solver. }
  split; [split; cbn|].
  - intros exp' k. unfold due. rewrite lookup_delete, remove_keys_lookup.
    case_decide as Ee; [subst exp'|]; case_decide as Ek; rewrite ?Hkeys in Ek.
    + naive_solver.
    + split; [naive_solver|]. intros [v Hv]. exfalso. eauto.
    + split; [|naive_solver]. intros Hd. apply Hi in Hd as [v Hv]. destruct Ek as [v' Hv']. congruence.
    + apply Hi.
  - intros exp' ks. rewrite lookup_delete. case_decide; [done|]. apply Hb.
  - assert (forall e, staysb now (values c') (Some e) = staysb now (values c) (Some e)) as Hst.
    { intros e. apply Bool.eq_true_iff_eq. rewrite !staysb_spec. cbn [values c']. setoid_rewrite remove_keys_lookup. split.
      - intros (k & x & e' & Hx & ?). case_decide; [done|]. eauto 10.
      - intros (k & x & e' & Hx & Hle & Hd). exists k, x, e'. rewrite decide_False; [done|].
        rewrite Hkeys. intros [v Hv]. assert (e' = exp) as -> by congruence. congruence. }
    apply map_eq. intros k. rewrite !swept_lookup. cbn [values c']. rewrite remove_keys_lookup. case_decide as Ek.
    + apply Hkeys in Ek as [v Hv]. rewrite Hv. cbn [snd]. destruct (staysb now (values c) (Some exp)) eqn:E; [|done].
      exfalso. apply staysb_spec in E as (k' & x & e' & Hx & Hle & Hd).
      assert (due (expiries c) e' k') as (ks & Hd' & _) by (apply Hi; eauto). pose proof (Hmin _ _ Hd').
      assert (e' = exp) as -> by lia. congruence.
    + destruct (values c !! k) as [[v [e|]]|]; [|done|done]. cbn [snd]. by rewrite Hst.
Qed.

(** The loop head ends, and leaves exactly the entries before the first expiry
    that is not due. *)
Lemma expire_loop_ok now fuel : forall c,
  cache_ok c -> (size (expiries c) < fuel)%nat ->
  exists c', expire_loop fuel now c = Some c' /\ cache_ok c' /\ counters c' = counters c /\
    values c' = swept now (values c).
Proof.
  induction fuel as [|fuel IH]; intros c Hok Hsz; [lia|]. cbn [expire_loop]. unfold expire_step.
  pose proof (first_key_value_spec (expiries c)) as Hs. destruct (first_key_value (expiries c)) as [[exp keys]|] eqn:Ef.
  - destruct Hs as [Hk Hmin]. destruct (is_due now exp) eqn:Hd.
    + destruct (expire_step_due now c exp keys Hok Ef Hd) as [Hok' Ha].
      destruct (IH _ Hok') as (c' & Hrun & Hc' & Hcnt & Hv).
      { cbn. rewrite map_size_delete_Some by eauto. assert (size (expiries c) <> 0%nat); [|lia].
        intros E. apply map_size_empty_iff in E. by rewrite E, lookup_empty in Hk. }
      exists c'. rewrite Hrun, Hv, Ha. done.
    + exists c. split; [done|]. split; [done|]. split; [done|]. apply map_eq. intros k. rewrite swept_lookup.
      destruct (values c !! k) as [[v [x|]]|] eqn:E; [|done|done]. cbn [snd].
      assert (due (expiries c) x k) as (ks & Hx & _) by (apply (ck_index _ Hok); eauto).
      assert (staysb now (values c) (Some x) = true) as ->; [|done]. apply staysb_spec.
      destruct (ck_bucket _ Hok _ _ Hk) as [Hne _]. destruct keys as [|k0 keys]; [done|].
      destruct (proj1 (ck_index _ Hok exp k0)) as [v0 Hv0]; [exists (k0 :: keys); split; [done|by left]|].
      exists k0, v0, exp. split; [done|]. split; [by eapply Hmin|done].
  - exists c. split; [done|]. split; [done|]. split; [done|]. apply map_eq. intros k. rewrite swept_lookup.
    destruct (values c !! k) as [[v [x|]]|] eqn:E; [|done|done].
    assert (due (expiries c) x k) as (ks & Hx & _) by (apply (ck_index _ Hok); eauto).
    by rewrite Hs, lookup_empty in Hx.
Qed.

Lemma expire_due_ok now c :
  cache_ok c -> exists c', expire_due now c = Some c' /\ cache_ok c' /\ counters c' = counters c /\
    values c' = swept now (values c).
Proof. intros Hok. apply expire_loop_ok; [done|lia]. Qed.

(** Dropping what is expired is not observable at a later instant. *)
Lemma visible_alive now now' v key :
  now <= now' -> visible now' (alive now v !! key) = visible now' (v !! key).
Proof.
  intros Hle. rewrite alive_lookup. destruct (v !! key) as [[x [e|]]|]; cbn; [|done|done].
  destruct (Z.ltb_spec now e); cbn; [done|]. by rewrite (proj2 (Z.leb_le _ _)) by lia.
Qed.

Lemma saturating_add_range a b : i64_min <= saturating_add a b <= i64_max.
Proof. unfold saturating_add, i64_min, i64_max. lia. Qed.

(** * Caches that answer alike

    The order of the keys in a bucket of the index is not observable. *)
#[global] Instance cache_equiv : Equiv Cache := fun c c' => values c = values c' /\ counters c = counters c'.
#[global] Instance cache_equivalence : Equivalence (≡@{Cache}).
Proof.
  split; [by intros c|by intros c c' [E1 E2]; split|]. intros a b c [E1 E2] [E3 E4]. split; congruence.
Qed.

Lemma handle_same now req c c' :
  c ≡ c' -> (handle now req c).1 ≡ (handle now req c').1 /\ (handle now req c).2 = (handle now req c').2.
Proof.
  intros [Ev Ec]. unfold equiv, cache_equiv.
  destruct req as [k|k|k v x|k v x|k| | | | |[kvs cs]|k|k v|k v|k]; cbn [handle fst snd values counters]; by rewrite ?Ev, ?Ec.
Qed.

(** A request is always served, alike by caches that answer alike. *)
Lemma serve_same now now' req c c' :
  cache_ok c -> cache_ok c' -> c ≡ c' ->
  exists d d' r, serve now now' req c = Some (d, r) /\ serve now now' req c' = Some (d', r) /\
    d ≡ d' /\ cache_ok d /\ cache_ok d'.
Proof.
  intros Hc Hc' [Ev Ec]. unfold serve.
  destruct (expire_due_ok now c Hc) as (e & -> & He & Hce & Hve).
  destruct (expire_due_ok now c' Hc') as (e' & -> & He' & Hce' & Hve').
  destruct (handle_same now' req e e') as [H1 H2]; [split; congruence|].
  pose proof (handle_preserves now' req e He) as P. pose proof (handle_preserves now' req e' He') as P'.
  cbn. destruct (handle now' req e) as [d r], (handle now' req e') as [d' r']. cbn in *. subst r'. eauto 10.
Qed.

(** * Caches without expiry

    A cache none of whose entries expires is served the same at any time. *)
Definition lasting (c : Cache) : Prop := cache_ok c /\ map_Forall (fun _ v => v.2 = None) (values c).

Definition untimed (req : CacheRequestHandler) : Prop :=
  match req with
  | Put _ _ x | Replace _ _ x => x = None
  | SnapshotInstall (kvs, _) => map_Forall (fun _ v => v.2 = None) kvs
  | _ => True
  end.

Lemma lasting_index c : lasting c -> expiries c = ∅.
Proof.
  intros [[Hi Hb] Hv]. apply map_empty. intros exp. destruct (expiries c !! exp) as [keys|] eqn:E; [|done].
  destruct (Hb exp keys E) as [Hne _]. destruct keys as [|key keys]; [done|].
  destruct (proj1 (Hi exp key)) as [v Hkv]; [exists (key :: keys); split; [done|by left]|].
  by specialize (Hv _ _ Hkv).
Qed.

Lemma lasting_visible now now' c key : lasting c -> visible now (values c !! key) = visible now' (values c !! key).
Proof. intros [_ Hv]. destruct (values c !! key) as [[v x]|] eqn:E; [|done]. specialize (Hv _ _ E). cbn in Hv. by subst x. Qed.

Lemma serve_lasting n1 n1' n2 n2' req c :
  lasting c -> untimed req ->
  serve n1 n1' req c = serve n2 n2' req c /\
  forall d r, serve n1 n1' req c = Some (d, r) -> lasting d.
Proof.
  intros Hl Hu. pose proof (lasting_index c Hl) as He.
  assert (forall n n', serve n n' req c = Some (handle n' req c)) as Hs.
  { intros n n'. unfold serve, expire_due. rewrite He. cbn [expire_loop map_size]. unfold expire_step. by rewrite He. }
  rewrite !Hs. split.
  - f_equal. destruct req; try done; cbn [handle]; do 3 f_equal; by apply lasting_visible.
  - intros d r [= E]. pose proof (handle_preserves n1' req c (proj1 Hl)) as P. rewrite E in P. cbn in P. split; [done|].
    destruct Hl as [_ Hv]. destruct req as [k|k|k v x|k v x|k| | | | |[kvs cs]|k|k v|k v|k]; cbn in E, Hu; injection E as <- <-;
      cbn [values]; try done; try subst x; by first [apply map_Forall_delete|apply map_Forall_insert_2|apply map_Forall_empty].
Qed.

End Kv.
