(* ===== verification/DLock.v ===== *)
(** Distributed locks:
    [hiqlite/src/store/state_machine/memory/dlock_handler.rs].

    A reply channel is its number; the answers sent are returned in order.  The
    clock is an argument per read: [n1] inside [promote], [n2] in the handler
    afterwards.  The requesters are assumed to keep their reply channel open, so
    the [unwrap]s on sending do not fire. *)
From stdpp Require Import base gmap strings list numbers sorting.
From S2P Require Import Prelude.

#[local] Open Scope Z_scope.

Module DLock.

Definition LOCK_VALID_SECONDS : Z := 10.

Inductive LockState : Type :=
| Locked (id : Z)
| Queued (id : Z)
| Released.

Record LockQueue : Type := mkLock {
  current_ticket : option Z;
  exp : Z;
  queue : list Z;
}.

Abbreviation Locks := (gmap string LockQueue).
Abbreviation Waiters := (gmap string (list (Z * nat))).
Abbreviation Answers := (list (nat * LockState)).

Inductive LockRequest : Type :=
| Lock (key : string) (log_id : Z) (ack : nat)
| Acquire (key : string) (log_id : Z) (ack : nat)
| Release (key : string) (id : Z)
| Alive (key : string) (id : Z) (ack : nat)
| Await (key : string) (id : Z) (ack : nat)
| SnapshotInstall (data : Locks).

Record State : Type := mkState { locks : Locks; waiters : Waiters }.

Definition is_free (lock : LockQueue) (now : Z) : bool :=
  bool_decide (current_ticket lock = None) || (exp lock <? now).

(** The waiters of the promoted ticket are answered, the others stay in order. *)
Definition wake (front : Z) (key : string) (w : Waiters) : Waiters * Answers :=
  match w !! key with
  | Some list =>
      (<[key := filter (fun e => e.1 <> front) list]> w,
       (fun e => (e.2, Locked front)) <$> filter (fun e => e.1 = front) list)
  | None => (w, [])
  end.

Definition promote (now : Z) (lock : LockQueue) (w : Waiters) (key : string) : LockQueue * Waiters * Answers :=
  match queue lock with
  | front :: rest =>
      if is_free lock now then
        let '(w, out) := wake front key w in
        (mkLock (Some front) (now + LOCK_VALID_SECONDS) rest, w, out)
      else (lock, w, [])
  | [] => (lock, w, [])
  end.

Definition promote_key (now : Z) (key : string) (s : State) : State * Answers :=
  match locks s !! key with
  | Some lock =>
      let '(lock, w, out) := promote now lock (waiters s) key in
      (mkState (<[key := lock]> (locks s)) w, out)
  | None => (s, [])
  end.

(** The expired queues found at [now]; each promotion reads the clock again. *)
Definition sweep_expired (now : Z) (clk : string -> Z) (s : State) : State * Answers :=
  let keys := (map_to_list (filter (fun kl => is_free kl.2 now = true /\ queue kl.2 <> []) (locks s))).*1 in
  foldl (fun '(s, out) key => let '(s, o) := promote_key (clk key) key s in (s, out ++ o)) (s, []) keys.

Definition grant (key : string) (id now : Z) (queue : list Z) (s : State) : State :=
  mkState (<[key := mkLock (Some id) (now + LOCK_VALID_SECONDS) queue]> (locks s)) (waiters s).

Definition handle_lock (n1 n2 : Z) (key : string) (log_id : Z) (ack : nat) (s : State) : State * Answers :=
  let '(s, out) := promote_key n1 key s in
  match locks s !! key with
  | Some lock =>
      if bool_decide (current_ticket lock = None) || is_free lock n2
      then (grant key log_id n2 (queue lock) s, out ++ [(ack, Locked log_id)])
      else (mkState (<[key := mkLock (current_ticket lock) (exp lock) (queue lock ++ [log_id])]> (locks s)) (waiters s),
            out ++ [(ack, Queued log_id)])
  | None => (grant key log_id n2 [] s, out ++ [(ack, Locked log_id)])
  end.

Definition handle_acquire (n1 n2 : Z) (key : string) (log_id : Z) (ack : nat) (s : State) : State * Answers :=
  let '(s, out) := promote_key n1 key s in
  match locks s !! key with
  | Some lock =>
      if bool_decide (current_ticket lock = Some log_id) && (n2 <=? exp lock)
      then (s, out ++ [(ack, Locked log_id)])
      else if bool_decide (current_ticket lock = None) || is_free lock n2
      then (grant key log_id n2 (queue lock) s, out ++ [(ack, Locked log_id)])
      else
        let q := if bool_decide (log_id ∈ queue lock) then queue lock else queue lock ++ [log_id] in
        (mkState (<[key := mkLock (current_ticket lock) (exp lock) q]> (locks s)) (waiters s),
         out ++ [(ack, Queued log_id)])
  | None => (grant key log_id n2 [] s, out ++ [(ack, Locked log_id)])
  end.

Definition handle_release (n1 : Z) (key : string) (id : Z) (s : State) : State * Answers :=
  match locks s !! key with
  | Some lock =>
      if bool_decide (current_ticket lock = Some id) then
        let '(lock, w, out) := promote n1 (mkLock None (exp lock) (queue lock)) (waiters s) key in
        if bool_decide (current_ticket lock = None) && bool_decide (queue lock = [])
        then (mkState (delete key (locks s)) (delete key w),
              out ++ ((fun e => (e.2, Released)) <$> default [] (w !! key)))
        else (mkState (<[key := lock]> (locks s)) w, out)
      else (s, [])
  | None => (s, [])
  end.

Definition handle_alive (n2 : Z) (key : string) (id : Z) (ack : nat) (s : State) : State * Answers :=
  match locks s !! key with
  | Some lock =>
      if bool_decide (current_ticket lock = Some id)
      then (mkState (<[key := mkLock (current_ticket lock) (n2 + LOCK_VALID_SECONDS) (queue lock)]> (locks s)) (waiters s),
            [(ack, Locked id)])
      else (s, [(ack, Released)])
  | None => (s, [(ack, Released)])
  end.

Definition handle_await (n1 n2 : Z) (key : string) (id : Z) (ack : nat) (s : State) : State * Answers :=
  let '(s, out) := promote_key n1 key s in
  match locks s !! key with
  | Some lock =>
      if bool_decide (current_ticket lock = Some id) && (n2 <=? exp lock)
      then (s, out ++ [(ack, Locked id)])
      else if is_free lock n2 then (s, out ++ [(ack, Released)])
      else if bool_decide (id ∈ queue lock)
      then (mkState (locks s) (<[key := default [] (waiters s !! key) ++ [(id, ack)]]> (waiters s)), out)
      else (s, out ++ [(ack, Released)])
  | None => (s, out ++ [(ack, Released)])
  end.

Definition handle_request (n1 n2 : Z) (req : LockRequest) (s : State) : State * Answers :=
  match req with
  | Lock key id ack => handle_lock n1 n2 key id ack s
  | Acquire key id ack => handle_acquire n1 n2 key id ack s
  | Release key id => handle_release n1 key id s
  | Alive key id ack => handle_alive n2 key id ack s
  | Await key id ack => handle_await n1 n2 key id ack s
  | SnapshotInstall data =>
      (mkState data ∅, (fun e => (e.2, Released)) <$> concat ((map_to_list (waiters s)).*2))
  end.

(** [LockRequest::SnapshotBuild] *)
Definition snapshot_build (s : State) : Locks := locks s.

(** What [wake] does to the waiters of the key. *)
Lemma wake_spec front key w :
  (wake front key w).1 !! key = (filter (fun e : Z * nat => e.1 <> front)) <$> (w !! key) /\
  (forall key', key' <> key -> (wake front key w).1 !! key' = w !! key').
Proof.
  unfold wake. destruct (w !! key) as [l|] eqn:E; cbn.
  - rewrite lookup_insert_eq. split; [done|]. intros key' Hne. by rewrite lookup_insert_ne by done.
  - by rewrite E.
Qed.

(** * The invariant *)

(** A waiting request has its ticket in the queue of its key. *)
Definition waiting_ok (s : State) : Prop :=
  forall key l id ack, waiters s !! key = Some l -> (id, ack) ∈ l ->
    exists lock, locks s !! key = Some lock /\ id ∈ queue lock.

(** No ticket is queued twice, and the holder is not queued. *)
Definition queues_ok (s : State) : Prop :=
  forall key lock, locks s !! key = Some lock ->
    NoDup (queue lock) /\ forall id, current_ticket lock = Some id -> id ∉ queue lock.

Record dlock_ok (s : State) : Prop := { dk_waiting : waiting_ok s; dk_queues : queues_ok s }.

Lemma promote_lock now lock w key :
  (promote now lock w key).1.1 =
    match queue lock with
    | front :: rest => if is_free lock now then mkLock (Some front) (now + LOCK_VALID_SECONDS) rest else lock
    | [] => lock
    end.
Proof. unfold promote. destruct (queue lock); [done|]. destruct (is_free lock now); [|done]. by destruct (wake z key w). Qed.

Lemma promote_waiters now lock w key :
  (promote now lock w key).1.2 =
    match queue lock with
    | front :: rest => if is_free lock now then (wake front key w).1 else w
    | [] => w
    end.
Proof. unfold promote. destruct (queue lock); [done|]. destruct (is_free lock now); [|done]. by destruct (wake z key w). Qed.

Lemma promote_key_eq now key s :
  promote_key now key s =
    match locks s !! key with
    | Some lock => let p := promote now lock (waiters s) key in (mkState (<[key := p.1.1]> (locks s)) p.1.2, p.2)
    | None => (s, [])
    end.
Proof. unfold promote_key. destruct (locks s !! key); [|done]. by destruct (promote now l (waiters s) key) as [[? ?] ?]. Qed.

(** After a promotion at [now], the lock is held until [now + 10], or its queue is
    empty. *)
Lemma promote_not_free now lock w key now' :
  now <= now' <= now + LOCK_VALID_SECONDS -> let lock' := (promote now lock w key).1.1 in
  queue lock' = [] \/ (is_free lock now = true /\ is_free lock' now' = false) \/ (lock' = lock /\ is_free lock now = false).
Proof.
  intros Hn lock'. unfold lock'. rewrite promote_lock. destruct (queue lock) as [|front rest] eqn:Eq; [by left|].
  destruct (is_free lock now) eqn:E; [|by right; right]. right. left. split; [done|].
  unfold is_free. cbn. rewrite (proj2 (Z.ltb_ge _ _)) by lia. done.
Qed.

Lemma promote_key_ok now key s : dlock_ok s -> dlock_ok (promote_key now key s).1.
Proof.
  intros [Hw Hq]. rewrite promote_key_eq. destruct (locks s !! key) as [lock|] eqn:El; [|done].
  cbn [fst]. rewrite promote_lock, promote_waiters.
  assert (forall w, mkState (<[key := lock]> (locks s)) w = mkState (locks s) w) as Hid by (intros; by rewrite insert_id).
  destruct (queue lock) as [|front rest] eqn:Eq; [rewrite Hid; by destruct s|].
  destruct (is_free lock now); [|rewrite Hid; by destruct s]. destruct (wake_spec front key (waiters s)) as [Wk Wo].
  destruct (Hq key lock El) as [Hnd Hcur]. rewrite Eq in Hnd. inversion Hnd as [|? ? Hf Hnd']; subst. split.
  - intros key' l id ack Hl Hin. cbn [locks waiters] in *. destruct (decide (key' = key)) as [->|Hne].
    + rewrite lookup_insert_eq. rewrite Wk in Hl. destruct (waiters s !! key) as [l0|] eqn:E0; [|done].
      injection Hl as <-. apply list_elem_of_filter in Hin as [Hne Hin]. cbn in Hne.
      destruct (Hw key l0 id ack E0 Hin) as (lock0 & Hl0 & Hq0). rewrite El in Hl0. injection Hl0 as <-.
      eexists. split; [done|]. cbn. rewrite Eq in Hq0. by apply elem_of_cons in Hq0 as [?|?].
    + rewrite lookup_insert_ne by done. rewrite Wo in Hl by done. by eapply Hw.
  - intros key' lock' Hl. cbn [locks] in Hl. apply lookup_insert_Some in Hl as [[<- <-]|[_ Hl]]; [|by eapply Hq].
    cbn. split; [done|]. by intros id [= <-].
Qed.

(** The two clock reads of a handler see the same side of every lease. *)
Definition steady (n1 n2 : Z) (key : string) (s : State) : Prop :=
  n1 <= n2 <= n1 + LOCK_VALID_SECONDS /\
  forall lock, locks s !! key = Some lock -> is_free lock n1 = is_free lock n2.

(** Then a lock that is still free after the promotion has nobody queued. *)
Lemma promoted_free n1 n2 key s lock :
  steady n1 n2 key s -> locks (promote_key n1 key s).1 !! key = Some lock -> is_free lock n2 = true -> queue lock = [].
Proof.
  intros [Hn Hst] Hl Hf. rewrite promote_key_eq in Hl. destruct (locks s !! key) as [lock0|] eqn:E0; [|cbn in Hl; congruence].
  cbn in Hl. rewrite lookup_insert_eq in Hl. injection Hl as <-. specialize (Hst _ eq_refl).
  destruct (promote_not_free n1 lock0 (waiters s) key n2 Hn) as [?|[[_ Hx]|[Hx Hy]]]; [done|congruence|].
  rewrite Hx in Hf. congruence.
Qed.

Lemma promote_key_other now key key' s :
  key' <> key -> locks (promote_key now key s).1 !! key' = locks s !! key' /\
    waiters (promote_key now key s).1 !! key' = waiters s !! key'.
Proof.
  intros Hne. rewrite promote_key_eq. destruct (locks s !! key) as [lock|]; [|done]. cbn.
  rewrite lookup_insert_ne, promote_waiters by done. split; [done|].
  destruct (queue lock); [done|]. destruct (is_free lock now); [|done]. by apply wake_spec.
Qed.

Lemma set_lock_ok s key lock :
  dlock_ok s ->
  (forall old id, locks s !! key = Some old -> id ∈ queue old -> id ∈ queue lock) ->
  NoDup (queue lock) -> (forall id, current_ticket lock = Some id -> id ∉ queue lock) ->
  dlock_ok (mkState (<[key := lock]> (locks s)) (waiters s)).
Proof.
  intros [Hw Hq] Hsub Hnd Hcur. split.
  - intros key' l id ack Hl Hin. cbn in *. destruct (Hw key' l id ack Hl Hin) as (old & Ho & Hqo).
    destruct (decide (key' = key)) as [->|Hne].
    + rewrite lookup_insert_eq. eauto.
    + rewrite lookup_insert_ne by done. eauto.
  - intros key' lock' Hl. cbn in Hl. apply lookup_insert_Some in Hl as [[<- <-]|[_ Hl]]; [done|by eapply Hq].
Qed.

Lemma enqueue_ok s key lock id :
  dlock_ok s -> locks s !! key = Some lock -> id ∉ queue lock -> current_ticket lock <> Some id ->
  dlock_ok (mkState (<[key := mkLock (current_ticket lock) (exp lock) (queue lock ++ [id])]> (locks s)) (waiters s)).
Proof.
  intros Hok Hl Hn Hc. destruct (dk_queues _ Hok key lock Hl) as [Hnd Hcur]. apply set_lock_ok; [done|..]; cbn.
  - intros old x Ho Hx. rewrite Hl in Ho. injection Ho as <-. apply elem_of_app. by left.
  - apply NoDup_app. split; [done|]. split; [|apply NoDup_singleton]. intros x Hx ->%list_elem_of_singleton. done.
  - intros x Hx [Hin| ->%list_elem_of_singleton]%elem_of_app; [by eapply Hcur|congruence].
Qed.

Lemma grant_ok s key id now :
  dlock_ok s -> (forall lock, locks s !! key = Some lock -> queue lock = []) -> dlock_ok (grant key id now [] s).
Proof.
  intros Hok Hq. apply set_lock_ok; cbn; [done| |constructor|intros ? ? Hx; by inversion Hx].
  intros old x Ho. rewrite (Hq _ Ho). done.
Qed.

(** A ticket the lock does not know yet: the index of the log entry that asks. *)
Definition new_ticket (key : string) (id : Z) (s : State) : Prop :=
  forall lock, locks s !! key = Some lock -> (id ∉ queue lock) /\ current_ticket lock <> Some id.

Definition req_key (req : LockRequest) : option string :=
  match req with
  | Lock k _ _ | Acquire k _ _ | Release k _ | Alive k _ _ | Await k _ _ => Some k
  | SnapshotInstall _ => None
  end.

Definition req_ok (req : LockRequest) (s : State) : Prop :=
  match req with
  | Lock key id _ => new_ticket key id s
  | SnapshotInstall data => queues_ok (mkState data ∅)
  | _ => True
  end.

Lemma promote_key_tickets now key s lock id :
  locks (promote_key now key s).1 !! key = Some lock -> new_ticket key id s ->
  (id ∉ queue lock) /\ current_ticket lock <> Some id.
Proof.
  intros Hl Hnew. rewrite promote_key_eq in Hl. destruct (locks s !! key) as [lock0|] eqn:E; [|cbn in Hl; congruence].
  destruct (Hnew lock0 E) as [Hq Hc]. cbn in Hl. rewrite lookup_insert_eq, promote_lock in Hl. injection Hl as <-.
  destruct (queue lock0) as [|f rest] eqn:Eq; [rewrite Eq; done|]. destruct (is_free lock0 now); cbn; [|rewrite Eq; done].
  split; [intros Hin; apply Hq; by right|]. intros [= ->]. apply Hq. by left.
Qed.

Lemma free_cases lock now : (bool_decide (current_ticket lock = None) || is_free lock now) = is_free lock now.
Proof. unfold is_free. by destruct (bool_decide _). Qed.

Lemma held_live lock now id : is_free lock now = false -> (bool_decide (current_ticket lock = Some id) && (now <=? exp lock)) = false ->
  current_ticket lock <> Some id.
Proof.
  unfold is_free. intros [_ Hexp]%orb_false_iff Hno E. rewrite bool_decide_eq_true_2 in Hno by done.
  apply Z.ltb_ge in Hexp. cbn in Hno. apply Z.leb_gt in Hno. lia.
Qed.

(** Every request keeps waiting requests in line and the queues free of
    duplicates. *)
Lemma handle_request_ok n1 n2 req s :
  dlock_ok s -> req_ok req s -> (forall key, req_key req = Some key -> steady n1 n2 key s) ->
  dlock_ok (handle_request n1 n2 req s).1.
Proof.
  intros Hok Hreq Hst. destruct req as [key id ack|key id ack|key id|key id ack|key id ack|data]; cbn [handle_request].
  - specialize (Hst key eq_refl). unfold handle_lock. pose proof (promote_key_ok n1 key s Hok) as Hok1.
    pose proof (fun lock => promoted_free n1 n2 key s lock Hst) as Hfree.
    pose proof (fun lock => promote_key_tickets n1 key s lock id) as Htk.
    destruct (promote_key n1 key s) as [s1 out]. cbn [fst] in *.
    destruct (locks s1 !! key) as [lock|] eqn:El; cbn [fst]; [rewrite free_cases; destruct (is_free lock n2) eqn:Ef; cbn [fst]|].
    + rewrite (Hfree lock eq_refl Ef). apply grant_ok; [done|]. intros l. rewrite El. intros [= <-]. by apply Hfree.
    + destruct (Htk lock eq_refl Hreq) as [Hq Hc]. by apply enqueue_ok.
    + apply grant_ok; [done|]. rewrite El. done.
  - specialize (Hst key eq_refl). unfold handle_acquire. pose proof (promote_key_ok n1 key s Hok) as Hok1.
    pose proof (fun lock => promoted_free n1 n2 key s lock Hst) as Hfree.
    destruct (promote_key n1 key s) as [s1 out]. cbn [fst] in *.
    destruct (locks s1 !! key) as [lock|] eqn:El; cbn [fst].
    2:{ apply grant_ok; [done|]. rewrite El. done. }
    destruct (bool_decide (current_ticket lock = Some id) && (n2 <=? exp lock)) eqn:Eh; cbn [fst]; [done|].
    rewrite free_cases. destruct (is_free lock n2) eqn:Ef; cbn [fst].
    + rewrite (Hfree lock eq_refl Ef). apply grant_ok; [done|]. intros l. rewrite El. intros [= <-]. by apply Hfree.
    + cbv zeta. cbn [fst]. destruct (decide (id ∈ queue lock)) as [Hin|Hin].
      * rewrite bool_decide_eq_true_2 by done.
        replace (mkLock (current_ticket lock) (exp lock) (queue lock)) with lock by (by destruct lock).
        rewrite (insert_id _ _ _ El). by destruct s1.
      * rewrite bool_decide_eq_false_2 by done. apply enqueue_ok; [done..|]. by eapply held_live.
  - unfold handle_release. destruct (locks s !! key) as [lock|] eqn:El; [|done]. case_bool_decide as Hc; [|done].
    set (s0 := mkState (<[key := mkLock None (exp lock) (queue lock)]> (locks s)) (waiters s)).
    assert (dlock_ok s0) as Hok0.
    { destruct (dk_queues _ Hok key lock El) as [Hnd _]. apply set_lock_ok; cbn; [done| |done|done].
      intros old x Ho. rewrite El in Ho. by injection Ho as <-. }
    pose proof (promote_key_ok n1 key s0 Hok0) as Hok1. rewrite promote_key_eq in Hok1. cbn [locks waiters s0] in Hok1.
    rewrite lookup_insert_eq in Hok1. cbn [fst] in Hok1. rewrite insert_insert_eq in Hok1.
    destruct (promote n1 _ (waiters s) key) as [[lock1 w1] out]. cbn [fst snd] in Hok1.
    destruct (bool_decide (current_ticket lock1 = None) && bool_decide (queue lock1 = [])) eqn:Eb; [|done].
    cbn [fst]. split.
    + intros key' l x a Hl Hin. cbn in *. apply lookup_delete_Some in Hl as [Hne Hl].
      destruct (dk_waiting _ Hok1 key' l x a Hl Hin) as (lk & Hlk & Hq). cbn in Hlk. rewrite lookup_insert_ne in Hlk by done.
      rewrite lookup_delete_ne by done. eauto.
    + intros key' lk Hlk. cbn in Hlk. apply lookup_delete_Some in Hlk as [_ Hlk]. by eapply (dk_queues _ Hok).
  - unfold handle_alive. destruct (locks s !! key) as [lock|] eqn:El; [|done]. case_bool_decide; [|done].
    destruct (dk_queues _ Hok key lock El) as [Hnd Hcur]. apply set_lock_ok; cbn; [done| |done|done].
    intros old x Ho. rewrite El in Ho. by injection Ho as <-.
  - unfold handle_await. pose proof (promote_key_ok n1 key s Hok) as Hok1.
    destruct (promote_key n1 key s) as [s1 out]. cbn [fst] in *.
    destruct (locks s1 !! key) as [lock|] eqn:El; [|done].
    destruct (bool_decide (current_ticket lock = Some id) && (n2 <=? exp lock)); [done|].
    destruct (is_free lock n2); [done|]. case_bool_decide as Hin; [|done]. cbn [fst].
    split; [|apply Hok1]. intros key' l x a Hl Hx. cbn in *.
    apply lookup_insert_Some in Hl as [[<- <-]|[_ Hl]]; [|by eapply Hok1].
    apply elem_of_app in Hx as [Hx|[= -> ->]%list_elem_of_singleton]; [|eauto].
    destruct (waiters s1 !! key) as [l|] eqn:Ew; [|by inversion Hx]. by eapply Hok1.
  - cbn. split; [|done]. intros key l id ack Hl. cbn in Hl. by rewrite lookup_empty in Hl.
Qed.

(** * Leases *)

(** ** A running lease *)
Section Lease.
Context (n1 n2 : Z) (s : State) (key : string) (lock : LockQueue) (id : Z).
Context (Hn : n1 <= n2) (Hl : locks s !! key = Some lock) (Hc : current_ticket lock = Some id) (He : n2 <= exp lock).

(** The ticket still holds the lock, with a lease that is not shorter or runs still. *)
Definition held (m : gmap string LockQueue) : Prop :=
  exists lock', m !! key = Some lock' /\ current_ticket lock' = Some id /\ (exp lock <= exp lock' \/ n2 <= exp lock').

Lemma held_same m : m !! key = Some lock -> held m.
Proof. intros Hm. exists lock. split; [done|]. split; [done|lia]. Qed.
Lemma held_insert m k x : m !! key = Some lock -> (k = key -> current_ticket x = Some id /\ (exp lock <= exp x \/ n2 <= exp x)) -> held (<[k := x]> m).
Proof.
  intros Hk Hx. unfold held. rewrite lookup_insert. case_decide as E; [subst k; exists x; split; [done|by apply Hx]|]. by apply held_same.
Qed.
Lemma lease_runs n : n <= exp lock -> is_free lock n = false.
Proof. intros Hle. unfold is_free. rewrite Hc, bool_decide_eq_false_2, (proj2 (Z.ltb_ge _ _)) by done. done. Qed.
Lemma promote_key_same k : locks (promote_key n1 k s).1 !! key = Some lock.
Proof.
  destruct (decide (key = k)) as [<-|Hne]; [|by rewrite (proj1 (promote_key_other n1 k key s Hne))].
  rewrite promote_key_eq, Hl. cbn. rewrite lookup_insert_eq, promote_lock, lease_runs by lia. by destruct (queue lock).
Qed.

(** A request on another ticket finds the lock taken. *)
Lemma held_taken (m : gmap string LockQueue) k lk x : m !! key = Some lock -> m !! k = Some lk ->
  (if is_free lk n2 then True else current_ticket x = current_ticket lk /\ exp x = exp lk) -> held (<[k := x]> m).
Proof.
  intros Hm Hk Hx. apply held_insert; [done|]. intros ->. rewrite Hk in Hm. injection Hm as ->. rewrite lease_runs in Hx by done.
  destruct Hx as [-> ->]. split; [done|lia].
Qed.
Lemma held_absent (m : gmap string LockQueue) k x : m !! key = Some lock -> m !! k = None -> held (<[k := x]> m).
Proof. intros Hm Hk. apply held_insert; [done|]. intros ->. congruence. Qed.
#[local] Hint Resolve held_same held_absent : core.

Lemma handle_lock_held k t a : held (locks (handle_lock n1 n2 k t a s).1).
Proof.
  pose proof (promote_key_same k) as H1. unfold handle_lock. destruct (promote_key n1 k s) as [s1 out]. cbn [fst] in H1.
  destruct (locks s1 !! k) as [lk|] eqn:Ek; [rewrite free_cases; destruct (is_free lk n2) eqn:Ef|]; cbn [fst locks grant]; auto.
  all: apply (held_taken _ _ lk); [done..|]; by rewrite Ef.
Qed.
Lemma handle_acquire_held k t a : held (locks (handle_acquire n1 n2 k t a s).1).
Proof.
  pose proof (promote_key_same k) as H1. unfold handle_acquire. destruct (promote_key n1 k s) as [s1 out]. cbn [fst] in H1.
  destruct (locks s1 !! k) as [lk|] eqn:Ek; [|cbn [fst locks grant]; auto]. destruct (bool_decide _ && _); [auto|].
  rewrite free_cases. destruct (is_free lk n2) eqn:Ef; cbn [fst locks grant]; (apply (held_taken _ _ lk); [done..|]; by rewrite Ef).
Qed.
Lemma handle_release_held k t : Release k t <> Release key id -> held (locks (handle_release n1 k t s).1).
Proof.
  intros Hrel. unfold handle_release. destruct (locks s !! k) as [lk|] eqn:Ek; [|auto]. case_bool_decide as Ht; [|auto].
  assert (k <> key) as Hne by (intros ->; rewrite Ek in Hl; injection Hl as ->; apply Hrel; congruence).
  destruct (promote n1 _ _ k) as [[lk1 w1] out]. destruct (_ && _); cbn [fst locks]; apply held_same; [by rewrite lookup_delete_ne|by rewrite lookup_insert_ne].
Qed.
Lemma handle_alive_held k t a : held (locks (handle_alive n2 k t a s).1).
Proof.
  unfold handle_alive. destruct (locks s !! k) as [lk|] eqn:Ek; [|auto]. case_bool_decide as Ht; cbn [fst locks]; [|auto].
  apply held_insert; [done|]. intros ->. rewrite Ek in Hl. injection Hl as ->. cbn. split; [done|]. right. unfold LOCK_VALID_SECONDS. lia.
Qed.
Lemma handle_await_held k t a : held (locks (handle_await n1 n2 k t a s).1).
Proof.
  pose proof (promote_key_same k) as H1. unfold handle_await. destruct (promote_key n1 k s) as [s1 out]. cbn [fst] in H1.
  destruct (locks s1 !! k) as [lk|] eqn:Ek; [|auto]. destruct (bool_decide _ && _); [auto|]. destruct (is_free lk n2); [auto|]. case_bool_decide; auto.
Qed.
End Lease.

(** C37: A holder whose lease is running keeps the lock through every request but its
    own release and the installation of a snapshot, and its lease never shrinks. *)
Lemma lease_kept n1 n2 req s key lock id :
  n1 <= n2 -> locks s !! key = Some lock -> current_ticket lock = Some id -> n2 <= exp lock ->
  req <> Release key id -> (forall data, req <> SnapshotInstall data) ->
  exists lock', locks (handle_request n1 n2 req s).1 !! key = Some lock' /\
    current_ticket lock' = Some id /\ (exp lock <= exp lock' \/ n2 <= exp lock').
Proof.
  intros Hn Hl Hc He Hrel Hsnap. change (held n2 key lock id (locks (handle_request n1 n2 req s).1)).
  destruct req as [k t a|k t a|k t|k t a|k t a|data]; cbn [handle_request]; [..|by destruct (Hsnap data)].
  - by apply handle_lock_held.
  - by apply handle_acquire_held.
  - by apply handle_release_held.
  - by apply handle_alive_held.
  - by apply handle_await_held.
Qed.

(** * Every reply channel is answered exactly once *)
Definition pending (w : Waiters) : list nat := (concat ((map_to_list w).*2)).*2.

Lemma pending_insert key l w : pending (<[key := l]> w) ≡ₚ l.*2 ++ pending (delete key w).
Proof.
  unfold pending. rewrite <- insert_delete_eq, map_to_list_insert by apply lookup_delete_eq. cbn. by rewrite fmap_app.
Qed.

Lemma pending_lookup key w : pending w ≡ₚ (default [] (w !! key)).*2 ++ pending (delete key w).
Proof.
  destruct (w !! key) as [l|] eqn:E; cbn.
  - rewrite <- (insert_id w key l E) at 1. apply pending_insert.
  - by rewrite delete_id.
Qed.

Lemma filter_split (front : Z) (l : list (Z * nat)) :
  l ≡ₚ filter (fun e => e.1 = front) l ++ filter (fun e => e.1 <> front) l.
Proof.
  induction l as [|e l IH]; [done|]. rewrite !filter_cons. destruct (decide (e.1 = front)) as [Ht|Hf].
  - rewrite decide_False by tauto. cbn. by rewrite <- IH.
  - rewrite decide_True by done. rewrite <- Permutation_middle. by rewrite <- IH.
Qed.

Lemma wake_pending front key w : pending (wake front key w).1 ++ (wake front key w).2.*1 ≡ₚ pending w.
Proof.
  unfold wake. destruct (w !! key) as [l|] eqn:E; cbn; [|by rewrite app_nil_r].
  rewrite pending_insert, (pending_lookup key w), E. cbn.
  assert (((fun e : Z * nat => (e.2, Locked front)) <$> filter (fun e => e.1 = front) l).*1 =
    (filter (fun e : Z * nat => e.1 = front) l).*2) as ->.
  { rewrite <- list_fmap_compose. by apply list_fmap_ext. }
  rewrite (filter_split front l) at 3. rewrite fmap_app.
  rewrite (Permutation_app_comm (_ ++ pending _)), app_assoc. done.
Qed.

Lemma promote_pending now lock w key : pending (promote now lock w key).1.2 ++ (promote now lock w key).2.*1 ≡ₚ pending w.
Proof.
  unfold promote. destruct (queue lock) as [|front rest]; [by rewrite app_nil_r|].
  destruct (is_free lock now); [|by rewrite app_nil_r]. pose proof (wake_pending front key w). by destruct (wake front key w).
Qed.

Lemma promote_key_pending now key s :
  pending (waiters (promote_key now key s).1) ++ (promote_key now key s).2.*1 ≡ₚ pending (waiters s).
Proof.
  rewrite promote_key_eq. destruct (locks s !! key) as [lock|]; [apply promote_pending|by rewrite app_nil_r].
Qed.

(** The reply channel a request carries. *)
Definition req_ack (req : LockRequest) : list nat :=
  match req with
  | Lock _ _ a | Acquire _ _ a | Alive _ _ a | Await _ _ a => [a]
  | Release _ _ | SnapshotInstall _ => []
  end.

Lemma answered (p : list nat) (out : Answers) a st q :
  p ++ out.*1 ≡ₚ q -> p ++ (out ++ [(a, st)]).*1 ≡ₚ q ++ [a].
Proof. intros Hp. rewrite fmap_app, app_assoc, Hp. done. Qed.

(** The channels that wait, together with the ones that were answered, are the
    ones that waited before and the one of the request. *)
Lemma acks_conserved n1 n2 req s :
  pending (waiters (handle_request n1 n2 req s).1) ++ (handle_request n1 n2 req s).2.*1 ≡ₚ
  pending (waiters s) ++ req_ack req.
Proof.
  destruct req as [k t a|k t a|k t|k t a|k t a|data]; cbn [handle_request req_ack].
  - unfold handle_lock. pose proof (promote_key_pending n1 k s) as Hp. destruct (promote_key n1 k s) as [s1 out].
    cbn [fst snd] in Hp. destruct (locks s1 !! k) as [lk|]; [destruct (_ || _)|]; by apply answered.
  - unfold handle_acquire. pose proof (promote_key_pending n1 k s) as Hp. destruct (promote_key n1 k s) as [s1 out].
    cbn [fst snd] in Hp. destruct (locks s1 !! k) as [lk|]; [destruct (_ && _); [|destruct (_ || _)]|]; by apply answered.
  - unfold handle_release. rewrite app_nil_r. destruct (locks s !! k) as [lk|]; [|by rewrite app_nil_r].
    destruct (bool_decide _); [|by rewrite app_nil_r].
    set (lk0 := mkLock None (exp lk) (queue lk)). pose proof (promote_pending n1 lk0 (waiters s) k) as Hp.
    destruct (promote n1 lk0 (waiters s) k) as [[lk1 w1] out]. cbn [fst snd] in Hp. destruct (_ && _); [|done].
    cbn [fst snd waiters]. rewrite <- Hp, (pending_lookup k w1), fmap_app.
    assert (((fun e : Z * nat => (e.2, Released)) <$> default [] (w1 !! k)).*1 = (default [] (w1 !! k)).*2) as ->.
    { rewrite <- list_fmap_compose. by apply list_fmap_ext. }
    rewrite app_assoc, (Permutation_app_comm _ ((default [] (w1 !! k)).*2)), app_assoc. done.
  - unfold handle_alive. destruct (locks s !! k) as [lk|]; [destruct (bool_decide _)|]; done.
  - unfold handle_await. pose proof (promote_key_pending n1 k s) as Hp. destruct (promote_key n1 k s) as [s1 out].
    cbn [fst snd] in Hp. destruct (locks s1 !! k) as [lk|]; [|by apply answered].
    destruct (_ && _); [by apply answered|]. destruct (is_free lk n2); [by apply answered|].
    destruct (bool_decide _); [|by apply answered]. cbn [fst snd waiters].
    rewrite pending_insert, fmap_app, <- Hp, (pending_lookup k (waiters s1)). cbn [fmap list_fmap snd].
    rewrite <- !app_assoc. apply Permutation_app_head. rewrite app_assoc, (Permutation_app_comm [a]), <- app_assoc.
    rewrite (Permutation_app_comm [a]), app_assoc. done.
  - cbn [fst snd waiters]. rewrite app_nil_r. unfold pending. rewrite map_to_list_empty. cbn.
    rewrite <- list_fmap_compose. erewrite list_fmap_ext; [done|]. done.
Qed.

(** * The sweep *)
Lemma is_free_mono lock n n' : n <= n' -> is_free lock n = true -> is_free lock n' = true.
Proof.
  intros Hn. unfold is_free. destruct (bool_decide _); [done|]. cbn. rewrite !Z.ltb_lt. lia.
Qed.

Definition sweep_fold (clk : string -> Z) (keys : list string) (p : State * Answers) : State * Answers :=
  foldl (fun '(s, out) key => let '(s, o) := promote_key (clk key) key s in (s, out ++ o)) p keys.

Lemma sweep_fold_locks clk keys : forall p key, NoDup keys ->
  locks (sweep_fold clk keys p).1 !! key =
    if decide (key ∈ keys) then locks (promote_key (clk key) key p.1).1 !! key else locks p.1 !! key.
Proof.
  induction keys as [|k keys IH]; intros [s out] key Hnd; [done|]. cbn [sweep_fold foldl].
  inversion Hnd as [|? ? Hk Hnd']; subst. destruct (promote_key (clk k) k s) as [s1 o] eqn:Ep.
  fold (sweep_fold clk keys (s1, out ++ o)). rewrite IH by done. cbn [fst].
  assert (s1 = (promote_key (clk k) k s).1) as E1 by (by rewrite Ep).
  destruct (decide (key = k)) as [->|Hne].
  - rewrite decide_False by done. rewrite decide_True by (by left). by rewrite E1.
  - destruct (decide (key ∈ keys)) as [Hin|Hni].
    + rewrite decide_True by (by right). rewrite !promote_key_eq. rewrite E1.
      destruct (promote_key_other (clk k) k key s Hne) as [El Ew]. rewrite El.
      destruct (locks s !! key) as [lock|] eqn:E0; [|cbn; congruence].
      cbn. rewrite !lookup_insert_eq, !promote_lock. done.
    + rewrite decide_False by (by intros [?|?]%elem_of_cons). rewrite E1. by apply promote_key_other.
Qed.

(** C38: After a sweep no queue waits behind a lock that was free when it started. *)
Lemma sweep_progress now clk s key lock :
  (forall k, now <= clk k) -> locks (sweep_expired now clk s).1 !! key = Some lock ->
  queue lock = [] \/ is_free lock now = false.
Proof.
  intros Hclk. unfold sweep_expired. set (keys := (map_to_list _).*1).
  change (foldl _ (s, []) keys) with (sweep_fold clk keys (s, [])).
  assert (NoDup keys) as Hnd by apply NoDup_fst_map_to_list. rewrite sweep_fold_locks by done. cbn [fst].
  assert (key ∈ keys <-> exists lk, locks s !! key = Some lk /\ is_free lk now = true /\ queue lk <> []) as Hin.
  { unfold keys. rewrite list_elem_of_fmap. split.
    - intros ([k lk] & -> & Hx). apply elem_of_map_to_list, map_lookup_filter_Some in Hx as [Hx Hy]. eauto.
    - intros (lk & Hl & Hf). exists (key, lk). split; [done|]. apply elem_of_map_to_list, map_lookup_filter_Some. done. }
  case_decide as Hk.
  - apply Hin in Hk as (lk & Hl & Hf & Hq). rewrite promote_key_eq, Hl. cbn. rewrite lookup_insert_eq, promote_lock.
    destruct (queue lk) as [|front rest]; [done|]. rewrite (is_free_mono lk now (clk key)) by done.
    intros [= <-]. right. unfold is_free, LOCK_VALID_SECONDS. cbn. specialize (Hclk key).
    by rewrite (proj2 (Z.ltb_ge _ _)) by lia.
  - intros Hl. destruct (queue lock) as [|front rest] eqn:Eq; [by left|]. right.
    destruct (is_free lock now) eqn:Ef; [|done]. exfalso. apply Hk, Hin. exists lock. by rewrite Eq.
Qed.

(** * What a request does to the locks does not depend on who waits *)

Lemma promote_key_locks now key s s' :
  locks s = locks s' -> locks (promote_key now key s).1 = locks (promote_key now key s').1.
Proof.
  intros E. rewrite !promote_key_eq, <- E. destruct (locks s !! key) as [lock|]; [|done].
  cbn. by rewrite !promote_lock.
Qed.

(** The requests that are answered at once. *)
Definition immediate (mk : nat -> LockRequest) : Prop :=
  exists key id, mk = Lock key id \/ mk = Acquire key id \/ mk = Alive key id.

(** Two handlers with the same locks take the same decision, which is the last
    answer they send. *)
Lemma immediate_same n1 n2 mk a b s s' :
  immediate mk -> locks s = locks s' ->
  locks (handle_request n1 n2 (mk a) s).1 = locks (handle_request n1 n2 (mk b) s').1 /\
  exists out out' st, (handle_request n1 n2 (mk a) s).2 = out ++ [(a, st)] /\
    (handle_request n1 n2 (mk b) s').2 = out' ++ [(b, st)].
Proof.
  intros (key & id & Hmk) E. pose proof (promote_key_locks n1 key s s' E) as Ep.
  destruct Hmk as [->|[->| ->]]; cbn [handle_request].
  - unfold handle_lock. destruct (promote_key n1 key s) as [s1 o1], (promote_key n1 key s') as [s2 o2]. cbn [fst] in Ep.
    rewrite <- Ep. destruct (locks s1 !! key) as [lock|]; [destruct (_ || _)|]; cbn; rewrite <- ?Ep; eauto 6.
  - unfold handle_acquire. destruct (promote_key n1 key s) as [s1 o1], (promote_key n1 key s') as [s2 o2]. cbn [fst] in Ep.
    rewrite <- Ep. destruct (locks s1 !! key) as [lock|]; [destruct (_ && _); [|destruct (_ || _)]|]; cbn; rewrite <- ?Ep; eauto 6.
  - unfold handle_alive. rewrite <- E. destruct (locks s !! key) as [lock|]; [case_bool_decide|]; cbn; rewrite <- ?E;
      (split; [done|]); exists [], []; eauto.
Qed.

Lemma release_same n1 n2 key id s s' :
  locks s = locks s' ->
  locks (handle_request n1 n2 (Release key id) s).1 = locks (handle_request n1 n2 (Release key id) s').1.
Proof.
  intros E. cbn [handle_request]. unfold handle_release. rewrite <- E. destruct (locks s !! key) as [lock|]; [|done].
  case_bool_decide; [|done].
  pose proof (promote_lock n1 (mkLock None (exp lock) (queue lock)) (waiters s) key) as E1.
  pose proof (promote_lock n1 (mkLock None (exp lock) (queue lock)) (waiters s') key) as E2.
  destruct (promote _ _ (waiters s) key) as [[l1 w1] o1], (promote _ _ (waiters s') key) as [[l2 w2] o2].
  cbn [fst] in E1, E2. rewrite <- E1 in E2. subst l2. destruct (_ && _); done.
Qed.

(** * Tickets *)

(** The ticket holds or waits for the lock of the key. *)
Definition ticket (s : State) (key : string) (id : Z) : Prop :=
  exists lock, locks s !! key = Some lock /\ (current_ticket lock = Some id \/ id ∈ queue lock).

Definition req_ticket (req : LockRequest) (id : Z) : Prop :=
  match req with
  | Lock _ t _ | Acquire _ t _ => id = t
  | SnapshotInstall data => exists key, ticket (mkState data ∅) key id
  | _ => False
  end.

Lemma ticket_insert s w key lock k id :
  ticket (mkState (<[key := lock]> (locks s)) w) k id ->
  ticket s k id \/ (k = key /\ (current_ticket lock = Some id \/ id ∈ queue lock)).
Proof.
  intros (l & Hl & Ht). cbn in Hl. apply lookup_insert_Some in Hl as [[<- <-]|[_ Hl]]; [by right|]. left. by exists l.
Qed.

Lemma promote_tickets now lock w key id :
  let lock' := (promote now lock w key).1.1 in
  current_ticket lock' = Some id \/ id ∈ queue lock' -> current_ticket lock = Some id \/ id ∈ queue lock.
Proof.
  cbn. rewrite promote_lock. destruct (queue lock) as [|f rest] eqn:E; [by rewrite E|].
  destruct (is_free lock now); [|by rewrite E]. cbn. rewrite elem_of_cons. intros [[= ->]|?]; auto.
Qed.

Lemma promote_key_ticket now key s k id : ticket (promote_key now key s).1 k id -> ticket s k id.
Proof.
  rewrite promote_key_eq. destruct (locks s !! key) as [lock|] eqn:E; [|done]. cbn [fst].
  intros [?|[-> Ht]]%ticket_insert; [done|]. exists lock. split; [done|]. by eapply promote_tickets.
Qed.

(** No request makes up a ticket: the ones known afterwards were known before or
    are the one it brings. *)
Lemma request_tickets n1 n2 req s key id :
  ticket (handle_request n1 n2 req s).1 key id -> ticket s key id \/ req_ticket req id.
Proof.
  assert (forall k, ticket (promote_key n1 k s).1 key id -> ticket s key id) as Hp by (intros; by eapply promote_key_ticket).
  destruct req as [k t a|k t a|k t|k t a|k t a|data]; cbn [handle_request req_ticket].
  - unfold handle_lock. specialize (Hp k). destruct (promote_key n1 k s) as [s1 out]. cbn [fst] in Hp.
    destruct (locks s1 !! k) as [lock|] eqn:El; [destruct (_ || _)|]; cbn; unfold grant; intros Ht%ticket_insert; cbn in Ht.
    + destruct Ht as [?|[-> [[= ->]|Hq]]]; [auto|auto|]. left. apply Hp. exists lock. auto.
    + destruct Ht as [?|[-> [Hc|Hq]]]; [auto|left; apply Hp; exists lock; auto|].
      apply elem_of_app in Hq as [Hq| ->%list_elem_of_singleton]; [|auto]. left. apply Hp. exists lock. auto.
    + destruct Ht as [?|[-> [[= ->]|Hq]]]; [auto|auto|]. by apply elem_of_nil in Hq.
  - unfold handle_acquire. specialize (Hp k). destruct (promote_key n1 k s) as [s1 out]. cbn [fst] in Hp.
    destruct (locks s1 !! k) as [lock|] eqn:El; [destruct (_ && _); [|destruct (_ || _)]|]; cbn; unfold grant;
      [auto|intros Ht%ticket_insert; cbn in Ht..].
    + destruct Ht as [?|[-> [[= ->]|Hq]]]; [auto|auto|]. left. apply Hp. exists lock. auto.
    + destruct Ht as [?|[-> [Hc|Hq]]]; [auto|left; apply Hp; exists lock; auto|].
      case_bool_decide; [left; apply Hp; exists lock; auto|].
      apply elem_of_app in Hq as [Hq| ->%list_elem_of_singleton]; [|auto]. left. apply Hp. exists lock. auto.
    + destruct Ht as [?|[-> [[= ->]|Hq]]]; [auto|auto|]. by apply elem_of_nil in Hq.
  - unfold handle_release. destruct (locks s !! k) as [lock|] eqn:El; [|auto]. case_bool_decide; [|auto].
    pose proof (promote_tickets n1 (mkLock None (exp lock) (queue lock)) (waiters s) k id) as Hpt.
    destruct (promote _ _ _ _) as [[l1 w1] o1]. cbn in Hpt. destruct (_ && _); cbn.
    + intros (l & Hl & Ht). cbn in Hl. apply lookup_delete_Some in Hl as [_ Hl]. left. by exists l.
    + intros [?|[-> Ht]]%ticket_insert; [auto|]. left. exists lock. split; [done|]. right. by destruct (Hpt Ht).
  - unfold handle_alive. destruct (locks s !! k) as [lock|] eqn:El; [|auto]. case_bool_decide; [|auto]. cbn.
    intros [?|[-> Ht]]%ticket_insert; [auto|]. left. by exists lock.
  - unfold handle_await. specialize (Hp k). destruct (promote_key n1 k s) as [s1 out]. cbn [fst] in Hp.
    destruct (locks s1 !! k) as [lock|]; [destruct (_ && _); [|destruct (is_free _ _); [|case_bool_decide]]|]; cbn; auto.
  - cbn. intros Ht. right. by exists key.
Qed.

End DLock.
