(* ===== verification/Notify.v ===== *)
(** Listen / notify: [hiqlite/src/store/state_machine/memory/notify_handler.rs].

    A listener is the number of its channel; [closed] says which receivers are
    gone, so that sending to them fails.  [None] is a panic. *)
From stdpp Require Import base list numbers sorting.
From Stdlib Require Import Strings.Byte.
From S2P Require Import Prelude.

Module Notify.

Abbreviation Message := (Z * list byte)%type.

Inductive NotifyRequest : Type :=
| Notify (m : Message)
| Listen (tx : nat).

(** The listeners, and the messages delivered to channels, oldest first; the
    local channel is [None]. *)
Record Handler : Type := mkHandler {
  listeners : list nat;
  sent : list (option nat * Message);
}.

(** [Vec::swap_remove]: the last element takes the place of the removed one. *)
Definition swap_remove {A} (i : nat) (l : list A) : option (list A) :=
  let n := (length l - 1)%nat in
  _ ← l !! i;
  last ← l !! n;
  Some (take n (<[i := last]> l)).

(** [while let Some(idx) = remove_indexes.pop() { listeners.swap_remove(idx) }];
    the argument is the stack, top first. *)
Fixpoint remove_all {A} (stack : list nat) (l : list A) : option (list A) :=
  match stack with
  | [] => Some l
  | i :: stack => l ← swap_remove i l; remove_all stack l
  end.

Section Notify.
Context (closed : nat -> bool).

(** The positions whose send fails, in the order they are pushed. *)
Fixpoint failed (i : nat) (l : list nat) : list nat :=
  match l with
  | [] => []
  | x :: l => if closed x then i :: failed (S i) l else failed (S i) l
  end.

(** One request; [local_closed] when the local receiver is gone, which ends the
    task ([false]). *)
Definition handle (local_closed : bool) (req : NotifyRequest) (h : Handler) : option (Handler * bool) :=
  match req with
  | Notify m =>
      let delivered := (fun x => (Some x, m)) <$> filter (fun x => closed x = false) (listeners h) in
      l ← remove_all (reverse (failed 0 (listeners h))) (listeners h);
      if local_closed then Some (mkHandler l (sent h ++ delivered), false)
      else Some (mkHandler l (sent h ++ delivered ++ [(None, m)]), true)
  | Listen tx => Some (mkHandler (listeners h ++ [tx]) (sent h), true)
  end.

Lemma swap_remove_ok {A} (l : list A) i x :
  l !! i = Some x ->
  exists l', swap_remove i l = Some l' /\ l ≡ₚ x :: l' /\ length l' = (length l - 1)%nat /\
    (forall j, (j < i)%nat -> l' !! j = l !! j) /\
    (forall j y, (i <= j)%nat -> l' !! j = Some y -> exists k, (i < k)%nat /\ l !! k = Some y).
Proof.
  intros Hi. pose proof (lookup_lt_Some _ _ _ Hi) as Hlt.
  destruct l as [|y t _] using rev_ind; [done|]. rewrite length_app in Hlt. cbn in Hlt.
  unfold swap_remove. rewrite Hi. cbn [mbind option_bind]. rewrite length_app. cbn [length]. rewrite Nat.add_sub.
  rewrite lookup_app_r, Nat.sub_diag by lia. cbn [lookup list_lookup mbind option_bind].
  eexists. split; [reflexivity|]. destruct (decide (i = length t)) as [->|Hne].
  - rewrite insert_app_r_alt, Nat.sub_diag by lia. cbn [insert list_insert]. rewrite take_app_length.
    rewrite lookup_app_r, Nat.sub_diag in Hi by lia. injection Hi as <-.
    split; [by rewrite Permutation_app_comm|]. split; [done|]. split.
    + intros j Hj. by rewrite lookup_app_l by lia.
    + intros j z Hj Hz. apply lookup_lt_Some in Hz. lia.
  - assert (i < length t)%nat as Hi' by lia. rewrite lookup_app_l in Hi by done.
    rewrite insert_app_l, take_app_le, take_ge by (rewrite ?length_insert; lia). split; [|split; [by rewrite length_insert|split]].
    + rewrite Permutation_app_comm. cbn. rewrite insert_take_drop by done.
      rewrite <- (take_drop_middle t i x Hi) at 1. rewrite <- !Permutation_middle. apply Permutation_swap.
    + intros j Hj. rewrite list_lookup_insert_ne, lookup_app_l by lia. done.
    + intros j z Hj Hz. pose proof (lookup_lt_Some _ _ _ Hz) as Hjl. rewrite length_insert in Hjl.
      destruct (decide (j = i)) as [->|Hji].
      * rewrite list_lookup_insert_eq in Hz by done. injection Hz as <-. exists (length t).
        split; [done|]. by rewrite lookup_app_r, Nat.sub_diag by lia.
      * rewrite list_lookup_insert_ne in Hz by done. exists j. split; [lia|]. by apply lookup_app_l_Some.
Qed.

(** A stack of positions, largest on top, all below [b]. *)
Fixpoint desc (b : nat) (r : list nat) : Prop :=
  match r with [] => True | i :: r => (i < b)%nat /\ desc i r end.

Lemma desc_lt b r i : desc b r -> i ∈ r -> (i < b)%nat.
Proof.
  revert b. induction r as [|j r IH]; intros b; [by intros _ Hin; inversion Hin|].
  intros [Hj Hr] [->|Hin]%elem_of_cons; [done|]. specialize (IH _ Hr Hin). lia.
Qed.

Lemma remove_all_ok (P : nat -> bool) r : forall l,
  desc (length l) r -> (forall i x, l !! i = Some x -> i ∈ r <-> P x = true) ->
  exists l', remove_all r l = Some l' /\ l' ≡ₚ filter (fun x => P x = false) l.
Proof.
  induction r as [|i r IH]; intros l Hd Hm.
  - exists l. split; [done|]. rewrite filter_all; [done|]. intros x [i Hi]%list_elem_of_lookup.
    destruct (P x) eqn:E; [|done]. apply (Hm i x Hi) in E. by inversion E.
  - destruct Hd as [Hi Hd]. destruct (lookup_lt_is_Some_2 l i Hi) as [x Hx].
    assert (P x = true) as Px by (apply (Hm i x Hx); by left).
    destruct (swap_remove_ok l i x Hx) as (l1 & Hrun & Hperm & Hlen & Hlow & Hhigh).
    destruct (IH l1) as (l' & Hrun' & Hp').
    + rewrite Hlen. clear - Hd Hi. destruct r as [|j r]; [done|]. destruct Hd as [? ?]. split; [lia|done].
    + intros j y Hj. destruct (decide (j < i)%nat) as [Hlt|Hge].
      * rewrite Hlow in Hj by done. rewrite <- (Hm j y Hj). rewrite elem_of_cons. split; [by right|]. intros [->|?]; [lia|done].
      * destruct (Hhigh j y ltac:(lia) Hj) as (k & Hk & Hky). split.
        -- intros Hin. pose proof (desc_lt _ _ _ Hd Hin). lia.
        -- intros HP. apply (Hm k y Hky) in HP. apply elem_of_cons in HP as [->|Hin]; [lia|].
           pose proof (desc_lt _ _ _ Hd Hin). lia.
    + exists l'. cbn. rewrite Hrun. cbn. split; [done|]. rewrite Hp', Hperm. rewrite filter_cons_False by congruence. done.
Qed.

Lemma failed_spec l : forall i, desc (i + length l) (reverse (failed i l)) /\
  forall j x, l !! j = Some x -> (i + j)%nat ∈ failed i l <-> closed x = true.
Proof.
  assert (forall l i j, j ∈ failed i l -> (i <= j)%nat) as Hge.
  { clear. induction l as [|x l IH]; intros i j; cbn; [by intros Hin; inversion Hin|].
    destruct (closed x); [intros [->|Hin]%elem_of_cons; [lia|]|intros Hin]; specialize (IH _ _ Hin); lia. }
  assert (forall b r j, desc b r -> (forall x, x ∈ r -> (j < x)%nat) -> (j < b)%nat -> desc b (r ++ [j])) as Hsnoc.
  { clear. intros b r. revert b. induction r as [|i r IH]; intros b j Hd Hr Hj; cbn; [done|]. destruct Hd as [Hi Hd].
    split; [done|]. apply IH; [done| |apply Hr; by left]. intros x Hx. apply Hr. by right. }
  induction l as [|x l IH]; intros i; cbn [failed length].
  - split; [done|]. intros j x Hj. done.
  - destruct (IH (S i)) as [Hd Hm]. replace (i + S (length l))%nat with (S i + length l)%nat by lia. split.
    + destruct (closed x); [|done]. rewrite reverse_cons. apply Hsnoc; [done| |lia].
      intros y Hy%elem_of_reverse%Hge. lia.
    + intros [|j] y Hy.
      * injection Hy as <-. rewrite Nat.add_0_r. destruct (closed x); [split; [done|by left]|].
        split; [intros Hin%Hge; lia|done].
      * rewrite Nat.add_succ_r. change (S (i + j)) with (S i + j)%nat. rewrite <- (Hm j y Hy).
        destruct (closed x); [|done]. rewrite elem_of_cons. split; [intros [?|?]; [lia|done]|by right].
Qed.

(** A notification reaches every listener whose channel is open, once and in
    order, and the local one; exactly the closed ones are removed. *)
Lemma notify_ok m h :
  exists l, handle false (Notify m) h =
    Some (mkHandler l (sent h ++ ((fun x => (Some x, m)) <$> filter (fun x => closed x = false) (listeners h)) ++ [(None, m)]), true) /\
    l ≡ₚ filter (fun x => closed x = false) (listeners h).
Proof.
  destruct (failed_spec (listeners h) 0) as [Hd Hm].
  destruct (remove_all_ok closed (reverse (failed 0 (listeners h))) (listeners h)) as (l & Hrun & Hp).
  - exact Hd.
  - intros i x Hi. rewrite elem_of_reverse. by apply (Hm i x).
  - exists l. cbn [handle]. rewrite Hrun. done.
Qed.

End Notify.
End Notify.
