(* ===== verification/CacheSM.v ===== *)
(** The cache state machine:
    [hiqlite/src/store/state_machine/memory/state_machine.rs] and the
    [CacheVariants] checks of [hiqlite/src/lib.rs].

    The handler tasks behind the channels are the components [Kv], [DLock] and
    [Notify].  Every channel is first in first out and each handler owns its
    state, so a message is served where it is sent; the clock a handler reads
    while it serves the message of a log entry is a function of the index of the
    entry and the number of the message.  The features [counters], [dlock] and
    [listen_notify] are on; [in_memory_snapshots] is a parameter.  Directory
    contents are what a completed rename left; failing devices are not modelled. *)
From stdpp Require Import base gmap strings list numbers sorting pretty.
From Stdlib Require Import Ascii Strings.Byte.
From S2P Require Import Prelude Text WalWriter KvCache DLock Notify.

#[local] Open Scope Z_scope.

Module CacheSM.

Inductive CacheRequest : Type :=
| Get (cache_idx : nat) (key : string)
| Put (cache_idx : nat) (key : string) (value : list byte) (expires : option Z)
| GetRemove (cache_idx : nat) (key : string)
| Replace (cache_idx : nat) (key : string) (value : list byte) (expires : option Z)
| Delete (cache_idx : nat) (key : string)
| Clear (cache_idx : nat)
| ClearCounters (cache_idx : nat)
| ClearAll
| Notify (payload : Z * list byte)
| Lock (key : string) (id : option Z)
| LockAlive (key : string) (id : Z)
| LockAwait (key : string) (id : Z)
| LockRelease (key : string) (id : Z)
| CounterGet (cache_idx : nat) (key : string)
| CounterSet (cache_idx : nat) (key : string) (value : Z)
| CounterAdd (cache_idx : nat) (key : string) (value : Z)
| CounterDel (cache_idx : nat) (key : string).

Inductive CacheResponse : Type :=
| REmpty
| ROk
| RLock (s : DLock.LockState)
| RValue (v : option (list byte))
| RCounterValue (v : option Z).

Inductive SMError : Type := EIncompatible | ERead | EWrite | ECodec.

Section CacheSM.
(** openraft's membership and the [Display] of a leader id. *)
Context {M : Type} (show_leader : LogId -> string).

Inductive EntryPayload : Type :=
| Blank
| Normal (req : CacheRequest)
| Membership (mem : M).

Record Entry : Type := mkEntry { log_id : LogId; payload : EntryPayload }.

(** [StoredMembership]: the log that set it, and the membership. *)
Abbreviation StoredMembership := (option LogId * M)%type.

Record StateMachineData : Type := mkData {
  last_applied_log_id : option LogId;
  last_membership : StoredMembership;
}.

Record SnapshotMeta : Type := mkSnapMeta {
  snap_last_log_id : option LogId;
  snap_last_membership : StoredMembership;
  snapshot_id : string;
}.

Abbreviation SnapshotDataContent := (SnapshotMeta * list Kv.CacheSnapshot * list byte)%type.

(** [serialize_serde] and [deserialize_serde]: parameters. *)
Class SnapCodec : Type := {
  serialize_locks : DLock.Locks -> option (list byte);
  deserialize_locks : list byte -> option DLock.Locks;
  serialize_snap : SnapshotDataContent -> option (list byte);
  deserialize_snap : list byte -> option SnapshotDataContent;
}.
Class SnapCodecOk `{SnapCodec} : Prop := {
  locks_total : forall l, exists b, serialize_locks l = Some b;
  locks_round : forall l b, serialize_locks l = Some b -> deserialize_locks b = Some l;
  snap_total : forall c, exists b, serialize_snap c = Some b;
  snap_round : forall c b, serialize_snap c = Some b -> deserialize_snap b = Some c;
}.

Record StateMachineMemory : Type := mkSM {
  data : StateMachineData;
  in_memory_only : bool;
  snapshot_mem : option (SnapshotMeta * list byte);
  caches : list Kv.Cache;
  notify : Notify.Handler;
  dlock : DLock.State;
  (** fresh reply channels, and the answers sent to the channels of waiters *)
  next_ack : nat;
  answers : DLock.Answers;
  (** the files below [path_snapshots] *)
  snapshots : gmap string (list byte);
}.

Definition set_data (d : StateMachineData) (m : StateMachineMemory) : StateMachineMemory :=
  mkSM d (in_memory_only m) (snapshot_mem m) (caches m) (notify m) (dlock m) (next_ack m) (answers m) (snapshots m).
Definition set_caches (c : list Kv.Cache) (m : StateMachineMemory) : StateMachineMemory :=
  mkSM (data m) (in_memory_only m) (snapshot_mem m) c (notify m) (dlock m) (next_ack m) (answers m) (snapshots m).
Definition set_notify (n : Notify.Handler) (m : StateMachineMemory) : StateMachineMemory :=
  mkSM (data m) (in_memory_only m) (snapshot_mem m) (caches m) n (dlock m) (next_ack m) (answers m) (snapshots m).
Definition set_dlock (d : DLock.State) (a : nat) (out : DLock.Answers) (m : StateMachineMemory) : StateMachineMemory :=
  mkSM (data m) (in_memory_only m) (snapshot_mem m) (caches m) (notify m) d a out (snapshots m).
Definition set_mem (s : option (SnapshotMeta * list byte)) (m : StateMachineMemory) : StateMachineMemory :=
  mkSM (data m) (in_memory_only m) s (caches m) (notify m) (dlock m) (next_ack m) (answers m) (snapshots m).
Definition set_snapshots (d : gmap string (list byte)) (m : StateMachineMemory) : StateMachineMemory :=
  mkSM (data m) (in_memory_only m) (snapshot_mem m) (caches m) (notify m) (dlock m) (next_ack m) (answers m) d.

Abbreviation SMSt := (St SMError StateMachineMemory).

Definition sm_modify (f : StateMachineMemory -> StateMachineMemory) : SMSt unit := fun m => (Ok tt, f m).

(** The clock readings of the handlers, and which listeners are gone. *)
Record Clock : Type := mkClock {
  kv_clock : Z -> nat -> Z * Z;
  lock_clock : Z -> Z * Z;
}.
Context (clk : Clock) (closed : nat -> bool).

(** ** Messages to the handlers *)

(** [self.tx_caches.get(cache_idx).unwrap().send(req)], served by that handler. *)
Definition send_cache (t : Z * Z) (cache_idx : nat) (req : Kv.CacheRequestHandler) : SMSt (option Kv.Reply) := fun m =>
  match caches m !! cache_idx with
  | None => (Panic, m)
  | Some c =>
      match Kv.serve t.1 t.2 req c with
      | None => (OutOfFuel, m)
      | Some (c', r) => (Ok r, set_caches (<[cache_idx := c']> (caches m)) m)
      end
  end.

Definition expect_value (r : option Kv.Reply) : SMSt (option (list byte)) :=
  match r with Some (Kv.RValue v) => mret v | _ => st_panic end.
Definition expect_counter (r : option Kv.Reply) : SMSt (option Z) :=
  match r with Some (Kv.RCounter v) => mret v | _ => st_panic end.
Definition expect_snapshot (r : option Kv.Reply) : SMSt Kv.CacheSnapshot :=
  match r with Some (Kv.RSnapshot s) => mret s | _ => st_panic end.

Definition send_notify (payload : Z * list byte) : SMSt unit := fun m =>
  match Notify.handle closed false (Notify.Notify payload) (notify m) with
  | None => (Panic, m)
  | Some (h, _) => (Ok tt, set_notify h m)
  end.

(** A request with a reply channel of its own: the answer for the channel, and
    the answers for others. *)
Definition answer_for (ack : nat) (out : DLock.Answers) : option DLock.LockState :=
  match list_find (fun a : nat * DLock.LockState => a.1 = ack) out with
  | Some (_, a) => Some a.2
  | None => None
  end.

Definition lock_call (t : Z * Z) (mk : nat -> DLock.LockRequest) : SMSt DLock.LockState := fun m =>
  let ack := next_ack m in
  let '(s, out) := DLock.handle_request t.1 t.2 (mk ack) (dlock m) in
  let m := set_dlock s (S ack) (answers m ++ out) m in
  match answer_for ack out with
  | Some st => (Ok st, m)
  | None => (Panic, m)
  end.

Definition lock_send (t : Z * Z) (req : DLock.LockRequest) : SMSt unit := fun m =>
  let '(s, out) := DLock.handle_request t.1 t.2 req (dlock m) in
  (Ok tt, set_dlock s (next_ack m) (answers m ++ out) m).

(** ** [apply] *)

(** The body of the loop of [ClearAll], for the caches from [idx] on. *)
Fixpoint clear_all (i : Z) (idx n : nat) : SMSt unit :=
  match n with
  | O => mret tt
  | S n =>
      send_cache (kv_clock clk i (2 * idx)) idx Kv.Clear;;
      send_cache (kv_clock clk i (2 * idx + 1)) idx Kv.ClearCounters;;
      clear_all i (S idx) n
  end.

Definition apply_request (id : LogId) (req : CacheRequest) : SMSt CacheResponse :=
  let t := kv_clock clk (index id) 0 in
  let tl := lock_clock clk (index id) in
  match req with
  | Get _ _ => st_panic
  | Put i key value expires => send_cache t i (Kv.Put key value expires);; mret ROk
  | GetRemove i key => r ← send_cache t i (Kv.GetRemove key); v ← expect_value r; mret (RValue v)
  | Replace i key value expires =>
      r ← send_cache t i (Kv.Replace key value expires); v ← expect_value r; mret (RValue v)
  | Delete i key => send_cache t i (Kv.Delete key);; mret ROk
  | Clear i => send_cache t i Kv.Clear;; mret ROk
  | ClearCounters i => send_cache t i Kv.ClearCounters;; mret ROk
  | ClearAll => m ← st_get; clear_all (index id) 0 (length (caches m));; mret ROk
  | Notify payload => send_notify payload;; mret ROk
  | Lock key (Some log_id) => s ← lock_call tl (DLock.Acquire key log_id); mret (RLock s)
  | Lock key None => s ← lock_call tl (DLock.Lock key (index id)); mret (RLock s)
  | LockAwait _ _ => st_panic
  | LockRelease key id => lock_send tl (DLock.Release key id);; mret (RLock DLock.Released)
  | LockAlive key id => s ← lock_call tl (DLock.Alive key id); mret (RLock s)
  | CounterGet _ _ => st_panic
  | CounterSet i key value => send_cache t i (Kv.CounterSet key value);; mret ROk
  | CounterAdd i key value =>
      r ← send_cache t i (Kv.CounterAdd key value); v ← expect_counter r;
      match v with Some v => mret (RCounterValue (Some v)) | None => st_panic end
  | CounterDel i key => send_cache t i (Kv.CounterDel key);; mret ROk
  end.

Definition apply_entry (e : Entry) : SMSt CacheResponse :=
  match payload e with
  | Blank => mret REmpty
  | Normal req => apply_request (log_id e) req
  | Membership mem =>
      sm_modify (fun m => set_data (mkData (last_applied_log_id (data m)) (Some (log_id e), mem)) m);;
      mret REmpty
  end.

Fixpoint apply_loop (es : list Entry) : SMSt (list CacheResponse) :=
  match es with
  | [] => mret []
  | e :: es => r ← apply_entry e; rs ← apply_loop es; mret (r :: rs)
  end.

Definition apply (es : list Entry) : SMSt (list CacheResponse) :=
  rs ← apply_loop es;
  sm_modify (fun m => set_data (mkData (log_id <$> last es) (last_membership (data m))) m);;
  mret rs.

Definition applied_state (m : StateMachineMemory) : option LogId * StoredMembership :=
  (last_applied_log_id (data m), last_membership (data m)).

(** ** Snapshots *)
Section Snapshots.
Context `{SnapCodec}.

(** [begin_receiving_snapshot] names its file [temp~]. *)
Definition path_receive : string := "temp~".

Fixpoint build_caches (tb : nat -> Z * Z) (idx n : nat) : SMSt (list Kv.CacheSnapshot) :=
  match n with
  | O => mret []
  | S n =>
      r ← send_cache (tb idx) idx Kv.SnapshotBuild; s ← expect_snapshot r;
      l ← build_caches tb (S idx) n; mret (s :: l)
  end.

Definition make_snapshot_id (now : Z) (last : option LogId) : string :=
  match last with
  | Some id => pretty now +:+ "-" +:+ show_leader id +:+ "-" +:+ to_string (index id)
  | None => pretty now +:+ "--"
  end.

Definition build_snapshot_data (tb : nat -> Z * Z) (now : Z) : SMSt (SnapshotMeta * list byte) :=
  m ← st_get;
  cs ← build_caches tb 0 (length (caches m));
  m ← st_get;
  locks_bytes ← st_lift (unwrap (serialize_locks (DLock.snapshot_build (dlock m))));
  let meta := mkSnapMeta (last_applied_log_id (data m)) (last_membership (data m))
                (make_snapshot_id now (last_applied_log_id (data m))) in
  match serialize_snap (meta, cs, locks_bytes) with
  | Some bytes => mret (meta, bytes)
  | None => st_err EWrite
  end.

(** The clean-up task keeps the snapshot it was started for and the temporary files. *)
Definition is_temp (name : string) : bool := ends_with name "~" || ends_with name "tmp" || ends_with name "temp".
Definition cleanup (id : string) (m : StateMachineMemory) : StateMachineMemory :=
  set_snapshots (filter (fun kv => (negb (String.eqb kv.1 "") && negb (String.eqb kv.1 id) && negb (is_temp kv.1)) = false) (snapshots m)) m.

(** [persist_snapshot] up to the start of the clean-up task. *)
Definition persist_snapshot (meta : SnapshotMeta) (bytes : list byte) : SMSt string :=
  let path := snapshot_id meta in
  let path_temp := path +:+ "~" in
  sm_modify (fun m => set_snapshots (<[path_temp := bytes]> (snapshots m)) m);;
  sm_modify (fun m => set_snapshots (<[path := bytes]> (delete path_temp (snapshots m))) m);;
  mret path.

Definition build_snapshot (in_memory_snapshots : bool) (tb : nat -> Z * Z) (now : Z) : SMSt (SnapshotMeta * list byte) :=
  '(meta, bytes) ← build_snapshot_data tb now;
  m ← st_get;
  if in_memory_snapshots && in_memory_only m then
    sm_modify (set_mem (Some (meta, bytes)));; mret (meta, bytes)
  else persist_snapshot meta bytes;; mret (meta, bytes).

Fixpoint install_caches (ti : nat -> Z * Z) (idx : nat) (kvs : list Kv.CacheSnapshot) : SMSt unit :=
  match kvs with
  | [] => mret tt
  | s :: kvs => send_cache (ti idx) idx (Kv.SnapshotInstall s);; install_caches ti (S idx) kvs
  end.

Definition update_state_machine (ti : nat -> Z * Z) (content : SnapshotDataContent) : SMSt unit :=
  let '(meta, kvs, locks) := content in
  install_caches ti 0 kvs;;
  locks ← st_lift (unwrap (deserialize_locks locks));
  lock_send (0, 0) (DLock.SnapshotInstall locks);;
  sm_modify (set_data (mkData (snap_last_log_id meta) (snap_last_membership meta))).

Definition apply_snapshot_bytes (ti : nat -> Z * Z) (bytes : list byte) : SMSt unit :=
  match deserialize_snap bytes with
  | Some content => update_state_machine ti content
  | None => st_err ECodec
  end.

(** The loop of [read_current_snapshot] over the directory: the newest snapshot
    so far, with its time stamp. *)
Definition consider (best : option (Z * string)) (name : string) : option (Z * string) :=
  if ends_with name "~" || ends_with name ".temp" then best else
  match split_once "-"%char name with
  | None => best
  | Some (ts, _) =>
      match parse_i64 ts with
      | None => best
      | Some ts =>
          match best with
          | None => Some (ts, name)
          | Some (latest, last_name) =>
              if latest <? ts then Some (ts, name)
              else if ts =? latest then
                match rsplit_once "-"%char name ≫= (fun p => parse_i64 p.2),
                      rsplit_once "-"%char last_name ≫= (fun p => parse_i64 p.2) with
                | Some log_id, Some log_id_latest =>
                    if log_id_latest <? log_id then Some (ts, name) else best
                | _, _ => best
                end
              else best
          end
      end
  end.

Definition latest_snapshot (names : list string) : option (Z * string) := foldl consider None names.

(** [names] is the order in which the directory is listed. *)
Definition read_current_snapshot (names : list string) (m : StateMachineMemory)
    : Res SMError (option (string * SnapshotDataContent)) :=
  match latest_snapshot names with
  | None => Ok None
  | Some (_, name) =>
      match snapshots m !! name with
      | None => Err ERead
      | Some bytes =>
          match deserialize_snap bytes with
          | Some content => Ok (Some (name, content))
          | None => Err ECodec
          end
      end
  end.

Definition begin_receiving_snapshot (in_memory_snapshots : bool) (m : StateMachineMemory) : StateMachineMemory :=
  if in_memory_snapshots then m else set_snapshots (<[path_receive := []]> (snapshots m)) m.

(** [snapshot] is the received data: the content of the temporary file, or the
    cursor with [in_memory_snapshots]. *)
Definition install_snapshot (in_memory_snapshots : bool) (ti : nat -> Z * Z) (meta : SnapshotMeta)
    (snapshot : list byte) : SMSt unit :=
  m ← st_get;
  if in_memory_snapshots then
    (if in_memory_only m then sm_modify (set_mem (Some (meta, snapshot)))
     else sm_modify (set_snapshots (<[snapshot_id meta := snapshot]> (snapshots m))));;
    apply_snapshot_bytes ti snapshot
  else
    match snapshots m !! path_receive with
    | None => st_err EWrite
    | Some bytes =>
        sm_modify (set_snapshots (<[snapshot_id meta := bytes]> (delete path_receive (snapshots m))));;
        apply_snapshot_bytes ti bytes
    end.

Definition get_current_snapshot (in_memory_snapshots : bool) (names : list string) (m : StateMachineMemory)
    : Res SMError (option (SnapshotMeta * list byte)) :=
  if in_memory_snapshots && in_memory_only m then Ok (snapshot_mem m)
  else
    r ← read_current_snapshot names m;
    match r with
    | None => Ok None
    | Some (path, (meta, _, _)) =>
        match snapshots m !! path with Some bytes => Ok (Some (meta, bytes)) | None => Err ERead end
    end.

(** ** Start *)

(** [CacheVariants]: the variants as [(index, name)]. *)
Definition normalized (variants : list (nat * string)) : string :=
  foldr (fun v s => to_string (Z.of_nat v.1) +:+ " " +:+ v.2 +:+ String LF s) EmptyString variants.

Definition line_compatible (variants : list (nat * string)) (line : string) : bool :=
  match split_once " "%char line with
  | None => false
  | Some (idx, name) =>
      match parse_u64 idx with
      | None => false
      | Some idx =>
          match variants !! Z.to_nat idx with Some v => String.eqb v.2 name | None => false end
      end
  end.

Definition cache_compatible_with (variants : list (nat * string)) (stored : string) : bool :=
  forallb (line_compatible variants) (lines stored).

(** The indices must be exactly [0..len]. *)
Fixpoint check_indices (variants : list (nat * string)) (seen : list bool) : bool :=
  match variants with
  | [] => true
  | (idx, _) :: vs =>
      match seen !! idx with
      | Some false => check_indices vs (<[idx := true]> seen)
      | _ => false
      end
  end.

(** The disk the machine starts on: [cache_index.meta] and the snapshots. *)
Record Disk : Type := mkDisk { cache_index : option string; snapshot_files : gmap string (list byte) }.

Definition check_cache_index (variants : list (nat * string)) (d : Disk) : Res SMError Disk :=
  if match cache_index d with Some stored => cache_compatible_with variants stored | None => true end
  then Ok (mkDisk (Some (normalized variants)) (snapshot_files d))
  else Err EIncompatible.

Definition fresh_machine (in_memory : bool) (n : nat) (files : gmap string (list byte)) (m0 : M) : StateMachineMemory :=
  mkSM (mkData None (None, m0)) in_memory None (replicate n Kv.empty_cache) (Notify.mkHandler [] [])
    (DLock.mkState ∅ ∅) 0 [] files.

(** [StateMachineMemory::new]; [m0] is the empty membership. *)
Definition new (in_memory_snapshots in_memory : bool) (variants : list (nat * string)) (ti : nat -> Z * Z)
    (names : gmap string (list byte) -> list string) (m0 : M) : St SMError Disk StateMachineMemory := fun d =>
  let d := if negb in_memory_snapshots && in_memory then mkDisk (cache_index d) ∅ else d in
  if negb (check_indices variants (replicate (length variants) false)) then (Panic, d)
  else
    match (if in_memory_snapshots then Ok d else check_cache_index variants d) with
    | Ok d =>
        let m := fresh_machine in_memory (length variants) (snapshot_files d) m0 in
        if in_memory_snapshots && in_memory then (Ok m, d)
        else
          match read_current_snapshot (names (snapshot_files d)) m with
          | Ok None => (Ok m, d)
          | Ok (Some (_, content)) =>
              match update_state_machine ti content m with
              | (Ok _, m) => (Ok m, d)
              | (Err e, _) => (Err e, d)
              | (Panic, _) => (Panic, d)
              | (OutOfFuel, _) => (OutOfFuel, d)
              end
          | _ => (Panic, d)
          end
    | Err e => (Err e, d)
    | Panic => (Panic, d)
    | OutOfFuel => (OutOfFuel, d)
    end.

End Snapshots.
End CacheSM.
End CacheSM.
