(* ===== verification/CacheSMSpec.v ===== *)
(** The cache state machine is a function of the log: every valid entry is
    applied, replicas that agree stay in agreement and give the same answers, a
    snapshot carries the whole replicated state, and a restart finds the newest
    one. *)
From stdpp Require Import base gmap strings list numbers sorting pretty.
From Stdlib Require Import Ascii Strings.Byte.
From S2P Require Import Prelude Text WalWriter KvCache DLock Notify CacheSM.

#[local] Open Scope Z_scope.

Import CacheSM.

Section CacheSMSpec.
Context {M : Type} (show_leader : LogId -> string) (clk : Clock) (closed : nat -> bool).
#[local] Abbreviation SM := (@StateMachineMemory M).
#[local] Abbreviation Ent := (@Entry M).

(** ** The replicated part *)
Record replica_eq (m m' : SM) : Prop := {
  re_data : data m = data m';
  re_caches : Forall2 (≡) (caches m) (caches m');
  re_locks : DLock.locks (dlock m) = DLock.locks (dlock m');
}.

(** [n] is a bound on the log indices that were handed out as tickets. *)
Record machine_ok (n : Z) (m : SM) : Prop := {
  mo_caches : Forall Kv.cache_ok (caches m);
  mo_dlock : DLock.dlock_ok (dlock m);
  mo_tickets : forall key id, DLock.ticket (dlock m) key id -> id < n;
  mo_acks : Forall (fun a => a < next_ack m)%nat (DLock.pending (DLock.waiters (dlock m)));
}.

(** What the clients and the network layer send through the raft. *)
Definition valid_request (caches : nat) (i : Z) (req : CacheRequest) : Prop :=
  match req with
  | Put k _ _ _ | GetRemove k _ | Replace k _ _ _ | Delete k _ | Clear k | ClearCounters k
  | CounterSet k _ _ | CounterAdd k _ _ | CounterDel k _ => (k < caches)%nat
  | Lock _ (Some id) => id < i
  | Get _ _ | LockAwait _ _ | CounterGet _ _ => False
  | _ => True
  end.

Definition valid_entry (caches : nat) (e : Ent) : Prop :=
  match payload e with Normal req => valid_request caches (index (log_id e)) req | _ => True end.

(** Valid entries with growing indices, from [n] on. *)
Fixpoint valid_entries (caches : nat) (n : Z) (es : list Ent) : Prop :=
  match es with
  | [] => True
  | e :: es => n <= index (log_id e) /\ valid_entry caches e /\ valid_entries caches (index (log_id e) + 1) es
  end.

(** Both machines run the step, answer the same and stay in agreement. *)
Definition agree {A} (n : Z) (N : nat) (f : St SMError SM A) (m m' : SM) : Prop :=
  exists a m1 m1', f m = (Ok a, m1) /\ f m' = (Ok a, m1') /\ replica_eq m1 m1' /\
    machine_ok n m1 /\ machine_ok n m1' /\ length (caches m1) = N.

Lemma agree_ret {A} n N (a : A) m m' :
  replica_eq m m' -> machine_ok n m -> machine_ok n m' -> length (caches m) = N -> agree n N (mret a) m m'.
Proof. intros. exists a, m, m'. done. Qed.

Lemma agree_bind {A B} n N (f : St SMError SM A) (k : A -> St SMError SM B) m m' :
  agree n N f m m' ->
  (forall a m m', replica_eq m m' -> machine_ok n m -> machine_ok n m' -> length (caches m) = N -> agree n N (k a) m m') ->
  agree n N (f ≫= k) m m'.
Proof.
  intros (a & m1 & m1' & E & E' & Hr & Ho & Ho' & Hl) Hk. unfold agree, mbind, st_bind. rewrite E, E'. by apply Hk.
Qed.

Lemma machine_ok_mono n n' (m : SM) : n <= n' -> machine_ok n m -> machine_ok n' m.
Proof. intros Hn [Hc Hd Ht Ha]. split; [done..| |done]. intros key id Hk. specialize (Ht key id Hk). lia. Qed.

Lemma agree_mono {A} n n' N (f : St SMError SM A) m m' : n <= n' -> agree n N f m m' -> agree n' N f m m'.
Proof.
  intros Hn (a & m1 & m1' & E & E' & Hr & Ho & Ho' & Hl). exists a, m1, m1'. split_and!; try done; by eapply machine_ok_mono.
Qed.

Lemma send_cache_same n N t k req m m' :
  replica_eq m m' -> machine_ok n m -> machine_ok n m' -> length (caches m) = N -> (k < N)%nat ->
  agree n N (send_cache t k req) m m' /\
  forall c, caches m !! k = Some c -> exists c', (send_cache t k req m).1 = Ok c' /\
    (forall key v x, req = Kv.GetRemove key \/ req = Kv.Replace key v x -> exists w, c' = Some (Kv.RValue w)) /\
    (forall key d, req = Kv.CounterAdd key d -> exists w, c' = Some (Kv.RCounter (Some w))).
Proof.
  intros [Rd Rc Rl] [Hc Hd Ht Ha] [Hc' Hd' Ht' Ha'] Hl Hk. unfold send_cache.
  destruct (lookup_lt_is_Some_2 (caches m) k) as [c Ec]; [lia|].
  destruct (Forall2_lookup_l _ _ _ _ _ Rc Ec) as (c' & Ec' & Hcc).
  rewrite Forall_forall in Hc, Hc'.
  destruct (Kv.serve_same t.1 t.2 req c c') as (d & d' & r & E & E' & Hdd & Hok & Hok'); [| |done|].
  { apply Hc. by eapply list_elem_of_lookup_2. } { apply Hc'. by eapply list_elem_of_lookup_2. }
  split.
  - exists r, (set_caches (<[k := d]> (caches m)) m), (set_caches (<[k := d']> (caches m')) m').
    rewrite Ec, Ec', E, E'. split_and!; try done.
    + split; [done| |done]. cbn. by apply Forall2_insert.
    + split; try done. cbn. apply Forall_insert; [by apply Forall_forall|done].
    + split; try done. cbn. apply Forall_insert; [by apply Forall_forall|done].
    + cbn. by rewrite length_insert.
  - intros c0 E0. assert (c0 = c) as -> by congruence. rewrite Ec, E. cbn. exists r. split; [done|].
    unfold Kv.serve in E. destruct (Kv.expire_due t.1 c) as [c1|]; [|done]. cbn in E. injection E as E. apply (f_equal snd) in E. cbn in E. subst r.
    split; [intros key v x [->| ->]; cbn; eauto|intros key dd ->; cbn; eauto].
Qed.

Lemma send_cache_ok {B} n N t k req (f : option Kv.Reply -> St SMError SM B) m m' :
  replica_eq m m' -> machine_ok n m -> machine_ok n m' -> length (caches m) = N -> (k < N)%nat ->
  (forall r m m', replica_eq m m' -> machine_ok n m -> machine_ok n m' -> length (caches m) = N ->
    (forall key v x, req = Kv.GetRemove key \/ req = Kv.Replace key v x -> exists w, r = Some (Kv.RValue w)) ->
    (forall key d, req = Kv.CounterAdd key d -> exists w, r = Some (Kv.RCounter (Some w))) -> agree n N (f r) m m') ->
  agree n N (send_cache t k req ≫= f) m m'.
Proof.
  intros Hr Ho Ho' Hl Hk Hf. destruct (send_cache_same n N t k req m m' Hr Ho Ho' Hl Hk) as [(a & m1 & m1' & E & E' & Hx) Hv].
  destruct (lookup_lt_is_Some_2 (caches m) k) as [c Ec]; [lia|]. destruct (Hv c Ec) as (c' & E1 & H1 & H2).
  rewrite E in E1. cbn in E1. injection E1 as <-. destruct Hx as (? & ? & ? & ?).
  unfold agree, mbind, st_bind. rewrite E, E'. by apply Hf.
Qed.

(** A request that is answered at once: the answer is on the machine's own channel. *)
Lemma answer_for_last ack out st :
  ack ∉ out.*1 -> answer_for ack (out ++ [(ack, st)]) = Some st.
Proof.
  intros Hn. unfold answer_for. assert (list_find (fun a : nat * DLock.LockState => a.1 = ack) out = None) as E.
  { apply list_find_None. apply Forall_forall. intros x Hx Hxa. apply Hn. rewrite <- Hxa. by apply list_elem_of_fmap_2. }
  rewrite list_find_app_r by done. cbn. by rewrite decide_True.
Qed.

Lemma own_ack n t1 t2 mk (m : SM) out st :
  machine_ok n m -> DLock.immediate mk -> (DLock.handle_request t1 t2 (mk (next_ack m)) (dlock m)).2 = out ++ [(next_ack m, st)] ->
  (next_ack m ∉ out.*1) /\
  Forall (fun a => a < S (next_ack m))%nat (DLock.pending (DLock.waiters (DLock.handle_request t1 t2 (mk (next_ack m)) (dlock m)).1)).
Proof.
  intros Ho (key & id & Hmk) E. pose proof (DLock.acks_conserved t1 t2 (mk (next_ack m)) (dlock m)) as P.
  assert (DLock.req_ack (mk (next_ack m)) = [next_ack m]) as Hack by (by destruct Hmk as [->|[->| ->]]).
  rewrite Hack, E, fmap_app, app_assoc in P. cbn in P. apply Permutation_app_inv_r in P.
  pose proof (mo_acks _ _ Ho) as Ha. rewrite <- P in Ha. apply Forall_app in Ha as [Ha1 Ha2]. split.
  - intros Hin. rewrite Forall_forall in Ha2. specialize (Ha2 _ Hin). lia.
  - eapply Forall_impl; [exact Ha1|]. cbn. lia.
Qed.

Context (Hclk : forall i, (lock_clock clk i).1 = (lock_clock clk i).2).

Lemma steady_clock i key s : DLock.steady (lock_clock clk i).1 (lock_clock clk i).2 key s.
Proof. rewrite Hclk. split; [unfold DLock.LOCK_VALID_SECONDS; lia|done]. Qed.

(** One request to the lock handler keeps the invariant of the machine, when the
    ticket it brings is new or known. *)
Lemma lock_request_ok n n' i req (m : SM) ack out :
  machine_ok n m -> n <= n' -> DLock.req_ok req (dlock m) -> (forall id, DLock.req_ticket req id -> id < n') ->
  let r := DLock.handle_request (lock_clock clk i).1 (lock_clock clk i).2 req (dlock m) in
  Forall (fun a => a < ack)%nat (DLock.pending (DLock.waiters r.1)) ->
  machine_ok n' (set_dlock r.1 ack out m).
Proof.
  intros [Hc Hd Ht Ha] Hn Hreq Htk r Hp. split; cbn; [done| | |done].
  - apply DLock.handle_request_ok; [done..|]. intros key _. apply steady_clock.
  - intros key id [Hk|Hk]%DLock.request_tickets; [|by apply Htk]. specialize (Ht key id Hk). lia.
Qed.

Lemma lock_call_same {B} n n' N i mk (f : DLock.LockState -> St SMError SM B) m m' :
  replica_eq m m' -> machine_ok n m -> machine_ok n m' -> length (caches m) = N -> n <= n' ->
  DLock.immediate mk -> (forall a s, (forall key id, DLock.ticket s key id -> id < n) -> DLock.req_ok (mk a) s) ->
  (forall a id, DLock.req_ticket (mk a) id -> id < n') ->
  (forall st m m', replica_eq m m' -> machine_ok n' m -> machine_ok n' m' -> length (caches m) = N -> agree n' N (f st) m m') ->
  agree n' N (lock_call (lock_clock clk i) mk ≫= f) m m'.
Proof.
  intros [Rd Rc Rl] Ho Ho' Hl Hn Himm Hreq Htk Hf. unfold agree, mbind, st_bind, lock_call.
  destruct (DLock.immediate_same (lock_clock clk i).1 (lock_clock clk i).2 mk (next_ack m) (next_ack m') (dlock m) (dlock m') Himm Rl)
    as (El & out & out' & st & E & E').
  destruct (own_ack n _ _ mk m out st Ho Himm E) as [Hni Hac]. destruct (own_ack n _ _ mk m' out' st Ho' Himm E') as [Hni' Hac'].
  pose proof (lock_request_ok n n' i (mk (next_ack m)) m _ (answers m ++ (out ++ [(next_ack m, st)])) Ho Hn (Hreq _ _ (mo_tickets _ _ Ho)) (Htk _) Hac) as K.
  pose proof (lock_request_ok n n' i (mk (next_ack m')) m' _ (answers m' ++ (out' ++ [(next_ack m', st)])) Ho' Hn (Hreq _ _ (mo_tickets _ _ Ho')) (Htk _) Hac') as K'.
  cbv zeta in K, K'.
  destruct (DLock.handle_request _ _ (mk (next_ack m)) _) as [s o], (DLock.handle_request _ _ (mk (next_ack m')) _) as [s' o'].
  cbn [fst snd] in *. subst o o'. rewrite !answer_for_last by done.
  apply Hf; [|exact K|exact K'|done]. split; [done|done|exact El].
Qed.

Lemma release_same_sm {B} n N i key id (f : unit -> St SMError SM B) m m' :
  replica_eq m m' -> machine_ok n m -> machine_ok n m' -> length (caches m) = N ->
  (forall u m m', replica_eq m m' -> machine_ok n m -> machine_ok n m' -> length (caches m) = N -> agree n N (f u) m m') ->
  agree n N (lock_send (lock_clock clk i) (DLock.Release key id) ≫= f) m m'.
Proof.
  intros [Rd Rc Rl] Ho Ho' Hl Hf.
  pose proof (DLock.release_same (lock_clock clk i).1 (lock_clock clk i).2 key id _ _ Rl) as El.
  assert (forall m, machine_ok n m -> let r := DLock.handle_request (lock_clock clk i).1 (lock_clock clk i).2 (DLock.Release key id) (dlock m) in
    machine_ok n (set_dlock r.1 (next_ack m) (answers m ++ r.2) m)) as Hok.
  { intros m0 Ho0 r. eapply lock_request_ok; [exact Ho0|lia|done|done|].
    pose proof (DLock.acks_conserved (lock_clock clk i).1 (lock_clock clk i).2 (DLock.Release key id) (dlock m0)) as P.
    cbn [DLock.req_ack] in P. rewrite app_nil_r in P. pose proof (mo_acks _ _ Ho0) as Ha. rewrite <- P in Ha. by apply Forall_app in Ha as [? _]. }
  pose proof (Hok m Ho) as K. pose proof (Hok m' Ho') as K'. cbv zeta in K, K'.
  unfold agree, mbind, st_bind, lock_send.
  destruct (DLock.handle_request _ _ _ (dlock m)) as [s o], (DLock.handle_request _ _ _ (dlock m')) as [s' o'].
  cbn [fst snd] in *. apply Hf; [|exact K|exact K'|done]. by split.
Qed.

Lemma notify_same {B} n N payload (f : unit -> St SMError SM B) m m' :
  replica_eq m m' -> machine_ok n m -> machine_ok n m' -> length (caches m) = N ->
  (forall u m m', replica_eq m m' -> machine_ok n m -> machine_ok n m' -> length (caches m) = N -> agree n N (f u) m m') ->
  agree n N (send_notify closed payload ≫= f) m m'.
Proof.
  intros [Rd Rc Rl] [Hc Hd Ht Ha] [Hc' Hd' Ht' Ha'] Hl Hf. unfold agree, mbind, st_bind, send_notify.
  destruct (Notify.notify_ok closed payload (notify m)) as (l & -> & _).
  destruct (Notify.notify_ok closed payload (notify m')) as (l' & -> & _). by apply Hf.
Qed.

Lemma clear_all_same n N i k : forall idx m m',
  replica_eq m m' -> machine_ok n m -> machine_ok n m' -> length (caches m) = N -> (idx + k <= N)%nat ->
  agree n N (clear_all clk i idx k) m m'.
Proof.
  induction k as [|k IH]; intros idx m m' Hr Ho Ho' Hl Hk; cbn [clear_all]; [by apply agree_ret|].
  apply send_cache_ok; [done..|lia|]. intros _ m1 m1' ? ? ? ? _ _.
  apply send_cache_ok; [done..|lia|]. intros _ m2 m2' ? ? ? ? _ _. apply IH; [done..|lia].
Qed.

(** One request: its effect and its answer depend on the replicated state only. *)
Lemma apply_request_same n N id req m m' :
  replica_eq m m' -> machine_ok n m -> machine_ok n m' -> length (caches m) = N ->
  n <= index id -> valid_request N (index id) req -> agree (index id + 1) N (apply_request clk closed id req) m m'.
Proof.
  intros Hr Ho Ho' Hl Hn Hv. pose proof (machine_ok_mono n (index id + 1) m ltac:(lia) Ho) as Hs.
  pose proof (machine_ok_mono n (index id + 1) m' ltac:(lia) Ho') as Hs'.
  pose proof (fun a m m' Hr Ho Ho' Hl => agree_ret (A := CacheResponse) (index id + 1) N a m m' Hr Ho Ho' Hl) as Hret.
  destruct req as [k key|k key v x|k key|k key v x|k key|k|k| |p|key [t|]|key t|key t|key t|k key|k key v|k key v|k key];
    cbn [valid_request] in Hv; unfold apply_request; try done;
    try (apply send_cache_ok; [done..|]; intros r m1 m1' ? ? ? ? Hval Hcnt; try by apply Hret).
  - destruct (Hval key [] None) as [w ->]; [by left|]. by apply Hret.
  - destruct (Hval key v x) as [w ->]; [by right|]. by apply Hret.
  - assert (length (caches m') = N) as Hl' by (rewrite <- Hl; symmetry; eapply Forall2_length; apply Hr).
    assert (agree (index id + 1) N (clear_all clk (index id) 0 N ;; mret ROk) m m') as Hg.
    { apply agree_bind; [by apply clear_all_same|]. intros. by apply Hret. }
    unfold agree, mbind, st_bind, st_get in *. by rewrite Hl, Hl'.
  - apply notify_same; [done..|]. intros. by apply Hret.
  - apply (lock_call_same n); [done..|lia| | | |intros; by apply Hret].
    + exists key, t. auto.
    + done.
    + intros a id' ->. lia.
  - apply (lock_call_same n); [done..|lia| | | |intros; by apply Hret].
    + exists key, (index id). auto.
    + intros a s Htk lock El. split; [intros Hq|intros Hq]; (assert (index id < n); [|lia]); apply (Htk key); exists lock; auto.
    + intros a id' ->. lia.
  - apply (lock_call_same n); [done..|lia| | | |intros; by apply Hret].
    + exists key, t. auto.
    + done.
    + done.
  - apply release_same_sm; [done..|]. intros. by apply Hret.
  - destruct (Hcnt key v eq_refl) as [w ->]. by apply Hret.
Qed.

Lemma apply_entry_same n N e m m' :
  replica_eq m m' -> machine_ok n m -> machine_ok n m' -> length (caches m) = N ->
  n <= index (log_id e) -> valid_entry N e -> agree (index (log_id e) + 1) N (apply_entry clk closed e) m m'.
Proof.
  intros Hr Ho Ho' Hl Hn Hv. unfold apply_entry, valid_entry in *.
  destruct (payload e) as [|req|mem].
  - apply agree_ret; [done| | |done]; (eapply machine_ok_mono; [|done]; lia).
  - by apply (apply_request_same n).
  - destruct Hr as [Rd Rc Rl], Ho as [Hc Hd Ht Ha], Ho' as [Hc' Hd' Ht' Ha'].
    eexists _, _, _. split; [reflexivity|]. split; [reflexivity|]. split; [|split; [|split; [|done]]].
    + split; [cbn; by rewrite Rd|done|done].
    + split; try done. intros key id Hk. specialize (Ht key id Hk). lia.
    + split; try done. intros key id Hk. specialize (Ht' key id Hk). lia.
Qed.

(** The bound on the tickets after a batch. *)
Definition next_index (n : Z) (es : list Ent) : Z := match last es with Some e => index (log_id e) + 1 | None => n end.

Lemma apply_loop_same N es : forall n m m',
  replica_eq m m' -> machine_ok n m -> machine_ok n m' -> length (caches m) = N -> valid_entries N n es ->
  exists rs m1 m1', apply_loop clk closed es m = (Ok rs, m1) /\ apply_loop clk closed es m' = (Ok rs, m1') /\
    replica_eq m1 m1' /\ machine_ok (next_index n es) m1 /\ machine_ok (next_index n es) m1' /\
    length (caches m1) = N /\ length rs = length es.
Proof.
  induction es as [|e es IH]; intros n m m' Hr Ho Ho' Hl Hv; cbn [apply_loop].
  - exists [], m, m'. done.
  - destruct Hv as (Hn & He & Hv).
    destruct (apply_entry_same n N e m m' Hr Ho Ho' Hl Hn He) as (r & m1 & m1' & E & E' & Hr1 & Ho1 & Ho1' & Hl1).
    destruct (IH _ m1 m1' Hr1 Ho1 Ho1' Hl1 Hv) as (rs & m2 & m2' & F & F' & Hr2 & Ho2 & Ho2' & Hl2 & Hlen).
    exists (r :: rs), m2, m2'. unfold mbind, st_bind. rewrite E, E', F, F'. split; [done|]. split; [done|].
    assert (next_index n (e :: es) = next_index (index (log_id e) + 1) es) as ->.
    { unfold next_index. destruct es as [|e' es']; [done|]. rewrite last_cons_cons.
      destruct (last (e' :: es')) eqn:El; [done|]. by apply last_None in El. }
    split_and!; try done. cbn. by rewrite Hlen.
Qed.

(** Replicas that agree, and apply the same valid entries, give the same answers
    and agree afterwards; one answer per entry, and the log id of the last one is
    the applied state. *)
Lemma apply_same N n es m m' :
  es <> [] -> replica_eq m m' -> machine_ok n m -> machine_ok n m' -> length (caches m) = N -> valid_entries N n es ->
  exists rs m1 m1', apply clk closed es m = (Ok rs, m1) /\ apply clk closed es m' = (Ok rs, m1') /\
    replica_eq m1 m1' /\ machine_ok (next_index n es) m1 /\ machine_ok (next_index n es) m1' /\
    length (caches m1) = N /\ length rs = length es /\ (applied_state m1).1 = log_id <$> last es.
Proof.
  intros Hne Hr Ho Ho' Hl Hv.
  destruct (apply_loop_same N es n m m' Hr Ho Ho' Hl Hv) as (rs & m1 & m1' & E & E' & [Rd Rc Rl] & [Hc Hd Ht Ha] & [Hc' Hd' Ht' Ha'] & Hl1 & Hlen).
  unfold apply, mbind, st_bind. rewrite E, E'. eexists _, _, _. split; [reflexivity|]. split; [reflexivity|].
  split_and!; try done. split; [cbn; by rewrite Rd|done|done].
Qed.

(** Applying in two batches is applying in one. *)
Lemma apply_loop_app es1 es2 (m : SM) :
  apply_loop clk closed (es1 ++ es2) m =
    (r1 ← apply_loop clk closed es1; r2 ← apply_loop clk closed es2; mret (r1 ++ r2)) m.
Proof.
  revert m. induction es1 as [|e es1 IH]; intros m; cbn [app apply_loop].
  - unfold mbind, st_bind. cbn. by destruct (apply_loop clk closed es2 m) as [[] ?].
  - unfold mbind, st_bind in *. destruct (apply_entry clk closed e m) as [[] m1]; try done. rewrite IH.
    destruct (apply_loop clk closed es1 m1) as [[] m2]; try done. cbn. by destruct (apply_loop clk closed es2 m2) as [[] m3].
Qed.

(** ** Snapshots *)
Section Snapshots.
Context `{SnapCodec M, !SnapCodecOk}.

Definition snap_of (c : Kv.Cache) : Kv.CacheSnapshot := (Kv.values c, Kv.counters c).

Lemma send_cache_run t k req (m : SM) c c' :
  caches m !! k = Some c -> Kv.expire_due t.1 c = Some c' ->
  send_cache t k req m =
    (Ok (Kv.handle t.2 req c').2, set_caches (<[k := (Kv.handle t.2 req c').1]> (caches m)) m).
Proof.
  intros Ec E. unfold send_cache, Kv.serve. rewrite Ec, E. cbn [mbind option_bind]. by destruct (Kv.handle t.2 req c').
Qed.

Lemma build_caches_ok tb k : forall idx (m : SM),
  Forall Kv.cache_ok (caches m) -> (idx + k = length (caches m))%nat ->
  exists cl, build_caches tb idx k m = (Ok (snap_of <$> cl), set_caches (take idx (caches m) ++ cl) m) /\
    length cl = k /\ Forall Kv.cache_ok cl.
Proof.
  induction k as [|k IH]; intros idx m Hok Hlen; cbn [build_caches].
  - exists []. split; [|done]. rewrite take_ge, app_nil_r by lia. by destruct m.
  - destruct (lookup_lt_is_Some_2 (caches m) idx) as [c Ec]; [lia|].
    assert (Kv.cache_ok c) as Hc. { rewrite Forall_forall in Hok. apply Hok. by eapply list_elem_of_lookup_2. }
    destruct (Kv.expire_due_ok (tb idx).1 c Hc) as (c' & E & Hc' & _ & _).
    set (m1 := set_caches (<[idx := c']> (caches m)) m).
    destruct (IH (S idx) m1) as (cl & F & Hl & Hcl); [by apply Forall_insert|cbn; rewrite length_insert; lia|].
    exists (c' :: cl). unfold mbind, st_bind. rewrite (send_cache_run _ _ _ _ _ _ Ec E).
    cbn [Kv.handle fst snd expect_snapshot mret st_ret]. fold m1. rewrite F. split; [|by split; [cbn; lia|constructor]].
    f_equal. unfold m1, set_caches. cbn. f_equal.
    rewrite (take_S_r _ _ c') by (apply list_lookup_insert_eq; lia).
    rewrite take_insert_ge by lia. by rewrite <- app_assoc.
Qed.

Lemma install_caches_ok ti kvs : forall idx (m : SM),
  Forall Kv.cache_ok (caches m) -> (idx + length kvs <= length (caches m))%nat ->
  exists cl, install_caches ti idx kvs m = (Ok tt, set_caches (take idx (caches m) ++ cl ++ drop (idx + length kvs) (caches m)) m) /\
    snap_of <$> cl = kvs /\ Forall Kv.cache_ok cl.
Proof.
  induction kvs as [|[kv cnt] kvs IH]; intros idx m Hok Hlen; cbn [install_caches].
  - exists []. split; [|done]. cbn. rewrite Nat.add_0_r, take_drop. by destruct m.
  - cbn in Hlen. destruct (lookup_lt_is_Some_2 (caches m) idx) as [c Ec]; [lia|].
    assert (Kv.cache_ok c) as Hc. { rewrite Forall_forall in Hok. apply Hok. by eapply list_elem_of_lookup_2. }
    destruct (Kv.expire_due_ok (ti idx).1 c Hc) as (c' & E & Hc' & _ & _).
    set (d := Kv.mkCache kv cnt (Kv.rebuild_index kv)).
    assert (Kv.cache_ok d) as Hd by apply Kv.rebuild_ok.
    set (m1 := set_caches (<[idx := d]> (caches m)) m).
    destruct (IH (S idx) m1) as (cl & F & Hs & Hcl); [by apply Forall_insert|cbn; rewrite length_insert; lia|].
    exists (d :: cl). unfold mbind, st_bind. rewrite (send_cache_run _ _ _ _ _ _ Ec E).
    cbn [Kv.handle fst snd]. fold d. fold m1. rewrite F. split; [|split; [by rewrite <- Hs|by constructor]].
    f_equal. unfold m1, set_caches. cbn. f_equal.
    rewrite (take_S_r _ _ d) by (apply list_lookup_insert_eq; lia).
    rewrite take_insert_ge by lia. rewrite <- app_assoc. cbn. f_equal. f_equal. f_equal.
    rewrite <- Nat.add_succ_comm. by rewrite drop_insert_lt by lia.
Qed.

Lemma snap_of_equiv l l' : snap_of <$> l = snap_of <$> l' -> Forall2 (≡) l l'.
Proof.
  revert l'. induction l as [|c l IH]; intros [|c' l'] E; try done. injection E as Ev Ec E. constructor; [by split|by apply IH].
Qed.

(** A snapshot carries the whole replicated state: installing it on any machine
    with as many caches makes that machine agree with the one it was taken from. *)
Lemma snapshot_installs n tb ti now (m m' : SM) :
  machine_ok n m -> Forall Kv.cache_ok (caches m') -> length (caches m') = length (caches m) ->
  exists meta bytes m1 m2, build_snapshot_data show_leader tb now m = (Ok (meta, bytes), m1) /\
    apply_snapshot_bytes ti bytes m' = (Ok tt, m2) /\ replica_eq m1 m2 /\ machine_ok n m1 /\ machine_ok n m2 /\
    data m1 = data m /\ dlock m1 = dlock m /\ length (caches m1) = length (caches m) /\
    meta = mkSnapMeta (last_applied_log_id (data m)) (last_membership (data m)) (make_snapshot_id show_leader now (last_applied_log_id (data m))).
Proof.
  intros [Hc Hd Ht Ha] Hc' Hlen.
  destruct (build_caches_ok tb (length (caches m)) 0 m) as (cl & E & Hl & Hcl); [done|lia|].
  set (m1 := set_caches cl m).
  destruct (locks_total (DLock.locks (dlock m))) as [lb Elb].
  set (meta := mkSnapMeta (last_applied_log_id (data m)) (last_membership (data m)) (make_snapshot_id show_leader now (last_applied_log_id (data m)))).
  destruct (snap_total (meta, snap_of <$> cl, lb)) as [bytes Eb].
  destruct (install_caches_ok ti (snap_of <$> cl) 0 m') as (cl' & F & Hs & Hcl'); [done|rewrite length_fmap; lia|].
  assert (drop (0 + length (snap_of <$> cl)) (caches m') = []) as Hdr by (apply drop_ge; rewrite length_fmap; lia).
  rewrite Hdr, app_nil_r in F. cbn [take app] in F.
  exists meta, bytes, m1, (set_data (data m) (set_dlock (DLock.mkState (DLock.locks (dlock m)) ∅) (next_ack m')
    (answers m' ++ (DLock.handle_request 0 0 (DLock.SnapshotInstall (DLock.locks (dlock m))) (dlock m')).2) (set_caches cl' m'))).
  split.
  { unfold build_snapshot_data, mbind, st_bind, st_get. rewrite E. cbn [take app]. fold m1. cbn -[make_snapshot_id].
    unfold DLock.snapshot_build. rewrite Elb. cbn -[make_snapshot_id]. fold meta. by rewrite Eb. }
  split.
  { unfold apply_snapshot_bytes. rewrite (snap_round _ _ Eb). unfold update_state_machine, mbind, st_bind. rewrite F.
    cbn. rewrite (locks_round _ _ Elb). cbn. by destruct (data m). }
  split; [split; [done|by apply snap_of_equiv|done]|].
  split; [by split|]. split; [|done]. split; cbn.
  - done.
  - split; [|apply Hd]. intros key l id ack Hk. cbn in Hk. by rewrite lookup_empty in Hk.
  - intros key id (lock & Hk & Hx). apply (Ht key). by exists lock.
  - unfold DLock.pending. rewrite map_to_list_empty. constructor.
Qed.

(** C4: Recovery: a replica that installs the snapshot and applies the rest of the
    log gives the same answers and ends in the same state as the one the snapshot
    was taken from, when both read the same times while they apply an entry. *)
Lemma snapshot_then_apply n N tb ti now es (m m' : SM) :
  machine_ok n m -> Forall Kv.cache_ok (caches m') -> length (caches m') = N -> length (caches m) = N ->
  es <> [] -> valid_entries N n es ->
  exists meta bytes m1 m2 rs m3 m4,
    build_snapshot_data show_leader tb now m = (Ok (meta, bytes), m1) /\ apply_snapshot_bytes ti bytes m' = (Ok tt, m2) /\
    apply clk closed es m1 = (Ok rs, m3) /\ apply clk closed es m2 = (Ok rs, m4) /\ replica_eq m3 m4.
Proof.
  intros Ho Hc Hl' Hl Hne Hv.
  destruct (snapshot_installs n tb ti now m m' Ho Hc ltac:(lia)) as (meta & bytes & m1 & m2 & E & F & Hr & Ho1 & Ho2 & _ & _ & Hl1 & _).
  destruct (apply_same N n es m1 m2 Hne Hr Ho1 Ho2 ltac:(lia) Hv) as (rs & m3 & m4 & A1 & A2 & Hr3 & _).
  exists meta, bytes, m1, m2, rs, m3, m4. done.
Qed.

(** ** The newest snapshot *)

(** The time stamp and the log index of the name of a finished snapshot. *)
Definition snap_key (name : string) : option (Z * Z) :=
  if ends_with name "~" || ends_with name ".temp" then None
  else
    ts ← split_once "-"%char name ≫= (fun p => parse_i64 p.1);
    id ← rsplit_once "-"%char name ≫= (fun p => parse_i64 p.2);
    Some (ts, id).

Definition newer (a b : Z * Z) : Prop := b.1 < a.1 \/ (b.1 = a.1 /\ b.2 <= a.2).

(** The names the loop does not skip are well-formed. *)
Definition names_ok (names : list string) : Prop :=
  forall x, x ∈ names -> consider None x = None \/ is_Some (snap_key x).

Lemma consider_skip best x : consider None x = None -> consider best x = best.
Proof.
  unfold consider. destruct (_ || _); [done|]. destruct (split_once _ x) as [[ts r]|]; [|done]. by destruct (parse_i64 ts).
Qed.

Lemma consider_key best x ts id :
  snap_key x = Some (ts, id) ->
  consider best x = match best with
    | None => Some (ts, x)
    | Some (latest, last_name) =>
        if latest <? ts then Some (ts, x)
        else if ts =? latest then
          match rsplit_once "-"%char last_name ≫= (fun p => parse_i64 p.2) with
          | Some id' => if id' <? id then Some (ts, x) else best
          | None => best
          end
        else best
    end.
Proof.
  unfold snap_key, consider. destruct (_ || _); [done|]. destruct (split_once _ x) as [[t r]|]; [|done]. cbn.
  destruct (parse_i64 t) as [t'|]; [|done]. cbn. destruct (rsplit_once _ x ≫= _) as [i|]; [|done]. cbn.
  intros [= -> ->]. by destruct best as [[latest last_name]|].
Qed.

Lemma snap_key_log name ts id : snap_key name = Some (ts, id) ->
  rsplit_once "-"%char name ≫= (fun p => parse_i64 p.2) = Some id.
Proof.
  unfold snap_key. destruct (_ || _); [done|]. destruct (split_once _ name ≫= _) as [t|]; [|done]. cbn.
  destruct (rsplit_once _ name ≫= _) as [i|]; [|done]. cbn. by intros [= _ ->].
Qed.

(** The chosen file is the newest: by time stamp, then by log index. *)
Lemma latest_snapshot_max names :
  names_ok names ->
  match latest_snapshot names with
  | None => forall x, x ∈ names -> snap_key x = None
  | Some (ts, name) => name ∈ names /\ exists id, snap_key name = Some (ts, id) /\
      forall x k, x ∈ names -> snap_key x = Some k -> newer (ts, id) k
  end.
Proof.
  intros Hok. unfold latest_snapshot. induction names as [|y names IH] using rev_ind; [intros x Hx; by apply elem_of_nil in Hx|].
  assert (names_ok names) as Hok' by (intros x Hx; apply Hok, elem_of_app; by left).
  specialize (IH Hok'). rewrite foldl_app. cbn [foldl]. destruct (Hok y) as [Hy|[[ts id] Hy]]; [apply elem_of_app; right; by left| |].
  - rewrite consider_skip by done.
    assert (snap_key y = None) as Hky.
    { unfold consider in Hy. unfold snap_key. destruct (_ || _); [done|]. destruct (split_once _ y) as [[t r]|]; [|done]. cbn.
      by destruct (parse_i64 t). }
    destruct (foldl consider None names) as [[ts name]|].
    + destruct IH as (Hin & id & Hk & Hmax). split; [apply elem_of_app; by left|]. exists id. split; [done|].
      intros x k [Hx| ->%list_elem_of_singleton]%elem_of_app; [by apply Hmax|congruence].
    + intros x [Hx| ->%list_elem_of_singleton]%elem_of_app; [by apply IH|done].
  - rewrite (consider_key _ y ts id Hy). unfold newer in *.
    assert (y ∈ names ++ [y]) as Hyin by (apply elem_of_app; right; by left).
    destruct (foldl consider None names) as [[tl name]|].
    + destruct IH as (Hin & idl & Hk & Hmax). assert (name ∈ names ++ [y]) as Hnin by (apply elem_of_app; by left).
      rewrite (snap_key_log name tl idl Hk).
      destruct (Z.ltb_spec tl ts); [|destruct (Z.eqb_spec ts tl); [destruct (Z.ltb_spec idl id)|]]; (split; [done|]);
        eexists; (split; [done|]); intros x k [Hx| ->%list_elem_of_singleton]%elem_of_app Hkx;
        try (specialize (Hmax x k Hx Hkx); cbn in *; lia); rewrite Hy in Hkx; injection Hkx as <-; cbn; lia.
    + split; [done|]. exists id. split; [done|]. intros x k [Hx| ->%list_elem_of_singleton]%elem_of_app Hkx.
      * rewrite (IH x Hx) in Hkx. done.
      * rewrite Hy in Hkx. injection Hkx as <-. cbn. lia.
Qed.

(** The name of a snapshot is read back as its time stamp and its log index. *)
Lemma snap_key_made now id :
  0 <= now <= i64_max -> 0 <= index id <= i64_max ->
  snap_key (make_snapshot_id show_leader now (Some id)) = Some (now, index id).
Proof.
  intros Hn Hi. unfold make_snapshot_id. rewrite pretty_to_string by lia.
  set (L := show_leader id). set (T := to_string now). set (I := to_string (index id)).
  assert (split_once "-" (T +:+ "-" +:+ L +:+ "-" +:+ I) = Some (T, L +:+ "-" +:+ I)) as E1.
  { apply (split_once_app "-"%char). apply all_digits_no_char; [apply all_digits_to_string|done]. }
  assert (rsplit_once "-" (T +:+ "-" +:+ L +:+ "-" +:+ I) = Some (T +:+ "-" +:+ L, I)) as E2.
  { change (T +:+ "-" +:+ L +:+ "-" +:+ I) with (T +:+ ("-" +:+ (L +:+ String "-" I))).
    rewrite <- !string_app_assoc. apply (rsplit_once_app "-"%char).
    apply all_digits_no_char; [apply all_digits_to_string|done]. }
  unfold snap_key. rewrite (ends_with_digits "-" _ "~" _ _ E2), (ends_with_digits "-" _ ".temp" _ _ E2)
    by (done || apply all_digits_to_string).
  cbn [orb]. rewrite E1, E2. cbn. unfold T, I. rewrite !parse_i64_to_string by done. done.
Qed.

(** A persisted snapshot is the one a restart reads, when nothing newer is there. *)
Lemma persist_then_read meta bytes content now id (m : SM) :
  deserialize_snap bytes = Some content ->
  snapshot_id meta = make_snapshot_id show_leader now (Some id) -> 0 <= now <= i64_max -> 0 <= index id <= i64_max ->
  (forall x b, snapshots m !! x = Some b -> x <> snapshot_id meta +:+ "~" -> consider None x = None \/
    exists k, snap_key x = Some k /\ ~ newer k (now, index id)) ->
  exists m', persist_snapshot meta bytes m = (Ok (snapshot_id meta), m') /\
    forall names, (forall x, x ∈ names <-> is_Some (snapshots m' !! x)) ->
    read_current_snapshot names m' = Ok (Some (snapshot_id meta, content)).
Proof.
  intros Hdec Hid Hnow Hidx Hold. set (nm := snapshot_id meta) in *.
  pose proof (snap_key_made now id Hnow Hidx) as Hkey. rewrite <- Hid in Hkey.
  eexists. split; [reflexivity|]. intros names Hnames. unfold read_current_snapshot. fold nm. cbn [snapshots set_snapshots] in *.
  set (D := <[nm := bytes]> (delete (nm +:+ "~") (<[nm +:+ "~" := bytes]> (snapshots m)))) in *.
  assert (forall x, x ∈ names -> x = nm \/ consider None x = None \/ exists k, snap_key x = Some k /\ ~ newer k (now, index id)) as Hcase.
  { intros x [b Hx]%Hnames. unfold D in Hx. apply lookup_insert_Some in Hx as [[<- _]|[_ Hx]]; [by left|].
    apply lookup_delete_Some in Hx as [Hne Hx]. rewrite lookup_insert_ne in Hx by done. right. by eapply Hold. }
  assert (nm ∈ names) as Hin by (apply Hnames; unfold D; rewrite lookup_insert_eq; eauto).
  assert (names_ok names) as Hok.
  { intros x Hx. destruct (Hcase x Hx) as [->|[?|(k & Hk & _)]]; [right; eauto|by left|right; eauto]. }
  pose proof (latest_snapshot_max names Hok) as Hmax. destruct (latest_snapshot names) as [[ts name]|].
  - destruct Hmax as (Hnin & idx & Hk & Hmax). specialize (Hmax nm _ Hin Hkey).
    destruct (Hcase name Hnin) as [->|[Hs|(k & Hk' & Hnn)]].
    + unfold D. rewrite lookup_insert_eq, Hdec. done.
    + exfalso. unfold consider in Hs. unfold snap_key in Hk. destruct (_ || _); [done|].
      destruct (split_once _ name) as [[t r]|]; [|done]. cbn in Hk. by destruct (parse_i64 t).
    + exfalso. rewrite Hk in Hk'. injection Hk' as <-. done.
  - exfalso. specialize (Hmax nm Hin). congruence.
Qed.

End Snapshots.

(** ** Start *)

Lemma check_indices_spec vs : forall seen,
  check_indices vs seen = true <-> NoDup (vs.*1) /\ forall i, i ∈ vs.*1 -> seen !! i = Some false.
Proof.
  induction vs as [|[i name] vs IH]; intros seen; cbn [check_indices].
  - split; [|done]. intros _. split; [constructor|]. intros i Hi. by apply elem_of_nil in Hi.
  - cbn. rewrite NoDup_cons. destruct (seen !! i) as [[]|] eqn:E.
    + split; [done|]. intros [_ Hall]. rewrite Hall in E by (by left). done.
    + rewrite IH. split.
      * intros [Hnd Hall]. assert (i ∉ vs.*1) as Hi.
        { intros Hi. specialize (Hall i Hi). rewrite list_lookup_insert_eq in Hall; [done|by eapply lookup_lt_Some]. }
        split; [done|]. intros j [->|Hj]%elem_of_cons; [done|]. specialize (Hall j Hj).
        rewrite list_lookup_insert_ne in Hall; [done|]. by intros ->.
      * intros [[Hi Hnd] Hall]. split; [done|]. intros j Hj. rewrite list_lookup_insert_ne by (by intros ->).
        apply Hall. by right.
    + split; [done|]. intros [_ Hall]. rewrite Hall in E by (by left). done.
Qed.

(** The start accepts exactly the enums whose indices are [0..len]. *)
Lemma check_indices_ok vs :
  check_indices vs (replicate (length vs) false) = true <-> vs.*1 ≡ₚ seq 0 (length vs).
Proof.
  rewrite check_indices_spec. split.
  - intros [Hnd Hall]. apply submseteq_length_Permutation.
    + apply NoDup_submseteq; [done|]. intros i Hi. specialize (Hall i Hi).
      apply lookup_replicate in Hall as [_ Hlt]. apply elem_of_seq. lia.
    + rewrite length_fmap, length_seq. lia.
  - intros Hp. split; [rewrite Hp; apply NoDup_seq|]. intros i Hi. rewrite Hp, elem_of_seq in Hi.
    apply lookup_replicate_2. lia.
Qed.

Definition plain (name : string) : Prop := has_char LF name = false /\ has_char CR name = false.

Lemma digits_plain n : plain (to_string n).
Proof. split; (apply all_digits_no_char; [apply all_digits_to_string|done]). Qed.

Lemma normalized_lines vs :
  Forall (fun v => plain v.2) vs ->
  lines (normalized vs) = (fun v => to_string (Z.of_nat v.1) +:+ " " +:+ v.2) <$> vs.
Proof.
  induction 1 as [|[i name] vs [Hl Hc] _ IH]; [done|]. cbn [fmap list_fmap]. rewrite <- IH.
  destruct (digits_plain (Z.of_nat i)) as [Dl Dc]. cbn [fst snd] in *.
  change (normalized ((i, name) :: vs)) with (to_string (Z.of_nat i) +:+ (" " +:+ (name +:+ String LF (normalized vs)))).
  rewrite <- !string_app_assoc. apply lines_cons; rewrite !has_char_app, ?Dl, ?Dc, ?Hl, ?Hc; done.
Qed.

Lemma line_compatible_made vs i name :
  Z.of_nat i <= u64_max ->
  line_compatible vs (to_string (Z.of_nat i) +:+ " " +:+ name) = true <-> vs.*2 !! i = Some name.
Proof.
  intros Hi. unfold line_compatible.
  change (" " +:+ name) with (String " " name). rewrite split_once_app by (apply all_digits_no_char; [apply all_digits_to_string|done]).
  rewrite parse_u64_to_string by lia. rewrite Nat2Z.id, list_lookup_fmap.
  destruct (vs !! i) as [[j nm]|]; cbn; [|done]. rewrite String.eqb_eq. split; [by intros ->|by intros [= ->]].
Qed.

(** The file a start wrote is accepted by a later one exactly when the enum was
    only extended at the end. *)
Lemma compatible_iff vs0 vs :
  vs0.*1 = seq 0 (length vs0) -> Forall (fun v => plain v.2) vs0 -> Z.of_nat (length vs0) <= u64_max ->
  cache_compatible_with vs (normalized vs0) = true <-> vs0.*2 `prefix_of` vs.*2.
Proof.
  intros Hidx Hpl Hlen. unfold cache_compatible_with. rewrite normalized_lines by done.
  assert (forall k v, vs0 !! k = Some v -> v.1 = k) as Hk.
  { intros k v Hv. assert (vs0.*1 !! k = Some v.1) as E by (by rewrite list_lookup_fmap, Hv).
    rewrite Hidx in E. apply lookup_seq in E. lia. }
  split.
  - intros Hall. rewrite forallb_forall in Hall.
    assert (vs0.*2 = take (length vs0) (vs.*2)) as ->; [|apply prefix_take].
    apply list_eq. intros k. destruct (vs0 !! k) as [[i name]|] eqn:E.
    + pose proof (lookup_lt_Some _ _ _ E). rewrite list_lookup_fmap, E. cbn. rewrite lookup_take_lt by done. symmetry.
      pose proof (Hk _ _ E) as Ei. cbn in Ei. subst i. apply line_compatible_made; [lia|]. apply Hall.
      apply list_elem_of_In. apply list_elem_of_fmap. exists (k, name). split; [done|]. by eapply list_elem_of_lookup_2.
    + rewrite list_lookup_fmap, E. cbn. symmetry. apply lookup_take_ge. by apply lookup_ge_None.
  - intros Hp. apply forallb_forall. intros line Hin%list_elem_of_In. apply list_elem_of_fmap in Hin as ([i name] & -> & Hin).
    apply list_elem_of_lookup in Hin as [k E]. pose proof (Hk _ _ E) as Ei. cbn in Ei. subst i. pose proof (lookup_lt_Some _ _ _ E).
    cbn [fst snd]. apply line_compatible_made; [lia|]. eapply prefix_lookup_Some; [|exact Hp]. by rewrite list_lookup_fmap, E.
Qed.

End CacheSMSpec.

(** ** Clocks that differ

    Requests that involve no expiry and no lock are applied alike by replicas
    whose clocks show anything. *)
Section Clockless.
Context {M : Type} (closed : nat -> bool).
#[local] Abbreviation SM := (@StateMachineMemory M).

Definition clock_free (e : @Entry M) : Prop :=
  match payload e with
  | Normal (Put _ _ _ x) | Normal (Replace _ _ _ x) => x = None
  | Normal (Lock _ _) | Normal (LockAlive _ _) | Normal (LockRelease _ _) => False
  | _ => True
  end.

(** Two computations that agree on machines whose caches do not expire. *)
Definition clockless {A} (f g : St SMError SM A) : Prop :=
  forall m, Forall Kv.lasting (caches m) -> f m = g m /\ Forall Kv.lasting (caches (f m).2).

Lemma clockless_still {A} (f : St SMError SM A) : (forall m, caches (f m).2 = caches m) -> clockless f f.
Proof. intros Hf m Hm. by rewrite Hf. Qed.

Lemma clockless_bind {A B} (f g : St SMError SM A) (k k' : A -> St SMError SM B) :
  clockless f g -> (forall a, clockless (k a) (k' a)) -> clockless (f ≫= k) (g ≫= k').
Proof.
  intros Hf Hk m Hm. destruct (Hf m Hm) as [E Hl]. unfold mbind, st_bind. rewrite <- E.
  destruct (f m) as [[a|e| |] m1]; cbn in Hl; [by apply Hk|done..].
Qed.

Lemma clockless_send t t' k req : Kv.untimed req -> clockless (send_cache t k req) (send_cache t' k req).
Proof.
  intros Hu m Hm. unfold send_cache. destruct (caches m !! k) as [c|] eqn:E; [|done].
  assert (Kv.lasting c) as Hc by (rewrite Forall_forall in Hm; apply Hm; by eapply list_elem_of_lookup_2).
  destruct (Kv.serve_lasting t.1 t.2 t'.1 t'.2 req c Hc Hu) as [<- Hd].
  destruct (Kv.serve t.1 t.2 req c) as [[d r]|]; [|done]. split; [done|]. cbn. apply Forall_insert; [done|]. by eapply Hd.
Qed.

Lemma clockless_ret {A} (a : A) : clockless (mret a) (mret a).
Proof. by apply clockless_still. Qed.
Lemma clockless_panic {A} : clockless (@st_panic SMError SM A) st_panic.
Proof. by apply clockless_still. Qed.
Lemma clockless_notify p : clockless (send_notify closed p) (send_notify closed p).
Proof.
  apply clockless_still. intros m. unfold send_notify. by destruct (Notify.handle _ _ _ _) as [[]|].
Qed.
#[local] Hint Resolve clockless_ret clockless_panic clockless_notify : hql.

Lemma clockless_clear clk clk' i k : forall idx, clockless (clear_all clk i idx k) (clear_all clk' i idx k).
Proof.
  induction k as [|k IH]; intros idx; cbn [clear_all]; [auto with hql|].
  apply clockless_bind; [by apply clockless_send|intros _]. apply clockless_bind; [by apply clockless_send|auto].
Qed.

Lemma clockless_apply_entry clk clk' e : clock_free e -> clockless (apply_entry clk closed e) (apply_entry clk' closed e).
Proof.
  unfold clock_free, apply_entry. destruct (payload e) as [|req|mem]; intros He; [auto with hql| |].
  - destruct req; try done; unfold apply_request; auto with hql;
      try (apply clockless_bind; [by first [apply clockless_send|apply clockless_notify]|intros r; auto with hql]).
    1,2: by destruct r as [[]|]; auto with hql; apply clockless_still.
    + intros m Hm. apply (clockless_bind (clear_all clk _ _ _) (clear_all clk' _ _ _)); [apply clockless_clear|auto with hql|done].
    + by destruct r as [[| | |[]|]|]; auto with hql; apply clockless_still.
  - apply clockless_bind; [by apply clockless_still|auto with hql].
Qed.

Lemma clockless_apply clk clk' es : Forall clock_free es -> clockless (apply clk closed es) (apply clk' closed es).
Proof.
  intros Hes. assert (clockless (apply_loop clk closed es) (apply_loop clk' closed es)) as Hl.
  { induction Hes as [|e es He Hes IH]; cbn [apply_loop]; [auto with hql|].
    apply clockless_bind; [by apply clockless_apply_entry|intros r]. apply clockless_bind; [done|auto with hql]. }
  unfold apply. apply clockless_bind; [done|intros rs]. apply clockless_bind; [by apply clockless_still|auto with hql].
Qed.

Lemma lasting_same c c' : Kv.cache_ok c' -> c ≡ c' -> Kv.lasting c -> Kv.lasting c'.
Proof. intros Hc [Ev _] [_ Hv]. split; [done|]. by rewrite <- Ev. Qed.

(** Replicas with clocks of their own agree on a batch without expiry and locks. *)
Lemma apply_any_clock clk clk' N n es (m m' : SM) :
  es <> [] -> replica_eq m m' -> machine_ok n m -> machine_ok n m' -> length (caches m) = N -> valid_entries N n es ->
  Forall Kv.lasting (caches m) -> Forall clock_free es ->
  exists rs m1 m1', apply clk closed es m = (Ok rs, m1) /\ apply clk' closed es m' = (Ok rs, m1') /\
    replica_eq m1 m1' /\ Forall Kv.lasting (caches m1) /\ length rs = length es.
Proof.
  intros Hne Hr Ho Ho' Hl Hv Hlast Hf.
  assert (Forall Kv.lasting (caches m')) as Hlast'.
  { pose proof (re_caches _ _ Hr) as Rc. pose proof (mo_caches _ _ Ho') as Hc. clear -Rc Hc Hlast. revert Hc Hlast.
    induction Rc as [|c c' l l' Hcc Rc IH]; intros Hc Hlast; [done|]. apply Forall_cons in Hc as [? ?], Hlast as [? ?].
    apply Forall_cons. split; [by eapply lasting_same|auto]. }
  pose (still := mkClock (fun _ _ => (0, 0)) (fun _ => (0, 0))).
  destruct (clockless_apply clk still es Hf m Hlast) as [E Hl1]. destruct (clockless_apply clk' still es Hf m' Hlast') as [E' _].
  rewrite E in Hl1. rewrite E, E'.
  destruct (apply_same still closed ltac:(done) N n es m m' Hne Hr Ho Ho' Hl Hv) as (rs & m1 & m1' & F & F' & Hr1 & _ & _ & _ & Hlen & _).
  exists rs, m1, m1'. rewrite F in Hl1. done.
Qed.

End Clockless.
