(* ===== verification/ExtBase.v ===== *)
(** The external state machine of [hiqlite/src/external_state_machine.rs]: its
    data, and the SQLite database it keeps them in.

    The database has the two tables of the engine with the columns of the
    [CREATE TABLE] statements, and the tables of the application, which only the
    operations touch and which are one opaque value.  A BLOB is a list of bytes
    and compares as [memcmp] does.  Columns hold values of their declared type. *)
From stdpp Require Import base gmap strings list numbers sorting.
From Stdlib Require Import Strings.Byte.
From S2P Require Import Prelude.

#[local] Open Scope Z_scope.

Definition EXTERNAL_FORMAT_VERSION : Z := 1.
Definition EXTERNAL_SQLITE_SNAPSHOT_FORMAT : string := "sqlite3-online-backup/page-image-v1".
Definition ADVANCE_RECEIPT_CODEC : string := "hiqlite/advance-v1".
Definition MAX_READ_POOL_SIZE : Z := 128.
Definition MAX_RECEIPT_RETENTION : Z := 1000000.
Definition MAX_RECEIPT_BYTES : Z := 16 * 1024 * 1024.
Definition MAX_PREPARED_STATEMENTS : Z := 1000000.

(** The contents of the [dirty] file. *)
Inductive Marker : Type := DIRTY_FULL | DIRTY_NORMAL | DIRTY_OFF | DIRTY_POISONED | DIRTY_OTHER.
#[export] Instance Marker_eqdec : EqDecision Marker.
Proof. solve_decision. Defined.

(** [ExternalError], without the messages. *)
Inductive ExternalError : Type :=
| Locked
| RebuildRequired
| RebuildNotRequired
| AdoptionNotAllowed
| InvalidOptions
| MissingMetadata
| InvalidMetadata
| UnsupportedFormat (version : Z)
| ConfigurationMismatch (fields : list string)
| SequenceGap (expected received : Z)
| SequenceBeforeInitial (initial received : Z)
| SequenceOverflow
| CommitConflict (sequence : Z)
| ReceiptUnavailable (sequence : Z)
| ReceiptTooLarge (actual maximum : Z)
| Serialization
| Sqlite
| Io
| Setup
| Pool
| WriterClosed
| WriterStopped
| WriterPoisoned
| SnapshotMismatch (fields : list string)
| SnapshotDestinationExists
| StaleSnapshot.

(** ** Commits *)

(** [CommitSequence::checked_next] *)
Definition checked_next (s : Z) : Res ExternalError Z :=
  if s =? u64_max then Err SequenceOverflow else Ok (s + 1).

Record ExternalCommit (C : Type) : Type := mkCommit {
  sequence : Z;
  coordinate : C;
  command_digest : list byte;
  state_schema : Z;
  receipt_schema : Z;
}.
Arguments mkCommit {C}. Arguments sequence {C}. Arguments coordinate {C}.
Arguments command_digest {C}. Arguments state_schema {C}. Arguments receipt_schema {C}.
#[export] Instance ExternalCommit_eqdec C `{EqDecision C} : EqDecision (ExternalCommit C).
Proof. solve_decision. Defined.

Inductive ExternalEntryKind : Type := Operation | Advance.
#[export] Instance ExternalEntryKind_eqdec : EqDecision ExternalEntryKind.
Proof. solve_decision. Defined.

Definition as_i64 (k : ExternalEntryKind) : Z := match k with Operation => 1 | Advance => 2 end.
Definition from_i64 (v : Z) : Res ExternalError ExternalEntryKind :=
  if v =? 1 then Ok Operation else if v =? 2 then Ok Advance else Err InvalidMetadata.

Record ExternalApplied (C : Type) : Type := mkApplied {
  commit : ExternalCommit C;
  kind : ExternalEntryKind;
  receipt_digest : list byte;
}.
Arguments mkApplied {C}. Arguments commit {C}. Arguments kind {C}. Arguments receipt_digest {C}.
#[export] Instance ExternalApplied_eqdec C `{EqDecision C} : EqDecision (ExternalApplied C).
Proof. solve_decision. Defined.

Inductive ApplyOutcome (T : Type) : Type := Applied (t : T) | Recovered (t : T).
Arguments Applied {T}. Arguments Recovered {T}.

(** [ExternalApplyError] *)
Inductive ExternalApplyError (E : Type) : Type := OperationError (e : E) | Engine (e : ExternalError).
Arguments OperationError {E}. Arguments Engine {E}.

(** ** Options *)
Inductive ExternalDurability : Type := Full | Normal | ReplayableOff.
#[export] Instance ExternalDurability_eqdec : EqDecision ExternalDurability.
Proof. solve_decision. Defined.

Definition pragma_value (d : ExternalDurability) : string :=
  match d with Full => "FULL" | Normal => "NORMAL" | ReplayableOff => "OFF" end.
Definition expected_pragma_value (d : ExternalDurability) : Z :=
  match d with Full => 2 | Normal => 1 | ReplayableOff => 0 end.
Definition dirty_marker (d : ExternalDurability) : Marker :=
  match d with Full => DIRTY_FULL | Normal => DIRTY_NORMAL | ReplayableOff => DIRTY_OFF end.

(** [filename_ok] is the check that the name is one path component; the UTF-8
    check of [data_dir] is in the type of the directory. *)
Record ExternalSqliteOptions : Type := mkOptions {
  filename_ok : bool;
  o_application_id : string;
  o_initial_sequence : Z;
  o_initial_state_schema : Z;
  prepared_statement_cache_capacity : Z;
  read_pool_size : Z;
  o_receipt_retention : Z;
  o_max_receipt_bytes : Z;
  durability : ExternalDurability;
}.

(** [ExternalSqliteOptions::new] *)
Definition default_options (application_id : string) : ExternalSqliteOptions :=
  mkOptions true application_id 1 1 128 4 1024 (64 * 1024) Full.

Definition in_range (lo hi z : Z) : bool := (lo <=? z) && (z <=? hi).

Definition validate (o : ExternalSqliteOptions) : Res ExternalError unit :=
  if String.eqb (o_application_id o) "" || (256 <? Z.of_nat (String.length (o_application_id o))) then Err InvalidOptions else
  if negb (filename_ok o) then Err InvalidOptions else
  if negb (in_range 1 MAX_READ_POOL_SIZE (read_pool_size o)) then Err InvalidOptions else
  if negb (in_range 1 MAX_RECEIPT_RETENTION (o_receipt_retention o)) then Err InvalidOptions else
  if negb (in_range 1 MAX_RECEIPT_BYTES (o_max_receipt_bytes o)) then Err InvalidOptions else
  if MAX_PREPARED_STATEMENTS <? prepared_statement_cache_capacity o then Err InvalidOptions else Ok tt.

(** ** What the engine keeps *)
Record StoredState (C : Type) : Type := mkStored {
  application_id : string;
  initial_sequence : Z;
  initial_state_schema : Z;
  receipt_codec : string;
  receipt_retention : Z;
  max_receipt_bytes : Z;
  last_applied : option (ExternalApplied C);
  receipt_floor : option Z;
  snapshot_id : option string;
}.
Arguments mkStored {C}. Arguments application_id {C}. Arguments initial_sequence {C}.
Arguments initial_state_schema {C}. Arguments receipt_codec {C}. Arguments receipt_retention {C}.
Arguments max_receipt_bytes {C}. Arguments last_applied {C}. Arguments receipt_floor {C}. Arguments snapshot_id {C}.
#[export] Instance StoredState_eqdec C `{EqDecision C} : EqDecision (StoredState C).
Proof. solve_decision. Defined.

Definition set_frontier {C} (l : option (ExternalApplied C)) (f : option Z) (s : StoredState C) : StoredState C :=
  mkStored (application_id s) (initial_sequence s) (initial_state_schema s) (receipt_codec s)
    (receipt_retention s) (max_receipt_bytes s) l f (snapshot_id s).
Definition set_snapshot_id {C} (id : option string) (s : StoredState C) : StoredState C :=
  mkStored (application_id s) (initial_sequence s) (initial_state_schema s) (receipt_codec s)
    (receipt_retention s) (max_receipt_bytes s) (last_applied s) (receipt_floor s) id.

Record StoredReceipt (C : Type) : Type := mkReceipt {
  r_commit : ExternalCommit C;
  r_kind : ExternalEntryKind;
  r_codec : string;
  r_receipt : list byte;
  r_digest : list byte;
}.
Arguments mkReceipt {C}. Arguments r_commit {C}. Arguments r_kind {C}. Arguments r_codec {C}.
Arguments r_receipt {C}. Arguments r_digest {C}.

(** ** Tables *)

(** The row of [_hiqlite_external_state]. *)
Record MetaRow : Type := mkMetaRow {
  c_format_version : Z;
  c_application_id : string;
  c_initial_sequence : list byte;
  c_initial_state_schema : list byte;
  c_receipt_codec : string;
  c_receipt_retention : list byte;
  c_max_receipt_bytes : list byte;
  c_last_sequence : option (list byte);
  c_last_coordinate : option (list byte);
  c_last_command_digest : option (list byte);
  c_last_kind : option Z;
  c_last_state_schema : option (list byte);
  c_last_receipt_schema : option (list byte);
  c_last_receipt_digest : option (list byte);
  c_receipt_floor : option (list byte);
  c_snapshot_id : option string;
}.

(** A row of [_hiqlite_external_receipts] without its key. *)
Record ReceiptRow : Type := mkReceiptRow {
  k_coordinate : list byte;
  k_command_digest : list byte;
  k_kind : Z;
  k_state_schema : list byte;
  k_receipt_schema : list byte;
  k_codec : string;
  k_receipt : list byte;
  k_receipt_digest : list byte;
}.

(** A database: a table that does not exist is [None]; the metadata table has at
    most the row with [singleton = 1]. *)
Record Db (A : Type) : Type := mkDb {
  meta_table : option (option MetaRow);
  receipts_table : option (gmap (list byte) ReceiptRow);
  app : A;
}.
Arguments mkDb {A}. Arguments meta_table {A}. Arguments receipts_table {A}. Arguments app {A}.

Definition set_meta_table {A : Type} (t : option (option MetaRow)) (d : Db A) : Db A := mkDb t (receipts_table d) (app d).
Definition set_receipts {A : Type} (t : option (gmap (list byte) ReceiptRow)) (d : Db A) : Db A := mkDb (meta_table d) t (app d).
Definition set_app {A : Type} (a : A) (d : Db A) : Db A := mkDb (meta_table d) (receipts_table d) a.

(** BLOB comparison. *)
Fixpoint blob_ltb (a b : list byte) : bool :=
  match a, b with
  | _, [] => false
  | [], _ :: _ => true
  | x :: a, y :: b =>
      (byte_to_Z x <? byte_to_Z y) || ((byte_to_Z x =? byte_to_Z y) && blob_ltb a b)
  end.
Definition blob_le (a b : list byte) : Prop := blob_ltb b a = false.
#[export] Instance blob_le_dec : RelDecision blob_le.
Proof. intros a b. unfold blob_le. apply _. Defined.

(** ** Encodings *)
Definition encode_u64 (z : Z) : list byte := be_encode 8 z.
Definition decode_u64 (l : list byte) : Res ExternalError Z :=
  if zlen l =? 8 then Ok (be_decode l) else Err InvalidMetadata.
Definition decode_digest (l : list byte) : Res ExternalError (list byte) :=
  if zlen l =? 32 then Ok l else Err InvalidMetadata.

(** SHA-256 and bincode: parameters.  Decoding returns the value and the number
    of bytes it read. *)
Class ExtPrims (C : Type) : Type := {
  sha256 : list byte -> list byte;
  unit_bytes : list byte;
  ser_coord : C -> option (list byte);
  de_coord : list byte -> option (C * Z);
}.
(** A digest has 32 bytes, the unit value is encoded as nothing, and what was
    encoded is read back whole. *)
Class ExtPrimsOk (C : Type) `{ExtPrims C} : Prop := {
  sha256_length : forall l, zlen (sha256 l) = 32;
  unit_bytes_empty : unit_bytes = [];
  coord_round : forall c b, ser_coord c = Some b -> de_coord b = Some (c, zlen b);
}.

(** [deserialize_exact] on coordinates. *)
Definition deserialize_exact {C} `{ExtPrims C} (l : list byte) : Res ExternalError C :=
  match de_coord l with
  | None => Err Serialization
  | Some (c, consumed) => if consumed =? zlen l then Ok c else Err InvalidMetadata
  end.

(** The operations of the application: [DeterministicSqliteOperation].  An
    operation reads and writes the tables of the application. *)
Class SqlOperation (A O Out OpE : Type) : Type := {
  RECEIPT_CODEC : string;
  op_apply : O -> A -> (Out + OpE) * A;
  encode_receipt : Out -> option (list byte);
  decode_receipt : list byte -> option Out;
}.
Class SqlOperationOk (A O Out OpE : Type) `{SqlOperation A O Out OpE} : Prop := {
  receipt_round : forall o b, encode_receipt o = Some b -> decode_receipt b = Some o;
}.

(** ** Lemmas *)
Lemma zlen_encode_u64 z : zlen (encode_u64 z) = 8.
Proof. apply zlen_be. Qed.

Lemma decode_encode_u64 z : is_u64 z -> decode_u64 (encode_u64 z) = Ok z.
Proof. intros Hz. unfold decode_u64. rewrite zlen_encode_u64, Z.eqb_refl. unfold encode_u64. by rewrite be8_decode. Qed.

Lemma byte_of_shift b z : byte_of_Z (byte_to_Z b + 256 * z) = b.
Proof.
  pose proof (byte_to_Z_bound b). unfold byte_of_Z.
  replace ((byte_to_Z b + 256 * z) mod 256) with (byte_to_Z b mod 256) by (rewrite Z.mul_comm, Z.mod_add; lia).
  apply byte_of_to_Z.
Qed.
Lemma le_encode_decode l : le_encode (length l) (le_decode l) = l.
Proof.
  induction l as [|b l IH]; [done|]. cbn [length le_decode le_encode]. pose proof (byte_to_Z_bound b).
  change (byte_of_Z (byte_to_Z b + 256 * le_decode l) :: le_encode (length l) ((byte_to_Z b + 256 * le_decode l) / 256) = b :: l).
  rewrite byte_of_shift. f_equal. replace ((byte_to_Z b + 256 * le_decode l) / 256) with (le_decode l); [done|].
  rewrite Z.mul_comm, Z.div_add by lia. rewrite Z.div_small by lia. lia.
Qed.
Lemma be_encode_decode l : be_encode (length l) (be_decode l) = l.
Proof. unfold be_encode, be_decode. rewrite <- (length_reverse l), le_encode_decode. apply reverse_involutive. Qed.

Lemma encode_u64_inj a b : is_u64 a -> is_u64 b -> encode_u64 a = encode_u64 b -> a = b.
Proof. intros Ha Hb E. apply (f_equal decode_u64) in E. rewrite !decode_encode_u64 in E by done. by injection E. Qed.

Lemma be_decode_cons x l : be_decode (x :: l) = byte_to_Z x * 256 ^ zlen l + be_decode l.
Proof.
  unfold be_decode, zlen. rewrite reverse_cons. rewrite <- (length_reverse l). generalize (reverse l) as k. clear l.
  induction k as [|y k IH]; [cbn; lia|].
  rewrite <- app_comm_cons. cbn [le_decode length]. rewrite IH, Nat2Z.inj_succ, Z.pow_succ_r by lia. lia.
Qed.

(** Keys of one length compare like the numbers they encode. *)
Lemma blob_ltb_decode a : forall b, length a = length b -> blob_ltb a b = (be_decode a <? be_decode b).
Proof.
  induction a as [|x a IH]; intros [|y b] Hl; try done. cbn [blob_ltb]. injection Hl as Hl.
  rewrite !be_decode_cons, (IH b Hl). unfold zlen. rewrite Hl.
  pose proof (be_decode_bound a) as Ba. pose proof (be_decode_bound b) as Bb. rewrite Hl in Ba.
  set (p := 256 ^ Z.of_nat (length b)) in *.
  destruct (Z.ltb_spec (byte_to_Z x) (byte_to_Z y)); cbn [orb].
  - symmetry. apply Z.ltb_lt. nia.
  - destruct (Z.eqb_spec (byte_to_Z x) (byte_to_Z y)) as [->|]; cbn [andb].
    + destruct (Z.ltb_spec (be_decode a) (be_decode b)); symmetry; [apply Z.ltb_lt|apply Z.ltb_ge]; lia.
    + symmetry. apply Z.ltb_ge. nia.
Qed.

Lemma blob_ltb_encode a b : is_u64 a -> is_u64 b -> blob_ltb (encode_u64 a) (encode_u64 b) = (a <? b).
Proof.
  intros Ha Hb. rewrite blob_ltb_decode by (unfold encode_u64; by rewrite !length_be_encode).
  unfold encode_u64. by rewrite !be8_decode.
Qed.

Lemma byte_to_Z_inj x y : byte_to_Z x = byte_to_Z y -> x = y.
Proof. intros E. by rewrite <- (byte_of_to_Z x), E, byte_of_to_Z. Qed.

#[export] Instance blob_le_antisym : AntiSymm (=) blob_le.
Proof.
  intros a. unfold blob_le. induction a as [|x a IH]; intros [|y b]; cbn; try done.
  intros [H1 H2]%orb_false_iff [H3 H4]%orb_false_iff. apply Z.ltb_ge in H1, H3.
  assert (byte_to_Z x = byte_to_Z y) as E by lia. rewrite E, Z.eqb_refl in H2, H4. cbn in H2, H4.
  f_equal; [by apply byte_to_Z_inj|by apply IH].
Qed.

#[export] Instance blob_le_trans : Transitive blob_le.
Proof.
  intros a. unfold blob_le. induction a as [|x a IH]; intros [|y b] [|z c]; cbn; try done.
  intros [H1 H2]%orb_false_iff [H3 H4]%orb_false_iff. apply Z.ltb_ge in H1, H3. apply orb_false_iff.
  split; [apply Z.ltb_ge; lia|]. destruct (Z.eqb_spec (byte_to_Z z) (byte_to_Z x)); [cbn|done].
  rewrite (proj2 (Z.eqb_eq _ _)) in H2 by lia. rewrite (proj2 (Z.eqb_eq _ _)) in H4 by lia. by apply (IH b).
Qed.

#[export] Instance blob_le_total : Total blob_le.
Proof.
  intros a. unfold blob_le. induction a as [|x a IH]; intros [|y b]; cbn; auto.
  destruct (Z.lt_trichotomy (byte_to_Z x) (byte_to_Z y)) as [Hlt|[E|Hgt]].
  - left. rewrite (proj2 (Z.ltb_ge _ _)), (proj2 (Z.eqb_neq _ _)) by lia. done.
  - rewrite E, Z.ltb_irrefl, Z.eqb_refl. cbn. apply IH.
  - right. rewrite (proj2 (Z.ltb_ge _ _)), (proj2 (Z.eqb_neq _ _)) by lia. done.
Qed.
