(* ===== verification/ExtStore.v ===== *)
(** The external state machine: loading, validating and changing the stored
    state, and applying committed entries
    ([hiqlite/src/external_state_machine.rs]).

    A connection is the committed database and, inside a transaction, the
    database as the transaction sees it.  Every call into SQLite that the code
    checks may fail: [Faults] says which ones do. *)
From stdpp Require Import base gmap strings list numbers sorting.
From Stdlib Require Import Strings.Byte.
From S2P Require Import Prelude Text ExtBase.

#[local] Open Scope Z_scope.

(** A COMMIT that reports an error left the transaction open, was rolled back, or
    took effect nevertheless. *)
Inductive CommitFault : Type := StillOpen | RolledBack | TookEffect.

(** A write of the [dirty] file that fails left it alone, truncated it, or wrote it
    without reaching the device for certain. *)
Inductive MarkerFault : Type := NotOpened | Torn | NotSynced.

(** The calls of one request that fail. *)
Record Faults : Type := mkFaults {
  f_begin : bool;
  f_auth : bool;
  f_unauth : bool;
  f_persist : bool;
  f_commit : option CommitFault;
  f_drop : bool;
  f_rollback : bool;
  f_reload : bool;
  f_snapshot_id : bool;
  f_backup : bool;
  f_publish : bool;
  f_marker : option MarkerFault;
  f_remark : option MarkerFault;
  f_busy : bool;
}.
Definition no_faults : Faults := mkFaults false false false false None false false false false false false None None false.

(** ** The statement authorizer *)
Inductive AuthAction : Type :=
| CreateIndex (index_name table_name : string)
| DropIndex (index_name table_name : string)
| CreateTrigger (trigger_name table_name : string)
| DropTrigger (trigger_name table_name : string)
| CreateTable (table_name : string)
| DropTable (table_name : string)
| CreateVtable (table_name : string)
| DropVtable (table_name : string)
| AlterTable (table_name : string)
| Analyze (table_name : string)
| Insert (table_name : string)
| Delete (table_name : string)
| Update (table_name : string)
| Read (table_name : string)
| Reindex (index_name : string)
| TempObject
| Pragma
| Attach
| Detach
| Transaction
| Savepoint
| OtherAction.
Inductive Authorization : Type := Allow | Deny.

Definition protected (name : string) : bool :=
  match strip_prefix "_hiqlite_external_" name with Some _ => true | None => false end.

Definition external_operation_authorizer (a : AuthAction) : Authorization :=
  match a with
  | CreateIndex n t | DropIndex n t | CreateTrigger n t | DropTrigger n t =>
      if protected n || protected t then Deny else Allow
  | CreateTable t | DropTable t | CreateVtable t | DropVtable t | AlterTable t | Analyze t =>
      if protected t then Deny else Allow
  | Insert t | Delete t | Update t => if protected t then Deny else Allow
  | Read t => if protected t then Deny else Allow
  | Reindex n => if protected n then Deny else Allow
  | TempObject | Pragma | Attach | Detach | Transaction | Savepoint => Deny
  | OtherAction => Allow
  end.

Section ExtStore.
Context {C A O Out OpE : Type} `{EqDecision C} `{ExtPrims C} `{SqlOperation A O Out OpE}.
#[local] Abbreviation Stored := (StoredState C).

(** ** Reading *)
Definition metadata_table_exists (d : Db A) : bool := bool_decide (is_Some (meta_table d)).
Definition require_metadata_table (d : Db A) : Res ExternalError unit :=
  if metadata_table_exists d then Ok tt else Err MissingMetadata.

(** The last-applied columns, when they are all present. *)
Definition decode_last (row : MetaRow) : Res ExternalError (ExternalApplied C * Z) :=
  b ← unwrap (c_last_sequence row); sequence ← decode_u64 b;
  b ← unwrap (c_last_coordinate row); coordinate ← deserialize_exact b;
  b ← unwrap (c_last_command_digest row); command_digest ← decode_digest b;
  k ← unwrap (c_last_kind row); kind ← from_i64 k;
  b ← unwrap (c_last_state_schema row); state_schema ← decode_u64 b;
  b ← unwrap (c_last_receipt_schema row); receipt_schema ← decode_u64 b;
  b ← unwrap (c_last_receipt_digest row); receipt_digest ← decode_digest b;
  b ← unwrap (c_receipt_floor row); floor ← decode_u64 b;
  Ok (mkApplied (mkCommit sequence coordinate command_digest state_schema receipt_schema) kind receipt_digest, floor).

Definition last_values_present (row : MetaRow) : list bool :=
  [bool_decide (is_Some (c_last_sequence row)); bool_decide (is_Some (c_last_coordinate row));
   bool_decide (is_Some (c_last_command_digest row)); bool_decide (is_Some (c_last_kind row));
   bool_decide (is_Some (c_last_state_schema row)); bool_decide (is_Some (c_last_receipt_schema row));
   bool_decide (is_Some (c_last_receipt_digest row)); bool_decide (is_Some (c_receipt_floor row))].

Definition load_state (d : Db A) : Res ExternalError Stored :=
  require_metadata_table d;;
  row ← match meta_table d with Some (Some row) => Ok row | _ => Err Sqlite end;
  if negb (in_range 0 65535 (c_format_version row)) then Err InvalidMetadata else
  if negb (c_format_version row =? EXTERNAL_FORMAT_VERSION) then Err (UnsupportedFormat (c_format_version row)) else
  initial_sequence ← decode_u64 (c_initial_sequence row);
  initial_state_schema ← decode_u64 (c_initial_state_schema row);
  receipt_retention ← decode_u64 (c_receipt_retention row);
  max_receipt_bytes ← decode_u64 (c_max_receipt_bytes row);
  if negb (in_range 1 MAX_RECEIPT_RETENTION receipt_retention) then Err InvalidMetadata else
  if negb (in_range 1 MAX_RECEIPT_BYTES max_receipt_bytes) then Err InvalidMetadata else
  let present := last_values_present row in
  if existsb id present && existsb negb present then Err InvalidMetadata else
  '(last, floor) ←
    (if default false (head present) then '(l, f) ← decode_last row; Ok (Some l, Some f) else Ok (None, None));
  Ok (mkStored (c_application_id row) initial_sequence initial_state_schema (c_receipt_codec row)
        receipt_retention max_receipt_bytes last floor (c_snapshot_id row)).

(** Decoding one row of the receipts table. *)
Definition decode_receipt_row (sequence : Z) (row : ReceiptRow) : Res ExternalError (StoredReceipt C) :=
  coordinate ← deserialize_exact (k_coordinate row);
  receipt_digest ← decode_digest (k_receipt_digest row);
  if negb (bool_decide (sha256 (k_receipt row) = receipt_digest)) then Err InvalidMetadata else
  command_digest ← decode_digest (k_command_digest row);
  state_schema ← decode_u64 (k_state_schema row);
  receipt_schema ← decode_u64 (k_receipt_schema row);
  kind ← from_i64 (k_kind row);
  Ok (mkReceipt (mkCommit sequence coordinate command_digest state_schema receipt_schema) kind (k_codec row)
        (k_receipt row) receipt_digest).

Definition load_receipt (d : Db A) (sequence max_receipt_bytes : Z) : Res ExternalError (option (StoredReceipt C)) :=
  match receipts_table d with
  | None => Err Sqlite
  | Some rows =>
      match rows !! encode_u64 sequence with
      | None => Ok None
      | Some row =>
          if max_receipt_bytes <? zlen (k_receipt row) then Err InvalidMetadata else
          r ← decode_receipt_row sequence row; Ok (Some r)
      end
  end.

Definition validate_configuration (s : Stored) (o : ExternalSqliteOptions) (codec : string) : Res ExternalError unit :=
  let check (same : bool) (field : string) := if same then [] else [field] in
  let mismatches :=
    check (String.eqb (application_id s) (o_application_id o)) "application_id" ++
    check (initial_sequence s =? o_initial_sequence o) "initial_sequence" ++
    check (initial_state_schema s =? o_initial_state_schema o) "initial_state_schema" ++
    check (String.eqb (receipt_codec s) codec) "receipt_codec" ++
    check (receipt_retention s =? o_receipt_retention o) "receipt_retention" ++
    check (max_receipt_bytes s =? o_max_receipt_bytes o) "max_receipt_bytes" in
  match mismatches with [] => Ok tt | _ => Err (ConfigurationMismatch mismatches) end.

(** The oldest receipt that is kept once [sequence] is applied. *)
Definition floor_of (s : Stored) (sequence : Z) : Z :=
  Z.max (sat_sub sequence (sat_sub (receipt_retention s) 1)) (initial_sequence s).

(** One receipt of the retained suffix. *)
Definition validate_receipt (d : Db A) (s : Stored) (expected : Z) (key : list byte) : Res ExternalError unit :=
  actual ← decode_u64 key;
  if negb (actual =? expected) then Err InvalidMetadata else
  o ← load_receipt d actual (max_receipt_bytes s);
  receipt ← match o with Some r => Ok r | None => Err InvalidMetadata end;
  let expected_codec := match r_kind receipt with Operation => receipt_codec s | Advance => ADVANCE_RECEIPT_CODEC end in
  if negb (String.eqb (r_codec receipt) expected_codec) then Err InvalidMetadata else
  if max_receipt_bytes s <? zlen (r_receipt receipt) then Err InvalidMetadata else
  match r_kind receipt with
  | Operation => match decode_receipt (r_receipt receipt) with Some _ => Ok tt | None => Err InvalidMetadata end
  | Advance => if bool_decide (r_receipt receipt = unit_bytes) then Ok tt else Err InvalidMetadata
  end.

Fixpoint validate_suffix (d : Db A) (s : Stored) (expected : Z) (keys : list (list byte)) : Res ExternalError unit :=
  match keys with
  | [] => Ok tt
  | key :: keys => validate_receipt d s expected key;; validate_suffix d s (expected + 1) keys
  end.

(** [SELECT sequence FROM receipts ORDER BY sequence] *)
Definition sequences (rows : gmap (list byte) ReceiptRow) : list (list byte) := merge_sort blob_le (map_to_list rows).*1.

Definition validate_receipts (d : Db A) (s : Stored) : Res ExternalError unit :=
  match last_applied s, receipt_floor s with
  | None, None =>
      rows ← match receipts_table d with Some rows => Ok rows | None => Err Sqlite end;
      if bool_decide (rows = ∅) then Ok tt else Err InvalidMetadata
  | Some last, Some floor =>
      if sequence (commit last) <? floor then Err InvalidMetadata else
      let expected_count := wrap64 (sequence (commit last) - floor + 1) in
      if receipt_retention s <? expected_count then Err InvalidMetadata else
      if negb (floor =? floor_of s (sequence (commit last))) then Err InvalidMetadata else
      rows ← match receipts_table d with Some rows => Ok rows | None => Err Sqlite end;
      let keys := sequences rows in
      if negb (zlen keys =? expected_count) then Err InvalidMetadata else
      validate_suffix d s floor keys;;
      o ← load_receipt d (sequence (commit last)) (max_receipt_bytes s);
      newest ← match o with Some r => Ok r | None => Err InvalidMetadata end;
      if negb (bool_decide (r_commit newest = commit last)) || negb (bool_decide (r_kind newest = kind last))
         || negb (bool_decide (r_digest newest = receipt_digest last))
      then Err InvalidMetadata else Ok tt
  | _, _ => Err InvalidMetadata
  end.

(** ** Writing *)

(** The engine's tables of a new or adopted database, statement by statement. *)
Definition create_metadata_tables (o : ExternalSqliteOptions) (codec : string) : St ExternalError (Db A) unit :=
  d ← st_get;
  (match meta_table d with Some _ => st_err Sqlite | None => st_put (set_meta_table (Some None) d) end);;
  d ← st_get;
  (match receipts_table d with Some _ => st_err Sqlite | None => st_put (set_receipts (Some ∅) d) end);;
  d ← st_get;
  st_put (set_meta_table (Some (Some (mkMetaRow EXTERNAL_FORMAT_VERSION (o_application_id o)
    (encode_u64 (o_initial_sequence o)) (encode_u64 (o_initial_state_schema o)) codec
    (encode_u64 (o_receipt_retention o)) (encode_u64 (o_max_receipt_bytes o))
    None None None None None None None None None))) d).

(** The [UPDATE] of the frontier. *)
Definition set_last (c : ExternalCommit C) (coord : list byte) (k : ExternalEntryKind) (digest : list byte) (floor : Z) (row : MetaRow) : MetaRow :=
  mkMetaRow (c_format_version row) (c_application_id row) (c_initial_sequence row) (c_initial_state_schema row)
    (c_receipt_codec row) (c_receipt_retention row) (c_max_receipt_bytes row)
    (Some (encode_u64 (sequence c))) (Some coord) (Some (command_digest c)) (Some (as_i64 k))
    (Some (encode_u64 (state_schema c))) (Some (encode_u64 (receipt_schema c))) (Some digest)
    (Some (encode_u64 floor)) (c_snapshot_id row).

(** The three statements of one commit; a failing one leaves its transaction to
    be rolled back. *)
Definition persist_new_commit (d : Db A) (s : Stored) (c : ExternalCommit C) (k : ExternalEntryKind) (codec : string)
    (receipt digest : list byte) : Res ExternalError (Db A) :=
  coord ← match ser_coord (coordinate c) with Some b => Ok b | None => Err Serialization end;
  let floor := floor_of s (sequence c) in
  rows ← match receipts_table d with Some rows => Ok rows | None => Err Sqlite end;
  let key := encode_u64 (sequence c) in
  (match rows !! key with Some _ => Err Sqlite | None => Ok tt end);;
  let rows := <[key := mkReceiptRow coord (command_digest c) (as_i64 k) (encode_u64 (state_schema c))
                  (encode_u64 (receipt_schema c)) codec receipt digest]> rows in
  meta ← match meta_table d with Some m => Ok m | None => Err Sqlite end;
  let meta := set_last c coord k digest floor <$> meta in
  let rows := filter (fun kv => blob_ltb kv.1 (encode_u64 floor) = false) rows in
  Ok (mkDb (Some meta) (Some rows) (app d)).

(** [UPDATE .. SET snapshot_id] *)
Definition set_row_snapshot (id : string) (row : MetaRow) : MetaRow :=
  mkMetaRow (c_format_version row) (c_application_id row) (c_initial_sequence row) (c_initial_state_schema row)
    (c_receipt_codec row) (c_receipt_retention row) (c_max_receipt_bytes row) (c_last_sequence row)
    (c_last_coordinate row) (c_last_command_digest row) (c_last_kind row) (c_last_state_schema row)
    (c_last_receipt_schema row) (c_last_receipt_digest row) (c_receipt_floor row) (Some id).
Definition persist_snapshot_id (d : Db A) (id : string) : Res ExternalError (Db A) :=
  match meta_table d with
  | None => Err Sqlite
  | Some m => Ok (set_meta_table (Some (set_row_snapshot id <$> m)) d)
  end.

Definition update_state_after_commit (s : Stored) (c : ExternalCommit C) (k : ExternalEntryKind) (digest : list byte) : Stored :=
  set_frontier (Some (mkApplied c k digest)) (Some (floor_of s (sequence c))) s.

(** ** Classifying a commit *)
Inductive CommitClass : Type := New | Retry (r : StoredReceipt C).

Definition classify_commit (d : Db A) (s : Stored) (c : ExternalCommit C) (k : ExternalEntryKind) (codec : string)
    : Res ExternalError CommitClass :=
  match last_applied s with
  | None =>
      if sequence c =? initial_sequence s then Ok New
      else if initial_sequence s <? sequence c then Err (SequenceGap (initial_sequence s) (sequence c))
      else Err (SequenceBeforeInitial (initial_sequence s) (sequence c))
  | Some current =>
      if sequence c <=? sequence (commit current) then
        o ← load_receipt d (sequence c) (max_receipt_bytes s);
        receipt ← match o with Some r => Ok r | None => Err (ReceiptUnavailable (sequence c)) end;
        if negb (bool_decide (r_commit receipt = c)) || negb (bool_decide (r_kind receipt = k))
           || negb (String.eqb (r_codec receipt) codec)
        then Err (CommitConflict (sequence c))
        else Ok (Retry receipt)
      else
        expected ← checked_next (sequence (commit current));
        if sequence c =? expected then Ok New else Err (SequenceGap expected (sequence c))
  end.

(** ** Transactions *)
Record Conn : Type := mkConn { committed : Db A; tx : option (Db A) }.
Definition view (c : Conn) : Db A := default (committed c) (tx c).
Definition is_autocommit (c : Conn) : bool := bool_decide (tx c = None).

(** State of the writer's thunks: the connection and the cached state. *)
Abbreviation XSt E := (St E (Conn * Stored)).
Definition x_conn {E} (f : Conn -> Conn) : XSt E unit := fun s => (Ok tt, (f s.1, s.2)).
Definition x_state {E} (f : Stored -> Stored) : XSt E unit := fun s => (Ok tt, (s.1, f s.2)).
Definition x_fail {E A} (b : bool) (e : E) (a : A) : XSt E A := if b then st_err e else mret a.

Section Faulty.
Context (fl : Faults).

Definition begin {E} (sqlite : E) : XSt E unit := fun s =>
  if f_begin fl || negb (is_autocommit s.1) then (Err sqlite, s)
  else (Ok tt, (mkConn (committed s.1) (Some (committed s.1)), s.2)).

Definition commit_tx {E} (sqlite : E) : XSt E unit := fun s =>
  match f_commit fl with
  | None => (Ok tt, (mkConn (view s.1) None, s.2))
  | Some StillOpen => (Err sqlite, s)
  | Some RolledBack => (Err sqlite, (mkConn (committed s.1) None, s.2))
  | Some TookEffect => (Err sqlite, (mkConn (view s.1) None, s.2))
  end.

(** [Drop for Transaction]: rolls back what is still open and ignores errors. *)
Definition drop_tx (c : Conn) : Conn := if f_drop fl then c else mkConn (committed c) None.
Definition scoped {E T} (m : XSt E T) : XSt E T := fun s =>
  let '(r, s) := m s in (r, (drop_tx s.1, s.2)).

Definition lift_engine {T} (r : Res ExternalError T) : Res (ExternalApplyError OpE) T :=
  match r with Ok a => Ok a | Err e => Err (Engine e) | Panic => Panic | OutOfFuel => OutOfFuel end.

Definition persist {E} (lift : ExternalError -> E) (c : ExternalCommit C) (k : ExternalEntryKind) (codec : string)
    (receipt digest : list byte) : XSt E unit := fun s =>
  if f_persist fl then (Err (lift Sqlite), s) else
  match persist_new_commit (view s.1) s.2 c k codec receipt digest with
  | Ok d => (Ok tt, (mkConn (committed s.1) (Some d), s.2))
  | Err e => (Err (lift e), s)
  | Panic => (Panic, s)
  | OutOfFuel => (OutOfFuel, s)
  end.

(** The end of both kinds of entries: store the receipt and the frontier, commit,
    and update the cached state. *)
Definition store_and_commit {E T} (lift : ExternalError -> E) (c : ExternalCommit C) (k : ExternalEntryKind)
    (codec : string) (receipt : list byte) (out : T) : XSt E T :=
  let digest := sha256 receipt in
  persist lift c k codec receipt digest;;
  commit_tx (lift Sqlite);;
  x_state (fun st => update_state_after_commit st c k digest);;
  mret out.

(** The part of [apply_operation] that runs inside the transaction. *)
Definition apply_new (c : ExternalCommit C) (op : O) : XSt (ExternalApplyError OpE) (ApplyOutcome Out) :=
  x_fail (f_auth fl) (Engine Sqlite) tt;;
  s ← st_get;
  let '(r, a) := op_apply op (app (view s.1)) in
  x_conn (fun cn => mkConn (committed cn) (Some (set_app a (view cn))));;
  x_fail (f_unauth fl) (Engine Sqlite) tt;;
  output ← match r with inl o => mret o | inr e => st_err (OperationError e) end;
  receipt ← match encode_receipt output with Some b => mret b | None => st_err (Engine Serialization) end;
  (if max_receipt_bytes s.2 <? zlen receipt
   then st_err (Engine (ReceiptTooLarge (zlen receipt) (max_receipt_bytes s.2))) else mret tt);;
  store_and_commit Engine c Operation RECEIPT_CODEC receipt (Applied output).

Definition apply_operation (c : ExternalCommit C) (op : O) : XSt (ExternalApplyError OpE) (ApplyOutcome Out) :=
  s ← st_get;
  class ← st_lift (lift_engine (classify_commit (view s.1) s.2 c Operation RECEIPT_CODEC));
  match class with
  | Retry receipt =>
      match decode_receipt (r_receipt receipt) with
      | Some output => mret (Recovered output)
      | None => st_err (Engine Serialization)
      end
  | New => begin (Engine Sqlite);; scoped (apply_new c op)
  end.

Definition apply_advance (c : ExternalCommit C) : XSt ExternalError (ApplyOutcome unit) :=
  s ← st_get;
  class ← st_lift (classify_commit (view s.1) s.2 c Advance ADVANCE_RECEIPT_CODEC);
  match class with
  | Retry _ => mret (Recovered tt)
  | New =>
      begin Sqlite;;
      scoped (store_and_commit id c Advance ADVANCE_RECEIPT_CODEC unit_bytes (Applied tt))
  end.

Definition reconcile_after_apply (apply_failed : bool) : XSt ExternalError unit :=
  s ← st_get;
  (if negb (is_autocommit s.1)
   then if f_rollback fl then st_err Sqlite else x_conn (fun cn => mkConn (committed cn) None)
   else mret tt);;
  s ← st_get;
  (if negb (is_autocommit s.1) then st_err InvalidMetadata else mret tt);;
  if apply_failed then
    s ← st_get;
    x_fail (f_reload fl) Sqlite tt;;
    stored ← st_lift (load_state (view s.1));
    st_lift (validate_receipts (view s.1) stored);;
    x_state (fun _ => stored)
  else mret tt.

(** The thunks of [apply_committed] and [advance_committed]: the reply, and
    whether the writer is poisoned. *)
Definition run_thunk {E T} (engine : ExternalError -> E) (m : XSt E T) (s : Conn * Stored)
    : Res E T * bool * (Conn * Stored) :=
  let '(result, s) := m s in
  let failed := match result with Err _ => true | _ => false end in
  match result with
  | Panic | OutOfFuel => (result, true, s)
  | _ =>
      match reconcile_after_apply failed s with
      | (Ok _, s) => (result, false, s)
      | (Err _, s) => (Err (engine WriterPoisoned), true, s)
      | (_, s) => (Panic, true, s)
      end
  end.

Definition apply_committed (c : ExternalCommit C) (op : O) (s : Conn * Stored)
    : Res (ExternalApplyError OpE) (ApplyOutcome Out) * bool * (Conn * Stored) :=
  run_thunk Engine (apply_operation c op) s.

Definition advance_committed (c : ExternalCommit C) (s : Conn * Stored)
    : Res ExternalError (ApplyOutcome unit) * bool * (Conn * Stored) :=
  run_thunk id (apply_advance c) s.

End Faulty.
End ExtStore.
Arguments CommitClass : clear implicits.
Arguments Conn : clear implicits.
