(* ===== verification/ExtStoreSpec.v ===== *)
(** The external state machine keeps a dense history of commits: what is stored
    represents the history, loading and validating accept it, a commit is new,
    retried or refused by its place in the history, and one request adds at most
    one entry, whatever fails. *)
From stdpp Require Import base gmap strings list numbers sorting.
From Stdlib Require Import Strings.Byte.
From S2P Require Import Prelude Text ExtBase ExtStore.

#[local] Open Scope Z_scope.

(** Runs the known prefix of a thunk. *)
Ltac xstep := repeat (progress (cbv beta iota zeta
  delta [mbind st_bind mret st_ret st_lift st_get st_put st_err st_panic x_conn x_state x_fail]; cbn [fst snd])).

Section ExtStoreSpec.
Context {C A O Out OpE : Type} `{EqDecision C} `{ExtPrims C, !ExtPrimsOk C} `{SqlOperation A O Out OpE, !SqlOperationOk A O Out OpE}.
#[local] Abbreviation Stored := (StoredState C).

(** ** The history *)

(** One applied entry with the receipt that was stored for it. *)
Record Done : Type := mkDone { d_commit : ExternalCommit C; d_kind : ExternalEntryKind; d_receipt : list byte }.
Definition seq_of (e : Done) : Z := sequence (d_commit e).

Record commit_ok (c : ExternalCommit C) : Prop := {
  cm_sequence : is_u64 (sequence c);
  cm_digest : zlen (command_digest c) = 32;
  cm_state_schema : is_u64 (state_schema c);
  cm_receipt_schema : is_u64 (receipt_schema c);
}.

Record done_ok (s : Stored) (e : Done) : Prop := {
  dn_commit : commit_ok (d_commit e);
  dn_size : zlen (d_receipt e) <= max_receipt_bytes s;
  dn_receipt : match d_kind e with
               | Operation => is_Some (decode_receipt (d_receipt e))
               | Advance => d_receipt e = unit_bytes
               end;
}.

Record config_ok (s : Stored) : Prop := {
  cf_sequence : is_u64 (initial_sequence s);
  cf_schema : is_u64 (initial_state_schema s);
  cf_retention : 1 <= receipt_retention s <= MAX_RECEIPT_RETENTION;
  cf_bytes : 1 <= max_receipt_bytes s <= MAX_RECEIPT_BYTES;
  cf_codec : receipt_codec s = RECEIPT_CODEC;
}.

(** The part of the state that never changes. *)
Definition config_of (s : Stored) : Stored := set_snapshot_id None (set_frontier None None s).
Definition same_config (s s' : Stored) : Prop := config_of s' = config_of s.

Definition codec_of (k : ExternalEntryKind) : string :=
  match k with Operation => RECEIPT_CODEC | Advance => ADVANCE_RECEIPT_CODEC end.
Definition coord_bytes (c : C) : list byte := default [] (ser_coord c).

Definition applied_of (e : Done) : ExternalApplied C := mkApplied (d_commit e) (d_kind e) (sha256 (d_receipt e)).
Definition receipt_of (e : Done) : StoredReceipt C :=
  mkReceipt (d_commit e) (d_kind e) (codec_of (d_kind e)) (d_receipt e) (sha256 (d_receipt e)).

(** ** The columns

    What the tables hold for a value, as the format documents it: numbers are eight
    bytes in big-endian order, digests have 32 bytes, the kind is 1 or 2, and a
    coordinate is encoded in exactly its bytes. *)
Definition u64_col (b : list byte) (z : Z) : Prop := is_u64 z /\ b = encode_u64 z.
Definition coord_col (b : list byte) (c : C) : Prop := de_coord b = Some (c, zlen b).
Definition kind_col (z : Z) (k : ExternalEntryKind) : Prop := z = match k with Operation => 1 | Advance => 2 end.

(** A row of the receipts table that holds the entry [e]. *)
Record stores (row : ReceiptRow) (e : Done) : Prop := {
  st_coordinate : coord_col (k_coordinate row) (coordinate (d_commit e));
  st_command : k_command_digest row = command_digest (d_commit e);
  st_kind : kind_col (k_kind row) (d_kind e);
  st_state_schema : u64_col (k_state_schema row) (state_schema (d_commit e));
  st_receipt_schema : u64_col (k_receipt_schema row) (receipt_schema (d_commit e));
  st_codec : k_codec row = codec_of (d_kind e);
  st_receipt : k_receipt row = d_receipt e;
  st_digest : k_receipt_digest row = sha256 (d_receipt e);
}.

(** The last-applied columns that hold the entry [a] and the floor [f]. *)
Record last_cols (row : MetaRow) (a : ExternalApplied C) (f : Z) : Prop := {
  lc_sequence : exists b, c_last_sequence row = Some b /\ u64_col b (sequence (commit a));
  lc_coordinate : exists b, c_last_coordinate row = Some b /\ coord_col b (coordinate (commit a));
  lc_command : c_last_command_digest row = Some (command_digest (commit a)) /\ zlen (command_digest (commit a)) = 32;
  lc_kind : exists z, c_last_kind row = Some z /\ kind_col z (kind a);
  lc_state_schema : exists b, c_last_state_schema row = Some b /\ u64_col b (state_schema (commit a));
  lc_receipt_schema : exists b, c_last_receipt_schema row = Some b /\ u64_col b (receipt_schema (commit a));
  lc_digest : c_last_receipt_digest row = Some (receipt_digest a) /\ zlen (receipt_digest a) = 32;
  lc_floor : exists b, c_receipt_floor row = Some b /\ u64_col b f;
}.
Record no_last_cols (row : MetaRow) : Prop := {
  nl_sequence : c_last_sequence row = None;
  nl_coordinate : c_last_coordinate row = None;
  nl_command : c_last_command_digest row = None;
  nl_kind : c_last_kind row = None;
  nl_state_schema : c_last_state_schema row = None;
  nl_receipt_schema : c_last_receipt_schema row = None;
  nl_digest : c_last_receipt_digest row = None;
  nl_floor : c_receipt_floor row = None;
}.

(** The row of the metadata table that holds [s]. *)
Record row_config (row : MetaRow) (s : Stored) : Prop := {
  rc_format : c_format_version row = 1;
  rc_application : c_application_id row = application_id s;
  rc_sequence : u64_col (c_initial_sequence row) (initial_sequence s);
  rc_schema : u64_col (c_initial_state_schema row) (initial_state_schema s);
  rc_codec : c_receipt_codec row = receipt_codec s;
  rc_retention : u64_col (c_receipt_retention row) (receipt_retention s);
  rc_bytes : u64_col (c_max_receipt_bytes row) (max_receipt_bytes s);
  rc_snapshot : c_snapshot_id row = snapshot_id s;
}.
Definition row_last (row : MetaRow) (s : Stored) : Prop :=
  match last_applied s, receipt_floor s with
  | Some a, Some f => last_cols row a f
  | None, None => no_last_cols row
  | _, _ => False
  end.
Definition limits_ok (s : Stored) : Prop :=
  1 <= receipt_retention s <= MAX_RECEIPT_RETENTION /\ 1 <= max_receipt_bytes s <= MAX_RECEIPT_BYTES.

(** The sequences of the history are [initial, initial + 1, ..]. *)
Definition dense (s : Stored) (h : list Done) : Prop :=
  forall i e, h !! i = Some e -> seq_of e = initial_sequence s + Z.of_nat i.

(** The sequence the next commit must have, and the oldest one that can be retried:
    as many of the last ones as the retention says. *)
Definition next_seq (s : Stored) (h : list Done) : Z := initial_sequence s + zlen h.
Definition oldest (s : Stored) (h : list Done) : Z := Z.max (initial_sequence s) (next_seq s h - receipt_retention s).

(** [d] stores the state [s] of the history [h]: the row of the metadata table holds
    the configuration and the frontier, the receipts table one row for each entry of
    the retained suffix and nothing else. *)
Record store_ok (d : Db A) (s : Stored) (h : list Done) : Prop := {
  so_config : config_ok s;
  so_dense : dense s h;
  so_done : Forall (done_ok s) h;
  so_last : last_applied s = applied_of <$> last h;
  so_floor : receipt_floor s = (fun _ => oldest s h) <$> last h;
  so_row : exists row, meta_table d = Some (Some row) /\ row_config row s /\ row_last row s;
  so_rows : exists rows, receipts_table d = Some rows /\
    (forall key row, rows !! key = Some row ->
      exists e, e ∈ h /\ key = encode_u64 (seq_of e) /\ stores row e /\ oldest s h <= seq_of e) /\
    (forall e, e ∈ h -> oldest s h <= seq_of e -> is_Some (rows !! encode_u64 (seq_of e)));
}.

(** ** Sequences *)
Lemma last_seq s h e : dense s h -> last h = Some e -> seq_of e = next_seq s h - 1.
Proof.
  intros Hd. rewrite last_lookup. intros Hl. rewrite (Hd _ _ Hl). unfold next_seq, zlen.
  apply lookup_lt_Some in Hl. lia.
Qed.

Lemma seq_range s h e : dense s h -> e ∈ h -> initial_sequence s <= seq_of e < next_seq s h.
Proof.
  intros Hd [i Hi]%list_elem_of_lookup. rewrite (Hd _ _ Hi). unfold next_seq, zlen. apply lookup_lt_Some in Hi. lia.
Qed.

Lemma seq_inj s h e e' : dense s h -> e ∈ h -> e' ∈ h -> seq_of e = seq_of e' -> e = e'.
Proof.
  intros Hd [i Hi]%list_elem_of_lookup [j Hj]%list_elem_of_lookup E. rewrite (Hd _ _ Hi), (Hd _ _ Hj) in E.
  assert (i = j) as -> by lia. congruence.
Qed.

Lemma seq_lookup s h q : dense s h -> initial_sequence s <= q < next_seq s h -> exists e, e ∈ h /\ seq_of e = q.
Proof.
  intros Hd Hq. destruct (lookup_lt_is_Some_2 h (Z.to_nat (q - initial_sequence s))) as [e He].
  { unfold next_seq, zlen in Hq. lia. }
  exists e. split; [by eapply list_elem_of_lookup_2|]. rewrite (Hd _ _ He). lia.
Qed.

Lemma seq_u64 s h e : Forall (done_ok s) h -> e ∈ h -> is_u64 (seq_of e).
Proof. rewrite Forall_forall. intros Hd He. by destruct (Hd e He) as [[? _ _ _] _ _]. Qed.

(** ** Loading *)
Lemma in_range_true lo hi z : lo <= z <= hi -> in_range lo hi z = true.
Proof. intros. unfold in_range. apply andb_true_intro. split; apply Z.leb_le; lia. Qed.

Lemma in_range_iff lo hi z : in_range lo hi z = true <-> lo <= z <= hi.
Proof. unfold in_range. rewrite andb_true_iff, !Z.leb_le. done. Qed.

Lemma decode_digest_ok l : zlen l = 32 -> decode_digest l = Ok l.
Proof. intros E. unfold decode_digest. by rewrite E. Qed.
Lemma decode_digest_inv l x : decode_digest l = Ok x -> x = l /\ zlen l = 32.
Proof. unfold decode_digest. destruct (Z.eqb_spec (zlen l) 32); [by intros [= <-]|done]. Qed.
Lemma decode_u64_inv l z : decode_u64 l = Ok z -> is_u64 z /\ l = encode_u64 z.
Proof.
  unfold decode_u64, zlen. destruct (Z.eqb_spec (Z.of_nat (length l)) 8) as [E|]; [intros [= <-]|done].
  pose proof (be_decode_bound l) as Hb. rewrite E in Hb. split; [exact Hb|].
  assert (length l = 8%nat) as El by lia. unfold encode_u64. by rewrite <- El, be_encode_decode.
Qed.
Lemma from_as_i64 k : from_i64 (as_i64 k) = Ok k.
Proof. by destruct k. Qed.
Lemma coord_exact c b : ser_coord c = Some b -> deserialize_exact b = Ok c.
Proof. intros Hb. unfold deserialize_exact. by rewrite (coord_round _ _ Hb), Z.eqb_refl. Qed.

Lemma floor_of_u64 s q : config_ok s -> is_u64 q -> is_u64 (floor_of s q).
Proof. intros [Q _ Q2 _ _] Hq. unfold floor_of, sat_sub, is_u64 in *. lia. Qed.

Lemma unwrap_inv {T} (o : option T) a : @unwrap ExternalError T o = Ok a -> o = Some a.
Proof. destruct o; [by intros [= ->]|done]. Qed.

(** The decoders accept exactly the columns of the format. *)
Lemma u64_col_iff b z : decode_u64 b = Ok z <-> u64_col b z.
Proof. split; [apply decode_u64_inv|]. intros [Hz ->]. by apply decode_encode_u64. Qed.
Lemma coord_col_iff b c : deserialize_exact b = Ok c <-> coord_col b c.
Proof.
  unfold deserialize_exact, coord_col. destruct (de_coord b) as [[c' n]|]; [|by split].
  destruct (Z.eqb_spec n (zlen b)) as [->|Hn]; split; try done; by intros [= ->].
Qed.
Lemma kind_col_iff z k : from_i64 z = Ok k <-> kind_col z k.
Proof.
  unfold from_i64, kind_col. split.
  - destruct (Z.eqb_spec z 1); [by intros [= <-]|]. destruct (Z.eqb_spec z 2); [by intros [= <-]|done].
  - intros ->. by destruct k.
Qed.
Lemma digest_col_iff b x : decode_digest b = Ok x <-> b = x /\ zlen x = 32.
Proof. split; [intros [-> ?]%decode_digest_inv; done|]. intros [-> ?]. by apply decode_digest_ok. Qed.

Lemma decode_last_iff row a f : decode_last row = Ok (a, f) <-> last_cols row a f.
Proof.
  unfold decode_last. split.
  - intros Hl. res_inv Hl. injection Hl as <- <-.
    repeat match goal with
    | H : unwrap _ = Ok _ |- _ => apply unwrap_inv in H
    | H : decode_u64 _ = Ok _ |- _ => apply u64_col_iff in H
    | H : deserialize_exact _ = Ok _ |- _ => apply coord_col_iff in H
    | H : from_i64 _ = Ok _ |- _ => apply kind_col_iff in H
    | H : decode_digest _ = Ok _ |- _ => apply digest_col_iff in H as [-> ?]
    end. split; cbn; eauto.
  - intros [(b1 & -> & Q1%u64_col_iff) (b2 & -> & Q2%coord_col_iff) [-> Q3] (z & -> & Q4%kind_col_iff)
      (b5 & -> & Q5%u64_col_iff) (b6 & -> & Q6%u64_col_iff) [-> Q7] (b8 & -> & Q8%u64_col_iff)].
    step_res. rewrite Q1. step_res. rewrite Q2. step_res. rewrite decode_digest_ok by done. step_res. rewrite Q4. step_res.
    rewrite Q5. step_res. rewrite Q6. step_res. rewrite decode_digest_ok by done. step_res. rewrite Q8. step_res.
    by destruct a as [[] ? ?].
Qed.

Lemma decode_last_present row p : decode_last row = Ok p -> last_values_present row = replicate 8 true.
Proof.
  unfold decode_last, last_values_present. intros Hl. res_inv Hl.
  repeat match goal with H : unwrap _ = Ok _ |- _ => apply unwrap_inv in H; rewrite H; clear H end. done.
Qed.

Lemma absent_iff row : last_values_present row = replicate 8 false <-> no_last_cols row.
Proof.
  unfold last_values_present. split.
  - intros Hp. injection Hp as H1 H2 H3 H4 H5 H6 H7 H8.
    repeat match goal with X : bool_decide (is_Some _) = false |- _ => apply bool_decide_eq_false, eq_None_not_Some in X end. by split.
  - by intros [-> -> -> -> -> -> -> ->].
Qed.

Lemma decode_row_iff (s : Stored) row e : commit_ok (d_commit e) ->
  (zlen (k_receipt row) <= max_receipt_bytes s /\ decode_receipt_row (seq_of e) row = Ok (receipt_of e)) <->
  (zlen (d_receipt e) <= max_receipt_bytes s /\ stores row e).
Proof.
  intros [Q1 Q2 Q3 Q4]. unfold decode_receipt_row. split.
  - intros [Hz Hl]. res_inv Hl. injection Hl as E1 E2 E3 E4 E5.
    repeat match goal with
    | H : decode_u64 _ = Ok _ |- _ => apply u64_col_iff in H
    | H : deserialize_exact _ = Ok _ |- _ => apply coord_col_iff in H
    | H : from_i64 _ = Ok _ |- _ => apply kind_col_iff in H
    | H : decode_digest _ = Ok _ |- _ => apply digest_col_iff in H as [? ?]
    end. subst. rewrite E4 in Hz. split; [done|]. rewrite <- E1 in *. by split; rewrite <- ?E1.
  - intros [Hz [S1%coord_col_iff S2 S3%kind_col_iff S4%u64_col_iff S5%u64_col_iff S6 S7 S8]]. rewrite S7. split; [done|].
    rewrite S1. step_res. rewrite S8, (decode_digest_ok (sha256 _)) by apply sha256_length. step_res. rewrite bool_decide_eq_true_2 by done. cbn [negb].
    rewrite S2, decode_digest_ok by done. step_res. rewrite S4. step_res. rewrite S5. step_res. rewrite S3. step_res. rewrite S6.
    unfold receipt_of, seq_of. by destruct e as [[] ? ?].
Qed.

(** [load_state] reads exactly what the row of the metadata table says. *)
Lemma load_iff (d : Db A) s :
  load_state d = Ok s <->
  exists row, meta_table d = Some (Some row) /\ row_config row s /\ limits_ok s /\ row_last row s.
Proof.
  unfold load_state, require_metadata_table, metadata_table_exists, limits_ok. split.
  - intros Hl. res_inv Hl. destruct (meta_table d) as [[row|]|]; [|done..]. injection Ha0 as <-. exists row. split; [done|].
    apply negb_false_iff in Hb0, Hb1, Hb2. apply in_range_iff in Hb1, Hb2. apply Z.eqb_eq in Hb0.
    repeat match goal with H : decode_u64 _ = Ok _ |- _ => apply u64_col_iff in H end.
    destruct a5 as [last fl]. injection Hl as <-. split; [by split|]. split; [done|]. cbn. unfold row_last. cbn.
    destruct (c_last_sequence row) eqn:Es; cbn in Ha5.
    + rewrite bool_decide_eq_true_2 in Ha5 by eauto. res_inv Ha5. match goal with p : (_ * _)%type |- _ => destruct p as [la fa] end.
      injection Ha5 as <- <-. by apply decode_last_iff.
    + rewrite Es, bool_decide_eq_false_2 in Ha5 by (by intros [? ?]). injection Ha5 as <- <-. apply absent_iff.
      unfold last_values_present in *. rewrite Es in *. cbn in Hb3. rewrite andb_true_r in Hb3. cbn.
      repeat (apply orb_false_iff in Hb3 as [? Hb3]).
      repeat match goal with Hv : bool_decide _ = false |- _ => rewrite Hv; clear Hv end. done.
  - intros (row & Hm & [Q1 Q2 Q3%u64_col_iff Q4%u64_col_iff Q5 Q6%u64_col_iff Q7%u64_col_iff Q8] & [L1 L2] & Hl).
    rewrite Hm, bool_decide_eq_true_2 by eauto. step_res.
    rewrite Q1. cbn [in_range Z.leb Z.compare andb negb Z.eqb Pos.eqb EXTERNAL_FORMAT_VERSION].
    rewrite Q3, Q4, Q6, Q7. step_res. rewrite !in_range_true by done. cbn [negb].
    unfold row_last in Hl. destruct (last_applied s) as [a|] eqn:Ea, (receipt_floor s) as [f|] eqn:Ef; try done.
    + apply decode_last_iff in Hl. rewrite (decode_last_present _ _ Hl). cbn. rewrite Hl. step_res. rewrite Q2, Q5, Q8, <- Ea, <- Ef. by destruct s.
    + apply absent_iff in Hl. rewrite Hl. cbn. rewrite Q2, Q5, Q8, <- Ea, <- Ef. by destruct s.
Qed.

Lemma so_load d s h : store_ok d s h -> load_state d = Ok s.
Proof.
  intros [[_ _ L1 L2 _] _ _ _ _ (row & Hm & Hc & Hl) _]. apply load_iff. exists row. by split_and!.
Qed.
Lemma load_row (d : Db A) s : load_state d = Ok s -> exists row, meta_table d = Some (Some row) /\ row_config row s /\ row_last row s.
Proof. intros (row & ? & ? & _ & ?)%load_iff. eauto. Qed.

(** The floor the code computes is the oldest retained sequence. *)
Lemma oldest_floor s h : config_ok s -> oldest s h = floor_of s (next_seq s h - 1).
Proof. intros [Q1 _ Q3 _ _]. destruct Q1, Q3. unfold oldest, floor_of, sat_sub. lia. Qed.

(** ** Receipts *)
Lemma load_receipt_some d s h e :
  store_ok d s h -> e ∈ h -> oldest s h <= seq_of e -> load_receipt d (seq_of e) (max_receipt_bytes s) = Ok (Some (receipt_of e)).
Proof.
  intros [_ Hd Hdn _ _ _ (rows & Hr & Hrows & Hall)] He Ho. unfold load_receipt. rewrite Hr.
  destruct (Hall e He Ho) as [row Hrow]. rewrite Hrow. apply Hrows in Hrow as (x & Hx & Ex & Hst & _).
  apply encode_u64_inj in Ex; [|by eapply seq_u64..]. rewrite (seq_inj s h e x) in * by done.
  rewrite Forall_forall in Hdn. destruct (Hdn x Hx) as [Hcm Hzx _].
  destruct (proj2 (decode_row_iff s row x Hcm) (conj Hzx Hst)) as [Hz Hdec].
  rewrite (proj2 (Z.ltb_ge _ _)) by lia. by rewrite Hdec.
Qed.

Lemma load_receipt_none d s h q :
  store_ok d s h -> is_u64 q -> (forall e, e ∈ h -> oldest s h <= seq_of e -> seq_of e <> q) ->
  load_receipt d q (max_receipt_bytes s) = Ok None.
Proof.
  intros [_ _ Hdn _ _ _ (rows & Hr & Hrows & _)] Hq Hno. unfold load_receipt. rewrite Hr.
  destruct (rows !! encode_u64 q) as [row|] eqn:E; [|done].
  apply Hrows in E as (e & He & E & _ & Ho). apply encode_u64_inj in E; [|done|by eapply seq_u64].
  by destruct (Hno e He Ho).
Qed.

(** The keys of the receipts table in order. *)
Lemma sorted_keys n : forall m, 0 <= m -> m + Z.of_nat n <= 2 ^ 64 -> Sorted blob_le (encode_u64 <$> seqZ m (Z.of_nat n)).
Proof.
  induction n as [|n IH]; intros m Hm0 Hm; [constructor|].
  rewrite seqZ_cons by lia. replace (Z.pred (Z.of_nat (S n))) with (Z.of_nat n) by lia. rewrite fmap_cons.
  constructor; [apply IH; lia|]. destruct n as [|n]; [constructor|].
  rewrite seqZ_cons, fmap_cons by lia. constructor. unfold blob_le.
  rewrite blob_ltb_encode by (unfold is_u64; lia). apply Z.ltb_ge. lia.
Qed.

Lemma oldest_range s h : config_ok s -> initial_sequence s <= oldest s h <= Z.max (initial_sequence s) (next_seq s h - 1) /\
  next_seq s h - oldest s h <= receipt_retention s.
Proof. intros [Q1 _ Q3 _ _]. unfold oldest, next_seq, is_u64 in *. pose proof (zlen_nonneg h). lia. Qed.

Lemma next_u64 d s h : store_ok d s h -> h <> [] -> next_seq s h <= 2 ^ 64.
Proof.
  intros [_ Hd Hdn _ _ _ _] Hne. destruct (last h) as [e|] eqn:El; [|by apply last_None in El].
  pose proof (last_seq s h e Hd El). apply last_Some in El as [h' ->].
  pose proof (seq_u64 s (h' ++ [e]) e Hdn ltac:(apply elem_of_app; right; by left)) as Hu. unfold is_u64 in Hu. lia.
Qed.

Lemma sequences_ok d s h rows :
  store_ok d s h -> receipts_table d = Some rows ->
  sequences rows = encode_u64 <$> seqZ (oldest s h) (next_seq s h - oldest s h).
Proof.
  intros Hok Hr. pose proof Hok as [Hc Hd Hdn _ _ _ (rows' & Hr' & Hrows & Hall)]. assert (rows' = rows) as -> by congruence.
  destruct (oldest_range s h Hc) as [[Ho1 Ho2] Ho3]. pose proof (zlen_nonneg h) as Hz.
  assert (next_seq s h <= 2 ^ 64) as Hn.
  { destruct h; [|by eapply next_u64]. unfold next_seq. change (zlen []) with 0. destruct Hc as [Q _ _ _ _]. unfold is_u64 in Q. lia. }
  assert (0 <= oldest s h) by (destruct Hc as [Q _ _ _ _]; unfold is_u64 in Q; lia).
  assert (0 <= next_seq s h - oldest s h) as Hcount by (unfold next_seq in *; lia).
  rewrite <- (Z2Nat.id (next_seq s h - oldest s h)) by done.
  apply (Sorted_unique blob_le); [apply Sorted_merge_sort; apply _|apply sorted_keys; lia|].
  unfold sequences. rewrite merge_sort_Permutation. apply NoDup_Permutation.
  - apply NoDup_fst_map_to_list.
  - apply NoDup_fmap_2_strong; [|apply NoDup_seqZ]. intros x y Hx%elem_of_seqZ Hy%elem_of_seqZ.
    apply encode_u64_inj; unfold is_u64; lia.
  - intros key. rewrite !list_elem_of_fmap. setoid_rewrite elem_of_seqZ. split.
    + intros ([k row] & -> & Hin%elem_of_map_to_list). apply Hrows in Hin as (e & He & -> & _ & Ho). cbn.
      exists (seq_of e). split; [done|]. pose proof (seq_range s h e Hd He). lia.
    + intros (q & -> & Hq). destruct (seq_lookup s h q Hd) as (e & He & <-); [lia|].
      destruct (Hall e He) as [row Hrow]; [lia|]. exists (encode_u64 (seq_of e), row). split; [done|]. by apply elem_of_map_to_list.
Qed.

(** ** Validating *)
Lemma validate_one d s h e :
  store_ok d s h -> e ∈ h -> oldest s h <= seq_of e -> validate_receipt d s (seq_of e) (encode_u64 (seq_of e)) = Ok tt.
Proof.
  intros Hok He Ho. pose proof Hok as [Hc _ Hdn _ _ _ _]. pose proof (seq_u64 s h e Hdn He) as Hu.
  rewrite Forall_forall in Hdn. destruct (Hdn e He) as [_ Hs Hk]. unfold validate_receipt.
  rewrite decode_encode_u64 by done. step_res. rewrite Z.eqb_refl. cbn [negb].
  rewrite (load_receipt_some d s h e) by done. step_res. cbn [receipt_of r_kind r_codec r_receipt].
  rewrite (proj2 (Z.ltb_ge _ _)) by lia. destruct Hc as [_ _ _ _ Hcd].
  destruct (d_kind e); cbn [codec_of]; rewrite ?Hcd, String.eqb_refl; cbn [negb].
  - by destruct Hk as [o ->].
  - by rewrite bool_decide_eq_true_2.
Qed.

Lemma validate_suffix_ok d s h n : forall m,
  store_ok d s h -> oldest s h <= m -> m + Z.of_nat n <= next_seq s h ->
  validate_suffix d s m (encode_u64 <$> seqZ m (Z.of_nat n)) = Ok tt.
Proof.
  induction n as [|n IH]; intros m Hok Ho Hm; [done|].
  rewrite seqZ_cons by lia. replace (Z.pred (Z.of_nat (S n))) with (Z.of_nat n) by lia. rewrite fmap_cons. cbn [validate_suffix].
  pose proof (oldest_range s h (so_config _ _ _ Hok)).
  destruct (seq_lookup s h m (so_dense _ _ _ Hok)) as (e & He & <-); [lia|].
  rewrite (validate_one d s h e) by done. step_res. rewrite <- Z.add_1_r. apply IH; [done|lia|lia].
Qed.

Lemma validate_ok d s h : store_ok d s h -> validate_receipts d s = Ok tt.
Proof.
  intros Hok. pose proof Hok as [Hc Hd Hdn Hl Hf _ (rows & Hr & Hrows & _)]. unfold validate_receipts. rewrite Hl, Hf.
  destruct (last h) as [e|] eqn:El; cbn [fmap option_fmap option_map].
  - assert (e ∈ h) as He by (apply last_Some in El as [h' ->]; apply elem_of_app; right; by left).
    pose proof (last_seq s h e Hd El) as Hls. assert (floor_of s (seq_of e) = oldest s h) as Hfo by (rewrite oldest_floor by done; by rewrite Hls).
    change (sequence (commit (applied_of e))) with (seq_of e). rewrite Hfo.
    destruct (oldest_range s h Hc) as [[Ho1 Ho2] Ho3]. pose proof (seq_range s h e Hd He). destruct Hc as [_ _ Hret _ _].
    unfold MAX_RECEIPT_RETENTION in Hret. rewrite (proj2 (Z.ltb_ge _ _)) by lia.
    replace (seq_of e - oldest s h + 1) with (next_seq s h - oldest s h) by lia. rewrite wrap64_small by (unfold is_u64; lia).
    rewrite (proj2 (Z.ltb_ge _ _)) by lia. rewrite Z.eqb_refl, Hr. cbn [negb]. step_res.
    rewrite (sequences_ok d s h) by done.
    assert (zlen (encode_u64 <$> seqZ (oldest s h) (next_seq s h - oldest s h)) = next_seq s h - oldest s h) as ->
      by (unfold zlen; rewrite length_fmap, length_seqZ; lia).
    rewrite Z.eqb_refl. cbn [negb]. rewrite <- (Z2Nat.id (next_seq s h - oldest s h)) by lia.
    rewrite (validate_suffix_ok d s h) by (done || lia). step_res. rewrite (load_receipt_some d s h e) by (done || lia). step_res.
    cbn [receipt_of r_commit r_kind r_digest applied_of commit kind receipt_digest]. by rewrite !bool_decide_eq_true_2.
  - apply last_None in El as ->. rewrite Hr. step_res. rewrite bool_decide_eq_true_2; [done|].
    apply map_empty. intros key. destruct (rows !! key) eqn:E; [|done]. apply Hrows in E as (? & Hin & _). by inversion Hin.
Qed.

(** ** Classifying *)

(** A commit against the history: new, a retry of an entry, or refused. *)
Definition spec_class (s : Stored) (h : list Done) (c : ExternalCommit C) (k : ExternalEntryKind) : Res ExternalError (option Done) :=
  if sequence c =? next_seq s h then Ok None
  else if next_seq s h <? sequence c then Err (SequenceGap (next_seq s h) (sequence c))
  else if bool_decide (h = []) then Err (SequenceBeforeInitial (initial_sequence s) (sequence c))
  else if sequence c <? oldest s h then Err (ReceiptUnavailable (sequence c))
  else match h !! Z.to_nat (sequence c - initial_sequence s) with
       | Some e => if bool_decide (d_commit e = c) && bool_decide (d_kind e = k) then Ok (Some e) else Err (CommitConflict (sequence c))
       | None => Panic
       end.

Definition class_of (o : option Done) : CommitClass C := match o with None => New | Some e => Retry (receipt_of e) end.

Lemma codec_of_inj k k' : d_kind k = k' -> codec_of (d_kind k) = codec_of k'.
Proof. by intros ->. Qed.

Lemma classify_ok d s h c k :
  store_ok d s h -> is_u64 (sequence c) ->
  classify_commit d s c k (codec_of k) = (o ← spec_class s h c k; Ok (class_of o)).
Proof.
  intros Hok Hu. pose proof Hok as [Hc Hd Hdn Hl Hf _ _]. unfold classify_commit, spec_class. rewrite Hl.
  destruct (last h) as [e|] eqn:El; cbn [fmap option_fmap option_map].
  - assert (e ∈ h) as He by (apply last_Some in El as [h' ->]; apply elem_of_app; right; by left).
    assert (h <> []) as Hne by (intros ->; done). rewrite (bool_decide_eq_false_2 (h = [])) by done.
    pose proof (last_seq s h e Hd El) as Hls. change (sequence (commit (applied_of e))) with (seq_of e).
    pose proof (seq_u64 s h e Hdn He) as Hue. unfold is_u64 in *.
    destruct (Z.leb_spec (sequence c) (seq_of e)) as [Hle|Hgt].
    + rewrite (proj2 (Z.eqb_neq _ _)), (proj2 (Z.ltb_ge _ _)) by lia.
      destruct (Z.ltb_spec (sequence c) (oldest s h)) as [Hlo|Hhi].
      { rewrite (load_receipt_none d s h) by (done || (intros; lia)). done. }
      destruct (oldest_range s h Hc) as [[Ho1 _] _].
      destruct (seq_lookup s h (sequence c) Hd) as (x & Hx & Ex); [lia|]. rewrite <- Ex at 1.
      rewrite (load_receipt_some d s h x) by (done || lia). step_res.
      assert (h !! Z.to_nat (sequence c - initial_sequence s) = Some x) as ->.
      { apply list_elem_of_lookup in Hx as [i Hi]. pose proof (Hd _ _ Hi). replace (Z.to_nat _) with i by lia. done. }
      cbn [receipt_of r_commit r_kind r_codec].
      destruct (decide (d_commit x = c)) as [Ec|Ec]; [rewrite (bool_decide_eq_true_2 _ Ec)|by rewrite (bool_decide_eq_false_2 _ Ec)].
      destruct (decide (d_kind x = k)) as [Ek|Ek]; [rewrite (bool_decide_eq_true_2 _ Ek)|by rewrite (bool_decide_eq_false_2 _ Ek)].
      by rewrite (codec_of_inj _ _ Ek), String.eqb_refl.
    + unfold checked_next. rewrite (proj2 (Z.eqb_neq _ _)) by (unfold u64_max; lia). step_res.
      replace (seq_of e + 1) with (next_seq s h) by lia. destruct (Z.eqb_spec (sequence c) (next_seq s h)); [done|].
      by rewrite (proj2 (Z.ltb_lt _ _)) by lia.
  - apply last_None in El as ->. unfold next_seq. change (zlen []) with 0. rewrite Z.add_0_r.
    destruct (Z.eqb_spec (sequence c) (initial_sequence s)); [done|]. by destruct (Z.ltb_spec (initial_sequence s) (sequence c)).
Qed.

(** ** Adding one entry *)
Lemma load_update (d : Db A) s c k digest b rows (a : A) m :
  meta_table d = Some m -> load_state d = Ok s -> config_ok s -> commit_ok c -> zlen digest = 32 -> ser_coord (coordinate c) = Some b ->
  load_state (mkDb (Some (set_last c b k digest (floor_of s (sequence c)) <$> m)) rows a)
    = Ok (update_state_after_commit s c k digest).
Proof.
  intros Hmt (row & Hm & [Q1 Q2 Q3 Q4 Q5 Q6 Q7 Q8] & Hlim & _)%load_iff Hc [C1 C2 C3 C4] Hdg Hb. apply load_iff.
  rewrite Hmt in Hm. injection Hm as ->. eexists. cbn [meta_table]. split; [reflexivity|]. split; [by split|]. split; [done|].
  unfold row_last. cbn [last_applied receipt_floor update_state_after_commit set_frontier].
  apply decode_last_iff. unfold decode_last. cbn [c_last_sequence c_last_coordinate c_last_command_digest c_last_kind c_last_state_schema c_last_receipt_schema
    c_last_receipt_digest c_receipt_floor set_last].
  pose proof (floor_of_u64 s (sequence c) Hc C1). step_res. rewrite !decode_encode_u64 by done. step_res.
  rewrite (coord_exact _ _ Hb). step_res. rewrite !decode_digest_ok by done. step_res. rewrite from_as_i64. step_res. by destruct c.
Qed.

Lemma stores_new s e b :
  done_ok s e -> ser_coord (coordinate (d_commit e)) = Some b ->
  stores (mkReceiptRow b (command_digest (d_commit e)) (as_i64 (d_kind e)) (encode_u64 (state_schema (d_commit e)))
    (encode_u64 (receipt_schema (d_commit e))) (codec_of (d_kind e)) (d_receipt e) (sha256 (d_receipt e))) e.
Proof.
  intros [[Q1 Q2 Q3 Q4] Hz _] Hb. split; try done. by apply coord_round.
Qed.

Lemma row_key_lt f e s h : Forall (done_ok s) h -> e ∈ h -> is_u64 f -> blob_ltb (encode_u64 (seq_of e)) (encode_u64 f) = (seq_of e <? f).
Proof. intros Hd He Hf. apply blob_ltb_encode; [by eapply seq_u64|done]. Qed.

Lemma persist_ok d s h c k r b :
  store_ok d s h -> sequence c = next_seq s h -> done_ok s (mkDone c k r) -> ser_coord (coordinate c) = Some b ->
  exists d', persist_new_commit d s c k (codec_of k) r (sha256 r) = Ok d' /\ app d' = app d /\
    store_ok d' (update_state_after_commit s c k (sha256 r)) (h ++ [mkDone c k r]).
Proof.
  intros Hok Hseq Hdone Hb. pose proof Hok as [Hc Hd Hdn Hl Hf _ (rows & Hr & Hrows & Hall)]. pose proof (so_load _ _ _ Hok) as Hm.
  set (e := mkDone c k r). pose proof Hdone as [Hcm _ _]. pose proof Hcm as [Q1 Q2 Q3 Q4]. cbn [d_commit] in *.
  assert (Forall (done_ok s) (h ++ [e])) as Hdn' by (apply Forall_app; split; [done|by apply Forall_singleton]).
  assert (dense s (h ++ [e])) as Hd'.
  { intros i x. rewrite lookup_app_Some. intros [Hi|[Hge Hi]]; [by apply Hd|].
    apply list_lookup_singleton_Some in Hi as [Hi <-]. unfold seq_of. cbn. rewrite Hseq. unfold next_seq, zlen. lia. }
  pose proof (floor_of_u64 s (sequence c) Hc Q1) as Hfu.
  assert (rows !! encode_u64 (sequence c) = None) as Hnew.
  { destruct (rows !! _) eqn:E; [|done]. apply Hrows in E as (x & Hx & E & _). apply encode_u64_inj in E; [|done|by eapply (seq_u64 s h)].
    pose proof (seq_range s h x Hd Hx). lia. }
  pose proof Hm as (row0 & Hmt & _)%load_iff.
  unfold persist_new_commit. rewrite Hb, Hr, Hmt. step_res. rewrite Hnew. step_res. cbv zeta.
  eexists. split; [reflexivity|]. split; [done|].
  assert (oldest s (h ++ [e]) = floor_of s (sequence c)) as Hold.
  { rewrite oldest_floor by done. f_equal. unfold next_seq in *. rewrite zlen_app. change (zlen [e]) with 1. lia. }
  assert (oldest s h <= floor_of s (sequence c)) as Hmono by (rewrite oldest_floor by done; unfold floor_of, sat_sub; lia).
  split.
  - by destruct Hc.
  - exact Hd'.
  - eapply Forall_impl; [exact Hdn'|]. intros x [? ? ?]. by split.
  - by rewrite last_snoc.
  - rewrite last_snoc. cbn. f_equal. symmetry. exact Hold.
  - apply load_row. by apply (load_update d s c k (sha256 r) b _ _ (Some row0) Hmt Hm Hc Hcm (sha256_length r)).
  - eexists. split; [reflexivity|]. change (oldest (update_state_after_commit _ _ _ _) (h ++ [e])) with (oldest s (h ++ [e])).
    rewrite Hold. split.
    + intros key row. rewrite map_lookup_filter_Some, lookup_insert_Some. cbn [fst].
      intros [[[<- <-]|[Hne Hrow]] Hlt].
      * exists e. split; [apply elem_of_app; right; by left|]. split; [done|]. split; [by apply (stores_new s e b)|].
        rewrite blob_ltb_encode in Hlt by done. apply Z.ltb_ge in Hlt. exact Hlt.
      * apply Hrows in Hrow as (x & Hx & -> & Hst & _). exists x. split; [apply elem_of_app; by left|]. do 2 (split; [done|]).
        rewrite (row_key_lt _ _ s h) in Hlt by done. apply Z.ltb_ge in Hlt. exact Hlt.
    + intros x [Hx| ->%list_elem_of_singleton]%elem_of_app Hge.
      * destruct (Hall x Hx) as [row Hrow]; [lia|]. exists row. rewrite map_lookup_filter_Some, lookup_insert_Some. cbn [fst].
        rewrite (row_key_lt _ _ s h) by done. split; [right|by apply Z.ltb_ge]. split; [congruence|done].
      * eexists. rewrite map_lookup_filter_Some, lookup_insert_Some. cbn [fst]. split; [by left|].
        rewrite blob_ltb_encode by done. by apply Z.ltb_ge.
Qed.

(** ** One request *)

(** The abstract state machine: the history and the application's tables.  One
    commit against it, with the reply. *)
Definition spec_apply (s : Stored) (h : list Done) (a : A) (c : ExternalCommit C) (op : O)
    : Res (ExternalApplyError OpE) (ApplyOutcome Out) * list Done * A :=
  match spec_class s h c Operation with
  | Ok (Some e) =>
      (match decode_receipt (d_receipt e) with Some o => Ok (Recovered o) | None => Err (Engine Serialization) end, h, a)
  | Ok None =>
      match op_apply op a with
      | (inl o, a') =>
          match encode_receipt o with
          | Some r =>
              if max_receipt_bytes s <? zlen r then (Err (Engine (ReceiptTooLarge (zlen r) (max_receipt_bytes s))), h, a)
              else match ser_coord (coordinate c) with
                   | Some _ => (Ok (Applied o), h ++ [mkDone c Operation r], a')
                   | None => (Err (Engine Serialization), h, a)
                   end
          | None => (Err (Engine Serialization), h, a)
          end
      | (inr e, _) => (Err (OperationError e), h, a)
      end
  | Err e => (Err (Engine e), h, a)
  | Panic => (Panic, h, a)
  | OutOfFuel => (OutOfFuel, h, a)
  end.

Definition spec_advance (s : Stored) (h : list Done) (c : ExternalCommit C) : Res ExternalError (ApplyOutcome unit) * list Done :=
  match spec_class s h c Advance with
  | Ok (Some _) => (Ok (Recovered tt), h)
  | Ok None =>
      match ser_coord (coordinate c) with
      | Some _ => (Ok (Applied tt), h ++ [mkDone c Advance unit_bytes])
      | None => (Err Serialization, h)
      end
  | Err e => (Err e, h)
  | Panic => (Panic, h)
  | OutOfFuel => (OutOfFuel, h)
  end.

Lemma store_ok_app d s h a : store_ok d s h -> store_ok (set_app a d) s h.
Proof. intros [? ? ? ? ? ? ?]. by split. Qed.

(** What a thunk body may leave behind: nothing new, or one entry [e] and the
    tables [a], acknowledged or not. *)
Definition landed {E T} (fl : Faults) (cn : Conn A) (s : Stored) (h : list Done) (out : T) (e : Done) (a : A)
    (r : Res E T) (cn' : Conn A) (s' : Stored) : Prop :=
  ((exists err, r = Err err) /\ committed cn' = committed cn /\ s' = s) \/
  (app (committed cn') = a /\
   exists s1, store_ok (committed cn') s1 (h ++ [e]) /\ same_config s s1 /\
     ((r = Ok out /\ s' = s1 /\ tx cn' = None) \/ ((exists err, r = Err err) /\ f_commit fl = Some TookEffect))).

(** Nothing left behind: an error, [err] when nothing else fails. *)
Definition refused {E T} (fl : Faults) (cn : Conn A) (s : Stored) (err : E) (r : Res E T) (cn' : Conn A) (s' : Stored) : Prop :=
  ((exists err, r = Err err) /\ committed cn' = committed cn /\ s' = s) /\ (fl = no_faults -> r = Err err).

(** The common end of both thunk bodies: store the entry and commit. *)
Lemma store_and_commit_ok {E T} (fl : Faults) (lift : ExternalError -> E) (out : T) cn s h c k r a :
  store_ok (committed cn) s h -> tx cn = Some (set_app a (committed cn)) -> sequence c = next_seq s h ->
  done_ok s (mkDone c k r) ->
  let '(res, (cn', s')) := scoped fl (store_and_commit fl lift c k (codec_of k) r out) (cn, s) in
  match ser_coord (coordinate c) with
  | Some _ => landed fl cn s h out (mkDone c k r) a res cn' s' /\ (fl = no_faults -> res = Ok out)
  | None => refused fl cn s (lift Serialization) res cn' s'
  end.
Proof.
  intros Hok Htx Hseq Hdone. unfold scoped, store_and_commit, persist, commit_tx. xstep.
  destruct (f_persist fl) eqn:Efp.
  { unfold drop_tx. destruct (ser_coord _), (f_drop fl); (split; [first [left; by eauto|by eauto]|intros ->; done]). }
  unfold view at 1. rewrite Htx. cbn [default from_option id].
  destruct (ser_coord (coordinate c)) as [b|] eqn:Eb; cycle 1.
  { unfold persist_new_commit. rewrite Eb. step_res. unfold drop_tx, refused. destruct (f_drop fl); eauto 10. }
  destruct (persist_ok _ s h c k r b (store_ok_app _ s h a Hok) Hseq Hdone Eb) as (d' & -> & Ha & Hok').
  xstep. destruct (f_commit fl) as [[]|] eqn:Efc; cbn [committed tx view default fst snd]; xstep; unfold drop_tx; destruct (f_drop fl);
    (split; [|intros ->; done]).
  all: try (left; split; [eauto|done]).
  all: right; split; [exact Ha|]; eexists; split; [exact Hok'|]; split; [done|].
  all: first [by left|right; split; [by eexists|done]].
Qed.

Lemma reconcile_ok fl failed cn s s1 h1 :
  store_ok (committed cn) s1 h1 -> (failed = false -> s = s1 /\ tx cn = None) ->
  match reconcile_after_apply fl failed (cn, s) with
  | (Ok _, (cn', s')) => cn' = mkConn (committed cn) None /\ s' = s1
  | (Err _, (cn', _)) => committed cn' = committed cn /\ fl <> no_faults
  | _ => False
  end.
Proof.
  intros Hok Hf. unfold reconcile_after_apply, is_autocommit. destruct cn as [d t]. cbn [committed tx] in *.
  assert (forall s, match (x_fail (f_reload fl) Sqlite tt;; stored ← st_lift (load_state (view (mkConn d None)));
    st_lift (validate_receipts (view (mkConn d None)) stored);; x_state (fun _ => stored)) (mkConn d None, s) with
    | (Ok _, (cn', s')) => cn' = mkConn d None /\ s' = s1
    | (Err _, (cn', _)) => committed cn' = d /\ fl <> no_faults
    | _ => False
    end) as Hload.
  { intros s0. xstep. destruct (f_reload fl) eqn:Er; xstep; [split; [done|by intros ->]|].
    change (view (mkConn d None)) with d. rewrite (so_load _ _ _ Hok). xstep. rewrite (validate_ok d s1 h1 Hok). by xstep. }
  destruct t as [d1|].
  - destruct failed; [|by destruct (Hf eq_refl)]. xstep. rewrite (bool_decide_eq_false_2 (Some d1 = None)) by done. cbn [negb].
    destruct (f_rollback fl) eqn:Erb; xstep; [split; [done|by intros ->]|]. apply Hload.
  - destruct failed; xstep; rewrite ?bool_decide_eq_true_2 by done; cbn [negb]; xstep; [apply Hload|].
    destruct (Hf eq_refl) as [-> _]. done.
Qed.

Lemma run_thunk_landed {E T} fl (engine : ExternalError -> E) (m : St E (Conn A * Stored) T) cn s h out e a :
  store_ok (committed cn) s h ->
  (let '(r, (cn1, s1)) := m (cn, s) in landed fl cn s h out e a r cn1 s1) ->
  let '(r, poisoned, (cn', s')) := run_thunk fl engine m (cn, s) in
  exists s1 h' a', (store_ok (committed cn') s1 h' /\ same_config s s1) /\ app (committed cn') = a' /\
    (poisoned = false -> tx cn' = None /\ s' = s1) /\ (poisoned = true -> r = Err (engine WriterPoisoned)) /\
    ((r = Ok out /\ h' = h ++ [e] /\ a' = a) \/
     ((exists err, r = Err err) /\ h' = h /\ a' = app (committed cn)) \/
     ((exists err, r = Err err) /\ f_commit fl = Some TookEffect /\ h' = h ++ [e] /\ a' = a)) /\
    (fl = no_faults -> poisoned = false /\ r = (m (cn, s)).1).
Proof.
  intros Hok Hland. unfold run_thunk. destruct (m (cn, s)) as [r [cn1 s1]].
  destruct Hland as [((err & ->) & Ed & ->)|(Ha & s2 & Hok2 & Hsc & [(-> & -> & Htx)|((err & ->) & Hte)])].
  - assert (store_ok (committed cn1) s h) as Hok1 by (by rewrite Ed).
    pose proof (reconcile_ok fl true cn1 s s h Hok1 ltac:(done)) as Hr.
    destruct (reconcile_after_apply fl true (cn1, s)) as [[[]|x| |] [cn2 s3]]; [| |done..].
    + destruct Hr as [-> ->]. exists s, h, (app (committed cn)). cbn. rewrite Ed. split; [done|]. split; [done|].
      split; [done|]. split; [done|]. split; [right; left; eauto|done].
    + destruct Hr as [E2 Hnf]. exists s, h, (app (committed cn)). rewrite E2, Ed. do 4 (split; [done|]). split; [right; left; eauto|done].
  - pose proof (reconcile_ok fl false cn1 s2 s2 (h ++ [e]) Hok2 ltac:(done)) as Hr.
    destruct (reconcile_after_apply fl false (cn1, s2)) as [[[]|x| |] [cn2 s3]] eqn:Er; [| |done..].
    + destruct Hr as [-> ->]. exists s2, (h ++ [e]), a. cbn. do 4 (split; [done|]). split; [eauto|done].
    + exfalso. unfold reconcile_after_apply in Er. revert Er. xstep. unfold is_autocommit. rewrite Htx.
      rewrite bool_decide_eq_true_2 by done. cbn [negb]. xstep. rewrite Htx, bool_decide_eq_true_2 by done. by xstep.
  - pose proof (reconcile_ok fl true cn1 s1 s2 (h ++ [e]) Hok2 ltac:(done)) as Hr.
    destruct (reconcile_after_apply fl true (cn1, s1)) as [[[]|x| |] [cn2 s3]]; [| |done..].
    + destruct Hr as [-> ->]. exists s2, (h ++ [e]), a. cbn. do 4 (split; [done|]). split; [right; right; eauto|]. intros ->. done.
    + destruct Hr as [E2 Hnf]. exists s2, (h ++ [e]), a. rewrite E2. do 4 (split; [done|]). split; [right; right; eauto|done].
Qed.

(** The outcome of a request against the abstract one [(sr, h1, a1)]. *)
Definition request_ok {E T} (fl : Faults) (engine : ExternalError -> E) (cn : Conn A) (s : Stored) (h : list Done)
    (sr : Res E T) (h1 : list Done) (a1 : A) (r : Res E T) (poisoned : bool) (cn' : Conn A) (s' : Stored) : Prop :=
  exists s1 h', (store_ok (committed cn') s1 h' /\ same_config s s1) /\
    (poisoned = false -> tx cn' = None /\ s' = s1) /\ (poisoned = true -> r = Err (engine WriterPoisoned)) /\
    ((r = sr /\ h' = h1 /\ app (committed cn') = a1) \/
     ((exists err, r = Err err) /\ h' = h /\ app (committed cn') = app (committed cn)) \/
     ((exists err, r = Err err) /\ f_commit fl = Some TookEffect /\ h' = h1 /\ app (committed cn') = a1)) /\
    (fl = no_faults -> poisoned = false /\ r = sr /\ h' = h1 /\ app (committed cn') = a1).

(** Requests that leave the database as it was: a retry, or an error. *)
Lemma request_retry {E T} fl (engine : ExternalError -> E) (m : St E (Conn A * Stored) T) cn s h o :
  store_ok (committed cn) s h -> tx cn = None -> m (cn, s) = (Ok o, (cn, s)) ->
  let '(r, poisoned, (cn', s')) := run_thunk fl engine m (cn, s) in
  request_ok fl engine cn s h (Ok o) h (app (committed cn)) r poisoned cn' s'.
Proof.
  intros Hok Htx Hm. unfold run_thunk. rewrite Hm.
  assert (reconcile_after_apply fl false (cn, s) = (Ok tt, (cn, s))) as Erec.
  { unfold reconcile_after_apply, is_autocommit. xstep. rewrite Htx, bool_decide_eq_true_2 by done. cbn [negb]. xstep.
    by rewrite Htx, bool_decide_eq_true_2. }
  rewrite Erec. exists s, h. do 3 (split; [done|]). split; [by left|done].
Qed.

Lemma request_err {E T} fl (engine : ExternalError -> E) (m : St E (Conn A * Stored) T) cn s h err0 :
  store_ok (committed cn) s h ->
  (let '(r, (cn1, s1)) := m (cn, s) in
   refused fl cn s err0 r cn1 s1) ->
  let '(r, poisoned, (cn', s')) := run_thunk fl engine m (cn, s) in
  request_ok fl engine cn s h (Err err0) h (app (committed cn)) r poisoned cn' s'.
Proof.
  intros Hok Hm. unfold run_thunk. destruct (m (cn, s)) as [r [cn1 s1]]. destruct Hm as (((err & ->) & Ed & ->) & Hno).
  pose proof (reconcile_ok fl true cn1 s s h ltac:(by rewrite Ed) ltac:(done)) as Hr.
  destruct (reconcile_after_apply fl true (cn1, s)) as [[[]|x| |] [cn2 s3]]; [| |done..].
  - destruct Hr as [-> ->]. exists s, h. cbn [committed tx]. rewrite Ed. do 3 (split; [done|]). split; [right; left; eauto|].
    intros Hf. by rewrite (Hno Hf).
  - destruct Hr as [E2 Hnf]. exists s, h. rewrite E2, Ed. do 3 (split; [done|]). split; [right; left; eauto|done].
Qed.

Lemma request_new {E T} fl (engine : ExternalError -> E) (m : St E (Conn A * Stored) T) cn s h out e a :
  store_ok (committed cn) s h ->
  (let '(r, (cn1, s1)) := m (cn, s) in landed fl cn s h out e a r cn1 s1 /\ (fl = no_faults -> r = Ok out)) ->
  let '(r, poisoned, (cn', s')) := run_thunk fl engine m (cn, s) in
  request_ok fl engine cn s h (Ok out) (h ++ [e]) a r poisoned cn' s'.
Proof.
  intros Hok Hm. pose proof (run_thunk_landed fl engine m cn s h out e a Hok) as Hr.
  destruct (m (cn, s)) as [r0 [cn0 s0]] eqn:Em. destruct Hm as [Hl Hno]. specialize (Hr Hl).
  destruct (run_thunk fl engine m (cn, s)) as [[r p] [cn' s']]. destruct Hr as (s1 & h' & a' & H1 & H2 & H3 & H4 & H5 & H6).
  exists s1, h'. rewrite H2. do 3 (split; [done|]). split; [done|]. intros Hf. destruct (H6 Hf) as [-> ->]. cbn in *.
  rewrite (Hno Hf) in *. split; [done|]. split; [done|]. destruct H5 as [(_ & ? & ?)|[([? ?] & _)|([? ?] & _)]]; done.
Qed.

(** What a new operation leaves behind. *)
Definition new_ok (fl : Faults) (c : ExternalCommit C) (op : O) (cn : Conn A) (s : Stored) (h : list Done)
    (r : Res (ExternalApplyError OpE) (ApplyOutcome Out)) (cn' : Conn A) (s' : Stored) : Prop :=
  match op_apply op (app (committed cn)) with
  | (inl o, a) =>
      match encode_receipt o with
      | Some rcp =>
          if max_receipt_bytes s <? zlen rcp
          then refused fl cn s (Engine (ReceiptTooLarge (zlen rcp) (max_receipt_bytes s))) r cn' s'
          else match ser_coord (coordinate c) with
               | Some _ => landed fl cn s h (Applied o) (mkDone c Operation rcp) a r cn' s' /\ (fl = no_faults -> r = Ok (Applied o))
               | None => refused fl cn s (Engine Serialization) r cn' s'
               end
      | None => refused fl cn s (Engine Serialization) r cn' s'
      end
  | (inr e, _) => refused fl cn s (OperationError e) r cn' s'
  end.

Lemma new_ok_fault fl c op cn s h err (cn' : Conn A) s' :
  committed cn' = committed cn -> s' = s -> fl <> no_faults -> new_ok fl c op cn s h (Err err) cn' s'.
Proof.
  intros E1 E2 Hf. assert (forall e, refused fl cn s e (Err err : Res _ (ApplyOutcome Out)) cn' s') as Hr.
  { intros e. split; [eauto|done]. }
  unfold new_ok. destruct (op_apply _ _) as [[o|e] a]; [|done]. destruct (encode_receipt o); [|done].
  destruct (_ <? _); [done|]. destruct (ser_coord _); [|done]. split; [left; eauto|done].
Qed.

Lemma drop_committed fl cn : committed (drop_tx fl cn) = committed (A := A) cn.
Proof. unfold drop_tx. by destruct (f_drop fl). Qed.

(** The body of a new operation inside its transaction. *)
Lemma apply_new_ok fl c op cn s h :
  store_ok (committed cn) s h -> tx cn = Some (committed cn) -> sequence c = next_seq s h -> commit_ok c ->
  let '(r, (cn', s')) := scoped fl (apply_new fl c op) (cn, s) in new_ok fl c op cn s h r cn' s'.
Proof.
  intros Hok Htx Hseq Hc. unfold scoped at 1, apply_new. xstep.
  destruct (f_auth fl) eqn:Efa; xstep; [apply new_ok_fault; [by rewrite drop_committed|done|by intros ->]|].
  assert (view cn = committed cn) as Hview by (unfold view; by rewrite Htx). rewrite !Hview.
  destruct (op_apply op (app (committed cn))) as [ro a] eqn:Eop. xstep. rewrite ?Hview.
  destruct (f_unauth fl) eqn:Efu; xstep; [apply new_ok_fault; [by rewrite drop_committed|done|by intros ->]|].
  unfold new_ok. rewrite Eop.
  destruct ro as [o|e]; xstep; [|split; [split; [eauto|by rewrite drop_committed]|done]].
  destruct (encode_receipt o) as [rcp|] eqn:Ee; xstep; [|split; [split; [eauto|by rewrite drop_committed]|done]].
  destruct (Z.ltb_spec (max_receipt_bytes s) (zlen rcp)) as [Hbig|Hsmall]; xstep; [split; [split; [eauto|by rewrite drop_committed]|done]|].
  pose proof (store_and_commit_ok fl (@Engine OpE) (Applied o) (mkConn (committed cn) (Some (set_app a (committed cn)))) s h c Operation rcp a
    Hok eq_refl Hseq ltac:(split; [done|done|cbn; rewrite (receipt_round _ _ Ee); eauto])) as Hs.
  unfold scoped in Hs. exact Hs.
Qed.

Lemma begin_new_ok fl c op cn s h :
  store_ok (committed cn) s h -> tx cn = None -> sequence c = next_seq s h -> commit_ok c ->
  let '(r, (cn', s')) := (begin fl (Engine Sqlite);; scoped fl (apply_new fl c op)) (cn, s) in new_ok fl c op cn s h r cn' s'.
Proof.
  intros Hok Htx Hseq Hc. unfold begin, is_autocommit. unfold mbind at 1, st_bind at 1. cbn [fst snd].
  rewrite Htx, bool_decide_eq_true_2 by done. rewrite orb_false_r. destruct (f_begin fl) eqn:Ef; cbv iota.
  - apply new_ok_fault; [done|done|by intros ->].
  - exact (apply_new_ok fl c op (mkConn (committed cn) (Some (committed cn))) s h Hok eq_refl Hseq Hc).
Qed.

(** The classes of the abstract machine. *)
Lemma spec_class_result s h c k :
  dense s h -> match spec_class s h c k with Ok (Some e) => e ∈ h /\ d_commit e = c /\ d_kind e = k | Ok None => sequence c = next_seq s h
               | Err _ => True | _ => config_ok s -> False end.
Proof.
  intros Hd. unfold spec_class. destruct (Z.eqb_spec (sequence c) (next_seq s h)); [done|].
  destruct (Z.ltb_spec (next_seq s h) (sequence c)); [done|]. destruct (bool_decide (h = [])) eqn:Eh; [done|].
  destruct (Z.ltb_spec (sequence c) (oldest s h)); [done|].
  destruct (h !! Z.to_nat (sequence c - initial_sequence s)) as [e|] eqn:El.
  - destruct (decide (d_commit e = c)) as [Ec|Ec]; [rewrite (bool_decide_eq_true_2 _ Ec)|by rewrite (bool_decide_eq_false_2 _ Ec)].
    destruct (decide (d_kind e = k)) as [Ek|Ek]; [rewrite (bool_decide_eq_true_2 _ Ek)|by rewrite (bool_decide_eq_false_2 _ Ek)].
    split; [by eapply list_elem_of_lookup_2|done].
  - intros Hc. destruct (oldest_range s h Hc) as [[Ho _] _]. apply lookup_ge_None in El. unfold next_seq, zlen in *. lia.
Qed.

(** [apply_committed] implements the abstract application, whatever fails. *)
Lemma apply_committed_ok fl c op cn s h :
  store_ok (committed cn) s h -> tx cn = None -> commit_ok c ->
  let '(r, poisoned, (cn', s')) := apply_committed fl c op (cn, s) in
  let '(sr, h1, a1) := spec_apply s h (app (committed cn)) c op in
  request_ok fl Engine cn s h sr h1 a1 r poisoned cn' s'.
Proof.
  intros Hok Htx Hc. assert (view cn = committed cn) as Hview by (unfold view; by rewrite Htx).
  pose proof (classify_ok (committed cn) s h c Operation Hok (cm_sequence _ Hc)) as Hcl. cbn [codec_of] in Hcl.
  pose proof (spec_class_result s h c Operation (so_dense _ _ _ Hok)) as Hsc. unfold apply_committed, spec_apply.
  destruct (spec_class s h c Operation) as [[e|]|err| |]; cbn in Hcl; [| | |by destruct (Hsc (so_config _ _ _ Hok))..].
  - destruct Hsc as (He & _ & Hk). pose proof (so_done _ _ _ Hok) as Hdn. rewrite Forall_forall in Hdn.
    destruct (Hdn e He) as [_ _ Hr]. rewrite Hk in Hr. destruct Hr as [o Ho]. rewrite Ho.
    apply request_retry; [done|done|]. unfold apply_operation. xstep. rewrite Hview, Hcl. xstep. cbn. by rewrite Ho.
  - assert (apply_operation fl c op (cn, s) = (begin fl (Engine Sqlite);; scoped fl (apply_new fl c op)) (cn, s)) as Erun
      by (unfold apply_operation; xstep; by rewrite Hview, Hcl).
    pose proof (begin_new_ok fl c op cn s h Hok Htx Hsc Hc) as Hn. rewrite <- Erun in Hn. unfold new_ok in Hn.
    destruct (op_apply op (app (committed cn))) as [[o|e] a]; [|by apply request_err].
    destruct (encode_receipt o) as [rcp|]; [|by apply request_err].
    destruct (max_receipt_bytes s <? zlen rcp); [by apply request_err|].
    destruct (ser_coord _); [by apply request_new|by apply request_err].
  - apply request_err; [done|]. unfold apply_operation. xstep. rewrite Hview, Hcl. cbn. unfold refused. eauto 10.
Qed.

(** [advance_committed] implements the abstract advance. *)
Lemma advance_committed_ok fl c cn s h :
  store_ok (committed cn) s h -> tx cn = None -> commit_ok c ->
  let '(r, poisoned, (cn', s')) := advance_committed fl c (cn, s) in
  let '(sr, h1) := spec_advance s h c in
  request_ok fl id cn s h sr h1 (app (committed cn)) r poisoned cn' s'.
Proof.
  intros Hok Htx Hc. assert (view cn = committed cn) as Hview by (unfold view; by rewrite Htx).
  pose proof (classify_ok (committed cn) s h c Advance Hok (cm_sequence _ Hc)) as Hcl. cbn [codec_of] in Hcl.
  pose proof (spec_class_result s h c Advance (so_dense _ _ _ Hok)) as Hsc. unfold advance_committed, spec_advance.
  destruct (spec_class s h c Advance) as [[e|]|err| |]; cbn in Hcl; [| | |by destruct (Hsc (so_config _ _ _ Hok))..].
  - apply request_retry; [done|done|]. unfold apply_advance. xstep. by rewrite Hview, Hcl.
  - assert (apply_advance fl c (cn, s) =
      (begin fl Sqlite;; scoped fl (store_and_commit fl id c Advance ADVANCE_RECEIPT_CODEC unit_bytes (Applied tt))) (cn, s)) as Erun
      by (unfold apply_advance; xstep; by rewrite Hview, Hcl).
    assert (done_ok s (mkDone c Advance unit_bytes)) as Hdone.
    { split; [done| |done]. cbn. rewrite unit_bytes_empty.
      destruct (so_config _ _ _ Hok) as [_ _ _ Hb _]. change (zlen []) with 0. lia. }
    pose proof (store_and_commit_ok fl id (Applied tt) (mkConn (committed cn) (Some (committed cn))) s h c Advance unit_bytes
      (app (committed cn)) Hok ltac:(by destruct (committed cn)) Hsc Hdone) as Hs. cbn [codec_of] in Hs.
    unfold begin, is_autocommit, mbind at 1, st_bind at 1 in Erun. cbn [fst snd] in Erun.
    rewrite Htx, bool_decide_eq_true_2, orb_false_r in Erun by done.
    destruct (ser_coord _); [apply request_new|apply request_err]; try done; rewrite Erun; destruct (f_begin fl) eqn:Ef; try exact Hs.
    + split; [left; eauto|by intros ->].
    + split; [eauto|by intros ->].
  - apply request_err; [done|]. unfold apply_advance. xstep. rewrite Hview, Hcl. cbn. unfold refused. eauto 10.
Qed.

End ExtStoreSpec.
