(* ===== verification/ExtSound.v ===== *)
(** Loading and validating accept a database exactly when it stores a history: a
    database that passes holds a dense history whose retained suffix is complete,
    whoever wrote it. *)
From stdpp Require Import base gmap strings list numbers sorting.
From Stdlib Require Import Strings.Byte.
From S2P Require Import Prelude Text ExtBase ExtStore ExtStoreSpec.

#[local] Open Scope Z_scope.

Create HintDb settle.

Section ExtSound.
Context {C A O Out OpE : Type} `{EqDecision C} `{ExtPrims C, !ExtPrimsOk C} `{SqlOperation A O Out OpE, !SqlOperationOk A O Out OpE}.
#[local] Abbreviation Stored := (StoredState C).

(** ** What successful decoding says *)
Lemma last_cols_ok row a f : last_cols row a f -> commit_ok (C := C) (commit a) /\ is_u64 f.
Proof. intros [(? & _ & [? _]) _ [_ ?] _ (? & _ & [? _]) (? & _ & [? _]) _ (? & _ & [? _])]. by split; [split|]. Qed.

Lemma load_config (d : Db A) s : load_state d = Ok s -> receipt_codec s = RECEIPT_CODEC -> config_ok (C := C) s.
Proof.
  intros (row & _ & [_ _ [Q3 _] [Q4 _] _ _ _ _] & [L1 L2] & _)%load_iff Hcd. by split.
Qed.

Lemma decode_row_inv q row r :
  is_u64 q -> decode_receipt_row q row = Ok r ->
  commit_ok (C := C) (r_commit r) /\ sequence (r_commit r) = q /\ r_receipt r = k_receipt row /\ r_digest r = sha256 (r_receipt r).
Proof.
  unfold decode_receipt_row. intros Hq Hl. res_inv Hl. injection Hl as <-. cbn.
  repeat match goal with
  | X : decode_u64 _ = Ok _ |- _ => apply decode_u64_inv in X as [? _]
  | X : decode_digest _ = Ok _ |- _ => apply decode_digest_inv in X as [-> ?]
  end. apply negb_false_iff, bool_decide_eq_true in Hb. by split; [split|].
Qed.

Lemma load_receipt_inv (d : Db A) q m r :
  load_receipt d q m = Ok (Some r) ->
  exists rows row, receipts_table d = Some rows /\ rows !! encode_u64 q = Some row /\ zlen (k_receipt row) <= m /\
    decode_receipt_row (C := C) q row = Ok r.
Proof.
  unfold load_receipt. destruct (receipts_table d) as [rows|]; [|done]. destruct (rows !! _) as [row|] eqn:Er; [|done].
  destruct (Z.ltb_spec m (zlen (k_receipt row))); [done|]. intros Hl. res_inv Hl. injection Hl as <-. eauto 10.
Qed.

(** One validated receipt. *)
Record valid_at (d : Db A) (s : Stored) (q : Z) (r : StoredReceipt C) : Prop := {
  va_load : load_receipt d q (max_receipt_bytes s) = Ok (Some r);
  va_codec : r_codec r = match r_kind r with Operation => receipt_codec s | Advance => ADVANCE_RECEIPT_CODEC end;
  va_receipt : match r_kind r with Operation => is_Some (decode_receipt (r_receipt r)) | Advance => r_receipt r = unit_bytes end;
}.

Lemma validate_receipt_inv d s q key :
  validate_receipt d s q key = Ok tt -> is_u64 q /\ key = encode_u64 q /\ exists r, valid_at d s q r.
Proof.
  unfold validate_receipt. intros Hl. res_inv Hl. apply decode_u64_inv in Ha as [Hu ->].
  apply negb_false_iff, Z.eqb_eq in Hb as ->. split; [done|]. split; [done|].
  destruct a0 as [r|]; [|done]. injection Ha1 as ->. exists a1. apply negb_false_iff, String.eqb_eq in Hb0.
  split; [done|done|]. destruct (r_kind a1); [destruct (decode_receipt _); [eauto|done]|].
  destruct (bool_decide _) eqn:Eb; [by apply bool_decide_eq_true in Eb|done].
Qed.

Lemma validate_suffix_inv d s keys : forall q,
  validate_suffix d s q keys = Ok tt ->
  keys = encode_u64 <$> seqZ q (zlen keys) /\ forall p, q <= p < q + zlen keys -> is_u64 p /\ exists r, valid_at d s p r.
Proof.
  induction keys as [|key keys IH]; intros q; cbn [validate_suffix]; [split; [done|intros p; change (zlen []) with 0; lia]|].
  intros Hl. res_inv Hl. destruct a. apply validate_receipt_inv in Ha as (Hu & -> & Hr). apply IH in Hl as [Hk Hall].
  rewrite zlen_cons. pose proof (zlen_nonneg keys). rewrite seqZ_cons by lia. split.
  - rewrite fmap_cons. f_equal. rewrite Hk at 1. do 2 f_equal; lia.
  - intros p Hp. destruct (decide (p = q)) as [->|]; [done|]. apply Hall. lia.
Qed.

(** ** The history of a database that passes *)
Section History.
Context (d : Db A) (s : Stored) (newest : ExternalApplied C) (floor : Z).

(** The entry at [q]: the one of its receipt, a placeholder where none is kept. *)
Definition done_at (q : Z) : Done :=
  match (if floor <=? q then load_receipt d q (max_receipt_bytes s) else Ok None) with
  | Ok (Some r) => mkDone (r_commit r) (r_kind r) (r_receipt r)
  | _ => mkDone (mkCommit q (coordinate (commit newest)) (replicate 32 Byte.x00) 0 0) Advance unit_bytes
  end.
Definition history_of : list Done :=
  done_at <$> seqZ (initial_sequence s) (sequence (commit newest) - initial_sequence s + 1).

Context (Hload : load_state d = Ok s) (Hcd : receipt_codec s = RECEIPT_CODEC).
Context (Hval : forall q, floor <= q <= sequence (commit newest) -> is_u64 q /\ exists r, valid_at d s q r).

Lemma done_at_kept q r : floor <= q -> valid_at d s q r -> done_at q = mkDone (r_commit r) (r_kind r) (r_receipt r).
Proof. intros Hq [Hl _ _]. unfold done_at. by rewrite (proj2 (Z.leb_le _ _)), Hl by done. Qed.

Lemma receipt_of_kept q r : is_u64 q -> floor <= q -> valid_at d s q r -> receipt_of (done_at q) = r.
Proof.
  intros Hu Hq Hv. rewrite (done_at_kept q r) by done. destruct Hv as [Hl Hc _].
  apply load_receipt_inv in Hl as (rows & row & _ & _ & _ & Hr). apply decode_row_inv in Hr as (_ & _ & _ & Hd); [|done].
  unfold receipt_of. cbn. destruct r as [c k cd rc dg]. cbn in *. subst dg cd. f_equal. destruct k; cbn; congruence.
Qed.

Lemma done_at_seq q : q <= sequence (commit newest) -> seq_of (done_at q) = q.
Proof.
  intros Hq. destruct (Z.le_gt_cases floor q) as [Hge|Hlt].
  - destruct (Hval q) as (Hu & r & Hv); [lia|]. rewrite (done_at_kept q r) by done. destruct Hv as [Hl _ _].
    apply load_receipt_inv in Hl as (rows & row & _ & _ & _ & Hr). by apply decode_row_inv in Hr as (_ & ? & _).
  - unfold done_at. by rewrite (proj2 (Z.leb_gt _ _)) by done.
Qed.

Lemma done_at_ok q : is_u64 q -> q <= sequence (commit newest) -> done_ok s (done_at q).
Proof.
  intros Hu Hq. destruct (Z.le_gt_cases floor q) as [Hge|Hlt].
  - destruct (Hval q) as (_ & r & Hv); [lia|]. rewrite (done_at_kept q r) by done. destruct Hv as [Hl _ Hrc].
    apply load_receipt_inv in Hl as (rows & row & _ & _ & Hz & Hr). apply decode_row_inv in Hr as (? & ? & Er & _); [|done].
    split; cbn; [done|by rewrite Er|done].
  - unfold done_at. rewrite (proj2 (Z.leb_gt _ _)) by done.
    destruct (load_config _ _ Hload Hcd) as [_ _ _ Hb _]. split; [by split| |done]. cbn. rewrite unit_bytes_empty. change (zlen []) with 0. lia.
Qed.

Lemma history_elem e : e ∈ history_of <-> exists q, e = done_at q /\ initial_sequence s <= q <= sequence (commit newest).
Proof.
  unfold history_of. rewrite list_elem_of_fmap. setoid_rewrite elem_of_seqZ.
  split; intros (q & -> & Hq); exists q; (split; [done|lia]).
Qed.

Lemma history_dense : dense s history_of.
Proof.
  intros i e. unfold history_of. rewrite list_lookup_fmap. intros (q & Hq & ->)%fmap_Some.
  apply lookup_seqZ in Hq as [-> Hi]. apply done_at_seq. lia.
Qed.

Lemma history_next : initial_sequence s <= sequence (commit newest) -> next_seq s history_of = sequence (commit newest) + 1.
Proof. intros Hle. unfold next_seq, history_of, zlen. rewrite length_fmap, length_seqZ. lia. Qed.

Lemma history_last : initial_sequence s <= sequence (commit newest) -> last history_of = Some (done_at (sequence (commit newest))).
Proof.
  intros Hle. unfold history_of. rewrite fmap_last, last_lookup, length_seqZ.
  rewrite (proj2 (lookup_seqZ _ _ _ (sequence (commit newest)))) by lia. done.
Qed.
End History.

(** What [validate_receipts] checked when there is a frontier. *)
Lemma validate_inv d s l f :
  validate_receipts d s = Ok tt -> last_applied s = Some l -> receipt_floor s = Some f -> limits_ok s ->
  f <= sequence (commit l) /\ f = floor_of s (sequence (commit l)) /\
  (exists rows, receipts_table d = Some rows /\ sequences rows = encode_u64 <$> seqZ f (sequence (commit l) - f + 1)) /\
  (forall q, f <= q <= sequence (commit l) -> is_u64 q /\ exists r, valid_at d s q r) /\
  exists r, load_receipt d (sequence (commit l)) (max_receipt_bytes s) = Ok (Some r) /\
    r_commit r = commit l /\ r_kind r = kind l /\ r_digest r = receipt_digest l.
Proof.
  unfold validate_receipts, limits_ok, MAX_RECEIPT_RETENTION. intros Hv Ea Ef Hlim. rewrite Ea, Ef in Hv. cbv zeta in Hv. res_inv Hv.
  apply Z.ltb_ge in Hb, Hb0. apply negb_false_iff, Z.eqb_eq in Hb1, Hb2.
  destruct (receipts_table d) as [rows|] eqn:Er; [injection Ha as ->|done]. destruct a0. destruct a1 as [r|]; [injection Ha2 as ->|done].
  assert (sequence (commit l) - f + 1 <= receipt_retention s) as Hsmall
    by (rewrite Hb1; unfold floor_of, sat_sub; lia).
  rewrite wrap64_small in Hb2 by (unfold is_u64; lia).
  apply validate_suffix_inv in Ha0 as [Hk Hall]. rewrite Hb2 in Hk, Hall.
  apply orb_false_iff in Hb3 as [[H1 H2]%orb_false_iff H3]. apply negb_false_iff, bool_decide_eq_true in H1, H2, H3.
  split; [done|]. split; [done|]. split; [eauto|]. split; [intros q Hq; apply Hall; lia|eauto].
Qed.

Lemma validate_sound (d : Db A) s :
  load_state d = Ok s -> validate_receipts d s = Ok tt -> receipt_codec s = RECEIPT_CODEC -> exists h, store_ok (C := C) d s h.
Proof.
  intros Hl Hv Hcd. pose proof (load_config _ _ Hl Hcd) as Hc. pose proof Hl as (row & _ & _ & Hlim & Hrl)%load_iff. unfold row_last in Hrl.
  destruct (last_applied s) as [l|] eqn:Ea, (receipt_floor s) as [f|] eqn:Ef; try done; cycle 1.
  { unfold validate_receipts in Hv. rewrite Ea, Ef in Hv. res_inv Hv. destruct (receipts_table d) as [rows|] eqn:Er; [injection Ha as ->|done].
    destruct (bool_decide _) eqn:Eb; [|done]. apply bool_decide_eq_true in Eb as ->. exists []. split; try done; [by apply load_row|].
    exists ∅. split; [done|]. split; [intros key row0; by rewrite lookup_empty|intros e []%not_elem_of_nil]. }
  destruct (validate_inv d s l f Hv Ea Ef Hlim) as (Hle & Hf & (rows & Er & Hkeys) & Hall & r & Hr & Er1 & Er2 & Er3).
  apply last_cols_ok in Hrl as [Hcm _].
  assert (initial_sequence s <= sequence (commit l)) as Hin by (rewrite Hf in Hle; unfold floor_of in Hle; lia).
  set (h := history_of d s l f). pose proof (history_next d s l f Hin) as Hnext. fold h in Hnext.
  assert (oldest s h = f) as Hold by (rewrite oldest_floor, Hnext, Hf by done; f_equal; lia).
  assert (valid_at d s (sequence (commit l)) r) as Hvr.
  { destruct (Hall (sequence (commit l))) as (_ & r' & Hv'); [lia|]. pose proof (va_load _ _ _ _ Hv') as Hx. rewrite Hr in Hx. by injection Hx as ->. }
  assert (applied_of (done_at d s l f (sequence (commit l))) = l) as Hlast.
  { rewrite (done_at_kept d s l f _ r) by done. unfold applied_of. cbn. apply load_receipt_inv in Hr as (? & ? & _ & _ & _ & Hd).
    apply decode_row_inv in Hd as (_ & _ & _ & Ed); [|by destruct Hcm]. rewrite <- Ed, Er1, Er2, Er3. by destruct l. }
  exists h. split.
  - done.
  - by apply history_dense.
  - apply Forall_forall. intros e (q & -> & Hq)%history_elem. apply done_at_ok; [done..| |lia].
    destruct Hc as [Hc _ _ _ _], Hcm as [Hm _ _ _]. unfold is_u64 in *. lia.
  - unfold h. rewrite history_last by done. cbn. by rewrite Hlast.
  - unfold h. rewrite history_last by done. cbn. fold h. by rewrite Hold.
  - by apply load_row.
  - exists rows. split; [done|]. rewrite Hold. split.
    + intros key row0 Hrow.
      assert (key ∈ sequences rows) as Hin2.
      { unfold sequences. rewrite merge_sort_Permutation. apply list_elem_of_fmap. exists (key, row0). split; [done|]. by apply elem_of_map_to_list. }
      rewrite Hkeys in Hin2. apply list_elem_of_fmap in Hin2 as (q & -> & Hq%elem_of_seqZ).
      destruct (Hall q) as (Hu & rq & Hvq); [lia|]. exists (done_at d s l f q). rewrite (done_at_seq d s l f) by (done || lia).
      split; [apply history_elem; exists q; split; [done|rewrite Hf in Hq; unfold floor_of in Hq; lia]|]. split; [done|]. split; [|lia].
      assert (done_ok s (done_at d s l f q)) as [Hcq _ _] by (by apply done_at_ok; lia || done).
      apply (decode_row_iff s row0 _ Hcq). rewrite (done_at_seq d s l f), (receipt_of_kept d s l f Hcd q rq) by (done || lia).
      destruct Hvq as [Hq2 _ _]. apply load_receipt_inv in Hq2 as (rows' & row' & E1 & E2 & E3 & E4). assert (rows' = rows) as -> by congruence.
      assert (row' = row0) as -> by congruence. done.
    + intros e (q & -> & Hq)%history_elem Hge. rewrite (done_at_seq d s l f) in * by (done || lia).
      destruct (Hall q) as (_ & rq & [Hq2 _ _]); [lia|]. apply load_receipt_inv in Hq2 as (rows' & row' & E1 & E2 & _). assert (rows' = rows) as -> by congruence. eauto.
Qed.

(** C40: Loading and validating accept, with the receipt codec of the operations,
    exactly the databases whose metadata row has the format, the configuration and
    the frontier of a dense history of commits and whose receipts table holds one
    well-formed row for each entry of its retained suffix and nothing else. *)
Lemma accepts_iff (d : Db A) s :
  (load_state d = Ok s /\ validate_receipts d s = Ok tt /\ receipt_codec s = RECEIPT_CODEC) <-> exists h, store_ok (C := C) d s h.
Proof.
  split; [intros (? & ? & ?); by apply validate_sound|]. intros [h Hok].
  split; [by eapply so_load|]. split; [by eapply validate_ok|]. by destruct (so_config _ _ _ Hok).
Qed.
(** ** Whatever a database holds, reading it does not panic. *)
Lemma decode_u64_settled l : settled (decode_u64 l).
Proof. unfold decode_u64. by destruct (_ =? _). Qed.
Lemma decode_digest_settled l : settled (decode_digest l).
Proof. unfold decode_digest. by destruct (_ =? _). Qed.
Lemma from_i64_settled z : settled (from_i64 z).
Proof. unfold from_i64. by repeat destruct (_ =? _). Qed.
Lemma deserialize_settled l : settled (deserialize_exact (C := C) l).
Proof. unfold deserialize_exact. destruct (de_coord l) as [[c n]|]; [by destruct (_ =? _)|done]. Qed.

#[local] Hint Resolve decode_u64_settled decode_digest_settled from_i64_settled deserialize_settled : settle.
#[local] Ltac settle := repeat (cbn [settled]; first
  [ done | solve [auto with settle] | apply settled_bind; [|intros ? ?] | case_match ]).

Lemma decode_last_settled row : last_values_present row = replicate 8 true -> settled (decode_last (C := C) row).
Proof.
  unfold last_values_present. intros Hp. injection Hp as H1 H2 H3 H4 H5 H6 H7 H8. unfold decode_last.
  repeat match goal with X : bool_decide (is_Some _) = true |- _ => apply bool_decide_eq_true in X as [? ->] end. step_res. settle.
Qed.

Lemma all_present l : existsb id l && existsb negb l = false -> default false (head l) = true -> l = replicate (length l) true.
Proof.
  destruct l as [|b l]; [done|]. cbn. intros Hx ->. cbn in Hx. f_equal.
  induction l as [|c l IH]; [done|]. cbn in *. destruct c; [f_equal; by apply IH|done].
Qed.

Lemma load_settled (d : Db A) : settled (load_state (C := C) d).
Proof.
  unfold load_state, require_metadata_table. apply settled_bind; [by destruct (metadata_table_exists d)|intros _ _].
  apply settled_bind; [by destruct (meta_table d) as [[]|]|intros row _]. destruct (negb _); [done|]. destruct (negb _); [done|].
  do 4 (apply settled_bind; [apply decode_u64_settled|intros ? _]). destruct (negb _); [done|]. destruct (negb _); [done|].
  cbv zeta. destruct (existsb id _ && _) eqn:Ee; [done|].
  apply settled_bind; [|by intros []]. destruct (default false _) eqn:Ed; [|done].
  apply settled_bind; [|by intros []]. apply decode_last_settled. exact (all_present _ Ee Ed).
Qed.

Lemma load_receipt_settled (d : Db A) q m : settled (load_receipt (C := C) d q m).
Proof. unfold load_receipt, decode_receipt_row. settle. Qed.
#[local] Hint Resolve load_receipt_settled : settle.

Lemma validate_suffix_settled (d : Db A) s keys : forall q, settled (validate_suffix (C := C) d s q keys).
Proof. induction keys as [|key keys IH]; intros q; cbn [validate_suffix]; [done|]. unfold validate_receipt. settle. Qed.
#[local] Hint Resolve validate_suffix_settled : settle.

Lemma validate_settled (d : Db A) s : settled (validate_receipts (C := C) d s).
Proof. unfold validate_receipts. cbv zeta. settle. Qed.
End ExtSound.
