(* ===== verification/ExtEngine.v ===== *)
(** The external state machine as an engine: opening, the writer thread,
    snapshots and shutdown ([hiqlite/src/external_state_machine.rs]).

    The directory of an engine is the [dirty] marker, the lock on [owner.lock],
    the database, and the files of snapshots.  A database file that SQLite cannot
    read is [Some None].  The writer serves its queue one request at a time. *)
From stdpp Require Import base gmap strings list numbers.
From Stdlib Require Import Strings.Byte.
From S2P Require Import Prelude Text ExtBase ExtStore.

#[local] Open Scope Z_scope.

Record ExternalSnapshotEvidence (C : Type) : Type := mkEvidence {
  format_version : Z;
  snapshot_format : string;
  e_snapshot_id : string;
  e_application_id : string;
  e_initial_sequence : Z;
  e_initial_state_schema : Z;
  e_receipt_codec : string;
  checkpoint : option (ExternalApplied C);
  e_receipt_floor : option Z;
  e_receipt_retention : Z;
  e_max_receipt_bytes : Z;
  sqlite_page_size : Z;
  sqlite_bytes : Z;
  sqlite_sha256 : list byte;
}.
Arguments mkEvidence {C}. Arguments format_version {C}. Arguments snapshot_format {C}. Arguments e_snapshot_id {C}.
Arguments e_application_id {C}. Arguments e_initial_sequence {C}. Arguments e_initial_state_schema {C}.
Arguments e_receipt_codec {C}. Arguments checkpoint {C}. Arguments e_receipt_floor {C}. Arguments e_receipt_retention {C}.
Arguments e_max_receipt_bytes {C}. Arguments sqlite_page_size {C}. Arguments sqlite_bytes {C}. Arguments sqlite_sha256 {C}.
#[export] Instance ExternalSnapshotEvidence_eqdec C `{EqDecision C} : EqDecision (ExternalSnapshotEvidence C).
Proof. solve_decision. Defined.

(** SQLite's database files and the uuid parser: parameters.  [image] is what
    Online Backup writes, [open_image] what SQLite reads from a file. *)
Class SqliteFiles (A : Type) : Type := {
  empty_app : A;
  image : Db A -> list byte;
  open_image : list byte -> option (Db A);
  quick_check : list byte -> bool;
  page_size : list byte -> Z;
  parse_uuid : string -> option string;
}.
(** A backup is read back as the database it was taken of, and is intact. *)
Class SqliteFilesOk (A : Type) `{SqliteFiles A} : Prop := {
  open_image_round : forall d, open_image (image d) = Some d;
  quick_check_image : forall d, quick_check (image d) = true;
}.

Inductive FileEntry : Type := Regular (bytes : list byte) | NotRegular.

Record Disk (A : Type) : Type := mkDisk {
  owner_locked : bool;
  dirty : option Marker;
  dbfile : option (option (Db A));
  files : gmap string FileEntry;
}.
Arguments mkDisk {A}. Arguments owner_locked {A}. Arguments dirty {A}. Arguments dbfile {A}. Arguments files {A}.

Definition set_lock {A : Type} (b : bool) (k : Disk A) : Disk A := mkDisk b (dirty k) (dbfile k) (files k).
Definition set_dirty {A : Type} (m : option Marker) (k : Disk A) : Disk A := mkDisk (owner_locked k) m (dbfile k) (files k).
Definition set_dbfile {A : Type} (d : option (option (Db A))) (k : Disk A) : Disk A := mkDisk (owner_locked k) (dirty k) d (files k).
Definition set_files {A : Type} (f : gmap string FileEntry) (k : Disk A) : Disk A := mkDisk (owner_locked k) (dirty k) (dbfile k) f.

(** What the environment answers while opening: the [synchronous] level SQLite
    reports, the [quick_check] of an adopted database, whether the read pool
    connects, and how the two writes of the marker fail. *)
Record OpenEnv : Type := mkEnv {
  reported_sync : Z;
  adopted_ok : bool;
  pool_ok : bool;
  marker_fault : option MarkerFault;
  poison_fault : option MarkerFault;
}.

Definition write_dirty_marker {A : Type} (f : option MarkerFault) (m : Marker) : St ExternalError (Disk A) unit := fun k =>
  match f with
  | None => (Ok tt, set_dirty (Some m) k)
  | Some NotOpened => (Err Io, k)
  | Some Torn => (Err Io, set_dirty (Some DIRTY_OTHER) k)
  | Some NotSynced => (Err Io, set_dirty (Some m) k)
  end.

Definition requires_projection_rebuild (e : ExternalError) : bool :=
  match e with
  | MissingMetadata | InvalidMetadata | UnsupportedFormat _ | Serialization | Sqlite => true
  | _ => false
  end.

Section ExtEngine.
Context {C A O Out OpE : Type} `{EqDecision C} `{ExtPrims C} `{SqlOperation A O Out OpE} `{SqliteFiles A}.
#[local] Abbreviation Stored := (StoredState C).
#[local] Abbreviation Evidence := (ExternalSnapshotEvidence C).

(** The running engine: its connection, the cached state, the marker of its
    durability level, and whether the read pool is there. *)
Record ExternalSqlite : Type := mkEngine {
  conn : Conn A;
  state : Stored;
  active_marker : Marker;
  readers : bool;
}.

(** ** Snapshots *)
Definition snapshot_evidence (s : Stored) (id : string) (page bytes : Z) (digest : list byte) : Evidence :=
  mkEvidence EXTERNAL_FORMAT_VERSION EXTERNAL_SQLITE_SNAPSHOT_FORMAT id (application_id s) (initial_sequence s)
    (initial_state_schema s) (receipt_codec s) (last_applied s) (receipt_floor s) (receipt_retention s)
    (max_receipt_bytes s) page bytes digest.

Definition validate_snapshot_file (fs : gmap string FileEntry) (path : string) (ev : Evidence) : Res ExternalError unit :=
  if negb (format_version ev =? EXTERNAL_FORMAT_VERSION) then Err (UnsupportedFormat (format_version ev)) else
  if negb (String.eqb (snapshot_format ev) EXTERNAL_SQLITE_SNAPSHOT_FORMAT) then Err (SnapshotMismatch []) else
  match fs !! path with
  | None => Err Io
  | Some NotRegular => Err (SnapshotMismatch [])
  | Some (Regular bytes) =>
      if negb (zlen bytes =? sqlite_bytes ev) then Err (SnapshotMismatch []) else
      if negb (bool_decide (sha256 bytes = sqlite_sha256 ev)) then Err (SnapshotMismatch []) else
      d ← match open_image bytes with Some d => Ok d | None => Err Sqlite end;
      if negb (quick_check bytes) then Err (SnapshotMismatch []) else
      if negb (page_size bytes =? sqlite_page_size ev) then Err (SnapshotMismatch []) else
      st ← load_state d;
      validate_receipts d st;;
      if negb (bool_decide (snapshot_id st = Some (e_snapshot_id ev))) then Err (SnapshotMismatch []) else
      let actual := snapshot_evidence st (e_snapshot_id ev) (sqlite_page_size ev) (sqlite_bytes ev) (sqlite_sha256 ev) in
      if negb (bool_decide (actual = ev)) then Err (SnapshotMismatch []) else Ok tt
  end.

Definition validate_snapshot_compatibility (live : Stored) (ev : Evidence) : Res ExternalError unit :=
  if negb (format_version ev =? EXTERNAL_FORMAT_VERSION) then Err (UnsupportedFormat (format_version ev)) else
  if negb (String.eqb (snapshot_format ev) EXTERNAL_SQLITE_SNAPSHOT_FORMAT) then Err (SnapshotMismatch []) else
  let check (same : bool) (field : string) := if same then [] else [field] in
  let mismatches :=
    check (String.eqb (e_application_id ev) (application_id live)) "application_id" ++
    check (e_initial_sequence ev =? initial_sequence live) "initial_sequence" ++
    check (e_initial_state_schema ev =? initial_state_schema live) "initial_state_schema" ++
    check (String.eqb (e_receipt_codec ev) (receipt_codec live)) "receipt_codec" ++
    check (e_receipt_retention ev =? receipt_retention live) "receipt_retention" ++
    check (e_max_receipt_bytes ev =? max_receipt_bytes live) "max_receipt_bytes" in
  match mismatches with [] => Ok tt | _ => Err (SnapshotMismatch mismatches) end.

Definition reject_stale_snapshot (live incoming : option (ExternalApplied C)) : Res ExternalError unit :=
  match live, incoming with
  | Some _, None => Err StaleSnapshot
  | Some live, Some incoming =>
      if sequence (commit incoming) <? sequence (commit live) then Err StaleSnapshot
      else if (sequence (commit incoming) =? sequence (commit live)) && negb (bool_decide (incoming = live))
      then Err (CommitConflict (sequence (commit incoming)))
      else Ok tt
  | None, _ => Ok tt
  end.

(** Copies the database to a temporary name, syncs it and links the final name. *)
Definition create_external_snapshot (fl : Faults) (d : Db A) (path : string) (fs : gmap string FileEntry)
    : Res ExternalError unit * gmap string FileEntry :=
  let temporary := path +:+ "~" in
  let fs := delete temporary fs in
  if f_backup fl then (Err Sqlite, delete temporary fs) else
  let fs := <[temporary := Regular (image d)]> fs in
  match fs !! path with
  | Some _ => (Err SnapshotDestinationExists, delete temporary fs)
  | None =>
      let fs := <[path := Regular (image d)]> fs in
      if f_publish fl then (Err Io, fs) else (Ok tt, delete temporary fs)
  end.

(** ** The writer thread *)
Inductive WriterRequest : Type :=
| WApply (c : ExternalCommit C) (op : O)
| WAdvance (c : ExternalCommit C)
| WState
| WSnapshot (snapshot_id path : string)
| WRestore (path : string) (evidence : Evidence).

Inductive WriterReply : Type :=
| RApply (r : Res (ExternalApplyError OpE) (ApplyOutcome Out))
| RAdvance (r : Res ExternalError (ApplyOutcome unit))
| RState (s : Stored)
| RSnapshot (r : Res ExternalError Stored)
| RRestore (r : Res ExternalError Evidence).

Definition err_or {T} (r : Res ExternalError unit) (t : Res ExternalError T) : Res ExternalError T :=
  match r with Ok _ => t | Err e => Err e | Panic => Panic | OutOfFuel => OutOfFuel end.

(** The database file follows the connection. *)
Definition with_conn (s : Conn A * Stored) (k : Disk A) (e : ExternalSqlite) : Disk A * ExternalSqlite :=
  (set_dbfile (Some (Some (committed s.1))) k, mkEngine s.1 s.2 (active_marker e) (readers e)).

(** The writer marks the projection when a request poisoned it, and stops either way. *)
Definition poison (fl : Faults) (poisoned : bool) (k : Disk A) : Disk A :=
  if poisoned then (write_dirty_marker (f_marker fl) DIRTY_POISONED k).2 else k.

Definition handle_snapshot (fl : Faults) (id path : string) (k : Disk A) (e : ExternalSqlite) : Res ExternalError Stored * (Disk A * ExternalSqlite) :=
  if f_snapshot_id fl then (Err Sqlite, (k, e)) else
  match persist_snapshot_id (view (conn e)) id with
  | Ok d =>
      let st := set_snapshot_id (Some id) (state e) in
      let '(k, e) := with_conn (mkConn d None, st) k e in
      let '(r, fs) := create_external_snapshot fl d path (files k) in
      (err_or r (Ok st), (set_files fs k, e))
  | Err x => (Err x, (k, e))
  | Panic => (Panic, (k, e))
  | OutOfFuel => (OutOfFuel, (k, e))
  end.

(** Restoring in place: [garbage] is what a failing restore leaves. *)
Definition restore_live (fl : Faults) (garbage : option (Db A)) (path : string) (ev : Evidence) (k : Disk A) (e : ExternalSqlite)
    : Res ExternalError Evidence * (Disk A * ExternalSqlite) :=
  let source := match files k !! path with Some (Regular b) => open_image b | _ => None end in
  match garbage, source with
  | None, Some d =>
      let '(k, e) := with_conn (mkConn d None, state e) k e in
      let checked :=
        restored ← load_state d;
        validate_receipts d restored;;
        let restored_evidence :=
          snapshot_evidence restored (e_snapshot_id ev) (sqlite_page_size ev) (sqlite_bytes ev) (sqlite_sha256 ev) in
        if negb (bool_decide (restored_evidence = ev)) then Err (SnapshotMismatch []) else Ok (restored, restored_evidence) in
      match checked with
      | Ok (restored, restored_evidence) =>
          match write_dirty_marker (f_remark fl) (active_marker e) k with
          | (Ok _, k) => (Ok restored_evidence, (k, mkEngine (conn e) restored (active_marker e) (readers e)))
          | (_, k) => (Err Io, (k, e))
          end
      | Err x => (Err x, (k, e))
      | Panic => (Panic, (k, e))
      | OutOfFuel => (OutOfFuel, (k, e))
      end
  | Some g, _ => (Err Sqlite, with_conn (mkConn g None, state e) k e)
  | None, None => (Err Sqlite, (k, e))
  end.

Definition restore_preflight (path : string) (ev : Evidence) (k : Disk A) (e : ExternalSqlite) : Res ExternalError unit :=
  validate_snapshot_compatibility (state e) ev;;
  reject_stale_snapshot (last_applied (state e)) (checkpoint ev);;
  validate_snapshot_file (files k) path ev.

Definition handle_restore (fl : Faults) (garbage : option (Db A)) (path : string) (ev : Evidence) (k : Disk A) (e : ExternalSqlite)
    : Res ExternalError Evidence * bool * (Disk A * ExternalSqlite) :=
  match restore_preflight path ev k e with
  | Ok _ =>
      match write_dirty_marker (f_marker fl) DIRTY_POISONED k with
      | (Ok _, k) =>
          match restore_live fl garbage path ev k e with
          | (Ok r, s) => (Ok r, false, s)
          | (_, s) => (Err WriterPoisoned, true, s)
          end
      | (_, k) => (Err Io, false, (k, e))
      end
  | Err x => (Err x, false, (k, e))
  | Panic => (Panic, true, (k, e))
  | OutOfFuel => (OutOfFuel, true, (k, e))
  end.

(** One request; the flag says that the writer is poisoned and stops. *)
Definition handle (fl : Faults) (garbage : option (Db A)) (r : WriterRequest) (k : Disk A) (e : ExternalSqlite)
    : WriterReply * bool * (Disk A * ExternalSqlite) :=
  match r with
  | WApply c op =>
      let '(res, poisoned, s) := apply_committed fl c op (conn e, state e) in
      let '(k, e) := with_conn s k e in
      (RApply res, poisoned, (poison fl poisoned k, e))
  | WAdvance c =>
      let '(res, poisoned, s) := advance_committed (A := A) fl c (conn e, state e) in
      let '(k, e) := with_conn s k e in
      (RAdvance res, poisoned, (poison fl poisoned k, e))
  | WState => (RState (state e), false, (k, e))
  | WSnapshot id path => let '(res, s) := handle_snapshot fl id path k e in (RSnapshot res, false, s)
  | WRestore path ev => let '(res, poisoned, s) := handle_restore fl garbage path ev k e in (RRestore res, poisoned, s)
  end.

(** The end of the thread: a writer that is not poisoned checkpoints, closes and
    removes the marker; the lock goes in any case. *)
Definition finalize_projection (fl : Faults) : Res ExternalError unit := if f_busy fl then Err Sqlite else Ok tt.
Definition finish (fl : Faults) (poisoned : bool) (k : Disk A) : Res ExternalError unit * Disk A :=
  let '(r, k) :=
    if poisoned then (Err WriterPoisoned, k)
    else match finalize_projection fl with
         | Ok _ => (Ok tt, set_dirty None k)
         | r => (r, k)
         end in
  (r, set_lock false k).

(** The queue: requests with their faults, until one poisons the writer. *)
Fixpoint serve (l : list (Faults * option (Db A) * WriterRequest)) (k : Disk A) (e : ExternalSqlite)
    : list WriterReply * bool * (Disk A * ExternalSqlite) :=
  match l with
  | [] => ([], false, (k, e))
  | (fl, g, r) :: l =>
      let '(rep, poisoned, (k, e)) := handle fl g r k e in
      if poisoned : bool then ([rep], true, (k, e))
      else let '(reps, p, s) := serve l k e in (rep :: reps, p, s)
  end.

(** ** Opening *)

(** The checks on an existing database before it is opened for writing. *)
Definition preflight (o : ExternalSqliteOptions) (adopt : bool) (env : OpenEnv) (d : option (Db A)) : Res ExternalError unit :=
  d ← match d with Some d => Ok d | None => Err Sqlite end;
  if adopt then
    if metadata_table_exists d then Err AdoptionNotAllowed
    else if adopted_ok env then Ok tt else Err AdoptionNotAllowed
  else
    require_metadata_table d;;
    st ← load_state d;
    validate_configuration st o RECEIPT_CODEC;;
    validate_receipts d st.

(** The end of opening: the state and the read pool. *)
Definition loaded_engine (o : ExternalSqliteOptions) (env : OpenEnv) (d : Db A) : Res ExternalError ExternalSqlite :=
  st ← load_state d;
  validate_configuration st o RECEIPT_CODEC;;
  validate_receipts d st;;
  (if pool_ok env then Ok tt else Err Pool);;
  Ok (mkEngine (mkConn d None) st (dirty_marker (durability o)) true).

(** From the connection on. *)
Definition start_engine (o : ExternalSqliteOptions) (env : OpenEnv) (fresh : bool) : St ExternalError (Disk A) ExternalSqlite :=
  k ← st_get;
  d ← match dbfile k with
      | Some (Some d) => mret d
      | Some None => st_err Setup
      | None => let d := mkDb None None empty_app in st_put (set_dbfile (Some (Some d)) k);; mret d
      end;
  (if negb (reported_sync env =? expected_pragma_value (durability o))
   then st_err (ConfigurationMismatch ["synchronous"]) else mret tt);;
  d ← (if fresh then
         fun k => let '(r, d) := create_metadata_tables (A := A) o RECEIPT_CODEC d in
                  (match r with Ok _ => Ok d | Err x => Err x | Panic => Panic | OutOfFuel => OutOfFuel end,
                   set_dbfile (Some (Some d)) k)
       else st_lift (require_metadata_table d);; mret d);
  st_lift (loaded_engine o env d).

Definition rebuild_needed (m : option Marker) : bool :=
  match m with None | Some DIRTY_FULL | Some DIRTY_NORMAL => false | Some _ => true end.

(** [Drop for InitLock]: an open that fails removes the marker it wrote. *)
Definition drop_init_lock (armed : bool) (k : Disk A) : Disk A := if armed then set_dirty None k else k.

(** [open_inner] after the owner lock was taken. *)
Definition open_locked (o : ExternalSqliteOptions) (rebuild adopt : bool) (env : OpenEnv) : St ExternalError (Disk A) ExternalSqlite := fun k =>
  let dirty_existed := bool_decide (is_Some (dirty k)) in
  if adopt && dirty_existed then (Err AdoptionNotAllowed, k) else
  let rebuild_required := rebuild_needed (dirty k) in
  if rebuild && negb rebuild_required then (Err RebuildNotRequired, k) else
  if negb rebuild && rebuild_required then (Err RebuildRequired, k) else
  let k := if rebuild then set_dbfile None k else k in
  let armed := negb dirty_existed in
  match write_dirty_marker (marker_fault env) (dirty_marker (durability o)) k with
  | (Ok _, k) =>
      match dbfile k with
      | None =>
          if adopt then (Err AdoptionNotAllowed, drop_init_lock armed k) else
          match start_engine o env true k with
          | (Ok e, k) => (Ok e, k)
          | (r, k) => (r, drop_init_lock armed k)
          end
      | Some d =>
          match preflight o adopt env d with
          | Ok _ =>
              match start_engine o env adopt k with
              | (Ok e, k) => (Ok e, k)
              | (r, k) => (r, drop_init_lock armed k)
              end
          | Err x =>
              if requires_projection_rebuild x then
                match write_dirty_marker (poison_fault env) DIRTY_POISONED k with
                | (Ok _, k) => (Err x, k)
                | (_, k) => (Err Io, drop_init_lock armed k)
                end
              else (Err x, drop_init_lock armed k)
          | Panic => (Panic, drop_init_lock armed k)
          | OutOfFuel => (OutOfFuel, drop_init_lock armed k)
          end
      end
  | (_, k) => (Err Io, drop_init_lock armed k)
  end.

Definition open_inner (o : ExternalSqliteOptions) (rebuild adopt : bool) (env : OpenEnv) : St ExternalError (Disk A) ExternalSqlite := fun k =>
  match validate o with
  | Ok _ =>
      if owner_locked k then (Err Locked, k) else
      match open_locked o rebuild adopt env (set_lock true k) with
      | (Ok e, k) => (Ok e, k)
      | (r, k) => (r, set_lock false k)
      end
  | Err x => (Err x, k)
  | Panic => (Panic, k)
  | OutOfFuel => (OutOfFuel, k)
  end.

(** [open], [rebuild_projection] and [adopt_existing_projection] *)
Definition open (o : ExternalSqliteOptions) (env : OpenEnv) : St ExternalError (Disk A) ExternalSqlite := open_inner o false false env.
Definition rebuild_projection (o : ExternalSqliteOptions) (env : OpenEnv) : St ExternalError (Disk A) ExternalSqlite := open_inner o true false env.
Definition adopt_existing_projection (o : ExternalSqliteOptions) (env : OpenEnv) : St ExternalError (Disk A) ExternalSqlite := open_inner o false true env.

(** ** The calls of the embedding application *)
Definition inspect_snapshot (fs : gmap string FileEntry) (path : string) : Res ExternalError (Z * Z * list byte) :=
  match fs !! path with
  | Some (Regular b) =>
      match open_image b with
      | Some _ => Ok (page_size b, zlen b, sha256 b)
      | None => Err Sqlite
      end
  | _ => Err Io
  end.

Definition build_snapshot_at (fl : Faults) (id path : string) (k : Disk A) (e : ExternalSqlite) : Res ExternalError Evidence * (Disk A * ExternalSqlite) :=
  match files k !! path with
  | Some _ => (Err SnapshotDestinationExists, (k, e))
  | None =>
      match handle_snapshot fl id path k e with
      | (Ok st, (k, e)) =>
          ('(page, bytes, digest) ← inspect_snapshot (files k) path; Ok (snapshot_evidence st id page bytes digest), (k, e))
      | (Err x, s) => (Err x, s)
      | (Panic, s) => (Panic, s)
      | (OutOfFuel, s) => (OutOfFuel, s)
      end
  end.

(** Staging the artifact below [snapshots_dir]. *)
Definition stage_snapshot (dir path : string) (ev : Evidence) (k : Disk A) : Res ExternalError (string * Disk A) :=
  validate_snapshot_file (files k) path ev;;
  id ← match parse_uuid (e_snapshot_id ev) with Some id => Ok id | None => Err (SnapshotMismatch []) end;
  let destination := dir +:+ "/" +:+ id in
  if String.eqb destination path then Ok (destination, k) else
  match files k !! destination with
  | Some _ => validate_snapshot_file (files k) destination ev;; Ok (destination, k)
  | None =>
      match files k !! path with
      | Some f => Ok (destination, set_files (<[destination := f]> (delete (destination +:+ ".incoming") (files k))) k)
      | None => Err Io
      end
  end.

Definition install_snapshot (fl : Faults) (garbage : option (Db A)) (env : OpenEnv) (dir path : string) (ev : Evidence) (k : Disk A) (e : ExternalSqlite)
    : Res ExternalError Evidence * bool * (Disk A * ExternalSqlite) :=
  match stage_snapshot dir path ev k with
  | Ok (destination, k) =>
      let '(r, poisoned, (k, e)) := handle_restore fl garbage destination ev k e in
      if poisoned : bool then (r, true, (k, mkEngine (conn e) (state e) (active_marker e) false))
      else if pool_ok env then (r, false, (k, mkEngine (conn e) (state e) (active_marker e) true))
      else (Err Pool, false, (k, mkEngine (conn e) (state e) (active_marker e) false))
  | Err x => (Err x, false, (k, e))
  | Panic => (Panic, false, (k, e))
  | OutOfFuel => (OutOfFuel, false, (k, e))
  end.

(** [ExternalSqlite::read] finds a read pool. *)
Definition read_available (e : ExternalSqlite) : Res ExternalError (Db A) := if readers e then Ok (committed (conn e)) else Err Pool.

Definition shutdown (fl : Faults) (k : Disk A) (e : ExternalSqlite) : Res ExternalError unit * Disk A := finish fl false k.

(** A stop without shutdown: the lock goes with the process, the marker stays. *)
Definition killed (k : Disk A) : Disk A := set_lock false k.

End ExtEngine.
