(* ===== verification/ExtEngineSpec.v ===== *)
(** The external state machine as an engine: every request keeps the invariant of
    the running engine, whatever fails; what is left on disk when it stops is a
    stored history or is marked for a rebuild; opening accepts exactly that. *)
From stdpp Require Import base gmap strings list numbers sorting.
From Stdlib Require Import Strings.Byte.
From S2P Require Import Prelude Text ExtBase ExtStore ExtStoreSpec ExtSound ExtEngine.

#[local] Open Scope Z_scope.

Section ExtEngineSpec.
Context {C A O Out OpE : Type} `{EqDecision C} `{ExtPrims C, !ExtPrimsOk C} `{SqlOperation A O Out OpE, !SqlOperationOk A O Out OpE}.
Context `{SqliteFiles A}.
#[local] Abbreviation Stored := (StoredState C).
#[local] Abbreviation Evidence := (ExternalSnapshotEvidence C).
#[local] Abbreviation Eng := (@ExternalSqlite C A).
#[local] Abbreviation Req := (@WriterRequest C O).
#[local] Abbreviation Rep := (@WriterReply C Out OpE).

(** ** The invariant *)
Record engine_ok (k : Disk A) (e : Eng) (h : list Done) : Prop := {
  eo_lock : owner_locked k = true;
  eo_tx : tx (conn e) = None;
  eo_file : dbfile k = Some (Some (committed (conn e)));
  eo_store : store_ok (committed (conn e)) (state e) h;
  eo_marker : dirty k = Some (active_marker e) \/ rebuild_needed (dirty k) = true;
}.

(** What a stopped writer may leave: a stored history of the same configuration,
    or a marker that demands a rebuild. *)
Definition disk_ok (s : Stored) (k : Disk A) : Prop :=
  (exists d s' h, dbfile k = Some (Some d) /\ store_ok d s' h /\ same_config s s') \/ rebuild_needed (dirty k) = true.

Definition request_wf (r : Req) : Prop :=
  match r with WApply c _ | WAdvance c => commit_ok c | _ => True end.

Definition is_err {E T} (r : Res E T) : Prop := exists e, r = Err e.

(** One request against the history [h] and the tables [a]: the reply of the
    abstract machine and its step; or an error and no step; or an error and the
    step, when the commit took effect although it reported a failure. *)
Definition answered (fl : Faults) (s : Stored) (h : list Done) (a : A) (r : Req) (rep : Rep) (h' : list Done) (a' : A) : Prop :=
  match r, rep with
  | WApply c op, RApply res =>
      let '(sr, h1, a1) := spec_apply s h a c op in
      (res = sr /\ h' = h1 /\ a' = a1) \/ (is_err res /\ h' = h /\ a' = a) \/
      (is_err res /\ f_commit fl = Some TookEffect /\ h' = h1 /\ a' = a1)
  | WAdvance c, RAdvance res =>
      let '(sr, h1) := spec_advance s h c in
      a' = a /\ ((res = sr /\ h' = h1) \/ (is_err res /\ h' = h) \/ (is_err res /\ f_commit fl = Some TookEffect /\ h' = h1))
  | WState, RState st => st = s /\ h' = h /\ a' = a
  | WSnapshot _ _, RSnapshot res => h' = h /\ a' = a
  | WRestore _ ev, RRestore (Ok ev') => ev' = ev /\ checkpoint ev = applied_of <$> last h' /\ next_seq s h <= next_seq s h'
  | WRestore _ ev, RRestore res => is_err res /\ h' = h /\ a' = a
  | _, _ => False
  end.

(** ** Configuration *)
Lemma same_config_refl s : same_config (C := C) s s.
Proof. done. Qed.
Lemma same_config_trans s1 s2 s3 : same_config (C := C) s1 s2 -> same_config s2 s3 -> same_config s1 s3.
Proof. unfold same_config. congruence. Qed.
Lemma same_config_fields s s' : same_config (C := C) s s' ->
  application_id s' = application_id s /\ initial_sequence s' = initial_sequence s /\
  initial_state_schema s' = initial_state_schema s /\ receipt_codec s' = receipt_codec s /\
  receipt_retention s' = receipt_retention s /\ max_receipt_bytes s' = max_receipt_bytes s.
Proof. unfold same_config, config_of. destruct s, s'. cbn. intros [= -> -> -> -> -> ->]. done. Qed.
Lemma same_config_intro s s' :
  application_id s' = application_id s -> initial_sequence s' = initial_sequence s ->
  initial_state_schema s' = initial_state_schema s -> receipt_codec s' = receipt_codec s ->
  receipt_retention s' = receipt_retention s -> max_receipt_bytes s' = max_receipt_bytes s -> same_config (C := C) s s'.
Proof. unfold same_config, config_of. destruct s, s'. cbn. intros -> -> -> -> -> ->. done. Qed.

(** ** Snapshots *)
Lemma store_ok_snapshot d s h id d' :
  store_ok d s h -> persist_snapshot_id d id = Ok d' -> store_ok d' (set_snapshot_id (Some id) s) h /\ app d' = app d.
Proof.
  intros [Q1 Q2 Q3 Q4 Q5 Q6 Q7] Hp. unfold persist_snapshot_id in Hp. destruct Q6 as (row & Hm & [R1 R2 R3 R4 R5 R6 R7 R8] & Hl).
  rewrite Hm in Hp. injection Hp as <-. split; [|done]. split; try done; [by destruct Q1|eapply Forall_impl; [exact Q3|]; by intros x []|].
  eexists. split; [reflexivity|]. split; [by split|]. unfold row_last in *. cbn. destruct (last_applied s), (receipt_floor s); try done; by destruct Hl.
Qed.

Lemma persist_snapshot_id_total d s h id : store_ok (C := C) d s h -> exists d', persist_snapshot_id (A := A) d id = Ok d'.
Proof. intros [_ _ _ _ _ (row & Hm & _) _]. unfold persist_snapshot_id. rewrite Hm. eauto. Qed.

(** A mismatch list is empty when every comparison holds. *)
Lemma check_nil (b : bool) (f : string) : (if b then [] else [f]) = [] -> b = true.
Proof. by destruct b. Qed.

Lemma compatibility_inv live ev :
  validate_snapshot_compatibility live ev = Ok tt ->
  e_application_id ev = application_id live /\ e_initial_sequence ev = initial_sequence live /\
  e_initial_state_schema ev = initial_state_schema live /\ e_receipt_codec ev = receipt_codec live /\
  e_receipt_retention ev = receipt_retention live /\ e_max_receipt_bytes ev = max_receipt_bytes (C := C) live.
Proof.
  unfold validate_snapshot_compatibility. intros Hv. res_inv Hv. cbv zeta in Hv.
  destruct (_ ++ _) eqn:E; [|done]. repeat (apply app_nil in E as [?%check_nil E]). apply check_nil in E.
  repeat match goal with X : String.eqb _ _ = true |- _ => apply String.eqb_eq in X | X : (_ =? _) = true |- _ => apply Z.eqb_eq in X end.
  done.
Qed.

(** A database whose evidence equals [ev] holds a history that ends at its checkpoint. *)
Lemma evidence_store live ev (d : Db A) st :
  validate_snapshot_compatibility live ev = Ok tt -> receipt_codec live = RECEIPT_CODEC ->
  load_state d = Ok st -> validate_receipts d st = Ok tt ->
  snapshot_evidence st (e_snapshot_id ev) (sqlite_page_size ev) (sqlite_bytes ev) (sqlite_sha256 ev) = ev ->
  same_config live st /\ last_applied st = checkpoint ev /\ exists h, store_ok d st h.
Proof.
  intros (E1 & E2 & E3 & E4 & E5 & E6)%compatibility_inv Hcd Hl Hv Hev. rewrite <- Hev in *. cbn in *.
  split; [by apply same_config_intro|]. split; [done|]. apply validate_sound; [done..|congruence].
Qed.

Lemma reject_stale_inv live incoming :
  reject_stale_snapshot (C := C) live incoming = Ok tt ->
  forall l, live = Some l -> exists i, incoming = Some i /\ sequence (commit l) <= sequence (commit i) /\
    (sequence (commit i) = sequence (commit l) -> i = l).
Proof.
  unfold reject_stale_snapshot. intros Hr l ->. destruct incoming as [i|]; [|done]. exists i. split; [done|].
  destruct (Z.ltb_spec (sequence (commit i)) (sequence (commit l))); [done|]. split; [done|]. intros E. rewrite E, Z.eqb_refl in Hr.
  destruct (bool_decide (i = l)) eqn:Eb; [by apply bool_decide_eq_true in Eb|done].
Qed.

(** A history that ends at or behind the frontier of another has at least its length. *)
Lemma next_seq_le d s h d' s' h' :
  store_ok (C := C) (A := A) d s h -> store_ok (A := A) d' s' h' -> same_config s s' ->
  (forall l, last_applied s = Some l -> exists i, last_applied s' = Some i /\ sequence (commit l) <= sequence (commit i)) ->
  next_seq s h <= next_seq s h'.
Proof.
  intros [_ Hd _ Hl _ _ _] [_ Hd' _ Hl' _ _ _] (_ & Ei & _)%same_config_fields Hle.
  destruct (last h) as [e|] eqn:El; cycle 1.
  { apply last_None in El as ->. unfold next_seq. change (zlen []) with 0. pose proof (zlen_nonneg h'). lia. }
  destruct (Hle (applied_of e) Hl) as (i & Hi & Hse). rewrite Hl' in Hi. destruct (last h') as [e'|] eqn:El'; [|done].
  injection Hi as <-. pose proof (last_seq s h e Hd El). pose proof (last_seq s' h' e' Hd' El').
  unfold next_seq, seq_of, applied_of in *. cbn in Hse. rewrite Ei in *. lia.
Qed.

(** ** Markers *)
Lemma write_marker_parts f m (k k' : Disk A) r :
  write_dirty_marker f m k = (r, k') -> owner_locked k' = owner_locked k /\ dbfile k' = dbfile k /\ files k' = files k.
Proof. unfold write_dirty_marker. by destruct f as [[]|]; intros [= <- <-]. Qed.

Lemma write_poison_marker f (k k' : Disk A) r a :
  write_dirty_marker f DIRTY_POISONED k = (r, k') -> (dirty k = Some a \/ rebuild_needed (dirty k) = true) ->
  dirty k' = Some a \/ rebuild_needed (dirty k') = true.
Proof. unfold write_dirty_marker. destruct f as [[]|]; intros [= <- <-]; auto. Qed.

(** ** One request *)

(** A request leaves a running engine that answered it, or stops it with a safe disk. *)
Definition request_done (fl : Faults) (k : Disk A) (e : Eng) (h : list Done) (r : Req) (rep : Rep) (poisoned : bool) (k' : Disk A) (e' : Eng) : Prop :=
  if poisoned then disk_ok (state e) k' else
  exists h', engine_ok k' e' h' /\ same_config (state e) (state e') /\ active_marker e' = active_marker e /\
    answered fl (state e) h (app (committed (conn e))) r rep h' (app (committed (conn e'))).

Lemma poison_parts fl p (k : Disk A) : owner_locked (poison fl p k) = owner_locked k /\ dbfile (poison fl p k) = dbfile k.
Proof.
  unfold poison. destruct p; [|done]. destruct (write_dirty_marker (f_marker fl) DIRTY_POISONED k) as [r k'] eqn:E.
  by destruct (write_marker_parts _ _ _ _ _ E) as (? & ? & ?).
Qed.

(** The common end of applying and advancing. *)
Lemma thunk_done fl k e h r rep {E T} (engine : ExternalError -> E) (sr : Res E T) h1 a1 res p cn' s' :
  engine_ok k e h -> request_ok fl engine (conn e) (state e) h sr h1 a1 res p cn' s' ->
  (forall h' a', (res = sr /\ h' = h1 /\ a' = a1) \/ (is_err res /\ h' = h /\ a' = app (committed (conn e))) \/
     (is_err res /\ f_commit fl = Some TookEffect /\ h' = h1 /\ a' = a1) ->
     answered fl (state e) h (app (committed (conn e))) r rep h' a') ->
  let '(k', e') := with_conn (cn', s') k e in
  request_done fl k e h r rep p (poison fl p k') e'.
Proof.
  intros [Hlk Htx Hfile Hst Hmk] (s1 & h' & [Hok Hsc] & Hrun & _ & Hcase & _) Hans. unfold with_conn. cbn [fst snd].
  unfold request_done. destruct p.
  - left. exists (committed cn'), s1, h'. destruct (poison_parts fl true (set_dbfile (Some (Some (committed cn'))) k)) as [_ ->]. done.
  - destruct (Hrun eq_refl) as [Htx' ->]. exists h'. split; [by split|]. split; [done|]. split; [done|]. by apply Hans.
Qed.

Lemma apply_done fl c op k e h :
  engine_ok k e h -> commit_ok c ->
  let '(rep, p, (k', e')) := handle fl None (WApply c op) k e in request_done fl k e h (WApply c op) rep p k' e'.
Proof.
  intros Hok Hc. pose proof (apply_committed_ok fl c op (conn e) (state e) h (eo_store _ _ _ Hok) (eo_tx _ _ _ Hok) Hc) as Ha.
  cbn [handle]. destruct (apply_committed fl c op (conn e, state e)) as [[res p] [cn' s']].
  destruct (spec_apply (state e) h (app (committed (conn e))) c op) as [[sr h1] a1] eqn:Es.
  refine (thunk_done fl k e h (WApply c op) (RApply res) _ sr h1 a1 res p cn' s' Hok Ha _).
  intros h' a' Hcase. cbn [answered]. by rewrite Es.
Qed.

Lemma advance_done fl c k e h :
  engine_ok k e h -> commit_ok c ->
  let '(rep, p, (k', e')) := handle fl None (WAdvance c) k e in request_done fl k e h (WAdvance c) rep p k' e'.
Proof.
  intros Hok Hc. pose proof (advance_committed_ok fl c (conn e) (state e) h (eo_store _ _ _ Hok) (eo_tx _ _ _ Hok) Hc) as Ha.
  cbn [handle]. destruct (advance_committed fl c (conn e, state e)) as [[res p] [cn' s']].
  destruct (spec_advance (state e) h c) as [sr h1] eqn:Es.
  refine (thunk_done fl k e h (WAdvance c) (RAdvance res) _ sr h1 (app (committed (conn e))) res p cn' s' Hok Ha _).
  intros h' a' Hcase. cbn [answered]. rewrite Es. intuition.
Qed.

Lemma snapshot_done fl id path k e h :
  engine_ok k e h ->
  let '(rep, p, (k', e')) := handle fl None (WSnapshot id path) k e in request_done fl k e h (WSnapshot id path) rep p k' e'.
Proof.
  intros Hok. pose proof Hok as [Hlk Htx Hfile Hst Hmk]. cbn [handle]. unfold handle_snapshot.
  destruct (f_snapshot_id fl); [exists h; done|].
  assert (view (conn e) = committed (conn e)) as -> by (unfold view; by rewrite Htx).
  destruct (persist_snapshot_id_total _ _ _ id Hst) as [d' Hp]. rewrite Hp.
  destruct (store_ok_snapshot _ _ _ _ _ Hst Hp) as [Hst' Happ]. unfold with_conn. cbn [fst snd].
  destruct (create_external_snapshot _ _ _ _) as [r fs]. exists h. split; [by split|]. split; [done|]. split; [done|]. by cbn.
Qed.

(** Restoring a validated snapshot behind a poisoned marker. *)
Lemma restore_live_done fl g path ev k e h :
  engine_ok k e h -> dirty k = Some DIRTY_POISONED -> validate_snapshot_compatibility (state e) ev = Ok tt ->
  reject_stale_snapshot (last_applied (state e)) (checkpoint ev) = Ok tt ->
  let '(r, (k', e')) := restore_live fl g path ev k e in
  match r with
  | Ok ev' => request_done fl k e h (WRestore path ev) (RRestore (Ok ev')) false k' e'
  | _ => disk_ok (state e) k'
  end.
Proof.
  intros Hok Hp Hcomp Hstale. pose proof Hok as [Hlk Htx Hfile Hst Hmk]. unfold restore_live.
  destruct g as [g|]; [right; cbn; by rewrite Hp|].
  destruct (match files k !! path with Some (Regular b) => open_image b | _ => None end) as [d|]; [|right; by rewrite Hp].
  cbn [with_conn fst snd]. destruct (load_state d ≫= _) as [[st ev']|x| |] eqn:Ec; [|right; cbn; by rewrite Hp..].
  res_inv Ec. destruct a0. injection Ec as -> <-. apply negb_false_iff, bool_decide_eq_true in Hb. rewrite Hb.
  destruct (evidence_store (state e) ev d st Hcomp) as (Hsc & Hck & h' & Hst'); [by destruct (so_config _ _ _ Hst)|done..|].
  destruct (write_dirty_marker (f_remark fl) (active_marker _) _) as [r k'] eqn:Em.
  destruct (write_marker_parts _ _ _ _ _ Em) as (L1 & L2 & L3). cbn in L1, L2, L3.
  destruct r as [[]|x| |]; [|left; exists d, st, h'; by rewrite L2..].
  exists h'. split.
  { split; [by rewrite L1|done|by rewrite L2|done|]. left. cbn. unfold write_dirty_marker in Em. cbn in Em. destruct (f_remark fl) as [[]|]; by simplify_eq. }
  split; [done|]. split; [done|]. cbn. split; [done|]. split; [rewrite <- Hck; by destruct Hst'|].
  apply (next_seq_le _ _ _ _ _ _ Hst Hst' Hsc). intros l Hl. destruct (reject_stale_inv _ _ Hstale l Hl) as (i & Hi & Hle & _).
  exists i. by rewrite Hck.
Qed.

Lemma restore_done fl g path ev k e h :
  engine_ok k e h ->
  let '(rep, p, (k', e')) := handle fl g (WRestore path ev) k e in request_done fl k e h (WRestore path ev) rep p k' e'.
Proof.
  intros Hok. pose proof Hok as [Hlk Htx Hfile Hst Hmk]. cbn [handle]. unfold handle_restore.
  assert (disk_ok (state e) k) as Hdisk by (left; eauto 10 using same_config_refl).
  destruct (restore_preflight path ev k e) as [[]|x| |] eqn:Epre; [| |exact Hdisk..]; cycle 1.
  { exists h. split; [done|]. split; [done|]. split; [done|]. cbn. split; [by exists x|done]. }
  unfold restore_preflight in Epre. res_inv Epre. destruct a, a0.
  destruct (write_dirty_marker (f_marker fl) DIRTY_POISONED k) as [r k1] eqn:Em.
  destruct (write_marker_parts _ _ _ _ _ Em) as (L1 & L2 & L3).
  assert (engine_ok k1 e h) as Hok1.
  { split; [by rewrite L1|done|by rewrite L2|done|]. by apply (write_poison_marker _ _ _ _ _ Em). }
  destruct r as [[]|x| |].
  2-4: exists h; split; [done|]; split; [done|]; split; [done|]; cbn; (split; [by eexists|done]).
  assert (dirty k1 = Some DIRTY_POISONED) as Hp.
  { unfold write_dirty_marker in Em. destruct (f_marker fl) as [[]|]; by simplify_eq. }
  pose proof (restore_live_done fl g path ev k1 e h Hok1 Hp Ha Ha0) as Hlive.
  by destruct (restore_live fl g path ev k1 e) as [[] [k' e']].
Qed.

(** Every request, whatever fails. *)
Lemma handle_ok fl g r k e h :
  engine_ok k e h -> request_wf r ->
  let '(rep, p, (k', e')) := handle fl g r k e in request_done fl k e h r rep p k' e'.
Proof.
  intros Hok Hwf. destruct r as [c op|c| |id path|path ev].
  - by apply apply_done.
  - by apply advance_done.
  - exists h. split; [done|]. split; [done|]. by split.
  - by apply snapshot_done.
  - by apply restore_done.
Qed.

End ExtEngineSpec.
