(* ===== verification/ExtLife.v ===== *)
(** The life of an external engine: opening, running, stopping or crashing, and
    opening again. *)
From stdpp Require Import base gmap strings list numbers sorting.
From Stdlib Require Import Strings.Byte.
From S2P Require Import Prelude Text ExtBase ExtStore ExtStoreSpec ExtSound ExtEngine ExtEngineSpec.

#[local] Open Scope Z_scope.

Section ExtLife.
Context {C A O Out OpE : Type} `{EqDecision C} `{ExtPrims C, !ExtPrimsOk C} `{SqlOperation A O Out OpE, !SqlOperationOk A O Out OpE}.
Context `{SqliteFiles A}.
#[local] Abbreviation Stored := (StoredState C).
#[local] Abbreviation Evidence := (ExternalSnapshotEvidence C).
#[local] Abbreviation Eng := (@ExternalSqlite C A).
#[local] Abbreviation Req := (@WriterRequest C O).
#[local] Abbreviation Rep := (@WriterReply C Out OpE).

(** ** Options *)

(** The types of the options. *)
Definition opts_ok (o : ExternalSqliteOptions) : Prop := is_u64 (o_initial_sequence o) /\ is_u64 (o_initial_state_schema o).

(** The empty state of a projection with these options. *)
Definition fresh_state (o : ExternalSqliteOptions) : Stored :=
  mkStored (o_application_id o) (o_initial_sequence o) (o_initial_state_schema o) RECEIPT_CODEC
    (o_receipt_retention o) (o_max_receipt_bytes o) None None None.

(** Nothing fails while opening. *)
Record env_ok (o : ExternalSqliteOptions) (env : OpenEnv) : Prop := {
  ev_sync : reported_sync env = expected_pragma_value (durability o);
  ev_pool : pool_ok env = true;
  ev_marker : marker_fault env = None;
}.

Lemma validate_limits o : validate o = Ok tt ->
  1 <= o_receipt_retention o <= MAX_RECEIPT_RETENTION /\ 1 <= o_max_receipt_bytes o <= MAX_RECEIPT_BYTES /\
  1 <= read_pool_size o <= MAX_READ_POOL_SIZE /\ prepared_statement_cache_capacity o <= MAX_PREPARED_STATEMENTS.
Proof.
  unfold validate. intros Hv. res_inv Hv. apply negb_false_iff, in_range_iff in Hb1, Hb2, Hb3.
  apply Z.ltb_ge in Hb4. tauto.
Qed.

Lemma validate_configuration_iff s o :
  validate_configuration s o RECEIPT_CODEC = Ok tt <-> same_config (fresh_state o) s.
Proof.
  unfold validate_configuration. cbv zeta. split.
  - destruct (_ ++ _) eqn:E; [|done]. intros _. repeat (apply app_nil in E as [?%check_nil E]). apply check_nil in E.
    repeat match goal with X : String.eqb _ _ = true |- _ => apply String.eqb_eq in X | X : (_ =? _) = true |- _ => apply Z.eqb_eq in X end.
    by apply same_config_intro.
  - intros (E1 & E2 & E3 & E4 & E5 & E6)%same_config_fields. cbn in *. rewrite E1, E2, E3, E4, E5, E6.
    by rewrite !String.eqb_refl, !Z.eqb_refl.
Qed.

Lemma fresh_config o : opts_ok o -> validate o = Ok tt -> config_ok (fresh_state o).
Proof. intros [? ?] (? & ? & _)%validate_limits. by split. Qed.

(** The tables of a new or adopted projection store the empty history. *)
Lemma create_tables_ok o (d : Db A) :
  opts_ok o -> validate o = Ok tt -> meta_table d = None -> receipts_table d = None ->
  exists d', create_metadata_tables o RECEIPT_CODEC d = (Ok tt, d') /\ store_ok d' (fresh_state o) [] /\ app d' = app d.
Proof.
  intros Ho Hv Hm Hr. unfold create_metadata_tables. step_st. rewrite Hm. cbn [meta_table receipts_table set_meta_table]. rewrite Hr.
  eexists. split; [reflexivity|]. split; [|done]. pose proof (fresh_config o Ho Hv) as Hc. split; try done.
  - eexists. split; [reflexivity|]. destruct Hc as [Q1 Q2 Q3 Q4 _]. cbn in Q1, Q2, Q3, Q4.
    unfold MAX_RECEIPT_RETENTION, MAX_RECEIPT_BYTES in *. split; [|by split].
    split; try reflexivity; split; try reflexivity; unfold is_u64 in *; cbn; lia.
  - exists ∅. split; [done|]. split; [intros key row; by rewrite lookup_empty|intros e []%not_elem_of_nil].
Qed.

(** ** Opening *)

(** What [start_engine] checked before it returned an engine. *)
Lemma start_engine_inv o env fresh (k k' : Disk A) e :
  start_engine o env fresh k = (Ok e, k') ->
  exists d s, e = mkEngine (mkConn d None) s (dirty_marker (durability o)) true /\ dbfile k' = Some (Some d) /\
    load_state d = Ok s /\ same_config (fresh_state o) s /\ validate_receipts d s = Ok tt /\
    owner_locked k' = owner_locked k /\ dirty k' = dirty k /\ files k' = files k.
Proof.
  unfold start_engine. intros Hs. st_inv Hs. injection Ha as <- <-. injection Hs as Hs <-. unfold loaded_engine in Hs. res_inv Hs.
  injection Hs as <-. destruct (negb _); [done|]. injection Ha1 as <- <-. repeat match goal with x : unit |- _ => destruct x end.
  match goal with X : validate_configuration _ _ _ = _ |- _ => apply validate_configuration_iff in X end.
  exists a2. eexists. split; [reflexivity|].
  assert (dbfile s0 = Some (Some a0) /\ owner_locked s0 = owner_locked k /\ dirty s0 = dirty k /\ files s0 = files k) as (Q1 & Q2 & Q3 & Q4).
  { destruct (dbfile k) as [[d|]|] eqn:Ed; [injection Ha0 as <- <-; done|done|].
    unfold mbind, st_bind, st_put in Ha0. injection Ha0 as <- <-. done. }
  destruct fresh.
  - destruct (create_metadata_tables o RECEIPT_CODEC a0) as [r d]. destruct r; [injection Ha2 as -> <-|done..]. done.
  - unfold mbind, st_bind, st_lift in Ha2. destruct (require_metadata_table a0); [injection Ha2 as <- <-|done..]. done.
Qed.

(** The engine that [open] returns for a database and its state. *)
Definition engine_on (o : ExternalSqliteOptions) (d : Db A) (s : Stored) : Eng :=
  mkEngine (mkConn d None) s (dirty_marker (durability o)) true.

Lemma start_existing o env k d s h :
  env_ok o env -> dbfile k = Some (Some d) -> store_ok d s h -> same_config (fresh_state o) s ->
  start_engine o env false k = (Ok (engine_on o d s), k).
Proof.
  intros [Es Ep _] Hd Hok Hsc. unfold start_engine, loaded_engine. step_st. rewrite Hd, Es, Z.eqb_refl. cbn [negb].
  pose proof (so_load _ _ _ Hok) as Hl. pose proof Hl as (row & Hm & _)%load_iff.
  unfold require_metadata_table, metadata_table_exists. rewrite Hm, bool_decide_eq_true_2 by eauto.
  rewrite Hl. step_res. rewrite (proj2 (validate_configuration_iff _ _) Hsc). step_res. by rewrite (validate_ok _ _ _ Hok), Ep.
Qed.

(** Starting on a database without the engine's tables: a new one, or an adopted one. *)
Lemma start_new o env k :
  opts_ok o -> validate o = Ok tt -> env_ok o env ->
  (dbfile k = None \/ exists d, dbfile k = Some (Some d) /\ meta_table d = None /\ receipts_table d = None) ->
  exists d, start_engine o env true k = (Ok (engine_on o d (fresh_state o)), set_dbfile (Some (Some d)) k) /\
    store_ok d (fresh_state o) [] /\
    app d = match dbfile k with Some (Some d0) => app d0 | _ => empty_app end.
Proof.
  intros Ho Hv [Es Ep _] Hd.
  assert (exists d0, meta_table d0 = None /\ receipts_table d0 = None /\
    app d0 = match dbfile k with Some (Some d0) => app d0 | _ => empty_app end /\
    (dbfile k = None /\ d0 = mkDb None None empty_app \/ dbfile k = Some (Some d0))) as (d0 & Hm & Hr & Ha & Hk).
  { destruct Hd as [Hd|(d & Hd & ? & ?)]; rewrite Hd; [exists (mkDb None None empty_app)|exists d]; naive_solver. }
  destruct (create_tables_ok o d0 Ho Hv Hm Hr) as (d & Hc & Hok & Happ). exists d. split; [|split; [done|congruence]].
  assert (validate_configuration (fresh_state o) o RECEIPT_CODEC = Ok tt) as Hcf by (by apply validate_configuration_iff).
  pose proof (so_load _ _ _ Hok) as Hl. pose proof (validate_ok _ _ _ Hok) as Hvr.
  assert (loaded_engine o env d = Ok (engine_on o d (fresh_state o))) as Hle.
  { unfold loaded_engine. rewrite Hl. step_res. rewrite Hcf. step_res. by rewrite Hvr, Ep. }
  unfold start_engine. step_st. destruct Hk as [[Hk ->]|Hk]; rewrite Hk; rewrite Es, Z.eqb_refl; cbn [negb]; by rewrite Hc, Hle.
Qed.

(** Opening a stored history that is not marked for a rebuild continues it. *)
Lemma open_existing o env k d s h :
  validate o = Ok tt -> env_ok o env -> owner_locked k = false -> rebuild_needed (dirty k) = false ->
  dbfile k = Some (Some d) -> store_ok d s h -> same_config (fresh_state o) s ->
  open_inner o false false env k =
    (Ok (engine_on o d s), set_dirty (Some (dirty_marker (durability o))) (set_lock true k)) /\
  engine_ok (set_dirty (Some (dirty_marker (durability o))) (set_lock true k)) (engine_on o d s) h.
Proof.
  intros Hv He Hlk Hm Hd Hok Hsc. split; [|by split; [|..|left]].
  unfold open_inner, open_locked. rewrite Hv, Hlk. cbn [dirty set_lock andb negb]. rewrite Hm. cbn [negb andb].
  unfold write_dirty_marker. rewrite (ev_marker _ _ He). cbn [dbfile set_dirty set_lock]. rewrite Hd.
  unfold preflight. step_res. pose proof (so_load _ _ _ Hok) as Hl. pose proof Hl as (row & Hmt & _)%load_iff.
  unfold require_metadata_table, metadata_table_exists. rewrite Hmt, bool_decide_eq_true_2 by eauto. step_res.
  rewrite Hl. step_res. rewrite (proj2 (validate_configuration_iff _ _) Hsc). step_res. rewrite (validate_ok _ _ _ Hok).
  by rewrite (start_existing o env (set_dirty (Some (dirty_marker (durability o))) (set_lock true k)) d s h He Hd Hok Hsc).
Qed.

(** Opening where there is no database starts an empty one; so does a rebuild. *)
Lemma open_new o rebuild env k :
  opts_ok o -> validate o = Ok tt -> env_ok o env -> owner_locked k = false -> rebuild_needed (dirty k) = rebuild ->
  (rebuild = false -> dbfile k = None) ->
  exists d, open_inner o rebuild false env k =
      (Ok (engine_on o d (fresh_state o)), mkDisk true (Some (dirty_marker (durability o))) (Some (Some d)) (files k)) /\
    engine_ok (mkDisk true (Some (dirty_marker (durability o))) (Some (Some d)) (files k)) (engine_on o d (fresh_state o)) [] /\
    app d = empty_app.
Proof.
  intros Ho Hv He Hlk Hm Hd.
  destruct (start_new o env (mkDisk true (Some (dirty_marker (durability o))) None (files k)) Ho Hv He) as (d & Hs & Hok & Ha); [by left|].
  exists d. split; [|split; [by split; [..|left]|done]].
  unfold open_inner, open_locked. rewrite Hv, Hlk. cbn [dirty set_lock andb]. rewrite Hm.
  unfold write_dirty_marker. rewrite (ev_marker _ _ He).
  destruct rebuild; cbn [andb negb]; unfold set_dbfile, set_dirty, set_lock; cbn [dbfile owner_locked files dirty]; [|rewrite (Hd eq_refl)]; by rewrite Hs.
Qed.

(** A marker that demands a rebuild stops every other way to open. *)
Lemma open_refuses o adopt env k :
  validate o = Ok tt -> owner_locked k = false -> rebuild_needed (dirty k) = true ->
  open_inner (O := O) o false adopt env k = (Err (if adopt then AdoptionNotAllowed else RebuildRequired) : Res _ Eng, k).
Proof.
  intros Hv Hlk Hm. destruct k as [lk dm df fs]. cbn in Hlk, Hm. subst lk. destruct dm as [m|]; [|done].
  unfold open_inner, open_locked. rewrite Hv. cbn [owner_locked dirty set_lock]. rewrite bool_decide_eq_true_2 by eauto.
  destruct adopt; [done|]. cbn [andb negb]. by rewrite Hm.
Qed.

(** Whatever the disk holds, an engine that opens runs on a stored history. *)
Lemma open_sound o rebuild adopt env k e k' :
  open_inner o rebuild adopt env k = (Ok e, k') ->
  owner_locked k = false /\ exists h, engine_ok k' e h /\ same_config (fresh_state o) (state e).
Proof.
  unfold open_inner. destruct (validate o) as [[]|x| |]; [|done..]. destruct (owner_locked k); [done|].
  destruct (open_locked o rebuild adopt env (set_lock true k)) as [r k1] eqn:Eo. destruct r as [e'|x| |]; [intros [= -> ->]|done..].
  split; [done|]. unfold open_locked in Eo. destruct (adopt && _); [done|]. destruct (rebuild && _); [done|]. destruct (negb rebuild && _); [done|].
  set (k0 := if rebuild then _ else _) in Eo. assert (owner_locked k0 = true) as Hk0 by (by destruct rebuild).
  destruct (write_dirty_marker (marker_fault env) (dirty_marker (durability o)) k0) as [r k2] eqn:Em.
  destruct (write_marker_parts _ _ _ _ _ Em) as (L1 & _). rewrite Hk0 in L1. destruct r as [[]|x| |]; [|done..].
  assert (dirty k2 = Some (dirty_marker (durability o))) as Hmk.
  { unfold write_dirty_marker in Em. destruct (marker_fault env) as [[]|]; by simplify_eq. }
  assert (exists fresh, start_engine o env fresh k2 = (Ok e, k')) as [fresh Hs].
  { destruct (dbfile k2) as [d|].
    - destruct (preflight o adopt env d) as [[]|x| |]; [|destruct (requires_projection_rebuild x); [destruct (write_dirty_marker (poison_fault env) DIRTY_POISONED k2) as [[] ?]|]; done|done..].
      exists adopt. by destruct (start_engine o env adopt k2) as [[] ?]; simplify_eq.
    - destruct adopt; [done|]. exists true. by destruct (start_engine o env true k2) as [[] ?]; simplify_eq. }
  apply start_engine_inv in Hs as (d & s & -> & Hd & Hl & Hsc & Hv & Hlk & Hdy & _).
  destruct (validate_sound d s Hl Hv) as [h Hok]. { by apply same_config_fields in Hsc as (_ & _ & _ & -> & _). }
  exists h. split; [|done]. split; [congruence|done|done|done|left; cbn; congruence].
Qed.

(** Opening without a rebuild keeps the tables of the application, whatever the
    outcome; unless it adopts them it keeps the whole database. *)
Lemma start_keeps o env fresh k d r k' :
  start_engine (C := C) o env fresh k = (r, k') -> dbfile k = Some (Some d) ->
  exists d', dbfile k' = Some (Some d') /\ app d' = app d /\ (fresh = false -> d' = d).
Proof.
  intros Hs Hd. unfold start_engine in Hs. revert Hs. step_st. rewrite Hd. destruct (negb _); [intros [= <- <-]; eauto|].
  destruct fresh.
  - destruct (create_metadata_tables o RECEIPT_CODEC d) as [rc d1] eqn:Ec. assert (app d1 = app d) as Ha.
    { revert Ec. unfold create_metadata_tables. step_st. destruct (meta_table d); [by intros [= <- <-]|].
      cbn. by destruct (receipts_table d); intros [= <- <-]. }
    intros Hs. exists d1. split; [|done]. by destruct rc; injection Hs as <- <-.
  - destruct (require_metadata_table d); intros [= <- <-]; eauto.
Qed.

Lemma drop_init_dbfile armed (k : Disk A) : dbfile (drop_init_lock armed k) = dbfile k.
Proof. by destruct armed. Qed.

Lemma open_keeps o adopt env k d r k' :
  open_inner (C := C) o false adopt env k = (r, k') -> dbfile k = Some (Some d) ->
  exists d', dbfile k' = Some (Some d') /\ app d' = app d /\ (adopt = false -> d' = d).
Proof.
  intros Ho Hd. unfold open_inner in Ho. destruct (validate o); [|injection Ho as <- <-; by eauto..].
  destruct (owner_locked k); [injection Ho as <- <-; by eauto|].
  destruct (open_locked o false adopt env (set_lock true k)) as [r1 k1] eqn:El.
  assert (dbfile k' = dbfile k1) as -> by (by destruct r1; injection Ho as <- <-). clear Ho. unfold open_locked in El.
  destruct (adopt && _); [injection El as <- <-; by eauto|]. cbn [andb negb] in El.
  destruct (rebuild_needed _); [injection El as <- <-; by eauto|].
  destruct (write_dirty_marker (marker_fault env) (dirty_marker (durability o)) (set_lock true k)) as [rm k2] eqn:Em.
  destruct (write_marker_parts _ _ _ _ _ Em) as (_ & L2 & _). cbn in L2. rewrite Hd in L2.
  destruct rm as [[]|x| |]; [|injection El as <- <-; rewrite drop_init_dbfile; by eauto..].
  rewrite L2 in El. destruct (preflight o adopt env (Some d)) as [[]|x| |]; [| |injection El as <- <-; rewrite drop_init_dbfile; by eauto..].
  - destruct (start_engine o env adopt k2) as [rs k3] eqn:Es. destruct (start_keeps _ _ _ _ _ _ _ Es L2) as (d' & E1 & E2 & E3).
    exists d'. split; [|done]. by destruct rs; injection El as <- <-; rewrite ?drop_init_dbfile.
  - destruct (requires_projection_rebuild x); [|injection El as <- <-; rewrite drop_init_dbfile; by eauto].
    destruct (write_dirty_marker (poison_fault env) DIRTY_POISONED k2) as [rp k3] eqn:Ep.
    destruct (write_marker_parts _ _ _ _ _ Ep) as (_ & L3 & _). rewrite L2 in L3. exists d. split; [|done].
    by destruct rp; injection El as <- <-; rewrite ?drop_init_dbfile.
Qed.

Lemma start_settled o env fresh (k : Disk A) : settled (start_engine (C := C) o env fresh k).1.
Proof.
  assert (forall d, settled (loaded_engine (C := C) o env d)) as Hl.
  { intros d. unfold loaded_engine. apply settled_bind; [apply load_settled|intros st _].
    apply settled_bind; [unfold validate_configuration; cbv zeta; by destruct (_ ++ _)|intros _ _].
    apply settled_bind; [apply validate_settled|intros _ _]. by destruct (pool_ok env). }
  assert (forall d, settled (create_metadata_tables (A := A) o RECEIPT_CODEC d).1) as Hc.
  { intros d. unfold create_metadata_tables. step_st. destruct (meta_table d); [done|]. cbn. by destruct (receipts_table d). }
  unfold start_engine. step_st. destruct (dbfile k) as [[d|]|]; [|done|]; (destruct (negb _); [done|]); destruct fresh.
  - specialize (Hc d). destruct (create_metadata_tables o RECEIPT_CODEC d) as [[[]|x| |] d']; (done || apply Hl).
  - unfold require_metadata_table. destruct (metadata_table_exists d); [apply Hl|done].
  - specialize (Hc (mkDb None None empty_app)).
    destruct (create_metadata_tables o RECEIPT_CODEC (mkDb None None empty_app)) as [[[]|x| |] d']; (done || apply Hl).
  - done.
Qed.

(** Opening returns an engine or an error, never a panic, whatever the tables of the
    database hold. *)
Lemma open_settled o rebuild adopt env (k : Disk A) : settled (open_inner (C := C) o rebuild adopt env k).1.
Proof.
  assert (settled (validate o)) as Hv by (unfold validate; by repeat case_match).
  unfold open_inner. destruct (validate o); [|done..]. destruct (owner_locked k); [done|].
  assert (settled (open_locked (C := C) o rebuild adopt env (set_lock true k)).1) as Hl.
  { unfold open_locked. destruct (adopt && _); [done|]. destruct (rebuild && _); [done|]. destruct (negb rebuild && _); [done|].
    destruct (write_dirty_marker (marker_fault env) _ _) as [[[]|x| |] k2]; [|done..].
    assert (forall fresh, settled (start_engine (C := C) o env fresh k2).1) as Hs by (intros; apply start_settled).
    destruct (dbfile k2) as [d|]; [|destruct adopt; [done|]; specialize (Hs true); by destruct (start_engine o env true k2) as [[] ?]].
    assert (settled (preflight (C := C) o adopt env d)) as Hp.
    { unfold preflight. apply settled_bind; [by destruct d|intros d' _]. destruct adopt; [by repeat case_match|].
      apply settled_bind; [unfold require_metadata_table; by destruct (metadata_table_exists _)|intros _ _].
      apply settled_bind; [apply load_settled|intros st _].
      apply settled_bind; [unfold validate_configuration; cbv zeta; by destruct (_ ++ _)|intros _ _]. apply validate_settled. }
    destruct (preflight o adopt env d) as [[]|x| |]; [| |done..].
    - specialize (Hs adopt). by destruct (start_engine o env adopt k2) as [[] ?].
    - destruct (requires_projection_rebuild x); [|done]. by destruct (write_dirty_marker (poison_fault env) DIRTY_POISONED k2) as [[] ?]. }
  by destruct (open_locked o rebuild adopt env (set_lock true k)) as [[] ?].
Qed.
End ExtLife.
