(* ===== verification/ExtRun.v ===== *)
(** Runs of the external engine: any sequence of requests with any failures, a
    crash after it, and opening again; retries; sequences without failures against
    the abstract machine; snapshots carried from one engine to another. *)
From stdpp Require Import base gmap strings list numbers sorting.
From Stdlib Require Import Strings.Byte.
From S2P Require Import Prelude Text ExtBase ExtStore ExtStoreSpec ExtSound ExtEngine ExtEngineSpec ExtLife.

#[local] Open Scope Z_scope.

Section ExtRun.
Context {C A O Out OpE : Type} `{EqDecision C} `{ExtPrims C, !ExtPrimsOk C} `{SqlOperation A O Out OpE, !SqlOperationOk A O Out OpE}.
Context `{SqliteFiles A}.
#[local] Abbreviation Stored := (StoredState C).
#[local] Abbreviation Evidence := (ExternalSnapshotEvidence C).
#[local] Abbreviation Eng := (@ExternalSqlite C A).
#[local] Abbreviation Req := (@WriterRequest C O).
#[local] Abbreviation Rep := (@WriterReply C Out OpE).

(** ** Runs *)

(** The requests of one writer thread, with the databases it committed, newest
    first, and whether it is poisoned. *)
Inductive run (k0 : Disk A) (e0 : Eng) : list (Db A) -> bool -> Disk A -> Eng -> Prop :=
| run_nil : run k0 e0 [committed (conn e0)] false k0 e0
| run_step ds k e fl g (r : Req) (rep : Rep) p k' e' :
    run k0 e0 ds false k e -> request_wf r -> handle fl g r k e = (rep, p, (k', e')) ->
    run k0 e0 (committed (conn e') :: ds) p k' e'.

(** A database that stores some history of the configuration of [s]. *)
Definition holds (s : Stored) (d : Db A) : Prop := exists s' h, store_ok d s' h /\ same_config s s'.

(** The database file is the committed database of the connection. *)
Lemma handle_file fl g (r : Req) (rep : Rep) p k e k' e' :
  handle fl g r k e = (rep, p, (k', e')) -> dbfile k = Some (Some (committed (conn e))) ->
  dbfile k' = Some (Some (committed (conn e'))).
Proof.
  intros Hh Hf. destruct r as [c op|c| |id path|path ev]; cbn [handle] in Hh.
  - destruct (apply_committed _ _ _ _) as [[res q] [cn s]]. injection Hh as <- <- <- <-. by rewrite (proj2 (poison_parts _ _ _)).
  - destruct (advance_committed _ _ _) as [[res q] [cn s]]. injection Hh as <- <- <- <-. by rewrite (proj2 (poison_parts _ _ _)).
  - by injection Hh as <- <- <- <-.
  - unfold handle_snapshot in Hh. destruct (f_snapshot_id fl); [by injection Hh as <- <- <- <-|].
    destruct (persist_snapshot_id _ _) as [d|x| |]; [|by injection Hh as <- <- <- <-..].
    cbn [with_conn fst snd] in Hh. destruct (create_external_snapshot _ _ _ _) as [rs fs]. by injection Hh as <- <- <- <-.
  - unfold handle_restore in Hh. destruct (restore_preflight path ev k e) as [[]|x| |]; [|by injection Hh as <- <- <- <-..].
    destruct (write_dirty_marker (f_marker fl) DIRTY_POISONED k) as [rm k1] eqn:Em.
    destruct (write_marker_parts _ _ _ _ _ Em) as (_ & L2 & _). rewrite Hf in L2.
    destruct rm as [[]|x| |]; [|by injection Hh as <- <- <- <-..].
    assert (dbfile (restore_live (C := C) fl g path ev k1 e).2.1 = Some (Some (committed (conn (restore_live fl g path ev k1 e).2.2)))) as Hr.
    { unfold restore_live. destruct g as [g|]; [done|].
      destruct (match files k1 !! path with Some (Regular b) => open_image b | _ => None end) as [d|]; [|done].
      cbn [with_conn fst snd]. destruct (load_state d ≫= _) as [[st ev']|x| |]; [|done..].
      destruct (write_dirty_marker (f_remark fl) _ _) as [rr k2] eqn:Er. destruct (write_marker_parts _ _ _ _ _ Er) as (_ & L3 & _).
      by destruct rr. }
    destruct (restore_live fl g path ev k1 e) as [[] [k2 e2]]; injection Hh as <- <- <- <-; exact Hr.
Qed.

(** Every database a run committed stores a history, or its marker demands a
    rebuild. *)
Lemma run_ok k0 e0 h0 ds p k e :
  engine_ok k0 e0 h0 -> run k0 e0 ds p k e ->
  dbfile k = Some (Some (committed (conn e))) /\ head ds = Some (committed (conn e)) /\
  (Forall (holds (state e0)) ds \/ rebuild_needed (dirty k) = true) /\
  (p = false -> Forall (holds (state e0)) ds /\ exists h, engine_ok k e h /\ same_config (state e0) (state e) /\ active_marker e = active_marker e0).
Proof.
  intros Hok0 Hr. induction Hr as [|ds k e fl g r rep p k' e' Hr IH Hwf Hh].
  - assert (Forall (holds (state e0)) [committed (conn e0)]) as Hall.
    { apply Forall_singleton. exists (state e0), h0. split; [by eapply eo_store|done]. }
    split; [by eapply eo_file|]. split; [done|]. split; [by left|]. intros _. split; [done|]. exists h0. done.
  - destruct IH as (_ & _ & _ & IH). destruct (IH eq_refl) as (Hall & h & Hok & Hsc & Hmk). clear IH.
    pose proof (handle_ok fl g r k e h Hok Hwf) as Hd. rewrite Hh in Hd.
    pose proof (handle_file _ _ _ _ _ _ _ _ _ Hh (eo_file _ _ _ Hok)) as Hf.
    split; [done|]. split; [done|]. unfold request_done in Hd. destruct p.
    + split; [|done]. destruct Hd as [(d & s' & h' & Ed & Hst & Hsc')|Hrb]; [left|by right].
      constructor; [|done]. rewrite Hf in Ed. injection Ed as <-. exists s', h'. split; [done|by eapply same_config_trans].
    + destruct Hd as (h' & Hok' & Hsc' & Hmk' & _). assert (same_config (state e0) (state e')) as Hsc2 by (by eapply same_config_trans).
      assert (Forall (holds (state e0)) (committed (conn e') :: ds)) as Hall'.
      { constructor; [|done]. exists (state e'), h'. split; [by eapply eo_store|done]. }
      split; [by left|]. intros _. split; [done|]. exists h'. split; [done|]. split; [done|]. congruence.
Qed.

(** ** Crashes *)

(** What a crash leaves, as SQLite documents it for its [synchronous] levels: with
    FULL every commit, with NORMAL one of the databases that were committed since the
    engine opened, with OFF anything.  After a shutdown everything is on the device.
    The lock goes with the process. *)
Definition survives (ds : list (Db A)) (k k' : Disk A) : Prop :=
  owner_locked k' = false /\ dirty k' = dirty k /\ files k' = files k /\
  match dirty k with
  | None | Some DIRTY_FULL => dbfile k' = dbfile k
  | Some DIRTY_NORMAL => exists d, d ∈ ds /\ dbfile k' = Some (Some d)
  | _ => True
  end.

Lemma survives_db ds k k' d :
  survives ds k k' -> rebuild_needed (dirty k) = false -> dbfile k = Some (Some d) -> head ds = Some d ->
  exists d', dbfile k' = Some (Some d') /\ d' ∈ ds /\ (dirty k <> Some DIRTY_NORMAL -> d' = d).
Proof.
  intros (_ & _ & _ & Hm) Hrb Hd Hh. assert (d ∈ ds) as Hin by (destruct ds; [done|injection Hh as ->; by left]).
  destruct (dirty k) as [[]|]; try done.
  - exists d. split; [congruence|done].
  - destruct Hm as (d' & Hin' & Hd'). exists d'. done.
  - exists d. split; [congruence|done].
Qed.

(** C7: After any run and a crash, the engine opens on a history the run had
    committed, the last one unless the level is NORMAL, or opening demands a rebuild
    and changes nothing. *)
Lemma crash_recovers k0 e0 h0 ds p k e k' o env :
  engine_ok k0 e0 h0 -> run k0 e0 ds p k e -> survives ds k k' ->
  validate o = Ok tt -> env_ok o env -> same_config (fresh_state o) (state e0) ->
  (rebuild_needed (dirty k') = true /\ open_inner o false false env k' = (Err RebuildRequired : Res _ Eng, k')) \/
  (exists d s h k1, d ∈ ds /\ open_inner o false false env k' = (Ok (engine_on o d s), k1) /\ engine_ok k1 (engine_on o d s) h /\
     (dirty k <> Some DIRTY_NORMAL -> d = committed (conn e))).
Proof.
  intros Hok0 Hr Hs Hv He Hsc. destruct (run_ok _ _ _ _ _ _ _ Hok0 Hr) as (Hf & Hh & Hall & _). pose proof Hs as (Hlk & Hdk & _ & _).
  destruct (rebuild_needed (dirty k)) eqn:Erb; [left; rewrite Hdk; split; [done|]; apply open_refuses; congruence|right].
  destruct Hall as [Hall|]; [|congruence]. destruct (survives_db _ _ _ _ Hs Erb Hf Hh) as (d & Hd & Hin & Hlast).
  rewrite Forall_forall in Hall. destruct (Hall d Hin) as (s & h & Hst & Hsc').
  destruct (open_existing o env k' d s h Hv He Hlk ltac:(congruence) Hd Hst) as [Ho Hok]; [by eapply same_config_trans|].
  exists d, s, h. eexists. split; [done|]. split; [exact Ho|]. split; [exact Hok|done].
Qed.

(** A clean shutdown keeps the history at every durability level, also when the
    machine stops afterwards. *)
Lemma shutdown_reopens k e h o env k1 :
  engine_ok k e h -> validate o = Ok tt -> env_ok o env -> same_config (fresh_state o) (state e) ->
  survives [] (shutdown (C := C) no_faults k e).2 k1 ->
  (shutdown (C := C) no_faults k e).1 = Ok tt /\
  exists k2, open_inner o false false env k1 = (Ok (engine_on o (committed (conn e)) (state e)), k2) /\
    engine_ok k2 (engine_on o (committed (conn e)) (state e)) h.
Proof.
  intros [Hlk Htx Hf Hst Hmk] Hv He Hsc Hs. split; [done|]. destruct Hs as (Q1 & Q2 & _ & Q4). cbn in Q1, Q2, Q4.
  destruct (open_existing o env k1 (committed (conn e)) (state e) h) as [Ho Hok]; try done; [by rewrite Q2|congruence|eauto].
Qed.

(** ** Retries *)
Lemma spec_class_retry s h x :
  config_ok (C := C) s -> dense s h -> x ∈ h -> oldest s h <= seq_of x -> spec_class s h (d_commit x) (d_kind x) = Ok (Some x).
Proof.
  intros Hc Hd Hx Ho. unfold spec_class. pose proof (seq_range s h x Hd Hx) as Hr. unfold seq_of in *.
  rewrite (proj2 (Z.eqb_neq _ _)), (proj2 (Z.ltb_ge _ _)) by lia. rewrite (bool_decide_eq_false_2 (h = [])) by (intros ->; by inversion Hx).
  rewrite (proj2 (Z.ltb_ge _ _)) by lia.
  assert (h !! Z.to_nat (sequence (d_commit x) - initial_sequence s) = Some x) as ->.
  { apply list_elem_of_lookup in Hx as [i Hi]. pose proof (Hd _ _ Hi) as E. unfold seq_of in E. replace (Z.to_nat _) with i by lia. done. }
  by rewrite !bool_decide_eq_true_2.
Qed.

(** A retry of a retained entry is answered from its receipt and changes nothing,
    whatever operation it carries and whatever fails. *)
Lemma retry_recovers fl g x out op k e h :
  engine_ok k e h -> x ∈ h -> oldest (state e) h <= seq_of x -> d_kind x = Operation -> decode_receipt (d_receipt x) = Some out ->
  handle fl g (WApply (d_commit x) op : Req) k e = (RApply (Ok (Recovered out)) : Rep, false, (k, e)).
Proof.
  intros [Hlk Htx Hf Hst Hmk] Hx Ho Hk Hout. cbn [handle]. unfold apply_committed, run_thunk.
  pose proof (so_config _ _ _ Hst) as Hc. pose proof (so_done _ _ _ Hst) as Hdn.
  pose proof (classify_ok (committed (conn e)) (state e) h (d_commit x) Operation Hst (seq_u64 _ _ _ Hdn Hx)) as Hcl.
  pose proof (spec_class_retry (state e) h x Hc (so_dense _ _ _ Hst) Hx Ho) as Hsc. rewrite Hk in Hsc. rewrite Hsc in Hcl. cbn in Hcl.
  assert (apply_operation fl (d_commit x) op (conn e, state e) = (Ok (Recovered out), (conn e, state e))) as ->.
  { unfold apply_operation. xstep. unfold view. rewrite Htx. cbn [default from_option]. rewrite Hcl. cbn. by rewrite Hout. }
  unfold reconcile_after_apply, is_autocommit. xstep. rewrite Htx, bool_decide_eq_true_2 by done. cbn [negb]. xstep.
  rewrite Htx, bool_decide_eq_true_2 by done. cbn [negb]. xstep. unfold with_conn, poison, set_dbfile. cbn [fst snd]. rewrite <- Hf.
  by destruct k, e.
Qed.

(** ** Exactly once *)

(** The abstract machine reads only the configuration of the state. *)
Lemma spec_class_config s s' h c k : same_config (C := C) s s' -> spec_class s' h c k = spec_class s h c k.
Proof.
  intros (_ & E2 & _ & _ & E5 & _)%same_config_fields. unfold spec_class, oldest, next_seq, floor_of. by rewrite E2, E5.
Qed.
Lemma spec_apply_config s s' h (a : A) c op : same_config (C := C) s s' -> spec_apply s' h a c op = spec_apply s h a c op.
Proof.
  intros Hsc. unfold spec_apply. rewrite (spec_class_config s s') by done.
  by apply same_config_fields in Hsc as (_ & _ & _ & _ & _ & ->).
Qed.
Lemma spec_advance_config s s' h c : same_config (C := C) s s' -> spec_advance s' h c = spec_advance s h c.
Proof. intros Hsc. unfold spec_advance. by rewrite (spec_class_config s s'). Qed.

(** Without failures a request does what the abstract machine does. *)
Lemma apply_exact c op k e h sr h1 a1 :
  engine_ok k e h -> commit_ok c -> spec_apply (state e) h (app (committed (conn e))) c op = (sr, h1, a1) ->
  exists k' e', handle no_faults None (WApply c op : Req) k e = (RApply sr : Rep, false, (k', e')) /\
    engine_ok k' e' h1 /\ app (committed (conn e')) = a1 /\ same_config (state e) (state e').
Proof.
  intros Hok Hc Hsp. pose proof Hok as [Hlk Htx Hf Hst Hmk].
  pose proof (apply_committed_ok no_faults c op (conn e) (state e) h Hst Htx Hc) as Ha. cbn [handle].
  destruct (apply_committed no_faults c op (conn e, state e)) as [[res p] [cn' s']]. rewrite Hsp in Ha.
  destruct Ha as (s1 & h' & [Hst' Hsc] & Hrun & _ & _ & Hno). destruct (Hno eq_refl) as (-> & -> & -> & <-).
  destruct (Hrun eq_refl) as [Htx' ->]. cbn [with_conn fst snd poison]. eexists _, _. split; [reflexivity|]. by split.
Qed.

Lemma advance_exact c k e h sr h1 :
  engine_ok k e h -> commit_ok c -> spec_advance (state e) h c = (sr, h1) ->
  exists k' e', handle no_faults None (WAdvance c : Req) k e = (RAdvance sr : Rep, false, (k', e')) /\
    engine_ok k' e' h1 /\ app (committed (conn e')) = app (committed (conn e)) /\ same_config (state e) (state e').
Proof.
  intros Hok Hc Hsp. pose proof Hok as [Hlk Htx Hf Hst Hmk].
  pose proof (advance_committed_ok no_faults c (conn e) (state e) h Hst Htx Hc) as Ha. cbn [handle].
  destruct (advance_committed no_faults c (conn e, state e)) as [[res p] [cn' s']]. rewrite Hsp in Ha.
  destruct Ha as (s1 & h' & [Hst' Hsc] & Hrun & _ & _ & Hno). destruct (Hno eq_refl) as (-> & -> & -> & Happ).
  destruct (Hrun eq_refl) as [Htx' ->]. cbn [with_conn fst snd poison]. eexists _, _. split; [reflexivity|]. by split.
Qed.

(** What a first attempt leaves, whatever failed: the file holds the old history,
    or the history with the entry, and the marker is the old one unless the attempt
    poisoned the writer. *)
Lemma attempt_lands fl g c op k e h (rep : Rep) p k1 e1 sr h1 a1 :
  engine_ok k e h -> commit_ok c -> spec_apply (state e) h (app (committed (conn e))) c op = (sr, h1, a1) ->
  handle fl g (WApply c op : Req) k e = (rep, p, (k1, e1)) ->
  dbfile k1 = Some (Some (committed (conn e1))) /\ (p = false -> dirty k1 = dirty k) /\
  exists s h', store_ok (committed (conn e1)) s h' /\ same_config (state e) s /\
    ((h' = h1 /\ app (committed (conn e1)) = a1) \/ (h' = h /\ app (committed (conn e1)) = app (committed (conn e)))).
Proof.
  intros Hok Hc Hsp Hh. split; [eapply handle_file; [exact Hh|by eapply eo_file]|]. pose proof Hok as [Hlk Htx Hf Hst Hmk].
  pose proof (apply_committed_ok fl c op (conn e) (state e) h Hst Htx Hc) as Ha. cbn [handle] in Hh.
  destruct (apply_committed fl c op (conn e, state e)) as [[res q] [cn' s']]. rewrite Hsp in Ha.
  destruct Ha as (s1 & h' & [Hst' Hsc] & _ & _ & Hcase & _). cbn [with_conn fst snd] in Hh. injection Hh as <- <- <- <-.
  split; [by intros ->|]. exists s1, h'. split; [done|]. split; [done|].
  destruct Hcase as [(_ & ? & ?)|[(_ & ? & ?)|(_ & _ & ? & ?)]]; auto.
Qed.

Lemma oldest_last s h : config_ok (C := C) s -> oldest s h <= Z.max (initial_sequence s) (next_seq s h - 1).
Proof. intros Hc. by apply oldest_range. Qed.

(** C5: A commit that is retried after a crash that loses at most this commit is
    applied exactly once, at every durability level and whatever failed in the first
    attempt: after opening again the retry is answered with the output, as applied
    now or as recovered, and the operation ran once on the tables; or opening
    demands a rebuild and changes nothing, which it does only when the first attempt
    poisoned the writer or the engine already ran under a marker that demands it. *)
Lemma exactly_once fl g c op out rcp a1 k e h (rep : Rep) p k1 e1 k2 o env :
  engine_ok k e h -> commit_ok c -> sequence c = next_seq (state e) h ->
  op_apply op (app (committed (conn e))) = (inl out, a1) -> encode_receipt out = Some rcp -> zlen rcp <= max_receipt_bytes (state e) ->
  is_Some (ser_coord (coordinate c)) ->
  handle fl g (WApply c op : Req) k e = (rep, p, (k1, e1)) ->
  survives [committed (conn e1); committed (conn e)] k1 k2 ->
  validate o = Ok tt -> env_ok o env -> same_config (fresh_state o) (state e) ->
  (open_inner o false false env k2 = (Err RebuildRequired : Res _ Eng, k2) /\ (p = true \/ rebuild_needed (dirty k) = true)) \/
  exists e2 k3 k4 e4 answer, open_inner o false false env k2 = (Ok e2, k3) /\
    handle no_faults None (WApply c op : Req) k3 e2 = (RApply (Ok answer) : Rep, false, (k4, e4)) /\
    (answer = Applied out \/ answer = Recovered out) /\
    engine_ok k4 e4 (h ++ [mkDone c Operation rcp]) /\ app (committed (conn e4)) = a1.
Proof.
  intros Hok Hc Hseq Hop Henc Hsz [b Hb] Hh Hs Hv He Hsc0.
  assert (spec_class (state e) h c Operation = Ok None) as Hcl by (unfold spec_class; by rewrite Hseq, Z.eqb_refl).
  assert (spec_apply (state e) h (app (committed (conn e))) c op = (Ok (Applied out), h ++ [mkDone c Operation rcp], a1)) as Hsp.
  { unfold spec_apply. by rewrite Hcl, Hop, Henc, (proj2 (Z.ltb_ge _ _)), Hb by done. }
  destruct (attempt_lands fl g c op k e h rep p k1 e1 _ _ _ Hok Hc Hsp Hh) as (Hf & Hp & s1 & h1 & Hst1 & Hsc1 & Hcase1).
  pose proof Hs as (Q1 & Q2 & _ & _). destruct (rebuild_needed (dirty k1)) eqn:Erb; [left|right].
  { split; [apply (open_refuses (O := O) o false env k2); congruence|].
    destruct p; [by left|]. right. by rewrite <- (Hp eq_refl). }
  destruct (survives_db _ _ _ _ Hs Erb Hf eq_refl) as (d & Hd & Hin & _).
  assert (exists s h', store_ok d s h' /\ same_config (state e) s /\
    ((h' = h ++ [mkDone c Operation rcp] /\ app d = a1) \/ (h' = h /\ app d = app (committed (conn e))))) as (s & h' & Hst & Hsc & Hcase).
  { apply elem_of_cons in Hin as [->|Hin%list_elem_of_singleton]; [by eauto|]. subst d.
    exists (state e), h. split; [by eapply eo_store|]. split; [done|by right]. }
  destruct (open_existing o env k2 d s h' Hv He Q1 ltac:(by rewrite Q2) Hd Hst) as [Ho Hok2]; [by eapply same_config_trans|].
  eexists _, _. set (k3 := set_dirty _ _) in *.
  assert (exists answer, (answer = Applied out \/ answer = Recovered out) /\
    spec_apply s h' (app d) c op = (Ok answer, h ++ [mkDone c Operation rcp], a1)) as (answer & Hans & Hsp2).
  { rewrite (spec_apply_config (state e) s) by done. destruct Hcase as [[-> ->]|[-> ->]]; [|by eauto].
    exists (Recovered out). split; [by right|]. unfold spec_apply.
    rewrite <- (spec_class_config (state e) s) by done. set (x := mkDone c Operation rcp).
    rewrite (spec_class_retry s _ x); [cbn; by rewrite (receipt_round _ _ Henc)|by eapply so_config|by eapply so_dense|apply elem_of_app; right; by left|].
    apply same_config_fields in Hsc as (_ & Ei & _).
    pose proof (oldest_last s (h ++ [x]) (so_config _ _ _ Hst)) as Hl. unfold next_seq in *. rewrite zlen_app in *. change (zlen [x]) with 1 in *.
    unfold seq_of. cbn. rewrite Hseq. pose proof (zlen_nonneg h). lia. }
  destruct (apply_exact c op k3 (engine_on o d s) h' _ _ _ Hok2 Hc Hsp2) as (k4 & e4 & Hh4 & Hok4 & Ha4 & _).
  exists k4, e4, answer. done.
Qed.

(** ** Sequences of entries *)
Inductive Entry : Type := EApply (c : ExternalCommit C) (op : O) | EAdvance (c : ExternalCommit C).
Definition request_of (x : Entry) : Req := match x with EApply c op => WApply c op | EAdvance c => WAdvance c end.
Definition entry_wf (x : Entry) : Prop := match x with EApply c _ | EAdvance c => commit_ok c end.

(** The abstract machine over a sequence of entries. *)
Fixpoint spec_serve (s : Stored) (h : list Done) (a : A) (l : list Entry) : list Rep * list Done * A :=
  match l with
  | [] => ([], h, a)
  | EApply c op :: l =>
      let '(r, h, a) := spec_apply s h a c op in let '(rs, h, a) := spec_serve s h a l in (RApply r :: rs, h, a)
  | EAdvance c :: l =>
      let '(r, h) := spec_advance s h c in let '(rs, h, a) := spec_serve s h a l in (RAdvance r :: rs, h, a)
  end.

Definition quietly (x : Entry) : Faults * option (Db A) * Req := (no_faults, None, request_of x).

Lemma serve_refines s l : forall k e h reps h1 a1,
  engine_ok k e h -> same_config s (state e) -> Forall entry_wf l -> spec_serve s h (app (committed (conn e))) l = (reps, h1, a1) ->
  exists k' e', serve (quietly <$> l) k e = (reps, false, (k', e')) /\ engine_ok k' e' h1 /\ app (committed (conn e')) = a1 /\
    same_config s (state e').
Proof.
  induction l as [|x l IH]; intros k e h reps h1 a1 Hok Hsc Hwf Hsp.
  { injection Hsp as <- <- <-. exists k, e. done. }
  apply Forall_cons in Hwf as [Hx Hl]. rewrite fmap_cons. cbn [serve]. unfold quietly at 1. destruct x as [c op|c]; cbn [spec_serve request_of] in *.
  - destruct (spec_apply s h (app (committed (conn e))) c op) as [[r h2] a2] eqn:Es. rewrite <- (spec_apply_config s (state e)) in Es by done.
    destruct (spec_serve s h2 a2 l) as [[rs h3] a3] eqn:Esl. injection Hsp as <- <- <-.
    destruct (apply_exact c op k e h _ _ _ Hok Hx Es) as (k' & e' & Hh & Hok' & Ha' & Hsc').
    rewrite Hh. cbn [request_of]. subst a2. destruct (IH k' e' h2 rs h3 a3 Hok') as (k2 & e2 & Hs & Hr); [by eapply same_config_trans|done|done|].
    rewrite Hs. eauto.
  - destruct (spec_advance s h c) as [r h2] eqn:Es. rewrite <- (spec_advance_config s (state e)) in Es by done.
    destruct (spec_serve s h2 (app (committed (conn e))) l) as [[rs h3] a3] eqn:Esl. injection Hsp as <- <- <-.
    destruct (advance_exact c k e h _ _ Hok Hx Es) as (k' & e' & Hh & Hok' & Ha' & Hsc').
    rewrite Hh. cbn [request_of]. rewrite <- Ha' in Esl. destruct (IH k' e' h2 rs h3 a3 Hok') as (k2 & e2 & Hs & Hr); [by eapply same_config_trans|done|done|].
    rewrite Hs. eauto.
Qed.

(** ** Snapshots *)
Section Transfer.
Context `{!SqliteFilesOk A}.

Lemma append_neq (s t : string) : t <> EmptyString -> s +:+ t <> s.
Proof. intros Ht. induction s as [|c s IH]; cbn; [done|]. intros [= E]. done. Qed.

(** The evidence of the snapshot file of [d]. *)
Definition evidence_of (d : Db A) (s : Stored) (id : string) : Evidence :=
  snapshot_evidence s id (page_size (image d)) (zlen (image d)) (sha256 (image d)).

(** Building a snapshot keeps the history and publishes a copy of the database that
    carries its id. *)
Lemma build_ok id path k e h :
  engine_ok k e h -> files k !! path = None ->
  exists k' e', build_snapshot_at no_faults id path k e = (Ok (evidence_of (committed (conn e')) (state e') id), (k', e')) /\
    engine_ok k' e' h /\ files k' !! path = Some (Regular (image (committed (conn e')))) /\
    snapshot_id (state e') = Some id /\ same_config (state e) (state e') /\ app (committed (conn e')) = app (committed (conn e)).
Proof.
  intros Hok Hp. pose proof Hok as [Hlk Htx Hf Hst Hmk]. unfold build_snapshot_at, handle_snapshot. rewrite Hp. cbn [no_faults f_snapshot_id].
  assert (view (conn e) = committed (conn e)) as -> by (unfold view; by rewrite Htx).
  destruct (persist_snapshot_id_total _ _ _ id Hst) as [d' Hd]. rewrite Hd. destruct (store_ok_snapshot _ _ _ _ _ Hst Hd) as [Hst' Happ].
  cbn [with_conn fst snd]. unfold create_external_snapshot. cbn [f_backup f_publish no_faults].
  assert (path +:+ "~" <> path) as Hne by (by apply append_neq).
  cbn [files set_dbfile]. rewrite lookup_insert_ne, lookup_delete_ne, Hp by done. cbn [err_or files set_files].
  unfold inspect_snapshot. rewrite lookup_delete_ne, lookup_insert_eq, open_image_round by done.
  eexists _, (mkEngine (mkConn d' None) (set_snapshot_id (Some id) (state e)) (active_marker e) (readers e)). split; [reflexivity|].
  split; [by split|]. split; [by cbn; rewrite lookup_delete_ne, lookup_insert_eq|]. done.
Qed.

Lemma validate_file_ok d s h id fs path :
  store_ok d s h -> snapshot_id s = Some id -> fs !! path = Some (Regular (image d)) ->
  validate_snapshot_file fs path (evidence_of d s id) = Ok tt.
Proof.
  intros Hst Hid Hp. unfold validate_snapshot_file, evidence_of.
  cbn [format_version snapshot_format sqlite_bytes sqlite_sha256 sqlite_page_size e_snapshot_id snapshot_evidence].
  rewrite String.eqb_refl, Hp, !Z.eqb_refl, open_image_round, quick_check_image. cbn [negb]. rewrite bool_decide_eq_true_2 by done. cbn [negb]. step_res.
  rewrite (so_load _ _ _ Hst). step_res. rewrite (validate_ok _ _ _ Hst). step_res.
  rewrite (bool_decide_eq_true_2 (snapshot_id s = Some id)) by done. cbn [negb]. by rewrite bool_decide_eq_true_2.
Qed.

Lemma compatibility_ok live s id (d : Db A) : same_config live s -> validate_snapshot_compatibility live (evidence_of d s id) = Ok tt.
Proof.
  intros (E1 & E2 & E3 & E4 & E5 & E6)%same_config_fields. unfold validate_snapshot_compatibility, evidence_of. cbn.
  rewrite E1, E2, E3, E4, E5, E6. by rewrite !String.eqb_refl, !Z.eqb_refl.
Qed.

(** A snapshot of a history is not stale for an engine that has a prefix of it. *)
Lemma prefix_not_stale s h2 h :
  dense s h -> h2 `prefix_of` h -> reject_stale_snapshot (C := C) (applied_of <$> last h2) (applied_of <$> last h) = Ok tt.
Proof.
  intros Hd [t ->]. destruct (last h2) as [x|] eqn:El; [|done]. cbn. destruct (last (h2 ++ t)) as [y|] eqn:Ey; cycle 1.
  { apply last_None, app_eq_nil in Ey as [-> _]. done. }
  cbn. assert (x ∈ h2 ++ t) as Hx by (apply elem_of_app; left; apply last_Some in El as [l' ->]; apply elem_of_app; right; by left).
  assert (y ∈ h2 ++ t) as Hy by (apply last_Some in Ey as [l' ->]; apply elem_of_app; right; by left).
  pose proof (last_seq s _ _ Hd Ey) as E1. pose proof (seq_range s _ x Hd Hx) as [_ E2].
  change (sequence (d_commit y)) with (seq_of y). change (sequence (d_commit x)) with (seq_of x).
  destruct (Z.ltb_spec (seq_of y) (seq_of x)); [lia|]. destruct (Z.eqb_spec (seq_of y) (seq_of x)) as [E|]; [|done].
  rewrite (seq_inj s _ y x Hd Hy Hx E). cbn. by rewrite bool_decide_eq_true_2.
Qed.

(** Restoring a snapshot of a history that continues the live one adopts the
    history and the tables. *)
Lemma restore_ok path k e h2 d s h id :
  engine_ok k e h2 -> store_ok d s h -> snapshot_id s = Some id -> same_config (state e) s -> h2 `prefix_of` h ->
  files k !! path = Some (Regular (image d)) ->
  exists k' e', handle_restore no_faults None path (evidence_of d s id) k e = (Ok (evidence_of d s id), false, (k', e')) /\
    engine_ok k' e' h /\ state e' = s /\ committed (conn e') = d /\ files k' = files k /\ active_marker e' = active_marker e /\ readers e' = readers e.
Proof.
  intros Hok Hst Hid Hsc Hpre Hp. pose proof Hok as [Hlk Htx Hf Hst2 Hmk].
  assert (restore_preflight path (evidence_of d s id) k e = Ok tt) as Hpf.
  { unfold restore_preflight. rewrite compatibility_ok by done. step_res. change (checkpoint (evidence_of d s id)) with (last_applied s).
    rewrite (so_last _ _ _ Hst), (so_last _ _ _ Hst2), (prefix_not_stale s) by (done || by eapply so_dense). step_res.
    by apply (validate_file_ok d s h). }
  unfold handle_restore. rewrite Hpf. cbn [write_dirty_marker f_marker no_faults]. unfold restore_live. cbn [files set_dirty]. rewrite Hp, open_image_round.
  cbn [with_conn fst snd]. rewrite (so_load _ _ _ Hst). step_res. rewrite (validate_ok _ _ _ Hst). step_res.
  rewrite bool_decide_eq_true_2 by done. cbn [negb]. unfold write_dirty_marker. cbn [f_remark no_faults].
  eexists _, _. split; [reflexivity|]. split; [by split; [..|left]|]. done.
Qed.

(** The same through [install_snapshot], which stages the file first. *)
Lemma install_ok env dir path k e h2 d s h id uuid :
  engine_ok k e h2 -> store_ok d s h -> snapshot_id s = Some id -> same_config (state e) s -> h2 `prefix_of` h ->
  files k !! path = Some (Regular (image d)) -> parse_uuid id = Some uuid -> pool_ok env = true ->
  (dir +:+ "/" +:+ uuid = path \/ files k !! (dir +:+ "/" +:+ uuid) = None) ->
  exists k' e', install_snapshot no_faults None env dir path (evidence_of d s id) k e = (Ok (evidence_of d s id), false, (k', e')) /\
    engine_ok k' e' h /\ state e' = s /\ committed (conn e') = d /\ readers e' = true.
Proof.
  intros Hok Hst Hid Hsc Hpre Hp Hu Hpool Hdest. set (dest := dir +:+ "/" +:+ uuid) in *.
  assert (exists k1, stage_snapshot dir path (evidence_of d s id) k = Ok (dest, k1) /\ files k1 !! dest = Some (Regular (image d)) /\ engine_ok k1 e h2)
    as (k1 & Hs & Hp1 & Hok1).
  { unfold stage_snapshot. rewrite (validate_file_ok d s h id) by done. step_res. cbn [e_snapshot_id evidence_of snapshot_evidence]. rewrite Hu. step_res.
    fold dest. destruct (String.eqb_spec dest path) as [E|Hne]; [exists k; by rewrite E|].
    destruct Hdest as [?|Hnone]; [done|]. rewrite Hnone, Hp. eexists. split; [reflexivity|]. split; [by cbn; rewrite lookup_insert_eq|].
    by destruct Hok; split. }
  destruct (restore_ok dest k1 e h2 d s h id Hok1 Hst Hid Hsc Hpre Hp1) as (k' & e' & Hr & Hok' & Hs' & Hc' & _).
  unfold install_snapshot. rewrite Hs, Hr, Hpool. eexists _, _. split; [reflexivity|]. split; [by destruct Hok'; split|]. done.
Qed.

(** A snapshot file that does not match its evidence, belongs to another
    configuration or is older than the live state is refused and nothing changes. *)
Lemma restore_refused fl g path ev k e x :
  restore_preflight path ev k e = Err x -> handle_restore (C := C) fl g path ev k e = (Err x, false, (k, e)).
Proof. intros Hp. unfold handle_restore. by rewrite Hp. Qed.
End Transfer.
End ExtRun.
