(* ===== verification/SqlRows.v ===== *)
(** Values, rows and parameters of the SQLite client:
    [hiqlite/src/query/{rows,cust_types}.rs] and
    [hiqlite/src/store/state_machine/sqlite/param.rs].

    A [f64] is its 64-bit pattern.  Text is the bytes of a UTF-8 string; what SQLite
    stores as TEXT can be other bytes too.  The conversions of rusqlite
    ([row.get::<_, T>]), the parser of URLs and [str::to_uppercase] outside of ASCII
    are the class [RowLib], with what their documentation says in [RowLibOk].  The
    conversions to the date and time types of chrono and to JSON only pass text to
    those crates and are left out. *)
From stdpp Require Import base strings list numbers.
From Stdlib Require Import Ascii Strings.Byte.
From S2P Require Import Prelude Text.

#[local] Open Scope Z_scope.

(** [Error] of [error.rs], without the messages and the variants of openraft. *)
Inductive SqlError : Type :=
| EBadRequest
| EBincode
| EConstraintViolation
| EError
| EQueryParams
| EQueryReturnedNoRows
| EPrepareStatement
| ESqlite
| ETransaction.
#[export] Instance SqlError_eqdec : EqDecision SqlError.
Proof. solve_decision. Defined.

(** ** UTF-8 *)
Definition code (a : ascii) : Z := Z.of_N (Ascii.N_of_ascii a).
Definition within (lo hi z : Z) : bool := (lo <=? z) && (z <=? hi).

(** [str::from_utf8(bytes).is_ok()] *)
Fixpoint valid_utf8 (s : string) : bool :=
  match s with
  | EmptyString => true
  | String a s1 =>
      let n := code a in
      if n <=? 0x7F then valid_utf8 s1
      else if within 0xC2 0xDF n then
        match s1 with
        | String b s2 => within 0x80 0xBF (code b) && valid_utf8 s2
        | _ => false
        end
      else if within 0xE0 0xEF n then
        match s1 with
        | String b (String c s3) =>
            within (if n =? 0xE0 then 0xA0 else 0x80) (if n =? 0xED then 0x9F else 0xBF) (code b)
            && within 0x80 0xBF (code c) && valid_utf8 s3
        | _ => false
        end
      else if within 0xF0 0xF4 n then
        match s1 with
        | String b (String c (String d s4)) =>
            within (if n =? 0xF0 then 0x90 else 0x80) (if n =? 0xF4 then 0x8F else 0xBF) (code b)
            && within 0x80 0xBF (code c) && within 0x80 0xBF (code d) && valid_utf8 s4
        | _ => false
        end
      else false
  end.

(** ** Searching in strings *)
Definition starts_with (p s : string) : bool := match strip_prefix p s with Some _ => true | None => false end.

(** [s.contains(p)] *)
Fixpoint contains (p s : string) : bool :=
  starts_with p s || match s with EmptyString => false | String _ s => contains p s end.

Definition is_ascii (s : string) : bool := forallb (fun a => code a <? 128) (String.list_ascii_of_string s).

Definition upper_ascii (a : ascii) : ascii :=
  if within 97 122 (code a) then Ascii.ascii_of_N (Ascii.N_of_ascii a - 32) else a.
Fixpoint map_ascii (f : ascii -> ascii) (s : string) : string :=
  match s with EmptyString => EmptyString | String a s => String (f a) (map_ascii f s) end.

Module Rows.

(** ** Values *)

(** [rusqlite::types::Value]: what a column of a row holds. *)
Inductive Value : Type :=
| VNull
| VInteger (i : Z)
| VReal (r : Z)
| VText (s : string)
| VBlob (b : list byte).
#[export] Instance Value_eqdec : EqDecision Value.
Proof. solve_decision. Defined.

(** [Param] *)
Inductive Param : Type :=
| PNull
| PInteger (i : Z)
| PReal (r : Z)
| PText (s : string)
| PBlob (b : list byte)
| PStmtOutputIndexed (stmt_index column_index : nat)
| PStmtOutputNamed (stmt_index : nat) (column_name : string).
#[export] Instance Param_eqdec : EqDecision Param.
Proof. solve_decision. Defined.

(** [ValueOwned] *)
Inductive ValueOwned : Type :=
| Null
| Integer (i : Z)
| Real (r : Z)
| Text (s : string)
| Blob (b : list byte).
#[export] Instance ValueOwned_eqdec : EqDecision ValueOwned.
Proof. solve_decision. Defined.

Inductive ColumnType : Type := TExpr | TInteger | TReal | TText | TBlob.
#[export] Instance ColumnType_eqdec : EqDecision ColumnType.
Proof. solve_decision. Defined.

Record ColumnInfo : Type := mkInfo { info_name : string; typ : ColumnType }.
Record ColumnOwned : Type := mkColumn { name : string; value : ValueOwned }.
#[export] Instance ColumnOwned_eqdec : EqDecision ColumnOwned.
Proof. solve_decision. Defined.
Record RowOwned : Type := mkRow { columns : list ColumnOwned }.
#[export] Instance RowOwned_eqdec : EqDecision RowOwned.
Proof. solve_decision. Defined.

(** ** What the crates and the standard library provide *)
Class RowLib : Type := {
  (** [row.get::<_, T>(i)] on the value of the column; [None] is the error *)
  get_string : Value -> option string;
  get_i64 : Value -> option Z;
  get_f64 : Value -> option Z;
  get_blob : Value -> option (list byte);
  (** [str::to_uppercase] *)
  to_uppercase : string -> string;
  (** [url::Url]: its parser and [to_string] *)
  Url : Type;
  url_parse : string -> option Url;
  url_to_string : Url -> string;
}.

(** The documentation of rusqlite's [FromSql]: TEXT is a [String] when it is UTF-8,
    INTEGER is an [i64] and a [f64], REAL is a [f64], BLOB is bytes, nothing else
    converts.  URLs print to what they are parsed from. *)
Class RowLibOk `{RowLib} : Prop := {
  get_string_spec : forall v s, get_string v = Some s <-> v = VText s /\ valid_utf8 s = true;
  get_i64_spec : forall v i, get_i64 v = Some i <-> v = VInteger i;
  get_f64_real : forall r, get_f64 (VReal r) = Some r;
  get_f64_integer : forall i, is_Some (get_f64 (VInteger i));
  get_f64_other : forall v r, get_f64 v = Some r -> (exists i, v = VInteger i) \/ v = VReal r;
  get_blob_spec : forall v b, get_blob v = Some b <-> v = VBlob b;
  to_uppercase_ascii : forall s, is_ascii s = true -> to_uppercase s = map_ascii upper_ascii s;
  url_round : forall u, url_parse (url_to_string u) = Some u;
  url_not_empty : forall u, url_to_string u <> "";
  url_utf8 : forall u, valid_utf8 (url_to_string u) = true;
}.

(** ** Parameters ([param.rs]) *)

(** [Param::into_sql] *)
Definition into_sql {E} (p : Param) : Res E Value :=
  match p with
  | PNull => Ok VNull
  | PInteger i => Ok (VInteger i)
  | PReal r => Ok (VReal r)
  | PText t => Ok (VText t)
  | PBlob b => Ok (VBlob b)
  | PStmtOutputNamed _ _ | PStmtOutputIndexed _ _ => Panic
  end.

(** [impl From<T> for Param] *)
Class IntoParam (T : Type) : Type := into_param : T -> Param.
#[export] Instance into_param_bool : IntoParam bool := fun i => PInteger (if i then 1 else 0).
#[export] Instance into_param_string : IntoParam string := fun s => PText s.
#[export] Instance into_param_blob : IntoParam (list byte) := fun v => PBlob v.
#[export] Instance into_param_option {T} `{IntoParam T} : IntoParam (option T) := fun v =>
  match v with Some x => into_param x | None => PNull end.

(** [i64] and the narrower integers, which [i64::from] widens. *)
Definition param_i64 (i : Z) : Param := PInteger i.
Definition param_f64 (r : Z) : Param := PReal r.

(** [uuid::Uuid] is a 128-bit number; [as_bytes] is big-endian. *)
Definition param_uuid (id : Z) : Param := PBlob (be_encode 16 id).
Definition param_url `{RowLib} (u : Url) : Param := PText (url_to_string u).

(** ** Columns and rows ([rows.rs]) *)
Section Columns.
Context `{RowLib}.

(** [ColumnType::from_decl_type] *)
Definition from_decl_type (typ : option string) : ColumnType :=
  match typ with
  | Some t =>
      if starts_with "INT" t || starts_with "int" t then TInteger
      else if String.eqb t "TEXT" || String.eqb t "text" then TText
      else if String.eqb t "BLOB" || String.eqb t "blob" then TBlob
      else if String.eqb t "REAL" || String.eqb t "real" then TReal
      else if String.eqb t "" then TBlob
      else
        let ty := to_uppercase t in
        if contains "INT" ty then TInteger
        else if contains "CHAR" ty || contains "CLOB" ty then TText
        else if contains "FLOA" ty || contains "DOUB" ty then TReal
        else TInteger
  | None => TExpr
  end.

(** [ColumnOwned::mapping_cols_from_stmt]: a column is its name and declared type. *)
Definition mapping_cols_from_stmt (columns : list (string * option string)) : list ColumnInfo :=
  (fun c => mkInfo c.1 (from_decl_type c.2)) <$> columns.

(** [row.get::<_, Option<T>>(i)] *)
Definition get_option {A} (get : Value -> option A) (v : Value) : option (option A) :=
  match v with VNull => Some None | _ => Some <$> get v end.

Definition typed_value {E A} (get : Value -> option A) (wrap : A -> ValueOwned) (v : Value) : Res E ValueOwned :=
  match get_option get v with
  | Some (Some a) => Ok (wrap a)
  | Some None => Ok Null
  | None => Panic
  end.

Definition column_value {E} (ty : ColumnType) (v : Value) : Res E ValueOwned :=
  match ty with
  | TExpr =>
      Ok (match get_string v with
          | Some t => Text t
          | None =>
              match get_i64 v with
              | Some i => Integer i
              | None =>
                  match get_f64 v with
                  | Some r => Real r
                  | None => match get_blob v with Some b => Blob b | None => Null end
                  end
              end
          end)
  | TInteger => typed_value get_i64 Integer v
  | TReal => typed_value get_f64 Real v
  | TText => typed_value get_string Text v
  | TBlob => typed_value get_blob Blob v
  end.

(** [RowOwned::from_row_column]: every column of the statement, in order. *)
Fixpoint from_row_column {E} (row : list Value) (infos : list ColumnInfo) {struct infos} : Res E (list ColumnOwned) :=
  match infos with
  | [] => Ok []
  | info :: infos =>
      match row with
      | [] => Panic
      | v :: row =>
          value ← column_value (typ info) v;
          cols ← from_row_column row infos;
          mret (mkColumn (info_name info) value :: cols)
      end
  end.

(** [Vec::swap_remove] *)
Definition swap_remove {A} (i : nat) (l : list A) : list A :=
  match l !! pred (length l) with
  | Some x => take (pred (length l)) (<[i := x]> l)
  | None => l
  end.

(** [RowOwned::try_get]: the value leaves the row. *)
Definition try_get {T} (try_from : ValueOwned -> Res SqlError T) (idx : string) : St SqlError RowOwned T := fun r =>
  match list_find (fun c => name c = idx) (columns r) with
  | Some (i, c) => (try_from (value c), mkRow (swap_remove i (columns r)))
  | None => (Err EQueryParams, r)
  end.
End Columns.

(** ** Conversions from values ([impl TryFrom<ValueOwned> for T]) *)
Class FromValue (T : Type) : Type := try_from : ValueOwned -> Res SqlError T.

Definition try_from_i64 (v : ValueOwned) : Res SqlError Z :=
  match v with Integer i => Ok i | _ => Err ESqlite end.
Definition try_from_f64 (v : ValueOwned) : Res SqlError Z :=
  match v with Real r => Ok r | _ => Err ESqlite end.

(** The form of [TryFrom<ValueOwned> for Option<T>] for most [T]. *)
Definition try_from_option {T} (f : ValueOwned -> Res SqlError T) (v : ValueOwned) : Res SqlError (option T) :=
  match v with Null => Ok None | v => x ← f v; mret (Some x) end.

(** [i as T] for an integer type of [bits] bits *)
Definition as_int (bits : Z) (signed : bool) (i : Z) : Z :=
  let m := i mod 2 ^ bits in
  if signed && (2 ^ (bits - 1) <=? m) then m - 2 ^ bits else m.
Definition int_min (bits : Z) (signed : bool) : Z := if signed then - 2 ^ (bits - 1) else 0.
Definition int_max (bits : Z) (signed : bool) : Z := if signed then 2 ^ (bits - 1) - 1 else 2 ^ bits - 1.

(** Module [cast_ints]; [unchecked] is the feature [cast_ints_unchecked]. *)
Definition try_from_u64 (v : ValueOwned) : Res SqlError Z :=
  i ← try_from_i64 v; mret (if i <? 0 then 0 else i).
Definition try_from_u64_opt (v : ValueOwned) : Res SqlError (option Z) :=
  o ← (try_from_option try_from_i64 v : Res SqlError (option Z)); Ok (option_map (as_int 64 false) o).
Definition downcast_int (unchecked : bool) (bits : Z) (signed : bool) (v : ValueOwned) : Res SqlError Z :=
  i ← try_from_i64 v;
  mret (if unchecked then as_int bits signed i
        else if i <? 0 then as_int bits signed (Z.max (int_min bits signed) i)
        else as_int bits signed (Z.min (int_max bits signed) i)).
Definition downcast_int_opt (bits : Z) (signed : bool) (v : ValueOwned) : Res SqlError (option Z) :=
  o ← (try_from_option try_from_i64 v : Res SqlError (option Z)); Ok (option_map (as_int bits signed) o).

(** The bit pattern of [1.0], the only one that compares equal to it. *)
Definition f64_one : Z := 0x3FF0000000000000.

#[export] Instance try_from_bool : FromValue bool := fun v =>
  match v with
  | Integer i => Ok (i =? 1)
  | Real r => Ok (r =? f64_one)
  | Text s => Ok (String.eqb s "true")
  | _ => Err ESqlite
  end.
#[export] Instance try_from_string : FromValue string := fun v =>
  match v with Text s => Ok s | _ => Err ESqlite end.
#[export] Instance try_from_blob : FromValue (list byte) := fun v =>
  match v with Blob b => Ok b | _ => Err ESqlite end.
#[export] Instance try_from_opt {T} `{FromValue T} : FromValue (option T) := try_from_option try_from.

(** [[u8; N]] *)
Definition try_from_array (n : nat) (v : ValueOwned) : Res SqlError (list byte) :=
  match v with
  | Blob b => if Nat.eqb (length b) n then Ok b else Err ESqlite
  | _ => Err ESqlite
  end.

Definition uuid_of_blob (b : list byte) : Res SqlError Z :=
  if Nat.eqb (length b) 16 then Ok (be_decode b) else Err ESqlite.
Definition try_from_uuid (v : ValueOwned) : Res SqlError Z :=
  match v with Blob b => uuid_of_blob b | _ => Err ESqlite end.
Definition try_from_uuid_opt (v : ValueOwned) : Res SqlError (option Z) :=
  match v with
  | Blob [] => Ok None
  | Blob b => u ← uuid_of_blob b; mret (Some u)
  | _ => Err ESqlite
  end.

Definition url_of_text `{RowLib} (s : string) : Res SqlError Url :=
  match url_parse s with Some u => Ok u | None => Err ESqlite end.
Definition try_from_url `{RowLib} (v : ValueOwned) : Res SqlError Url :=
  match v with Text s => url_of_text s | _ => Err ESqlite end.
Definition try_from_url_opt `{RowLib} (v : ValueOwned) : Res SqlError (option Url) :=
  match v with
  | Text s => if String.eqb s "" then Ok None else u ← url_of_text s; mret (Some u)
  | _ => Err ESqlite
  end.

(** ** [VecText<S>] ([cust_types.rs]), for a separator of one byte *)
Module VecText.
Section VecText.
Context (S : ascii).

Fixpoint write_all (items : list string) : string :=
  match items with
  | [] => ""
  | item :: items => item +:+ String S "" +:+ write_all items
  end.
(** [String::pop] on a string that ends in a character of one byte *)
Fixpoint pop (s : string) : string :=
  match s with
  | EmptyString => EmptyString
  | String _ EmptyString => EmptyString
  | String a s => String a (pop s)
  end.
(** [VecText::new]; items are what [Display] prints. *)
Definition new (items : list string) : string :=
  match items with [] => "" | _ => pop (write_all items) end.

(** [s.split(S)] *)
Fixpoint split (s : string) : list string :=
  match s with
  | EmptyString => [""]
  | String a s =>
      if Ascii.eqb a S then "" :: split s
      else match split s with
           | l :: ls => String a l :: ls
           | [] => [String a ""]
           end
  end.

Section Items.
Context {T : Type} (parse_item : string -> option T).
Fixpoint parse_lines (ls : list string) : Res SqlError (list T) :=
  match ls with
  | [] => Ok []
  | l :: ls =>
      if String.eqb l "" then parse_lines ls
      else match parse_item l with
           | None => Err EError
           | Some t => ts ← parse_lines ls; mret (t :: ts)
           end
  end.
(** [VecText::parse] and [try_into_vec], with [FromStr] or [TryFrom<&str>] *)
Definition try_into_vec (s : string) : Res SqlError (list T) := parse_lines (split s).
Definition try_into_vec_opt (s : string) : Res SqlError (option (list T)) :=
  if String.eqb s "" then Ok None else ts ← try_into_vec s; mret (Some ts).
(** [iter_as] *)
Definition iter_as (s : string) : list (Res SqlError T) :=
  (fun l => match parse_item l with Some t => Ok t | None => Err EError end) <$> split s.
End Items.

Definition try_from_value (v : ValueOwned) : Res SqlError string :=
  match v with Null => Ok "" | Text v => Ok v | _ => Err EQueryParams end.
End VecText.
End VecText.

End Rows.
