(* ===== verification/SqlRowsSpec.v ===== *)
(** What the conversions of [SqlRows] guarantee: when reading a row panics, which
    values come back as they were written, and how the declared types of columns
    relate to SQLite's column affinity. *)
From stdpp Require Import base strings list numbers sets.
From Stdlib Require Import Ascii Strings.Byte.
From S2P Require Import Prelude Text SqlRows.
Import Rows.

#[local] Open Scope Z_scope.

Lemma elem_two {A} (x a b : A) : x ∈ [a; b] -> x = a \/ x = b.
Proof. rewrite elem_of_cons, list_elem_of_singleton. done. Qed.

(** ** Rows *)
Section Rows.
Context `{RowLib} `{!RowLibOk}.

(** The stored value has the type the column is read with. *)
Definition column_fits (ty : ColumnType) (v : Value) : bool :=
  match ty, v with
  | TExpr, _ | _, VNull => true
  | TInteger, VInteger _ => true
  | TReal, (VReal _ | VInteger _) => true
  | TText, VText s => valid_utf8 s
  | TBlob, VBlob _ => true
  | _, _ => false
  end.

Lemma get_string_text s : get_string (VText s) = if valid_utf8 s then Some s else None.
Proof.
  destruct (get_string (VText s)) as [t|] eqn:E.
  - apply get_string_spec in E as [[= ->] ->]. done.
  - destruct (valid_utf8 s) eqn:Eu; [|done]. assert (get_string (VText s) = Some s) by (by apply get_string_spec). congruence.
Qed.
Lemma get_string_other v : (forall s, v <> VText s) -> get_string v = None.
Proof. intros Hv. destruct (get_string v) eqn:E; [|done]. apply get_string_spec in E as [-> _]. by destruct (Hv s). Qed.
Lemma get_i64_integer i : get_i64 (VInteger i) = Some i.
Proof. by apply get_i64_spec. Qed.
Lemma get_i64_other v : (forall i, v <> VInteger i) -> get_i64 v = None.
Proof. intros Hv. destruct (get_i64 v) eqn:E; [|done]. apply get_i64_spec in E as ->. by destruct (Hv z). Qed.
Lemma get_blob_blob b : get_blob (VBlob b) = Some b.
Proof. by apply get_blob_spec. Qed.
Lemma get_blob_none v : (forall b, v <> VBlob b) -> get_blob v = None.
Proof. intros Hv. destruct (get_blob v) eqn:E; [|done]. apply get_blob_spec in E as ->. by destruct (Hv l). Qed.
Lemma get_f64_none v : (forall i, v <> VInteger i) -> (forall r, v <> VReal r) -> get_f64 v = None.
Proof.
  intros Hi Hr. destruct (get_f64 v) eqn:E; [|done].
  apply get_f64_other in E as [[i ->]| ->]; [by destruct (Hi i)|by destruct (Hr z)].
Qed.

(** Reading one column: it panics exactly when the value does not fit. *)
Lemma column_value_fits {E} ty v :
  if column_fits ty v then exists w, column_value (E := E) ty v = Ok w else column_value (E := E) ty v = Panic.
Proof.
  destruct (get_f64_integer 0) as [f0 _].
  destruct ty, v as [|i|r|s|b]; simpl; eauto; unfold typed_value, get_option;
    rewrite ?get_i64_integer, ?get_f64_real, ?get_blob_blob, ?get_string_text; simpl; eauto.
  all: try (rewrite get_i64_other by done; done).
  all: try (rewrite get_f64_none by done; done).
  all: try (rewrite get_blob_none by done; done).
  all: try (rewrite get_string_other by done; done).
  - destruct (get_f64_integer i) as [f ->]. simpl. eauto.
  - destruct (valid_utf8 s); simpl; eauto.
Qed.

Definition row_fits (row : list Value) (infos : list ColumnInfo) : Prop :=
  (length infos <= length row)%nat /\ forall i info v, infos !! i = Some info -> row !! i = Some v -> column_fits (typ info) v = true.

Lemma from_row_column_fits {E} row infos :
  row_fits row infos <-> exists cols, from_row_column (E := E) row infos = Ok cols.
Proof.
  revert row. induction infos as [|info infos IH]; intros row; simpl.
  { split; [by exists []|]. intros _. split; [simpl; lia|done]. }
  destruct row as [|v row].
  { unfold row_fits. split; [intros [Hl _]; simpl in Hl; lia|intros [cols Hc]; done]. }
  pose proof (column_value_fits (E := E) (typ info) v) as Hv. split.
  - intros [Hl Hf]. rewrite (Hf 0%nat info v eq_refl eq_refl) in Hv. destruct Hv as [w ->]. simpl.
    destruct (proj1 (IH row)) as [cols ->]; [|simpl; eauto].
    split; [simpl in Hl; lia|]. intros i. exact (Hf (S i)).
  - intros [cols Hc]. destruct (column_fits (typ info) v) eqn:Ef; [|by rewrite Hv in Hc].
    destruct Hv as [w Hw]. rewrite Hw in Hc. simpl in Hc.
    destruct (proj2 (IH row)) as (Hl & Hf).
    { destruct (from_row_column row infos) as [cols'|e| |]; simpl in Hc; try done. eauto. }
    split; [simpl; lia|]. intros [|i] info' v'; simpl; [by intros [= <-] [= <-]|apply Hf].
Qed.

Lemma from_row_column_no_err {E} row infos : from_row_column (E := E) row infos = Panic \/ exists cols, from_row_column (E := E) row infos = Ok cols.
Proof.
  revert row. induction infos as [|info infos IH]; intros row; simpl; [eauto|].
  destruct row as [|v row]; [by left|].
  pose proof (column_value_fits (E := E) (typ info) v) as Hv. destruct (column_fits (typ info) v).
  - destruct Hv as [w ->]. simpl. destruct (IH row) as [-> |[cols ->]]; simpl; eauto.
  - rewrite Hv. by left.
Qed.

(** ** Round trips *)

(** A value that was bound as a parameter, stored, and read back in a column of one
    of the types [tys]. *)
Definition round_trips {T} (into : T -> Param) (from : ValueOwned -> Res SqlError T) (tys : list ColumnType) (x : T) : Prop :=
  forall ty, ty ∈ tys -> exists v w, into_sql (E := SqlError) (into x) = Ok v /\ column_value (E := SqlError) ty v = Ok w /\ from w = Ok x.

Lemma i64_round i : round_trips param_i64 try_from_i64 [TInteger; TExpr] i.
Proof.
  intros ty Hty. exists (VInteger i), (Integer i). split; [done|]. split; [|done].
  destruct (elem_two _ _ _ Hty) as [->| ->]; simpl; unfold typed_value; simpl.
  - by rewrite get_i64_integer.
  - by rewrite get_string_other, get_i64_integer by done.
Qed.

Lemma f64_round r : round_trips param_f64 try_from_f64 [TReal; TExpr] r.
Proof.
  intros ty Hty. exists (VReal r), (Real r). split; [done|]. split; [|done].
  destruct (elem_two _ _ _ Hty) as [->| ->]; simpl; unfold typed_value; simpl.
  - by rewrite get_f64_real.
  - by rewrite get_string_other, get_i64_other, get_f64_real by done.
Qed.

Lemma text_round s : valid_utf8 s = true -> round_trips into_param_string try_from_string [TText; TExpr] s.
Proof.
  intros Hs ty Hty. exists (VText s), (Text s). split; [done|]. split; [|done].
  destruct (elem_two _ _ _ Hty) as [->| ->]; simpl; unfold typed_value; simpl;
    by rewrite get_string_text, Hs.
Qed.

Lemma column_blob ty b : ty ∈ [TBlob; TExpr] -> column_value (E := SqlError) ty (VBlob b) = Ok (Blob b).
Proof.
  intros Hty. destruct (elem_two _ _ _ Hty) as [->| ->]; simpl; unfold typed_value; simpl.
  - by rewrite get_blob_blob.
  - by rewrite get_string_other, get_i64_other, get_f64_none, get_blob_blob by done.
Qed.

Lemma blob_round b : round_trips into_param_blob try_from_blob [TBlob; TExpr] b.
Proof. intros ty Hty. exists (VBlob b), (Blob b). split; [done|]. split; [by apply column_blob|done]. Qed.

Lemma uuid_round u : 0 <= u < 2 ^ 128 -> round_trips param_uuid try_from_uuid [TBlob; TExpr] u.
Proof.
  intros Hu ty Hty. exists (VBlob (be_encode 16 u)), (Blob (be_encode 16 u)). split; [done|]. split; [by apply column_blob|].
  simpl. unfold uuid_of_blob. rewrite length_be_encode, be_decode_encode. simpl Nat.eqb. cbv iota.
  f_equal. apply Z.mod_small. lia.
Qed.

Lemma url_round_trip (u : Url) : round_trips param_url try_from_url [TText; TExpr] u.
Proof.
  intros ty Hty. exists (VText (url_to_string u)), (Text (url_to_string u)). split; [done|]. split.
  - destruct (elem_two _ _ _ Hty) as [->| ->]; simpl; unfold typed_value; simpl;
      by rewrite get_string_text, url_utf8.
  - simpl. unfold url_of_text. by rewrite url_round.
Qed.

Lemma bool_round b : round_trips into_param_bool try_from_bool [TInteger; TExpr] b.
Proof.
  intros ty Hty. destruct (i64_round (if b then 1 else 0) ty Hty) as (v & w & Hv & Hw & Hf).
  exists v, w. split; [done|]. split; [done|]. destruct w; simplify_eq/=. by destruct b.
Qed.

(** [Option<T>] on top of a [T] that never converts [NULL]: both sides agree on
    [None] in any column. *)
Lemma option_round {T} (into : T -> Param) (from : ValueOwned -> Res SqlError T) tys :
  (forall x, from Null <> Ok x) ->
  forall o : option T, (forall x, o = Some x -> round_trips into from tys x) ->
  round_trips (fun o => match o with Some x => into x | None => PNull end) (try_from_option from) tys o.
Proof.
  intros Hn [x|] Hx ty Hty.
  - destruct (Hx x eq_refl ty Hty) as (v & w & Hv & Hw & Hf). exists v, w. split; [done|]. split; [done|].
    unfold try_from_option. destruct w; [by destruct (Hn x)|..]; by rewrite Hf.
  - exists VNull, Null. split; [done|]. split; [|done].
    destruct ty; [|done..]. simpl. by rewrite get_string_other, get_i64_other, get_f64_none, get_blob_none by done.
Qed.

(** The checked casts return the number when the type can hold it and its nearest
    bound when it cannot. *)
Lemma as_int_id bits signed i :
  0 < bits -> int_min bits signed <= i <= int_max bits signed -> as_int bits signed i = i.
Proof.
  intros Hb. unfold as_int, int_min, int_max. assert (2 ^ bits = 2 * 2 ^ (bits - 1)) as Hp.
  { rewrite <- Z.pow_succ_r by lia. f_equal. lia. }
  assert (0 < 2 ^ (bits - 1)) by lia. destruct signed; simpl; intros Hi.
  - destruct (Z_lt_dec i 0).
    + replace (i mod 2 ^ bits) with (i + 2 ^ bits) by (apply Z.mod_unique with (-1); lia).
      destruct (Z.leb_spec (2 ^ (bits - 1)) (i + 2 ^ bits)); lia.
    + rewrite Z.mod_small by lia. destruct (Z.leb_spec (2 ^ (bits - 1)) i); lia.
  - apply Z.mod_small. lia.
Qed.

Lemma downcast_clamps bits signed i :
  0 < bits -> downcast_int false bits signed (Integer i) = Ok (Z.max (int_min bits signed) (Z.min (int_max bits signed) i)).
Proof.
  intros Hb. unfold downcast_int. simpl. unfold mret, res_ret. f_equal.
  assert (int_min bits signed <= 0 <= int_max bits signed).
  { unfold int_min, int_max. assert (0 < 2 ^ (bits - 1) /\ 0 < 2 ^ bits) by lia. destruct signed; lia. }
  destruct (Z.ltb_spec i 0); rewrite as_int_id; lia.
Qed.
End Rows.

(** ** [VecText] *)
Section VecText.
Context (S : ascii).

Definition no_sep (s : string) : Prop := has_char S s = false.

Lemma pop_app s a : VecText.pop (s +:+ String a "") = s.
Proof. induction s as [|b s IH]; [done|]. simpl in *. destruct (s +:+ String a "") eqn:E; [by destruct s|]. by rewrite IH. Qed.

(** Items joined by the separator. *)
Fixpoint join (items : list string) : string :=
  match items with
  | [] => ""
  | [x] => x
  | x :: items => x +:+ String S (join items)
  end.

Lemma write_all_join x items : VecText.write_all S (x :: items) = join (x :: items) +:+ String S "".
Proof.
  revert x. induction items as [|y items IH]; intros x; [done|].
  change (VecText.write_all S (x :: y :: items)) with (x +:+ (String S "" +:+ VecText.write_all S (y :: items))).
  rewrite IH. change (join (x :: y :: items)) with (x +:+ String S (join (y :: items))).
  by rewrite string_app_assoc.
Qed.

Lemma new_join items : VecText.new S items = join items.
Proof.
  destruct items as [|x items]; [done|]. unfold VecText.new. by rewrite write_all_join, pop_app.
Qed.

Lemma split_no_sep s : no_sep s -> VecText.split S s = [s].
Proof.
  unfold no_sep. induction s as [|a s IH]; [done|]. simpl. intros [Ha Hs]%orb_false_iff. by rewrite Ha, IH.
Qed.
Lemma split_app s t : no_sep s -> VecText.split S (s +:+ String S t) = s :: VecText.split S t.
Proof.
  unfold no_sep. induction s as [|a s IH]; simpl.
  - intros _. by rewrite Ascii.eqb_refl.
  - intros [Ha Hs]%orb_false_iff. by rewrite Ha, IH.
Qed.
Lemma split_join x items : Forall no_sep (x :: items) -> VecText.split S (join (x :: items)) = x :: items.
Proof.
  revert x. induction items as [|y items IH]; intros x Hf; inversion Hf as [|?? Hx Hr]; subst.
  - by apply split_no_sep.
  - change (join (x :: y :: items)) with (x +:+ String S (join (y :: items))).
    rewrite split_app by done. by rewrite IH.
Qed.

Lemma parse_lines_filter {T} (show : T -> string) (parse_item : string -> option T) ts :
  (forall t, t ∈ ts -> parse_item (show t) = Some t) ->
  VecText.parse_lines parse_item (show <$> ts) = Ok (filter (fun t => show t <> "") ts).
Proof.
  induction ts as [|t ts IH]; intros Hp; [done|]. rewrite fmap_cons, filter_cons. cbn [VecText.parse_lines].
  destruct (String.eqb_spec (show t) "") as [E|E].
  - rewrite decide_False by tauto. apply IH. set_solver.
  - rewrite decide_True by done. rewrite Hp by set_solver. rewrite IH by set_solver. done.
Qed.
End VecText.

(** ** Declared types and column affinity *)

(** SQLite's rules for the affinity of a column, in the order of its documentation;
    the last one is NUMERIC, which rows read as an integer. *)
Definition affinity (t : string) : ColumnType :=
  let u := map_ascii upper_ascii t in
  if contains "INT" u then TInteger
  else if contains "CHAR" u || contains "CLOB" u || contains "TEXT" u then TText
  else if contains "BLOB" u || String.eqb u "" then TBlob
  else if contains "REAL" u || contains "FLOA" u || contains "DOUB" u then TReal
  else TInteger.

(** The declared types for which [from_decl_type] follows the affinity. *)
Definition decl_agrees (t : string) : bool :=
  let u := map_ascii upper_ascii t in
  bool_decide (t ∈ ["TEXT"; "text"; "BLOB"; "blob"; "REAL"; "real"; ""])
  || contains "INT" u || contains "CHAR" u || contains "CLOB" u
  || (negb (contains "TEXT" u) && negb (contains "BLOB" u)
      && (negb (contains "REAL" u) || contains "FLOA" u || contains "DOUB" u)).

Lemma starts_with_map p s : starts_with p s = true -> starts_with (map_ascii upper_ascii p) (map_ascii upper_ascii s) = true.
Proof.
  unfold starts_with. revert s. induction p as [|a p IH]; intros [|b s]; simpl; try done.
  destruct (Ascii.eqb_spec a b) as [->|]; [|done]. rewrite Ascii.eqb_refl. apply IH.
Qed.

Lemma starts_contains p s : starts_with p s = true -> contains p s = true.
Proof. intros Hs. destruct s; simpl; by rewrite Hs. Qed.

Section Affinity.
Context `{RowLib} `{!RowLibOk}.

Lemma from_decl_type_affinity t :
  is_ascii t = true -> bool_decide (from_decl_type (Some t) = affinity t) = decl_agrees t.
Proof.
  intros Ha. unfold from_decl_type, decl_agrees. rewrite to_uppercase_ascii by done.
  destruct (bool_decide (t ∈ ["TEXT"; "text"; "BLOB"; "blob"; "REAL"; "real"; ""])) eqn:Ex.
  { apply bool_decide_eq_true in Ex. repeat (apply elem_of_cons in Ex as [-> |Ex]; [by vm_compute|]). by apply elem_of_nil in Ex. }
  apply bool_decide_eq_false in Ex.
  assert (starts_with "INT" t || starts_with "int" t = true -> contains "INT" (map_ascii upper_ascii t) = true) as Hint.
  { intros [Hs|Hs]%orb_prop; apply starts_with_map in Hs; by apply starts_contains in Hs. }
  assert (forall x, x ∈ ["TEXT"; "text"; "BLOB"; "blob"; "REAL"; "real"; ""] -> String.eqb t x = false) as Hne.
  { intros x Hx. destruct (String.eqb_spec t x) as [->|]; [done|done]. }
  rewrite !Hne by (repeat constructor). cbn [orb].
  assert (String.eqb (map_ascii upper_ascii t) "" = false) as Hue.
  { destruct t; [|done]. destruct Ex. repeat constructor. }
  unfold affinity. rewrite Hue. cbv zeta.
  destruct (starts_with "INT" t || starts_with "int" t).
  { rewrite Hint by done. done. }
  destruct (contains "INT" (map_ascii upper_ascii t)), (contains "CHAR" (map_ascii upper_ascii t)),
    (contains "CLOB" (map_ascii upper_ascii t)), (contains "TEXT" (map_ascii upper_ascii t)),
    (contains "BLOB" (map_ascii upper_ascii t)), (contains "REAL" (map_ascii upper_ascii t)),
    (contains "FLOA" (map_ascii upper_ascii t)), (contains "DOUB" (map_ascii upper_ascii t)); reflexivity.
Qed.
End Affinity.
