(* ===== verification/SqlBase.v ===== *)
(** SQLite as the state machine of [hiqlite/src/store/state_machine/sqlite] uses it.

    A database is the tables of the application, which are one opaque value, and the
    two tables of the state machine, [_migrations] and [_metadata].  What a statement
    of a client does is the class [SqlEngine]: a function of its text, its bound
    values, the tables of the application and [_migrations].  So a statement reads
    neither [_metadata] nor the state of the connection ([last_insert_rowid()],
    temporary tables, pragmas).  [BEGIN], [COMMIT] and [ROLLBACK] act on the
    connection and are executed here; savepoints are left out.  The number of changed
    rows is that of the statement; for one that is no INSERT, UPDATE or DELETE,
    SQLite reports the number of an earlier statement and the model reports none. *)
From stdpp Require Import base gmap strings list numbers.
From Stdlib Require Import Strings.Byte.
From S2P Require Import Prelude Text SqlRows.
Import Rows.

#[local] Open Scope Z_scope.

Module Sql.

(** ** Data of the state machine *)

(** [Migration] and [AppliedMigration] of [migration.rs]; the content is its bytes. *)
Record Migration : Type := mkMigration {
  mig_id : Z;
  mig_name : string;
  mig_hash : string;
  content : string;
}.
Record AppliedMigration : Type := mkAppliedMigration {
  am_id : Z;
  am_name : string;
  am_ts : Z;
  am_hash : string;
}.
#[export] Instance AppliedMigration_eqdec : EqDecision AppliedMigration.
Proof. solve_decision. Defined.

(** [Query] of [state_machine.rs] *)
Record Query : Type := mkQuery { sql : string; params : list Param }.

(** ** Databases *)
Record UserDb (T : Type) : Type := mkUser {
  tables : T;
  (** the rows of [_migrations] in the order of the primary key; [None]: no table *)
  migrations : option (list AppliedMigration);
}.
Arguments mkUser {T}. Arguments tables {T}. Arguments migrations {T}.

Record Db (T : Type) : Type := mkDb {
  user : UserDb T;
  (** the row ['meta'] of [_metadata]; the outer [None]: no table *)
  metadata : option (option (list byte));
}.
Arguments mkDb {T}. Arguments user {T}. Arguments metadata {T}.

Definition set_user {T} (u : UserDb T) (d : Db T) : Db T := mkDb u (metadata d).
Definition set_metadata {T} (m : option (option (list byte))) (d : Db T) : Db T := mkDb (user d) m.

(** The connection: what it sees, and what the database was when the open
    transaction began. *)
Record Conn (T : Type) : Type := mkConn { cur : Db T; saved : option (Db T) }.
Arguments mkConn {T}. Arguments cur {T}. Arguments saved {T}.

(** What is in the file once the connection is closed: an open transaction is
    rolled back. *)
Definition committed {T} (c : Conn T) : Db T := default (cur c) (saved c).

(** ** Statements *)

(** [rusqlite::Error], as far as [From<rusqlite::Error> for Error] looks at it. *)
Inductive Failure : Type := QueryReturnedNoRows | ConstraintViolation | OtherFailure.
#[export] Instance Failure_eqdec : EqDecision Failure.
Proof. solve_decision. Defined.

Definition from_rusqlite (f : Failure) : SqlError :=
  match f with
  | QueryReturnedNoRows => EQueryReturnedNoRows
  | ConstraintViolation => EConstraintViolation
  | OtherFailure => ESqlite
  end.

Inductive Control : Type := Begin | Commit | Rollback.

Record Prepared : Type := mkPrepared {
  control : option Control;
  parameter_count : nat;
  stmt_columns : list (string * option string);
}.

(** One execution: its result, the database after it, and whether SQLite rolled the
    whole transaction back. *)
Record Outcome (T A : Type) : Type := mkOutcome {
  result : A;
  after : UserDb T;
  rolled_back : bool;
}.
Arguments mkOutcome {T A}. Arguments result {T A}. Arguments after {T A}. Arguments rolled_back {T A}.

Class SqlEngine (T : Type) : Type := {
  (** a new database *)
  no_tables : T;
  (** [conn.prepare(sql)] *)
  prepare : string -> UserDb T -> option Prepared;
  (** [stmt.raw_bind_parameter(idx, value).is_ok()] *)
  bind_ok : Prepared -> nat -> Value -> bool;
  (** [stmt.raw_execute()]: the number of changed rows *)
  stmt_execute : string -> list Value -> UserDb T -> Outcome T (Failure + option Z);
  (** [stmt.raw_query()] stepped to its end: the rows, and an error after them *)
  stmt_query : string -> list Value -> UserDb T -> Outcome T (list (list Value) * option Failure);
  (** [stmt.column_index(name)] *)
  column_index : list string -> string -> option nat;
  (** [row.get::<_, Value>(i)] *)
  get_value : Value -> option Value;
  (** [Batch::next]: an error, the end, or a statement and the rest of the text *)
  batch_next : string -> UserDb T -> option (option (string * string));
  (** whether COMMIT finds the deferred constraints satisfied *)
  commit_ok : UserDb T -> UserDb T -> bool;
  (** VACUUM *)
  vacuum : T -> T;
  (** [String::from_utf8_lossy] *)
  from_utf8_lossy : string -> string;
}.

(** Parameters are numbered from one; only a failing statement rolls its transaction
    back; a batch prepares what it returns and gets shorter; a column that is found
    exists. *)
Class SqlEngineOk {T} `{SqlEngine T} : Prop := {
  bind_range : forall p i v, bind_ok p i v = true -> (1 <= i <= parameter_count p)%nat;
  rollback_execute : forall s vs u, rolled_back (stmt_execute s vs u) = true -> exists f, result (stmt_execute s vs u) = inl f;
  rollback_query : forall s vs u, rolled_back (stmt_query s vs u) = true -> exists f, (result (stmt_query s vs u)).2 = Some f;
  batch_shorter : forall s u t rest, batch_next s u = Some (Some (t, rest)) -> (String.length rest < String.length s)%nat;
  batch_prepares : forall s u t rest, batch_next s u = Some (Some (t, rest)) -> is_Some (prepare t u);
  column_found : forall names n i, column_index names n = Some i -> (i < length names)%nat;
  lossy_valid : forall s, valid_utf8 s = true -> from_utf8_lossy s = s;
}.

(** ** Equal contents

    VACUUM keeps the schema, the contents of the tables and the order of their rows, and
    may number the rows of a table without an INTEGER PRIMARY KEY anew.  Databases are
    equivalent when only such things differ.  Preparing a statement, splitting a script
    and the check of the deferred constraints look at the schema and the contents. *)
#[export] Instance user_equiv {T} `{Equiv T} : Equiv (UserDb T) := fun u u' =>
  tables u ≡ tables u' /\ migrations u = migrations u'.

Class SqlEquiv {T} `{SqlEngine T} `{Equiv T} : Prop := {
  #[export] tables_equivalence :: Equivalence (≡@{T});
  #[export] prepare_proper s :: Proper ((≡) ==> (=)) (prepare s);
  #[export] batch_next_proper s :: Proper ((≡) ==> (=)) (batch_next s);
  #[export] commit_ok_proper :: Proper ((≡) ==> (≡) ==> (=)) commit_ok;
  vacuum_equiv : forall t, vacuum t ≡ t;
}.

(** A statement that does not depend on the numbers VACUUM may change: it gives the same
    result on equivalent databases and leaves equivalent ones.  A statement that reads,
    compares or returns an implicit rowid is not one. *)
Record rowid_free {T} `{SqlEngine T} `{Equiv T} (s : string) : Prop := {
  execute_free : forall vs u u', u ≡ u' ->
    result (stmt_execute s vs u) = result (stmt_execute s vs u') /\
    after (stmt_execute s vs u) ≡ after (stmt_execute s vs u') /\
    rolled_back (stmt_execute s vs u) = rolled_back (stmt_execute s vs u');
  query_free : forall vs u u', u ≡ u' ->
    result (stmt_query s vs u) = result (stmt_query s vs u') /\
    after (stmt_query s vs u) ≡ after (stmt_query s vs u') /\
    rolled_back (stmt_query s vs u) = rolled_back (stmt_query s vs u');
}.

(** The statements a script can be split into, on whatever database. *)
Inductive statement_of {T} `{SqlEngine T} : string -> string -> Prop :=
| statement_first s u t rest : batch_next s u = Some (Some (t, rest)) -> statement_of s t
| statement_later s u t rest t' : batch_next s u = Some (Some (t, rest)) -> statement_of rest t' -> statement_of s t'.

Definition script_free {T} `{SqlEngine T} `{Equiv T} (s : string) : Prop := forall t, statement_of s t -> rowid_free t.

Lemma script_free_rest {T} `{SqlEngine T} `{Equiv T} s u t rest :
  script_free s -> batch_next s u = Some (Some (t, rest)) -> rowid_free t /\ script_free rest.
Proof.
  intros Hs Hb. split; [apply Hs; by eapply statement_first|]. intros t' Ht. apply Hs. by eapply statement_later.
Qed.

Section Conn.
Context {T : Type} `{SqlEngine T}.

Definition empty_db : Db T := mkDb (mkUser no_tables None) None.
Definition vacuum_db (d : Db T) : Db T := set_user (mkUser (vacuum (tables (user d))) (migrations (user d))) d.

(** The effect of a statement on the connection. *)
Definition settle {A} (o : Outcome T A) (c : Conn T) : Conn T :=
  match rolled_back o, saved c with
  | true, Some s => mkConn s None
  | _, _ => mkConn (set_user (after o) (cur c)) (saved c)
  end.

Definition begin_txn (c : Conn T) : option (Conn T) :=
  match saved c with Some _ => None | None => Some (mkConn (cur c) (Some (cur c))) end.
Definition commit_txn (c : Conn T) : Failure + Conn T :=
  match saved c with
  | None => inl OtherFailure
  | Some s => if commit_ok (user s) (user (cur c)) then inr (mkConn (cur c) None) else inl ConstraintViolation
  end.
Definition rollback_txn (c : Conn T) : option (Conn T) :=
  match saved c with None => None | Some s => Some (mkConn s None) end.

(** [stmt.raw_execute()] of a prepared statement *)
Definition run_execute (p : Prepared) (sql : string) (vs : list Value) (c : Conn T) : (Failure + option Z) * Conn T :=
  match control p with
  | Some Begin => match begin_txn c with Some c' => (inr None, c') | None => (inl OtherFailure, c) end
  | Some Commit => match commit_txn c with inr c' => (inr None, c') | inl f => (inl f, c) end
  | Some Rollback => match rollback_txn c with Some c' => (inr None, c') | None => (inl OtherFailure, c) end
  | None => let o := stmt_execute sql vs (user (cur c)) in (result o, settle o c)
  end.

(** [stmt.raw_query()] of a prepared statement, stepped to its end *)
Definition run_query (p : Prepared) (sql : string) (vs : list Value) (c : Conn T) : (list (list Value) * option Failure) * Conn T :=
  match control p with
  | Some _ =>
      match run_execute p sql vs c with
      | (inr _, c') => (([], None), c')
      | (inl f, c') => (([], Some f), c')
      end
  | None => let o := stmt_query sql vs (user (cur c)) in (result o, settle o c)
  end.
End Conn.
End Sql.
