(* ===== verification/SqlWriter.v ===== *)
(** The writer thread of the SQLite state machine:
    [hiqlite/src/store/state_machine/sqlite/{writer,transaction_env}.rs].

    The thread owns the connection and the metadata and serves one request at a time.
    A handler is a computation on the [Writer]: [Ok] and [Err] are the reply it sends,
    [Panic] is the end of the thread.  [PRAGMA optimize] only updates the statistics of
    the query planner and is left out, as are the uploads to S3 and the background
    cleanup of old backups.  [Env] holds what the thread reads from outside and which
    calls of the file system fail while it serves a request.  The paths of snapshots
    are names in their folder. *)
From stdpp Require Import base gmap strings list numbers.
From Stdlib Require Import Strings.Byte.
From S2P Require Import Prelude Text WalWriter SqlRows SqlBase.
Import Rows Sql.

#[local] Open Scope Z_scope.

Module SqlWriter.

(** ** [TransactionEnv] *)
Record ObservableStatement : Type := mkObservable { obs_sql : string; first_row : list Value }.
Record TransactionEnv : Type := mkTxnEnv {
  observable_stmts : list (nat * ObservableStatement);
  column_index_cache : gmap nat (gmap string nat);
}.
Definition empty_env : TransactionEnv := mkTxnEnv [] ∅.

Definition push_observable_stmt (stmt_index : nat) (sql : string) (row : list Value) (e : TransactionEnv) : TransactionEnv :=
  mkTxnEnv (observable_stmts e ++ [(stmt_index, mkObservable sql row)]) (column_index_cache e).

(** [ObservableStatement::by_index] *)
Definition by_index (stmts : list (nat * ObservableStatement)) (index : nat) : Res SqlError ObservableStatement :=
  match list_find (fun s => s.1 = index) stmts with
  | Some (_, (_, s)) => Ok s
  | None => Err EQueryParams
  end.
Definition get_first_row_value (s : ObservableStatement) (column_index : nat) : Res SqlError Value :=
  match first_row s !! column_index with Some v => Ok v | None => Err EQueryParams end.

(** [lookup_statement_output_indexed] *)
Definition lookup_indexed (e : TransactionEnv) (statement_index column_index : nat) : Res SqlError Value :=
  s ← by_index (observable_stmts e) statement_index; get_first_row_value s column_index.

Section Writer.
Context {T : Type} `{SqlEngine T} `{RowLib}.

(** [lookup_statement_output_named] *)
Definition lookup_named (u : UserDb T) (statement_index : nat) (column_name : string) : St SqlError TransactionEnv Value := fun e =>
  match by_index (observable_stmts e) statement_index with
  | Ok s =>
      let cache := default ∅ (column_index_cache e !! statement_index) in
      let e1 := mkTxnEnv (observable_stmts e) (<[statement_index := cache]> (column_index_cache e)) in
      match cache !! column_name with
      | Some column_index => (get_first_row_value s column_index, e1)
      | None =>
          match prepare (obs_sql s) u with
          | None => (Err EQueryParams, e1)
          | Some p =>
              match column_index (stmt_columns p).*1 column_name with
              | None => (Err EQueryParams, e1)
              | Some i =>
                  (get_first_row_value s i,
                   mkTxnEnv (observable_stmts e) (<[statement_index := <[column_name := i]> cache]> (column_index_cache e)))
              end
          end
      end
  | Err x => (Err x, e)
  | Panic => (Panic, e)
  | OutOfFuel => (OutOfFuel, e)
  end.

(** [Param::into_sql_txn_ctx] *)
Definition into_sql_txn_ctx (u : UserDb T) (p : Param) : St SqlError TransactionEnv Value := fun e =>
  match p with
  | PNull => (Ok VNull, e)
  | PInteger i => (Ok (VInteger i), e)
  | PReal r => (Ok (VReal r), e)
  | PText t => (Ok (VText t), e)
  | PBlob b => (Ok (VBlob b), e)
  | PStmtOutputIndexed i j => (lookup_indexed e i j, e)
  | PStmtOutputNamed i n => lookup_named u i n e
  end.

(** ** Statements with parameters *)

(** The loop that binds the parameters of [Query::Execute] *)
Fixpoint bind_params (p : Prepared) (idx : nat) (ps : list Param) : Res SqlError (list Value) :=
  match ps with
  | [] => Ok []
  | param :: ps =>
      v ← into_sql param;
      if bind_ok p idx v then vs ← bind_params p (S idx) ps; mret (v :: vs) else Err EQueryParams
  end.

(** The same loop inside of a transaction *)
Fixpoint bind_params_txn (u : UserDb T) (p : Prepared) (idx : nat) (ps : list Param) : St SqlError TransactionEnv (list Value) :=
  match ps with
  | [] => mret []
  | param :: ps =>
      v ← into_sql_txn_ctx u param;
      if bind_ok p idx v then vs ← bind_params_txn u p (S idx) ps; mret (v :: vs) else st_err EQueryParams
  end.

(** ** What a request does to the connection *)
Abbreviation CSt := (St SqlError (Conn T)).

Definition c_user : CSt (UserDb T) := fun c => (Ok (user (cur c)), c).

(** [conn.prepare_cached(sql)] of the handlers *)
Definition prepare_stmt (sql : string) : CSt Prepared := fun c =>
  match prepare sql (user (cur c)) with
  | Some p => (Ok p, c)
  | None => (Err EPrepareStatement, c)
  end.

Definition raw_execute (p : Prepared) (sql : string) (vs : list Value) : CSt (option Z) := fun c =>
  let '(r, c') := run_execute p sql vs c in
  (match r with inr n => Ok n | inl f => Err (from_rusqlite f) end, c').

(** [Query::Execute] *)
Definition execute (q : Query) : CSt (option Z) :=
  p ← prepare_stmt (sql q);
  vs ← st_lift (bind_params p 1 (params q));
  raw_execute p (sql q) vs.

(** The loop over the rows of [Query::ExecuteReturning] *)
Fixpoint rows_owned (infos : list ColumnInfo) (rows : list (list Value)) : Res SqlError (list (Res SqlError RowOwned)) :=
  match rows with
  | [] => Ok []
  | row :: rows =>
      cols ← from_row_column row infos;
      rs ← rows_owned infos rows;
      mret (Ok (mkRow cols) :: rs)
  end.

Definition raw_query (p : Prepared) (sql : string) (vs : list Value) : CSt (list (Res SqlError RowOwned)) := fun c =>
  let columns := mapping_cols_from_stmt (stmt_columns p) in
  let '((rows, err), c') := run_query p sql vs c in
  (match rows_owned columns rows, err with
   | Ok rs, Some _ => Ok (rs ++ [Err ESqlite])
   | r, _ => r
   end, c').

(** [Query::ExecuteReturning] *)
Definition execute_returning (q : Query) : CSt (list (Res SqlError RowOwned)) :=
  p ← prepare_stmt (sql q);
  vs ← st_lift (bind_params p 1 (params q));
  raw_query p (sql q) vs.

(** *** [Query::Transaction] *)
Definition read_first_row (row : list Value) : Res SqlError (list Value) :=
  match mapM get_value row with Some vs => Ok vs | None => Err EQueryParams end.

(** The rows of a statement with columns: the number of rows, and the first one. *)
Definition observe (rows : list (list Value)) (err : option Failure) : Res SqlError (Z * option (list Value)) :=
  match rows with
  | [] => match err with Some _ => Err ETransaction | None => Ok (0, None) end
  | row :: _ =>
      first ← read_first_row row;
      match err with Some _ => Err ETransaction | None => Ok (zlen rows, Some first) end
  end.

(** One round of the loop over the statements *)
Definition txn_statement (stmt_index : nat) (q : Query) : St SqlError (TransactionEnv * Conn T) (option Z) := fun '(e, c) =>
  match prepare (sql q) (user (cur c)) with
  | None => (Err EPrepareStatement, (e, c))
  | Some p =>
      let '(r, e1) := bind_params_txn (user (cur c)) p 1 (params q) e in
      match r with
      | Ok vs =>
          if Nat.ltb 0 (length (stmt_columns p)) then
            let '((rows, err), c') := run_query p (sql q) vs c in
            match observe rows err with
            | Ok (n, Some first) => (Ok (Some n), (push_observable_stmt stmt_index (sql q) first e1, c'))
            | Ok (n, None) => (Ok (Some n), (e1, c'))
            | Err x => (Err x, (e1, c'))
            | Panic => (Panic, (e1, c'))
            | OutOfFuel => (OutOfFuel, (e1, c'))
            end
          else
            let '(r, c') := run_execute p (sql q) vs c in
            (match r with inr n => Ok n | inl _ => Err ETransaction end, (e1, c'))
      | Err x => (Err x, (e1, c))
      | Panic => (Panic, (e1, c))
      | OutOfFuel => (OutOfFuel, (e1, c))
      end
  end.

Fixpoint txn_loop (stmt_index : nat) (qs : list Query) : St SqlError (TransactionEnv * Conn T) (list (option Z)) :=
  match qs with
  | [] => mret []
  | q :: qs =>
      n ← txn_statement stmt_index q;
      rs ← txn_loop (S stmt_index) qs;
      mret (n :: rs)
  end.

(** The drop of a [rusqlite::Transaction] that was not committed, and [rollback()] *)
Definition drop_txn (c : Conn T) : Conn T := default c (rollback_txn c).

(** [txn.commit()], which drops the transaction when it fails *)
Definition commit_or_drop (c : Conn T) : (Failure + unit) * Conn T :=
  match commit_txn c with inr c' => (inr tt, c') | inl f => (inl f, drop_txn c) end.

Definition transaction (qs : list Query) : CSt (list (option Z)) := fun c =>
  match begin_txn c with
  | None => (Err ETransaction, c)
  | Some c1 =>
      match txn_loop 0 qs (empty_env, c1) with
      | (Ok rs, (_, c2)) =>
          let '(r, c3) := commit_or_drop c2 in
          (match r with inr _ => Ok rs | inl _ => Err ETransaction end, c3)
      | (r, (_, c2)) => (r, drop_txn c2)
      end
  end.

(** *** [Query::Batch] *)

(** [stmt.execute([])] of a statement of a batch *)
Definition script_stmt (t : string) : CSt (option Z) := fun c =>
  match prepare t (user (cur c)) with
  | None => (Err ESqlite, c)
  | Some p => if Nat.eqb (parameter_count p) 0 then raw_execute p t [] c else (Err ESqlite, c)
  end.

Fixpoint batch_loop (fuel : nat) (sql : string) : CSt (list (Res SqlError (option Z))) :=
  match fuel with
  | O => fun c => (OutOfFuel, c)
  | S fuel => fun c =>
      match batch_next sql (user (cur c)) with
      | None => (Err ESqlite, c)
      | Some None => (Ok [], c)
      | Some (Some (t, rest)) =>
          let '(r, c1) := script_stmt t c in
          let '(rs, c2) := batch_loop fuel rest c1 in
          (rs ≫= (fun rs => Ok (r :: rs)), c2)
      end
  end.
Definition batch (sql : string) : CSt (list (Res SqlError (option Z))) := batch_loop (S (String.length sql)) sql.

(** *** [migrate] *)
Definition create_migrations_table : CSt unit := fun c =>
  let u := user (cur c) in
  (Ok tt, mkConn (set_user (mkUser (tables u) (Some (default [] (migrations u)))) (cur c)) (saved c)).

(** The checks against the rows that are already there *)
Fixpoint check_applied (migs : list Migration) (applied_offset last_applied : Z) (rows : list AppliedMigration) : Res SqlError Z :=
  match rows with
  | [] => Ok last_applied
  | a :: rows =>
      if wrap32 (last_applied + 1) =? am_id a then
        match migs !! Z.to_nat (wrap64 (am_id a - 1 - applied_offset)) with
        | None => Panic
        | Some m =>
            if (am_id a =? mig_id m) && String.eqb (am_name a) (mig_name m) && String.eqb (am_hash a) (mig_hash m)
            then check_applied migs applied_offset (am_id a) rows
            else Panic
        end
      else Panic
  end.

Definition last_applied_migration (rows : list AppliedMigration) (migs : list Migration) : Res SqlError Z :=
  match migs with
  | [] => Err EError
  | m :: _ =>
      let first_id := mig_id m in
      let count := zlen (filter (fun a => am_id a < first_id) rows) in
      if (1 <? first_id) && (count <? first_id - 1) then Panic else
      let already := filter (fun a => first_id <= am_id a) rows in
      if forallb (fun a => am_id a <=? u32_max) already
      then check_applied migs (wrap32 (first_id - 1)) (wrap32 (first_id - 1)) already
      else Panic
  end.

(** INSERT INTO _migrations *)
Fixpoint insert_applied (a : AppliedMigration) (rows : list AppliedMigration) : option (list AppliedMigration) :=
  match rows with
  | [] => Some [a]
  | b :: rows =>
      if am_id a =? am_id b then None
      else if am_id a <? am_id b then Some (a :: b :: rows)
      else cons b <$> insert_applied a rows
  end.

Definition insert_migration (a : AppliedMigration) : CSt unit := fun c =>
  let u := user (cur c) in
  match migrations u with
  | None => (Err ESqlite, c)
  | Some rows =>
      match insert_applied a rows with
      | None => (Err EConstraintViolation, c)
      | Some rows => (Ok tt, mkConn (set_user (mkUser (tables u) (Some rows)) (cur c)) (saved c))
      end
  end.

(** The statements of a migration, up to the first that fails *)
Fixpoint script_loop (fuel : nat) (sql : string) : CSt unit :=
  match fuel with
  | O => fun c => (OutOfFuel, c)
  | S fuel => fun c =>
      match batch_next sql (user (cur c)) with
      | None => (Err ESqlite, c)
      | Some None => (Ok tt, c)
      | Some (Some (t, rest)) => (script_stmt t ≫= (fun _ => script_loop fuel rest)) c
      end
  end.

(** [apply_migration], with the transaction it gets *)
Definition apply_migration (m : Migration) (migration_ts : Z) : CSt unit := fun c =>
  match begin_txn c with
  | None => (Err ESqlite, c)
  | Some c1 =>
      let script := from_utf8_lossy (content m) in
      match (script_loop (S (String.length script)) script ;;
             insert_migration (mkAppliedMigration (mig_id m) (mig_name m) migration_ts (mig_hash m))) c1 with
      | (Ok _, c2) =>
          let '(r, c3) := commit_or_drop c2 in
          (match r with inr _ => Ok tt | inl f => Err (from_rusqlite f) end, c3)
      | (r, c2) => (r, drop_txn c2)
      end
  end.

Fixpoint migrate_loop (last_applied migration_ts : Z) (migs : list Migration) : CSt unit :=
  match migs with
  | [] => mret tt
  | m :: migs =>
      if mig_id m =? wrap32 (last_applied + 1)
      then apply_migration m migration_ts ;; migrate_loop (mig_id m) migration_ts migs
      else st_panic
  end.

Definition migrate (migs : list Migration) (l : option LogId) : CSt unit :=
  let migration_ts := match l with Some l => as_int 64 true (index l) | None => 0 end in
  create_migrations_table ;;
  u ← c_user;
  last_applied ← st_lift (last_applied_migration (default [] (migrations u)) migs);
  migrate_loop last_applied migration_ts (filter (fun m => last_applied < mig_id m) migs).

(** ** The state of the thread *)
Context {M : Type}.

(** [StateMachineData]; [StoredMembership] is the log that set the membership and it. *)
Record StateMachineData : Type := mkSmData {
  last_applied_log_id : option LogId;
  last_membership : option LogId * M;
  last_snapshot_id : option string;
}.

(** [serialize_serde] and [deserialize_serde] on it, and the default membership of
    openraft: parameters. *)
Class MetaCodec : Type := {
  default_membership : M;
  serialize_meta : StateMachineData -> option (list byte);
  deserialize_meta : list byte -> option StateMachineData;
}.
Class MetaCodecOk `{MetaCodec} : Prop := {
  meta_total : forall m, exists b, serialize_meta m = Some b;
  meta_round : forall m b, serialize_meta m = Some b -> deserialize_meta b = Some m;
}.
Context `{MetaCodec}.

Definition default_data : StateMachineData := mkSmData None (None, default_membership) None.
Definition set_applied (l : option LogId) (d : StateMachineData) : StateMachineData :=
  mkSmData l (last_membership d) (last_snapshot_id d).

(** A file of the folders [snapshots] and [backups]; [intact] is what [PRAGMA
    integrity_check] finds. *)
Inductive File : Type := SqliteFile (d : Db T) (intact : bool) | Garbage | Folder.

Record Writer : Type := mkWriter {
  conn : Conn T;
  sm_data : StateMachineData;
  ts_last_backup : option Z;
  snapshots : gmap string File;
  backups : gmap string File;
}.
Definition set_conn (c : Conn T) (w : Writer) : Writer := mkWriter c (sm_data w) (ts_last_backup w) (snapshots w) (backups w).
Definition set_data (d : StateMachineData) (w : Writer) : Writer := mkWriter (conn w) d (ts_last_backup w) (snapshots w) (backups w).
Definition set_ts (t : option Z) (w : Writer) : Writer := mkWriter (conn w) (sm_data w) t (snapshots w) (backups w).
Definition set_snapshots (f : gmap string File) (w : Writer) : Writer := mkWriter (conn w) (sm_data w) (ts_last_backup w) f (backups w).
Definition set_backups (f : gmap string File) (w : Writer) : Writer := mkWriter (conn w) (sm_data w) (ts_last_backup w) (snapshots w) f.

Record Env : Type := mkEnv {
  (** [Utc::now()] in microseconds *)
  now : Z;
  f_vacuum : bool;
  f_vacuum_into : bool;
  f_open_temp : bool;
  f_rename : bool;
  f_open_parent : bool;
  f_restore : bool;
  f_open_backup : bool;
}.

Abbreviation WSt := (St SqlError Writer).
Definition w_modify (f : Writer -> Writer) : WSt unit := fun w => (Ok tt, f w).
Definition on_conn {A} (m : CSt A) : WSt A := fun w => let '(r, c) := m (conn w) in (r, set_conn c w).

(** [sm_data.last_applied_log_id = ...] at the start of a request *)
Definition applied (l : option LogId) : WSt unit := w_modify (fun w => set_data (set_applied l (sm_data w)) w).

(** ** Metadata *)

(** [persist_metadata] *)
Definition persist_metadata (d : StateMachineData) (db : Db T) : option (Db T) :=
  b ← serialize_meta d;
  match metadata db with
  | Some _ => Some (set_metadata (Some (Some b)) db)
  | None => None
  end.
(** [persist_metadata(&conn, &sm_data).expect(..)] *)
Definition persist : WSt unit := fun w =>
  match persist_metadata (sm_data w) (cur (conn w)) with
  | Some db => (Ok tt, set_conn (mkConn db (saved (conn w))) w)
  | None => (Panic, w)
  end.

(** [SELECT data FROM _metadata WHERE key = 'meta'] and its deserialization *)
Definition read_metadata (db : Db T) : option StateMachineData :=
  match metadata db with
  | Some (Some b) => deserialize_meta b
  | _ => None
  end.

(** [WriterRequest::MetadataRead] *)
Definition metadata_read : WSt StateMachineData := fun w =>
  match last_applied_log_id (sm_data w) with
  | Some _ => (Ok (sm_data w), w)
  | None =>
      match metadata (cur (conn w)) with
      | None => (Panic, w)
      | Some None => (Ok (sm_data w), w)
      | Some (Some b) =>
          match deserialize_meta b with
          | Some d => (Ok d, set_data d w)
          | None => (Panic, w)
          end
      end
  end.

(** [WriterRequest::MetadataMembership] *)
Definition metadata_membership (m : option LogId * M) (l : option LogId) : WSt unit :=
  w_modify (fun w => set_data (mkSmData l m (last_snapshot_id (sm_data w))) w).

Definition get_data : WSt StateMachineData := fun w => (Ok (sm_data w), w).

(** ** Snapshots *)

(** [remove_file] and the target of a [rename]: a folder is neither removed nor
    replaced. *)
Definition is_folder (f : option File) : bool := match f with Some Folder => true | _ => false end.
Definition remove_file (name : string) (files : gmap string File) : gmap string File :=
  if is_folder (files !! name) then files else delete name files.

Definition in_txn (w : Writer) : bool := match saved (conn w) with Some _ => true | None => false end.

(** [create_snapshot]: VACUUM INTO a temporary file, and a rename *)
Definition create_snapshot (env : Env) (path : string) : WSt unit := fun w =>
  let temp := path +:+ ".tmp" in
  if in_txn w || f_vacuum_into env || bool_decide (is_Some (snapshots w !! temp))
  then (Err ESqlite, set_snapshots (remove_file temp (snapshots w)) w)
  else
    let file := SqliteFile (vacuum_db (cur (conn w))) true in
    if f_open_temp env || f_rename env || is_folder (snapshots w !! path) then (Err EError, set_snapshots (<[temp := file]> (snapshots w)) w)
    else
      let w := set_snapshots (<[path := file]> (snapshots w)) w in
      if f_open_parent env then (Err EError, w) else (Ok tt, w).

(** [WriterRequest::Snapshot] *)
Definition snapshot (env : Env) (snapshot_id : string) : WSt StateMachineData :=
  w_modify (fun w => set_data (mkSmData (last_applied_log_id (sm_data w)) (last_membership (sm_data w)) (Some snapshot_id)) w) ;;
  persist ;;
  create_snapshot env snapshot_id ;;
  get_data.

(** The database a restore finds in the file: opening a file that does not exist
    creates an empty database. *)
Definition open_file (f : option File) : option (Db T) :=
  match f with
  | None => Some empty_db
  | Some (SqliteFile d _) => Some d
  | Some Garbage | Some Folder => None
  end.

(** [WriterRequest::SnapshotApply] *)
Definition snapshot_apply (env : Env) (path : string) : WSt unit := fun w =>
  if in_txn w || f_restore env then (Err ESqlite, w)
  else
    match open_file (snapshots w !! path) with
    | None => (Err ESqlite, w)
    | Some d =>
        let w := set_conn (mkConn d None) w in
        match read_metadata d with
        | Some m => (Ok tt, set_data m w)
        | None => (Panic, w)
        end
    end.

(** ** [WriterRequest::Backup] *)

(** [i64] as text *)
Definition i64_to_string (z : Z) : string := if z <? 0 then "-" +:+ to_string (- z) else to_string z.

(** [create_backup]: the copy carries the metadata of an empty state machine. *)
Definition create_backup (env : Env) (node_id ts : Z) : WSt unit := fun w =>
  let file := "backup_node_" +:+ to_string node_id +:+ "_" +:+ i64_to_string ts +:+ ".sqlite" in
  let temp := file +:+ "~" in
  if in_txn w || f_vacuum_into env || bool_decide (is_Some (backups w !! temp))
  then (Err ESqlite, set_backups (remove_file temp (backups w)) w)
  else if f_rename env || is_folder (backups w !! file) then (Err EError, w)
  else
    let db := vacuum_db (cur (conn w)) in
    if f_open_backup env then (Err ESqlite, set_backups (<[file := SqliteFile db true]> (backups w)) w)
    else (Ok tt, set_backups (<[file := SqliteFile (default db (persist_metadata default_data db)) true]> (backups w)) w).

(** VACUUM; an error is only logged *)
Definition vacuum_main (env : Env) : WSt unit :=
  w_modify (fun w => if in_txn w || f_vacuum env then w else set_conn (mkConn (vacuum_db (cur (conn w))) None) w).

Definition backup (env : Env) (node_id ts : Z) : WSt unit := fun w =>
  let fresh := match ts_last_backup w with Some t => now env - 60 * 1000000 <? t | None => false end in
  if fresh then (Ok tt, w)
  else (vacuum_main env ;; create_backup env node_id ts ;; w_modify (set_ts (Some (now env)))) w.

(** ** The thread *)

(** Before the first request: [_metadata] is dropped on request, and created. *)
Definition spawn_writer (do_reset_metadata : bool) (db : Db T) (snaps backs : gmap string File) : Writer :=
  let m := if do_reset_metadata then None else metadata db in
  mkWriter (mkConn (set_metadata (Some (default None m)) db) None) default_data None snaps backs.

(** After [WriterRequest::Shutdown], and when every sender is gone: the database that
    is left in the file. *)
Definition close_conn : WSt (Db T) := fun w => (Ok (committed (conn w)), w).
Definition shutdown : WSt (Db T) := persist ;; close_conn.
End Writer.
End SqlWriter.
