(* ===== verification/SqlSM.v ===== *)
(** The SQLite state machine:
    [hiqlite/src/store/state_machine/sqlite/{state_machine,snapshot_builder}.rs] and
    [validate_db_backup_snapshot] and [atomic_file_switch] of [hiqlite/src/helpers.rs].

    The channel to the writer thread holds one request and every caller waits for its
    answer, so a request is served where it is sent; the state machine is the state of
    the writer.  The pool of read connections, the pragmas and the access rights of the
    folders are left out.  The feature [backup] is on; [auto_heal] is the feature of
    that name. *)
From stdpp Require Import base gmap strings list numbers.
From Stdlib Require Import Strings.Byte.
From S2P Require Import Prelude Text WalWriter SqlRows SqlBase SqlWriter.
Import Rows Sql SqlWriter.

#[local] Open Scope Z_scope.

Module SqlSM.

Definition BACKUP_DB_NAME : string := "restore.sqlite".

(** [QueryWrite], and openraft's entries *)
Inductive QueryWrite : Type :=
| Execute (q : Query)
| ExecuteReturning (q : Query)
| Transaction (qs : list Query)
| Batch (sql : string)
| Migration (migs : list Sql.Migration)
| Backup (node_id ts : Z)
| RTT.

Inductive EntryPayload (M : Type) : Type :=
| Blank
| Normal (w : QueryWrite)
| Membership (m : M).
Arguments Blank {M}. Arguments Normal {M}. Arguments Membership {M}.

Record Entry (M : Type) : Type := mkEntry { log_id : LogId; payload : EntryPayload M }.
Arguments mkEntry {M}. Arguments log_id {M}. Arguments payload {M}.

(** [Response]; a result is an [Ok] or an [Err]. *)
Inductive Response : Type :=
| REmpty
| RExecute (r : Res SqlError (option Z))
| RExecuteReturning (r : Res SqlError (list (Res SqlError RowOwned)))
| RTransaction (r : Res SqlError (list (option Z)))
| RBatch (r : Res SqlError (list (Res SqlError (option Z))))
| RMigrate (r : Res SqlError unit)
| RBackup (r : Res SqlError unit)
| RRTT.

(** [Uuid::parse_str], [to_string] and the order of UUIDs, as 128-bit numbers *)
Class UuidLib : Type := {
  uuid_parse : string -> option Z;
  uuid_print : Z -> string;
}.
Class UuidLibOk `{UuidLib} : Prop := {
  uuid_parse_print : forall u, 0 <= u < 2 ^ 128 -> uuid_parse (uuid_print u) = Some u;
  uuid_parse_range : forall s u, uuid_parse s = Some u -> 0 <= u < 2 ^ 128;
  uuid_not_temp : uuid_parse "temp" = None;
  uuid_not_tmp : forall s, uuid_parse (s +:+ ".tmp") = None;
}.

Section SM.
Context {T : Type} `{SqlEngine T} `{RowLib} {M : Type} `{!MetaCodec (M := M)} `{UuidLib}.

Abbreviation Writer := (@Writer T M).
Abbreviation File := (@File T).
Abbreviation WSt := (St SqlError Writer).

(** [let result = rx.await.expect(..)]: the reply, or the panic of a dead writer *)
Definition answer {A} (m : WSt A) : WSt (Res SqlError A) := fun w =>
  match m w with
  | (Ok a, w) => (Ok (Ok a), w)
  | (Err e, w) => (Ok (Err e), w)
  | (Panic, w) => (Panic, w)
  | (OutOfFuel, w) => (OutOfFuel, w)
  end.

(** ** [apply] *)
Definition apply_write (env : Env) (l : LogId) (q : QueryWrite) : WSt Response :=
  match q with
  | Execute q => r ← answer (applied (Some l) ;; on_conn (execute q)); mret (RExecute r)
  | ExecuteReturning q => r ← answer (applied (Some l) ;; on_conn (execute_returning q)); mret (RExecuteReturning r)
  | Transaction qs => r ← answer (applied (Some l) ;; on_conn (transaction qs)); mret (RTransaction r)
  | Batch sql => r ← answer (applied (Some l) ;; on_conn (batch sql)); mret (RBatch r)
  | Migration migs => r ← answer (applied (Some l) ;; on_conn (migrate migs (Some l))); mret (RMigrate r)
  | Backup node_id ts => r ← answer (applied (Some l) ;; backup env node_id ts); mret (RBackup r)
  | RTT => applied (Some l) ;; mret RRTT
  end.

Definition apply_entry (env : Env) (e : Entry M) : WSt Response :=
  match payload e with
  | Blank => mret REmpty
  | Normal q => apply_write env (log_id e) q
  | Membership m => metadata_membership (Some (log_id e), m) (Some (log_id e)) ;; mret REmpty
  end.

(** The environment while an entry is applied is a function of its log id. *)
Fixpoint apply (env : LogId -> Env) (es : list (Entry M)) : WSt (list Response) :=
  match es with
  | [] => mret []
  | e :: es => r ← apply_entry (env (log_id e)) e; rs ← apply env es; mret (r :: rs)
  end.

Definition applied_state : WSt (option LogId * (option LogId * M)) :=
  d ← metadata_read; mret (last_applied_log_id d, last_membership d).

(** ** Snapshots *)
Record SnapshotMeta : Type := mkSnapshotMeta {
  snap_last_log_id : option LogId;
  snap_last_membership : option LogId * M;
  snapshot_id : string;
}.
Definition meta_of (d : StateMachineData) (id : string) : SnapshotMeta :=
  mkSnapshotMeta (last_applied_log_id d) (last_membership d) id.

(** The highest UUID that names a file *)
Definition newer (id : option Z) (entry : string * File) : option Z :=
  match uuid_parse entry.1, entry.2 with
  | Some u, (SqliteFile _ _ | Garbage) => match id with Some c => if c <? u then Some u else Some c | None => Some u end
  | _, _ => id
  end.
Definition newest (files : gmap string File) : option Z := foldl newer None (map_to_list files).

(** [read_current_snapshot]; opening a file that is not there creates it. *)
Definition read_current_snapshot : WSt (option SnapshotMeta) := fun w =>
  match newest (snapshots w) with
  | None => (Ok None, w)
  | Some id =>
      let path := uuid_print id in
      match open_file (snapshots w !! path) with
      | None => (Err ESqlite, w)
      | Some d =>
          let w := set_snapshots (<[path := default (SqliteFile d true) (snapshots w !! path)]> (snapshots w)) w in
          match read_metadata d with
          | None => (Err ESqlite, w)
          | Some m => if bool_decide (last_snapshot_id m = Some path) then (Ok (Some (meta_of m path)), w) else (Panic, w)
          end
      end
  end.

(** [update_state_machine_] *)
Definition update_state_machine (env : Env) (path : string) : WSt unit := snapshot_apply env path.

(** [fs::File::open] of a snapshot *)
Definition open_snapshot (path : string) : WSt File := fun w =>
  match snapshots w !! path with Some f => (Ok f, w) | None => (Err EError, w) end.

(** [build_snapshot] without the cleanup it spawns; [id] is [Uuid::now_v7()]. *)
Definition build_snapshot (env : Env) (id : Z) : WSt SnapshotMeta :=
  d ← snapshot env (uuid_print id); open_snapshot (uuid_print id) ;; mret (meta_of d (uuid_print id)).

(** [snapshots_cleanup]: the listing, and the removals *)
Definition cleanup_list (keep_id : Z) (files : gmap string File) : list string :=
  (filter (fun e => e.1 <> uuid_print keep_id /\ is_folder (Some e.2) = false) (map_to_list files)).*1.
Definition cleanup_delete (deletes : list string) (files : gmap string File) : gmap string File :=
  foldr remove_file files deletes.
Definition snapshots_cleanup (keep_id : Z) : WSt unit :=
  w_modify (fun w => set_backups (remove_file BACKUP_DB_NAME (backups w))
    (set_snapshots (cleanup_delete (cleanup_list keep_id (snapshots w)) (snapshots w)) w)).

(** [begin_receiving_snapshot] creates an empty file, which SQLite takes for an empty
    database; then openraft writes what it receives to the file. *)
Definition begin_receiving_snapshot : WSt unit :=
  w_modify (fun w => set_snapshots (<["temp" := SqliteFile empty_db true]> (remove_file "temp" (snapshots w))) w).
Definition receive (f : File) : WSt unit := w_modify (fun w => set_snapshots (<["temp" := f]> (snapshots w)) w).

(** [validate_db_backup_snapshot] on the file *)
Definition validate_db_backup_snapshot (f : option File) : Res SqlError unit :=
  match f with
  | None => Err ESqlite
  | Some (SqliteFile d intact) =>
      match metadata d with
      | None => Err ESqlite
      | Some None => Err EQueryReturnedNoRows
      | Some (Some b) =>
          match deserialize_meta b with
          | None => Err EBincode
          | Some _ => if intact then Ok tt else Err ESqlite
          end
      end
  | Some Garbage | Some Folder => Err ESqlite
  end.

(** [atomic_file_switch] *)
Definition atomic_file_switch (env : Env) (src dest : string) : WSt unit := fun w =>
  match snapshots w !! src with
  | None => (Err EError, w)
  | Some f =>
      if f_open_temp env || f_rename env || is_folder (snapshots w !! dest) then (Err EError, w)
      else
        let w := set_snapshots (<[dest := f]> (delete src (snapshots w))) w in
        if f_open_parent env then (Err EError, w) else (Ok tt, w)
  end.

Definition validate_temp : WSt unit := fun w => (validate_db_backup_snapshot (snapshots w !! "temp"), w).
Definition install_snapshot (env : Env) (meta : SnapshotMeta) : WSt unit :=
  validate_temp ;;
  atomic_file_switch env "temp" (snapshot_id meta) ;;
  update_state_machine env (snapshot_id meta).

(** [get_current_snapshot]: the metadata and the file *)
Definition get_current_snapshot : WSt (option (SnapshotMeta * File)) :=
  s ← read_current_snapshot;
  match s with
  | None => mret None
  | Some m => f ← open_snapshot (snapshot_id m); mret (Some (m, f))
  end.

(** ** Starting and stopping *)

(** The folder of the state machine while no process uses it. *)
Record Disk : Type := mkDisk {
  db_file : option File;
  lock_file : bool;
  disk_snapshots : gmap string File;
  disk_backups : gmap string File;
}.

(** [check_set_lock_file]: the database it leaves, and [db_exists].  [held]: another
    process holds the lock. *)
Definition check_set_lock_file (auto_heal held : bool) (k : Disk) : Res SqlError (option File * bool) :=
  if held then Panic
  else if lock_file k then (if auto_heal then Ok (None, false) else Panic)
  else Ok (db_file k, match db_file k with Some _ => true | None => false end).

(** [StateMachineSqlite::new] *)
Definition new_writer (do_reset_metadata : bool) (k : Disk) (f : option File) : Res SqlError Writer :=
  match open_file f with
  | None => Err ESqlite
  | Some d => Ok (spawn_writer do_reset_metadata d (disk_snapshots k) (disk_backups k))
  end.
Definition restore_newest (env : Env) : WSt unit :=
  s ← read_current_snapshot;
  match s with
  | Some m => update_state_machine env (snapshot_id m)
  | None => mret tt
  end.
Definition new (env : Env) (auto_heal held do_reset_metadata : bool) (k : Disk) : Res SqlError Writer :=
  fe ← check_set_lock_file auto_heal held k;
  w ← new_writer do_reset_metadata k fe.1;
  if (fe.2 : bool) then Ok w
  else match restore_newest env w with
       | (Ok _, w) => Ok w
       | (Err e, _) => Err e
       | (Panic, _) => Panic
       | (OutOfFuel, _) => OutOfFuel
       end.

(** A clean shutdown: the writer removes the lock file last. *)
Definition shutdown_sm (w : Writer) : Res SqlError Disk :=
  match shutdown w with
  | (Ok db, w') => Ok (mkDisk (Some (SqliteFile db true)) false (snapshots w') (backups w'))
  | (Err e, _) => Err e
  | (Panic, _) => Panic
  | (OutOfFuel, _) => OutOfFuel
  end.

(** The process is killed or the machine goes down: the lock file is there, and with
    [synchronous = OFF] nothing is known about the database. *)
Definition crashed (w : Writer) (k : Disk) : Prop :=
  lock_file k = true /\ disk_snapshots k = snapshots w.
End SM.
End SqlSM.
