(* ===== verification/SqlAgree.v ===== *)
(** Replicas of the SQLite state machine: databases that differ only in what VACUUM may
    change answer alike and stay that way, and no request runs out of fuel. *)
From stdpp Require Import base gmap strings list numbers.
From Stdlib Require Import Strings.Byte.
From S2P Require Import Prelude Text WalWriter SqlRows SqlBase SqlWriter SqlSM.
Import Rows Sql SqlWriter SqlSM.

#[local] Open Scope Z_scope.

(** ** Computations that respect an equivalence of their states *)
Section Respects.
Context {E S A B : Type} (R : relation S).

Definition respects (m : St E S A) : Prop := forall s s', R s s' -> (m s).1 = (m s').1 /\ R (m s).2 (m s').2.
End Respects.

Lemma respects_bind {E S A B} (R : relation S) (m : St E S A) (k : A -> St E S B) :
  respects R m -> (forall a, respects R (k a)) -> respects R (m ≫= k).
Proof.
  intros Hm Hk s s' Hs. unfold mbind, st_bind. destruct (Hm s s' Hs) as [E1 E2].
  destruct (m s) as [[a|x| |] s1], (m s') as [r' s1']; simpl in *; subst; simpl; auto.
  by apply Hk.
Qed.
Lemma respects_ret {E S A} (R : relation S) (a : A) : respects R (mret a : St E S A).
Proof. intros s s' Hs. by split. Qed.
Lemma respects_lift {E S A} (R : relation S) (r : Res E A) : respects R (st_lift r).
Proof. intros s s' Hs. by split. Qed.
Lemma respects_err {E S A} (R : relation S) (e : E) : respects R (st_err e : St E S A).
Proof. intros s s' Hs. by split. Qed.
Lemma respects_panic {E S A} (R : relation S) : respects R (st_panic : St E S A).
Proof. intros s s' Hs. by split. Qed.

#[export] Hint Resolve respects_bind respects_ret respects_lift respects_err respects_panic : hql.

Section Agree.
Context {T : Type} `{SqlEngine T} `{Equiv T} `{!SqlEquiv (T := T)} `{RowLib}.

#[export] Instance user_equivalence : Equivalence (≡@{UserDb T}).
Proof.
  split.
  - intros u. by split.
  - intros u u' [Ht Hm]. by split.
  - intros u u' u'' [Ht Hm] [Ht' Hm']. split; [by etrans|congruence].
Qed.
Lemma set_migrations_equiv (u u' : UserDb T) m : u ≡ u' -> mkUser (tables u) m ≡ mkUser (tables u') m.
Proof. intros [Ht _]. by split. Qed.

(** Connections with equivalent contents; the metadata may differ. *)
#[export] Instance db_equiv : Equiv (Db T) := fun d d' => user d ≡ user d'.
#[export] Instance conn_equiv : Equiv (Conn T) := fun c c' =>
  cur c ≡ cur c' /\ option_Forall2 (≡) (saved c) (saved c').

#[export] Instance db_equivalence : Equivalence (≡@{Db T}).
Proof. split; repeat intro; unfold equiv, db_equiv in *; [done|by symmetry|by etrans]. Qed.
#[export] Instance user_proper : Proper ((≡@{Db T}) ==> (≡)) user.
Proof. by intros d d' Hd. Qed.
#[export] Instance conn_equivalence : Equivalence (≡@{Conn T}).
Proof.
  split.
  - intros c. split; reflexivity.
  - intros c c' [Hc Hs]. split; by symmetry.
  - intros c c' c'' [Hc Hs] [Hc' Hs']. split; by etrans.
Qed.

Lemma settle_equiv {A} (o o' : Outcome T A) c c' :
  after o ≡ after o' -> rolled_back o = rolled_back o' -> c ≡ c' -> settle o c ≡ settle o' c'.
Proof.
  intros Ha Hr [Hc Hs]. unfold settle. rewrite Hr.
  destruct (rolled_back o'), Hs as [d d' Hd|]; split; simpl; try done; by constructor.
Qed.

Lemma begin_equiv c c' : c ≡ c' -> option_Forall2 (≡) (begin_txn c) (begin_txn c').
Proof.
  intros [Hc Hs]. unfold begin_txn. destruct Hs; constructor. split; [done|]. by constructor.
Qed.
Lemma rollback_equiv c c' : c ≡ c' -> option_Forall2 (≡) (rollback_txn c) (rollback_txn c').
Proof. intros [Hc Hs]. unfold rollback_txn. destruct Hs; constructor. split; [done|]. constructor. Qed.
Lemma commit_equiv c c' : c ≡ c' ->
  match commit_txn c, commit_txn c' with inr d, inr d' => d ≡ d' | inl f, inl f' => f = f' | _, _ => False end.
Proof.
  intros [Hc Hs]. unfold commit_txn. destruct Hs as [d d' Hd|]; [|done].
  assert (commit_ok (user d) (user (cur c)) = commit_ok (user d') (user (cur c'))) as -> by (by rewrite Hd, Hc).
  destruct (commit_ok _ _); [|done]. split; [done|]. constructor.
Qed.

Definition agree_on {A} (m m' : A * Conn T) : Prop := m.1 = m'.1 /\ m.2 ≡ m'.2.

Lemma run_execute_equiv p s vs c c' : rowid_free s -> c ≡ c' -> agree_on (run_execute p s vs c) (run_execute p s vs c').
Proof.
  intros Hf Hc. unfold run_execute. destruct (control p) as [[]|].
  - by destruct (begin_equiv c c' Hc).
  - pose proof (commit_equiv c c' Hc). destruct (commit_txn c), (commit_txn c'); subst; done.
  - by destruct (rollback_equiv c c' Hc).
  - destruct Hc as [Hu Hs]. destruct (execute_free _ Hf vs _ _ Hu) as (Hr & Ha & Hb).
    split; [done|]. by apply settle_equiv.
Qed.

Lemma run_query_equiv p s vs c c' : rowid_free s -> c ≡ c' -> agree_on (run_query p s vs c) (run_query p s vs c').
Proof.
  intros Hf Hc. unfold run_query. destruct (control p) as [k|].
  - destruct (run_execute_equiv p s vs c c' Hf Hc) as [Hr Hd].
    destruct (run_execute p s vs c) as [[f|n] d], (run_execute p s vs c') as [[f'|n'] d']; simplify_eq/=; by split.
  - destruct Hc as [Hu Hs]. destruct (query_free _ Hf vs _ _ Hu) as (Hr & Ha & Hb).
    split; [done|]. by apply settle_equiv.
Qed.

Abbreviation crespects := (respects (≡@{Conn T})).

Lemma prepare_stmt_respects s : crespects (prepare_stmt s).
Proof. intros c c' [Hu Hs]. unfold prepare_stmt. rewrite (prepare_proper s _ _ Hu). by destruct (prepare s _). Qed.
Lemma raw_execute_respects p s vs : rowid_free s -> crespects (raw_execute p s vs).
Proof.
  intros Hf c c' Hc. unfold raw_execute. destruct (run_execute_equiv p s vs c c' Hf Hc) as [Hr Hd].
  destruct (run_execute p s vs c), (run_execute p s vs c'). simplify_eq/=. by split.
Qed.
Lemma raw_query_respects p s vs : rowid_free s -> crespects (raw_query p s vs).
Proof.
  intros Hf c c' Hc. unfold raw_query. destruct (run_query_equiv p s vs c c' Hf Hc) as [Hr Hd].
  destruct (run_query p s vs c) as [[rows err] d], (run_query p s vs c') as [[rows' err'] d']. simplify_eq/=. by split.
Qed.
#[local] Hint Resolve prepare_stmt_respects raw_execute_respects raw_query_respects : hql.

Lemma execute_respects q : rowid_free (sql q) -> crespects (execute q).
Proof. unfold execute. eauto with hql. Qed.
Lemma execute_returning_respects q : rowid_free (sql q) -> crespects (execute_returning q).
Proof. unfold execute_returning. eauto with hql. Qed.

(** *** Transactions *)
Definition env_equiv : relation (TransactionEnv * Conn T) := fun s s' => s.1 = s'.1 /\ s.2 ≡ s'.2.

Lemma lookup_named_equiv u u' i n e : u ≡ u' -> lookup_named u i n e = lookup_named u' i n e.
Proof.
  intros Hu. unfold lookup_named. destruct (by_index (observable_stmts e) i) as [s| | |]; [|done..].
  by rewrite (prepare_proper (obs_sql s) _ _ Hu).
Qed.
Lemma bind_params_txn_equiv u u' p ps : u ≡ u' -> forall idx e,
  bind_params_txn u p idx ps e = bind_params_txn u' p idx ps e.
Proof.
  intros Hu. induction ps as [|param ps IH]; intros idx e; [done|]. simpl. unfold mbind, st_bind.
  assert (into_sql_txn_ctx u param e = into_sql_txn_ctx u' param e) as ->.
  { destruct param; try done. by apply lookup_named_equiv. }
  destruct (into_sql_txn_ctx u' param e) as [[v|x| |] e1]; try done.
  destruct (bind_ok p idx v); [|done]. by rewrite IH.
Qed.

Lemma txn_statement_respects i q : rowid_free (sql q) -> respects env_equiv (txn_statement i q).
Proof.
  intros Hf [e c] [e' c'] [He Hc]; simpl in He, Hc; subst e'. unfold txn_statement.
  rewrite (prepare_proper (sql q) _ _ (proj1 Hc)). destruct (prepare (sql q) (user (cur c'))) as [p|]; [|done].
  rewrite (bind_params_txn_equiv _ _ p (params q) (proj1 Hc)).
  destruct (bind_params_txn (user (cur c')) p 1 (params q) e) as [[vs|x| |] e1]; [|done..].
  destruct (Nat.ltb 0 (length (stmt_columns p))).
  - destruct (run_query_equiv p (sql q) vs c c' Hf Hc) as [Hr Hd].
    destruct (run_query p (sql q) vs c) as [[rows err] d], (run_query p (sql q) vs c') as [[rows' err'] d']. simplify_eq/=.
    destruct (observe rows' err') as [[n [first|]]| | |]; by split.
  - destruct (run_execute_equiv p (sql q) vs c c' Hf Hc) as [Hr Hd].
    destruct (run_execute p (sql q) vs c), (run_execute p (sql q) vs c'). simplify_eq/=. by split.
Qed.

Lemma txn_loop_respects qs : Forall (fun q => rowid_free (sql q)) qs -> forall i, respects env_equiv (txn_loop i qs).
Proof.
  induction 1 as [|q qs Hq _ IH]; intros i; simpl; [apply respects_ret|].
  apply respects_bind; [by apply txn_statement_respects|]. intros n. apply respects_bind; [apply IH|]. intros. apply respects_ret.
Qed.

Lemma drop_txn_equiv c c' : c ≡ c' -> drop_txn c ≡ drop_txn c'.
Proof. intros Hc. unfold drop_txn. by destruct (rollback_equiv c c' Hc). Qed.
Lemma commit_or_drop_equiv c c' : c ≡ c' -> agree_on (commit_or_drop c) (commit_or_drop c').
Proof.
  intros Hc. unfold commit_or_drop. pose proof (commit_equiv c c' Hc) as Hk.
  destruct (commit_txn c), (commit_txn c'); subst; try done. split; [done|]. by apply drop_txn_equiv.
Qed.

Lemma transaction_respects qs : Forall (fun q => rowid_free (sql q)) qs -> crespects (transaction qs).
Proof.
  intros Hf c c' Hc. unfold transaction. destruct (begin_equiv c c' Hc) as [c1 c1' Hc1|]; [|done].
  destruct (txn_loop_respects qs Hf 0 (empty_env, c1) (empty_env, c1')) as [Hr He]; [done|].
  destruct (txn_loop 0 qs (empty_env, c1)) as [r [e c2]], (txn_loop 0 qs (empty_env, c1')) as [r' [e' c2']].
  destruct He as [He Hc2]. simplify_eq/=.
  destruct r' as [rs|x| |]; [|split; [done|by apply drop_txn_equiv]..].
  destruct (commit_or_drop_equiv c2 c2' Hc2) as [Hr3 Hc3].
  destruct (commit_or_drop c2), (commit_or_drop c2'). simplify_eq/=. by split.
Qed.

(** *** Batches and migrations *)
Lemma script_stmt_respects t : rowid_free t -> crespects (script_stmt t).
Proof.
  intros Hf c c' Hc. unfold script_stmt. rewrite (prepare_proper t _ _ (proj1 Hc)).
  destruct (prepare t (user (cur c'))) as [p|]; [|done]. destruct (Nat.eqb _ _); [|done]. by apply raw_execute_respects.
Qed.

Lemma batch_loop_respects fuel : forall s, script_free s -> crespects (batch_loop fuel s).
Proof.
  induction fuel as [|fuel IH]; intros s Hf c c' Hc; [done|]. simpl.
  rewrite (batch_next_proper s _ _ (proj1 Hc)). destruct (batch_next s (user (cur c'))) as [[[t rest]|]|] eqn:Eb; [|done..].
  destruct (script_free_rest _ _ _ _ Hf Eb) as [Ht Hrest]. destruct (script_stmt_respects t Ht c c' Hc) as [Hr Hc1].
  destruct (script_stmt t c) as [r c1], (script_stmt t c') as [r' c1']. simplify_eq/=.
  destruct (IH rest Hrest c1 c1' Hc1) as [Hrs Hc2].
  destruct (batch_loop fuel rest c1), (batch_loop fuel rest c1'). simplify_eq/=. by split.
Qed.

Lemma script_loop_respects fuel : forall s, script_free s -> crespects (script_loop fuel s).
Proof.
  induction fuel as [|fuel IH]; intros s Hf c c' Hc; [done|]. simpl.
  rewrite (batch_next_proper s _ _ (proj1 Hc)). destruct (batch_next s (user (cur c'))) as [[[t rest]|]|] eqn:Eb; [|done..].
  destruct (script_free_rest _ _ _ _ Hf Eb) as [Ht Hrest].
  apply (respects_bind (≡)); [by apply script_stmt_respects|intros; by apply IH|done].
Qed.

Lemma set_user_conn_equiv c c' u u' : c ≡ c' -> u ≡ u' ->
  mkConn (set_user u (cur c)) (saved c) ≡ mkConn (set_user u' (cur c')) (saved c').
Proof. intros [_ Hs] Hu. by split. Qed.

Lemma insert_migration_respects a : crespects (insert_migration a).
Proof.
  intros c c' Hc. unfold insert_migration. destruct (proj1 Hc) as [Ht Hm]. rewrite Hm.
  destruct (migrations (user (cur c'))) as [rows|]; [|done]. destruct (insert_applied a rows); [|done].
  split; [done|]. apply set_user_conn_equiv; [done|]. by split.
Qed.
Lemma create_table_respects : crespects create_migrations_table.
Proof.
  intros c c' Hc. split; [done|]. destruct (proj1 Hc) as [Ht Hm]. apply set_user_conn_equiv; [done|].
  split; [done|]. by rewrite Hm.
Qed.

Lemma apply_migration_respects m ts : script_free (from_utf8_lossy (content m)) -> crespects (apply_migration m ts).
Proof.
  intros Hf c c' Hc. unfold apply_migration. destruct (begin_equiv c c' Hc) as [c1 c1' Hc1|]; [|done].
  match goal with |- context [?m c1] => set (body := m) end.
  assert (crespects body) as Hb.
  { apply respects_bind; [by apply script_loop_respects|intros; apply insert_migration_respects]. }
  destruct (Hb c1 c1' Hc1) as [Hr Hc2]. destruct (body c1) as [r c2], (body c1') as [r' c2']. simplify_eq/=.
  destruct r' as [u|x| |]; [|split; [done|by apply drop_txn_equiv]..].
  destruct (commit_or_drop_equiv c2 c2' Hc2) as [Hr3 Hc3].
  destruct (commit_or_drop c2), (commit_or_drop c2'). simplify_eq/=. by split.
Qed.

Definition migrations_free (migs : list Sql.Migration) : Prop := Forall (fun m => script_free (from_utf8_lossy (content m))) migs.

Lemma migrate_loop_respects migs : migrations_free migs -> forall last ts, crespects (migrate_loop last ts migs).
Proof.
  induction 1 as [|m migs Hm _ IH]; intros last ts; simpl; [apply respects_ret|].
  destruct (_ =? _); [|apply respects_panic]. apply respects_bind; [by apply apply_migration_respects|]. intros. apply IH.
Qed.

Lemma migrate_respects migs l : migrations_free migs -> crespects (migrate migs l).
Proof.
  intros Hf. unfold migrate. apply respects_bind; [apply create_table_respects|]. intros _ c c' Hc.
  unfold mbind, st_bind. simpl. destruct (proj1 Hc) as [_ Hm]. rewrite Hm.
  destruct (last_applied_migration _ migs); simpl; try done.
  apply migrate_loop_respects; [|done]. unfold migrations_free in *. rewrite list.Forall_forall in Hf |- *.
  intros m [_ Hin]%list_elem_of_filter. by apply Hf.
Qed.

Lemma batch_respects s : script_free s -> crespects (batch s).
Proof. apply batch_loop_respects. Qed.

(** The entries whose statements do not depend on implicit rowids. *)
Definition write_free (q : QueryWrite) : Prop :=
  match q with
  | Execute q | ExecuteReturning q => rowid_free (sql q)
  | Transaction qs => Forall (fun q => rowid_free (sql q)) qs
  | Batch s => script_free s
  | Migration migs => migrations_free migs
  | Backup _ _ | RTT => True
  end.
Definition entry_free {M} (e : Entry M) : Prop := match payload e with Normal q => write_free q | _ => True end.
End Agree.

(** ** Fuel *)
Definition in_fuel {E S A} (m : St E S A) : Prop := forall s, (m s).1 <> OutOfFuel.

Lemma in_fuel_bind {E S A B} (m : St E S A) (k : A -> St E S B) :
  in_fuel m -> (forall a, in_fuel (k a)) -> in_fuel (m ≫= k).
Proof.
  intros Hm Hk s. specialize (Hm s). unfold mbind, st_bind.
  destruct (m s) as [[a|x| |] s1]; try done. apply Hk.
Qed.
Lemma in_fuel_ret {E S A} (a : A) : in_fuel (mret a : St E S A).
Proof. done. Qed.
Lemma in_fuel_lift {E S A} (r : Res E A) : r <> OutOfFuel -> in_fuel (st_lift r : St E S A).
Proof. intros Hr s. exact Hr. Qed.
Lemma res_fuel_bind {E A B} (m : Res E A) (k : A -> Res E B) :
  m <> OutOfFuel -> (forall a, k a <> OutOfFuel) -> m ≫= k <> OutOfFuel.
Proof. destruct m; simpl; auto. Qed.

Section Fuel.
Context {T : Type} `{SqlEngine T} `{!SqlEngineOk (T := T)} `{RowLib}.

Lemma bind_params_fuel p ps : forall idx, bind_params p idx ps <> OutOfFuel.
Proof.
  induction ps as [|q ps IH]; intros idx; [done|]. simpl. apply res_fuel_bind; [by destruct q|].
  intros v. destruct (bind_ok p idx v); [|done]. by apply res_fuel_bind.
Qed.
Lemma column_value_fuel {E} ty v : column_value (E := E) ty v <> OutOfFuel.
Proof. destruct ty; simpl; [done|..]; unfold typed_value; by destruct (get_option _ v) as [[]|]. Qed.
Lemma from_row_column_fuel {E} infos : forall row, from_row_column (E := E) row infos <> OutOfFuel.
Proof.
  induction infos as [|i infos IH]; intros [|v row]; simpl; try done.
  apply res_fuel_bind; [apply column_value_fuel|]. intros w. by apply res_fuel_bind.
Qed.
Lemma rows_owned_fuel infos rows : rows_owned infos rows <> OutOfFuel.
Proof.
  induction rows as [|row rows IH]; simpl; [done|].
  apply res_fuel_bind; [apply from_row_column_fuel|]. intros w. by apply res_fuel_bind.
Qed.

Lemma prepare_stmt_fuel s : in_fuel (prepare_stmt (T := T) s).
Proof. intros c. unfold prepare_stmt. by destruct (prepare s _). Qed.
Lemma raw_execute_fuel p s vs : in_fuel (raw_execute (T := T) p s vs).
Proof. intros c. unfold raw_execute. by destruct (run_execute p s vs c) as [[]]. Qed.
Lemma raw_query_fuel p s vs : in_fuel (raw_query (T := T) p s vs).
Proof.
  intros c. unfold raw_query. destruct (run_query p s vs c) as [[rows err] d]. simpl.
  pose proof (rows_owned_fuel (mapping_cols_from_stmt (stmt_columns p)) rows). by destruct (rows_owned _ rows), err.
Qed.
Lemma execute_fuel q : in_fuel (execute (T := T) q).
Proof.
  apply in_fuel_bind; [apply prepare_stmt_fuel|]. intros p. apply in_fuel_bind; [|intros; apply raw_execute_fuel].
  apply in_fuel_lift, bind_params_fuel.
Qed.
Lemma execute_returning_fuel q : in_fuel (execute_returning (T := T) q).
Proof.
  apply in_fuel_bind; [apply prepare_stmt_fuel|]. intros p. apply in_fuel_bind; [|intros; apply raw_query_fuel].
  apply in_fuel_lift, bind_params_fuel.
Qed.

Lemma by_index_settled l i : settled (by_index l i).
Proof. unfold by_index. by destruct (list_find _ l) as [[? []]|]. Qed.
Lemma first_row_settled s i : settled (get_first_row_value s i).
Proof. unfold get_first_row_value. by destruct (first_row s !! i). Qed.
Lemma into_sql_txn_settled u p e : settled (into_sql_txn_ctx (T := T) u p e).1.
Proof.
  destruct p as [| | | | |i j|i n]; try done; simpl.
  - unfold lookup_indexed. apply settled_bind; [apply by_index_settled|]. intros. apply first_row_settled.
  - unfold lookup_named. pose proof (by_index_settled (observable_stmts e) i) as Hi.
    destruct (by_index (observable_stmts e) i) as [s|x| |]; try done.
    destruct (_ !! n); [apply first_row_settled|]. destruct (prepare (obs_sql s) u) as [p|]; [|done].
    destruct (column_index _ n); [|done]. apply first_row_settled.
Qed.
Lemma bind_params_txn_settled u p ps : forall idx e, settled (bind_params_txn (T := T) u p idx ps e).1.
Proof.
  induction ps as [|q ps IH]; intros idx e; [done|]. simpl. unfold mbind, st_bind.
  pose proof (into_sql_txn_settled u q e) as Hq. destruct (into_sql_txn_ctx u q e) as [[v|x| |] e1]; try done.
  destruct (bind_ok p idx v); [|done]. specialize (IH (S idx) e1).
  by destruct (bind_params_txn u p (S idx) ps e1) as [[vs|x| |] e2].
Qed.
Lemma observe_settled rows err : settled (observe (T := T) rows err).
Proof.
  destruct rows as [|row rows]; [by destruct err|]. simpl. unfold read_first_row.
  destruct (mapM get_value row); [|done]. by destruct err.
Qed.

(** A statement of a transaction replies or fails; it never panics. *)
Lemma txn_statement_settled i q s : settled (txn_statement (T := T) i q s).1.
Proof.
  destruct s as [e c]. unfold txn_statement. destruct (prepare (sql q) _) as [p|]; [|done].
  pose proof (bind_params_txn_settled (user (cur c)) p (params q) 1 e) as Hb.
  destruct (bind_params_txn _ p 1 (params q) e) as [[vs|x| |] e1]; try done.
  destruct (Nat.ltb 0 _).
  - destruct (run_query p (sql q) vs c) as [[rows err] c']. pose proof (observe_settled rows err).
    by destruct (observe rows err) as [[n [first|]]| | |].
  - by destruct (run_execute p (sql q) vs c) as [[] ?].
Qed.
Lemma txn_loop_settled qs : forall i s, settled (txn_loop (T := T) i qs s).1.
Proof.
  induction qs as [|q qs IH]; intros i s; [done|]. simpl. unfold mbind, st_bind.
  pose proof (txn_statement_settled i q s) as Hs. destruct (txn_statement i q s) as [[n|x| |] s1]; try done.
  specialize (IH (S i) s1). by destruct (txn_loop (S i) qs s1) as [[rs|x| |] s2].
Qed.
Lemma transaction_settled qs c : settled (transaction (T := T) qs c).1.
Proof.
  unfold transaction. destruct (begin_txn c) as [c1|]; [|done].
  pose proof (txn_loop_settled qs 0 (empty_env, c1)) as Hl. destruct (txn_loop 0 qs _) as [[rs|x| |] [e c2]]; try done.
  by destruct (commit_or_drop c2) as [[] ?].
Qed.

Lemma script_stmt_settled t c : settled (script_stmt (T := T) t c).1.
Proof.
  unfold script_stmt. destruct (prepare t _) as [p|]; [|done]. destruct (Nat.eqb _ _); [|done].
  unfold raw_execute. by destruct (run_execute p t [] c) as [[] ?].
Qed.
Lemma batch_loop_settled fuel : forall s c, (String.length s < fuel)%nat -> settled (batch_loop (T := T) fuel s c).1.
Proof.
  induction fuel as [|fuel IH]; intros s c Hf; [lia|]. simpl.
  destruct (batch_next s (user (cur c))) as [[[t rest]|]|] eqn:E; [|done..].
  destruct (script_stmt t c) as [r c1]. pose proof (IH rest c1) as Hr.
  destruct (batch_loop fuel rest c1) as [rs c2]. apply batch_shorter in E.
  assert (settled rs) by (apply Hr; lia). by destruct rs.
Qed.
Lemma batch_settled s c : settled (batch (T := T) s c).1.
Proof. apply batch_loop_settled. lia. Qed.

Lemma script_loop_settled fuel : forall s c, (String.length s < fuel)%nat -> settled (script_loop (T := T) fuel s c).1.
Proof.
  induction fuel as [|fuel IH]; intros s c Hf; [lia|]. simpl.
  destruct (batch_next s (user (cur c))) as [[[t rest]|]|] eqn:E; [|done..].
  apply batch_shorter in E. unfold mbind, st_bind. pose proof (script_stmt_settled t c) as Ht.
  destruct (script_stmt t c) as [[n|x| |] c1]; try done. apply IH. lia.
Qed.
Lemma insert_migration_settled a c : settled (insert_migration (T := T) a c).1.
Proof. unfold insert_migration. destruct (migrations _); [|done]. by destruct (insert_applied a _). Qed.
Lemma apply_migration_settled m ts c : settled (apply_migration (T := T) m ts c).1.
Proof.
  unfold apply_migration. destruct (begin_txn c) as [c1|]; [|done]. unfold mbind, st_bind.
  pose proof (script_loop_settled (S (String.length (from_utf8_lossy (content m)))) (from_utf8_lossy (content m)) c1 ltac:(lia)) as Hs.
  destruct (script_loop _ _ c1) as [[u|x| |] c2]; try done.
  pose proof (insert_migration_settled (mkAppliedMigration (mig_id m) (mig_name m) ts (mig_hash m)) c2) as Hi.
  destruct (insert_migration _ c2) as [[u'|x| |] c3]; try done. by destruct (commit_or_drop c3) as [[] ?].
Qed.
Lemma check_applied_fuel migs off rows : forall last, check_applied migs off last rows <> OutOfFuel.
Proof.
  induction rows as [|a rows IH]; intros last; [done|]. simpl. destruct (_ =? _); [|done].
  destruct (migs !! _); [|done]. destruct (_ && _); [|done]. apply IH.
Qed.
Lemma migrate_loop_fuel migs : forall last ts, in_fuel (migrate_loop (T := T) last ts migs).
Proof.
  induction migs as [|m migs IH]; intros last ts; simpl; [apply in_fuel_ret|].
  destruct (_ =? _); [|done]. apply in_fuel_bind; [|intros; apply IH].
  intros c. pose proof (apply_migration_settled m ts c) as Hm. by destruct (apply_migration m ts c) as [[] ?].
Qed.
Lemma migrate_fuel migs l : in_fuel (migrate (T := T) migs l).
Proof.
  unfold migrate. apply in_fuel_bind; [done|]. intros _. apply in_fuel_bind; [done|]. intros u.
  apply in_fuel_bind; [|intros; apply migrate_loop_fuel]. apply in_fuel_lift.
  unfold last_applied_migration. destruct migs as [|m migs]; [done|].
  destruct (_ && _); [done|]. destruct (forallb _ _); [|done]. apply check_applied_fuel.
Qed.
End Fuel.

(** ** Requests of clients leave the metadata alone *)
Definition keeps {E S A} (P : S -> Prop) (m : St E S A) : Prop := forall s, P s -> P (m s).2.

Lemma keeps_bind {E S A B} (P : S -> Prop) (m : St E S A) (k : A -> St E S B) :
  keeps P m -> (forall a, keeps P (k a)) -> keeps P (m ≫= k).
Proof.
  intros Hm Hk s Hs. specialize (Hm s Hs). unfold mbind, st_bind.
  destruct (m s) as [[a|x| |] s1]; try done. by apply Hk.
Qed.

Section Keeps.
Context {T : Type} `{SqlEngine T} `{RowLib}.

(** Every state the connection can be in has the metadata [m]. *)
Definition meta_is (m : option (option (list byte))) (c : Conn T) : Prop :=
  metadata (cur c) = m /\ forall d, saved c = Some d -> metadata d = m.

Lemma settle_meta {A} (o : Outcome T A) m c : meta_is m c -> meta_is m (settle o c).
Proof. intros [Hc Hs]. unfold settle. destruct (rolled_back o), (saved c) eqn:E; split; simpl; auto; intros d' Hd'; rewrite ?E in Hd'; auto; done. Qed.
Lemma begin_meta m c c' : begin_txn c = Some c' -> meta_is m c -> meta_is m c'.
Proof. unfold begin_txn. destruct (saved c); [done|]. intros [= <-] [Hc _]. split; [done|]. simpl. by intros d [= <-]. Qed.
Lemma rollback_meta m c c' : rollback_txn c = Some c' -> meta_is m c -> meta_is m c'.
Proof. unfold rollback_txn. destruct (saved c) eqn:E; [|done]. intros [= <-] [_ Hs]. split; [by apply Hs|done]. Qed.
Lemma commit_meta m c c' : commit_txn c = inr c' -> meta_is m c -> meta_is m c'.
Proof.
  unfold commit_txn. destruct (saved c); [|done]. destruct (commit_ok _ _); [|done]. intros [= <-] [Hc _]. by split.
Qed.
Lemma run_execute_meta m p s vs c : meta_is m c -> meta_is m (run_execute p s vs c).2.
Proof.
  intros Hc. unfold run_execute. destruct (control p) as [[]|].
  - destruct (begin_txn c) eqn:E; [|done]. by eapply begin_meta.
  - destruct (commit_txn c) eqn:E; [done|]. by eapply commit_meta.
  - destruct (rollback_txn c) eqn:E; [|done]. by eapply rollback_meta.
  - by apply settle_meta.
Qed.
Lemma run_query_meta m p s vs c : meta_is m c -> meta_is m (run_query p s vs c).2.
Proof.
  intros Hc. unfold run_query. destruct (control p) as [k|]; [|by apply settle_meta].
  pose proof (run_execute_meta m p s vs c Hc). by destruct (run_execute p s vs c) as [[] ?].
Qed.

Abbreviation kept m := (keeps (S := Conn T) (meta_is m)).

Lemma prepare_stmt_kept m s : kept m (prepare_stmt s).
Proof. intros c Hc. unfold prepare_stmt. by destruct (prepare s _). Qed.
Lemma raw_execute_kept m p s vs : kept m (raw_execute p s vs).
Proof. intros c Hc. unfold raw_execute. pose proof (run_execute_meta m p s vs c Hc). by destruct (run_execute p s vs c). Qed.
Lemma raw_query_kept m p s vs : kept m (raw_query p s vs).
Proof. intros c Hc. unfold raw_query. pose proof (run_query_meta m p s vs c Hc). by destruct (run_query p s vs c) as [[] ?]. Qed.
Lemma execute_kept m q : kept m (execute q).
Proof. apply keeps_bind; [apply prepare_stmt_kept|]. intros p. apply keeps_bind; [by intros s Hs|]. intros. apply raw_execute_kept. Qed.
Lemma execute_returning_kept m q : kept m (execute_returning q).
Proof. apply keeps_bind; [apply prepare_stmt_kept|]. intros p. apply keeps_bind; [by intros s Hs|]. intros. apply raw_query_kept. Qed.

Lemma txn_statement_kept m i q : keeps (fun s => meta_is m s.2) (txn_statement (T := T) i q).
Proof.
  intros [e c] Hc. simpl in Hc. unfold txn_statement. destruct (prepare (sql q) _) as [p|]; [|done].
  destruct (bind_params_txn _ p 1 (params q) e) as [[vs|x| |] e1]; try done. destruct (Nat.ltb 0 _).
  - pose proof (run_query_meta m p (sql q) vs c Hc). destruct (run_query p (sql q) vs c) as [[rows err] c'].
    by destruct (observe rows err) as [[n [first|]]| | |].
  - pose proof (run_execute_meta m p (sql q) vs c Hc). by destruct (run_execute p (sql q) vs c).
Qed.
Lemma txn_loop_kept m qs : forall i, keeps (fun s => meta_is m s.2) (txn_loop (T := T) i qs).
Proof.
  induction qs as [|q qs IH]; intros i; simpl; [by intros s|].
  apply keeps_bind; [apply txn_statement_kept|]. intros n. apply keeps_bind; [apply IH|]. by intros rs s Hs.
Qed.
Lemma drop_txn_meta m c : meta_is m c -> meta_is m (drop_txn c).
Proof. intros Hc. unfold drop_txn. destruct (rollback_txn c) eqn:E; simpl; [by eapply rollback_meta|done]. Qed.
Lemma commit_or_drop_meta m c : meta_is m c -> meta_is m (commit_or_drop c).2.
Proof. intros Hc. unfold commit_or_drop. destruct (commit_txn c) eqn:E; simpl; [by apply drop_txn_meta|by eapply commit_meta]. Qed.
Lemma transaction_kept m qs : kept m (transaction qs).
Proof.
  intros c Hc. unfold transaction. destruct (begin_txn c) as [c1|] eqn:E; [|done].
  pose proof (txn_loop_kept m qs 0 (empty_env, c1) (begin_meta m c c1 E Hc)) as Hl.
  destruct (txn_loop 0 qs _) as [[rs|x| |] [e c2]]; simpl in *; try by apply drop_txn_meta.
  pose proof (commit_or_drop_meta m c2 Hl). by destruct (commit_or_drop c2).
Qed.
Lemma script_stmt_kept m t : kept m (script_stmt t).
Proof.
  intros c Hc. unfold script_stmt. destruct (prepare t _) as [p|]; [|done]. destruct (Nat.eqb _ _); [|done]. by apply raw_execute_kept.
Qed.
Lemma batch_loop_kept m fuel : forall s, kept m (batch_loop fuel s).
Proof.
  induction fuel as [|fuel IH]; intros s c Hc; [done|]. simpl. destruct (batch_next s _) as [[[t rest]|]|]; [|done..].
  pose proof (script_stmt_kept m t c Hc) as H1. destruct (script_stmt t c) as [r c1].
  pose proof (IH rest c1 H1) as H2. by destruct (batch_loop fuel rest c1).
Qed.
Lemma script_loop_kept m fuel : forall s, kept m (script_loop fuel s).
Proof.
  induction fuel as [|fuel IH]; intros s c Hc; [done|]. simpl. destruct (batch_next s _) as [[[t rest]|]|]; [|done..].
  apply (keeps_bind (meta_is m)); [apply script_stmt_kept|intros; apply IH|done].
Qed.
Lemma set_user_meta m c u : meta_is m c -> meta_is m (mkConn (set_user u (cur c)) (saved c)).
Proof. by intros [Hc Hs]. Qed.
Lemma insert_migration_kept m a : kept m (insert_migration a).
Proof. intros c Hc. unfold insert_migration. destruct (migrations _); [|done]. destruct (insert_applied a _); [|done]. by apply set_user_meta. Qed.
Lemma apply_migration_kept m mig ts : kept m (apply_migration mig ts).
Proof.
  intros c Hc. unfold apply_migration. destruct (begin_txn c) as [c1|] eqn:E; [|done].
  match goal with |- context [?x c1] => assert (kept m x) as Hx by (apply keeps_bind; [apply script_loop_kept|intros; apply insert_migration_kept]); specialize (Hx c1 (begin_meta m c c1 E Hc)); destruct (x c1) as [[u|x'| |] c2] end;
    simpl in *; try by apply drop_txn_meta.
  pose proof (commit_or_drop_meta m c2 Hx). by destruct (commit_or_drop c2).
Qed.
Lemma migrate_kept m migs l : kept m (migrate migs l).
Proof.
  unfold migrate. apply keeps_bind; [intros c Hc; by apply set_user_meta|]. intros _. apply keeps_bind; [by intros s Hs|]. intros u.
  apply keeps_bind; [by intros s Hs|]. intros last. generalize (filter (fun m => last < mig_id m) migs). intros todo.
  generalize (match l with Some l => as_int 64 true (index l) | None => 0 end). intros ts. clear u migs. revert last.
  induction todo as [|mig todo IH]; intros last; simpl; [by intros c|]. destruct (_ =? _); [|by intros c].
  apply keeps_bind; [apply apply_migration_kept|]. intros _. apply IH.
Qed.
End Keeps.
