(* ===== verification/SqlSMSpec.v ===== *)
(** The SQLite state machine as openraft uses it: replicas that apply the same entries
    agree, snapshots carry the replicated state, and a node that comes back after a
    crash or a shutdown is where it was. *)
From stdpp Require Import base gmap strings list numbers.
From Stdlib Require Import Strings.Byte.
From S2P Require Import Prelude Text WalWriter SqlRows SqlBase SqlWriter SqlSM SqlAgree.
Import Rows Sql SqlWriter SqlSM.

#[local] Open Scope Z_scope.

Section SMSpec.
Context {T : Type} `{SqlEngine T} `{!SqlEngineOk (T := T)} `{Equiv T} `{!SqlEquiv (T := T)} `{RowLib}.
Context {M : Type} `{!MetaCodec (M := M)} `{!MetaCodecOk (M := M)} `{UuidLib} `{!UuidLibOk}.

Abbreviation Writer := (@Writer T M).

(** ** Replicas *)

(** The replicated part of two nodes: the contents, the open transaction, the last
    applied log and the membership. *)
Definition agree (w w' : Writer) : Prop :=
  conn w ≡ conn w' /\
  last_applied_log_id (sm_data w) = last_applied_log_id (sm_data w') /\
  last_membership (sm_data w) = last_membership (sm_data w').

#[export] Instance agree_equivalence : Equivalence agree.
Proof.
  split.
  - intros w. split; [done|by split].
  - intros w w' (Hc & Hl & Hm). split; [by symmetry|]. split; congruence.
  - intros w w' w'' (Hc & Hl & Hm) (Hc' & Hl' & Hm'). split; [by etrans|]. split; congruence.
Qed.

(** A backup is local: its result may differ. *)
Definition same_response (r r' : Response) : Prop :=
  match r, r' with
  | RBackup _, RBackup _ => True
  | _, _ => r = r'
  end.
#[export] Instance same_response_refl : Reflexive same_response.
Proof. by intros []. Qed.

Definition same_outcome {A} (R : relation A) (r r' : Res SqlError A) : Prop :=
  match r, r' with
  | Ok a, Ok a' => R a a'
  | Err e, Err e' => e = e'
  | Panic, Panic | OutOfFuel, OutOfFuel => True
  | _, _ => False
  end.

Lemma on_conn_agree {A} (m : St SqlError (Conn T) A) w w' :
  respects (≡) m -> agree w w' -> (on_conn m w).1 = (on_conn m w').1 /\ agree (on_conn m w).2 (on_conn m w').2.
Proof.
  intros Hm (Hc & Hl & Hd). unfold on_conn. destruct (Hm _ _ Hc) as [Hr Hc'].
  destruct (m (conn w)), (m (conn w')). simplify_eq/=. split; [done|by split].
Qed.

Lemma applied_agree l (w w' : Writer) : agree w w' -> agree (applied l w).2 (applied l w').2.
Proof. intros (Hc & Hl & Hd). split; [done|by split]. Qed.

Lemma answer_on_conn {A} l (m : St SqlError (Conn T) A) w w' :
  respects (≡) m -> agree w w' ->
  let a := answer (applied l ;; on_conn m) in
  same_outcome eq (a w).1 (a w').1 /\ agree (a w).2 (a w').2.
Proof.
  intros Hm Hw. unfold answer, mbind, st_bind. simpl.
  destruct (on_conn_agree m _ _ Hm (applied_agree l w w' Hw)) as [Hr Hd].
  unfold applied, w_modify in *. simpl in *.
  match goal with |- context [on_conn m ?x] => destruct (on_conn m x) as [r w1] end.
  match goal with |- context [on_conn m ?x] => destruct (on_conn m x) as [r' w1'] end.
  simplify_eq/=. destruct r'; by split.
Qed.

Lemma vacuum_equiv_conn (w : Writer) env : agree ((vacuum_main env w).2) w.
Proof.
  unfold vacuum_main, w_modify, in_txn. simpl. destruct (saved (conn w)) eqn:E; simpl; [done|].
  destruct (f_vacuum env); [done|]. split; [|done]. split; [|by rewrite E].
  split; simpl; [apply vacuum_equiv|done].
Qed.

Lemma create_backup_local env id ts (w : Writer) :
  settled (create_backup env id ts w).1 /\ conn (create_backup env id ts w).2 = conn w /\
  sm_data (create_backup env id ts w).2 = sm_data w.
Proof. unfold create_backup. repeat case_match; done. Qed.

Lemma backup_local env id ts (w : Writer) : settled (backup env id ts w).1 /\ agree (backup env id ts w).2 w.
Proof.
  unfold backup. destruct (match ts_last_backup w with Some _ => _ | None => _ end); [done|].
  unfold mbind, st_bind. pose proof (vacuum_equiv_conn w env) as Hv.
  destruct (vacuum_main env w) as [r w1] eqn:E. injection E as <- <-. simpl in *.
  match goal with |- context [create_backup env id ts ?x] => set (w1 := x) in * end.
  destruct (create_backup_local env id ts w1) as (Hs & Hc & Hd).
  destruct (create_backup env id ts w1) as [[a|x| |] w2]; try done; simpl in *; (split; [done|]); rewrite <- Hv;
    (split; [by rewrite <- Hc|by rewrite <- Hd]).
Qed.

Lemma answer_backup env env' l id ts (w w' : Writer) :
  agree w w' ->
  let a e := answer (applied l ;; backup e id ts) in
  same_outcome (fun _ _ => True) (a env w).1 (a env' w').1 /\ agree (a env w).2 (a env' w').2.
Proof.
  intros Hw. unfold answer, mbind, st_bind. simpl.
  apply (applied_agree l) in Hw. unfold applied, w_modify in Hw. simpl in Hw.
  match goal with |- context [backup env id ts ?x] => destruct (backup_local env id ts x) as [Hs Ha]; destruct (backup env id ts x) as [r w1] end.
  match goal with |- context [backup env' id ts ?x] => destruct (backup_local env' id ts x) as [Hs' Ha']; destruct (backup env' id ts x) as [r' w1'] end.
  simpl in *. destruct r, r'; try done; (split; [done|]); by rewrite Ha, Ha'.
Qed.

Lemma reply_agree {A} (R : relation A) (m m' : St SqlError Writer A) (f : A -> Response) w w' :
  same_outcome R (m w).1 (m' w').1 /\ agree (m w).2 (m' w').2 ->
  (forall a a', R a a' -> same_response (f a) (f a')) ->
  same_outcome same_response ((m ≫= (fun a => mret (f a))) w).1 ((m' ≫= (fun a => mret (f a))) w').1 /\
  agree ((m ≫= (fun a => mret (f a))) w).2 ((m' ≫= (fun a => mret (f a))) w').2.
Proof.
  intros [Hr Ha] Hf. unfold mbind, st_bind.
  destruct (m w) as [[a| | |] w1], (m' w') as [[a'| | |] w1']; try done. split; [by apply Hf|done].
Qed.

Lemma apply_entry_agree env env' e w w' :
  entry_free e -> agree w w' -> same_outcome same_response (apply_entry env e w).1 (apply_entry env' e w').1 /\
                agree (apply_entry env e w).2 (apply_entry env' e w').2.
Proof.
  intros Hf Hw. unfold entry_free in Hf. unfold apply_entry. destruct (payload e) as [|q|m]; [done| |].
  2:{ destruct Hw as (Hc & _ & _). split; [done|]. by split. }
  destruct q as [q|q|qs|s|migs|id ts|]; simpl.
  7:{ split; [done|]. by apply applied_agree. }
  6:{ apply (reply_agree (fun _ _ => True)); [by apply answer_backup|done]. }
  all: apply (reply_agree eq); [apply answer_on_conn; [|done]|by intros ?? ->].
  - by apply execute_respects.
  - by apply execute_returning_respects.
  - by apply transaction_respects.
  - by apply batch_respects.
  - by apply migrate_respects.
Qed.

Lemma apply_agree env env' es : Forall entry_free es -> forall w w',
  agree w w' -> same_outcome (Forall2 same_response) (apply env es w).1 (apply env' es w').1 /\
                agree (apply env es w).2 (apply env' es w').2.
Proof.
  induction 1 as [|e es He _ IH]; intros w w' Hw; simpl; [by split; [constructor|]|]. unfold mbind, st_bind.
  destruct (apply_entry_agree (env (log_id e)) (env' (log_id e)) e w w' He Hw) as [Hr Ha].
  destruct (apply_entry _ e w) as [[r| | |] w1], (apply_entry _ e w') as [[r'| | |] w1']; try done. simpl in *.
  destruct (IH w1 w1' Ha) as [Hrs Ha2].
  destruct (apply env es w1) as [[rs| | |] w2], (apply env' es w1') as [[rs'| | |] w2']; try done. simpl in *.
  split; [by constructor|done].
Qed.

(** Applying replies to every entry, or the writer panicked. *)
Definition replied {A} (r : Res SqlError A) : Prop := match r with Ok _ | Panic => True | _ => False end.

Lemma answer_replied {A} (m : St SqlError Writer A) (f : Res SqlError A -> Response) w :
  in_fuel m -> replied ((answer m ≫= (fun a => mret (f a))) w).1.
Proof. intros Hm. specialize (Hm w). unfold mbind, st_bind, answer. by destruct (m w) as [[] ?]. Qed.
Lemma on_conn_fuel {A} l (m : St SqlError (Conn T) A) : in_fuel m -> in_fuel (applied (M := M) l ;; on_conn m).
Proof.
  intros Hm. apply in_fuel_bind; [done|]. intros _ w. unfold on_conn. specialize (Hm (conn w)). by destruct (m (conn w)).
Qed.
Lemma settled_fuel {E S A} (m : St E S A) : (forall s, settled (m s).1) -> in_fuel m.
Proof. intros Hm s. specialize (Hm s). by destruct (m s) as [[] ?]. Qed.

Lemma apply_entry_replied env e (w : Writer) : replied (apply_entry env e w).1.
Proof.
  unfold apply_entry. destruct (payload e) as [|q|m]; [done| |done].
  destruct q as [q|q|qs|s|migs|id ts|]; [..|done]; apply answer_replied; try apply on_conn_fuel.
  - apply execute_fuel.
  - apply execute_returning_fuel.
  - apply settled_fuel, transaction_settled.
  - apply settled_fuel, batch_settled.
  - apply migrate_fuel.
  - apply in_fuel_bind; [done|]. intros _. apply settled_fuel. intros s. apply backup_local.
Qed.

Lemma apply_replies env es : forall w : Writer,
  match (apply env es w).1 with Ok rs => length rs = length es | Panic => True | _ => False end.
Proof.
  induction es as [|e es IH]; intros w; simpl; [done|]. unfold mbind, st_bind.
  pose proof (apply_entry_replied (env (log_id e)) e w) as Hr.
  destruct (apply_entry _ e w) as [[r| | |] w1]; try done. specialize (IH w1).
  destruct (apply env es w1) as [[rs| | |] w2]; try done. simpl in *. congruence.
Qed.

(** ** What applying leaves alone *)
Definition rest_is (m : option (option (list byte))) (files : gmap string (@File T)) (w : Writer) : Prop :=
  meta_is m (conn w) /\ snapshots w = files.

Lemma on_conn_keeps {A} m files l (x : St SqlError (Conn T) A) :
  keeps (meta_is m) x -> keeps (rest_is m files) (applied l ;; on_conn x).
Proof.
  intros Hx. apply keeps_bind; [by intros w Hw|]. intros _ w [Hc Hf]. unfold on_conn.
  specialize (Hx _ Hc). by destruct (x (conn w)).
Qed.
Lemma reply_keeps {A} m files (x : St SqlError Writer A) (f : Res SqlError A -> Response) :
  keeps (rest_is m files) x -> keeps (rest_is m files) (answer x ≫= (fun a => mret (f a))).
Proof. intros Hx w Hw. specialize (Hx w Hw). unfold mbind, st_bind, answer. by destruct (x w) as [[] ?]. Qed.
Lemma backup_keeps m files env id ts : keeps (rest_is m files) (backup (M := M) env id ts).
Proof.
  intros w Hw. unfold backup. destruct (match ts_last_backup w with Some _ => _ | None => _ end); [done|].
  revert w Hw. change (keeps (rest_is m files) (vacuum_main env ;; create_backup env id ts ;; w_modify (set_ts (Some (now env))))).
  apply keeps_bind; [|intros _; apply keeps_bind; [|by intros _ w Hw]].
  - intros w Hw. unfold vacuum_main, w_modify. simpl. destruct (in_txn w || f_vacuum env); [done|].
    destruct Hw as [[Hc _] Hf]. done.
  - intros w Hw. unfold create_backup. by repeat case_match.
Qed.

Lemma apply_entry_keeps m files env e : keeps (rest_is m files) (apply_entry env e).
Proof.
  unfold apply_entry. destruct (payload e) as [|q|mem]; [by intros w Hw| |by intros w Hw].
  destruct q as [q|q|qs|s|migs|id ts|]; [..|by intros w Hw]; apply reply_keeps; try apply on_conn_keeps.
  - apply execute_kept.
  - apply execute_returning_kept.
  - apply transaction_kept.
  - apply batch_loop_kept.
  - apply migrate_kept.
  - apply keeps_bind; [by intros w Hw|]. intros _. apply backup_keeps.
Qed.
Lemma apply_keeps m files env es : keeps (rest_is m files) (apply env es).
Proof.
  induction es as [|e es IH]; simpl; [by intros w Hw|].
  apply keeps_bind; [apply apply_entry_keeps|]. intros r. apply keeps_bind; [apply IH|by intros rs w Hw].
Qed.

(** ** Snapshots *)
Definition no_faults (e : Env) : Prop :=
  f_vacuum_into e = false /\ f_open_temp e = false /\ f_rename e = false /\ f_open_parent e = false /\ f_restore e = false.

(** The database [d] is a snapshot of the node [w] with the name [id]. *)
Definition snapshot_of (w : Writer) (id : string) (d : Db T) : Prop :=
  user d ≡ user (cur (conn w)) /\
  read_metadata d = Some (mkSmData (last_applied_log_id (sm_data w)) (last_membership (sm_data w)) (Some id)).

(** No transaction is open and [_metadata] exists. *)
Definition idle (w : Writer) : Prop := saved (conn w) = None /\ is_Some (metadata (cur (conn w))).

Lemma persist_meta_ok (w : Writer) :
  idle w -> exists db b, persist w = (Ok tt, set_conn (mkConn db None) w) /\ serialize_meta (sm_data w) = Some b /\
    db = set_metadata (Some (Some b)) (cur (conn w)).
Proof.
  intros [Hs [m Hm]]. destruct (meta_total (sm_data w)) as [b Hb].
  exists (set_metadata (Some (Some b)) (cur (conn w))), b. split; [|done].
  unfold persist, persist_metadata. rewrite Hb. simpl. by rewrite Hm, Hs.
Qed.

Lemma build_snapshot_ok env id w :
  no_faults env -> idle w ->
  snapshots w !! (uuid_print id +:+ ".tmp") = None -> is_folder (snapshots w !! uuid_print id) = false ->
  exists d w', build_snapshot env id w = (Ok (meta_of (sm_data w) (uuid_print id)), w') /\
    snapshots w' = <[uuid_print id := SqliteFile d true]> (snapshots w) /\
    snapshot_of w (uuid_print id) d /\ agree w' w /\ idle w'.
Proof.
  intros (Fv & Fo & Fr & Fp & _) Hi Ht Hf. unfold build_snapshot, snapshot, mbind, st_bind.
  set (w1 := set_data (mkSmData (last_applied_log_id (sm_data w)) (last_membership (sm_data w)) (Some (uuid_print id))) w).
  destruct (persist_meta_ok w1 Hi) as (db & b & Hp & Hb & ->). unfold w_modify. simpl. fold w1. rewrite Hp. unfold create_snapshot, in_txn. simpl. rewrite Fv, Ht, Fo, Fr, Hf, Fp. simpl.
  eexists _, _. unfold open_snapshot. simpl. rewrite lookup_insert_eq. split; [done|]. simpl. split; [done|].
  split; [|split].
  - split; simpl; [split; [apply vacuum_equiv|done]|]. unfold read_metadata. simpl. by rewrite (meta_round _ _ Hb).
  - split; [|done]. destruct Hi as [Hs _]. split; simpl; [done|]. rewrite Hs. constructor.
  - split; simpl; eauto.
Qed.

Lemma snapshot_apply_ok env (w w0 : Writer) path id d i :
  no_faults env -> saved (conn w0) = None -> snapshots w0 !! path = Some (SqliteFile d i) ->
  snapshot_of w id d -> saved (conn w) = None ->
  exists w1, snapshot_apply env path w0 = (Ok tt, w1) /\ agree w1 w /\ idle w1 /\ snapshots w1 = snapshots w0 /\
    (applied_state w1).1 = Ok (last_applied_log_id (sm_data w), last_membership (sm_data w)).
Proof.
  intros (_ & _ & _ & _ & Fr) Hs Hp [Hu Hm] Hw. unfold snapshot_apply, in_txn. rewrite Hs, Fr, Hp. simpl. rewrite Hm.
  eexists. split; [done|]. simpl. split; [|split; [|split; [done|]]]; cycle 2.
  { unfold applied_state, metadata_read, mbind, st_bind. simpl. destruct (last_applied_log_id (sm_data w)) eqn:El; [done|].
    unfold read_metadata in Hm. simpl in *. destruct (metadata d) as [[b|]|]; try done. by rewrite Hm. }
  - split; [|done]. split; simpl; [done|]. rewrite Hw. constructor.
  - split; [done|]. unfold read_metadata in Hm. simpl. destruct (metadata d); [eauto|done].
Qed.

Lemma install_snapshot_ok env (w w0 : Writer) meta d :
  no_faults env -> saved (conn w0) = None -> snapshots w0 !! "temp" = Some (SqliteFile d true) ->
  is_folder (snapshots w0 !! snapshot_id meta) = false ->
  snapshot_of w (snapshot_id meta) d -> saved (conn w) = None ->
  exists w1, install_snapshot env meta w0 = (Ok tt, w1) /\ agree w1 w /\ idle w1 /\
    snapshots w1 = <[snapshot_id meta := SqliteFile d true]> (delete "temp" (snapshots w0)).
Proof.
  intros Hn Hs Ht Hf Hd Hw. pose proof Hn as (_ & Fo & Fr & Fp & _). pose proof (proj2 Hd) as Hm.
  unfold install_snapshot, mbind, st_bind, validate_temp. rewrite Ht. unfold validate_db_backup_snapshot.
  unfold read_metadata in Hm. destruct (metadata d) as [[b|]|] eqn:Ed; try done. rewrite Hm.
  unfold atomic_file_switch. rewrite Ht, Fo, Fr, Hf, Fp. simpl.
  match goal with |- context [update_state_machine env _ ?x] => set (w2 := x) end.
  destruct (snapshot_apply_ok env w w2 (snapshot_id meta) (snapshot_id meta) d true) as (w1 & Hr & Ha & Hi & Hsn & _); try done.
  { subst w2. simpl. apply lookup_insert_eq. }
  exists w1. unfold update_state_machine. split; [done|]. split; [done|]. split; [done|]. by rewrite Hsn.
Qed.

(** ** The newest snapshot *)
Definition is_snapshot (files : gmap string (@File T)) (u : Z) : Prop :=
  exists name f, files !! name = Some f /\ is_folder (Some f) = false /\ uuid_parse name = Some u.

Definition best (es : list (string * @File T)) (o : option Z) : Prop :=
  match o with
  | None => forall n f u, (n, f) ∈ es -> is_folder (Some f) = false -> uuid_parse n <> Some u
  | Some m => (exists n f, (n, f) ∈ es /\ is_folder (Some f) = false /\ uuid_parse n = Some m) /\
              forall n f u, (n, f) ∈ es -> is_folder (Some f) = false -> uuid_parse n = Some u -> u <= m
  end.

Lemma newer_best es n f o : best es o -> best (es ++ [(n, f)]) (newer o (n, f)).
Proof.
  intros Hb. unfold newer. simpl.
  assert (forall n' f', (n', f') ∈ es ++ [(n, f)] -> (n', f') ∈ es \/ (n' = n /\ f' = f)) as Hin.
  { intros n' f' [Hi|Hi]%elem_of_app; [by left|]. right. apply list_elem_of_singleton in Hi. by simplify_eq. }
  destruct (uuid_parse n) as [u|] eqn:Eu; [destruct (is_folder (Some f)) eqn:Ef|].
  - destruct f; [done..|]. destruct o as [m|]; simpl in *.
    + destruct Hb as [(n0 & f0 & Hi & Hr) Hmax]. split; [exists n0, f0; split; [apply elem_of_app; by left|done]|].
      intros n' f' u' [Hi'|[-> ->]]%Hin Hf' Hu'; [by eapply Hmax|done].
    + intros n' f' u' [Hi'|[-> ->]]%Hin Hf' Hu'; [by eapply Hb|done].
  - assert (best (es ++ [(n, f)]) (match o with Some c => if c <? u then Some u else Some c | None => Some u end)) as Hgoal.
    { destruct o as [m|]; simpl in *.
      - destruct Hb as [(n0 & f0 & Hi & Hr) Hmax]. destruct (Z.ltb_spec m u); simpl.
        + split; [exists n, f; split; [apply elem_of_app; right; by apply list_elem_of_singleton|done]|].
          intros n' f' u' [Hi'|[-> ->]]%Hin Hf' Hu'; [specialize (Hmax _ _ _ Hi' Hf' Hu'); lia|simplify_eq; lia].
        + split; [exists n0, f0; split; [apply elem_of_app; by left|done]|].
          intros n' f' u' [Hi'|[-> ->]]%Hin Hf' Hu'; [by eapply Hmax|simplify_eq; lia].
      - split; [exists n, f; split; [apply elem_of_app; right; by apply list_elem_of_singleton|done]|].
        intros n' f' u' [Hi'|[-> ->]]%Hin Hf' Hu'; [by destruct (Hb _ _ u' Hi' Hf')|simplify_eq; lia]. }
    destruct f; done.
  - destruct o as [m|]; simpl in *.
    + destruct Hb as [(n0 & f0 & Hi & Hr) Hmax]. split; [exists n0, f0; split; [apply elem_of_app; by left|done]|].
      intros n' f' u' [Hi'|[-> ->]]%Hin Hf' Hu'; [by eapply Hmax|congruence].
    + intros n' f' u' [Hi'|[-> ->]]%Hin Hf' Hu'; [by eapply Hb|congruence].
Qed.

Lemma newest_best es : best es (foldl newer None es).
Proof.
  induction es as [|[n f] es IH] using rev_ind; [by intros n f u Hi%elem_of_nil|].
  rewrite foldl_app. by apply newer_best.
Qed.

Lemma newest_insert files id d i :
  0 <= id < 2 ^ 128 -> (forall u, is_snapshot files u -> u <= id) ->
  newest (<[uuid_print id := SqliteFile d i]> files) = Some id.
Proof.
  intros Hid Hmax. pose proof (newest_best (map_to_list (<[uuid_print id := SqliteFile d i]> files))) as Hb.
  unfold newest. destruct (foldl newer None _) as [m|]; simpl in Hb.
  - destruct Hb as [(n & f & Hi & Hf & Hu) Hall]. apply elem_of_map_to_list in Hi.
    assert (id <= m) as Hle.
    { apply (Hall (uuid_print id) (SqliteFile d i)); [apply elem_of_map_to_list, lookup_insert_eq|done|by apply uuid_parse_print]. }
    assert (m <= id); [|f_equal; lia]. destruct (decide (n = uuid_print id)) as [->|Hn].
    + rewrite uuid_parse_print in Hu by done. simplify_eq. lia.
    + rewrite lookup_insert_ne in Hi by done. apply Hmax. by exists n, f.
  - destruct (Hb (uuid_print id) (SqliteFile d i) id); [apply elem_of_map_to_list, lookup_insert_eq|done|by apply uuid_parse_print].
Qed.

(** ** Starting again *)
Lemma restart_from_snapshot env reset (w : Writer) k id d i :
  no_faults env -> lock_file k = true -> newest (disk_snapshots k) = Some id ->
  disk_snapshots k !! uuid_print id = Some (SqliteFile d i) -> snapshot_of w (uuid_print id) d -> saved (conn w) = None ->
  exists w1, new env true false reset k = Ok w1 /\ agree w1 w /\ idle w1 /\ snapshots w1 = disk_snapshots k /\
    (applied_state w1).1 = Ok (last_applied_log_id (sm_data w), last_membership (sm_data w)).
Proof.
  intros Hn Hl Hid Hf Hd Hw. unfold new, check_set_lock_file. rewrite Hl. simpl. unfold restore_newest, mbind, st_bind, read_current_snapshot.
  simpl. rewrite Hid, Hf. simpl. rewrite (proj2 Hd). simpl. rewrite bool_decide_eq_true_2 by done. simpl.
  match goal with |- context [update_state_machine env _ ?x] => set (w2 := x) end.
  assert (snapshots w2 = disk_snapshots k) as Hs2 by (subst w2; simpl; by apply insert_id).
  destruct (snapshot_apply_ok env w w2 (uuid_print id) (uuid_print id) d i) as (w1 & Hr & Ha & Hi & Hsn & Hst); try done.
  { by rewrite Hs2. }
  unfold update_state_machine. rewrite Hr. exists w1. split; [done|]. split; [done|]. split; [done|]. by rewrite Hsn.
Qed.

Lemma shutdown_restart env heal (w : Writer) :
  idle w -> exists k w1 w2, shutdown_sm w = Ok k /\ lock_file k = false /\ disk_snapshots k = snapshots w /\
    new env heal false false k = Ok w1 /\
    applied_state w1 = (Ok (last_applied_log_id (sm_data w), last_membership (sm_data w)), w2) /\ agree w2 w.
Proof.
  intros Hi. destruct (persist_meta_ok w Hi) as (db & b & Hp & Hb & ->).
  unfold shutdown_sm, shutdown, mbind, st_bind. rewrite Hp. simpl. eexists _, _, _. split; [done|]. split; [done|]. split; [done|].
  split; [unfold new, check_set_lock_file; simpl; done|].
  unfold applied_state, mbind, st_bind, metadata_read. simpl. rewrite (meta_round _ _ Hb). split; [done|].
  split; [|done]. destruct Hi as [Hs _]. split; simpl; [done|]. rewrite Hs. constructor.
Qed.
End SMSpec.
