(* ===== verification/SqlTxn.v ===== *)
(** Transactions of the SQLite writer against a reference: statements run in order on
    the contents, each sees the first rows of the earlier ones under the names they had
    then, and the first failure undoes everything. *)
From stdpp Require Import base gmap strings list numbers.
From Stdlib Require Import Strings.Byte.
From S2P Require Import Prelude Text WalWriter SqlRows SqlBase SqlWriter SqlAgree.
Import Rows Sql SqlWriter.

#[local] Open Scope Z_scope.

Section Txn.
Context {T : Type} `{SqlEngine T} `{!SqlEngineOk (T := T)} `{RowLib}.

(** ** The reference *)

(** What a statement of the transaction left for later ones: the names of its columns
    and its first row. *)
Abbreviation Output := (option (list string * list Value)).

Definition spec_param (outs : list Output) (p : Param) : option Value :=
  match p with
  | PStmtOutputIndexed i j => o ← outs !! i; r ← o; r.2 !! j
  | PStmtOutputNamed i n => o ← outs !! i; r ← o; j ← column_index r.1 n; r.2 !! j
  | PNull => Some VNull
  | PInteger i => Some (VInteger i)
  | PReal r => Some (VReal r)
  | PText t => Some (VText t)
  | PBlob b => Some (VBlob b)
  end.

Fixpoint spec_bind (outs : list Output) (p : Prepared) (idx : nat) (ps : list Param) : Res SqlError (list Value) :=
  match ps with
  | [] => Ok []
  | param :: ps =>
      match spec_param outs param with
      | Some v => if bind_ok p idx v then vs ← spec_bind outs p (S idx) ps; mret (v :: vs) else Err EQueryParams
      | None => Err EQueryParams
      end
  end.

Definition spec_statement (outs : list Output) (q : Query) (u : UserDb T) : Res SqlError (option Z * Output * UserDb T) :=
  match prepare (sql q) u with
  | None => Err EPrepareStatement
  | Some p =>
      vs ← spec_bind outs p 1 (params q);
      if Nat.ltb 0 (length (stmt_columns p)) then
        let o := stmt_query (sql q) vs u in
        nf ← observe (T := T) (result o).1 (result o).2;
        Ok (Some nf.1, option_map (pair (stmt_columns p).*1) nf.2, after o)
      else
        let o := stmt_execute (sql q) vs u in
        match result o with inr n => Ok (n, None, after o) | inl _ => Err ETransaction end
  end.

Fixpoint spec_txn (outs : list Output) (qs : list Query) (u : UserDb T) : Res SqlError (list (option Z) * UserDb T) :=
  match qs with
  | [] => Ok ([], u)
  | q :: qs =>
      nou ← spec_statement outs q u;
      rsu ← spec_txn (outs ++ [nou.1.2]) qs nou.2;
      Ok (nou.1.1 :: rsu.1, rsu.2)
  end.

Definition spec_transaction (qs : list Query) (u : UserDb T) : Res SqlError (list (option Z) * UserDb T) :=
  rsu ← spec_txn [] qs u;
  if commit_ok u rsu.2 then Ok rsu else Err ETransaction.

(** The statements are plain ones, and on the states they lead to they keep the columns
    of each other. *)
Record steady (P : UserDb T -> Prop) (qs : list Query) : Prop := mkSteady {
  steady_prepare : forall q u u', q ∈ qs -> P u -> P u' -> prepare (sql q) u = prepare (sql q) u';
  steady_plain : forall q u p, q ∈ qs -> P u -> prepare (sql q) u = Some p -> control p = None;
  steady_execute : forall q vs u, q ∈ qs -> P u -> P (after (stmt_execute (sql q) vs u));
  steady_query : forall q vs u, q ∈ qs -> P u -> P (after (stmt_query (sql q) vs u));
}.

(** ** The environment of the transaction *)
Section Loop.
Context (P : UserDb T -> Prop) (all : list Query) (Hall : steady P all).

Definition env_at (e : TransactionEnv) (k : nat) (o : Output) : Prop :=
  match o with
  | Some (names, row) =>
      exists s, by_index (observable_stmts e) k = Ok s /\ first_row s = row /\
        (forall u, P u -> exists p, prepare (obs_sql s) u = Some p /\ (stmt_columns p).*1 = names) /\
        (forall m n j, column_index_cache e !! k = Some m -> m !! n = Some j -> column_index names n = Some j)
  | None =>
      by_index (observable_stmts e) k = Err EQueryParams /\
      (forall m n, column_index_cache e !! k = Some m -> m !! n = None)
  end.
Definition env_ok (e : TransactionEnv) (outs : list Output) : Prop := forall k, env_at e k (mjoin (outs !! k)).

Lemma env_ok_cache e outs c :
  (forall k o, mjoin (outs !! k) = o ->
     forall m n j, c !! k = Some m -> m !! n = Some j -> match o with Some (names, _) => column_index names n = Some j | None => False end) ->
  env_ok e outs -> env_ok (mkTxnEnv (observable_stmts e) c) outs.
Proof.
  intros Hc He k. specialize (He k). specialize (Hc k _ eq_refl). unfold env_at in *. simpl.
  destruct (mjoin (outs !! k)) as [[names row]|].
  - destruct He as (s & Hs & Hr & Hp & _). exists s. split; [done|]. split; [done|]. by split.
  - destruct He as [Hs _]. split; [done|]. intros m n Hm. destruct (m !! n) eqn:E; [|done]. by destruct (Hc m n n0 Hm E).
Qed.

Lemma lookup_named_ok u e outs i n :
  P u -> env_ok e outs ->
  exists e', lookup_named u i n e = (match spec_param outs (PStmtOutputNamed i n) with Some v => Ok v | None => Err EQueryParams end, e') /\
    env_ok e' outs.
Proof.
  intros Hu He. pose proof (He i) as Hi. unfold lookup_named, spec_param. unfold env_at in Hi.
  destruct (outs !! i) as [[[names row]|]|] eqn:Eo; cbn [mjoin option_join] in Hi.
  2,3: destruct Hi as [-> _]; simpl; by eexists.
  destruct Hi as (s & -> & Hr & Hp & Hc). cbn [mbind option_bind fst snd].
  set (cache := default ∅ (column_index_cache e !! i)).
  assert (forall m x j, cache !! x = Some j -> m = cache -> column_index names x = Some j) as Hcache.
  { intros m x j Hx _. unfold cache in Hx. destruct (column_index_cache e !! i) as [m'|] eqn:Em; simpl in Hx; [by eapply Hc|done]. }
  assert (forall c', (forall x j, c' !! x = Some j -> column_index names x = Some j) ->
    env_ok (mkTxnEnv (observable_stmts e) (<[i := c']> (column_index_cache e))) outs) as Hins.
  { intros c' Hc'. apply env_ok_cache; [|done]. intros k o Ho m x j Hm Hx. destruct (decide (k = i)) as [->|Hk].
    - rewrite lookup_insert_eq in Hm. simplify_eq. rewrite Eo. simpl. by apply Hc'.
    - rewrite lookup_insert_ne in Hm by done. specialize (He k). unfold env_at in He. subst o.
      destruct (mjoin (outs !! k)) as [[names' row']|].
      + destruct He as (_ & _ & _ & _ & Hck). by eapply Hck.
      + destruct He as [_ Hck]. specialize (Hck m x Hm). congruence. }
  destruct (cache !! n) as [j|] eqn:En.
  - rewrite (Hcache cache n j En eq_refl). simpl. unfold get_first_row_value. rewrite Hr. eexists. split; [done|].
    apply Hins. intros x j' Hx. by eapply Hcache.
  - destruct (Hp u Hu) as (p & -> & Hn). rewrite Hn. simpl. destruct (column_index names n) as [j|] eqn:Ej; simpl.
    + unfold get_first_row_value. rewrite Hr. eexists. split; [done|]. apply Hins.
      intros x j' Hx. destruct (decide (x = n)) as [->|Hne]; [rewrite lookup_insert_eq in Hx; congruence|].
      rewrite lookup_insert_ne in Hx by done. by eapply Hcache.
    + eexists. split; [done|]. apply Hins. intros x j' Hx. by eapply Hcache.
Qed.

Lemma into_sql_txn_ok u e outs p :
  P u -> env_ok e outs ->
  exists e', into_sql_txn_ctx u p e = (match spec_param outs p with Some v => Ok v | None => Err EQueryParams end, e') /\ env_ok e' outs.
Proof.
  intros Hu He. destruct p as [| | | | |i j|i n]; try by eexists.
  - exists e. split; [|done]. simpl. unfold lookup_indexed. specialize (He i). unfold env_at in He.
    destruct (outs !! i) as [[[names row]|]|]; cbn [mjoin option_join] in He.
    + destruct He as (s & -> & Hr & _). simpl. unfold get_first_row_value. by rewrite Hr.
    + by destruct He as [-> _].
    + by destruct He as [-> _].
  - by apply lookup_named_ok.
Qed.

Lemma bind_params_txn_ok u p outs ps : P u -> forall idx e, env_ok e outs ->
  exists e', bind_params_txn u p idx ps e = (spec_bind outs p idx ps, e') /\ env_ok e' outs.
Proof.
  intros Hu. induction ps as [|param ps IH]; intros idx e He; simpl; [by exists e|].
  unfold mbind, st_bind. destruct (into_sql_txn_ok u e outs param Hu He) as (e1 & -> & He1).
  destruct (spec_param outs param) as [v|]; [|by exists e1].
  destruct (bind_ok p idx v); [|by exists e1].
  destruct (IH (S idx) e1 He1) as (e2 & -> & He2).
  exists e2. split; [|done]. by destruct (spec_bind outs p (S idx) ps).
Qed.

Lemma by_index_app l i s k :
  by_index (l ++ [(i, s)]) k = match by_index l k with Ok s' => Ok s' | _ => if decide (i = k) then Ok s else Err EQueryParams end.
Proof.
  unfold by_index. destruct (list_find (fun s => s.1 = k) l) as [[x [y z]]|] eqn:E.
  - by rewrite (list_find_app_l _ _ _ _ _ E).
  - rewrite list_find_app_r by done. simpl. case_decide; done.
Qed.

Lemma env_ok_none e outs : env_ok e outs -> env_ok e (outs ++ [None]).
Proof.
  intros He k. specialize (He k). destruct (decide (k < length outs)%nat).
  - by rewrite lookup_app_l.
  - rewrite lookup_app_r by lia. rewrite lookup_ge_None_2 in He by lia. simpl in He.
    destruct (k - length outs)%nat; done.
Qed.

Lemma env_ok_push e outs s names row :
  env_ok e outs -> (forall u, P u -> exists p, prepare s u = Some p /\ (stmt_columns p).*1 = names) ->
  env_ok (push_observable_stmt (length outs) s row e) (outs ++ [Some (names, row)]).
Proof.
  intros He Hs k. pose proof (He k) as Hk. unfold push_observable_stmt, env_at. simpl. rewrite by_index_app.
  destruct (decide (k = length outs)) as [->|Hne].
  - rewrite lookup_app_r, Nat.sub_diag by lia. simpl. rewrite lookup_ge_None_2 in Hk by lia. destruct Hk as [-> Hc].
    rewrite decide_True by done. exists (mkObservable s row). split; [done|]. split; [done|]. split; [done|].
    intros m n j Hm Hj. by rewrite (Hc m n Hm) in Hj.
  - assert (mjoin ((outs ++ [Some (names, row)]) !! k) = mjoin (outs !! k)) as ->.
    { destruct (decide (k < length outs)%nat); [by rewrite lookup_app_l|].
      rewrite (lookup_ge_None_2 outs), lookup_ge_None_2; [done| |lia]. rewrite length_app. simpl. lia. }
    unfold env_at in Hk. destruct (mjoin (outs !! k)) as [[names' row']|].
    + destruct Hk as (s' & -> & Hr). by exists s'.
    + destruct Hk as [-> Hc]. by rewrite decide_False.
Qed.

(** ** One statement *)
Lemma txn_statement_ok e outs q c s :
  q ∈ all -> P (user (cur c)) -> env_ok e outs -> saved c = Some s ->
  match spec_statement outs q (user (cur c)) with
  | Ok (n, o, u') => exists e', txn_statement (length outs) q (e, c) = (Ok n, (e', mkConn (set_user u' (cur c)) (Some s))) /\
                      env_ok e' (outs ++ [o]) /\ P u'
  | Err x => exists e' c', txn_statement (length outs) q (e, c) = (Err x, (e', c')) /\ drop_txn c' = mkConn s None
  | _ => False
  end.
Proof.
  intros Hq Hu He Hs. unfold spec_statement, txn_statement.
  assert (drop_txn c = mkConn s None) as Hd by (unfold drop_txn, rollback_txn; by rewrite Hs).
  destruct (prepare (sql q) (user (cur c))) as [p|] eqn:Ep; [|by exists e, c].
  pose proof (steady_plain _ _ Hall q _ p Hq Hu Ep) as Hctl.
  destruct (bind_params_txn_ok (user (cur c)) p outs (params q) Hu 1 e He) as (e1 & Hb & He1).
  pose proof (bind_params_txn_settled (user (cur c)) p (params q) 1 e) as Hset. rewrite Hb in Hset |- *.
  destruct (spec_bind outs p 1 (params q)) as [vs|x| |]; try done; simpl; [|by exists e1, c].
  destruct (Nat.ltb 0 (length (stmt_columns p))).
  - unfold run_query. rewrite Hctl. set (o := stmt_query (sql q) vs (user (cur c))).
    destruct (result o) as [rows err] eqn:Er. pose proof (observe_settled (T := T) rows err) as Hos. simpl.
    destruct (observe rows err) as [[n first]|x| |] eqn:Eo; try done; simpl.
    + assert (settle o c = mkConn (set_user (after o) (cur c)) (Some s)) as ->.
      { unfold settle. destruct (rolled_back o) eqn:Erb; [|by rewrite Hs].
        destruct (rollback_query (sql q) vs (user (cur c)) Erb) as [f Hf]. fold o in Hf. rewrite Er in Hf. simpl in Hf. subst err.
        destruct rows; simpl in Eo; [done|]. by destruct (read_first_row l). }
      assert (P (after o)) as Hp by (by apply (steady_query _ _ Hall)).
      destruct first as [first|]; simpl; eexists; (split; [done|]); (split; [|done]).
      * apply env_ok_push; [done|]. intros u Hu'. exists p. split; [|done]. by rewrite (steady_prepare _ _ Hall q u (user (cur c)) Hq Hu' Hu).
      * by apply env_ok_none.
    + eexists _, _. split; [done|]. unfold settle. destruct (rolled_back o); rewrite Hs; done.
  - unfold run_execute. rewrite Hctl. set (o := stmt_execute (sql q) vs (user (cur c))).
    destruct (result o) as [f|n] eqn:Er; simpl.
    + eexists _, _. split; [done|]. unfold settle. destruct (rolled_back o); rewrite Hs; done.
    + assert (settle o c = mkConn (set_user (after o) (cur c)) (Some s)) as ->.
      { unfold settle. destruct (rolled_back o) eqn:Erb; [|by rewrite Hs].
        destruct (rollback_execute (sql q) vs (user (cur c)) Erb) as [f Hf]. fold o in Hf. congruence. }
      eexists. split; [done|]. split; [by apply env_ok_none|]. by apply (steady_execute _ _ Hall).
Qed.

(** ** The loop *)
Lemma txn_loop_ok qs : forall e outs c s,
  qs ⊆ all -> P (user (cur c)) -> env_ok e outs -> saved c = Some s ->
  match spec_txn outs qs (user (cur c)) with
  | Ok (rs, u') => exists e', txn_loop (length outs) qs (e, c) = (Ok rs, (e', mkConn (set_user u' (cur c)) (Some s)))
  | Err x => exists e' c', txn_loop (length outs) qs (e, c) = (Err x, (e', c')) /\ drop_txn c' = mkConn s None
  | _ => False
  end.
Proof.
  induction qs as [|q qs IH]; intros e outs c s Hin Hu He Hs; simpl.
  { exists e. destruct c as [[u m] sv]. simpl in *. by subst sv. }
  pose proof (txn_statement_ok e outs q c s ltac:(apply Hin; left) Hu He Hs) as Hq. unfold mbind, st_bind, res_bind.
  destruct (spec_statement outs q (user (cur c))) as [[[n o] u1]|x| |]; try done.
  - destruct Hq as (e1 & -> & He1 & Hu1).
    set (c1 := mkConn (set_user u1 (cur c)) (Some s)).
    specialize (IH e1 (outs ++ [o]) c1 s ltac:(intros y Hy; apply Hin; by right) Hu1 He1 eq_refl).
    rewrite length_app, Nat.add_comm in IH. simpl in IH. simpl.
    destruct (spec_txn (outs ++ [o]) qs u1) as [[rs u2]|x| |]; try done.
    + destruct IH as (e2 & ->). simpl. by exists e2.
    + destruct IH as (e2 & c2 & -> & Hd). by exists e2, c2.
  - destruct Hq as (e1 & c1 & -> & Hd). by exists e1, c1.
Qed.
End Loop.

(** ** The transaction *)
Lemma transaction_ok P qs c :
  steady P qs -> P (user (cur c)) -> saved c = None ->
  transaction qs c =
    match spec_transaction qs (user (cur c)) with
    | Ok (rs, u') => (Ok rs, mkConn (set_user u' (cur c)) None)
    | Err x => (Err x, c)
    | Panic => (Panic, c)
    | OutOfFuel => (OutOfFuel, c)
    end.
Proof.
  intros Hst Hu Hs. unfold transaction, begin_txn. rewrite Hs. unfold spec_transaction.
  assert (env_ok P empty_env []) as He by (intros k; rewrite lookup_nil; split; [done|]; intros m n Hm; cbn in Hm; by apply lookup_empty_Some in Hm).
  pose proof (txn_loop_ok P qs Hst qs empty_env [] (mkConn (cur c) (Some (cur c))) (cur c) ltac:(done) Hu He eq_refl) as Hl.
  simpl in Hl. assert (c = mkConn (cur c) None) as Hc by (destruct c; simpl in *; by subst).
  destruct (spec_txn [] qs (user (cur c))) as [[rs u']|x| |]; try done; simpl.
  - destruct Hl as (e' & ->). unfold commit_or_drop, commit_txn. simpl.
    destruct (commit_ok (user (cur c)) u'); [done|]. unfold drop_txn, rollback_txn. simpl. by rewrite <- Hc.
  - destruct Hl as (e' & c' & -> & Hd). by rewrite Hd, <- Hc.
Qed.
End Txn.
