(* ===== verification/SqlMigrate.v ===== *)
(** Migrations from the embedded files to the rows of [_migrations]:
    [hiqlite/src/migration.rs], the client side of [hiqlite/src/client/migrate.rs] and
    [migrate] of the writer.

    A database carries a prefix of the embedded migrations.  Whatever prefix a client
    has read, the writer runs exactly the scripts that are missing, in order, each in a
    transaction of its own, and stops at the first that fails. *)
From stdpp Require Import base gmap strings list numbers sorting.
From Stdlib Require Import Ascii Strings.Byte.
From S2P Require Import Prelude Text WalWriter SqlRows SqlBase SqlWriter SqlAgree.
Import Rows Sql SqlWriter.

#[local] Open Scope Z_scope.

Module Migrations.

(** ** [Migrations::try_build] *)

(** A file of the embedded folder; its hash is the hexadecimal SHA-256 of its data. *)
Record EmbeddedFile : Type := mkEmbedded { file_name : string; file_hash : string; file_data : string }.

(** [s.parse::<u32>()] *)
Definition parse_u32 (s : string) : option Z :=
  match s with
  | EmptyString => None
  | String a s' =>
      if Ascii.eqb a "+"%char
      then match s' with EmptyString => None | _ => parse_digits u32_max 0 s' end
      else parse_digits u32_max 0 s
  end.

(** [s.strip_suffix(suffix)] *)
Fixpoint strip_suffix (suffix s : string) : option string :=
  if String.eqb s suffix then Some "" else
  match s with EmptyString => None | String a s => String a <$> strip_suffix suffix s end.

(** The ids of the files *)
Fixpoint with_ids (files : list EmbeddedFile) : Res unit (list (Z * EmbeddedFile)) :=
  match files with
  | [] => Ok []
  | f :: files =>
      match split_once "_"%char (file_name f) with
      | None => Err tt
      | Some (id, _) =>
          match parse_u32 id with
          | None => Err tt
          | Some id => rest ← with_ids files; mret ((id, f) :: rest)
          end
      end
  end.

(** The loop that builds the result; [last] is the last id of [res]. *)
Fixpoint build_loop (last : option Z) (files : list (Z * EmbeddedFile)) : Res unit (list Migration) :=
  match files with
  | [] => Ok []
  | (id, f) :: files =>
      match strip_suffix ".sql" (file_name f) with
      | None => Err tt
      | Some stripped =>
          match split_once "_"%char stripped with
          | None => Panic
          | Some (_, name) =>
              if match last with Some l => negb (id =? wrap32 (l + 1)) | None => false end then Err tt
              else
                rest ← build_loop (Some id) files;
                mret (mkMigration id name (file_hash f) (file_data f) :: rest)
          end
      end
  end.

Definition id_le (a b : Z * EmbeddedFile) : Prop := a.1 <= b.1.
#[export] Instance id_le_dec : RelDecision id_le.
Proof. intros a b. unfold id_le. apply _. Defined.

Definition try_build (files : list EmbeddedFile) : Res unit (list Migration) :=
  files ← with_ids files;
  match merge_sort id_le files with
  | [] => Ok []
  | (first_id, f) :: files => if first_id =? 1 then build_loop None ((first_id, f) :: files) else Err tt
  end.

(** ** [Client::migrate_execute_dedup] *)

(** The loop over the rows the client has read; [None]: there are more rows than
    migrations, and nothing is sent. *)
Fixpoint dedup_check (rows : list AppliedMigration) (migs : list Migration) : Res SqlError (option unit) :=
  match rows with
  | [] => Ok (Some tt)
  | a :: rows =>
      match migs with
      | [] => Ok None
      | m :: migs =>
          if negb (mig_id m =? am_id a) then Panic
          else if negb (String.eqb (mig_hash m) (am_hash a)) then Panic
          else dedup_check rows migs
      end
  end.

(** The migrations that are sent, if any *)
Definition migrate_execute_dedup (rows : list AppliedMigration) (migs : list Migration) : Res SqlError (option (list Migration)) :=
  c ← (dedup_check rows migs : Res SqlError (option unit));
  match c with
  | None => Ok None
  | Some _ =>
      let migs := match last rows with Some a => filter (fun m => am_id a < mig_id m) migs | None => migs end in
      match migs with [] => Ok None | _ => Ok (Some migs) end
  end.

(** ** Numbered migrations *)
Definition numbered (first : Z) (migs : list Migration) : Prop :=
  forall i m, migs !! i = Some m -> mig_id m = first + Z.of_nat i.

Definition row_of (a : AppliedMigration) (m : Migration) : Prop :=
  am_id a = mig_id m /\ am_name a = mig_name m /\ am_hash a = mig_hash m.
(** The rows are those of the first migrations of the list. *)
Definition applied_prefix (rows : list AppliedMigration) (migs : list Migration) : Prop :=
  Forall2 row_of rows (take (length rows) migs).

Lemma numbered_cons first m migs : numbered first (m :: migs) -> mig_id m = first /\ numbered (first + 1) migs.
Proof.
  intros Hn. split; [rewrite (Hn 0%nat m eq_refl); lia|]. intros i m' Hi. rewrite (Hn (S i) m' Hi). lia.
Qed.
Lemma numbered_drop first migs k : numbered first migs -> numbered (first + Z.of_nat k) (drop k migs).
Proof. intros Hn i m Hi. rewrite lookup_drop in Hi. rewrite (Hn _ _ Hi). lia. Qed.


(** ** What [try_build] accepts *)
Lemma parse_u32_range s z : parse_u32 s = Some z -> 0 <= z <= u32_max.
Proof.
  assert (0 <= u32_max) by (vm_compute; done).
  unfold parse_u32. destruct s as [|a s]; [done|]. destruct (Ascii.eqb a "+").
  - destruct s; [done|]. intros Hp. by eapply (parse_digits_range u32_max _ 0).
  - intros Hp. by eapply (parse_digits_range u32_max _ 0).
Qed.

Lemma split_once_has c s : has_char c s = true <-> is_Some (split_once c s).
Proof.
  induction s as [|a s IH]; simpl; [split; [done|by intros [??]]|].
  destruct (Ascii.eqb a c); simpl; [split; eauto|]. rewrite IH.
  destruct (split_once c s) as [[l r]|]; split; eauto; by intros [??].
Qed.
Lemma strip_suffix_Some suffix s t : strip_suffix suffix s = Some t -> s = t +:+ suffix.
Proof.
  revert t. induction s as [|a s IH]; intros t; cbn [strip_suffix].
  { by destruct (String.eqb_spec "" suffix) as [<-|]; [intros [= <-]|]. }
  destruct (String.eqb_spec (String a s) suffix) as [<-|]; [by intros [= <-]|].
  destruct (strip_suffix suffix s) as [t'|]; [|done]. intros [= <-]. change (String a s = String a (t' +:+ suffix)). by rewrite <- IH.
Qed.

Definition file_ok (f : Z * EmbeddedFile) : Prop :=
  0 <= f.1 <= u32_max /\ has_char "_"%char (file_name f.2) = true.

Lemma with_ids_ok files fs : with_ids files = Ok fs -> Forall file_ok fs /\ fs.*2 = files.
Proof.
  revert fs. induction files as [|f files IH]; intros fs; simpl; [by intros [= <-]|].
  destruct (split_once "_"%char (file_name f)) as [[id r]|] eqn:E; [|done].
  destruct (parse_u32 id) as [z|] eqn:Ez; [|done]. destruct (with_ids files) as [rest| | |]; try done.
  simpl. intros [= <-]. destruct (IH rest eq_refl) as [Hf <-]. split; [|done]. constructor; [|done].
  split; simpl; [by eapply parse_u32_range|]. apply split_once_has. by rewrite E.
Qed.
Lemma with_ids_settled files : settled (with_ids files).
Proof.
  induction files as [|f files IH]; simpl; [done|]. destruct (split_once _ _) as [[id r]|]; [|done].
  destruct (parse_u32 id); [|done]. by destruct (with_ids files).
Qed.

Lemma build_loop_ok files : forall last migs,
  Forall file_ok files -> StronglySorted id_le files ->
  (forall l, last = Some l -> 0 <= l <= u32_max /\ Forall (fun f => l <= f.1) files) ->
  build_loop last files = Ok migs ->
  mig_id <$> migs = files.*1 /\ forall l, last = Some l -> numbered (l + 1) migs.
Proof.
  induction files as [|[id f] files IH]; intros last migs Hf Hs Hl; simpl; [by intros [= <-]|].
  inversion Hf as [|?? [Hid Hc] Hf']; subst. inversion Hs as [|?? Hs' Hle]; subst. simpl in Hid, Hc.
  destruct (strip_suffix ".sql" (file_name f)) as [stripped|]; [|done].
  destruct (split_once "_"%char stripped) as [[pre name]|]; [|done].
  destruct (match last with Some l => _ | None => _ end) eqn:Eg; [done|].
  destruct (build_loop (Some id) files) as [rest| | |] eqn:Eb; try done. simpl. intros [= <-].
  destruct (IH (Some id) rest Hf' Hs' ltac:(intros l [= <-]; split; [done|exact Hle]) Eb) as [Hids Hnum].
  split; [by rewrite fmap_cons; simpl; f_equal|]. intros l ->. destruct (Hl l eq_refl) as [Hlr Hall].
  inversion Hall as [|?? Hli _]; subst. simpl in Hli.
  apply negb_false_iff, Z.eqb_eq in Eg.
  assert (id = l + 1) as ->.
  { unfold wrap32, u32_max in *. destruct (decide (l + 1 < 2 ^ 32)); [rewrite Z.mod_small in Eg by lia; lia|].
    assert (l + 1 = 2 ^ 32) as E by lia. rewrite E, Z.mod_same in Eg by lia. lia. }
  intros [|i] m; simpl; [intros [= <-]; simpl; lia|]. intros Hi. rewrite (Hnum (l + 1) eq_refl i m Hi). lia.
Qed.

Lemma build_loop_settled files : forall last, Forall file_ok files -> settled (build_loop last files).
Proof.
  induction files as [|[id f] files IH]; intros last Hf; simpl; [done|].
  inversion Hf as [|?? [_ Hc] Hf']; subst. simpl in Hc.
  destruct (strip_suffix ".sql" (file_name f)) as [stripped|] eqn:Es; [|done].
  apply strip_suffix_Some in Es. rewrite Es, has_char_app in Hc.
  assert (is_Some (split_once "_"%char stripped)) as [[pre name] ->].
  { apply split_once_has. destruct (has_char "_" stripped); [done|]. by vm_compute in Hc. }
  destruct (match last with Some l => _ | None => _ end); [done|].
  specialize (IH (Some id) Hf'). by destruct (build_loop (Some id) files).
Qed.

#[local] Instance id_le_trans : Transitive id_le.
Proof. intros a b c. unfold id_le. lia. Qed.
#[local] Instance id_le_total : Total id_le.
Proof. intros a b. unfold id_le. lia. Qed.

(** An accepted folder gives one migration per file, numbered from one. *)
Lemma try_build_ok files migs : try_build files = Ok migs ->
  numbered 1 migs /\ length migs = length files /\ Z.of_nat (length migs) <= u32_max.
Proof.
  unfold try_build. destruct (with_ids files) as [fs| | |] eqn:Ew; try done. simpl.
  destruct (with_ids_ok files fs Ew) as [Hf Hfs].
  pose proof (merge_sort_Permutation id_le fs) as Hp. pose proof (StronglySorted_merge_sort id_le fs) as Hs.
  assert (length (merge_sort id_le fs) = length files) as Hlen by (rewrite Hp, <- Hfs; by rewrite length_fmap).
  rewrite <- Hp in Hf. destruct (merge_sort id_le fs) as [|[id f] fs'].
  { intros [= <-]. split; [done|]. split; [done|]. by vm_compute. }
  destruct (Z.eqb_spec id 1) as [->|]; [|done]. intros Hb. inversion Hs as [|?? Hs' Hle]; subst.
  inversion Hf as [|?? _ Hf']; subst.
  destruct (build_loop_ok ((1, f) :: fs') None migs Hf Hs ltac:(done) Hb) as [Hids _].
  assert (length migs = length ((1, f) :: fs')) as Hl by (rewrite <- (length_fmap mig_id migs), Hids; by rewrite length_fmap).
  assert (numbered 1 migs) as Hnum.
  { simpl in Hb. destruct (strip_suffix _ _); [|done]. destruct (split_once _ _) as [[??]|]; [|done].
    destruct (build_loop (Some 1) fs') as [rest| | |] eqn:Eb; try done. simpl in Hb. injection Hb as <-.
    destruct (build_loop_ok fs' (Some 1) rest Hf' Hs') as [_ Hn]; [|done|].
    { intros l [= <-]. split; [by vm_compute|done]. }
    intros [|i] m; simpl; [by intros [= <-]|]. intros Hi. rewrite (Hn 1 eq_refl i m Hi). lia. }
  split; [done|]. split; [congruence|].
  destruct (last migs) as [m|] eqn:El.
  - rewrite last_lookup in El. pose proof (Hnum _ _ El) as Hm.
    assert (mig_id m ∈ mig_id <$> migs) as Hin by (apply list_elem_of_fmap; exists m; split; [done|by eapply list_elem_of_lookup_2]).
    rewrite Hids in Hin. apply list_elem_of_fmap in Hin as ([z g] & Hz & Hin).
    rewrite Forall_forall in Hf. destruct (Hf _ Hin) as [Hr _]. simpl in *. subst z.
    assert (0 < length migs)%nat by (rewrite Hl; simpl; lia). lia.
  - apply last_None in El as ->. by vm_compute.
Qed.

Lemma try_build_settled files : settled (try_build files).
Proof.
  unfold try_build. pose proof (with_ids_settled files) as Hw. destruct (with_ids files) as [fs| | |] eqn:E; try done. simpl.
  destruct (with_ids_ok files fs E) as [Hf _]. rewrite <- (merge_sort_Permutation id_le fs) in Hf.
  destruct (merge_sort id_le fs) as [|[id f] fs']; [done|]. destruct (id =? 1); [|done]. by apply (build_loop_settled ((id, f) :: fs') None).
Qed.

(** ** The client *)
Lemma applied_prefix_length rows migs : applied_prefix rows migs -> (length rows <= length migs)%nat.
Proof. intros Hp. apply Forall2_length in Hp. rewrite length_take in Hp. lia. Qed.
Lemma applied_prefix_lookup rows migs i a :
  applied_prefix rows migs -> rows !! i = Some a -> exists m, migs !! i = Some m /\ row_of a m.
Proof.
  intros Hp Hi. destruct (Forall2_lookup_l _ _ _ _ _ Hp Hi) as (m & Hm & Hr).
  apply lookup_take_Some in Hm as [Hm _]. eauto.
Qed.

Lemma dedup_check_ok rows : forall migs, applied_prefix rows migs -> dedup_check rows migs = Ok (Some tt).
Proof.
  unfold applied_prefix. induction rows as [|a rows IH]; intros migs Hp; [done|].
  destruct migs as [|m migs]; simpl in Hp; [by inversion Hp|].
  inversion Hp as [|?? ?? (Hid & _ & Hh) Hp']; subst. simpl. rewrite Hid, Hh, Z.eqb_refl, String.eqb_refl. simpl. by apply IH.
Qed.

(** The ids above [k] are those after the first [k] migrations. *)
Lemma filter_numbered first migs k : numbered first migs -> 0 <= k ->
  filter (fun m => first - 1 + k < mig_id m) migs = drop (Z.to_nat k) migs.
Proof.
  revert first k. induction migs as [|m migs IH]; intros first k Hn Hk; [by destruct (Z.to_nat k)|].
  apply numbered_cons in Hn as [Hm Hn]. rewrite filter_cons. destruct (decide (k = 0)) as [->|Hk0].
  - rewrite decide_True by lia. change (drop (Z.to_nat 0) (m :: migs)) with (m :: drop (Z.to_nat 0) migs). f_equal.
    rewrite <- (IH (first + 1) 0 Hn) by lia. apply filter_ext_in. intros m' [i Hi]%list_elem_of_lookup. rewrite (Hn i m' Hi). lia.
  - rewrite decide_False by lia. replace (Z.to_nat k) with (S (Z.to_nat (k - 1))) by lia. simpl.
    rewrite <- (IH (first + 1) (k - 1) Hn) by lia. apply list_filter_iff. intros m'. split; lia.
Qed.

Lemma dedup_ok rows migs :
  numbered 1 migs -> applied_prefix rows migs ->
  migrate_execute_dedup rows migs =
    Ok (match drop (length rows) migs with [] => None | todo => Some todo end).
Proof.
  intros Hn Hp. unfold migrate_execute_dedup. rewrite (dedup_check_ok rows migs Hp). simpl.
  assert (match last rows with Some a => filter (fun m => am_id a < mig_id m) migs | None => migs end = drop (length rows) migs) as ->.
  { destruct (last rows) as [a|] eqn:El; [|apply last_None in El as ->; done].
    rewrite last_lookup in El. destruct (applied_prefix_lookup _ _ _ _ Hp El) as (m & Hm & Hid & _).
    assert (am_id a = 1 - 1 + Z.of_nat (length rows)) as ->.
    { rewrite Hid, (Hn _ _ Hm). assert (length rows <> 0)%nat by (by destruct rows). lia. }
    rewrite filter_numbered by (done || lia). by rewrite Nat2Z.id. }
  by destruct (drop (length rows) migs).
Qed.

(** ** The rows the writer finds *)
Section Rows.
Context (migs : list Migration) (rows : list AppliedMigration).
Hypotheses (Hnum : numbered 1 migs) (Hmax : Z.of_nat (length migs) <= u32_max) (Hrows : applied_prefix rows migs).

Lemma row_id i a : rows !! i = Some a -> am_id a = 1 + Z.of_nat i.
Proof. intros Hi. destruct (applied_prefix_lookup _ _ _ _ Hrows Hi) as (m & Hm & Hid & _). by rewrite Hid, (Hnum _ _ Hm). Qed.

Lemma filter_rows_below j : (j <= length rows)%nat -> filter (fun a => am_id a < 1 + Z.of_nat j) rows = take j rows.
Proof.
  intros Hj. rewrite <- (take_drop j rows) at 1. rewrite filter_app, filter_all, filter_none, app_nil_r; [done| |].
  - intros a [i Hi]%list_elem_of_lookup. rewrite lookup_drop in Hi. rewrite (row_id _ _ Hi). lia.
  - intros a [i [Hi Hlt]%lookup_take_Some]%list_elem_of_lookup. rewrite (row_id _ _ Hi). lia.
Qed.
Lemma filter_rows_from j : (j <= length rows)%nat -> filter (fun a => 1 + Z.of_nat j <= am_id a) rows = drop j rows.
Proof.
  intros Hj. rewrite <- (take_drop j rows) at 1. rewrite filter_app, filter_none, filter_all; [done| |].
  - intros a [i Hi]%list_elem_of_lookup. rewrite lookup_drop in Hi. rewrite (row_id _ _ Hi). lia.
  - intros a [i [Hi Hlt]%lookup_take_Some]%list_elem_of_lookup. rewrite (row_id _ _ Hi). lia.
Qed.

Lemma check_applied_ok j : forall n i, (j <= i)%nat -> (i + n = length rows)%nat ->
  check_applied (drop j migs) (Z.of_nat j) (Z.of_nat i) (drop i rows) = Ok (Z.of_nat (length rows)).
Proof.
  pose proof (applied_prefix_length _ _ Hrows) as Hlen. unfold u32_max in Hmax.
  induction n as [|n IH]; intros i Hji Hin.
  { rewrite (drop_ge rows) by lia. simpl. by replace i with (length rows) by lia. }
  destruct (lookup_lt_is_Some_2 rows i) as [a Ha]; [lia|]. rewrite (drop_S _ _ _ Ha). simpl.
  pose proof (row_id _ _ Ha) as Hid. destruct (applied_prefix_lookup _ _ _ _ Hrows Ha) as (m & Hm & Hmid & Hname & Hhash).
  unfold wrap32. rewrite Z.mod_small by lia. replace (Z.of_nat i + 1 =? am_id a) with true by lia.
  unfold wrap64. rewrite Z.mod_small by lia. rewrite lookup_drop.
  replace (j + Z.to_nat (am_id a - 1 - Z.of_nat j))%nat with i by lia. rewrite Hm, Hmid, Hname, Hhash, Z.eqb_refl, !String.eqb_refl. simpl.
  rewrite <- Hmid, Hid. replace (1 + Z.of_nat i) with (Z.of_nat (S i)) by lia. apply IH; lia.
Qed.

(** A row without a migration: the check panics. *)
Lemma check_applied_missing n j : (n < length rows)%nat -> forall d i, (j <= i)%nat -> (i + d = n)%nat ->
  check_applied (drop j (take n migs)) (Z.of_nat j) (Z.of_nat i) (drop i rows) = Panic.
Proof.
  intros Hn. pose proof (applied_prefix_length _ _ Hrows) as Hlen. unfold u32_max in Hmax.
  induction d as [|d IH]; intros i Hji Hin.
  all: destruct (lookup_lt_is_Some_2 rows i) as [a Ha]; [lia|]; rewrite (drop_S _ _ _ Ha); simpl.
  all: pose proof (row_id _ _ Ha) as Hid; destruct (applied_prefix_lookup _ _ _ _ Hrows Ha) as (m & Hm & Hmid & Hname & Hhash).
  all: unfold wrap32; rewrite Z.mod_small by lia; replace (Z.of_nat i + 1 =? am_id a) with true by lia.
  all: unfold wrap64; rewrite Z.mod_small by lia; rewrite lookup_drop.
  all: replace (j + Z.to_nat (am_id a - 1 - Z.of_nat j))%nat with i by lia.
  - by rewrite lookup_take_ge by lia.
  - rewrite lookup_take_lt by lia. rewrite Hm, Hmid, Hname, Hhash, Z.eqb_refl, !String.eqb_refl. simpl.
    rewrite <- Hmid, Hid. replace (1 + Z.of_nat i) with (Z.of_nat (S i)) by lia. apply IH; lia.
Qed.

(** The writer finds where the rows end, whatever part of them the client left out. *)
Lemma last_applied_ok j :
  (j <= length rows)%nat -> (j < length migs)%nat ->
  last_applied_migration rows (drop j migs) = Ok (Z.of_nat (length rows)).
Proof.
  intros Hj Hjm. pose proof (applied_prefix_length _ _ Hrows) as Hlen.
  destruct (lookup_lt_is_Some_2 migs j Hjm) as [m Hm]. unfold last_applied_migration. rewrite (drop_S _ _ _ Hm) at 1.
  rewrite (Hnum _ _ Hm). rewrite filter_rows_below, filter_rows_from by done.
  assert ((1 <? 1 + Z.of_nat j) && (zlen (take j rows) <? 1 + Z.of_nat j - 1) = false) as ->.
  { apply andb_false_iff. right. apply Z.ltb_ge. unfold zlen. rewrite length_take, Nat.min_l by done. lia. }
  assert (forallb (fun a => am_id a <=? u32_max) (drop j rows) = true) as ->.
  { apply forallb_forall. intros a Ha. apply list_elem_of_In in Ha. apply list_elem_of_lookup in Ha as [i Hi].
    rewrite lookup_drop in Hi. rewrite (row_id _ _ Hi). apply lookup_lt_Some in Hi. apply Z.leb_le. lia. }
  replace (1 + Z.of_nat j - 1) with (Z.of_nat j) by lia. unfold wrap32. rewrite Z.mod_small by (unfold u32_max in Hmax; lia).
  apply (check_applied_ok j (length rows - j) j); lia.
Qed.
End Rows.
(** ** The reference: one migration after the other on the contents *)
Section Writer.
Context {T : Type} `{SqlEngine T} `{!SqlEngineOk (T := T)} `{RowLib}.

(** The statements of a script, up to the first that fails; [None] when the script
    controls transactions itself. *)
Fixpoint run_script (fuel : nat) (s : string) (u : UserDb T) : option (SqlError + UserDb T) :=
  match fuel with
  | O => None
  | S fuel =>
      match batch_next s u with
      | None => Some (inl ESqlite)
      | Some None => Some (inr u)
      | Some (Some (t, rest)) =>
          match prepare t u with
          | None => Some (inl ESqlite)
          | Some p =>
              match control p with
              | Some _ => None
              | None =>
                  if Nat.eqb (parameter_count p) 0 then
                    let o := stmt_execute t [] u in
                    match result o with
                    | inr _ => run_script fuel rest (after o)
                    | inl f => Some (inl (from_rusqlite f))
                    end
                  else Some (inl ESqlite)
              end
          end
      end
  end.

Definition spec_row (ts : Z) (m : Migration) : AppliedMigration :=
  mkAppliedMigration (mig_id m) (mig_name m) ts (mig_hash m).

Definition spec_one (ts : Z) (m : Migration) (u : UserDb T) : option (SqlError + UserDb T) :=
  let script := from_utf8_lossy (content m) in
  r ← run_script (S (String.length script)) script u;
  match r with
  | inl x => Some (inl x)
  | inr u1 =>
      match migrations u1 with
      | None => Some (inl ESqlite)
      | Some rows =>
          match insert_applied (spec_row ts m) rows with
          | None => Some (inl EConstraintViolation)
          | Some rows =>
              let u2 := mkUser (tables u1) (Some rows) in
              if commit_ok u u2 then Some (inr u2) else Some (inl EConstraintViolation)
          end
      end
  end.

(** The result, and the contents at the last migration that succeeded. *)
Fixpoint spec_migrate (ts : Z) (migs : list Migration) (u : UserDb T) : option (Res SqlError unit * UserDb T) :=
  match migs with
  | [] => Some (Ok tt, u)
  | m :: migs =>
      r ← spec_one ts m u;
      match r with
      | inl x => Some (Err x, u)
      | inr u' => spec_migrate ts migs u'
      end
  end.

Lemma script_loop_ok fuel : forall s c sv r,
  saved c = Some sv -> run_script fuel s (user (cur c)) = Some r ->
  match r with
  | inr u' => script_loop fuel s c = (Ok tt, mkConn (set_user u' (cur c)) (Some sv))
  | inl x => exists c', script_loop fuel s c = (Err x, c') /\ drop_txn c' = mkConn sv None
  end.
Proof.
  induction fuel as [|fuel IH]; intros s c sv r Hs; simpl; [done|].
  assert (drop_txn c = mkConn sv None) as Hd by (unfold drop_txn, rollback_txn; by rewrite Hs).
  destruct (batch_next s (user (cur c))) as [[[t rest]|]|]; [| |by intros [= <-]; eauto].
  2:{ intros [= <-]. destruct c as [[u m] sv']. simpl in *. by subst. }
  unfold mbind, st_bind, script_stmt. destruct (prepare t (user (cur c))) as [p|]; [|by intros [= <-]; eauto].
  destruct (control p) eqn:Ec; [done|]. destruct (Nat.eqb (parameter_count p) 0); [|by intros [= <-]; eauto].
  unfold raw_execute, run_execute. rewrite Ec. set (o := stmt_execute t [] (user (cur c))).
  destruct (result o) as [f|n] eqn:Er.
  - intros [= <-]. eexists. split; [done|]. unfold settle. destruct (rolled_back o); rewrite Hs; done.
  - assert (settle o c = mkConn (set_user (after o) (cur c)) (Some sv)) as ->.
    { unfold settle. destruct (rolled_back o) eqn:Erb; [|by rewrite Hs].
      destruct (rollback_execute t [] (user (cur c)) Erb) as [f Hf]. fold o in Hf. congruence. }
    intros Hr. by apply (IH rest (mkConn (set_user (after o) (cur c)) (Some sv)) sv r eq_refl Hr).
Qed.

Lemma apply_migration_ok m ts c r :
  saved c = None -> spec_one ts m (user (cur c)) = Some r ->
  apply_migration m ts c = match r with inr u' => (Ok tt, mkConn (set_user u' (cur c)) None) | inl x => (Err x, c) end.
Proof.
  intros Hs Hr. unfold apply_migration, begin_txn. rewrite Hs. unfold spec_one in Hr. unfold mbind at 1, st_bind at 1.
  assert (c = mkConn (cur c) None) as Hc by (destruct c; simpl in *; by subst).
  set (script := from_utf8_lossy (content m)) in *.
  destruct (run_script (S (String.length script)) script (user (cur c))) as [r1|] eqn:E1; [|done].
  simpl in Hr.
  pose proof (script_loop_ok (S (String.length script)) script (mkConn (cur c) (Some (cur c))) (cur c) r1 eq_refl E1) as Hl.
  destruct r1 as [x|u1].
  { destruct Hl as (c' & -> & Hd). simplify_eq. by rewrite Hd, <- Hc. }
  rewrite Hl. unfold insert_migration. simpl.
  assert (drop_txn (mkConn (set_user u1 (cur c)) (Some (cur c))) = c) as Hd by (unfold drop_txn; simpl; by rewrite <- Hc).
  destruct (migrations u1) as [rows|]; [|by simplify_eq; rewrite Hd].
  change (mkAppliedMigration (mig_id m) (mig_name m) ts (mig_hash m)) with (spec_row ts m).
  destruct (insert_applied (spec_row ts m) rows) as [rows'|]; [|by simplify_eq; rewrite Hd].
  unfold commit_or_drop, commit_txn. simpl.
  destruct (commit_ok (user (cur c)) (mkUser (tables u1) (Some rows'))); simplify_eq; simpl; [done|].
  unfold drop_txn. simpl. by rewrite <- Hc.
Qed.

Lemma migrate_loop_ok ts migs : forall k c r,
  numbered (k + 1) migs -> 0 <= k -> k + Z.of_nat (length migs) <= u32_max -> saved c = None ->
  spec_migrate ts migs (user (cur c)) = Some r ->
  migrate_loop k ts migs c = (r.1, mkConn (set_user r.2 (cur c)) None).
Proof.
  induction migs as [|m migs IH]; intros k c r Hn Hk Hmax Hs; simpl.
  { intros [= <-]. simpl. destruct c as [[u mt] sv]. simpl in *. by subst. }
  apply numbered_cons in Hn as [Hm Hn]. simpl in Hmax. unfold u32_max in Hmax.
  unfold wrap32. rewrite Z.mod_small by lia. rewrite Hm, Z.eqb_refl.
  destruct (spec_one ts m (user (cur c))) as [r1|] eqn:E1; [|done]. simpl. unfold mbind, st_bind.
  rewrite (apply_migration_ok m ts c r1 Hs E1). destruct r1 as [x|u1].
  { intros [= <-]. simpl. destruct c as [[u mt] sv]. simpl in *. by subst. }
  intros Hr. apply (IH (k + 1) (mkConn (set_user u1 (cur c)) None) r); [done|lia|unfold u32_max; lia|done|done].
Qed.

(** The writer against the reference, for any part of the rows the client left out. *)
Lemma migrate_ok all rows j l c r :
  numbered 1 all -> Z.of_nat (length all) <= u32_max -> applied_prefix rows all ->
  (j <= length rows)%nat -> (j < length all)%nat ->
  saved c = None -> default [] (migrations (user (cur c))) = rows ->
  spec_migrate (match l with Some l => as_int 64 true (index l) | None => 0 end) (drop (length rows) all)
    (mkUser (tables (user (cur c))) (Some rows)) = Some r ->
  migrate (drop j all) l c = (r.1, mkConn (set_user r.2 (cur c)) None).
Proof.
  intros Hn Hmax Hp Hj Hjl Hs Hrows Hr. pose proof (applied_prefix_length _ _ Hp) as Hlen.
  unfold migrate, create_migrations_table, c_user, mbind, st_bind, st_lift. simpl. rewrite Hrows.
  rewrite (last_applied_ok all rows Hn Hmax Hp j Hj Hjl).
  assert (filter (fun m => Z.of_nat (length rows) < mig_id m) (drop j all) = drop (length rows) all) as ->.
  { pose proof (filter_numbered (1 + Z.of_nat j) (drop j all) (Z.of_nat (length rows) - Z.of_nat j) (numbered_drop _ _ j Hn)) as Hf.
    rewrite drop_drop in Hf. replace (j + Z.to_nat (Z.of_nat (length rows) - Z.of_nat j))%nat with (length rows) in Hf by lia.
    rewrite <- Hf by lia. apply filter_ext_in. intros m _. lia. }
  rewrite Hs. change (set_user r.2 (cur c)) with (set_user r.2 (set_user (mkUser (tables (user (cur c))) (Some rows)) (cur c))).
  apply (migrate_loop_ok _ (drop (length rows) all) (Z.of_nat (length rows)) (mkConn (set_user (mkUser (tables (user (cur c))) (Some rows)) (cur c)) None) r);
    [|lia| |done|done].
  - rewrite Z.add_comm. by apply numbered_drop.
  - rewrite length_drop. lia.
Qed.

(** ** The rows afterwards *)

(** A script whose statements control no transaction and leave [_migrations] alone. *)
Definition plain_script (s : string) : Prop := forall t, statement_of s t -> forall u : UserDb T,
  (forall p, prepare t u = Some p -> control p = None) /\ migrations (after (stmt_execute t [] u)) = migrations u.
Definition plain_migration (m : Migration) : Prop := plain_script (from_utf8_lossy (content m)).

(** The reference has a result for such a script: it does not run out of fuel. *)
Lemma run_script_total fuel : forall s u, plain_script s -> (String.length s < fuel)%nat ->
  exists r, run_script fuel s u = Some r /\ (forall u', r = inr u' -> migrations u' = migrations u).
Proof.
  induction fuel as [|fuel IH]; intros s u Hp Hf; [lia|]. simpl.
  destruct (batch_next s u) as [[[t rest]|]|] eqn:Eb; [|by eexists; split; [done|]; intros u' [= <-]|by eexists].
  destruct (Hp t ltac:(by eapply statement_first) u) as [Hc Hm].
  destruct (prepare t u) as [p|] eqn:Ep; [|by eexists]. rewrite (Hc p eq_refl).
  destruct (Nat.eqb _ _); [|by eexists]. destruct (result (stmt_execute t [] u)); [by eexists|].
  destruct (IH rest (after (stmt_execute t [] u))) as (r & Hr & Hrows).
  - intros t' Ht' u'. apply Hp. by eapply statement_later.
  - apply batch_shorter in Eb. lia.
  - exists r. split; [done|]. intros u' Hu'. by rewrite (Hrows u' Hu'), Hm.
Qed.

Lemma insert_applied_last a rows : Forall (fun b => am_id b < am_id a) rows -> insert_applied a rows = Some (rows ++ [a]).
Proof.
  induction 1 as [|b rows Hb _ IH]; simpl; [done|].
  replace (am_id a =? am_id b) with false by lia. replace (am_id a <? am_id b) with false by lia. by rewrite IH.
Qed.

Lemma spec_one_total ts m u rows :
  plain_migration m -> migrations u = Some rows -> Forall (fun b => am_id b < mig_id m) rows ->
  exists r, spec_one ts m u = Some r /\ forall u1, r = inr u1 -> migrations u1 = Some (rows ++ [spec_row ts m]).
Proof.
  intros Hp Hu Hids. unfold spec_one.
  destruct (run_script_total (S (String.length (from_utf8_lossy (content m)))) (from_utf8_lossy (content m)) u Hp ltac:(lia)) as (r & -> & Hrows).
  simpl. destruct r as [x|u0]; [by eexists|]. rewrite (Hrows u0 eq_refl), Hu, insert_applied_last by done.
  destruct (commit_ok u _); [|by eexists]. eexists. split; [done|]. by intros u1 [= <-].
Qed.

(** The reference over plain migrations: it has a result, and the rows are those of the
    migrations up to the first that fails. *)
Lemma spec_migrate_rows ts : forall migs rows u,
  Forall plain_migration migs ->
  numbered (1 + Z.of_nat (length rows)) migs -> (forall i a, rows !! i = Some a -> am_id a = 1 + Z.of_nat i) ->
  migrations u = Some rows ->
  exists r n, spec_migrate ts migs u = Some r /\ (n <= length migs)%nat /\ migrations r.2 = Some (rows ++ (spec_row ts <$> take n migs)) /\
    match r.1 with Ok _ => n = length migs | Err _ => (n < length migs)%nat | _ => False end.
Proof.
  induction migs as [|m migs IH]; intros rows u Hpl Hn Hids Hu; simpl.
  { exists (Ok tt, u), 0%nat. simpl. by rewrite app_nil_r. }
  apply Forall_cons in Hpl as [Hpm Hpl]. apply numbered_cons in Hn as [Hm Hn].
  destruct (spec_one_total ts m u rows Hpm Hu) as (r1 & -> & Hr1).
  { apply Forall_lookup. intros i a Hi. rewrite (Hids i a Hi). apply lookup_lt_Some in Hi. lia. }
  simpl. destruct r1 as [x|u1].
  { exists (Err x, u), 0%nat. simpl. rewrite app_nil_r. split; [done|]. split; [lia|]. split; [done|]. lia. }
  destruct (IH (rows ++ [spec_row ts m]) u1 Hpl) as (r & n & Hr & Hle & Hmig & Hres); [| |by apply Hr1|].
  - rewrite length_app. simpl. by replace (1 + Z.of_nat (length rows + 1)) with (1 + Z.of_nat (length rows) + 1) by lia.
  - intros i a Hi. apply lookup_app_Some in Hi as [Hi|[Hlt Hi]]; [by apply Hids|].
    apply list_lookup_singleton_Some in Hi as [Hz <-]. simpl. lia.
  - exists r, (S n). split; [done|]. split; [simpl; lia|]. split; [by rewrite Hmig, <- (assoc_L (++))|]. destruct r.1; simpl; lia || done.
Qed.

Lemma applied_prefix_app all rows n ts :
  applied_prefix rows all -> (length rows + n <= length all)%nat ->
  applied_prefix (rows ++ (spec_row ts <$> take n (drop (length rows) all))) all.
Proof.
  intros Hp Hn. unfold applied_prefix. rewrite length_app, length_fmap, length_take, length_drop, Nat.min_l by lia.
  rewrite <- take_take_drop. apply Forall2_app; [done|]. apply Forall2_fmap_l, Forall2_same_length_lookup. split; [done|].
  intros i m m' Hm Hm'. simplify_eq. by repeat split.
Qed.
End Writer.
End Migrations.
