(* ===== verification/SqlDemo.v ===== *)
(** A small database for evaluating the SQLite state machine: one table [t] with the
    columns [a] and [v] (until [a] is dropped) and a handful of statements, and
    instances of the other parameters.  With [expose] there is a statement that returns
    the number of a row, which VACUUM may change. *)
From stdpp Require Import base gmap strings list numbers countable.
From Stdlib Require Import Ascii Strings.Byte.
From S2P Require Import Prelude Text Codec WalWriter SqlRows SqlBase SqlWriter SqlSM.
Import Rows Sql SqlWriter SqlSM.

#[local] Open Scope Z_scope.

(** ** rusqlite, UUIDs and bincode *)
#[export] Instance demo_rows : RowLib := {|
  get_string v := match v with VText s => if valid_utf8 s then Some s else None | _ => None end;
  get_i64 v := match v with VInteger i => Some i | _ => None end;
  get_f64 v := match v with VInteger i => Some i | VReal r => Some r | _ => None end;
  get_blob v := match v with VBlob b => Some b | _ => None end;
  to_uppercase := map_ascii upper_ascii;
  Url := unit;
  url_parse s := if String.eqb s "http://localhost/" then Some tt else None;
  url_to_string _ := "http://localhost/";
|}.
#[export] Instance demo_rows_ok : RowLibOk.
Proof.
  split; simpl; try done.
  - intros v s. destruct v as [| | |t|]; try (split; [done|by intros [? _]]).
    destruct (valid_utf8 t) eqn:E; split; intros Hs; destruct_and?; simplify_eq; first [done|congruence].
  - intros v i. destruct v; split; intros Hi; by simplify_eq.
  - intros v r. destruct v; intros Hr; simplify_eq; [left; by eexists|by right].
  - intros v b. destruct v; split; intros Hb; by simplify_eq.
  - by intros [].
Qed.

Definition uuid_max : Z := 2 ^ 128 - 1.
#[export] Instance demo_uuid : UuidLib := {|
  uuid_parse s := match strip_prefix "u" s with Some t => parse_digits uuid_max 0 t | None => None end;
  uuid_print u := "u" +:+ to_string u;
|}.
#[export] Instance demo_uuid_ok : UuidLibOk.
Proof.
  split; cbn [uuid_parse uuid_print demo_uuid].
  - intros u Hu. rewrite strip_prefix_app, parse_digits_to_string; [done|]. unfold uuid_max. lia.
  - intros s u. destruct (strip_prefix "u" s) as [t|]; [|done]. intros Hp.
    apply parse_digits_range in Hp; unfold uuid_max in *; lia.
  - done.
  - intros s. destruct (strip_prefix "u" (s +:+ ".tmp")) as [t|] eqn:E; [|done]. apply strip_prefix_Some in E.
    destruct (parse_digits uuid_max 0 t) as [z|] eqn:Ez; [|done]. apply parse_digits_all in Ez.
    assert (has_char "p"%char t = false) as Hp by (by apply all_digits_no_char).
    assert (has_char "p"%char (s +:+ ".tmp") = true) as Ht by (rewrite has_char_app, orb_true_r; done).
    rewrite E, has_char_app, Hp in Ht. done.
Qed.

#[export] Instance LogId_eqdec' : EqDecision LogId.
Proof. solve_decision. Defined.
#[export] Instance LogId_countable' : Countable LogId.
Proof.
  refine (inj_countable' (fun l => (term l, node_id l, index l)) (fun x => mkLogId x.1.1 x.1.2 x.2) _). by intros [].
Defined.
#[export] Instance SmData_eqdec : EqDecision (@StateMachineData nat).
Proof. solve_decision. Defined.
#[export] Instance SmData_countable : Countable (@StateMachineData nat).
Proof.
  refine (inj_countable' (fun d => (last_applied_log_id d, last_membership d, last_snapshot_id d))
    (fun x => mkSmData x.1.1 x.1.2 x.2) _). by intros [].
Defined.
#[export] Instance demo_meta : MetaCodec (M := nat) := {|
  default_membership := 0%nat;
  serialize_meta d := Some (to_bytes d);
  deserialize_meta := of_bytes;
|}.
#[export] Instance demo_meta_ok : MetaCodecOk (M := nat).
Proof. split; [eauto|]. intros m b [= <-]. apply of_to_bytes. Qed.

(** ** The database *)
Record Demo : Type := mkDemo { t_rows : list (Z * Value); dropped : bool }.

Inductive Stmt : Type := SInsert | SReturning | SRowid | SSelect | SClear | SPop | SFail | SDrop | SControl (k : Control).

Definition stmt_texts (expose : bool) : list (string * Stmt) :=
  [("INSERT INTO t VALUES (?1)", SInsert); ("INSERT INTO t VALUES (?1) RETURNING v", SReturning);
   ("SELECT * FROM t", SSelect); ("DELETE FROM t", SClear);
   ("DELETE FROM t WHERE rowid = (SELECT min(rowid) FROM t)", SPop); ("INSERT INTO t VALUES (NULL)", SFail);
   ("ALTER TABLE t DROP COLUMN a", SDrop);
   ("BEGIN", SControl Begin); ("COMMIT", SControl Commit); ("ROLLBACK", SControl Rollback)]
  ++ (if expose then [("INSERT INTO t VALUES (?1) RETURNING rowid", SRowid)] else []).
Definition parse_stmt (expose : bool) (s : string) : option Stmt :=
  snd <$> (snd <$> list_find (fun x => x.1 = s) (stmt_texts expose)).

Definition demo_prepared (k : Stmt) (drop : bool) : Prepared :=
  match k with
  | SInsert => mkPrepared None 1 []
  | SReturning => mkPrepared None 1 [("v", Some "DATETIME")]
  | SRowid => mkPrepared None 1 [("rowid", Some "INTEGER")]
  | SSelect => mkPrepared None 0 ((if drop then [] else [("a", Some "TEXT")]) ++ [("v", None)])
  | SClear | SPop | SFail | SDrop => mkPrepared None 0 []
  | SControl c => mkPrepared (Some c) 0 []
  end.

Definition next_rowid (rows : list (Z * Value)) : Z := 1 + foldr (fun r m => Z.max r.1 m) 0 rows.
Definition set_tables (t : Demo) (u : UserDb Demo) : UserDb Demo := mkUser t (migrations u).
Definition demo_insert (v : Value) (t : Demo) : Demo := mkDemo (t_rows t ++ [(next_rowid (t_rows t), v)]) (dropped t).

Definition demo_execute (expose : bool) (s : string) (vs : list Value) (u : UserDb Demo) : Outcome Demo (Failure + option Z) :=
  match parse_stmt expose s with
  | Some SInsert => mkOutcome (inr (Some 1)) (set_tables (demo_insert (default VNull (head vs)) (tables u)) u) false
  | Some SClear => mkOutcome (inr (Some (zlen (t_rows (tables u))))) (set_tables (mkDemo [] (dropped (tables u))) u) false
  | Some SPop => mkOutcome (inr (Some 1)) (set_tables (mkDemo (tail (t_rows (tables u))) (dropped (tables u))) u) false
  | Some SDrop => mkOutcome (inr None) (set_tables (mkDemo (t_rows (tables u)) true) u) false
  | Some SFail => mkOutcome (inl ConstraintViolation) u false
  | _ => mkOutcome (inl OtherFailure) u false
  end.
Definition demo_query (expose : bool) (s : string) (vs : list Value) (u : UserDb Demo) : Outcome Demo (list (list Value) * option Failure) :=
  let v := default VNull (head vs) in
  match parse_stmt expose s with
  | Some SReturning => mkOutcome ([[v]], None) (set_tables (demo_insert v (tables u)) u) false
  | Some SRowid => mkOutcome ([[VInteger (next_rowid (t_rows (tables u)))]], None) (set_tables (demo_insert v (tables u)) u) false
  | Some SSelect =>
      mkOutcome ((fun r => (if dropped (tables u) then [] else [VText "a"]) ++ [r]) <$> (t_rows (tables u)).*2, None) u false
  | _ => mkOutcome ([], Some OtherFailure) u false
  end.

Definition demo_prepare (expose : bool) (s : string) (u : UserDb Demo) : option Prepared :=
  (fun k => demo_prepared k (dropped (tables u))) <$> parse_stmt expose s.
(** Statements end in a semicolon. *)
Definition demo_next (expose : bool) (s : string) (u : UserDb Demo) : option (option (string * string)) :=
  match s with
  | EmptyString => Some None
  | _ =>
      let tr := default (s, "") (split_once ";"%char s) in
      match demo_prepare expose tr.1 u with Some _ => Some (Some tr) | None => None end
  end.
Definition demo_vacuum (t : Demo) : Demo := mkDemo (zip (seqZ 1 (zlen (t_rows t))) (t_rows t).*2) (dropped t).

Definition demo_sql (expose : bool) : SqlEngine Demo := {|
  no_tables := mkDemo [] false;
  prepare := demo_prepare expose;
  bind_ok p i v := Nat.leb 1 i && Nat.leb i (parameter_count p);
  stmt_execute := demo_execute expose;
  stmt_query := demo_query expose;
  column_index names n := fst <$> list_find (fun x => x = n) names;
  get_value v := Some v;
  batch_next := demo_next expose;
  commit_ok _ _ := true;
  vacuum := demo_vacuum;
  from_utf8_lossy s := s;
|}.

Lemma split_once_length c s l r : split_once c s = Some (l, r) -> (String.length r < String.length s)%nat.
Proof.
  revert l. induction s as [|a s IH]; intros l; simpl; [done|]. destruct (Ascii.eqb a c); [intros [= <- <-]; lia|].
  destruct (split_once c s) as [[l' r']|]; [|done]. intros [= <- <-]. specialize (IH l' eq_refl). lia.
Qed.

Lemma demo_sql_ok expose : @SqlEngineOk Demo (demo_sql expose).
Proof.
  split; cbn [demo_sql bind_ok stmt_execute stmt_query batch_next prepare column_index from_utf8_lossy].
  - intros p i v [H1%Nat.leb_le H2%Nat.leb_le]%andb_prop. lia.
  - intros s vs u. unfold demo_execute. destruct (parse_stmt expose s) as [[]|]; done.
  - intros s vs u. unfold demo_query. destruct (parse_stmt expose s) as [[]|]; done.
  - intros [|a s] u t rest; [done|]. unfold demo_next. set (x := String a s) in *.
    destruct (demo_prepare _ _ u); [|done]. destruct (split_once ";"%char x) as [[l r]|] eqn:E; cbn [default from_option]; intros [= <- <-].
    + by apply split_once_length in E.
    + simpl. lia.
  - intros [|a s] u t rest; [done|]. unfold demo_next. set (x := String a s) in *.
    destruct (demo_prepare expose (default (x, "") (split_once ";"%char x)).1 u) eqn:E; [|done].
    intros Ht. assert (default (x, "") (split_once ";"%char x) = (t, rest)) as Hx by congruence. rewrite Hx in E. cbn [fst] in E. by rewrite E.
  - intros names n i. destruct (list_find _ names) as [[j x]|] eqn:E; [|done]. intros [= <-].
    apply list_find_Some in E as (Hl & _). by apply lookup_lt_Some in Hl.
  - done.
Qed.

(** Equal contents: the numbers of the rows do not matter. *)
#[export] Instance demo_equiv : Equiv Demo := fun t t' => (t_rows t).*2 = (t_rows t').*2 /\ dropped t = dropped t'.

Lemma demo_insert_equiv v t t' : t ≡ t' -> demo_insert v t ≡ demo_insert v t'.
Proof. intros [Hr Hd]. split; [|done]. cbn [demo_insert t_rows]. rewrite !fmap_app, Hr. done. Qed.

Lemma demo_sql_equiv expose : @SqlEquiv Demo (demo_sql expose) demo_equiv.
Proof.
  split; cbn [demo_sql prepare batch_next commit_ok vacuum].
  - split; [by intros t|by intros t t' [Hr Hd]; split|]. intros t t' t'' [Hr Hd] [Hr' Hd']. split; congruence.
  - intros s u u' [[_ Hd] _]. unfold demo_prepare. by rewrite Hd.
  - intros s u u' [[_ Hd] _]. unfold demo_next, demo_prepare. by rewrite Hd.
  - by intros s s' _ u u' _.
  - intros t. split; [|done]. cbn [demo_vacuum t_rows]. rewrite snd_zip; [done|]. rewrite length_seqZ, length_fmap. unfold zlen. lia.
Qed.

(** Every statement but the one that returns the rowid is free of it. *)
Lemma demo_free expose s : parse_stmt expose s <> Some SRowid -> @rowid_free Demo (demo_sql expose) demo_equiv s.
Proof.
  intros Hs. split; cbn [demo_sql stmt_execute stmt_query].
  - intros vs u u' Hu. pose proof Hu as [Ht Hm]. destruct Ht as [Hr Hd]. unfold demo_execute.
    destruct (parse_stmt expose s) as [[]|]; try done.
    + split; [done|]. split; [|done]. split; [|done]. apply demo_insert_equiv. by split.
    + split; [|by split; [split; [split|]|]]. simpl. unfold zlen.
      by rewrite <- (length_fmap snd (t_rows (tables u))), Hr, length_fmap.
    + split; [done|]. split; [|done]. split; [|done]. split; [|done]. cbn [after set_tables tables t_rows].
      by destruct (t_rows (tables u)), (t_rows (tables u')); simplify_eq/=.
  - intros vs u u' Hu. pose proof Hu as [Ht Hm]. pose proof Ht as [Hr Hd]. unfold demo_query.
    destruct (parse_stmt expose s) as [[]|] eqn:E; try done.
    + split; [done|]. split; [|done]. split; [|done]. by apply demo_insert_equiv.
    + split; [|done]. cbn [result]. by rewrite Hr, Hd.
Qed.

(** The statements of a script are the pieces of its text between the semicolons. *)
Fixpoint pieces (fuel : nat) (s : string) : list string :=
  match fuel, s with
  | O, _ | _, EmptyString => []
  | S fuel, _ => let tr := default (s, "") (split_once ";"%char s) in tr.1 :: pieces fuel tr.2
  end.

Lemma demo_statement expose s t : @statement_of Demo (demo_sql expose) s t ->
  forall fuel, (String.length s < fuel)%nat -> t ∈ pieces fuel s.
Proof.
  assert (forall s u t rest, @batch_next Demo (demo_sql expose) s u = Some (Some (t, rest)) ->
    s <> "" /\ default (s, "") (split_once ";"%char s) = (t, rest)) as Hn.
  { intros s0 u t0 rest Hb. cbn [demo_sql batch_next] in Hb. destruct s0 as [|a s0]; [done|]. split; [done|]. unfold demo_next in Hb.
    destruct (demo_prepare expose _ u); congruence. }
  induction 1 as [s u t rest Hb|s u t rest t' Hb _ IH]; intros [|fuel] Hf; try lia; destruct (Hn _ _ _ _ Hb) as [Hs Hx];
    pose proof (@batch_shorter Demo (demo_sql expose) (demo_sql_ok expose) _ _ _ _ Hb); destruct s as [|a s]; [done| |done|];
    cbn [pieces]; rewrite Hx; cbn [fst snd]; [by left|]. right. apply IH. lia.
Qed.

#[export] Existing Instance demo_sql_ok.
#[export] Existing Instance demo_sql_equiv.

Definition calm : Env := mkEnv 0 false false false false false false false.
