(* ===== verification/SqlQuery.v ===== *)
(** Local queries: [hiqlite/src/query/mod.rs].

    A connection of the read pool has [query_only] set.  What it answers is the class
    [ReadEngine]: for a statement that changes nothing it is what any connection
    answers.  The conversion of a row into the type of the caller is an argument. *)
From stdpp Require Import base strings list numbers sorting.
From S2P Require Import Prelude SqlRows SqlBase SqlWriter SqlAgree.
Import Rows Sql SqlWriter.

#[local] Open Scope Z_scope.

Module SqlQuery.

Class ReadEngine (T : Type) : Type :=
  read_query : string -> list Value -> UserDb T -> list (list Value) * option Failure.
Class ReadEngineOk {T} `{SqlEngine T} `{ReadEngine T} : Prop :=
  read_same : forall s vs (u : UserDb T), after (stmt_query s vs u) = u -> read_query s vs u = result (stmt_query s vs u).

(** [task::spawn_blocking(..).await?]: a panic of the closure is a [JoinError]. *)
Definition join_blocking {A} (r : Res SqlError A) : Res SqlError A :=
  match r with Panic => Err EError | r => r end.

Section Query.
Context {T : Type} `{SqlEngine T} `{RowLib} `{ReadEngine T}.

(** The loop that binds the parameters; an error is a [rusqlite::Error]. *)
Fixpoint bind_all (p : Prepared) (idx : nat) (ps : list Param) : Res SqlError (list Value) :=
  match ps with
  | [] => Ok []
  | param :: ps =>
      v ← into_sql param;
      if bind_ok p idx v then vs ← bind_all p (S idx) ps; mret (v :: vs) else Err ESqlite
  end.

(** The loop over the rows *)
Fixpoint own_rows (infos : list ColumnInfo) (rows : list (list Value)) (err : option Failure) : Res SqlError (list RowOwned) :=
  match rows with
  | [] => match err with Some _ => Err ESqlite | None => Ok [] end
  | row :: rows => cols ← from_row_column row infos; rs ← own_rows infos rows err; mret (mkRow cols :: rs)
  end.

Definition query_blocking (q : Query) (u : UserDb T) : Res SqlError (list RowOwned) :=
  match prepare (sql q) u with
  | None => Err ESqlite
  | Some p =>
      vs ← bind_all p 1 (params q);
      let '(rows, err) := read_query (sql q) vs u in
      own_rows (mapping_cols_from_stmt (stmt_columns p)) rows err
  end.

(** [query_owned_local] on the committed database; [pool]: [read_pool.get()] succeeds. *)
Definition query_owned_local (pool : bool) (q : Query) (u : UserDb T) : Res SqlError (list RowOwned) :=
  if pool then join_blocking (query_blocking q u) else Err ESqlite.

(** The loop of [query_map] and [query_try_map], with the conversion of the caller; a
    conversion of [query_map] may panic. *)
Section Map.
Context {A : Type} (conv : list Value -> Res SqlError A).

Fixpoint map_rows (rows : list (list Value)) (err : option Failure) : Res SqlError (list A) :=
  match rows with
  | [] => match err with Some _ => Err ESqlite | None => Ok [] end
  | row :: rows => a ← conv row; rs ← map_rows rows err; mret (a :: rs)
  end.

Definition query_map (pool : bool) (q : Query) (u : UserDb T) : Res SqlError (list A) :=
  if pool then
    join_blocking
      match prepare (sql q) u with
      | None => Err ESqlite
      | Some p =>
          vs ← bind_all p 1 (params q);
          let '(rows, err) := read_query (sql q) vs u in map_rows rows err
      end
  else Err ESqlite.

(** [query_map_one], [query_try_map_one] and [query_as_one] *)
Definition one (rows : list A) : Res SqlError A :=
  match rows with
  | [] => Err EQueryReturnedNoRows
  | [a] => Ok a
  | _ => Err ESqlite
  end.
Definition query_map_one (pool : bool) (q : Query) (u : UserDb T) : Res SqlError A :=
  rows ← query_map pool q u; one rows.

(** [query_map_optional] and the like: [swap_remove(0)] of what there is *)
Definition query_map_optional (pool : bool) (q : Query) (u : UserDb T) : Res SqlError (option A) :=
  rows ← query_map pool q u; mret (head rows).
End Map.

(** ** What a query answers *)
Context `{!ReadEngineOk (T := T)}.

Lemma bind_all_params p idx ps vs : bind_all p idx ps = Ok vs <-> bind_params p idx ps = Ok vs.
Proof.
  revert idx vs. induction ps as [|param ps IH]; intros idx vs; [done|]. simpl.
  destruct (into_sql (E := SqlError) param) as [v|x| |]; simpl; try done.
  destruct (bind_ok p idx v); [|done]. split; intros Hb.
  - destruct (bind_all p (S idx) ps) as [l|x| |] eqn:E; try done. apply IH in E. by rewrite E.
  - destruct (bind_params p (S idx) ps) as [l|x| |] eqn:E; try done. apply IH in E. by rewrite E.
Qed.

Lemma own_rows_owned infos rows rs :
  own_rows infos rows None = Ok rs <-> rows_owned infos rows = Ok (Ok <$> rs).
Proof.
  revert rs. induction rows as [|row rows IH]; intros rs; simpl.
  - split; [by intros [= <-]|]. by destruct rs.
  - destruct (from_row_column (E := SqlError) row infos) as [cols|x| |]; simpl; try done. split.
    + destruct (own_rows infos rows None) as [l|x| |] eqn:E; try done. intros [= <-]. by rewrite (proj1 (IH l) eq_refl).
    + destruct (rows_owned infos rows) as [l|x| |] eqn:E; try done. simpl. intros [= Hl].
      destruct rs as [|r rs]; [done|]. simplify_eq/=. by rewrite (proj2 (IH rs) eq_refl).
Qed.

Lemma own_rows_err infos rows f rs : own_rows infos rows (Some f) <> Ok rs.
Proof.
  revert rs. induction rows as [|row rows IH]; intros rs; simpl; [done|].
  destruct (from_row_column (E := SqlError) row infos) as [cols|x| |]; simpl; try done.
  destruct (own_rows infos rows (Some f)) as [l|x| |] eqn:E; simpl; try done. by destruct (IH l eq_refl).
Qed.

Definition reads_only (q : Query) (u : UserDb T) : Prop :=
  (forall p, prepare (sql q) u = Some p -> control p = None) /\ (forall vs, after (stmt_query (sql q) vs u) = u).

(** The rows of a query on the read pool are those the writer would return. *)
Lemma query_as_returning q (c : Conn T) rows :
  reads_only q (user (cur c)) ->
  query_owned_local true q (user (cur c)) = Ok rows <-> (execute_returning q c).1 = Ok (Ok <$> rows).
Proof.
  intros [Hctl Hread]. unfold query_owned_local, query_blocking, execute_returning, prepare_stmt. step_st.
  destruct (prepare (sql q) (user (cur c))) as [p|] eqn:Ep; [|split; intros Hx; inversion Hx].
  pose proof (bind_all_params p 1 (params q)) as Hb.
  destruct (bind_params p 1 (params q)) as [vs|x| |] eqn:Eb.
  2-4: split; [|done]; destruct (bind_all p 1 (params q)) as [l|y| |] eqn:E; try done; by pose proof (proj1 (Hb l) eq_refl).
  rewrite (proj2 (Hb vs) eq_refl). simpl. rewrite (read_same _ _ _ (Hread vs)).
  unfold raw_query, run_query. rewrite (Hctl p eq_refl). destruct (result (stmt_query (sql q) vs (user (cur c)))) as [rs [f|]].
  - split.
    + destruct (own_rows _ rs (Some f)) as [l|x| |] eqn:E; try done. by apply own_rows_err in E.
    + destruct (rows_owned _ rs) as [l|x| |]; try done. intros [= Hl]. exfalso.
      assert (last (l ++ [Err ESqlite]) = last (Ok <$> rows)) as Hlast by (by rewrite Hl).
      rewrite last_snoc, fmap_last in Hlast. by destruct (last rows).
  - pose proof (own_rows_owned (mapping_cols_from_stmt (stmt_columns p)) rs rows) as Ho. simpl.
    destruct (rows_owned _ rs) as [l'|y| |]; rewrite <- Ho; by destruct (own_rows _ rs None) as [l|x| |].
Qed.

(** A local query never panics, also where the writer does. *)
Lemma own_rows_fuel infos rows err : own_rows infos rows err <> OutOfFuel.
Proof.
  induction rows as [|row rows IH]; simpl; [by destruct err|].
  apply res_fuel_bind; [apply from_row_column_fuel|]. intros cols. by apply res_fuel_bind.
Qed.
Lemma bind_all_fuel p idx ps : bind_all p idx ps <> OutOfFuel.
Proof.
  revert idx. induction ps as [|param ps IH]; intros idx; simpl; [done|].
  apply res_fuel_bind; [by destruct param|]. intros v. destruct (bind_ok p idx v); [by apply res_fuel_bind|done].
Qed.
Lemma query_owned_settled pool q (u : UserDb T) :
  (exists rows, query_owned_local pool q u = Ok rows) \/ (exists e, query_owned_local pool q u = Err e).
Proof.
  unfold query_owned_local, query_blocking. destruct pool; [|eauto]. destruct (prepare (sql q) u) as [p|]; simpl; [|eauto].
  pose proof (bind_all_fuel p 1 (params q)) as Hb. destruct (bind_all p 1 (params q)) as [vs|x| |]; simpl; eauto; [|done].
  destruct (read_query (sql q) vs u) as [rs err]. pose proof (own_rows_fuel (mapping_cols_from_stmt (stmt_columns p)) rs err) as Ho.
  destruct (own_rows _ rs err) as [l|x| |]; simpl; eauto. done.
Qed.
End Query.
End SqlQuery.
