(* ===== verification/NetBase.v ===== *)
(** The client API on the wire: [hiqlite/src/network/api.rs] (the requests and responses
    of the stream) and the errors of [hiqlite/src/error.rs] that the client looks into.

    The payloads are those of the two state machines.  bincode is the class [ApiCodec]. *)
From stdpp Require Import base strings list numbers.
From Stdlib Require Import Strings.Byte.
From S2P Require Import Prelude DLock CacheSM SqlRows SqlBase SqlSM.

#[local] Open Scope Z_scope.

Module Net.

Record Node : Type := mkNode { node_id : Z; addr_raft : string; addr_api : string }.
#[export] Instance Node_eqdec : EqDecision Node.
Proof. solve_decision. Defined.

(** A [ForwardToLeader] error of openraft: the leader it knows of. *)
Record Forward : Type := mkForward { leader_id : option Z; leader_node : option Node }.
#[export] Instance Forward_eqdec : EqDecision Forward.
Proof. solve_decision. Defined.

(** [Error]: the variants of the state machines, and those of the client.  The errors of
    openraft carry a [ForwardToLeader] or another cause. *)
Inductive ApiError : Type :=
| Other (e : SqlError)
| ClientWriteError (fwd : option Forward)
| CheckIsLeaderError (fwd : option Forward)
| Connect
| LeaderChange
| Timeout
| RateLimit
| RaftErrorFatal
| Config
| Token.
#[export] Instance ApiError_eqdec : EqDecision ApiError.
Proof. solve_decision. Defined.

(** [Error::is_forward_to_leader] *)
Definition is_forward_to_leader (e : ApiError) : option Forward :=
  match e with
  | ClientWriteError (Some f) => Some f
  | CheckIsLeaderError (Some f) => Some f
  | _ => None
  end.

(** [ApiStreamRequestPayload] and [ApiStreamRequest] *)
Inductive ApiStreamRequestPayload : Type :=
| Execute (q : Sql.Query)
| ExecuteReturning (q : Sql.Query)
| Transaction (qs : list Sql.Query)
| QueryConsistent (q : Sql.Query)
| Batch (sql : string)
| Migrate (migs : list Sql.Migration)
| Backup (node ts : Z)
| KV (req : CacheSM.CacheRequest)
| Query (q : Sql.Query)
| KVGet (req : CacheSM.CacheRequest)
| LockAwait (req : CacheSM.CacheRequest)
| Notify (req : CacheSM.CacheRequest).

Record ApiStreamRequest : Type := mkRequest { request_id : Z; payload : ApiStreamRequestPayload }.

(** [ApiStreamResponsePayload] and [ApiStreamResponse] *)
Inductive ApiStreamResponsePayload : Type :=
| PExecute (r : Res ApiError (option Z))
| PExecuteReturning (r : Res ApiError (list (Res SqlError Rows.RowOwned)))
| PTransaction (r : Res ApiError (list (option Z)))
| PQuery (r : Res ApiError (list Rows.RowOwned))
| PQueryConsistent (r : Res ApiError (list Rows.RowOwned))
| PBatch (r : Res ApiError (list (Res SqlError (option Z))))
| PMigrate (r : Res ApiError unit)
| PBackup (r : Res ApiError unit)
| PKV (r : Res ApiError CacheSM.CacheResponse)
| PLock (r : Res ApiError DLock.LockState)
| PNotify (r : Res ApiError unit).

Record ApiStreamResponse : Type := mkResponse { response_id : Z; result : ApiStreamResponsePayload }.

(** An error of a state machine as the [Error] of the API *)
Definition lift_error {A} (r : Res SqlError A) : Res ApiError A :=
  match r with
  | Ok a => Ok a
  | Err e => Err (Other e)
  | Panic => Panic
  | OutOfFuel => OutOfFuel
  end.

(** [serialize], [serialize_network] and [deserialize] *)
Class ApiCodec : Type := {
  encode_request : ApiStreamRequest -> list byte;
  decode_request : list byte -> option ApiStreamRequest;
  encode_response : ApiStreamResponse -> option (list byte);
  decode_response : list byte -> option ApiStreamResponse;
}.
(** Frames of fastwebsockets *)
Inductive OpCode : Type := Continuation | Text | Binary | Close | Ping | Pong.
Record Frame : Type := mkFrame { opcode : OpCode; frame_payload : list byte }.

End Net.
