(* ===== verification/NetServer.v ===== *)
(** The server side of the client stream: [handle_socket_concurrent] of
    [hiqlite/src/network/api.rs].

    Every request is served by a task of its own; a panic of the task only means that
    there is no response.  What the task calls on its node is the class [NodeApi]:
    openraft's [client_write] and [ensure_linearizable], the read pool, and the channels
    to the handlers; [None] is a call that never returns, as [client_write] does on a
    leader that lost its quorum.  [NodeApiOk] says which kind of answer they give; [db_typed] and
    [cache_typed] are discharged by the state machines below. *)
From stdpp Require Import base gmap strings list numbers.
From Stdlib Require Import Strings.Byte.
From S2P Require Import Prelude WalWriter KvCache DLock CacheSM SqlRows SqlBase SqlWriter SqlAgree SqlSM SqlQuery NetBase.
Import Net.

#[local] Open Scope Z_scope.

Module Server.

Class NodeApi : Type := {
  db_write : SqlSM.QueryWrite -> option (option Forward + SqlSM.Response);
  cache_write : CacheSM.CacheRequest -> option (option Forward + CacheSM.CacheResponse);
  ensure_linearizable : option (option Forward + unit);
  local_query : Sql.Query -> Res SqlError (list Rows.RowOwned);
  cache_count : nat;
  cache_get : nat -> string -> option (list byte);
  lock_await : string -> Z -> option DLock.LockState;
}.

(** The variant of the response that belongs to a request *)
Definition response_for (q : SqlSM.QueryWrite) (r : SqlSM.Response) : Prop :=
  match q, r with
  | SqlSM.Execute _, SqlSM.RExecute r => settled r
  | SqlSM.ExecuteReturning _, SqlSM.RExecuteReturning r => settled r
  | SqlSM.Transaction _, SqlSM.RTransaction r => settled r
  | SqlSM.Batch _, SqlSM.RBatch r => settled r
  | SqlSM.Migration _, SqlSM.RMigrate r => settled r
  | SqlSM.Backup _ _, SqlSM.RBackup r => settled r
  | SqlSM.RTT, SqlSM.RRTT => True
  | _, _ => False
  end.

Definition cache_response_for (req : CacheSM.CacheRequest) (r : CacheSM.CacheResponse) : Prop :=
  match req, r with
  | (CacheSM.Put _ _ _ _ | CacheSM.Delete _ _ | CacheSM.Clear _ | CacheSM.ClearCounters _ | CacheSM.ClearAll
     | CacheSM.Notify _ | CacheSM.CounterSet _ _ _ | CacheSM.CounterDel _ _), CacheSM.ROk => True
  | (CacheSM.GetRemove _ _ | CacheSM.Replace _ _ _ _), CacheSM.RValue _ => True
  | CacheSM.CounterAdd _ _ _, CacheSM.RCounterValue (Some _) => True
  | CacheSM.Lock _ _, CacheSM.RLock (DLock.Locked _ | DLock.Queued _) => True
  | CacheSM.LockAlive _ _, CacheSM.RLock (DLock.Locked _ | DLock.Released) => True
  | CacheSM.LockRelease _ _, CacheSM.RLock DLock.Released => True
  | _, _ => False
  end.

(** The answers a waiting ticket can get *)
Definition await_answer (s : DLock.LockState) : Prop :=
  match s with DLock.Queued _ => False | _ => True end.

Class NodeApiOk `{NodeApi} : Prop := {
  db_typed : forall q r, db_write q = Some (inr r) -> response_for q r;
  cache_typed : forall req r, cache_write req = Some (inr r) -> cache_response_for req r;
  await_typed : forall key id s, lock_await key id = Some s -> await_answer s;
  query_typed : forall q, settled (local_query q);
}.

Section Server.
Context `{NodeApi}.

(** A call of the node, awaited without a timeout *)
Definition awaited {A} (o : option A) : Res unit A := match o with Some a => Ok a | None => OutOfFuel end.

(** [query_consistent_local] *)
Definition query_consistent_local (q : Sql.Query) : Res unit (Res ApiError (list Rows.RowOwned)) :=
  o ← awaited ensure_linearizable;
  mret match o with
       | inl fwd => Err (CheckIsLeaderError fwd)
       | inr _ => lift_error (local_query q)
       end.

(** The cache a request for the log addresses *)
Definition cache_idx (req : CacheSM.CacheRequest) : option nat :=
  match req with
  | CacheSM.Get i _ | CacheSM.Put i _ _ _ | CacheSM.GetRemove i _ | CacheSM.Replace i _ _ _ | CacheSM.Delete i _
  | CacheSM.Clear i | CacheSM.ClearCounters i | CacheSM.CounterGet i _ | CacheSM.CounterSet i _ _
  | CacheSM.CounterAdd i _ _ | CacheSM.CounterDel i _ => Some i
  | _ => None
  end.
Definition index_ok (req : CacheSM.CacheRequest) : bool :=
  match cache_idx req with Some i => Nat.ltb i cache_count | None => true end.

Definition write_kv (req : CacheSM.CacheRequest) : Res unit (Res ApiError CacheSM.CacheResponse) :=
  o ← awaited (cache_write req);
  mret match o with inr r => Ok r | inl fwd => Err (ClientWriteError fwd) end.

(** A write to the database, and the variant of the response the task expects *)
Definition write_db {A} (q : SqlSM.QueryWrite) (expect : SqlSM.Response -> option (Res SqlError A))
  (wrap : Res ApiError A -> ApiStreamResponsePayload) : Res unit ApiStreamResponsePayload :=
  o ← awaited (db_write q);
  match o with
  | inl fwd => Ok (wrap (Err (ClientWriteError fwd)))
  | inr resp => match expect resp with Some r => Ok (wrap (lift_error r)) | None => Panic end
  end.

(** The task that serves one request *)
Definition serve_payload (p : ApiStreamRequestPayload) : Res unit ApiStreamResponsePayload :=
  match p with
  | Execute q => write_db (SqlSM.Execute q) (fun r => match r with SqlSM.RExecute r => Some r | _ => None end) PExecute
  | ExecuteReturning q =>
      write_db (SqlSM.ExecuteReturning q) (fun r => match r with SqlSM.RExecuteReturning r => Some r | _ => None end) PExecuteReturning
  | Transaction qs => write_db (SqlSM.Transaction qs) (fun r => match r with SqlSM.RTransaction r => Some r | _ => None end) PTransaction
  | QueryConsistent q => r ← query_consistent_local q; Ok (PQueryConsistent r)
  | Batch sql => write_db (SqlSM.Batch sql) (fun r => match r with SqlSM.RBatch r => Some r | _ => None end) PBatch
  | Migrate migs => write_db (SqlSM.Migration migs) (fun r => match r with SqlSM.RMigrate r => Some r | _ => None end) PMigrate
  | Backup node ts => write_db (SqlSM.Backup node ts) (fun r => match r with SqlSM.RBackup r => Some r | _ => None end) PBackup
  | Query q => Ok (PQuery (lift_error (local_query q)))
  | KV req => if index_ok req then r ← write_kv req; Ok (PKV r) else Ok (PKV (Err (Other EError)))
  | KVGet req =>
      match req with
      | CacheSM.Get i key =>
          if Nat.ltb i cache_count then Ok (PKV (Ok (CacheSM.RValue (cache_get i key)))) else Ok (PKV (Err (Other EError)))
      | _ => Panic
      end
  | LockAwait req =>
      match req with CacheSM.LockAwait key id => s ← awaited (lock_await key id); Ok (PLock (Ok s)) | _ => Panic end
  | Notify req =>
      match req with
      | CacheSM.Notify payload =>
          o ← awaited (cache_write (CacheSM.Notify payload));
          Ok (PNotify match o with inr _ => Ok tt | inl fwd => Err (ClientWriteError fwd) end)
      | _ => Panic
      end
  end.
Definition serve_request (req : ApiStreamRequest) : Res unit ApiStreamResponse :=
  r ← serve_payload (payload req); mret (mkResponse (request_id req) r).

(** The reader of the socket: the request in a frame, or the end of the connection *)
Definition read_request `{ApiCodec} (f : Frame) : option ApiStreamRequest :=
  match opcode f with Binary => decode_request (frame_payload f) | _ => None end.
End Server.

(** ** What the state machines answer *)

Lemma answer_settled {T M A} (m : St SqlError (@SqlWriter.Writer T M) A) w r w' :
  SqlSM.answer m w = (Ok r, w') -> settled r.
Proof. unfold SqlSM.answer. by destruct (m w) as [[a|x| |] w1]; intros [= <- <-]. Qed.

(** The SQLite state machine answers a write with its variant. *)
Lemma apply_write_typed {T} `{Sql.SqlEngine T} `{Rows.RowLib} {M} `{!SqlWriter.MetaCodec (M := M)}
    (env : SqlWriter.Env) l q (w w' : @SqlWriter.Writer T M) r :
  SqlSM.apply_write env l q w = (Ok r, w') -> response_for q r.
Proof.
  destruct q; simpl; step_st;
    try (match goal with |- context [SqlSM.answer ?m w] => destruct (SqlSM.answer m w) as [[a|x| |] w1] eqn:E end;
         intros Hr; inversion Hr; subst; exact (answer_settled _ _ _ _ E)).
  by intros [= <- <-].
Qed.

(** The lock handler says [Queued] only to the request that queues. *)
Definition queued (s : DLock.LockState) : Prop := match s with DLock.Queued _ => True | _ => False end.
Lemma wake_answers front key w a s : (a, s) ∈ (DLock.wake front key w).2 -> s = DLock.Locked front.
Proof.
  unfold DLock.wake. destruct (w !! key) as [l|]; cbn; [|by intros ?%elem_of_nil].
  intros (e & [= -> ->] & _)%list_elem_of_fmap. done.
Qed.
Lemma promote_answers now lock w key a s : (a, s) ∈ (DLock.promote now lock w key).2 -> exists id, s = DLock.Locked id.
Proof.
  unfold DLock.promote. destruct (DLock.queue lock) as [|front rest]; [by intros ?%elem_of_nil|].
  destruct (DLock.is_free lock now); [|by intros ?%elem_of_nil].
  pose proof (wake_answers front key w a s) as Hw. destruct (DLock.wake front key w). eauto.
Qed.
Lemma promote_key_answers now key st a s : (a, s) ∈ (DLock.promote_key now key st).2 -> exists id, s = DLock.Locked id.
Proof.
  unfold DLock.promote_key. destruct (DLock.locks st !! key) as [lock|]; [|by intros ?%elem_of_nil].
  pose proof (promote_answers now lock (DLock.waiters st) key a s) as Hp. by destruct (DLock.promote now lock (DLock.waiters st) key) as [[]].
Qed.

Definition answer_kind (req : DLock.LockRequest) (a : nat) (s : DLock.LockState) : Prop :=
  match req with
  | DLock.Lock _ _ ack | DLock.Acquire _ _ ack => s <> DLock.Released /\ (queued s -> a = ack)
  | _ => ~ queued s
  end.

#[local] Ltac split_answers :=
  repeat match goal with
  | H : (_, _) ∈ _ ++ _ |- _ => apply elem_of_app in H as [H|H]
  | H : _ ∈ [_] |- _ => apply list_elem_of_singleton in H; simplify_eq
  | H : _ ∈ [] |- _ => by apply elem_of_nil in H
  end.

Lemma handle_request_answers n1 n2 req st a s :
  (a, s) ∈ (DLock.handle_request n1 n2 req st).2 -> answer_kind req a s.
Proof.
  destruct req as [key id ack|key id ack|key id|key id ack|key id ack|data]; simpl.
  - unfold DLock.handle_lock. pose proof (promote_key_answers n1 key st a s) as Hp. destruct (DLock.promote_key n1 key st) as [st1 out].
    destruct (DLock.locks st1 !! key) as [lock|]; [destruct (_ || _)|]; simpl; intros Hin; split_answers; try done; by destruct (Hp Hin) as [? ->].
  - unfold DLock.handle_acquire. pose proof (promote_key_answers n1 key st a s) as Hp. destruct (DLock.promote_key n1 key st) as [st1 out].
    destruct (DLock.locks st1 !! key) as [lock|]; [destruct (_ && _); [|destruct (_ || _)]|]; simpl; intros Hin; split_answers; try done;
      by destruct (Hp Hin) as [? ->].
  - unfold DLock.handle_release. destruct (DLock.locks st !! key) as [lock|]; [|simpl; intros Hin; split_answers].
    destruct (bool_decide _); [|simpl; intros Hin; split_answers].
    pose proof (promote_answers n1 (DLock.mkLock None (DLock.exp lock) (DLock.queue lock)) (DLock.waiters st) key a s) as Hp.
    destruct (DLock.promote n1 _ _ key) as [[lock' w] out]. destruct (_ && _); simpl; intros Hin; split_answers;
      try (destruct (Hp Hin) as [? ->]; intros []). apply list_elem_of_fmap in Hin as (? & [= -> ->] & _). intros [].
  - unfold DLock.handle_alive. destruct (DLock.locks st !! key) as [lock|]; [destruct (bool_decide _)|]; simpl; intros Hin; split_answers; intros [].
  - unfold DLock.handle_await. pose proof (promote_key_answers n1 key st a s) as Hp. destruct (DLock.promote_key n1 key st) as [st1 out].
    destruct (DLock.locks st1 !! key) as [lock|]; [destruct (_ && _); [|destruct (DLock.is_free _ _); [|destruct (bool_decide _)]]|];
      simpl; intros Hin; split_answers; try intros []; destruct (Hp Hin) as [? ->]; intros [].
  - intros (? & [= -> ->] & _)%list_elem_of_fmap. intros [].
Qed.

Lemma answer_for_in ack out s : CacheSM.answer_for ack out = Some s -> (ack, s) ∈ out.
Proof.
  unfold CacheSM.answer_for. destruct (list_find _ out) as [[i e]|] eqn:E; [|done]. intros [= <-].
  apply list_find_Some in E as (Hl & <- & _). destruct e. by eapply list_elem_of_lookup_2.
Qed.
Lemma lock_call_kind {M} t mk (m m' : CacheSM.StateMachineMemory (M := M)) s :
  CacheSM.lock_call t mk m = (Ok s, m') -> exists ack, answer_kind (mk ack) ack s.
Proof.
  unfold CacheSM.lock_call. pose proof (handle_request_answers t.1 t.2 (mk (CacheSM.next_ack m)) (CacheSM.dlock m) (CacheSM.next_ack m)) as Hh.
  destruct (DLock.handle_request _ _ _ _) as [st out]. destruct (CacheSM.answer_for _ out) as [x|] eqn:E; [|done].
  intros [= <- _]. exists (CacheSM.next_ack m). by apply Hh, answer_for_in.
Qed.

(** The cache state machine answers a request with its variant. *)
Lemma apply_request_typed {M} clk closed id req (m m' : CacheSM.StateMachineMemory (M := M)) r :
  CacheSM.apply_request clk closed id req m = (Ok r, m') -> cache_response_for req r.
Proof.
  destruct req as [ | | | | | | | | |key [log_id|]| | | | | | | ]; cbn -[CacheSM.send_cache CacheSM.lock_call CacheSM.lock_send CacheSM.clear_all CacheSM.send_notify];
    intros Hr; try done; repeat (apply st_bind_inv in Hr as (? & ? & ? & Hr)).
  all: try (by inversion Hr).
  4: by destruct x1; inversion Hr.
  all: match goal with Hc : CacheSM.lock_call _ _ _ = _ |- _ => apply lock_call_kind in Hc as (ack & Hk) end.
  all: inversion Hr; subst; destruct x; try done; by destruct Hk.
Qed.

(** ** What the server answers *)

(** The requests the calls of a client make: a read of the cache is a value or a counter *)
Definition issued (p : ApiStreamRequestPayload) : bool :=
  match p with
  | KVGet (CacheSM.Get _ _ | CacheSM.CounterGet _ _) => true
  | KVGet _ => false
  | LockAwait (CacheSM.LockAwait _ _) => true
  | LockAwait _ => false
  | Notify (CacheSM.Notify _) => true
  | Notify _ => false
  | _ => true
  end.

(** The response the client of a request expects *)
Definition payload_for (p : ApiStreamRequestPayload) (r : ApiStreamResponsePayload) : Prop :=
  match p, r with
  | Execute _, PExecute r => settled r
  | ExecuteReturning _, PExecuteReturning r => settled r
  | Transaction _, PTransaction r => settled r
  | QueryConsistent _, PQueryConsistent r => settled r
  | Batch _, PBatch r => settled r
  | Migrate _, PMigrate r => settled r
  | Backup _ _, PBackup r => settled r
  | Query _, PQuery r => settled r
  | KV req, PKV r => settled r /\ forall c, r = Ok c -> cache_response_for req c
  | KVGet _, PKV r => settled r /\ forall c, r = Ok c -> exists v, c = CacheSM.RValue v
  | LockAwait _, PLock r => exists s, r = Ok s /\ await_answer s
  | Notify _, PNotify r => settled r
  | _, _ => False
  end.

Lemma lift_settled {A} (r : Res SqlError A) : settled r -> settled (lift_error r).
Proof. by destruct r. Qed.

(** A read of a counter, which the tasks of the server do not know *)
Definition counter_read (p : ApiStreamRequestPayload) : Prop := exists i key, p = KVGet (CacheSM.CounterGet i key).

Section Typed.
Context `{NodeApi}.

(** The call of the node that a request waits for never returns. *)
Definition stuck (p : ApiStreamRequestPayload) : Prop :=
  match p with
  | Execute q => db_write (SqlSM.Execute q) = None
  | ExecuteReturning q => db_write (SqlSM.ExecuteReturning q) = None
  | Transaction qs => db_write (SqlSM.Transaction qs) = None
  | Batch sql => db_write (SqlSM.Batch sql) = None
  | Migrate migs => db_write (SqlSM.Migration migs) = None
  | Backup node ts => db_write (SqlSM.Backup node ts) = None
  | QueryConsistent _ => ensure_linearizable = None
  | KV req | Notify req => cache_write req = None
  | LockAwait (CacheSM.LockAwait key id) => lock_await key id = None
  | _ => False
  end.

Definition typed (P : ApiStreamResponsePayload -> Prop) (st : Prop) (o : Res unit ApiStreamResponsePayload) : Prop :=
  match o with Ok r => P r | OutOfFuel => st | _ => False end.

Context `{!NodeApiOk}.

Lemma write_db_typed {A} q (expect : SqlSM.Response -> option (Res SqlError A)) wrap (P : ApiStreamResponsePayload -> Prop) :
  (forall r, response_for q r -> exists x, expect r = Some x /\ settled x) -> (forall r, settled r -> P (wrap r)) ->
  typed P (db_write q = None) (write_db q expect wrap).
Proof.
  intros He Hw. unfold write_db. destruct (db_write q) as [[fwd|resp]|] eqn:E; [by apply Hw| |done].
  simpl. destruct (He resp (db_typed q resp E)) as (x & -> & Hx). by apply Hw, lift_settled.
Qed.

Lemma serve_typed p : issued p = true -> counter_read p \/ typed (payload_for p) (stuck p) (serve_payload p).
Proof.
  intros Hs. destruct p as [q|q|qs|q|sql|migs|node ts|req|q|req|req|req].
  1-3,5-7: right; apply write_db_typed; [intros [] Hr; simpl in Hr; try done; by eauto|done].
  - right. simpl. unfold query_consistent_local. destruct ensure_linearizable as [[]|]; simpl; try done. apply lift_settled, query_typed.
  - right. simpl. destruct (index_ok req); [|by split]. unfold write_kv. destruct (cache_write req) as [[fwd|r]|] eqn:E; simpl; try done.
    split; [done|]. intros c [= <-]. by apply cache_typed.
  - right. apply lift_settled, query_typed.
  - destruct req; try done; [|left; by eexists _, _]. right. simpl. destruct (Nat.ltb _ _); (split; [done|]); [|done]. intros c [= <-]. eauto.
  - right. destruct req; try done. simpl. destruct (lock_await _ _) as [st|] eqn:E; simpl; [|done]. eexists. split; [done|]. by eapply await_typed.
  - right. destruct req; try done. simpl. by destruct (cache_write _) as [[]|].
Qed.
End Typed.

(** ** A node whose answers are those of its state machines *)
Section Machines.
Context {T : Type} `{Sql.SqlEngine T} `{Rows.RowLib} `{SqlQuery.ReadEngine T} {M : Type} `{!SqlWriter.MetaCodec (M := M)} {M' : Type}.

(** The reply channel of a request that waits for its turn *)
Definition waits (req : DLock.LockRequest) (a : nat) : Prop :=
  match req with DLock.Lock _ _ ack | DLock.Acquire _ _ ack => a <> ack | _ => True end.

Record from_machines `{NodeApi} : Prop := {
  db_from : forall q r, db_write q = Some (inr r) ->
    exists env l (w w' : @SqlWriter.Writer T M), SqlSM.apply_write env l q w = (Ok r, w');
  cache_from : forall req r, cache_write req = Some (inr r) ->
    exists clk closed id (m m' : CacheSM.StateMachineMemory (M := M')), CacheSM.apply_request clk closed id req m = (Ok r, m');
  await_from : forall key id s, lock_await key id = Some s -> exists n1 n2 req st a, (a, s) ∈ (DLock.handle_request n1 n2 req st).2 /\ waits req a;
  query_from : forall q, exists pool (u : Sql.UserDb T), local_query q = SqlQuery.query_owned_local pool q u;
}.

Lemma from_machines_ok `{NodeApi} : from_machines -> NodeApiOk.
Proof.
  intros [Hd Hc Ha Hq]. split.
  - intros q r (env & l & w & w' & Hr)%Hd. by eapply apply_write_typed.
  - intros req r (clk & closed & id & m & m' & Hr)%Hc. by eapply apply_request_typed.
  - intros key id s Hs. destruct (Ha key id s Hs) as (n1 & n2 & req & st & a & Hin%handle_request_answers & Hw).
    destruct s; try done. destruct req; simpl in *; try (by apply Hin); destruct Hin as [_ Hin]; by apply Hw, Hin.
  - intros q. destruct (Hq q) as (pool & u & ->). destruct (SqlQuery.query_owned_settled pool q u) as [[rows ->]|[e ->]]; done.
Qed.
End Machines.
End Server.
