(* ===== verification/NetStream.v ===== *)
(** The manager of the client stream: [client_stream] of
    [hiqlite/src/client/stream.rs], with its reader and its writer task.

    The manager is a state machine over the events its loops wait for: the result of a
    connection attempt, a message from one of the two channels, the keepalive tick, the
    read timeout, and, when a connection has ended, what is left in the channel of the
    reader.  A reply channel is its number; [answered] and [dropped] record what the
    manager did with the channels, [wire] what it handed to the writer task.  The clock
    is an argument, in milliseconds.  The select of the source takes ready branches in
    any order, so any sequence of enabled events is a run. *)
From stdpp Require Import base gmap strings list numbers.
From Stdlib Require Import Strings.Byte.
From S2P Require Import Prelude CacheSM SqlRows SqlBase SqlSM NetBase.

#[local] Open Scope Z_scope.

Module Stream.
Import Net.

Definition STREAM_READ_TIMEOUT : Z := 35000.
Definition RECONNECT_FAST_RETRIES : Z := 5.
Definition RECONNECT_SLOW_INTERVAL : Z := 5000.

(** A request of a client: its payload on the wire, its id and its reply channel *)
Record ClientPayload : Type := mkPayload { client_request : ApiStreamRequest; ack : nat }.

(** [ClientStreamReq]: the twelve kinds of requests differ in the payload only. *)
Inductive ClientStreamReq : Type :=
| Request (p : ClientPayload)
| Shutdown
| StreamResponse (resp : ApiStreamResponse)
| CleanupBuffer
| Liveness
| LeaderChange (id : option Z) (node : option Node).

Abbreviation Answer := (Res ApiError ApiStreamResponsePayload).

Inductive WritePayload : Type := Payload (bytes : list byte) | CloseFrame | PingFrame.

Inductive Phase : Type := Connecting | Connected | Draining | Stopped.
#[export] Instance Phase_eqdec : EqDecision Phase.
Proof. solve_decision. Defined.

Record Manager : Type := mkManager {
  phase : Phase;
  in_flight : gmap Z nat;
  in_flight_buf : gmap Z nat;
  awaiting_timeout : bool;
  last_frame : Z;
  shutdown : bool;
  failed_retries : Z;
  leader : Z * string;
  answered : list (nat * Answer);
  dropped : list nat;
  wire : list WritePayload;
}.

(** What the loops wait for.  [sent]: the writer task takes the message. *)
Inductive Event : Type :=
| EvConnected (now : Z)
| EvConnectFailed (found : option (Z * string))
| EvRecv (now : Z) (sent : bool) (req : ClientStreamReq)
| EvRecvError (clients_gone sent : bool)
| EvKeepalive (sent : bool)
| EvReadTimeout (now : Z)
| EvDrained (req : ClientStreamReq)
| EvReaderClosed.

(** ** Pieces of the state *)
Section Fields.
Context (m : Manager).
Definition set_phase (p : Phase) : Manager :=
  mkManager p (in_flight m) (in_flight_buf m) (awaiting_timeout m) (last_frame m) (shutdown m) (failed_retries m) (leader m) (answered m) (dropped m) (wire m).
Definition set_flight (f b : gmap Z nat) : Manager :=
  mkManager (phase m) f b (awaiting_timeout m) (last_frame m) (shutdown m) (failed_retries m) (leader m) (answered m) (dropped m) (wire m).
Definition set_awaiting (a : bool) : Manager :=
  mkManager (phase m) (in_flight m) (in_flight_buf m) a (last_frame m) (shutdown m) (failed_retries m) (leader m) (answered m) (dropped m) (wire m).
Definition set_frame (t : Z) : Manager :=
  mkManager (phase m) (in_flight m) (in_flight_buf m) (awaiting_timeout m) t (shutdown m) (failed_retries m) (leader m) (answered m) (dropped m) (wire m).
Definition set_shutdown : Manager :=
  mkManager (phase m) (in_flight m) (in_flight_buf m) (awaiting_timeout m) (last_frame m) true (failed_retries m) (leader m) (answered m) (dropped m) (wire m).
Definition set_retries (n : Z) : Manager :=
  mkManager (phase m) (in_flight m) (in_flight_buf m) (awaiting_timeout m) (last_frame m) (shutdown m) n (leader m) (answered m) (dropped m) (wire m).
Definition set_leader (l : Z * string) : Manager :=
  mkManager (phase m) (in_flight m) (in_flight_buf m) (awaiting_timeout m) (last_frame m) (shutdown m) (failed_retries m) l (answered m) (dropped m) (wire m).
Definition add_answers (l : list (nat * Answer)) : Manager :=
  mkManager (phase m) (in_flight m) (in_flight_buf m) (awaiting_timeout m) (last_frame m) (shutdown m) (failed_retries m) (leader m) (answered m ++ l) (dropped m) (wire m).
Definition add_dropped (l : list nat) : Manager :=
  mkManager (phase m) (in_flight m) (in_flight_buf m) (awaiting_timeout m) (last_frame m) (shutdown m) (failed_retries m) (leader m) (answered m) (dropped m ++ l) (wire m).
Definition add_wire (p : WritePayload) : Manager :=
  mkManager (phase m) (in_flight m) (in_flight_buf m) (awaiting_timeout m) (last_frame m) (shutdown m) (failed_retries m) (leader m) (answered m) (dropped m) (wire m ++ [p]).
End Fields.

(** The reply channels a map holds *)
Definition acks (f : gmap Z nat) : list nat := (map_to_list f).*2.

(** [HashMap::insert], which drops the channel that was there *)
Definition insert_ack (id : Z) (a : nat) (f : gmap Z nat) : gmap Z nat * list nat :=
  (<[id := a]> f, match f !! id with Some b => [b] | None => [] end).

(** [for (_, ack) in in_flight.drain() { ack.send(Err(err)) }] *)
Definition fail_in_flight (e : ApiError) (m : Manager) : Manager :=
  add_answers (set_flight m ∅ (in_flight_buf m)) ((fun a => (a, Err e)) <$> acks (in_flight m)).

(** [update_leader] *)
Definition update_leader (id : option Z) (node : option Node) (m : Manager) : Manager :=
  match id, node with
  | Some leader_id, Some node => set_leader m (leader_id, addr_api node)
  | _, _ => m
  end.

(** [try_forward_response] *)
Definition try_forward_response (awaiting : bool) (resp : ApiStreamResponse) (m : Manager) : Manager :=
  let id := response_id resp in
  match in_flight m !! id with
  | Some a => add_answers (set_flight m (delete id (in_flight m)) (in_flight_buf m)) [(a, Ok (result resp))]
  | None =>
      if awaiting then
        match in_flight_buf m !! id with
        | Some a => add_answers (set_flight m (in_flight m) (delete id (in_flight_buf m))) [(a, Ok (result resp))]
        | None => m
        end
      else m
  end.

Section Manager.
Context `{ApiCodec}.

(** The body of the inner loop for a message *)
Definition on_message (now : Z) (sent : bool) (req : ClientStreamReq) (m : Manager) : Manager :=
  match req with
  | Request p =>
      let r := client_request p in
      if sent then
        let '(f, old) := insert_ack (request_id r) (ack p) (in_flight m) in
        add_dropped (set_flight (add_wire m (Payload (encode_request r))) f (in_flight_buf m)) old
      else set_phase (add_answers m [(ack p, Err Connect)]) Draining
  | LeaderChange id node =>
      let m := if sent then add_wire m CloseFrame else m in
      set_phase (fail_in_flight Net.LeaderChange (update_leader id node m)) Draining
  | StreamResponse resp => try_forward_response (awaiting_timeout m) resp (set_frame m now)
  | Liveness => set_frame m now
  | CleanupBuffer =>
      set_awaiting (add_answers (set_flight m (in_flight m) ∅) ((fun a => (a, Err Connect)) <$> acks (in_flight_buf m))) false
  | Shutdown => set_phase (set_shutdown m) Draining
  end.

(** What is left in the channel of the reader; only the reader and the cleanup task
    send there. *)
Definition on_leftover (req : ClientStreamReq) (m : Manager) : Res ApiError Manager :=
  match req with
  | Request _ | Shutdown => Panic
  | LeaderChange id node => Ok (update_leader id node m)
  | StreamResponse resp => Ok (try_forward_response false resp m)
  | CleanupBuffer | Liveness => Ok m
  end.

(** [for (req_id, ack) in in_flight.drain() { in_flight_buf.insert(req_id, ack) }] *)
Definition buffer_in_flight (m : Manager) : Manager :=
  let '(b, old) := foldl (fun acc e => let '(b, old) := insert_ack e.1 e.2 acc.1 in (b, acc.2 ++ old)) (in_flight_buf m, []) (map_to_list (in_flight m)) in
  add_dropped (set_flight m ∅ b) old.

(** The end of a connection: the next attempt, or the end of the task *)
Definition on_closed (m : Manager) : Manager :=
  if shutdown m then set_phase (add_dropped (set_flight m ∅ ∅) (acks (in_flight m) ++ acks (in_flight_buf m))) Stopped
  else set_phase (buffer_in_flight m) Connecting.

(** [None]: the event cannot happen in the state. *)
Definition on_event (e : Event) (m : Manager) : option (Res ApiError Manager) :=
  match phase m, e with
  | Connecting, EvConnected now =>
      Some (Ok (set_phase (set_awaiting (set_frame (set_retries m 0) now) true) Connected))
  | Connecting, EvConnectFailed found =>
      Some (Ok (set_retries (match found with Some l => set_leader m l | None => m end) (wrap32 (failed_retries m + 1))))
  | Connected, EvRecv now sent req => Some (Ok (on_message now sent req m))
  | Connected, EvRecvError clients_gone sent =>
      Some (Ok (set_phase (if clients_gone then set_shutdown (if sent then add_wire m CloseFrame else m) else m) Draining))
  | Connected, EvKeepalive true => Some (Ok (add_wire m PingFrame))
  | Connected, EvKeepalive false => Some (Ok (set_phase (fail_in_flight Connect m) Draining))
  | Connected, EvReadTimeout now =>
      if STREAM_READ_TIMEOUT <=? now - last_frame m then Some (Ok (set_phase (fail_in_flight Connect m) Draining)) else None
  | Draining, EvDrained req => Some (on_leftover req m)
  | Draining, EvReaderClosed => Some (Ok (on_closed m))
  | _, _ => None
  end.

Inductive run : Manager -> list Event -> Manager -> Prop :=
| run_nil m : run m [] m
| run_step m e m1 es m2 : on_event e m = Some (Ok m1) -> run m1 es m2 -> run m (e :: es) m2.

(** The wait before the next attempt, in milliseconds *)
Definition reconnect_interval (m : Manager) : Z :=
  if failed_retries m <? RECONNECT_FAST_RETRIES then 1000 else RECONNECT_SLOW_INTERVAL.

Definition start (l : Z * string) : Manager := mkManager Connecting ∅ ∅ false 0 false 0 l [] [] [].

(** ** The other tasks *)

(** [stream_reader]: what a frame becomes; [None] ends the task. *)
Definition read_frame (f : Frame) : option (option ClientStreamReq) :=
  match opcode f with
  | Continuation | Text => Some None
  | Binary => match decode_response (frame_payload f) with Some r => Some (Some (StreamResponse r)) | None => None end
  | Close => None
  | Ping | Pong => Some (Some Liveness)
  end.

(** [stream_writer]: the frames for what it receives, up to the first [Close] *)
Fixpoint write_frames (ps : list WritePayload) : list Frame :=
  match ps with
  | [] => []
  | Payload bytes :: ps => mkFrame Binary bytes :: write_frames ps
  | PingFrame :: ps => mkFrame Ping [] :: write_frames ps
  | CloseFrame :: _ => [mkFrame Close []]
  end.
End Manager.
End Stream.
