(* ===== verification/NetStreamSpec.v ===== *)
(** The client stream: no reply channel is lost or used twice, answers go to the request
    they belong to, and no request is sent twice. *)
From stdpp Require Import base gmap strings list numbers sorting.
From Stdlib Require Import Strings.Byte.
From S2P Require Import Prelude NetBase NetStream.
Import Net Stream.

#[local] Open Scope Z_scope.
#[local] Arguments insert_ack : simpl never.

(** ** Reply channels in maps *)
Lemma acks_delete f id a : f !! id = Some a -> acks f ≡ₚ a :: acks (delete id f).
Proof. intros Hf. unfold acks. by rewrite <- (map_to_list_delete f id a Hf). Qed.

Lemma acks_insert f id a : f !! id = None -> acks (<[id := a]> f) ≡ₚ a :: acks f.
Proof. intros Hf. unfold acks. by rewrite map_to_list_insert. Qed.

Lemma insert_ack_acks id a f f' old : insert_ack id a f = (f', old) -> acks f' ++ old ≡ₚ a :: acks f.
Proof.
  unfold insert_ack. destruct (f !! id) as [b|] eqn:E; intros [= <- <-].
  - rewrite <- insert_delete_eq, acks_insert by apply lookup_delete_eq. rewrite (acks_delete f id b E).
    solve_Permutation.
  - by rewrite acks_insert, app_nil_r.
Qed.

Lemma acks_empty : acks ∅ = [].
Proof. unfold acks. by rewrite map_to_list_empty. Qed.

Definition merge_ack (acc : gmap Z nat * list nat) (e : Z * nat) : gmap Z nat * list nat :=
  let '(b, old) := insert_ack e.1 e.2 acc.1 in (b, acc.2 ++ old).
Lemma merge_acks l : forall acc,
  acks (foldl merge_ack acc l).1 ++ (foldl merge_ack acc l).2 ≡ₚ acks acc.1 ++ acc.2 ++ l.*2.
Proof.
  induction l as [|[id a] l IH]; intros [b old]; [simpl; by rewrite app_nil_r|].
  rewrite fmap_cons. cbn [foldl fst snd]. rewrite IH. unfold merge_ack. cbn [fst snd]. destruct (insert_ack id a b) as [b' o] eqn:E. cbn [fst snd].
  apply insert_ack_acks in E. transitivity ((acks b' ++ o) ++ old ++ l.*2); [solve_Permutation|]. rewrite E. solve_Permutation.
Qed.

(** ** Conservation *)
Section Conserve.
Context `{ApiCodec}.

(** The channels an event hands to the manager, and those it is done with or holds *)
Definition taken (e : Event) : list nat :=
  match e with EvRecv _ _ (Request p) => [ack p] | _ => [] end.
Definition held (m : Manager) : list nat :=
  (answered m).*1 ++ dropped m ++ acks (in_flight m) ++ acks (in_flight_buf m).

Lemma fst_fail e l : ((fun a : nat => (a, Err e : Answer)) <$> l).*1 = l.
Proof. induction l as [|a l IH]; [done|]. simpl. by f_equal. Qed.

Lemma held_fail e m : held (fail_in_flight e m) ≡ₚ held m.
Proof. unfold held. simpl. rewrite fmap_app, fst_fail, acks_empty. solve_Permutation. Qed.

Lemma held_forward aw resp m : held (try_forward_response aw resp m) ≡ₚ held m.
Proof.
  unfold try_forward_response. destruct (in_flight m !! response_id resp) as [a|] eqn:E.
  - unfold held. simpl. rewrite fmap_app. simpl. rewrite (acks_delete (in_flight m) _ a E). solve_Permutation.
  - destruct aw; [|done]. destruct (in_flight_buf m !! response_id resp) as [a|] eqn:E2; [|done].
    unfold held. simpl. rewrite fmap_app. simpl. rewrite (acks_delete (in_flight_buf m) _ a E2). solve_Permutation.
Qed.

Lemma held_leader id node m : held (update_leader id node m) = held m.
Proof. by destruct id, node. Qed.

Lemma held_message now sent req m : held (on_message now sent req m) ≡ₚ taken (EvRecv now sent req) ++ held m.
Proof.
  destruct req as [p| |resp| | |id node]; cbn [on_message taken].
  - destruct sent.
    + destruct (insert_ack (request_id (client_request p)) (ack p) (in_flight m)) as [f old] eqn:E. apply insert_ack_acks in E. unfold held. simpl.
      transitivity ((answered m).*1 ++ dropped m ++ (acks f ++ old) ++ acks (in_flight_buf m)); [solve_Permutation|].
      rewrite E. solve_Permutation.
    + unfold held. simpl. rewrite fmap_app. simpl. solve_Permutation.
  - done.
  - apply held_forward.
  - unfold held. simpl. rewrite fmap_app, fst_fail, acks_empty. solve_Permutation.
  - done.
  - transitivity (held (fail_in_flight Net.LeaderChange (update_leader id node (if sent then add_wire m CloseFrame else m)))); [done|].
    rewrite held_fail, held_leader. by destruct sent.
Qed.

Lemma buffer_eq m :
  buffer_in_flight m = add_dropped (set_flight m ∅ (foldl merge_ack (in_flight_buf m, []) (map_to_list (in_flight m))).1)
    (foldl merge_ack (in_flight_buf m, []) (map_to_list (in_flight m))).2.
Proof. unfold buffer_in_flight. fold merge_ack. by destruct (foldl merge_ack _ _). Qed.

Lemma held_closed m : held (on_closed m) ≡ₚ held m.
Proof.
  unfold on_closed. destruct (shutdown m).
  - unfold held. simpl. rewrite acks_empty. solve_Permutation.
  - rewrite buffer_eq. unfold held. simpl. pose proof (merge_acks (map_to_list (in_flight m)) (in_flight_buf m, [])) as Hm.
    simpl in Hm. set (r := foldl merge_ack _ _) in *. rewrite acks_empty.
    transitivity ((answered m).*1 ++ dropped m ++ (acks r.1 ++ r.2)); [solve_Permutation|]. rewrite Hm. unfold acks. solve_Permutation.
Qed.

Lemma held_event e m m' : on_event e m = Some (Ok m') -> held m' ≡ₚ taken e ++ held m.
Proof.
  unfold on_event. destruct (phase m), e as [now|found|now sent req|gone sent|[]|now|req|]; try done.
  - by intros [= <-].
  - intros [= <-]. by destruct found.
  - intros [= <-]. apply held_message.
  - intros [= <-]. by destruct gone, sent.
  - by intros [= <-].
  - intros [= <-]. apply held_fail.
  - destruct (_ <=? _); [|done]. intros [= <-]. apply held_fail.
  - intros [= Hl]. destruct req; simpl in Hl; simplify_eq; [apply held_forward|done|done|by rewrite held_leader].
  - intros [= <-]. apply held_closed.
Qed.

(** Every channel the manager took is answered, dropped or waiting, exactly once. *)
Lemma run_conserves m es m' : run m es m' -> held m' ≡ₚ concat (taken <$> es) ++ held m.
Proof.
  induction 1 as [m|m e m1 es m2 He Hr IH]; [done|]. rewrite IH, (held_event e m m1 He). simpl. solve_Permutation.
Qed.
End Conserve.

(** ** Answers and requests *)
Section Match.
Context `{ApiCodec}.

(** The requests and the responses an event brings *)
Definition asked (e : Event) : list (Z * nat) :=
  match e with EvRecv _ _ (Request p) => [(request_id (client_request p), ack p)] | _ => [] end.
Definition replied (e : Event) : list ApiStreamResponse :=
  match e with EvRecv _ _ (StreamResponse r) | EvDrained (StreamResponse r) => [r] | _ => [] end.
Definition all_asked (es : list Event) : list (Z * nat) := concat (asked <$> es).
Definition all_replied (es : list Event) : list ApiStreamResponse := concat (replied <$> es).

Record matched (m : Manager) (reqs : list (Z * nat)) (resps : list ApiStreamResponse) : Prop := {
  flight_known : forall id a, in_flight m !! id = Some a -> (id, a) ∈ reqs;
  buffer_known : forall id a, in_flight_buf m !! id = Some a -> (id, a) ∈ reqs;
  answer_known : forall a r, (a, Ok r) ∈ answered m -> exists id, (id, a) ∈ reqs /\ mkResponse id r ∈ resps;
}.

(** Once the ids differ, nothing is dropped before the task ends. *)
Record unique (m : Manager) : Prop := {
  flight_apart : forall id a b, in_flight m !! id = Some a -> in_flight_buf m !! id = Some b -> False;
  nothing_dropped : phase m <> Stopped -> dropped m = [];
}.

Lemma matched_mono m reqs resps reqs' resps' :
  matched m reqs resps -> reqs ⊆ reqs' -> resps ⊆ resps' -> matched m reqs' resps'.
Proof. intros [Hf Hb Ha] Hr Hp. split; [eauto..|]. intros a r Hin. destruct (Ha a r Hin) as (id & Hi & Hj). eauto. Qed.

Lemma not_failed e (l : list nat) (a : nat) r : (a, Ok r : Answer) ∈ (fun b : nat => (b, Err e : Answer)) <$> l -> False.
Proof. intros (b & [=] & _)%list_elem_of_fmap. Qed.

Lemma merge_lookup l : forall acc id a,
  (foldl merge_ack acc l).1 !! id = Some a -> acc.1 !! id = Some a \/ (id, a) ∈ l.
Proof.
  induction l as [|[k v] l IH]; intros acc id a; [by left|]. simpl. intros [Hl|Hin]%IH; [|by right; right].
  unfold merge_ack, insert_ack in Hl. simpl in Hl. apply lookup_insert_Some in Hl as [[-> ->]|[_ Hl]]; [right; left|by left].
Qed.
Lemma merge_fresh l : forall acc, NoDup l.*1 -> (forall id a, (id, a) ∈ l -> acc.1 !! id = None) ->
  (foldl merge_ack acc l).2 = acc.2.
Proof.
  induction l as [|[k v] l IH]; intros [b old] Hnd Hfresh; [done|]. rewrite fmap_cons in Hnd. apply NoDup_cons in Hnd as [Hk Hnd].
  cbn [foldl]. rewrite IH; [|done|].
  - unfold merge_ack, insert_ack. simpl. pose proof (Hfresh k v ltac:(left)) as Hn. simpl in Hn. by rewrite Hn, app_nil_r.
  - intros id a Hin. unfold merge_ack, insert_ack. simpl. rewrite lookup_insert_ne.
    + apply (Hfresh id a). by right.
    + intros ->. apply Hk. apply list_elem_of_fmap. by exists (id, a).
Qed.

Lemma forward_matched aw resp m reqs resps :
  matched m reqs resps -> resp ∈ resps -> matched (try_forward_response aw resp m) reqs resps.
Proof.
  intros [Hf Hb Ha] Hin. unfold try_forward_response.
  destruct (in_flight m !! response_id resp) as [a|] eqn:E; [|destruct aw; [destruct (in_flight_buf m !! response_id resp) as [a|] eqn:E2|]].
  2-4: try done.
  - split; simpl; [by intros id b [_ ?]%lookup_delete_Some; apply Hf|done|].
    intros b r [Hr|Hr]%elem_of_app; [by apply Ha|]. apply list_elem_of_singleton in Hr. simplify_eq. exists (response_id resp). split; [by apply Hf|by destruct resp].
  - split; simpl; [done|by intros id b [_ ?]%lookup_delete_Some; apply Hb|].
    intros b r [Hr|Hr]%elem_of_app; [by apply Ha|]. apply list_elem_of_singleton in Hr. simplify_eq. exists (response_id resp). split; [by apply Hb|by destruct resp].
Qed.
Lemma forward_unique aw resp m : unique m -> unique (try_forward_response aw resp m).
Proof.
  intros [Hx Hd]. unfold try_forward_response.
  destruct (in_flight m !! response_id resp) as [a|] eqn:E; [|destruct aw; [destruct (in_flight_buf m !! response_id resp) as [a|] eqn:E2|]]; try done;
    split; try done; simpl; intros id b c.
  - intros [_ ?]%lookup_delete_Some ?. eauto.
  - intros ? [_ ?]%lookup_delete_Some. eauto.
Qed.

Lemma fail_matched e m reqs resps : matched m reqs resps -> matched (fail_in_flight e m) reqs resps.
Proof.
  intros [Hf Hb Ha]. split; simpl; [by intros id a|done|].
  intros a r [Hr|Hr]%elem_of_app; [by apply Ha|by apply not_failed in Hr].
Qed.
Lemma fail_unique e m : unique m -> unique (fail_in_flight e m).
Proof. intros [Hx Hd]. split; [|done]. by intros id a b. Qed.

Lemma message_matched now sent req m reqs resps :
  matched m reqs resps ->
  matched (on_message now sent req m) (reqs ++ asked (EvRecv now sent req)) (resps ++ replied (EvRecv now sent req)).
Proof.
  intros Hm. assert (matched m (reqs ++ asked (EvRecv now sent req)) (resps ++ replied (EvRecv now sent req))) as Hm'.
  { apply (matched_mono m reqs resps); [done|set_solver..]. }
  destruct req as [p| |resp| | |id node]; cbn [on_message].
  - destruct Hm' as [Hf Hb Ha]. destruct sent; simpl.
    + split; simpl; [|done|done]. intros id a [[<- <-]|[_ Hl]]%lookup_insert_Some; [set_solver|by apply Hf].
    + split; simpl; [done|done|]. intros a r [Hr|Hr]%elem_of_app; [by apply Ha|]. apply list_elem_of_singleton in Hr. simplify_eq.
  - by destruct Hm'.
  - apply forward_matched; [|set_solver]. by destruct Hm' as [Hf Hb Ha].
  - destruct Hm' as [Hf Hb Ha]. split; simpl; [done|by intros id a|].
    intros a r [Hr|Hr]%elem_of_app; [by apply Ha|by apply not_failed in Hr].
  - by destruct Hm' as [Hf Hb Ha].
  - apply (fail_matched Net.LeaderChange (set_phase (update_leader id node (if sent then add_wire m CloseFrame else m)) Draining)).
    destruct Hm' as [Hf Hb Ha]. by destruct sent, id, node.
Qed.

Lemma closed_matched m reqs resps : matched m reqs resps -> matched (on_closed m) reqs resps.
Proof.
  intros [Hf Hb Ha]. unfold on_closed. destruct (shutdown m).
  - split; simpl; [by intros|by intros|done].
  - rewrite buffer_eq. split; simpl; [by intros| |done].
    intros id a [Hl|Hl]%merge_lookup; [by apply Hb|apply Hf]. by apply elem_of_map_to_list in Hl.
Qed.

Lemma event_matched e m m' reqs resps :
  on_event e m = Some (Ok m') -> matched m reqs resps -> matched m' (reqs ++ asked e) (resps ++ replied e).
Proof.
  intros He Hm. assert (matched m (reqs ++ asked e) (resps ++ replied e)) as Hm'.
  { apply (matched_mono m reqs resps); [done|set_solver..]. }
  revert He. unfold on_event. destruct (phase m), e as [now|found|now sent req|gone sent|[]|now|req|]; try done.
  - intros [= <-]. by destruct Hm'.
  - intros [= <-]. by destruct Hm', found.
  - intros [= <-]. by apply message_matched.
  - intros [= <-]. by destruct Hm', gone, sent.
  - intros [= <-]. by destruct Hm'.
  - intros [= <-]. by destruct (fail_matched Connect m _ _ Hm').
  - destruct (_ <=? _); [|done]. intros [= <-]. by destruct (fail_matched Connect m _ _ Hm').
  - intros [= Hl]. destruct req; simpl in Hl; simplify_eq.
    + apply forward_matched; [done|set_solver].
    + done.
    + done.
    + by destruct Hm', id, node.
  - intros [= <-]. by apply closed_matched.
Qed.

Lemma event_unique e m m' reqs resps :
  on_event e m = Some (Ok m') -> matched m reqs resps -> NoDup (reqs ++ asked e).*1 -> unique m -> unique m'.
Proof.
  intros He [Hf Hb _] Hnd Hu. pose proof Hu as [Hx Hd]. revert He. unfold on_event.
  destruct (phase m) eqn:Ep, e as [now|found|now sent req|gone sent|[]|now|req|]; try done.
  - intros [= <-]. split; [done|]. intros _. by apply Hd.
  - intros [= <-]. destruct found; (split; [done|]); intros _; by apply Hd.
  - intros [= <-]. assert (dropped m = []) as Hd0 by (by apply Hd). destruct req as [p| |resp| | |id node]; cbn [on_message].
    + assert (forall f : gmap Z nat, (forall id a, f !! id = Some a -> (id, a) ∈ reqs) -> f !! request_id (client_request p) = None) as Hnew.
      { intros f Hk. destruct (f !! request_id (client_request p)) as [b|] eqn:E; [|done]. apply Hk in E. exfalso.
        rewrite fmap_app in Hnd. simpl in Hnd. apply NoDup_app in Hnd as (_ & Hdis & _).
        apply (Hdis (request_id (client_request p))); [|by left]. apply list_elem_of_fmap. by exists (request_id (client_request p), b). }
      destruct sent; simpl.
      * split; simpl; [|intros _; by rewrite Hd0, (Hnew _ Hf)].
        intros id a b [[<- <-]|[_ Hl]]%lookup_insert_Some Hbuf; [by rewrite (Hnew _ Hb) in Hbuf|by apply (Hx id a b)].
      * split; [done|]. intros _. done.
    + split; [done|]. intros _. done.
    + apply forward_unique. by split.
    + split; simpl; [by intros id a b Hl|]. intros _. done.
    + by split.
    + apply (fail_unique Net.LeaderChange (set_phase (update_leader id node (if sent then add_wire m CloseFrame else m)) Draining)).
      split; [by destruct sent, id, node|]. intros _. by destruct sent, id, node.
  - intros [= <-]. destruct gone, sent; (split; [done|]); intros _; by apply Hd.
  - intros [= <-]. split; [done|]. intros _. by apply Hd.
  - intros [= <-]. split; [by intros ???|]. intros _. by apply Hd.
  - destruct (_ <=? _); [|done]. intros [= <-]. split; [by intros ???|]. intros _. by apply Hd.
  - intros [= Hl]. destruct req; simpl in Hl; simplify_eq; [by apply forward_unique|done|done|].
    destruct id, node; split; try done; simpl; by rewrite Ep.
  - intros [= <-]. unfold on_closed. destruct (shutdown m).
    + split; [by intros ???|done].
    + rewrite buffer_eq. split; simpl; [by intros ???|]. intros _. rewrite Hd by done. simpl. apply merge_fresh; [apply NoDup_fst_map_to_list|].
      intros id a Hin. simpl. apply elem_of_map_to_list in Hin. destruct (in_flight_buf m !! id) as [b|] eqn:E; [|done]. by destruct (Hx id a b).
Qed.
End Match.

(** ** Runs *)
Section Runs.
Context `{ApiCodec}.

Lemma run_matched m es m' : run m es m' -> forall reqs resps,
  matched m reqs resps -> matched m' (reqs ++ all_asked es) (resps ++ all_replied es).
Proof.
  induction 1 as [m|m e m1 es m2 He Hr IH]; intros reqs resps Hm; unfold all_asked, all_replied; simpl; [by rewrite !app_nil_r|].
  rewrite !app_assoc. apply IH. by apply event_matched with m.
Qed.

Lemma run_unique m es m' : run m es m' -> forall reqs resps,
  matched m reqs resps -> NoDup (reqs ++ all_asked es).*1 -> unique m -> unique m'.
Proof.
  induction 1 as [m|m e m1 es m2 He Hr IH]; intros reqs resps Hm Hnd Hu; [done|].
  unfold all_asked in Hnd. simpl in Hnd. rewrite app_assoc in Hnd.
  apply (IH (reqs ++ asked e) (resps ++ replied e)); [by apply event_matched with m|done|].
  apply (event_unique e m m1 reqs resps); try done. rewrite fmap_app in Hnd. by apply NoDup_app in Hnd as (? & _ & _).
Qed.

Lemma start_matched l : matched (start l) [] [].
Proof. split; simpl; [by intros|by intros|]. by intros a r ?%elem_of_nil. Qed.
Lemma start_unique l : unique (start l).
Proof. split; [by intros|done]. Qed.

Lemma taken_asked es : concat (taken <$> es) = (all_asked es).*2.
Proof.
  unfold all_asked. induction es as [|e es IH]; [done|]. rewrite !fmap_cons. simpl. rewrite fmap_app, IH. f_equal.
  by destruct e as [| |? ? []| | | | |].
Qed.

(** What was handed to the writer task, and what the events asked to send *)
Definition sent_bytes (m : Manager) : list (list byte) :=
  omap (fun p => match p with Payload b => Some b | _ => None end) (wire m).
Definition to_send (e : Event) : list (list byte) :=
  match e with EvRecv _ _ (Request p) => [encode_request (client_request p)] | _ => [] end.

Lemma forward_wire aw resp m : wire (try_forward_response aw resp m) = wire m.
Proof. unfold try_forward_response. destruct (in_flight m !! _); [done|]. destruct aw; [|done]. by destruct (in_flight_buf m !! _). Qed.

Lemma message_wire now sent req m :
  exists k, sent_bytes (on_message now sent req m) = sent_bytes m ++ k /\ k `sublist_of` to_send (EvRecv now sent req).
Proof.
  unfold sent_bytes. destruct req as [p| |resp| | |id node]; cbn [on_message].
  - destruct sent; simpl.
    + rewrite omap_app. eexists. by split.
    + exists []. rewrite app_nil_r. split; [done|apply sublist_nil_l].
  - exists []. by rewrite app_nil_r.
  - exists []. by rewrite app_nil_r, forward_wire.
  - exists []. by rewrite app_nil_r.
  - exists []. by rewrite app_nil_r.
  - exists []. split; [|done]. destruct sent, id, node; simpl; by rewrite ?omap_app, ?app_nil_r.
Qed.

Lemma event_wire e m m' : on_event e m = Some (Ok m') ->
  exists k, sent_bytes m' = sent_bytes m ++ k /\ k `sublist_of` to_send e.
Proof.
  assert (forall w, wire w = wire m -> exists k, sent_bytes w = sent_bytes m ++ k /\ k `sublist_of` to_send e) as Hsame.
  { intros w Hw. exists []. unfold sent_bytes. rewrite Hw, app_nil_r. split; [done|apply sublist_nil_l]. }
  unfold on_event. destruct (phase m), e as [now|found|now sent req|gone sent|[]|now|req|]; try done.
  - intros [= <-]. by apply Hsame.
  - intros [= <-]. apply Hsame. by destruct found.
  - intros [= <-]. apply message_wire.
  - intros [= <-]. destruct gone, sent; try by apply Hsame. exists []. unfold sent_bytes. simpl. rewrite omap_app, !app_nil_r. split; [done|apply sublist_nil_l].
  - intros [= <-]. exists []. unfold sent_bytes. simpl. by rewrite omap_app, !app_nil_r.
  - intros [= <-]. by apply Hsame.
  - destruct (_ <=? _); [|done]. intros [= <-]. by apply Hsame.
  - intros [= Hl]. destruct req; simpl in Hl; simplify_eq; apply Hsame; [apply forward_wire|done|done|by destruct id, node].
  - intros [= <-]. apply Hsame. unfold on_closed. destruct (shutdown m); [done|]. by rewrite buffer_eq.
Qed.

Lemma run_wire m es m' : run m es m' ->
  exists k, sent_bytes m' = sent_bytes m ++ k /\ k `sublist_of` concat (to_send <$> es).
Proof.
  induction 1 as [m|m e m1 es m2 He Hr (k & Hk & Hs)].
  - exists []. by rewrite app_nil_r.
  - destruct (event_wire e m m1 He) as (k1 & Hk1 & Hs1). exists (k1 ++ k). rewrite Hk, Hk1, app_assoc. split; [done|].
    rewrite fmap_cons. simpl. by apply sublist_app.
Qed.

(** ** A request and its response *)

(** Events that leave a request in flight: traffic of the others *)
Definition aside (id : Z) (e : Event) : Prop :=
  match e with
  | EvRecv _ true (Request p) => request_id (client_request p) <> id
  | EvRecv _ _ (StreamResponse r) => response_id r <> id
  | EvRecv _ _ (Liveness | CleanupBuffer) | EvKeepalive true => True
  | _ => False
  end.

Definition waiting_for (id : Z) (a : nat) (m : Manager) : Prop := phase m = Connected /\ in_flight m !! id = Some a.
Lemma aside_waits id a e m m' : aside id e -> waiting_for id a m -> on_event e m = Some (Ok m') -> waiting_for id a m'.
Proof.
  intros Ha [Hp Hf]. unfold on_event. rewrite Hp. destruct e as [|? |now [] [p| |r| | |]| |[]| | |]; try done; intros [= <-]; try by split.
  - simpl in Ha. split; [done|]. cbn. by rewrite lookup_insert_ne.
  - split; cbn [on_message]; unfold try_forward_response; cbn [set_frame in_flight in_flight_buf];
      (destruct (in_flight m !! response_id r); [|destruct (awaiting_timeout m); [destruct (in_flight_buf m !! response_id r)|]]); try done.
    simpl. by rewrite lookup_delete_ne.
  - split; cbn [on_message]; unfold try_forward_response; cbn [set_frame in_flight in_flight_buf];
      (destruct (in_flight m !! response_id r); [|destruct (awaiting_timeout m); [destruct (in_flight_buf m !! response_id r)|]]); try done.
    simpl. by rewrite lookup_delete_ne.
Qed.
Lemma asides_wait id a es m m' : Forall (aside id) es -> run m es m' -> waiting_for id a m -> waiting_for id a m'.
Proof.
  intros Hes Hr. induction Hr as [m|m e m1 es m2 He Hr IH]; [done|]. intros Hw. apply Forall_cons_1 in Hes as [Ha Hes].
  apply IH; [done|]. by eapply aside_waits.
Qed.
Lemma forward_answers aw resp a m : in_flight m !! response_id resp = Some a ->
  answered (try_forward_response aw resp m) = answered m ++ [(a, Ok (result resp))] /\
  in_flight (try_forward_response aw resp m) = delete (response_id resp) (in_flight m).
Proof. intros Hf. unfold try_forward_response. by rewrite Hf. Qed.

(** ** Messages of the reader *)
Definition from_reader (req : ClientStreamReq) : Prop :=
  match req with StreamResponse _ | CleanupBuffer | Liveness => True | _ => False end.
Lemma read_frame_from f req : read_frame f = Some (Some req) -> from_reader req.
Proof. unfold read_frame. destruct (opcode f); try done; [|by intros [= <-]..]. destruct (decode_response _); [|done]. by intros [= <-]. Qed.
Lemma leftover_settled req m : from_reader req -> exists m', on_leftover req m = Ok m'.
Proof. destruct req; try done; simpl; eauto. Qed.
End Runs.
