(* ===== verification/NetRaft.v ===== *)
(** The transport of the Raft between two nodes: the client task of
    [hiqlite/src/network/raft_client.rs], the server task of
    [hiqlite/src/network/raft_server.rs], and the connections between them.

    The requests and answers of openraft and its state are parameters.  The client task is
    a state machine over what its loops wait for; a reply channel is its number.  The two
    tasks are put together with the frames on their way: a client has one connection at a
    time, but the server task of an earlier one may still read what was sent before.  The
    channel of a connection's reader ends with the connection, so reading a frame and
    handing its message to the client task is one step. *)
From stdpp Require Import base gmap strings list numbers.
From Stdlib Require Import Strings.Byte.
From S2P Require Import Prelude SqlRows NetBase NetStream.

#[local] Open Scope Z_scope.

Module RaftLink.
Import Net.

(** ** Messages *)

Class RpcTypes : Type := {
  AppendDbReq : Type; AppendKvReq : Type; VoteReq : Type; SnapDbReq : Type; SnapKvReq : Type;
  AppendResp : Type; VoteResp : Type; SnapResp : Type; InstallSnapshotError : Type;
}.
Inductive Fatal : Type := StorageError | Panicked | Stopped.
Inductive RaftError (E : Type) : Type := APIError (e : E) | RFatal (f : Fatal).
Arguments APIError {E} e.
Arguments RFatal {E} f.

(** [RaftStreamRequest], [RaftStreamResponsePayload]; the id goes beside them. *)
Inductive Rpc `{RpcTypes} : Type :=
| AppendDB (r : AppendDbReq) | VoteDB (r : VoteReq) | SnapshotDB (r : SnapDbReq)
| AppendCache (r : AppendKvReq) | VoteCache (r : VoteReq) | SnapshotCache (r : SnapKvReq).
Inductive Payload `{RpcTypes} : Type :=
| PAppendDB (r : AppendResp + RaftError Empty_set) | PVoteDB (r : VoteResp + RaftError Empty_set)
| PSnapshotDB (r : SnapResp + RaftError InstallSnapshotError)
| PAppendCache (r : AppendResp + RaftError Empty_set) | PVoteCache (r : VoteResp + RaftError Empty_set)
| PSnapshotCache (r : SnapResp + RaftError InstallSnapshotError).

(** [serialize_serde], [deserialize_serde] *)
Class RpcCodec `{RpcTypes} : Type := {
  encode_rpc : Z * Rpc -> option (list byte);
  decode_rpc : list byte -> option (Z * Rpc);
  encode_reply : Z * Payload -> option (list byte);
  decode_reply : list byte -> option (Z * Payload);
}.
Class RpcCodecOk `{RpcCodec} : Prop := {
  rpc_round : forall r b, encode_rpc r = Some b -> decode_rpc b = Some r;
  reply_round : forall r b, encode_reply r = Some b -> decode_reply b = Some r;
}.

(** The Raft of a node, with the flags of the one the link belongs to *)
Class RaftPeer `{RpcTypes} (W : Type) : Type := {
  append_db : AppendDbReq -> W -> (AppendResp + RaftError Empty_set) * W;
  vote_db : VoteReq -> W -> (VoteResp + RaftError Empty_set) * W;
  snapshot_db : SnapDbReq -> W -> (SnapResp + RaftError InstallSnapshotError) * W;
  append_cache : AppendKvReq -> W -> (AppendResp + RaftError Empty_set) * W;
  vote_cache : VoteReq -> W -> (VoteResp + RaftError Empty_set) * W;
  snapshot_cache : SnapKvReq -> W -> (SnapResp + RaftError InstallSnapshotError) * W;
  set_db_stopped : W -> W;
  set_cache_stopped : W -> W;
  is_startup_finished : W -> bool;
  is_raft_stopped : W -> bool;
}.

Section Tasks.
Context `{RpcTypes}.

(** ** The client task *)

(** [RaftRequest]: the six requests differ in the payload only. *)
Inductive RaftRequest : Type :=
| Request (ack : nat) (q : Rpc)
| StreamResponse (id : Z) (p : Payload)
| ReaderExit
| Shutdown.

Abbreviation Answer := (Res ApiError Payload).

Inductive Phase : Type := Looking | Dialing | Polling (left : nat) | Up | Ended.

Record Client : Type := mkClient {
  phase : Phase;
  request_id : Z;
  in_flight : gmap Z nat;
  answered : list (nat * Answer);
  dropped : list nat;
}.
Definition start : Client := mkClient Looking 0 ∅ [] [].

Definition set_phase (p : Phase) (c : Client) : Client := mkClient p (request_id c) (in_flight c) (answered c) (dropped c).
Definition answer (a : nat) (r : Answer) (c : Client) : Client :=
  mkClient (phase c) (request_id c) (in_flight c) (answered c ++ [(a, r)]) (dropped c).

(** The end of the task by a panic or an abort: the channels it holds are dropped. *)
Definition die (more : list nat) (c : Client) : Client :=
  mkClient Ended (request_id c) ∅ (answered c) (dropped c ++ more ++ Stream.acks (in_flight c)).

(** The loop head *)
Definition look (stopped finished : bool) (c : Client) : Client :=
  if stopped then if negb finished then c else set_phase Ended c else set_phase Dialing c.

(** A failed connection: three polls of the channel, a heartbeat apart *)
Definition poll (left : nat) (req : option RaftRequest) (c : Client) : Client :=
  let next := match left with O => Looking | S _ => Polling left end in
  match req with
  | Some (Request ack _) => set_phase next (answer ack (Err Connect) c)
  | Some Shutdown => set_phase Ended c
  | _ => set_phase next c
  end.

(** [assert!(in_flight.is_empty())] *)
Definition connected (c : Client) : Client := if bool_decide (in_flight c = ∅) then set_phase Up c else die [] c.

(** The end of a connection *)
Definition close (shutdown : bool) (c : Client) : Client :=
  mkClient (if shutdown then Ended else Looking) (request_id c) ∅
    (answered c ++ ((fun a => (a, Err Connect)) <$> Stream.acks (in_flight c))) (dropped c).

(** A response of the server *)
Definition on_response (id : Z) (p : Payload) (c : Client) : Client :=
  match in_flight c !! id with
  | None => c
  | Some a => mkClient (phase c) (request_id c) (delete id (in_flight c)) (answered c ++ [(a, Ok p)]) (dropped c)
  end.

(** A request that the writer takes, and one that it refuses *)
Definition on_sent (ack : nat) (c : Client) : Client :=
  let '(f, old) := Stream.insert_ack (request_id c) ack (in_flight c) in
  mkClient (phase c) (wrap64 (request_id c + 1)) f (answered c) (dropped c ++ old).
Definition on_refused (ack : nat) (c : Client) : Client := close false (answer ack (Err Connect) c).

(** [stream_reader]: what a frame becomes; [None]: nothing *)
Definition read_frame `{!RpcCodec} (f : Frame) : option RaftRequest :=
  match opcode f with
  | Binary => match decode_reply (frame_payload f) with Some (id, p) => Some (StreamResponse id p) | None => Some ReaderExit end
  | Close => Some ReaderExit
  | _ => None
  end.

(** ** The calls of openraft: [NetworkConnectionStreaming::send] and the methods of
    [RaftNetwork]; [None]: the reply channel was dropped, or the task is gone *)
Inductive Unreachable : Type := unreachable.
Inductive RpcOk : Type := OkAppend (r : AppendResp) | OkVote (r : VoteResp) | OkSnapshot (r : SnapResp).
Definition or_unreachable {A E} (f : A -> RpcOk) (r : A + E) : Res Unreachable RpcOk :=
  match r with inl a => Ok (f a) | inr _ => Err unreachable end.
Definition call (q : Rpc) (reply : option Answer) : Res Unreachable RpcOk :=
  match reply with
  | None | Some (Err _) => Err unreachable
  | Some (Ok p) =>
      match q, p with
      | AppendDB _, PAppendDB r | AppendCache _, PAppendCache r => or_unreachable OkAppend r
      | VoteDB _, PVoteDB r | VoteCache _, PVoteCache r => or_unreachable OkVote r
      | SnapshotDB _, PSnapshotDB r | SnapshotCache _, PSnapshotCache r => or_unreachable OkSnapshot r
      | _, _ => Panic
      end
  | Some Panic => Panic
  | Some OutOfFuel => OutOfFuel
  end.

(** ** The server task *)
Section Server.
Context {W : Type} `{!RaftPeer W} `{!RpcCodec}.

(** What the Raft makes of a request, and whether the connection goes on *)
Definition is_stopped {A E} (r : A + RaftError E) : bool := match r with inr (RFatal Stopped) => true | _ => false end.
Definition serve (q : Rpc) (w : W) : Payload * W :=
  match q with
  | AppendDB r => let '(res, w) := append_db r w in (PAppendDB res, if is_stopped res then set_db_stopped w else w)
  | VoteDB r => let '(res, w) := vote_db r w in (PVoteDB res, w)
  | SnapshotDB r => let '(res, w) := snapshot_db r w in (PSnapshotDB res, w)
  | AppendCache r => let '(res, w) := append_cache r w in (PAppendCache res, if is_stopped res then set_cache_stopped w else w)
  | VoteCache r => let '(res, w) := vote_cache r w in (PVoteCache res, w)
  | SnapshotCache r => let '(res, w) := snapshot_cache r w in (PSnapshotCache res, w)
  end.
Definition goes_on (p : Payload) : bool :=
  match p with PAppendDB r | PAppendCache r => negb (is_stopped r) | _ => true end.

(** [stream_sqlite], [stream_cache]: a node takes a connection while its Raft runs. *)
Definition stream_upgrade (w : W) : Res ApiError unit :=
  if negb (is_startup_finished w) then Err (Other EBadRequest)
  else if is_raft_stopped w then Err (Other EBadRequest)
  else Ok tt.

(** [WsWriteMsg], and what the writer sends *)
Inductive WsWriteMsg : Type := WPayload (b : list byte) | ObligatedSend (op : OpCode) (payload : list byte) | Break.
Fixpoint write_msgs (ms : list WsWriteMsg) : list Frame :=
  match ms with
  | [] => []
  | WPayload b :: ms => mkFrame Binary b :: write_msgs ms
  | ObligatedSend Pong b :: ms => mkFrame Pong b :: write_msgs ms
  | ObligatedSend _ b :: ms => mkFrame Close b :: write_msgs ms
  | Break :: _ => [mkFrame Close []]
  end.

(** One frame: the messages to the writer, the request that was served, and whether the
    task reads on.  The library answers a Ping and echoes a Close. *)
Definition serve_frame (f : Frame) (w : W) : list WsWriteMsg * option (Rpc * Payload) * bool * W :=
  match opcode f with
  | Close => ([ObligatedSend Close (frame_payload f); Break], None, false, w)
  | Ping => ([ObligatedSend Pong (frame_payload f)], None, true, w)
  | Binary =>
      match decode_rpc (frame_payload f) with
      | None => ([Break], None, false, w)
      | Some (id, q) =>
          let '(p, w) := serve q w in
          if negb (goes_on p) then ([Break], Some (q, p), false, w)
          else match encode_reply (id, p) with
               | None => ([], Some (q, p), false, w)
               | Some b => ([WPayload b], Some (q, p), true, w)
               end
      end
  | _ => ([Break], None, false, w)
  end.

(** ** The link *)

(** A connection: the frames on their way, whether its server task reads, and what was
    handed to its writer and served from it *)
Record Conn : Type := mkConn { up : list Frame; down : list Frame; serving : bool; sent : list Rpc; got : list Rpc }.
Record Link : Type := mkLink { client : Client; conns : list Conn; peer : W; served : list (Rpc * Payload) }.
Definition set_client (c : Client) (l : Link) : Link := mkLink c (conns l) (peer l) (served l).
Definition fresh (w : W) : Link := mkLink start [] w [].

(** How the writer task of the client takes a request: it writes it, it ends before, or it
    has ended already. *)
Inductive Fate : Type := Written | Lost | Refused.

Inductive Event : Type :=
| ELook (stopped finished : bool)
| EConnected
| EConnectFailed
| EPoll (req : option RaftRequest)
| ECall (ack : nat) (q : Rpc) (fate : Fate)
| EShutdown
| ERecvError (gone : bool)
| EReadError
| EDeliver
| EServe (i : nat) (written : bool)
| EHangup (i : nat) (written : bool)
| EPeer (w : W)
| EAbort.

(** The last frame of a connection that ends: [WritePayload::Close] *)
Definition end_conns (cs : list Conn) : list Conn :=
  match cs with
  | c :: cs => mkConn (up c ++ [mkFrame Close []]) (down c) (serving c) (sent c) (got c) :: cs
  | [] => []
  end.
Definition end_link (shutdown : bool) (l : Link) : Link :=
  mkLink (close shutdown (client l)) (end_conns (conns l)) (peer l) (served l).

Definition on_call (ack : nat) (q : Rpc) (fate : Fate) (l : Link) : Link :=
  match encode_rpc (request_id (client l), q) with
  | None => set_client (die [ack] (client l)) l
  | Some b =>
      match fate, conns l with
      | Refused, cs => mkLink (on_refused ack (client l)) (end_conns cs) (peer l) (served l)
      | Written, c :: cs => mkLink (on_sent ack (client l)) (mkConn (up c ++ [mkFrame Binary b]) (down c) (serving c) (sent c ++ [q]) (got c) :: cs) (peer l) (served l)
      | Lost, c :: cs => mkLink (on_sent ack (client l)) (mkConn (up c) (down c) (serving c) (sent c ++ [q]) (got c) :: cs) (peer l) (served l)
      | _, [] => mkLink (on_sent ack (client l)) [] (peer l) (served l)
      end
  end.

Definition on_deliver (l : Link) : option Link :=
  match conns l with
  | c :: cs =>
      match down c with
      | f :: fs =>
          let l := mkLink (client l) (mkConn (up c) fs (serving c) (sent c) (got c) :: cs) (peer l) (served l) in
          Some match read_frame f with
               | Some (StreamResponse id p) => set_client (on_response id p (client l)) l
               | Some ReaderExit => end_link false l
               | _ => l
               end
      | [] => None
      end
  | [] => None
  end.

Definition on_serve (i : nat) (written : bool) (l : Link) : option Link :=
  c ← conns l !! i;
  match up c, serving c with
  | f :: fs, true =>
      let '(ms, done, on, w) := serve_frame f (peer l) in
      Some (mkLink (client l)
              (<[i := mkConn fs (down c ++ if written then write_msgs ms else []) on (sent c) (got c ++ match done with Some (q, _) => [q] | None => [] end)]> (conns l))
              w (served l ++ option_list done))
  | _, _ => None
  end.

(** The server task cannot read any more. *)
Definition on_hangup (i : nat) (written : bool) (l : Link) : option Link :=
  c ← conns l !! i;
  if serving c then
    Some (mkLink (client l) (<[i := mkConn (up c) (down c ++ if written then write_msgs [Break] else []) false (sent c) (got c)]> (conns l)) (peer l) (served l))
  else None.

(** [None]: the event cannot happen in the state. *)
Definition on_event (e : Event) (l : Link) : option Link :=
  match e, phase (client l) with
  | ELook s f, Looking => Some (set_client (look s f (client l)) l)
  | EConnected, Dialing =>
      match stream_upgrade (peer l) with
      | Ok _ => Some (mkLink (connected (client l)) (mkConn [] [] true [] [] :: conns l) (peer l) (served l))
      | _ => None
      end
  | EConnectFailed, Dialing => Some (set_client (set_phase (Polling 3) (client l)) l)
  | EPoll req, Polling (S k) => Some (set_client (poll k req (client l)) l)
  | ECall ack q fate, Up => Some (on_call ack q fate l)
  | EShutdown, Up => Some (end_link true l)
  | ERecvError gone, Up => Some (end_link gone l)
  | EReadError, Up => Some (end_link false l)
  | EDeliver, Up => on_deliver l
  | EServe i written, _ => on_serve i written l
  | EHangup i written, _ => on_hangup i written l
  | EPeer w, _ => Some (mkLink (client l) (conns l) w (served l))
  | EAbort, _ => Some (set_client (die [] (client l)) l)
  | _, _ => None
  end.
Fixpoint run (es : list Event) (l : Link) : option Link :=
  match es with [] => Some l | e :: es => l ← on_event e l; run es l end.
End Server.
End Tasks.
End RaftLink.
