(* ===== verification/NetRaftSpec.v ===== *)
(** The transport of the Raft: every call gets one answer at most, an answer is what the
    Raft of the peer said to exactly that call, and no call is served twice. *)
From stdpp Require Import base gmap strings list numbers sorting.
From Stdlib Require Import Strings.Byte.
From S2P Require Import Prelude NetBase NetStream NetStreamSpec NetRaft.
Import Net RaftLink.

#[local] Open Scope Z_scope.
#[local] Arguments Stream.insert_ack : simpl never.

(** A key that occurs once *)
Lemma fst_unique {A B} (l : list (A * B)) a x y : NoDup l.*1 -> (a, x) ∈ l -> (a, y) ∈ l -> x = y.
Proof.
  intros Hn Hx Hy. apply list_elem_of_lookup in Hx as [i Hi], Hy as [j Hj].
  assert (i = j) as ->; [|by simplify_eq]. apply (NoDup_lookup l.*1 i j a Hn); by rewrite list_lookup_fmap, ?Hi, ?Hj.
Qed.

Section Link.
Context `{RpcTypes} {W : Type} `{!RaftPeer W} `{!RpcCodec} `{!RpcCodecOk}.
Abbreviation Link := (@Link _ W).
Abbreviation Event := (@Event _ W).

(** The calls an event takes *)
Definition taken_calls (e : Event) : list (nat * Rpc) :=
  match e with ECall a q _ | EPoll (Some (Request a q)) => [(a, q)] | _ => [] end.
Definition calls (es : list Event) : list (nat * Rpc) := concat (taken_calls <$> es).

(** ** Conservation *)
Definition holds (c : Client) : list nat := (answered c).*1 ++ dropped c ++ Stream.acks (in_flight c).

Lemma holds_die more c : holds (die more c) ≡ₚ more ++ holds c.
Proof. unfold holds. simpl. rewrite acks_empty. solve_Permutation. Qed.
Lemma holds_close b c : holds (close b c) ≡ₚ holds c.
Proof.
  unfold holds. simpl. rewrite fmap_app, <- list_fmap_compose, acks_empty, list_fmap_id. solve_Permutation.
Qed.
Lemma holds_response id p c : holds (on_response id p c) ≡ₚ holds c.
Proof.
  unfold on_response. destruct (in_flight c !! id) as [a|] eqn:E; [|done]. unfold holds. simpl.
  rewrite fmap_app. simpl. rewrite (acks_delete _ _ a E). solve_Permutation.
Qed.
Lemma holds_sent a c : holds (on_sent a c) ≡ₚ a :: holds c.
Proof.
  unfold on_sent. destruct (Stream.insert_ack _ _ _) as [f old] eqn:E. apply insert_ack_acks in E. unfold holds. simpl.
  transitivity ((answered c).*1 ++ dropped c ++ (Stream.acks f ++ old)); [solve_Permutation|]. rewrite E. solve_Permutation.
Qed.
Lemma holds_answer a r c : holds (answer a r c) ≡ₚ a :: holds c.
Proof. unfold holds. simpl. rewrite fmap_app. simpl. solve_Permutation. Qed.

Lemma client_end b l : client (end_link (W := W) b l) = close b (client l).
Proof. done. Qed.

Lemma holds_call a q fate l : holds (client (on_call (W := W) a q fate l)) ≡ₚ a :: holds (client l).
Proof.
  unfold on_call. destruct (encode_rpc _); [|apply (holds_die [a])].
  destruct fate, (conns l); simpl; rewrite ?holds_sent; try done; unfold on_refused; by rewrite holds_close, holds_answer.
Qed.
Lemma holds_poll k req c : holds (poll k req c) ≡ₚ match req with Some (Request a _) => [a] | _ => [] end ++ holds c.
Proof. destruct req as [[]|]; simpl; try done. apply (holds_answer ack (Err Connect) c). Qed.
Lemma holds_deliver l l' : on_deliver (W := W) l = Some l' -> holds (client l') ≡ₚ holds (client l).
Proof.
  unfold on_deliver. destruct (conns l) as [|c cs]; [done|]. destruct (down c) as [|f fs]; [done|]. intros [= <-].
  destruct (read_frame f) as [[]|]; simpl; [done|apply holds_response|apply holds_close|done|done].
Qed.
Lemma serve_client i wr l l' : on_serve (W := W) i wr l = Some l' -> client l' = client l.
Proof.
  unfold on_serve. destruct (conns l !! i) as [c|]; simpl; [|done]. destruct (up c) as [|f fs]; [done|]. destruct (serving c); [|done].
  destruct (serve_frame f (peer l)) as [[[ms d] on] w]. by intros [= <-].
Qed.
Lemma hangup_client i wr l l' : on_hangup (W := W) i wr l = Some l' -> client l' = client l.
Proof. unfold on_hangup. destruct (conns l !! i) as [c|]; simpl; [|done]. destruct (serving c); [|done]. by intros [= <-]. Qed.

Lemma holds_event e l l' : on_event e l = Some l' -> holds (client l') ≡ₚ (taken_calls e).*1 ++ holds (client l).
Proof.
  unfold on_event. destruct e as [s f| | |req|a q fate| |gone| | |i wr|i wr|w|], (phase (client l)) as [| |[|k]| |] eqn:Ep; try done;
    try (by intros ->%serve_client || by intros ->%hangup_client); try (destruct (stream_upgrade _); [|done..]); try (intros [= <-]; simpl; first [done|apply holds_die|apply holds_close|idtac]).
  - by destruct s, f.
  - unfold connected. destruct (bool_decide _); [done|]. by rewrite holds_die.
  - rewrite holds_poll. by destruct req as [[]|].
  - by rewrite holds_call.
  - apply holds_deliver.
Qed.

(** ** What is on its way *)

(** The id of a request is its place among the issued ones. *)
Definition issued_at (iss : list (nat * Rpc)) (id : Z) (a : nat) (q : Rpc) : Prop := 0 <= id /\ iss !! Z.to_nat id = Some (a, q).

Definition frame_rpc (f : Frame) : option Rpc :=
  match opcode f with Binary => snd <$> decode_rpc (frame_payload f) | _ => None end.
Definition up_ok (iss : list (nat * Rpc)) (f : Frame) : Prop :=
  opcode f = Close \/ opcode f = Binary /\ exists id a q, decode_rpc (frame_payload f) = Some (id, q) /\ issued_at iss id a q.
Definition down_ok (iss : list (nat * Rpc)) (done : list (Rpc * Payload)) (f : Frame) : Prop :=
  opcode f = Binary -> forall id p, decode_reply (frame_payload f) = Some (id, p) -> exists a q, issued_at iss id a q /\ (q, p) ∈ done.

Record conn_ok (iss : list (nat * Rpc)) (done : list (Rpc * Payload)) (c : Conn) : Prop := {
  in_order : got c ++ omap frame_rpc (up c) `sublist_of` sent c;
  ups_ok : Forall (up_ok iss) (up c);
  downs_ok : Forall (down_ok iss done) (down c);
}.

Record client_ok (iss : list (nat * Rpc)) (done : list (Rpc * Payload)) (c : Client) : Prop := {
  next_id : request_id c = Z.of_nat (length iss);
  flights : forall id a, in_flight c !! id = Some a -> exists q, issued_at iss id a q;
  grounded : phase c <> Up -> in_flight c = ∅;
  answers : forall a r, (a, r) ∈ answered c -> r = Err Connect \/ exists p q, r = Ok p /\ (a, q) ∈ iss /\ (q, p) ∈ done;
}.

Record link_ok (iss : list (nat * Rpc)) (l : Link) : Prop := {
  client_good : client_ok iss (served l) (client l);
  conns_good : Forall (conn_ok iss (served l)) (conns l);
  linked : phase (client l) = Up -> conns l <> [];
  all_sent : concat (sent <$> conns l) ≡ₚ iss.*2;
  all_served : (served l).*1 ≡ₚ concat (got <$> conns l);
  honest : forall q p, (q, p) ∈ served l -> exists w : W, (serve q w).1 = p;
}.

Lemma issued_mono iss k id a q : issued_at iss id a q -> issued_at (iss ++ k) id a q.
Proof. intros [? Hl]. split; [done|]. by apply lookup_app_l_Some. Qed.
Lemma issued_in iss id a q : issued_at iss id a q -> (a, q) ∈ iss.
Proof. intros [_ Hl]. by apply list_elem_of_lookup_2 in Hl. Qed.
Lemma issued_fun iss id a b q r : issued_at iss id a q -> issued_at iss id b r -> a = b /\ q = r.
Proof. intros [_ Ha] [_ Hb]. by simplify_eq. Qed.

Lemma up_mono iss k f : up_ok iss f -> up_ok (iss ++ k) f.
Proof. intros [?|(? & id & a & q & ? & ?)]; [by left|right]. split; [done|]. exists id, a, q. split; [done|by apply issued_mono]. Qed.
Lemma down_mono iss k done done' f : done ⊆ done' -> down_ok iss done f -> down_ok (iss ++ k) done' f.
Proof. intros Hd Hf Ho id p Hp. destruct (Hf Ho id p Hp) as (a & q & ? & ?). exists a, q. split; [by apply issued_mono|by apply Hd]. Qed.
Lemma conn_mono iss k done done' c : done ⊆ done' -> conn_ok iss done c -> conn_ok (iss ++ k) done' c.
Proof.
  intros Hd [Hg Hu Hw]. split; [done|..]; (eapply Forall_impl; [done|]); intros f; [apply up_mono|by apply down_mono].
Qed.
Lemma client_mono iss done done' c : done ⊆ done' -> client_ok iss done c -> client_ok iss done' c.
Proof. intros Hd [Hn Hf Hg Ha]. split; try done. intros a r Hr. destruct (Ha a r Hr) as [?|(p & q & ? & ? & ?)]; [by left|right; eauto 6]. Qed.

(** *** The client *)
Lemma client_phase iss done p c : client_ok iss done c -> (p = Up \/ in_flight c = ∅) -> client_ok iss done (set_phase p c).
Proof. intros [Hn Hf Hg Ha] Hp. split; try done. simpl. intros Hu. by destruct Hp. Qed.
Lemma client_failed iss done a c : client_ok iss done c -> client_ok iss done (answer a (Err Connect) c).
Proof. intros [Hn Hf Hg Ha]. split; try done. intros b r [Hr|Hr]%elem_of_app; [by apply Ha|]. apply list_elem_of_singleton in Hr as [= -> ->]. by left. Qed.
Lemma client_die iss done more c : client_ok iss done c -> client_ok iss done (die more c).
Proof. intros [Hn Hf Hg Ha]. by split. Qed.
Lemma client_close iss done b c : client_ok iss done c -> client_ok iss done (close b c).
Proof.
  intros [Hn Hf Hg Ha]. split; try done.
  intros a r [Hr|(x & [= -> ->] & _)%list_elem_of_fmap]%elem_of_app; [by apply Ha|by left].
Qed.
Lemma client_response iss done id p c :
  client_ok iss done c -> (exists a q, issued_at iss id a q /\ (q, p) ∈ done) -> client_ok iss done (on_response id p c).
Proof.
  intros [Hn Hf Hg Ha] (b & q & Hi & Hd). unfold on_response. destruct (in_flight c !! id) as [a|] eqn:E; [|by split].
  destruct (Hf id a E) as [q' Hq]. destruct (issued_fun _ _ _ _ _ _ Hi Hq) as [-> ->].
  split; simpl; [done|by intros i x [_ Hl]%lookup_delete_Some; apply Hf|..].
  - intros Hp. by rewrite (Hg Hp), delete_empty.
  - intros x r [Hr|Hr]%elem_of_app; [by apply Ha|]. apply list_elem_of_singleton in Hr as [= -> ->]. right.
    exists p, q'. split; [done|]. split; [by apply issued_in in Hi|done].
Qed.
Lemma client_sent iss done a q c : phase c = Up -> Z.of_nat (length iss) + 1 < 2 ^ 64 ->
  client_ok iss done c -> client_ok (iss ++ [(a, q)]) done (on_sent a c).
Proof.
  intros Hp Hb [Hn Hf Hg Ha]. unfold on_sent. destruct (Stream.insert_ack _ _ _) as [f old] eqn:E.
  unfold Stream.insert_ack in E. injection E as <- <-. split; simpl.
  - rewrite length_app. simpl. rewrite Hn, wrap64_small; [lia|unfold is_u64; lia].
  - intros id b [[<- <-]|[_ Hl]]%lookup_insert_Some.
    + exists q. split; [lia|]. rewrite Hn, Nat2Z.id. by apply list_lookup_middle.
    + destruct (Hf id b Hl) as [r Hr]. exists r. by apply issued_mono.
  - done.
  - intros b r Hr. destruct (Ha b r Hr) as [?|(p & q' & ? & ? & ?)]; [by left|right]. exists p, q'. set_solver.
Qed.

(** *** The connections *)
Lemma concat_grow {A B} (f : A -> list B) (cs : list A) i c c' k :
  cs !! i = Some c -> f c' = f c ++ k -> concat (f <$> <[i := c']> cs) ≡ₚ concat (f <$> cs) ++ k.
Proof.
  intros Hi Hf. assert (i < length cs)%nat as Hlt by (by apply lookup_lt_Some in Hi).
  rewrite insert_take_drop by done. rewrite <- (take_drop_middle cs i c Hi) at 3.
  rewrite !fmap_app, !fmap_cons, !concat_app. simpl. rewrite Hf. solve_Permutation.
Qed.
Lemma concat_same {A B} (f : A -> list B) (cs : list A) i c c' :
  cs !! i = Some c -> f c' = f c -> concat (f <$> <[i := c']> cs) ≡ₚ concat (f <$> cs).
Proof. intros Hi Hf. rewrite (concat_grow f cs i c c' []); [by rewrite app_nil_r|done|by rewrite app_nil_r]. Qed.

(** What the server writes for a frame *)
Lemma serve_frame_ok iss done f w ms d on w' :
  up_ok iss f -> serve_frame f w = (ms, d, on, w') ->
  option_list (fst <$> d) = option_list (frame_rpc f) /\
  (forall q p, d = Some (q, p) -> (serve q w).1 = p) /\
  Forall (down_ok iss (done ++ option_list d)) (write_msgs ms).
Proof.
  unfold serve_frame, frame_rpc. intros [Ho|(Ho & id & a & q & Hd & Hi)]; rewrite Ho.
  - intros [= <- <- <- <-]. split; [done|]. split; [done|]. simpl. repeat constructor; done.
  - rewrite Hd. destruct (serve q w) as [p w1] eqn:E. destruct (goes_on p); simpl; [destruct (encode_reply (id, p)) as [b|] eqn:Eb|];
      intros [= <- <- <- <-]; (split; [done|]); (split; [by intros ? ? [= <- <-]; rewrite E|]); simpl; repeat constructor; try done.
    intros _ id' p' Hp. simpl in Hp. rewrite (reply_round _ _ Eb) in Hp. injection Hp as <- <-. exists a, q. split; [done|set_solver].
Qed.

Lemma conn_serve iss done c f fs w ms d on w' (wr : bool) :
  conn_ok iss done c -> up c = f :: fs -> serve_frame f w = (ms, d, on, w') ->
  conn_ok iss (done ++ option_list d) (mkConn fs (down c ++ if wr then write_msgs ms else []) on (sent c) (got c ++ match d with Some (q, _) => [q] | None => [] end)).
Proof.
  intros [Hg Hu Hw] Ef Hs. rewrite Ef in Hg, Hu. apply Forall_cons_1 in Hu as [Hf Hu].
  destruct (serve_frame_ok iss done f w ms d on w' Hf Hs) as (Hd & _ & Hms). split; simpl; [|done|].
  - rewrite <- app_assoc. replace (match d with Some (q, _) => [q] | None => [] end ++ omap frame_rpc fs) with (omap frame_rpc (f :: fs)); [done|].
    simpl. destruct d as [[q p]|], (frame_rpc f) as [r|]; simpl in Hd; by simplify_eq.
  - apply Forall_app. split; [|by destruct wr]. eapply Forall_impl; [done|]. intros x Hx.
    rewrite <- (app_nil_r iss). apply down_mono with done; [set_solver|done].
Qed.

Lemma conn_mono_served iss done k c : conn_ok iss done c -> conn_ok iss (done ++ k) c.
Proof. intros Hc. rewrite <- (app_nil_r iss). apply conn_mono with done; [set_solver|done]. Qed.

Lemma conns_end iss done cs : Forall (conn_ok iss done) cs -> Forall (conn_ok iss done) (end_conns cs).
Proof.
  destruct cs as [|c cs]; [done|]. intros [[Hg Hu Hw] Hcs]%Forall_cons_1. constructor; [|done]. split; simpl; [|apply Forall_app; split; [done|]; constructor; [by left|done]|done].
  rewrite omap_app. simpl. by rewrite app_nil_r.
Qed.
Lemma end_same {B} (f : Conn -> list B) cs : (forall c u, f (mkConn u (down c) (serving c) (sent c) (got c)) = f c) ->
  f <$> end_conns cs = f <$> cs.
Proof. intros Hf. destruct cs as [|c cs]; [done|]. cbn [end_conns]. by rewrite !fmap_cons, Hf. Qed.
Lemma end_link_ok iss b l : link_ok iss l -> link_ok iss (end_link b l).
Proof.
  intros [Hc Hcs Hl Hs Hv Hh]. split; simpl; [by apply client_close|by apply conns_end|by destruct b|..].
  - by rewrite end_same.
  - by rewrite end_same.
  - done.
Qed.

Lemma link_serve iss i wr l l' : on_serve i wr l = Some l' -> link_ok iss l -> link_ok iss l'.
Proof.
  intros He [Hc Hcs Hl Hs Hv Hh]. unfold on_serve in He. destruct (conns l !! i) as [c|] eqn:Ei; simpl in He; [|done].
  destruct (up c) as [|f fs] eqn:Eu; [done|]. destruct (serving c); [|done].
  destruct (serve_frame f (peer l)) as [[[ms d] on] w] eqn:Es. injection He as <-.
  pose proof (Forall_lookup_1 _ _ _ _ Hcs Ei) as Hco.
  pose proof (ups_ok _ _ _ Hco) as Hu. rewrite Eu in Hu. apply Forall_cons_1 in Hu as [Hf _].
  destruct (serve_frame_ok iss (served l) f (peer l) ms d on w Hf Es) as (Hd & Hq & _). split; simpl.
  - by apply client_mono with (served l); [set_solver|].
  - apply Forall_insert; [|by apply (conn_serve iss (served l) c f fs (peer l) ms d on w)].
    eapply Forall_impl; [done|]. intros x. apply conn_mono_served.
  - intros Hp. specialize (Hl Hp). intros Hn. apply (f_equal length) in Hn. rewrite length_insert in Hn. by destruct (conns l).
  - by rewrite (concat_same sent _ _ c).
  - rewrite (concat_grow got (conns l) i c _ (match d with Some (q, _) => [q] | None => [] end)) by done.
    rewrite fmap_app, Hv. by destruct d as [[q p]|].
  - intros q p [Hin|Hin]%elem_of_app; [by apply Hh|]. destruct d as [[q' p']|]; simpl in Hin; [|by apply elem_of_nil in Hin].
    apply list_elem_of_singleton in Hin as [= -> ->]. exists (peer l). by apply Hq.
Qed.
Lemma link_hangup iss i wr l l' : on_hangup i wr l = Some l' -> link_ok iss l -> link_ok iss l'.
Proof.
  intros He [Hc Hcs Hl Hs Hv Hh]. unfold on_hangup in He. destruct (conns l !! i) as [c|] eqn:Ei; simpl in He; [|done].
  destruct (serving c); [|done]. injection He as <-. pose proof (Forall_lookup_1 _ _ _ _ Hcs Ei) as [Hg Hu Hw]. split; simpl; try done.
  - apply Forall_insert; [done|]. split; simpl; [done|done|]. apply Forall_app. split; [done|]. destruct wr; [|done]. by constructor.
  - intros Hp. specialize (Hl Hp). intros Hn. apply (f_equal length) in Hn. rewrite length_insert in Hn. by destruct (conns l).
  - by rewrite (concat_same sent _ _ c).
  - by rewrite (concat_same got _ _ c).
Qed.

Lemma link_deliver iss l l' : on_deliver l = Some l' -> link_ok iss l -> link_ok iss l'.
Proof.
  intros He [Hc Hcs Hl Hs Hv Hh]. unfold on_deliver in He. destruct (conns l) as [|c cs] eqn:Ec; [done|].
  destruct (down c) as [|f fs] eqn:Ed; [done|]. injection He as <-.
  apply Forall_cons_1 in Hcs as [[Hg Hu Hw] Hcs]. rewrite Ed in Hw. apply Forall_cons_1 in Hw as [Hf Hw].
  assert (link_ok iss (mkLink (client l) (mkConn (up c) fs (serving c) (sent c) (got c) :: cs) (peer l) (served l))) as Hok.
  { split; try done. by constructor. }
  unfold read_frame. destruct (opcode f) eqn:Eo; try done; [|by apply end_link_ok].
  destruct (decode_reply (frame_payload f)) as [[id p]|] eqn:Er; [|by apply end_link_ok].
  destruct Hok as [Hc' Hcs' Hl' Hs' Hv' Hh']. split; try done.
  apply client_response; [done|by apply Hf].
Qed.

Lemma link_client iss c l : client_ok iss (served l) c -> (phase c = Up -> conns l <> []) -> link_ok iss l -> link_ok iss (set_client c l).
Proof. intros Hc Hl [_ Hcs _ Hs Hv Hh]. by split. Qed.

Lemma link_peer iss w l : link_ok iss l -> link_ok iss (mkLink (client l) (conns l) w (served l)).
Proof. intros [Hc Hcs Hl Hs Hv Hh]. by split. Qed.

(** A request that the writer takes, written or lost *)
Lemma link_issue iss a q c cs u l : phase (client l) = Up -> Z.of_nat (length iss) + 1 < 2 ^ 64 -> conns l = c :: cs ->
  (forall b, encode_rpc (request_id (client l), q) = Some b -> u = up c \/ u = up c ++ [mkFrame Binary b]) ->
  is_Some (encode_rpc (request_id (client l), q)) -> link_ok iss l ->
  link_ok (iss ++ [(a, q)]) (mkLink (on_sent a (client l)) (mkConn u (down c) (serving c) (sent c ++ [q]) (got c) :: cs) (peer l) (served l)).
Proof.
  intros Hp Hb Ec Hu [b Eb] [Hc Hcs Hl Hs Hv Hh]. rewrite Ec in *. apply Forall_cons_1 in Hcs as [Hco Hcs].
  pose proof (conn_mono iss [(a, q)] (served l) (served l) c ltac:(done) Hco) as [Hg Hup Hw]. split; simpl.
  - by apply client_sent.
  - constructor; [|eapply Forall_impl; [done|]; intros x Hx; by apply conn_mono with (served l)].
    destruct (Hu b Eb) as [-> | ->]; split; simpl; try done.
    + etrans; [done|]. by apply sublist_inserts_r.
    + rewrite omap_app, app_assoc. apply sublist_app; [done|]. simpl. unfold frame_rpc. simpl. by rewrite (rpc_round _ _ Eb).
    + apply Forall_app. split; [done|]. constructor; [|done]. right. split; [done|].
      exists (request_id (client l)), a, q. simpl. split; [by apply rpc_round|]. rewrite (next_id _ _ _ Hc).
      split; [lia|]. rewrite Nat2Z.id. by apply list_lookup_middle.
  - done.
  - rewrite fmap_app. simpl in *. rewrite <- Hs. solve_Permutation.
  - done.
  - done.
Qed.

Lemma link_call iss a q fate l : phase (client l) = Up -> Z.of_nat (length iss) + 1 < 2 ^ 64 -> link_ok iss l ->
  exists k, k `sublist_of` [(a, q)] /\ link_ok (iss ++ k) (on_call a q fate l).
Proof.
  intros Hp Hb Hok. pose proof (linked _ _ Hok Hp) as Hn. unfold on_call.
  destruct (encode_rpc (request_id (client l), q)) as [b|] eqn:Eb.
  - destruct (conns l) as [|c cs] eqn:Ec; [done|]. destruct fate.
    + exists [(a, q)]. split; [done|]. apply link_issue; [done..| |by eauto|done]. intros b' Hb'. rewrite Eb in Hb'. injection Hb' as <-. by right.
    + exists [(a, q)]. split; [done|]. apply link_issue; [done..| |by eauto|done]. intros b' _. by left.
    + exists []. rewrite app_nil_r. split; [apply sublist_nil_l|]. rewrite <- Ec.
      apply (end_link_ok iss false (set_client (answer a (Err Connect) (client l)) l)).
      apply link_client; [by apply client_failed; destruct Hok|by destruct Hok|done].
  - exists []. rewrite app_nil_r. split; [apply sublist_nil_l|]. by apply link_client; [apply client_die; destruct Hok| |].
Qed.

Lemma link_event iss e l l' : on_event e l = Some l' -> link_ok iss l -> Z.of_nat (length iss) + 1 < 2 ^ 64 ->
  exists k, k `sublist_of` taken_calls e /\ link_ok (iss ++ k) l'.
Proof.
  intros He Hok Hb. assert (forall l1, link_ok iss l1 -> exists k, k `sublist_of` taken_calls e /\ link_ok (iss ++ k) l1) as Hsame.
  { intros l1 Hl1. exists []. rewrite app_nil_r. split; [apply sublist_nil_l|done]. }
  pose proof (client_good _ _ Hok) as Hc. pose proof (grounded _ _ _ Hc) as Hg.
  revert He. unfold on_event. destruct e as [s f| | |req|a q fate| |gone| | |i wr|i wr|w|], (phase (client l)) as [| |[|k]| |] eqn:Ep; try done;
    try (intros He; by (apply Hsame; apply link_serve with i wr l)); try (intros He; by (apply Hsame; apply link_hangup with i wr l)); try (destruct (stream_upgrade _); [|done..]);
    try (intros [= <-]; first [by apply link_call|apply Hsame; first [by apply end_link_ok|by apply link_peer|by apply link_client; [apply client_die| |]|idtac]]).
  - apply link_client; [|by destruct s, f; simpl; rewrite ?Ep|done]. destruct s, f; try done; apply client_phase; auto.
  - unfold connected. rewrite bool_decide_true by auto. destruct Hok as [_ Hcs Hl Hs Hv Hh]. split; simpl; try done; [by apply client_phase; auto|].
    constructor; [|done]. split; simpl; done.
  - apply link_client; [apply client_phase; auto|done|done].
  - apply link_client; [|by destruct k, req as [[]|]|done]. destruct req as [[]|]; simpl; apply client_phase; auto. by apply client_failed.
  - intros He. apply Hsame. by apply link_deliver with l.
Qed.

Lemma run_link es : forall iss l l', run es l = Some l' -> link_ok iss l -> Z.of_nat (length iss + length (calls es)) + 1 < 2 ^ 64 ->
  exists k, k `sublist_of` calls es /\ link_ok (iss ++ k) l'.
Proof.
  induction es as [|e es IH]; intros iss l l' Hr Hok Hb; simpl in Hr.
  - injection Hr as <-. exists []. by rewrite app_nil_r.
  - destruct (on_event e l) as [l1|] eqn:He; [|done]. unfold calls in *. rewrite fmap_cons in *. simpl in *. rewrite length_app in Hb.
    destruct (link_event iss e l l1 He Hok ltac:(lia)) as (k1 & Hk1 & Hl1). pose proof (sublist_length _ _ Hk1) as Hlen.
    destruct (IH (iss ++ k1) l1 l' Hr Hl1) as (k2 & Hk2 & Hl2); [rewrite length_app; lia|].
    exists (k1 ++ k2). rewrite app_assoc. split; [by apply sublist_app|done].
Qed.
Lemma fresh_ok w : link_ok [] (fresh w).
Proof. split; try done; simpl; [split; try done; by intros a r ?%elem_of_nil|]. by intros q p ?%elem_of_nil. Qed.

Lemma run_holds es : forall l l', run es l = Some l' -> holds (client l') ≡ₚ (calls es).*1 ++ holds (client l).
Proof.
  induction es as [|e es IH]; intros l l' Hr; simpl in Hr; [by injection Hr as <-|].
  destruct (on_event e l) as [l1|] eqn:He; [|done]. rewrite (IH l1 l' Hr), (holds_event e l l1 He). unfold calls. rewrite fmap_cons. simpl.
  rewrite fmap_app. solve_Permutation.
Qed.

(** The kind of an answer is that of the request. *)
Lemma serve_kind q (w : W) : forall p, (serve q w).1 = p -> call q (Some (Ok p)) <> Panic /\ call q (Some (Ok p)) <> OutOfFuel.
Proof.
  intros p <-. destruct q; simpl; match goal with |- context [match ?x with (_, _) => _ end] => by destruct x as [[?|?] ?] end.
Qed.

(** ** A link as a whole *)

(** What the caller of a request gets: an answer, or nothing *)
Definition outcome (a : nat) (c : Client) (r : option (Res ApiError Payload)) : Prop :=
  match r with Some r => (a, r) ∈ answered c | None => a ∈ dropped c end.

Lemma outcome_honest iss l a q r :
  link_ok iss l -> (forall q', (a, q') ∈ iss -> q' = q) -> outcome a (client l) r ->
  call q r = Err unreachable \/
  exists p v, (q, p) ∈ served l /\ (exists w : W, (serve q w).1 = p) /\ r = Some (Ok p) /\ call q r = Ok v.
Proof.
  intros Hok Hq. destruct r as [r|]; [|by left]. intros Ho. destruct (answers _ _ _ (client_good _ _ Hok) a r Ho) as [-> |(p & q' & -> & Hi & Hs)]; [by left|].
  pose proof (Hq q' Hi) as ->. destruct (honest _ _ Hok q p Hs) as [w Hw]. destruct (serve_kind q w p Hw) as [Hp Hf].
  destruct (call q (Some (Ok p))) as [v|[]| |] eqn:E; [|by left|done|done]. right. exists p, v. eauto.
Qed.
Lemma served_once iss l : link_ok iss l -> (served l).*1 ⊆+ iss.*2 /\ Forall (fun c => got c `sublist_of` sent c) (conns l).
Proof.
  intros [_ Hcs _ Hs Hv _]. assert (Forall (fun c => got c `sublist_of` sent c) (conns l)) as Hg.
  { eapply Forall_impl; [done|]. intros c [Hg _ _]. etrans; [|done]. by apply sublist_inserts_r. }
  split; [|done]. rewrite Hv, <- Hs. clear Hcs Hs Hv. apply sublist_submseteq. induction Hg as [|c cs Hc _ IH]; [done|]. simpl. by apply sublist_app.
Qed.
End Link.
