(* ===== verification/NetAuth.v ===== *)
(** The handshake of the web sockets: [hiqlite/src/network/challenge_response.rs] and
    [hiqlite/src/network/handshake.rs].

    SHA-256 and the codec of the three messages are classes; [getrandom] gives the salt
    as an argument ([None]: it failed).  The two sides are functions from the frames they
    read to what they write next. *)
From stdpp Require Import base list numbers.
From Stdlib Require Import Strings.Byte.
From S2P Require Import Prelude NetBase.

#[local] Open Scope Z_scope.

Module Auth.
Import Net.

Inductive AuthError : Type := Random | BadRequest | Deserialize | Socket.

(** [Sha256::new().chain_update(a).chain_update(b).finalize()] *)
Class Sha256 : Type := sha256 : list byte -> list byte.
Class Sha256Ok `{Sha256} : Prop := sha256_len : forall m, length (sha256 m) = 32%nat.

Definition SALT_LEN : nat := 24.
Record Challenge : Type := mkChallenge { salt : list byte }.
Record ChallengeResponse : Type := mkResponse { cr_node_id : Z; cr_challenge : list byte; cr_response : list byte }.
Record ResponseFinal : Type := mkFinal { final : list byte }.

Class AuthCodec : Type := {
  encode_challenge : Challenge -> list byte;
  decode_challenge : list byte -> option Challenge;
  encode_answer : ChallengeResponse -> list byte;
  decode_answer : list byte -> option ChallengeResponse;
  encode_final : ResponseFinal -> list byte;
  decode_final : list byte -> option ResponseFinal;
}.
Class AuthCodecOk `{AuthCodec} : Prop := {
  challenge_round : forall c, decode_challenge (encode_challenge c) = Some c;
  answer_round : forall c, decode_answer (encode_answer c) = Some c;
  final_round : forall c, decode_final (encode_final c) = Some c;
}.

Section Auth.
Context `{Sha256} `{AuthCodec}.

(** [Salt::new] *)
Definition new_salt (random : option (list byte)) : Res AuthError (list byte) :=
  match random with Some b => Ok b | None => Err Random end.

(** [cmp_constant_time] *)
Definition cmp_constant_time (a b : list byte) : bool :=
  if negb (Nat.eqb (length a) 32) || negb (Nat.eqb (length b) 32) then false else bool_decide (a = b).

(** [Challenge::new], [ChallengeResponse::new], [ChallengeResponse::verify] and
    [ResponseFinal::verify] *)
Definition new_challenge (random : option (list byte)) : Res AuthError Challenge := s ← new_salt random; mret (mkChallenge s).
Definition new_response (node_id : Z) (challenge : Challenge) (secret : list byte) (random : option (list byte)) : Res AuthError ChallengeResponse :=
  let response := sha256 (salt challenge ++ secret) in
  challenge_new ← new_salt random;
  mret (mkResponse node_id challenge_new response).
Definition verify_response (r : ChallengeResponse) (challenge : Challenge) (secret : list byte) : Res AuthError ResponseFinal :=
  let verify := sha256 (salt challenge ++ secret) in
  if negb (cmp_constant_time (cr_response r) verify) then Err BadRequest
  else Ok (mkFinal (sha256 (cr_challenge r ++ secret))).
Definition verify_final (f : ResponseFinal) (r : ChallengeResponse) (secret : list byte) : Res AuthError unit :=
  let verify := sha256 (cr_challenge r ++ secret) in
  if cmp_constant_time (final f) verify then Ok tt else Err BadRequest.

(** A frame with a message; [None]: reading it failed *)
Definition read_message {A} (decode : list byte -> option A) (f : option Frame) : Res AuthError A :=
  match f with
  | None => Err Socket
  | Some f => match opcode f with
              | Binary => match decode (frame_payload f) with Some a => Ok a | None => Err Deserialize end
              | _ => Err BadRequest
              end
  end.

(** [HandshakeSecret::client]: up to its answer, and after it *)
Definition client_answer (secret : list byte) (node_id : Z) (random : option (list byte)) (f : option Frame) : Res AuthError (ChallengeResponse * Frame) :=
  challenge ← read_message decode_challenge f;
  r ← new_response node_id challenge secret random;
  mret (r, mkFrame Binary (encode_answer r)).
Definition client_finish (secret : list byte) (r : ChallengeResponse) (f : option Frame) : Res AuthError unit :=
  response ← read_message decode_final f;
  verify_final response r secret.

(** [HandshakeSecret::server]: its challenge, and its answer *)
Definition server_challenge (random : option (list byte)) : Res AuthError (Challenge * Frame) :=
  challenge ← new_challenge random;
  mret (challenge, mkFrame Binary (encode_challenge challenge)).
Definition server_finish (secret : list byte) (challenge : Challenge) (f : option Frame) : Res AuthError (Z * Frame) :=
  r ← read_message decode_answer f;
  resp ← verify_response r challenge secret;
  mret (cr_node_id r, mkFrame Binary (encode_final resp)).

(** Both sides over a socket that delivers: what the server and what the client return *)
Definition handshake (server_secret client_secret : list byte) (node_id : Z) (random_s random_c : option (list byte)) : Res AuthError (Z * Res AuthError unit) :=
  '(challenge, f1) ← server_challenge random_s;
  '(r, f2) ← client_answer client_secret node_id random_c (Some f1);
  '(id, f3) ← server_finish server_secret challenge (Some f2);
  mret (id, client_finish client_secret r (Some f3)).

(** ** Properties *)

Lemma cmp_spec a b : cmp_constant_time a b = true <-> a = b /\ length a = 32%nat.
Proof.
  unfold cmp_constant_time. destruct (Nat.eqb_spec (length a) 32), (Nat.eqb_spec (length b) 32); simpl; rewrite ?bool_decide_eq_true;
    split; try done; try tauto; intros [-> ?]; done.
Qed.

Lemma read_settled {A} (decode : list byte -> option A) f : settled (read_message decode f).
Proof. unfold read_message. destruct f as [[[] p]|]; simpl; try done. by destruct (decode p). Qed.

(** Whatever the peer sends, both sides return. *)
Lemma client_answer_settled secret node_id random f : settled (client_answer secret node_id random f).
Proof.
  apply settled_bind; [apply read_settled|]. intros c _. apply settled_bind; [|done]. unfold new_response. by destruct random.
Qed.
Lemma client_finish_settled secret r f : settled (client_finish secret r f).
Proof. apply settled_bind; [apply read_settled|]. intros c _. unfold verify_final. by destruct (cmp_constant_time _ _). Qed.
Lemma server_finish_settled secret c f : settled (server_finish secret c f).
Proof.
  apply settled_bind; [apply read_settled|]. intros r _. apply settled_bind; [|done]. unfold verify_response. by destruct (cmp_constant_time _ _).
Qed.

(** What the server has seen when it lets a peer in *)
Lemma server_finish_inv secret challenge f id out : server_finish secret challenge f = Ok (id, out) ->
  exists r, read_message decode_answer f = Ok r /\ id = cr_node_id r /\ cr_response r = sha256 (salt challenge ++ secret) /\
    out = mkFrame Binary (encode_final (mkFinal (sha256 (cr_challenge r ++ secret)))).
Proof.
  unfold server_finish. destruct (read_message _ f) as [r|e| |]; try done. cbn. unfold verify_response.
  destruct (cmp_constant_time _ _) eqn:E; simpl; [|done]. apply cmp_spec in E as [E _]. intros [= <- <-]. eauto.
Qed.
Lemma client_finish_inv secret r f : client_finish secret r f = Ok tt ->
  exists response, read_message decode_final f = Ok response /\ final response = sha256 (cr_challenge r ++ secret).
Proof.
  unfold client_finish. destruct (read_message _ f) as [response|e| |]; try done. cbn. unfold verify_final.
  destruct (cmp_constant_time _ _) eqn:E; [|done]. apply cmp_spec in E as [E _]. eauto.
Qed.

Section Ok.
Context `{!Sha256Ok} `{!AuthCodecOk}.

(** The outcome for any two secrets *)
Lemma handshake_eq s1 s2 node_id rs rc : handshake s1 s2 node_id (Some rs) (Some rc) =
  if bool_decide (sha256 (rs ++ s2) = sha256 (rs ++ s1))
  then Ok (node_id, if bool_decide (sha256 (rc ++ s1) = sha256 (rc ++ s2)) then Ok tt else Err BadRequest)
  else Err BadRequest.
Proof.
  unfold handshake, server_challenge, new_challenge, client_answer, server_finish, client_finish, verify_response, verify_final, cmp_constant_time.
  cbn. rewrite challenge_round. cbn. rewrite answer_round. cbn. rewrite !sha256_len. cbn.
  destruct (bool_decide _); [|done]. cbn. rewrite final_round. cbn. rewrite !sha256_len. cbn. by destruct (bool_decide _).
Qed.
End Ok.
End Auth.
End Auth.
