(* ===== verification/NetLimit.v ===== *)
(** The rate limit of the client: [hiqlite/src/client/rate_limit.rs], with the limits of
    [hiqlite/src/client/create.rs].

    One bucket of tokens per Raft.  A call takes a token, or queues with a reply channel
    ([id]); once a second the ticker refills the bucket and answers the queue.  The
    bucket is an atomic, so callers interleave with the ticker between any two updates
    of it: an event is one atomic update. *)
From stdpp Require Import base list numbers.
From S2P Require Import Prelude.

#[local] Open Scope Z_scope.

Module Limit.

Definition RATE_LIMIT_AWAIT_SIZE : nat := 64.

Record RateLimitConfig : Type := mkLimit { rps : Z; burst : Z }.
#[export] Instance RateLimitConfig_default : Inhabited RateLimitConfig := populate (mkLimit 100000 200000).

(** [refill_bucket], on [u32] *)
Definition refill_bucket (current rps burst : Z) : Z := Z.min (Z.min (current + rps) (2 ^ 32 - 1)) burst.

(** The update of [try_rate_limit_db] and [try_rate_limit_cache] *)
Definition try_take (current : Z) : option Z := if 0 <? current then Some (current - 1) else None.

(** A bucket with its queue: the callers that wait, and whether they are still there.
    [admitted] and [refused] are the callers that got an answer. *)
Record Bucket : Type := mkBucket {
  tokens : Z;
  waiting : list (nat * bool);
  admitted : list nat;
  refused : list nat;
  left_early : list nat;
}.

Inductive Event : Type := Call (id : nat) | Leave (id : nat) | Refill | Answer.

(** [rate_limit_db], [rate_limit_cache] up to the wait *)
Definition call (id : nat) (b : Bucket) : Bucket :=
  match try_take (tokens b) with
  | Some t => mkBucket t (waiting b) (admitted b ++ [id]) (refused b) (left_early b)
  | None =>
      if Nat.ltb (length (waiting b)) RATE_LIMIT_AWAIT_SIZE
      then mkBucket (tokens b) (waiting b ++ [(id, true)]) (admitted b) (refused b) (left_early b)
      else mkBucket (tokens b) (waiting b) (admitted b) (refused b ++ [id]) (left_early b)
  end.

(** The future of a caller is dropped while it waits. *)
Definition leave (id : nat) (b : Bucket) : Bucket :=
  mkBucket (tokens b) ((fun e => if Nat.eqb e.1 id then (e.1, false) else e) <$> waiting b) (admitted b) (refused b) (left_early b).

(** The parts of [run_ticker]: the refill, and one round of the loop over the queue *)
Definition refill (c : RateLimitConfig) (b : Bucket) : Bucket :=
  mkBucket (refill_bucket (tokens b) (rps c) (burst c)) (waiting b) (admitted b) (refused b) (left_early b).
Definition answer_next (b : Bucket) : option Bucket :=
  match waiting b with
  | [] => None
  | (id, here) :: rest =>
      let '(t, ok) := match try_take (tokens b) with Some t => (t, true) | None => (tokens b, false) end in
      Some (if here
            then if ok then mkBucket t rest (admitted b ++ [id]) (refused b) (left_early b)
                 else mkBucket t rest (admitted b) (refused b ++ [id]) (left_early b)
            else mkBucket (wrap32 (t + 1)) rest (admitted b) (refused b) (left_early b ++ [id]))
  end.

Definition on_event (c : RateLimitConfig) (e : Event) (b : Bucket) : option Bucket :=
  match e with
  | Call id => Some (call id b)
  | Leave id => Some (leave id b)
  | Refill => Some (refill c b)
  | Answer => answer_next b
  end.
Fixpoint run (c : RateLimitConfig) (es : list Event) (b : Bucket) : option Bucket :=
  match es with
  | [] => Some b
  | e :: es => b1 ← on_event c e b; run c es b1
  end.

(** A whole tick with nobody in between *)
Fixpoint drain (fuel : nat) (b : Bucket) : Bucket :=
  match fuel with
  | O => b
  | S fuel => match answer_next b with Some b1 => drain fuel b1 | None => b end
  end.
Definition tick (c : RateLimitConfig) (b : Bucket) : Bucket := let b := refill c b in drain (length (waiting b)) b.

(** [AtomicU32::new(c.rps)] *)
Definition start (c : RateLimitConfig) : Bucket := mkBucket (rps c) [] [] [] [].

(** ** Properties *)

Fixpoint refills (es : list Event) : Z :=
  match es with
  | [] => 0
  | Refill :: es => 1 + refills es
  | _ :: es => refills es
  end.

Definition config_ok (c : RateLimitConfig) : Prop := 0 <= rps c < 2 ^ 32 /\ 0 <= burst c < 2 ^ 32.
Definition in_range (b : Bucket) : Prop := 0 <= tokens b < 2 ^ 32.

Lemma take_some t t' : try_take t = Some t' -> 0 < t /\ t' = t - 1.
Proof. unfold try_take. destruct (Z.ltb_spec 0 t); intros [= <-]. lia. Qed.

Lemma answer_next_inv b b' : answer_next b = Some b' -> exists id here rest, waiting b = (id, here) :: rest /\ waiting b' = rest.
Proof.
  unfold answer_next. destruct (waiting b) as [|[id here] rest]; [done|]. destruct (try_take _) as [t|]; destruct here; intros [= <-]; eauto.
Qed.

(** Tokens and calls, over one event *)
Definition spent (b : Bucket) : Z := tokens b + Z.of_nat (length (admitted b)).
Definition gone (b : Bucket) : Z := Z.of_nat (length (left_early b)).

Lemma wrap32_le z : 0 <= z -> 0 <= wrap32 z <= z /\ wrap32 z < 2 ^ 32.
Proof. intros Hz. unfold wrap32. pose proof (Z.mod_pos_bound z (2 ^ 32) ltac:(lia)). pose proof (Z.mod_le z (2 ^ 32) Hz ltac:(lia)). lia. Qed.

Lemma event_spent c e b b' : config_ok c -> in_range b -> on_event c e b = Some b' ->
  in_range b' /\ spent b' - gone b' <= spent b - gone b + rps c * refills [e].
Proof.
  unfold in_range, spent, gone, config_ok. intros Hc Hb. destruct e as [id|id| |].
  - intros [= <-]. unfold call. destruct (try_take (tokens b)) as [t|] eqn:E; [apply take_some in E|destruct (Nat.ltb _ _)]; simpl; rewrite ?length_app; simpl; lia.
  - intros [= <-]. simpl. lia.
  - intros [= <-]. simpl. unfold refill_bucket. lia.
  - cbn [on_event]. unfold answer_next. destruct (waiting b) as [|[id here] rest]; [done|].
    destruct (try_take (tokens b)) as [t|] eqn:E; [apply take_some in E|]; destruct here; intros [= <-]; simpl; rewrite ?length_app; simpl.
    all: try lia.
    all: match goal with |- context [wrap32 ?z] => pose proof (wrap32_le z ltac:(lia)) end; lia.
Qed.

Lemma refills_cons e es : refills (e :: es) = refills [e] + refills es.
Proof. destruct e; cbn [refills]; lia. Qed.
#[global] Arguments refills : simpl never.

Lemma run_spent c es : forall b b', config_ok c -> in_range b -> run c es b = Some b' ->
  in_range b' /\ spent b' - gone b' <= spent b - gone b + rps c * refills es.
Proof.
  induction es as [|e es IH]; intros b b' Hc Hb; cbn [run].
  - intros [= <-]. split; [done|]. change (refills []) with 0. lia.
  - destruct (on_event c e b) as [b1|] eqn:E; simpl; [|done]. intros Hr.
    apply event_spent in E as [H1 Hs1]; [|done..]. apply IH in Hr as [H2 Hs2]; [|done..]. split; [done|]. rewrite (refills_cons e es). lia.
Qed.

(** Every call is in one place. *)
Definition called (es : list Event) : list nat := concat ((fun e => match e with Call id => [id] | _ => [] end) <$> es).
Definition accounted (b : Bucket) : list nat := admitted b ++ refused b ++ left_early b ++ (waiting b).*1.

Lemma event_accounted c e b b' : on_event c e b = Some b' -> accounted b' ≡ₚ called [e] ++ accounted b.
Proof.
  unfold accounted. destruct e as [id|id| |]; cbn.
  - intros [= <-]. unfold call. destruct (try_take _); [|destruct (Nat.ltb _ _)]; simpl; rewrite ?fmap_app; simpl; solve_Permutation.
  - intros [= <-]. unfold leave. cbn [waiting admitted refused left_early]. rewrite <- list_fmap_compose.
    rewrite (list_fmap_ext (fst ∘ _) fst); [done|]. intros _ [i h] _. simpl. by destruct (Nat.eqb i id).
  - intros [= <-]. simpl. done.
  - unfold answer_next. destruct (waiting b) as [|[id here] rest]; [done|]. destruct (try_take _); destruct here; intros [= <-]; simpl; solve_Permutation.
Qed.
Lemma called_cons e es : called (e :: es) = called [e] ++ called es.
Proof. unfold called. simpl. by rewrite app_nil_r. Qed.
Lemma run_accounted c es : forall b b', run c es b = Some b' -> accounted b' ≡ₚ called es ++ accounted b.
Proof.
  induction es as [|e es IH]; intros b b'; cbn [run].
  - by intros [= <-].
  - destruct (on_event c e b) as [b1|] eqn:E; simpl; [|done]. intros Hr. rewrite (IH _ _ Hr), (event_accounted _ _ _ _ E), (called_cons e es). solve_Permutation.
Qed.

(** The bucket itself stays within the burst when nobody leaves early. *)
Definition stays (e : Event) : bool := match e with Leave _ => false | _ => true end.
Definition full (c : RateLimitConfig) (b : Bucket) : Prop := tokens b <= Z.max (rps c) (burst c) /\ Forall (fun e => e.2 = true) (waiting b).
Lemma event_full c e b b' : stays e = true -> full c b -> on_event c e b = Some b' -> full c b'.
Proof.
  unfold full. intros Hs [Ht Hw]. destruct e as [id|id| |]; [| |unfold refill|]; cbn [on_event]; try done.
  - intros [= <-]. unfold call. destruct (try_take _) as [t|] eqn:E; [apply take_some in E|destruct (Nat.ltb _ _)]; simpl; (split; [lia|]); try done.
    apply Forall_app. split; [done|]. by constructor.
  - intros [= <-]. simpl. split; [unfold refill_bucket; lia|done].
  - unfold answer_next. destruct (waiting b) as [|[id here] rest]; [done|]. apply Forall_cons_1 in Hw as [Hh Hw]. simpl in Hh. subst here.
    destruct (try_take _) as [t|] eqn:E; [apply take_some in E|]; intros [= <-]; simpl; (split; [lia|done]).
Qed.
Lemma run_full c es : forall b b', Forall (fun e => stays e = true) es -> full c b -> run c es b = Some b' -> full c b'.
Proof.
  induction es as [|e es IH]; intros b b' Hs Hb; cbn [run].
  - by intros [= <-].
  - apply Forall_cons_1 in Hs as [He Hs]. destruct (on_event c e b) as [b1|] eqn:E; simpl; [|done]. intros Hr. eauto using event_full.
Qed.

(** A tick answers everyone: the first ones get the tokens. *)
Lemma drain_waiting fuel : forall b, (length (waiting b) <= fuel)%nat -> waiting (drain fuel b) = [].
Proof.
  induction fuel as [|fuel IH]; intros b Hf; simpl; [by destruct (waiting b); [|simpl in Hf; lia]|].
  destruct (answer_next b) as [b1|] eqn:E.
  - apply answer_next_inv in E as (id & here & rest & Hw & Hr). apply IH. rewrite Hr, Hw in *. simpl in Hf. lia.
  - unfold answer_next in E. destruct (waiting b) as [|[id here] rest]; [done|]. destruct (try_take _); done.
Qed.
Lemma drain_admitted fuel : forall b, Forall (fun e => e.2 = true) (waiting b) -> 0 <= tokens b -> (length (waiting b) <= fuel)%nat ->
  admitted (drain fuel b) = admitted b ++ firstn (Z.to_nat (tokens b)) (waiting b).*1.
Proof.
  induction fuel as [|fuel IH]; intros b Hw Ht Hf; simpl.
  { destruct (waiting b); [|simpl in Hf; lia]. by rewrite firstn_nil, app_nil_r. }
  unfold answer_next. destruct (waiting b) as [|[id here] rest] eqn:Ew; [by rewrite firstn_nil, app_nil_r|].
  apply Forall_cons_1 in Hw as [Hh Hw]. simpl in Hh, Hf. subst here. unfold try_take. destruct (Z.ltb_spec 0 (tokens b)).
  - rewrite IH by (simpl; try done; lia). simpl. rewrite <- app_assoc.
    replace (Z.to_nat (tokens b)) with (S (Z.to_nat (tokens b - 1))) by lia. done.
  - rewrite IH by (simpl; try done; lia). simpl. replace (Z.to_nat (tokens b)) with 0%nat by lia. done.
Qed.
End Limit.
