(* ===== verification/NetClient.v ===== *)
(** The client: [hiqlite/src/client/{helpers,execute,transaction,batch,migrate,backup,
    query,cache,dlock,listen_notify,rate_limit}.rs].

    A call either writes on this node, when it is the leader, or goes through the
    stream.  What comes back is the class [ClientWorld]: openraft's [client_write] under
    its timeout, the reply channels, and the ticker of the rate limit.  The client is
    the state its [Arc]s share: the leaders it knows, the next request id, and the
    messages it sent to the stream managers. *)
From stdpp Require Import base gmap strings list numbers sorting.
From Stdlib Require Import Strings.Byte.
From S2P Require Import Prelude DLock CacheSM SqlRows SqlBase SqlSM SqlMigrate NetBase NetServer NetLimit.
Import Net.

#[local] Open Scope Z_scope.

Module Client.

(** The future of a reply channel under [STREAM_REQUEST_TIMEOUT] *)
Inductive Channel (A : Type) : Type := Received (a : A) | Closed | TimedOut.
Arguments Received {A}. Arguments Closed {A}. Arguments TimedOut {A}.

(** [await_channel_response] *)
Definition await_channel_response {A} (c : Channel A) : Res ApiError A :=
  match c with
  | Received a => Ok a
  | Closed => Err (Other EError)
  | TimedOut => Err Connect
  end.

(** A local write under [LOCAL_CLIENT_WRITE_TIMEOUT] *)
Inductive LocalWrite (A : Type) : Type := Wrote (a : A) | Refused (fwd : option Forward) | Stalled.
Arguments Wrote {A}. Arguments Refused {A}. Arguments Stalled {A}.

(** [client_write_local] *)
Definition client_write_local {A} (o : LocalWrite A) : Res ApiError A :=
  match o with
  | Wrote a => Ok a
  | Refused fwd => Err (ClientWriteError fwd)
  | Stalled => Err Timeout
  end.

(** [client_write(..).await?] as it is: [OutOfFuel] when it never returns *)
Definition client_write_untimed {A} (o : LocalWrite A) : Res ApiError A :=
  match o with
  | Wrote a => Ok a
  | Refused fwd => Err (ClientWriteError fwd)
  | Stalled => OutOfFuel
  end.

(** The two Rafts *)
Inductive Layer : Type := Db | Cache.

(** [tx_client.send_async(..)]: the channel to a stream manager holds one message, and the
    send has no timeout.  It hands the message over, fails when the manager is gone, or
    never returns, when the channel is full and the manager does not receive, as it does
    while it reconnects. *)
Inductive Sent (A : Type) : Type := Accepted (a : A) | Gone | Blocked.
Arguments Accepted {A}. Arguments Gone {A}. Arguments Blocked {A}.

Class ClientWorld (W : Type) : Type := {
  local_db : SqlSM.QueryWrite -> W -> LocalWrite SqlSM.Response * W;
  local_cache : CacheSM.CacheRequest -> W -> LocalWrite CacheSM.CacheResponse * W;
  (** a request to the stream manager, and its reply channel *)
  stream : Layer -> ApiStreamRequest -> W -> Sent (Channel (Res ApiError ApiStreamResponsePayload)) * W;
  (** [LeaderChange] to the stream manager *)
  change_leader : Layer -> option Z * option Node -> W -> Sent unit * W;
  local_await : string -> Z -> W -> Channel DLock.LockState * W;
  local_get : nat -> string -> W -> Channel (option (list byte)) * W;
  local_counter : nat -> string -> W -> Channel (option Z) * W;
  (** the ticker's answer to a waiting call; [None] when too many are waiting *)
  await_tick : Layer -> W -> option (Res ApiError unit) * W;
}.

Record Client : Type := mkClient {
  self : option Z;
  leader_db : Z * string;
  leader_cache : Z * string;
  next_id : Z;
  changes : list (Layer * (option Z * option Node));
  tokens_db : option Z;
  tokens_cache : option Z;
}.
Definition leader_of (l : Layer) (c : Client) : Z * string := match l with Db => leader_db c | Cache => leader_cache c end.
Definition set_leader_of (l : Layer) (v : Z * string) (c : Client) : Client :=
  match l with
  | Db => mkClient (self c) v (leader_cache c) (next_id c) (changes c) (tokens_db c) (tokens_cache c)
  | Cache => mkClient (self c) (leader_db c) v (next_id c) (changes c) (tokens_db c) (tokens_cache c)
  end.
Definition tokens_of (l : Layer) (c : Client) : option Z := match l with Db => tokens_db c | Cache => tokens_cache c end.
Definition set_tokens_of (l : Layer) (t : option Z) (c : Client) : Client :=
  match l with
  | Db => mkClient (self c) (leader_db c) (leader_cache c) (next_id c) (changes c) t (tokens_cache c)
  | Cache => mkClient (self c) (leader_db c) (leader_cache c) (next_id c) (changes c) (tokens_db c) t
  end.

Section Calls.
Context {W : Type} `{ClientWorld W}.
Abbreviation CSt := (St ApiError (Client * W)).

Definition on_world {A} (f : W -> A * W) : CSt A := fun '(c, w) => let '(a, w) := f w in (Ok a, (c, w)).

(** [new_request_id] *)
Definition new_request_id : CSt Z := fun '(c, w) =>
  (Ok (next_id c), (mkClient (self c) (leader_db c) (leader_cache c) (wrap64 (next_id c + 1)) (changes c) (tokens_db c) (tokens_cache c), w)).

(** [is_leader_db_with_state], [is_leader_cache_with_state] *)
Definition is_leader (l : Layer) : CSt bool := fun '(c, w) =>
  (Ok (match self c with Some id => id =? (leader_of l c).1 | None => false end), (c, w)).

(** [was_leader_update_error]: [OutOfFuel] when the send never returns *)
Definition was_leader_update_error (l : Layer) (e : ApiError) : CSt bool := fun '(c, w) =>
  match is_forward_to_leader e with
  | Some (mkForward (Some id) (Some node)) =>
      let c := if (leader_of l c).1 =? id then c else set_leader_of l (id, addr_api node) c in
      match change_leader l (Some id, Some node) w with
      | (Accepted _, w) =>
          (Ok true, (mkClient (self c) (leader_db c) (leader_cache c) (next_id c) (changes c ++ [(l, (Some id, Some node))]) (tokens_db c) (tokens_cache c), w))
      | (Gone, w) => (Ok true, (c, w))
      | (Blocked, w) => (OutOfFuel, (c, w))
      end
  | _ => (Ok false, (c, w))
  end.

(** The two attempts of every call: the second one after the leader was updated *)
Definition retry_with {A} (l : Layer) (first second : CSt A) : CSt A := fun s =>
  match first s with
  | (Err e, s1) =>
      match was_leader_update_error l e s1 with
      | (Ok true, s2) => second s2
      | (Ok false, s2) | (Err _, s2) => (Err e, s2)
      | (Panic, s2) => (Panic, s2)
      | (OutOfFuel, s2) => (OutOfFuel, s2)
      end
  | r => r
  end.
Definition with_retry {A} (l : Layer) (req : CSt A) : CSt A := retry_with l req req.

(** [tx_client.send_async(..)] and [await_channel_response(rx).await??]; [OutOfFuel] when
    the send never returns *)
Definition ask (l : Layer) (p : ApiStreamRequestPayload) : CSt ApiStreamResponsePayload :=
  id ← new_request_id;
  o ← on_world (stream l (mkRequest id p));
  match o with
  | Gone => st_err (Other EError)
  | Blocked => st_lift OutOfFuel
  | Accepted ch => a ← st_lift (await_channel_response ch); st_lift a
  end.

Definition expect {A B} (f : A -> option (Res ApiError B)) (a : A) : CSt B :=
  match f a with Some r => st_lift r | None => st_panic end.

(** ** The database *)

(** The shape of [execute_req], [txn_execute], [batch_execute], [migrate_execute] and
    [backup_execute], and of [execute_returning_req], which has no timeout *)
Definition db_call {A} (timed : bool) (q : SqlSM.QueryWrite) (p : ApiStreamRequestPayload)
  (of_response : SqlSM.Response -> option (Res SqlError A)) (of_payload : ApiStreamResponsePayload -> option (Res ApiError A)) : CSt A :=
  leader ← is_leader Db;
  if (leader : bool) then
    o ← on_world (local_db q); resp ← st_lift (if timed then client_write_local o else client_write_untimed o);
    expect (fun r => lift_error <$> of_response r) resp
  else r ← ask Db p; expect of_payload r.

Definition execute_req (q : Sql.Query) : CSt (option Z) :=
  db_call true (SqlSM.Execute q) (Execute q) (fun r => match r with SqlSM.RExecute r => Some r | _ => None end)
    (fun r => match r with PExecute r => Some r | _ => None end).
Definition execute_returning_req (q : Sql.Query) : CSt (list (Res SqlError Rows.RowOwned)) :=
  db_call false (SqlSM.ExecuteReturning q) (ExecuteReturning q) (fun r => match r with SqlSM.RExecuteReturning r => Some r | _ => None end)
    (fun r => match r with PExecuteReturning r => Some r | _ => None end).
Definition txn_execute (qs : list Sql.Query) : CSt (list (option Z)) :=
  db_call true (SqlSM.Transaction qs) (Transaction qs) (fun r => match r with SqlSM.RTransaction r => Some r | _ => None end)
    (fun r => match r with PTransaction r => Some r | _ => None end).
Definition batch_execute (sql : string) : CSt (list (Res SqlError (option Z))) :=
  db_call true (SqlSM.Batch sql) (Batch sql) (fun r => match r with SqlSM.RBatch r => Some r | _ => None end)
    (fun r => match r with PBatch r => Some r | _ => None end).
Definition migrate_execute (migs : list Sql.Migration) : CSt unit :=
  db_call true (SqlSM.Migration migs) (Migrate migs) (fun r => match r with SqlSM.RMigrate r => Some r | _ => None end)
    (fun r => match r with PMigrate r => Some r | _ => None end).
Definition backup_execute (ts : Z) : CSt unit := fun s =>
  let node := (leader_db s.1).1 in
  db_call true (SqlSM.Backup node ts) (Backup node ts) (fun r => match r with SqlSM.RBackup r => Some r | _ => None end)
    (fun r => match r with PBackup r => Some r | _ => None end) s.

(** [query_remote_req] *)
Definition query_remote_req (q : Sql.Query) (consistent : bool) : CSt (list Rows.RowOwned) :=
  r ← ask Db (if consistent then QueryConsistent q else Query q);
  expect (fun r => match r with
                   | PQuery r => if consistent then None else Some r
                   | PQueryConsistent r => if consistent then Some r else None
                   | _ => None
                   end) r.

(** ** The rate limit *)

(** [try_rate_limit_db], [try_rate_limit_cache] *)
Definition try_rate_limit (l : Layer) : CSt bool := fun '(c, w) =>
  match tokens_of l c with
  | Some t => match Limit.try_take t with Some t => (Ok true, (set_tokens_of l (Some t) c, w)) | None => (Ok false, (c, w)) end
  | None => (Ok true, (c, w))
  end.
(** [rate_limit_db], [rate_limit_cache] *)
Definition rate_limit (l : Layer) : CSt unit :=
  ok ← try_rate_limit l;
  if (ok : bool) then mret tt
  else o ← on_world (await_tick l);
       match o with Some r => st_lift r | None => st_err RateLimit end.

Definition execute (q : Sql.Query) : CSt (option Z) := rate_limit Db ;; with_retry Db (execute_req q).
Definition execute_returning (q : Sql.Query) : CSt (list (Res SqlError Rows.RowOwned)) := rate_limit Db ;; with_retry Db (execute_returning_req q).
Definition txn (qs : list Sql.Query) : CSt (list (option Z)) := rate_limit Db ;; with_retry Db (txn_execute qs).
Definition batch (sql : string) : CSt (list (Res SqlError (option Z))) := rate_limit Db ;; with_retry Db (batch_execute sql).
(** [backup]: the second attempt reads the leader and the clock again. *)
Definition backup (ts ts' : Z) : CSt unit := rate_limit Db ;; retry_with Db (backup_execute ts) (backup_execute ts').
(** [migrate_execute_dedup], with the rows the client read: the second attempt sends all
    migrations. *)
Definition migrate (rows : list Sql.AppliedMigration) (migs : list Sql.Migration) : CSt unit :=
  todo ← st_lift (lift_error (Migrations.migrate_execute_dedup rows migs));
  match todo with
  | None => mret tt
  | Some todo => retry_with Db (migrate_execute todo) (migrate_execute migs)
  end.
Definition query_remote (q : Sql.Query) (consistent : bool) : CSt (list Rows.RowOwned) := with_retry Db (query_remote_req q consistent).
Definition query_consistent (q : Sql.Query) : CSt (list Rows.RowOwned) := rate_limit Db ;; query_remote q true.

(** [execute_returning_map_one] and [execute_returning_one]: how they wait for tokens *)
Definition one_row (rows : list (Res SqlError Rows.RowOwned)) : CSt Rows.RowOwned :=
  match rows with
  | [] => st_err (Other EQueryReturnedNoRows)
  | [r] => st_lift (lift_error r)
  | _ => st_err (Other ESqlite)
  end.
Definition execute_returning_one (q : Sql.Query) : CSt Rows.RowOwned :=
  rate_limit Db ;; rows ← execute_returning q; one_row rows.
Definition execute_returning_map (q : Sql.Query) : CSt (list (Res SqlError Rows.RowOwned)) := rate_limit Db ;; execute_returning q.
Definition execute_returning_map_one (q : Sql.Query) : CSt Rows.RowOwned :=
  rate_limit Db ;; rows ← execute_returning_map q; one_row rows.

(** ** The cache *)

(** [cache_req], [cache_req_retry] *)
Definition cache_req (req : CacheSM.CacheRequest) (is_remote_get : bool) : CSt CacheSM.CacheResponse :=
  leader ← is_leader Cache;
  if (leader : bool) then o ← on_world (local_cache req); st_lift (client_write_local o)
  else r ← ask Cache (if is_remote_get then KVGet req else KV req);
       expect (fun r => match r with PKV r => Some r | _ => None end) r.
Definition cache_req_retry (req : CacheSM.CacheRequest) (is_remote_get : bool) : CSt CacheSM.CacheResponse :=
  with_retry Cache (cache_req req is_remote_get).

Definition is_member : CSt bool := fun '(c, w) => (Ok (match self c with Some _ => true | None => false end), (c, w)).

(** [get_bytes] *)
Definition get_bytes (i : nat) (key : string) : CSt (option (list byte)) :=
  member ← is_member;
  if (member : bool) then ch ← on_world (local_get i key); st_lift (await_channel_response ch)
  else r ← cache_req_retry (CacheSM.Get i key) true;
       match r with CacheSM.RValue v => mret v | _ => st_panic end.
(** [counter_get] *)
Definition counter_get (i : nat) (key : string) : CSt (option Z) :=
  member ← is_member;
  if (member : bool) then ch ← on_world (local_counter i key); st_lift (await_channel_response ch)
  else r ← cache_req_retry (CacheSM.CounterGet i key) true;
       match r with CacheSM.RCounterValue v => mret v | _ => st_panic end.

(** A write without a result *)
Definition cache_write_call (req : CacheSM.CacheRequest) : CSt unit := rate_limit Cache ;; cache_req_retry req false ;; mret tt.
(** [ttl.map(..)]: seconds from now to a time in microseconds *)
Definition saturate (z : Z) : Z := Z.max (- 2 ^ 63) (Z.min (2 ^ 63 - 1) z).
Definition expires_at (now : Z) (ttl : option Z) : option Z := (fun s => saturate (now + saturate (s * 1000000))) <$> ttl.
Definition put_bytes (now : Z) (i : nat) (key : string) (value : list byte) (ttl : option Z) : CSt unit :=
  cache_write_call (CacheSM.Put i key value (expires_at now ttl)).
Definition delete (i : nat) (key : string) : CSt unit := cache_write_call (CacheSM.Delete i key).
Definition clear_cache (i : nat) : CSt unit := cache_write_call (CacheSM.Clear i).
Definition clear_counters (i : nat) : CSt unit := cache_write_call (CacheSM.ClearCounters i).
Definition clear_cache_all : CSt unit := cache_write_call CacheSM.ClearAll.
Definition counter_set (i : nat) (key : string) (value : Z) : CSt unit := cache_write_call (CacheSM.CounterSet i key value).
Definition counter_del (i : nat) (key : string) : CSt unit := cache_write_call (CacheSM.CounterDel i key).
(** A write that returns a value *)
Definition cache_value_call (req : CacheSM.CacheRequest) : CSt (option (list byte)) :=
  rate_limit Cache ;; r ← cache_req_retry req false; match r with CacheSM.RValue v => mret v | _ => st_panic end.
Definition get_remove_bytes (i : nat) (key : string) : CSt (option (list byte)) := cache_value_call (CacheSM.GetRemove i key).
Definition replace_bytes (now : Z) (i : nat) (key : string) (value : list byte) (ttl : option Z) : CSt (option (list byte)) :=
  cache_value_call (CacheSM.Replace i key value (expires_at now ttl)).
(** [counter_add] *)
Definition counter_add (i : nat) (key : string) (value : Z) : CSt Z :=
  rate_limit Cache ;; r ← cache_req_retry (CacheSM.CounterAdd i key value) false;
  match r with CacheSM.RCounterValue (Some v) => mret v | _ => st_panic end.

(** [notify_req], [notify] *)
Definition notify_req (req : CacheSM.CacheRequest) : CSt unit :=
  leader ← is_leader Cache;
  if (leader : bool) then o ← on_world (local_cache req); st_lift (client_write_local o) ;; mret tt
  else r ← ask Cache (Notify req); expect (fun r => match r with PNotify r => Some r | _ => None end) r.
Definition notify (payload : Z * list byte) : CSt unit := rate_limit Cache ;; with_retry Cache (notify_req (CacheSM.Notify payload)).

(** ** Distributed locks *)

(** [lock_req], with its assertions *)
Definition lock_req (req : CacheSM.CacheRequest) (is_remote_await : bool) : CSt DLock.LockState :=
  leader ← is_leader Cache;
  if (leader : bool) then
    o ← on_world (local_cache req); r ← st_lift (client_write_local o);
    match r with CacheSM.RLock s => mret s | _ => st_panic end
  else
    r ← ask Cache (if is_remote_await then LockAwait req else KV req);
    match r with
    | PKV r =>
        r ← st_lift r;
        match r with CacheSM.RLock s => if is_remote_await then st_panic else mret s | _ => st_panic end
    | PLock (Ok (DLock.Locked id)) => if is_remote_await then mret (DLock.Locked id) else st_panic
    | PLock (Ok DLock.Released) => if is_remote_await then mret DLock.Released else st_panic
    | PLock (Err e) => st_err e
    | _ => st_panic
    end.
Definition lock_req_retry (req : CacheSM.CacheRequest) (is_remote_await : bool) : CSt DLock.LockState :=
  with_retry Cache (lock_req req is_remote_await).

(** [lock_await] *)
Definition lock_await_call (key : string) (id : Z) : CSt DLock.LockState :=
  member ← is_member;
  if (member : bool) then ch ← on_world (local_await key id); st_lift (await_channel_response ch)
  else lock_req_retry (CacheSM.LockAwait key id) true.

(** The loop of [lock]: the ticket of the lock *)
Fixpoint lock_loop (fuel : nat) (key : string) (ticket : option Z) : CSt Z :=
  match fuel with
  | O => st_lift OutOfFuel
  | S fuel =>
      s ← lock_req_retry (CacheSM.Lock key ticket) false;
      match s with
      | DLock.Locked id => mret id
      | DLock.Queued id =>
          s ← lock_await_call key id;
          match s with
          | DLock.Locked id => mret id
          | DLock.Released => lock_loop fuel key (Some id)
          | DLock.Queued _ => st_panic
          end
      | DLock.Released => st_panic
      end
  end.
Definition lock (fuel : nat) (key : string) : CSt Z := rate_limit Cache ;; lock_loop fuel key None.

(** The requests of a held lock: the heartbeat, and the release of [Drop] *)
Definition alive_call (key : string) (id : Z) : CSt DLock.LockState := lock_req_retry (CacheSM.LockAlive key id) false.
Definition release_call (key : string) (id : Z) : CSt unit :=
  st_try (lock_req_retry (CacheSM.LockRelease key id) false) ;; mret tt.
End Calls.
End Client.
