(* ===== verification/NetClientSpec.v ===== *)
(** The calls of the client: which writes they leave in the replicated logs, and that
    they find the kind of answer they expect.

    [WorldLog] is what the two logs hold on behalf of this client.  [ClientWorldOk] says
    what a call relies on: a write that openraft confirms is in the log once, a write it
    forwards to another leader is not in the log, and about any other failure nothing is
    known; a response has the variant of its request ([Server.serve_typed]). *)
From stdpp Require Import base gmap strings list numbers sorting.
From Stdlib Require Import Strings.Byte.
From S2P Require Import Prelude DLock CacheSM SqlRows SqlBase SqlSM SqlMigrate NetBase NetServer NetLimit NetClient.
Import Net Server Client.

#[local] Open Scope Z_scope.

Class WorldLog (W : Type) : Type := {
  writes : W -> list SqlSM.QueryWrite;
  cache_writes : W -> list CacheSM.CacheRequest;
}.

(** Nothing, or one entry more *)
Definition at_most {A} (x : A) (l l' : list A) : Prop := l' = l \/ l' = l ++ [x].

(** The log after a call with this result; a call does not return only if it [hangs]. *)
Definition effect {A B} (hangs : Prop) (x : A) (r : Res ApiError B) (l l' : list A) : Prop :=
  match r with
  | Ok _ => l' = l ++ [x]
  | Err e => match is_forward_to_leader e with Some _ => l' = l | None => at_most x l l' end
  | OutOfFuel => hangs /\ at_most x l l'
  | Panic => False
  end.

Definition local_effect {A B} (x : A) (o : LocalWrite B) (l l' : list A) : Prop := effect False x (client_write_local o) l l'.

(** The result inside of a response *)
Definition result_of (p : ApiStreamResponsePayload) : Res ApiError unit :=
  match p with
  | PExecute r => r ≫= (fun _ => Ok tt)
  | PExecuteReturning r => r ≫= (fun _ => Ok tt)
  | PTransaction r => r ≫= (fun _ => Ok tt)
  | PQuery r => r ≫= (fun _ => Ok tt)
  | PQueryConsistent r => r ≫= (fun _ => Ok tt)
  | PBatch r => r ≫= (fun _ => Ok tt)
  | PMigrate r => r
  | PBackup r => r
  | PKV r => r ≫= (fun _ => Ok tt)
  | PLock r => r ≫= (fun _ => Ok tt)
  | PNotify r => r
  end.

(** The log entry of a request *)
Definition db_entry (p : ApiStreamRequestPayload) : option SqlSM.QueryWrite :=
  match p with
  | Execute q => Some (SqlSM.Execute q)
  | ExecuteReturning q => Some (SqlSM.ExecuteReturning q)
  | Transaction qs => Some (SqlSM.Transaction qs)
  | Batch sql => Some (SqlSM.Batch sql)
  | Migrate migs => Some (SqlSM.Migration migs)
  | Backup node ts => Some (SqlSM.Backup node ts)
  | _ => None
  end.
Definition cache_entry (p : ApiStreamRequestPayload) : option CacheSM.CacheRequest :=
  match p with KV req | Notify req => Some req | _ => None end.

(** What the log of a layer has after an answer; a request the manager did not take is not
    in the log. *)
Definition stream_effect {A} (x : option A) (o : Sent (Channel (Res ApiError ApiStreamResponsePayload))) (l l' : list A) : Prop :=
  match x, o with
  | Some x, Accepted (Received (Ok r)) => effect False x (result_of r) l l'
  | Some x, Accepted _ => at_most x l l'
  | _, _ => l' = l
  end.

Class ClientWorldOk {W} `{ClientWorld W} `{WorldLog W} : Prop := {
  local_db_ok : forall q w o w', local_db q w = (o, w') ->
    cache_writes w' = cache_writes w /\ local_effect q o (writes w) (writes w') /\ (forall r, o = Wrote r -> response_for q r);
  local_cache_ok : forall req w o w', local_cache req w = (o, w') ->
    writes w' = writes w /\ local_effect req o (cache_writes w) (cache_writes w') /\ (forall r, o = Wrote r -> cache_response_for req r);
  stream_ok : forall l req w o w', stream l req w = (o, w') ->
    stream_effect (db_entry (payload req)) o (writes w) (writes w') /\
    stream_effect (cache_entry (payload req)) o (cache_writes w) (cache_writes w') /\
    match o with
    | Accepted (Received (Ok r)) => payload_for (payload req) r
    | Accepted (Received (Err e)) => is_forward_to_leader e = None
    | Accepted (Received _) => False
    | _ => True
    end;
  change_ok : forall l to w o w', change_leader l to w = (o, w') -> writes w' = writes w /\ cache_writes w' = cache_writes w;
  await_ok : forall key id w ch w', local_await key id w = (ch, w') ->
    writes w' = writes w /\ cache_writes w' = cache_writes w /\ (forall s, ch = Received s -> await_answer s);
  tick_ok : forall l w o w', await_tick l w = (o, w') ->
    writes w' = writes w /\ cache_writes w' = cache_writes w /\
    match o with Some (Err e) => is_forward_to_leader e = None | Some (Ok _) | None => True | _ => False end;
}.

Section Spec.
Context {W : Type} `{ClientWorld W} `{WorldLog W} `{!ClientWorldOk (W := W)}.
Abbreviation CSt := (St ApiError (Client * W)).

(** A send to a stream manager that never returns *)
Definition sends_block : Prop :=
  (exists l req (w w' : W), stream l req w = (Blocked, w')) \/ (exists l to (w w' : W), change_leader l to w = (Blocked, w')).
(** A call may hang in such a send, and the one without a timeout in a local write. *)
Definition call_hangs (timed : bool) : Prop := sends_block \/ (timed = false /\ exists q (w w' : W), local_db q w = (Stalled, w')).

(** A call that leaves one entry in the log of the database, or in that of the cache *)
Definition db_writes {A} (hangs : Prop) (x : SqlSM.QueryWrite) (m : CSt A) : Prop := forall s r s', m s = (r, s') ->
  effect hangs x r (writes s.2) (writes s'.2) /\ cache_writes s'.2 = cache_writes s.2.
Definition cache_writes_one {A} (x : CacheSM.CacheRequest) (m : CSt A) : Prop := forall s r s', m s = (r, s') ->
  effect sends_block x r (cache_writes s.2) (cache_writes s'.2) /\ writes s'.2 = writes s.2.
(** A call that leaves nothing, and does not return a forward *)
Definition quiet {A} (m : CSt A) : Prop := forall s r s', m s = (r, s') ->
  writes s'.2 = writes s.2 /\ cache_writes s'.2 = cache_writes s.2 /\
  match r with Ok _ => True | Err e => is_forward_to_leader e = None | OutOfFuel => sends_block | Panic => False end.

Lemma leader_error_quiet l e (s : Client * W) r s' : was_leader_update_error l e s = (r, s') ->
  writes s'.2 = writes s.2 /\ cache_writes s'.2 = cache_writes s.2 /\
  match r with
  | Ok true => exists f, is_forward_to_leader e = Some f
  | Ok false => True
  | OutOfFuel => sends_block /\ exists f, is_forward_to_leader e = Some f
  | _ => False
  end.
Proof.
  destruct s as [c w]. unfold was_leader_update_error. destruct (is_forward_to_leader e) as [[[id|] [node|]]|]; try (by intros [= <- <-]).
  destruct (change_leader l (Some id, Some node) w) as [o w'] eqn:E. pose proof (change_ok _ _ _ _ _ E) as [Hw Hc].
  destruct o; intros [= <- <-]; (split; [done|]); (split; [done|]); eauto. split; [|eauto]. right. eauto 6.
Qed.

(** The second attempt only follows a forward, which left nothing. *)
Lemma retry_db {A} (h : Prop) l x (m : CSt A) : (sends_block -> h) -> db_writes h x m -> db_writes h x (with_retry l m).
Proof.
  intros Hh Hm s r s'. unfold with_retry, retry_with. destruct (m s) as [[a|e| |] s1] eqn:E; pose proof (Hm _ _ _ E) as [Hx Hc]; try done.
  - by intros [= <- <-].
  - destruct (was_leader_update_error l e s1) as [rb s2] eqn:El. pose proof (leader_error_quiet _ _ _ _ _ El) as (Hw & Hcw & Hrb).
    simpl in Hx. destruct rb as [[]|x'| |]; try done.
    + destruct Hrb as [f Hf]. rewrite Hf in Hx. intros Hr. apply Hm in Hr as [Hr Hc2]. rewrite Hw, Hx in Hr. by rewrite Hc2, Hcw.
    + intros [= <- <-]. rewrite Hw, Hcw. done.
    + destruct Hrb as [Hb [f Hf]]. rewrite Hf in Hx. intros [= <- <-]. rewrite Hw, Hcw, Hx. split; [|done]. split; [by apply Hh|by left].
  - by intros [= <- <-].
Qed.
Lemma retry_cache {A} l x (m : CSt A) : cache_writes_one x m -> cache_writes_one x (with_retry l m).
Proof.
  intros Hm s r s'. unfold with_retry, retry_with. destruct (m s) as [[a|e| |] s1] eqn:E; pose proof (Hm _ _ _ E) as [Hx Hc]; try done.
  - by intros [= <- <-].
  - destruct (was_leader_update_error l e s1) as [rb s2] eqn:El. pose proof (leader_error_quiet _ _ _ _ _ El) as (Hw & Hcw & Hrb).
    simpl in Hx. destruct rb as [[]|x'| |]; try done.
    + destruct Hrb as [f Hf]. rewrite Hf in Hx. intros Hr. apply Hm in Hr as [Hr Hc2]. rewrite Hcw, Hx in Hr. by rewrite Hc2, Hw.
    + intros [= <- <-]. rewrite Hw, Hcw. done.
    + destruct Hrb as [Hb [f Hf]]. rewrite Hf in Hx. intros [= <- <-]. rewrite Hw, Hcw, Hx. split; [|done]. split; [done|by left].
  - by intros [= <- <-].
Qed.

Lemma quiet_then_db {A B} (h : Prop) x (m : CSt A) (k : A -> CSt B) :
  (sends_block -> h) -> quiet m -> (forall a, db_writes h x (k a)) -> db_writes h x (m ≫= k).
Proof.
  intros Hh Hm Hk s r s'. step_st. destruct (m s) as [[a|e| |] s1] eqn:E; pose proof (Hm _ _ _ E) as (Hw & Hc & He); try done.
  - intros Hr. apply Hk in Hr as [Hr Hc2]. by rewrite <- Hw, <- Hc.
  - intros [= <- <-]. simpl. rewrite He, Hw. split; [by left|done].
  - intros [= <- <-]. simpl. rewrite Hw. split; [split; [by apply Hh|by left]|done].
Qed.
Lemma quiet_then_cache {A B} x (m : CSt A) (k : A -> CSt B) :
  quiet m -> (forall a, cache_writes_one x (k a)) -> cache_writes_one x (m ≫= k).
Proof.
  intros Hm Hk s r s'. step_st. destruct (m s) as [[a|e| |] s1] eqn:E; pose proof (Hm _ _ _ E) as (Hw & Hc & He); try done.
  - intros Hr. apply Hk in Hr as [Hr Hc2]. by rewrite <- Hw, <- Hc.
  - intros [= <- <-]. simpl. rewrite He, Hc. split; [by left|done].
  - intros [= <- <-]. simpl. rewrite Hc. split; [split; [done|by left]|done].
Qed.

Lemma rate_limit_quiet l : quiet (rate_limit l).
Proof.
  intros [c w] r s'. unfold rate_limit, try_rate_limit, on_world. step_st.
  destruct (tokens_of l c) as [t|]; [destruct (Limit.try_take t)|]; try (by intros [= <- <-]).
  destruct (await_tick l w) as [o w1] eqn:E. apply tick_ok in E as (Hw & Hc & Ho). destruct o as [[]|]; intros [= <- <-]; done.
Qed.

(** ** The calls to the database *)

Lemma is_leader_eq l (s : Client * W) : exists b, is_leader l s = (Ok b, s).
Proof. destruct s as [c w]. unfold is_leader. eauto. Qed.

(** What a request through the stream leaves, and which answer it gets *)
Lemma ask_spec l p (s s' : Client * W) r : ask l p s = (r, s') ->
  match r with
  | Ok a => payload_for p a /\ stream_effect (db_entry p) (Accepted (Received (Ok a))) (writes s.2) (writes s'.2) /\
      stream_effect (cache_entry p) (Accepted (Received (Ok a))) (cache_writes s.2) (cache_writes s'.2)
  | Err e => is_forward_to_leader e = None /\ stream_effect (db_entry p) (Accepted Closed) (writes s.2) (writes s'.2) /\
      stream_effect (cache_entry p) (Accepted Closed) (cache_writes s.2) (cache_writes s'.2)
  | OutOfFuel => sends_block /\ writes s'.2 = writes s.2 /\ cache_writes s'.2 = cache_writes s.2
  | Panic => False
  end.
Proof.
  destruct s as [c w]. unfold ask, new_request_id, on_world. step_st.
  destruct (stream l (mkRequest (next_id c) p) w) as [o w'] eqn:E. pose proof (stream_ok _ _ _ _ _ E) as (Hd & Hc & Ho). simpl in Hd, Hc, Ho.
  destruct o as [[a| |]| |]; [destruct a as [a|e| |]| | | |]; intros [= <- <-]; simpl; try done.
  - split; [done|]. split; [destruct (db_entry p)|destruct (cache_entry p)]; simpl in *; unfold at_most; auto.
  - split; [left; eauto 6|]. by destruct (db_entry p), (cache_entry p).
Qed.

Lemma effect_result {A B} h (x : A) (r : Res ApiError B) l l' : effect False x (r ≫= fun _ => Ok tt) l l' -> effect h x r l l'.
Proof. destruct r; try done. by intros []. Qed.
Lemma effect_forget {A B} h (x : A) (r : Res SqlError B) l l' : settled r -> l' = l ++ [x] -> effect h x (lift_error r) l l'.
Proof. destruct r; simpl; try done. intros _ ->. by right. Qed.

(** The calls to the database have the same shape; a call is determined by the variants
    it expects. *)
Lemma db_call_writes {A} timed q p (of_response : SqlSM.Response -> option (Res SqlError A)) (of_payload : ApiStreamResponsePayload -> option (Res ApiError A)) :
  db_entry p = Some q -> cache_entry p = None ->
  (forall r, response_for q r -> exists x, of_response r = Some x /\ settled x) ->
  (forall r, payload_for p r -> exists x, of_payload r = Some x /\ result_of r = x ≫= fun _ => Ok tt) ->
  db_writes (call_hangs timed) q (db_call timed q p of_response of_payload).
Proof.
  intros Hd Hc Hresp Hpay s r s'. unfold db_call. step_st. destruct (is_leader_eq Db s) as [b ->]. destruct b.
  - destruct s as [c w]. unfold on_world. destruct (local_db q w) as [o w1] eqn:E. pose proof (local_db_ok _ _ _ _ E) as (Hcw & Hw & Ho).
    unfold local_effect in Hw. destruct o as [resp|fwd|]; simpl in *; [|destruct timed; by intros [= <- <-]|].
    2: { destruct timed; intros [= <- <-]; [done|]. split; [|done]. split; [right; split; [done|eauto]|done]. }
    replace (if timed then Ok resp else Ok resp) with (Ok resp : Res ApiError _) by (by destruct timed). destruct (Hresp resp (Ho _ eq_refl)) as (x & Hx & Hset). unfold expect. rewrite Hx. simpl. intros [= <- <-].
    split; [by apply effect_forget|done].
  - destruct (ask Db p s) as [[a|e| |] s1] eqn:E; apply ask_spec in E; try done; rewrite ?Hd, ?Hc in E; simpl in E.
    + destruct E as (Ha & He & Hce). destruct (Hpay a Ha) as (x & Hx & Hr). unfold expect. rewrite Hx. intros [= <- <-].
      rewrite Hr in He. split; [by apply effect_result|done].
    + intros [= <- <-]. destruct E as (Hf & He & Hce). simpl. by rewrite Hf.
    + intros [= <- <-]. destruct E as (Hb & He & Hce). split; [|done]. split; [by left|by left].
Qed.

#[local] Ltac by_db_call :=
  refine (db_call_writes _ _ _ _ _ _ _ _ _); [done|done|intros [] Hr; try done; simpl in Hr; by eauto|intros [] Hr; try done; simpl in Hr; by eauto].

Lemma execute_req_writes q : db_writes (call_hangs true) (SqlSM.Execute q) (execute_req q).
Proof. by_db_call. Qed.
Lemma execute_returning_req_writes q : db_writes (call_hangs false) (SqlSM.ExecuteReturning q) (execute_returning_req q).
Proof. by_db_call. Qed.
Lemma txn_execute_writes qs : db_writes (call_hangs true) (SqlSM.Transaction qs) (txn_execute qs).
Proof. by_db_call. Qed.
Lemma batch_execute_writes sql : db_writes (call_hangs true) (SqlSM.Batch sql) (batch_execute sql).
Proof. by_db_call. Qed.
Lemma migrate_execute_writes migs : db_writes (call_hangs true) (SqlSM.Migration migs) (migrate_execute migs).
Proof. refine (db_call_writes true _ _ _ _ _ _ _ _); [done|done|intros [] Hr; try done; simpl in Hr; by eauto|]. intros [] Hr; try done. exists r. by destruct r as [[]| | |]. Qed.

(** The calls of the API *)
Lemma execute_writes q : db_writes (call_hangs true) (SqlSM.Execute q) (execute q).
Proof. apply quiet_then_db; [by left|apply rate_limit_quiet|]. intros _. apply retry_db; [by left|]. apply execute_req_writes. Qed.
Lemma execute_returning_writes q : db_writes (call_hangs false) (SqlSM.ExecuteReturning q) (execute_returning q).
Proof. apply quiet_then_db; [by left|apply rate_limit_quiet|]. intros _. apply retry_db; [by left|]. apply execute_returning_req_writes. Qed.
Lemma txn_writes qs : db_writes (call_hangs true) (SqlSM.Transaction qs) (txn qs).
Proof. apply quiet_then_db; [by left|apply rate_limit_quiet|]. intros _. apply retry_db; [by left|]. apply txn_execute_writes. Qed.
Lemma batch_writes sql : db_writes (call_hangs true) (SqlSM.Batch sql) (batch sql).
Proof. apply quiet_then_db; [by left|apply rate_limit_quiet|]. intros _. apply retry_db; [by left|]. apply batch_execute_writes. Qed.

(** ** The calls to the cache *)

(** A result that a call gives in each of its successful ends *)
Definition yields {A} (P : A -> Prop) (m : CSt A) : Prop := forall s a s', m s = (Ok a, s') -> P a.
Lemma retry_yields {A} l (P : A -> Prop) (m : CSt A) : yields P m -> yields P (with_retry l m).
Proof.
  intros Hm s a s'. unfold with_retry, retry_with. destruct (m s) as [[b|e| |] s1] eqn:E; try done.
  - intros [= <- <-]. by eapply Hm.
  - destruct (was_leader_update_error l e s1) as [[[]|?| |] s2]; try done. apply Hm.
Qed.
(** What follows a write only looks at its answer. *)
Lemma cache_then {A B} x (P : A -> Prop) (m : CSt A) (k : A -> CSt B) :
  cache_writes_one x m -> yields P m -> (forall a, P a -> exists b, forall s, k a s = (Ok b, s)) -> cache_writes_one x (m ≫= k).
Proof.
  intros Hm Hy Hk s r s'. step_st. destruct (m s) as [[a|e| |] s1] eqn:E; pose proof (Hm _ _ _ E) as [Hx Hw]; try done.
  - destruct (Hk a (Hy _ _ _ E)) as [b Hb]. rewrite Hb. by intros [= <- <-].
  - by intros [= <- <-].
  - by intros [= <- <-].
Qed.

Lemma cache_req_writes req : cache_writes_one req (cache_req req false).
Proof.
  intros s r s'. unfold cache_req. step_st. destruct (is_leader_eq Cache s) as [b ->]. destruct b.
  - destruct s as [c w]. unfold on_world. destruct (local_cache req w) as [o w1] eqn:E. apply local_cache_ok in E as (Hw & Hc & _).
    unfold local_effect in Hc. destruct o; by intros [= <- <-].
  - destruct (ask Cache (KV req) s) as [[a|e| |] s1] eqn:E; apply ask_spec in E; try done; simpl in E; destruct E as (Ha & Hd & Hc).
    + destruct a as [| | | | | | | |r0| |]; try done. destruct Ha as [Hs _]. unfold expect. intros [= <- <-]. split; [by apply effect_result|done].
    + intros [= <- <-]. simpl. by rewrite Ha.
    + intros [= <- <-]. split; [|done]. split; [done|by left].
Qed.
Lemma cache_req_yields req : yields (cache_response_for req) (cache_req req false).
Proof.
  intros s r s'. unfold cache_req. step_st. destruct (is_leader_eq Cache s) as [b ->]. destruct b.
  - destruct s as [c w]. unfold on_world. destruct (local_cache req w) as [o w1] eqn:E. apply local_cache_ok in E as (_ & _ & Hr).
    destruct o as [a| |]; intros Ho; inversion Ho; subst. by apply Hr.
  - destruct (ask Cache (KV req) s) as [[a|e| |] s1] eqn:E; apply ask_spec in E; try done; simpl in E; destruct E as (Ha & _).
    destruct a as [| | | | | | | |r0| |]; try done. unfold expect. intros [= -> <-]. by apply Ha.
Qed.
Lemma cache_req_retry_writes req : cache_writes_one req (cache_req_retry req false).
Proof. apply retry_cache, cache_req_writes. Qed.
Lemma cache_req_retry_yields req : yields (cache_response_for req) (cache_req_retry req false).
Proof. apply retry_yields, cache_req_yields. Qed.

Lemma cache_call_writes {B} req (k : CacheSM.CacheResponse -> CSt B) :
  (forall c, cache_response_for req c -> exists b, forall s, k c s = (Ok b, s)) -> cache_writes_one req (rate_limit Cache ;; c ← cache_req_retry req false; k c).
Proof.
  intros Hk. apply quiet_then_cache; [apply rate_limit_quiet|]. intros _.
  apply (cache_then _ (cache_response_for req)); [apply cache_req_retry_writes|apply cache_req_retry_yields|exact Hk].
Qed.

Lemma cache_write_call_writes req : cache_writes_one req (cache_write_call req).
Proof. apply cache_call_writes. by exists tt. Qed.
Lemma get_remove_writes i key : cache_writes_one (CacheSM.GetRemove i key) (get_remove_bytes i key).
Proof. apply cache_call_writes. intros [] Hc; try done. by exists v. Qed.
Lemma replace_writes now i key value ttl : cache_writes_one (CacheSM.Replace i key value (expires_at now ttl)) (replace_bytes now i key value ttl).
Proof. apply cache_call_writes. intros [] Hc; try done. by exists v. Qed.
Lemma counter_add_writes i key value : cache_writes_one (CacheSM.CounterAdd i key value) (counter_add i key value).
Proof. apply cache_call_writes. intros [| | | |[v|]] Hc; try done. by exists v. Qed.

Lemma notify_req_writes req : cache_writes_one req (notify_req req).
Proof.
  intros s r s'. unfold notify_req. step_st. destruct (is_leader_eq Cache s) as [b ->]. destruct b.
  - destruct s as [c w]. unfold on_world. destruct (local_cache _ w) as [o w1] eqn:E. apply local_cache_ok in E as (Hw & Hc & _).
    unfold local_effect in Hc. destruct o; by intros [= <- <-].
  - destruct (ask Cache _ s) as [[a|e| |] s1] eqn:E; apply ask_spec in E; try done; simpl in E; destruct E as (Ha & Hd & Hc).
    + destruct a; try done. unfold expect. intros [= <- <-]. split; [|done]. by destruct r0.
    + intros [= <- <-]. simpl. by rewrite Ha.
    + intros [= <- <-]. split; [|done]. split; [done|by left].
Qed.
Lemma notify_writes payload : cache_writes_one (CacheSM.Notify payload) (notify payload).
Proof. apply quiet_then_cache; [apply rate_limit_quiet|]. intros _. apply retry_cache, notify_req_writes. Qed.

(** ** Distributed locks *)

Lemma lock_req_eq req (s : Client * W) r s' : (forall c, cache_response_for req c -> exists st, c = CacheSM.RLock st) ->
  lock_req req false s = (r, s') -> exists rc, cache_req req false s = (rc, s') /\
    r = (c ← rc; match c with CacheSM.RLock st => Ok st | _ => Panic end).
Proof.
  intros Hk. unfold lock_req, cache_req. step_st. destruct (is_leader_eq Cache s) as [b ->]. destruct b.
  - destruct s as [c w]. unfold on_world. destruct (local_cache req w) as [o w1] eqn:E.
    destruct o as [a| |]; [|intros [= <- <-]; eauto..]. destruct a; intros [= <- <-]; simpl; eauto.
  - destruct (ask Cache (KV req) s) as [[a|e| |] s1] eqn:E; apply ask_spec in E; try done; simpl in E; [|intros [= <- <-]; eauto..].
    destruct E as (Ha & _ & _). destruct a as [| | | | | | | |r0| |]; try done. unfold expect. destruct r0 as [c|e| |]; try (by destruct Ha).
    + destruct c; intros [= <- <-]; simpl; eauto.
    + intros [= <- <-]. eauto.
Qed.

(** A request of the lock handler, and the states it is answered with *)
Definition lock_kind (req : CacheSM.CacheRequest) (P : DLock.LockState -> Prop) : Prop :=
  forall c, cache_response_for req c -> exists st, c = CacheSM.RLock st /\ P st.
Lemma lock_kind_lock key t : lock_kind (CacheSM.Lock key t) (fun s => s <> DLock.Released).
Proof. intros [| |[]| |]; try done; by eauto. Qed.
Lemma lock_kind_alive key id : lock_kind (CacheSM.LockAlive key id) await_answer.
Proof. intros [| |[]| |]; try done; by eauto. Qed.
Lemma lock_kind_release key id : lock_kind (CacheSM.LockRelease key id) (fun s => s = DLock.Released).
Proof. intros [| |[]| |]; try done; by eauto. Qed.

Lemma lock_req_writes req P : lock_kind req P -> cache_writes_one req (lock_req_retry req false).
Proof.
  intros Hk. apply retry_cache. intros s r s' Hr. apply lock_req_eq in Hr as (rc & Hc & ->); [|by intros c (st & -> & _)%Hk; eauto].
  pose proof (cache_req_writes _ _ _ _ Hc) as [He Hw]. split; [|done]. destruct rc as [c|e| |]; try done.
  apply cache_req_yields, Hk in Hc as (st & -> & _). done.
Qed.
Lemma lock_req_yields req P : lock_kind req P -> yields P (lock_req_retry req false).
Proof.
  intros Hk. apply retry_yields. intros s r s' Hr. apply lock_req_eq in Hr as (rc & Hc & Hr); [|by intros c (st & -> & _)%Hk; eauto].
  destruct rc as [c|e| |]; try done. apply cache_req_yields, Hk in Hc as (st & -> & Hst). simpl in Hr. by inversion Hr.
Qed.

(** The heartbeat and the release of a lock *)
Lemma alive_call_writes key id : cache_writes_one (CacheSM.LockAlive key id) (alive_call key id).
Proof. eapply lock_req_writes, lock_kind_alive. Qed.
Lemma alive_call_yields key id : yields await_answer (alive_call key id).
Proof. apply lock_req_yields, lock_kind_alive. Qed.
Lemma release_call_at_most key id (s s' : Client * W) r : release_call key id s = (r, s') ->
  (r = Ok tt \/ (r = OutOfFuel /\ sends_block)) /\ at_most (CacheSM.LockRelease key id) (cache_writes s.2) (cache_writes s'.2) /\ writes s'.2 = writes s.2.
Proof.
  unfold release_call. step_st. unfold st_try. destruct (lock_req_retry _ false s) as [[a|e| |] s1] eqn:E;
    pose proof (lock_req_writes _ _ (lock_kind_release key id) _ _ _ E) as [He Hw]; try done; intros [= <- <-].
  - split; [by left|]. split; [by right|done].
  - split; [by left|]. split; [|done]. simpl in He. destruct (is_forward_to_leader e); [by left|done].
  - destruct He as [Hb Hm]. split; [by right|done].
Qed.

(** Waiting for a ticket leaves nothing, and the answer is never [Queued]. *)
Lemma lock_await_quiet key id : quiet (lock_await_call key id).
Proof.
  intros [c w] r s'. unfold lock_await_call, is_member, on_world. step_st. destruct (self c) as [n|] eqn:Hself.
  - destruct (local_await key id w) as [ch w1] eqn:E. apply await_ok in E as (Hw & Hc & Ha). destruct ch; by intros [= <- <-].
  - unfold lock_req_retry, with_retry, retry_with, lock_req. step_st. unfold is_leader at 1. rewrite Hself.
    destruct (ask Cache (LockAwait _) (c, w)) as [[a|e| |] s1] eqn:E; apply ask_spec in E; try done; simpl in E; destruct E as (Ha & Hd & Hc).
    + destruct a as [| | | | | | | | |r0|]; try done. destruct Ha as (st & -> & Hst). destruct st; try done; by intros [= <- <-].
    + destruct (was_leader_update_error Cache e s1) as [rb s2] eqn:El. apply leader_error_quiet in El as (Hw & Hcw & Hrb).
      destruct rb as [[]|?| |]; try done; [by destruct Hrb as [f Hf]; rewrite Hf in Ha| |by destruct Hrb as [_ [f Hf]]; rewrite Hf in Ha].
      intros [= <- <-]. by rewrite Hw, Hcw.
    + by intros [= <- <-].
Qed.
Lemma lock_await_yields key id : yields await_answer (lock_await_call key id).
Proof.
  intros [c w] r s'. unfold lock_await_call, is_member, on_world. step_st. destruct (self c) as [n|] eqn:Hself.
  - destruct (local_await key id w) as [ch w1] eqn:E. apply await_ok in E as (Hw & Hc & Ha). destruct ch; intros Hr; inversion Hr; subst. by apply Ha.
  - unfold lock_req_retry, with_retry, retry_with, lock_req. step_st. unfold is_leader at 1. rewrite Hself.
    destruct (ask Cache (LockAwait _) (c, w)) as [[a|e| |] s1] eqn:E; apply ask_spec in E; try done; simpl in E; destruct E as (Ha & Hd & Hc).
    + destruct a as [| | | | | | | | |r0|]; try done. destruct Ha as (st & -> & Hst). destruct st; try done; intros Hr; by inversion Hr.
    + destruct (was_leader_update_error Cache e s1) as [rb s2] eqn:El. apply leader_error_quiet in El as (Hw & Hcw & Hrb).
      destruct rb as [[]|?| |]; try done. by destruct Hrb as [f Hf]; rewrite Hf in Ha.
Qed.

(** The entries of the loop: the first one with the ticket it starts with, all others
    with a ticket *)
Definition claims (key : string) (ticket : option Z) (l : list CacheSM.CacheRequest) : Prop :=
  match l with
  | [] => True
  | x :: rest => x = CacheSM.Lock key ticket /\ Forall (fun y => exists id, y = CacheSM.Lock key (Some id)) rest
  end.
Lemma claims_some key id l : claims key (Some id) l -> Forall (fun y => exists id, y = CacheSM.Lock key (Some id)) l.
Proof. destruct l as [|x l]; [constructor|]. intros [-> Hl]. constructor; eauto. Qed.

Lemma lock_loop_claims key fuel : forall ticket (s : Client * W) r s', lock_loop fuel key ticket s = (r, s') ->
  writes s'.2 = writes s.2 /\ exists l, cache_writes s'.2 = cache_writes s.2 ++ l /\ claims key ticket l /\
  match r with Panic => False | OutOfFuel => length l = fuel \/ sends_block | Ok _ => l <> [] | Err _ => True end.
Proof.
  induction fuel as [|fuel IH]; intros ticket s r s'; simpl; step_st.
  { intros [= <- <-]. split; [done|]. exists []. rewrite app_nil_r. split; [done|]. split; [done|by left]. }
  destruct (lock_req_retry _ false s) as [r1 s1] eqn:E1. pose proof (lock_req_writes _ _ (lock_kind_lock key ticket) _ _ _ E1) as [He1 Hw1].
  destruct r1 as [st|e| |]; try done.
  3: { intros [= <- <-]. split; [done|]. destruct He1 as [Hb [-> | ->]]; [exists []; rewrite app_nil_r; split; [done|]; split; [done|by right]|].
       exists [CacheSM.Lock key ticket]. split; [done|]. split; [split; [done|constructor]|by right]. }
  2: { intros [= <- <-]. split; [done|]. simpl in He1. destruct (is_forward_to_leader e).
       - exists []. by rewrite app_nil_r.
       - destruct He1 as [-> | ->]; [exists []; by rewrite app_nil_r|]. exists [CacheSM.Lock key ticket]. repeat split; by constructor. }
  simpl in He1. pose proof (lock_req_yields _ _ (lock_kind_lock key ticket) _ _ _ E1) as Hst.
  assert (Hone : claims key ticket [CacheSM.Lock key ticket]) by (split; [done|constructor]).
  destruct st as [id|id|]; [| |by destruct Hst].
  { intros [= <- <-]. split; [done|]. by exists [CacheSM.Lock key ticket]. }
  destruct (lock_await_call key id s1) as [r2 s2] eqn:E2. pose proof (lock_await_quiet key id _ _ _ E2) as (Hw2 & Hc2 & H2).
  destruct r2 as [st|e| |]; try done.
  3: { intros [= <- <-]. rewrite Hw2, Hc2. split; [done|]. exists [CacheSM.Lock key ticket]. split; [done|]. split; [done|by right]. }
  2: { intros [= <- <-]. rewrite Hw2, Hc2. split; [done|]. by exists [CacheSM.Lock key ticket]. }
  pose proof (lock_await_yields key id _ _ _ E2) as Ha. destruct st as [id2|id2|]; try done.
  { intros [= <- <-]. rewrite Hw2, Hc2. split; [done|]. by exists [CacheSM.Lock key ticket]. }
  intros (Hw3 & l & Hl & Hcl & Hr)%IH. rewrite Hw3, Hw2. split; [done|].
  exists (CacheSM.Lock key ticket :: l). rewrite Hl, Hc2, He1, <- app_assoc. split; [done|]. split; [split; [done|by eapply claims_some]|].
  destruct r; try done. destruct Hr as [Hr|Hr]; [left; simpl; by f_equal|by right].
Qed.
End Spec.
