(* ===== verification/NetProxy.v ===== *)
(** The proxy of the server binary: [hiqlite/src/server/proxy/stream.rs] and the routes of
    [hiqlite/src/server/proxy/mod.rs] and [hiqlite/src/start.rs].

    The proxy is a remote client: it serves a request of its own clients with the calls of
    [NetClient], which give the response the same variants a node gives. *)
From stdpp Require Import base gmap strings list numbers sorting.
From Stdlib Require Import Strings.Byte Ascii.
From S2P Require Import Prelude Text DLock CacheSM SqlRows SqlBase SqlSM SqlMigrate NetBase NetServer NetLimit NetClient NetClientSpec.
Import Net Server Client.

#[local] Open Scope Z_scope.

Module Proxy.
Section Serve.
Context {W : Type} `{ClientWorld W}.
Abbreviation CSt := (St ApiError (Client * W)).

(** The result of a call becomes the result of the response. *)
Definition answer {A} (wrap : Res ApiError A -> ApiStreamResponsePayload) (m : CSt A) : CSt ApiStreamResponsePayload := fun s =>
  match m s with
  | (Ok a, s) => (Ok (wrap (Ok a)), s)
  | (Err e, s) => (Ok (wrap (Err e)), s)
  | (Panic, s) => (Panic, s)
  | (OutOfFuel, s) => (OutOfFuel, s)
  end.

(** [query] *)
Definition query (q : Sql.Query) (consistent : bool) : CSt ApiStreamResponsePayload :=
  answer (if consistent then PQueryConsistent else PQuery) (with_retry Db (query_remote_req q consistent)).

(** The task of a request in [handle_socket]; the clock is read for a backup. *)
Definition serve_payload (ts ts' : Z) (p : ApiStreamRequestPayload) : CSt ApiStreamResponsePayload :=
  match p with
  | Execute q => answer PExecute (execute q)
  | ExecuteReturning q => answer PExecuteReturning (with_retry Db (execute_returning_req q))
  | Transaction qs => answer PTransaction (with_retry Db (txn_execute qs))
  | QueryConsistent q => query q true
  | Batch sql => answer PBatch (batch sql)
  | Migrate migs => answer PMigrate (with_retry Db (migrate_execute migs))
  | Backup _ _ => answer PBackup (backup ts ts')
  | Query q => query q false
  | KV req => answer PKV (cache_req_retry req false)
  | KVGet req => answer PKV (cache_req_retry req true)
  | LockAwait req => answer PLock (lock_req_retry req true)
  | Notify req => answer PNotify (notify_req req)
  end.
Definition serve_request (ts ts' : Z) (req : ApiStreamRequest) : CSt ApiStreamResponse :=
  r ← serve_payload ts ts' (payload req); mret (mkResponse (request_id req) r).
End Serve.

(** ** Routes: a path matches segment by segment, a name in braces matches any segment. *)
Fixpoint segments (s : string) : list string :=
  match s with
  | EmptyString => [EmptyString]
  | String a s => if Ascii.eqb a "/" then EmptyString :: segments s
                  else match segments s with x :: xs => String a x :: xs | [] => [String a EmptyString] end
  end.
Definition is_param (s : string) : bool := match s with String a _ => Ascii.eqb a "{" | EmptyString => false end.
Fixpoint matches (template path : list string) : bool :=
  match template, path with
  | [], [] => true
  | t :: ts, p :: ps => (String.eqb t p || (is_param t && negb (String.eqb p ""))) && matches ts ps
  | _, _ => false
  end.
Definition routed (routes : list string) (path : string) : bool := existsb (fun r => matches (segments r) (segments path)) routes.

(** [start_proxy] *)
Definition PROXY_ROUTES : list string := ["/cluster/metrics/{raft_type}"; "/listen"; "/stream"; "/ping"; "/version"].
(** [default_routes] of [start_node_inner] *)
Definition NODE_ROUTES : list string :=
  ["/cluster/add_learner/{raft_type}"; "/cluster/become_member/{raft_type}"; "/cluster/membership/{raft_type}"; "/cluster/metrics/{raft_type}";
   "/listen"; "/stream/{raft_type}"; "/backup"; "/health"; "/ready"; "/ping"; "/version"].
(** [try_connect] of the client stream *)
Definition stream_path (l : Layer) : string := "/stream/" +:+ match l with Db => "sqlite" | Cache => "cache" end.
End Proxy.

(** * What is served, and what it leaves in the log *)
Import Net Server Client Proxy.

#[local] Open Scope Z_scope.

Section Spec.
Context {W : Type} `{ClientWorld W} `{WorldLog W} `{!ClientWorldOk (W := W)}.
Abbreviation CSt := (St ApiError (Client * W)).

(** What a request with this result has left in the two logs *)
Definition layer_effect {X A} (x : option X) (r : Res ApiError A) (l l' : list X) : Prop :=
  match x with Some x => effect (sends_block (W := W)) x r l l' | None => l' = l end.
Definition log_effect {A} (p : ApiStreamRequestPayload) (r : Res ApiError A) (w w' : W) : Prop :=
  layer_effect (db_entry p) r (writes w) (writes w') /\ layer_effect (cache_entry p) r (cache_writes w) (cache_writes w').

(** A call of a remote client on behalf of a request of [Q] *)
Definition remote {A} (Q : ApiStreamRequestPayload -> Prop) (P : A -> Prop) (m : CSt A) : Prop := forall c w r s',
  self c = None -> m (c, w) = (r, s') ->
  exists p, Q p /\ self s'.1 = None /\ log_effect p r w s'.2 /\ match r with Ok a => P a | Err _ => True | OutOfFuel => sends_block (W := W) | Panic => False end.

Lemma layer_result {X A} (x : option X) (r : Res ApiError A) l l' : layer_effect x (r ≫= fun _ => Ok tt) l l' -> layer_effect x r l l'.
Proof. destruct x; [by destruct r|done]. Qed.
Lemma layer_stream {X} (x : option X) a l l' : stream_effect x (Accepted (Received (Ok a))) l l' -> layer_effect x (result_of a) l l'.
Proof. destruct x; [|done]. cbn [stream_effect layer_effect]. generalize (result_of a). intros r. destruct r; try done. by intros []. Qed.
Lemma layer_closed {X A} (x : option X) e l l' : is_forward_to_leader e = None -> stream_effect x (Accepted Closed) l l' -> layer_effect x (Err e : Res ApiError A) l l'.
Proof. intros Hf. destruct x; simpl; [by rewrite Hf|done]. Qed.

Lemma layer_blocked {X A} (x : option X) l l' : sends_block (W := W) -> l' = l -> layer_effect x (OutOfFuel : Res ApiError A) l l'.
Proof. intros Hb ->. destruct x; simpl; [split; [done|by left]|done]. Qed.

Lemma ask_self l p (c : Client) (w : W) r s' : ask l p (c, w) = (r, s') -> self s'.1 = self c.
Proof.
  unfold ask, new_request_id, on_world. step_st. destruct (stream _ _ w) as [[[a| |]| |] w'] eqn:E; [destruct a| | | |]; by intros [= _ <-].
Qed.
(** A request through the stream *)
Lemma remote_ask {A} l (Q : ApiStreamRequestPayload -> Prop) p (P : A -> Prop) (k : ApiStreamResponsePayload -> CSt A) : Q p ->
  (forall a, payload_for p a -> exists x : Res ApiError A, (forall s, k a s = (x, s)) /\ result_of a = (x ≫= fun _ => Ok tt) /\ match x with Ok b => P b | Err _ => True | _ => False end) ->
  remote Q P (a ← ask l p; k a).
Proof.
  intros HQ Hk c w r s' Hs. step_st. destruct (ask l p (c, w)) as [[a|e| |] s1] eqn:E; pose proof (ask_self _ _ _ _ _ _ E) as Hs1; apply ask_spec in E; try done;
    intros Hr; exists p; (split; [done|]); revert Hr.
  - destruct E as (Ha & Hd & Hc). destruct (Hk a Ha) as (x & Hx & Hr & Hp). rewrite Hx. intros [= <- <-]. split; [congruence|]. split; [|by destruct x].
    apply layer_stream in Hd, Hc. rewrite Hr in Hd, Hc. split; by apply layer_result.
  - destruct E as (Hf & Hd & Hc). intros [= <- <-]. split; [congruence|]. split; [|done]. split; by apply layer_closed.
  - destruct E as (Hb & Hd & Hc). intros [= <- <-]. split; [congruence|]. split; [|done]. split; by apply layer_blocked.
Qed.

Lemma remote_leader {A} Q (P : A -> Prop) l (m1 m2 : CSt A) : remote Q P m2 -> remote Q P (b ← is_leader l; if (b : bool) then m1 else m2).
Proof. intros Hm c w r s' Hs. unfold is_leader. step_st. rewrite Hs. by apply Hm. Qed.

Lemma leader_error_self l e (s : Client * W) : self (was_leader_update_error l e s).2.1 = self s.1.
Proof.
  destruct s as [c w]. unfold was_leader_update_error. destruct (is_forward_to_leader e) as [[[id|] [node|]]|]; try done.
  destruct (change_leader l (Some id, Some node) w) as [[] w'], (_ =? _); try done; by destruct l.
Qed.
Lemma remote_retry {A} l Q (P : A -> Prop) (m m' : CSt A) : remote Q P m -> remote Q P m' -> remote Q P (retry_with l m m').
Proof.
  intros Hm Hm' c w r s' Hs. unfold retry_with. destruct (m (c, w)) as [[a|e| |] s1] eqn:E; pose proof (Hm _ _ _ _ Hs E) as (p & HQ & Hs1 & Hl & Hp); try done.
  - intros [= <- <-]. eauto 6.
  - pose proof (leader_error_self l e s1) as Hself. destruct (was_leader_update_error l e s1) as [rb [c2 w2]] eqn:El.
    apply leader_error_quiet in El as (Hw & Hcw & Hrb). simpl in *. assert (self c2 = None) as Hc2 by congruence.
    assert ((exists f, is_forward_to_leader e = Some f) -> writes w2 = writes w /\ cache_writes w2 = cache_writes w) as Hnone.
    { intros [f Hf]. rewrite Hw, Hcw. unfold log_effect, layer_effect, effect in Hl. rewrite Hf in Hl. destruct Hl as [Hd Hc].
      by destruct (db_entry p), (cache_entry p). }
    destruct rb as [[]|x| |]; try done.
    + intros Hr. destruct (Hnone Hrb) as [E1 E2].
      pose proof (Hm' _ _ _ _ Hc2 Hr) as (p' & HQ' & Hs2 & Hl2 & Hp2). exists p'. split; [done|]. split; [done|]. split; [|done].
      unfold log_effect in *. by rewrite E1, E2 in Hl2.
    + intros [= <- <-]. exists p. split; [done|]. split; [done|]. split; [|done]. unfold log_effect in *. simpl. by rewrite Hw, Hcw.
    + intros [= <- <-]. destruct Hrb as [Hb Hf]. destruct (Hnone Hf) as [E1 E2]. exists p. split; [done|]. split; [done|].
      split; [|done]. split; by apply layer_blocked.
  - intros [= <- <-]. eauto 6.
Qed.

Lemma rate_limit_self l (s : Client * W) : self (rate_limit l s).2.1 = self s.1.
Proof.
  destruct s as [c w]. unfold rate_limit, try_rate_limit, on_world. step_st. destruct (tokens_of l c) as [t|]; [|done].
  destruct (Limit.try_take t); [by destruct l|]. by destruct (await_tick l w) as [[[]|] w1].
Qed.
Lemma layer_quiet {X A} (x : option X) e l l' : is_forward_to_leader e = None -> l' = l -> layer_effect x (Err e : Res ApiError A) l l'.
Proof. intros Hf ->. destruct x; simpl; [rewrite Hf; by left|done]. Qed.
Lemma remote_rate {A} l (Q : ApiStreamRequestPayload -> Prop) p (P : A -> Prop) (m : CSt A) : Q p -> remote Q P m -> remote Q P (rate_limit l ;; m).
Proof.
  intros HQ Hm c w r s' Hs. step_st. pose proof (rate_limit_self l (c, w)) as Hself. destruct (rate_limit l (c, w)) as [r1 [c1 w1]] eqn:E.
  apply rate_limit_quiet in E as (Hw & Hc & Hr). simpl in *. assert (self c1 = None) by congruence. destruct r1 as [u|e| |]; try done.
  - intros (p' & HQ' & Hs2 & Hl & Hp)%Hm; [|done]. exists p'. split; [done|]. unfold log_effect in *. by rewrite Hw, Hc in Hl.
  - intros [= <- <-]. exists p. split; [done|]. split; [done|]. split; [|done]. split; by apply layer_quiet.
  - intros [= <- <-]. exists p. split; [done|]. split; [done|]. split; [|done]. split; by apply layer_blocked.
Qed.

(** ** The requests *)
Lemma remote_db {A} timed q (Q : ApiStreamRequestPayload -> Prop) p (P : A -> Prop) (of_response : SqlSM.Response -> option (Res SqlError A)) (of_payload : ApiStreamResponsePayload -> option (Res ApiError A)) :
  Q p -> (forall a, payload_for p a -> exists x : Res ApiError A, of_payload a = Some x /\ result_of a = (x ≫= fun _ => Ok tt) /\ match x with Ok b => P b | Err _ => True | _ => False end) ->
  remote Q P (db_call timed q p of_response of_payload).
Proof.
  intros HQ Hp. apply remote_leader, (remote_ask _ _ p); [done|]. intros a Ha. destruct (Hp a Ha) as (x & Hx & Hr & Hok). exists x. split; [|done].
  intros s. unfold expect. by rewrite Hx.
Qed.
Lemma settled_ok {A} (r : Res ApiError A) : settled r -> match r with Ok _ => True | Err _ => True | _ => False end.
Proof. by destruct r. Qed.
Lemma unit_result (r : Res ApiError unit) : r = (r ≫= fun _ => Ok tt).
Proof. by destruct r as [[]| | |]. Qed.

#[local] Ltac by_remote_db := apply remote_db; [done|]; intros [] Ha; try done; eexists; split; [done|]; (split; [first [done|apply unit_result]|by apply settled_ok]).
Lemma remote_execute q : remote (eq (Execute q)) (fun _ => True) (execute_req q).
Proof. by_remote_db. Qed.
Lemma remote_returning q : remote (eq (ExecuteReturning q)) (fun _ => True) (execute_returning_req q).
Proof. by_remote_db. Qed.
Lemma remote_txn qs : remote (eq (Transaction qs)) (fun _ => True) (txn_execute qs).
Proof. by_remote_db. Qed.
Lemma remote_batch sql : remote (eq (Batch sql)) (fun _ => True) (batch_execute sql).
Proof. by_remote_db. Qed.
Lemma remote_migrate migs : remote (eq (Migrate migs)) (fun _ => True) (migrate_execute migs).
Proof. by_remote_db. Qed.
Lemma remote_query q (consistent : bool) : remote (eq (if consistent then QueryConsistent q else Query q)) (fun _ => True) (query_remote_req q consistent).
Proof.
  unfold query_remote_req. apply remote_ask; [done|]. intros a Ha.
  destruct consistent, a; try done; eexists; (split; [intros s; unfold expect; done|]); (split; [done|by apply settled_ok]).
Qed.
Lemma remote_kv req : remote (eq (KV req)) (cache_response_for req) (cache_req req false).
Proof.
  apply remote_leader, remote_ask; [done|]. intros a Ha. destruct a as [| | | | | | | |r| |]; try done. destruct Ha as [Hs Ht]. exists r.
  split; [done|]. split; [done|]. destruct r; try done. by apply Ht.
Qed.
Lemma remote_kv_get req : remote (eq (KVGet req)) (fun c => exists v, c = CacheSM.RValue v) (cache_req req true).
Proof.
  apply remote_leader, remote_ask; [done|]. intros a Ha. destruct a as [| | | | | | | |r| |]; try done. destruct Ha as [Hs Ht]. exists r.
  split; [done|]. split; [done|]. destruct r; try done. by apply Ht.
Qed.
Lemma remote_await req : remote (eq (LockAwait req)) await_answer (lock_req req true).
Proof.
  apply remote_leader, remote_ask; [done|]. intros a Ha. destruct a as [| | | | | | | | |r|]; try done. destruct Ha as (st & -> & Hst).
  exists (Ok st). by destruct st.
Qed.
Lemma remote_notify req : remote (eq (Notify req)) (fun _ => True) (notify_req req).
Proof.
  apply remote_leader, remote_ask; [done|]. intros a Ha. destruct a as [| | | | | | | | | |r]; try done. exists r. split; [done|].
  split; [apply unit_result|by apply settled_ok].
Qed.

(** A backup is asked for with the leader the proxy knows and its own clock. *)
Definition same_kind (p p' : ApiStreamRequestPayload) : Prop :=
  match p with Backup _ _ => exists n ts, p' = Backup n ts | _ => p' = p end.
Definition answer_for (p : ApiStreamRequestPayload) (r : ApiStreamResponsePayload) : Prop :=
  match p, r with
  | LockAwait _, PLock r => settled r /\ forall s, r = Ok s -> await_answer s
  | LockAwait _, _ => False
  | _, _ => payload_for p r
  end.

Lemma remote_backup ts n0 ts0 : remote (same_kind (Backup n0 ts0)) (fun _ => True) (backup_execute ts).
Proof.
  intros c w r s' Hs. unfold backup_execute. simpl. apply (remote_db true _ (same_kind (Backup n0 ts0)) (Backup (leader_db c).1 ts) (fun _ => True)); [by eexists _, _| |done].
  intros [] Ha; try done. eexists. split; [done|]. split; [apply unit_result|by apply settled_ok].
Qed.

(** What a proxy did with a request: it answered, with the variant of the request, or a
    send to its stream manager never returned. *)
Definition served (p : ApiStreamRequestPayload) (w : W) (o : Res ApiError ApiStreamResponsePayload * (Client * W)) : Prop :=
  exists q, same_kind p q /\
  match o.1 with
  | Ok r => answer_for p r /\ log_effect q (result_of r) w o.2.2
  | OutOfFuel => sends_block (W := W) /\ log_effect q (OutOfFuel : Res ApiError unit) w o.2.2
  | Err _ | Panic => False
  end.

Lemma answer_remote {A} p Q (P : A -> Prop) wrap (m : CSt A) c w :
  self c = None -> remote Q P m -> (forall q, Q q -> same_kind p q) -> (forall r, result_of (wrap r) = (r ≫= fun _ => Ok tt)) ->
  (forall r, match r with Ok a => P a | Err _ => True | _ => False end -> answer_for p (wrap r)) ->
  served p w (answer wrap m (c, w)).
Proof.
  intros Hs Hm Hk Hw Ha. unfold answer. destruct (m (c, w)) as [r s'] eqn:E. apply Hm in E as (q & HQ & _ & Hl & Hr); [|done].
  exists q. split; [by apply Hk|]. destruct r as [a|e| |]; [| |done|].
  - simpl. split; [by apply Ha|]. rewrite Hw. exact Hl.
  - simpl. split; [by apply Ha|]. rewrite Hw. exact Hl.
  - split; [done|]. exact Hl.
Qed.

Lemma proxy_serves ts ts' p c w : self c = None -> served p w (serve_payload ts ts' p (c, w)).
Proof.
  intros Hs. destruct p as [q|q|qs|q|sql|migs|n t|req|q|req|req|req]; unfold serve_payload, query.
  - apply (answer_remote _ (eq (Execute q)) (fun _ => True)); [done| |by intros ? <-|done|by intros []].
    eapply remote_rate; [done|]. apply remote_retry; apply remote_execute.
  - apply (answer_remote _ (eq (ExecuteReturning q)) (fun _ => True)); [done| |by intros ? <-|done|by intros []]. apply remote_retry; apply remote_returning.
  - apply (answer_remote _ (eq (Transaction qs)) (fun _ => True)); [done| |by intros ? <-|done|by intros []]. apply remote_retry; apply remote_txn.
  - apply (answer_remote _ (eq (QueryConsistent q)) (fun _ => True)); [done| |by intros ? <-|done|by intros []]. apply remote_retry; apply (remote_query q true).
  - apply (answer_remote _ (eq (Batch sql)) (fun _ => True)); [done| |by intros ? <-|done|by intros []].
    eapply remote_rate; [done|]. apply remote_retry; apply remote_batch.
  - apply (answer_remote _ (eq (Migrate migs)) (fun _ => True)); [done| |by intros ? <-|apply unit_result|by intros []]. apply remote_retry; apply remote_migrate.
  - apply (answer_remote _ (same_kind (Backup n t)) (fun _ => True)); [done| |done|apply unit_result|by intros []].
    eapply remote_rate; [by eexists n, t|]. apply remote_retry; apply remote_backup.
  - apply (answer_remote _ (eq (KV req)) (cache_response_for req)); [done| |by intros ? <-|done|]; [apply remote_retry; apply remote_kv|].
    intros r Hr. simpl. split; [by destruct r|]. intros a ->. done.
  - apply (answer_remote _ (eq (Query q)) (fun _ => True)); [done| |by intros ? <-|done|by intros []]. apply remote_retry; apply (remote_query q false).
  - apply (answer_remote _ (eq (KVGet req)) (fun x => exists v, x = CacheSM.RValue v)); [done| |by intros ? <-|done|]; [apply remote_retry; apply remote_kv_get|].
    intros r Hr. simpl. split; [by destruct r|]. intros a ->. done.
  - apply (answer_remote _ (eq (LockAwait req)) await_answer); [done| |by intros ? <-|done|]; [apply remote_retry; apply remote_await|].
    intros r Hr. simpl. split; [by destruct r|]. intros a ->. done.
  - apply (answer_remote _ (eq (Notify req)) (fun _ => True)); [done|apply remote_notify|by intros ? <-|apply unit_result|by intros []].
Qed.
End Spec.
