(* ===== verification/NetLock.v ===== *)
(** The heartbeat of a held lock: [spawn_alive_ticker] and [Lock] of
    [hiqlite/src/client/dlock.rs].

    Times are in milliseconds.  The ticker waits [LOCK_ALIVE_INTERVAL] between two ticks
    and delays ticks it missed.  A round is the answer to a [LockAlive] request and the
    time it took.  The age of the last renewal goes through [f32] seconds: it is the
    class [Elapsed]. *)
From stdpp Require Import base strings list numbers.
From S2P Require Import Prelude DLock CacheSM NetBase.
Import Net.

#[local] Open Scope Z_scope.

Module Heartbeat.

Definition LOCK_ALIVE_INTERVAL : Z := 3000.

(** [(Utc::now().sub(last_renew).as_seconds_f32() * 1000.0) as u64] *)
Class Elapsed : Type := elapsed_ms : Z -> Z -> Z.
Class ElapsedOk `{Elapsed} : Prop := {
  elapsed_close : forall now last, last <= now <= last + 2 ^ 22 -> now - last - 1 <= elapsed_ms now last <= now - last + 1;
  elapsed_far : forall now last, last + 2 ^ 22 < now -> 2 ^ 21 < elapsed_ms now last;
}.

Record Ticker : Type := mkTicker {
  is_locked : bool;
  last_renew : Z;
  due : Z;
  clock : Z;
  running : bool;
}.

(** [acquired] at a time *)
Definition acquired (now : Z) : Ticker := mkTicker true now (now + LOCK_ALIVE_INTERVAL) now true.

Record Round : Type := mkRound { answer : Res ApiError DLock.LockState; took : Z }.

Section Ticker.
Context `{Elapsed}.

(** When the answer of the next round arrives *)
Definition tick_at (t : Ticker) : Z := Z.max (due t) (clock t).
Definition answer_at (t : Ticker) (r : Round) : Z := tick_at t + took r.

(** One round of the loop *)
Definition round (r : Round) (t : Ticker) : Res ApiError Ticker :=
  if negb (running t) then Ok t else
  let now := answer_at t r in
  let due := tick_at t + LOCK_ALIVE_INTERVAL in
  match answer r with
  | Ok (DLock.Locked _) => Ok (mkTicker true now due now true)
  | Ok DLock.Released => Ok (mkTicker false (last_renew t) due now false)
  | Ok (DLock.Queued _) => Panic
  | Err _ =>
      if DLock.LOCK_VALID_SECONDS * 1000 - LOCK_ALIVE_INTERVAL <? elapsed_ms now (last_renew t)
      then Ok (mkTicker false (last_renew t) due now false)
      else Ok (mkTicker (is_locked t) (last_renew t) due now true)
  | Panic => Panic
  | OutOfFuel => OutOfFuel
  end.
(** The cancel channel *)
Definition cancel (t : Ticker) : Ticker := mkTicker (is_locked t) (last_renew t) (due t) (clock t) false.

Fixpoint rounds (rs : list Round) (t : Ticker) : Res ApiError Ticker :=
  match rs with
  | [] => Ok t
  | r :: rs => t ← round r t; rounds rs t
  end.

(** ** Properties *)

(** The answers the requests of the heartbeat have, within a time *)
Definition round_ok (d : Z) (r : Round) : Prop :=
  0 <= took r <= d /\ match answer r with Ok (DLock.Queued _) => False | Ok _ | Err _ => True | _ => False end.

(** What a running ticker knows *)
Definition fresh (t : Ticker) : Prop :=
  is_locked t = running t /\ (running t = true ->
    last_renew t <= clock t /\ clock t - last_renew t <= DLock.LOCK_VALID_SECONDS * 1000 - LOCK_ALIVE_INTERVAL + 1 /\
    due t <= clock t + LOCK_ALIVE_INTERVAL).

Lemma acquired_fresh now : fresh (acquired now).
Proof. split; [done|]. simpl. unfold LOCK_ALIVE_INTERVAL, DLock.LOCK_VALID_SECONDS. lia. Qed.

Context `{!ElapsedOk}.

Lemma round_fresh d r t : round_ok d r -> fresh t -> exists t', round r t = Ok t' /\ fresh t'.
Proof.
  intros [Ht Ha] [Hl Hf]. unfold round, answer_at, tick_at. destruct (running t) eqn:Er; simpl; [|eexists; split; [done|]; split; [by rewrite Hl, Er|by rewrite Er]].
  destruct (Hf eq_refl) as (H1 & H2 & H3). destruct (answer r) as [[id|id|]|e| |]; try done.
  - eexists. split; [done|]. split; [done|]. simpl. unfold LOCK_ALIVE_INTERVAL, DLock.LOCK_VALID_SECONDS in *. lia.
  - eexists. split; [done|]. by split.
  - destruct (Z.ltb_spec (DLock.LOCK_VALID_SECONDS * 1000 - LOCK_ALIVE_INTERVAL) (elapsed_ms (Z.max (due t) (clock t) + took r) (last_renew t))) as [Hlt|Hge];
      (eexists; split; [done|]); [by split|]. split; [by rewrite Hl|]. simpl.
    pose proof (elapsed_close (Z.max (due t) (clock t) + took r) (last_renew t)). pose proof (elapsed_far (Z.max (due t) (clock t) + took r) (last_renew t)). unfold LOCK_ALIVE_INTERVAL, DLock.LOCK_VALID_SECONDS in *. lia.
Qed.
Lemma rounds_fresh d rs : forall t, Forall (round_ok d) rs -> fresh t -> exists t', rounds rs t = Ok t' /\ fresh t'.
Proof.
  induction rs as [|r rs IH]; intros t Hr Ht; simpl; [eauto|].
  apply Forall_cons_1 in Hr as [Hr Hrs]. destruct (round_fresh d r t Hr Ht) as (t1 & -> & H1). by apply IH.
Qed.

(** How long the flag can be wrong: until the next answer arrives *)
Lemma fresh_bound d r t : round_ok d r -> fresh t -> is_locked t = true ->
  answer_at t r <= last_renew t + DLock.LOCK_VALID_SECONDS * 1000 + 1 + d.
Proof.
  intros [Ht _] [Hl Hf] Hlock. rewrite Hl in Hlock. destruct (Hf Hlock) as (H1 & H2 & H3).
  unfold answer_at, tick_at, LOCK_ALIVE_INTERVAL, DLock.LOCK_VALID_SECONDS in *. lia.
Qed.
End Ticker.
End Heartbeat.
