(* ===== verification/NetListen.v ===== *)
(** Listening to events over the network: [RemoteListener] and the [listen] calls of
    [hiqlite/src/client/listen_notify.rs].

    The handler is a state machine over the outcomes its loop waits for: the result of a
    connection attempt, what the reader task reports, the keepalive tick, the read
    timeout, and, after the connection ended, what is left in the channel of the reader.
    The class [EventCodec] is bincode's pair of a timestamp and the payload. *)
From stdpp Require Import base list numbers.
From Stdlib Require Import Strings.Byte.
From S2P Require Import Prelude NetBase.
Import Net.

#[local] Open Scope Z_scope.

Module Listen.

Definition LISTEN_READ_TIMEOUT : Z := 35000.
Definition RECONNECT_FAST_RETRIES : Z := 5.
Definition RECONNECT_SLOW_INTERVAL : Z := 5000.

Abbreviation Item := (Z * list byte)%type.
Inductive ListenRead : Type := Event (e : Item) | Liveness.

Class EventCodec : Type := {
  encode_event : Item -> list byte;
  decode_event : list byte -> option Item;
}.
Class EventCodecOk `{EventCodec} : Prop := event_round : forall e, decode_event (encode_event e) = Some e.

(** ** The reader task *)

(** [listen_reader]: what a frame becomes; [None] ends the task. *)
Definition read_frame `{EventCodec} (f : Frame) : option (option ListenRead) :=
  match opcode f with
  | Binary => match decode_event (frame_payload f) with Some e => Some (Some (Event e)) | None => None end
  | Close => None
  | Ping | Pong => Some (Some Liveness)
  | Continuation | Text => Some None
  end.
Fixpoint listen_reader `{EventCodec} (fs : list Frame) : list ListenRead :=
  match fs with
  | [] => []
  | f :: fs => match read_frame f with
               | Some (Some r) => r :: listen_reader fs
               | Some None => listen_reader fs
               | None => []
               end
  end.

(** ** The handler *)

Inductive Phase : Type := Connecting | Connected | Draining.
#[export] Instance Phase_eqdec : EqDecision Phase.
Proof. solve_decision. Defined.

(** [delivered]: what went into the channel of the client; [client_gone]: its receiver
    was dropped. *)
Record Handler : Type := mkHandler {
  phase : Phase;
  failed_retries : Z;
  last_frame : Z;
  ack_ready : bool;
  delivered : list Item;
  client_gone : bool;
}.

Inductive Input : Type :=
| InConnected (now : Z)
| InConnectFailed
| InRead (now : Z) (r : ListenRead)
| InReaderGone
| InKeepalive (written : bool)
| InTimeout (now : Z)
| InLeftover (r : ListenRead)
| InEmpty
| InClientGone.

(** [tx.send(..)] *)
Definition send (e : Item) (h : Handler) : bool * Handler :=
  if client_gone h then (false, h)
  else (true, mkHandler (phase h) (failed_retries h) (last_frame h) (ack_ready h) (delivered h ++ [e]) (client_gone h)).
Definition set_phase (p : Phase) (h : Handler) : Handler :=
  mkHandler p (failed_retries h) (last_frame h) (ack_ready h) (delivered h) (client_gone h).
Definition set_frame (t : Z) (h : Handler) : Handler :=
  mkHandler (phase h) (failed_retries h) t (ack_ready h) (delivered h) (client_gone h).

(** The handler; [None]: the input is not possible in this phase. *)
Definition on_input (i : Input) (h : Handler) : option Handler :=
  match phase h, i with
  | _, InClientGone => Some (mkHandler (phase h) (failed_retries h) (last_frame h) (ack_ready h) (delivered h) true)
  | Connecting, InConnected now => Some (mkHandler Connected 0 now true (delivered h) (client_gone h))
  | Connecting, InConnectFailed =>
      Some (mkHandler Connecting (wrap32 (failed_retries h + 1)) (last_frame h) (ack_ready h) (delivered h) (client_gone h))
  | Connected, InRead now (Event e) =>
      let '(ok, h) := send e (set_frame now h) in
      Some (if (ok : bool) then h else set_phase Draining h)
  | Connected, InRead now Liveness => Some (set_frame now h)
  | Connected, InReaderGone => Some (set_phase Draining h)
  | Connected, InKeepalive true => Some h
  | Connected, InKeepalive false => Some (set_phase Draining h)
  | Connected, InTimeout now => if LISTEN_READ_TIMEOUT <=? now - last_frame h then Some (set_phase Draining h) else None
  | Draining, InLeftover (Event e) => Some (send e h).2
  | Draining, InLeftover Liveness => Some h
  | Draining, InEmpty => Some (set_phase Connecting h)
  | _, _ => None
  end.
Fixpoint run (ins : list Input) (h : Handler) : option Handler :=
  match ins with
  | [] => Some h
  | i :: ins => h ← on_input i h; run ins h
  end.
Definition start : Handler := mkHandler Connecting 0 0 false [] false.

(** The wait after a failed attempt *)
Definition reconnect_interval (h : Handler) : Z := if failed_retries h <? RECONNECT_FAST_RETRIES then 1000 else RECONNECT_SLOW_INTERVAL.

(** ** The calls of the client on the channel *)

(** [try_listen]: the next event, without waiting *)
Definition try_listen {A} (decode : list byte -> option A) (ch : list Item) : option (option A) * list Item :=
  match ch with
  | [] => (Some None, [])
  | (_, bytes) :: ch => (Some <$> decode bytes, ch)
  end.
(** [listen_after], on what the channel gets: the first event that is new enough; [None]
    when there is none so far *)
Fixpoint listen_after {A} (decode : list byte -> option A) (after : Z) (ch : list Item) : option (option A) * list Item :=
  match ch with
  | [] => (None, [])
  | (ts, bytes) :: ch => if after <? ts then (Some (decode bytes), ch) else listen_after decode after ch
  end.
(** [listen_after] again and again *)
Fixpoint listen_all {A} (fuel : nat) (decode : list byte -> option A) (after : Z) (ch : list Item) : list (option A) :=
  match fuel with
  | O => []
  | S fuel => match listen_after decode after ch with
              | (Some a, ch) => a :: listen_all fuel decode after ch
              | (None, _) => []
              end
  end.

(** ** Properties *)

(** The events the reader reported *)
Definition event_of (r : ListenRead) : list Item := match r with Event e => [e] | Liveness => [] end.
Definition reported (i : Input) : list Item := match i with InRead _ r | InLeftover r => event_of r | _ => [] end.
Definition stays (i : Input) : bool := match i with InClientGone => false | _ => true end.

Lemma on_input_delivers i h h' : stays i = true -> client_gone h = false -> on_input i h = Some h' ->
  delivered h' = delivered h ++ reported i /\ client_gone h' = false.
Proof.
  intros Hs Hg. unfold on_input, send, set_frame, set_phase.
  destruct (phase h), i as [| | ? []| |[]| |[]| |]; try done; simpl; rewrite ?Hg; simpl; try (intros [= <-]; simpl; by rewrite ?app_nil_r).
  destruct (_ <=? _); [|done]. intros [= <-]. simpl. by rewrite app_nil_r.
Qed.
Lemma run_delivers ins : forall h h', Forall (fun i => stays i = true) ins -> client_gone h = false -> run ins h = Some h' ->
  delivered h' = delivered h ++ concat (reported <$> ins).
Proof.
  induction ins as [|i ins IH]; intros h h' Hs Hg; cbn [run].
  - intros [= <-]. by rewrite app_nil_r.
  - apply Forall_cons_1 in Hs as [Hi Hs]. destruct (on_input i h) as [h1|] eqn:E; simpl; [|done]. intros Hr.
    apply on_input_delivers in E as [Hd1 Hg1]; [|done..]. rewrite (IH _ _ Hs Hg1 Hr), Hd1, <- app_assoc. done.
Qed.

(** What the reader reports of frames of events *)
Lemma reader_events `{EventCodec} `{!EventCodecOk} es :
  listen_reader ((fun e => mkFrame Binary (encode_event e)) <$> es) = Event <$> es.
Proof. induction es as [|e es IH]; [done|]. rewrite !fmap_cons. cbn. rewrite event_round. by rewrite IH. Qed.

(** All new events, in order *)
Lemma listen_after_skip {A} (decode : list byte -> option A) after ch :
  match filter (fun e => after < e.1) ch with
  | [] => listen_after decode after ch = (None, [])
  | e :: rest => exists ch', listen_after decode after ch = (Some (decode e.2), ch') /\ rest = filter (fun e => after < e.1) ch' /\ (length ch' < length ch)%nat
  end.
Proof.
  induction ch as [|[ts b] ch IH]; [done|]. rewrite filter_cons. simpl.
  destruct (decide (after < ts)) as [Hlt|Hge].
  - rewrite (proj2 (Z.ltb_lt _ _) Hlt). simpl. exists ch. split; [done|]. split; [done|lia].
  - destruct (Z.ltb_spec after ts); [lia|]. destruct (filter _ ch) as [|e rest]; [done|].
    destruct IH as (ch' & -> & Hr & Hl). exists ch'. split; [done|]. split; [done|]. lia.
Qed.
Lemma listen_all_eq {A} (decode : list byte -> option A) after fuel : forall ch, (length ch < fuel)%nat ->
  listen_all fuel decode after ch = (fun e => decode e.2) <$> filter (fun e => after < e.1) ch.
Proof.
  induction fuel as [|fuel IH]; intros ch Hf; [lia|]. simpl. pose proof (listen_after_skip decode after ch) as Hs.
  destruct (filter _ ch) as [|e rest]; [by rewrite Hs|].
  destruct Hs as (ch' & -> & -> & Hl). rewrite IH by lia. done.
Qed.
End Listen.
