(* ===== verification/NetDemo.v ===== *)
(** Instances of the parameters of the network files: a cluster that answers every write
    unless its script says that it forwards to another leader, a toy hash, codecs, and a
    node whose answers are those of its state machines. *)
From stdpp Require Import base gmap strings list numbers countable.
From Stdlib Require Import Strings.Byte.
From S2P Require Import Prelude Codec DLock CacheSM SqlRows SqlBase SqlSM NetBase NetServer NetLimit NetClient NetClientSpec NetAuth NetLock NetListen NetRaft NetRaftSpec.
Import Net Server Client.

#[local] Open Scope Z_scope.

(** ** A cluster *)
Record World : Type := mkWorld { db_log : list SqlSM.QueryWrite; cache_log : list CacheSM.CacheRequest; script : list bool }.
#[export] Instance demo_log : WorldLog World := {| writes := db_log; cache_writes := cache_log |}.

Definition demo_node : Node := mkNode 2 "raft-2" "api-2".
Definition demo_forward : Forward := mkForward (Some 2) (Some demo_node).

(** Whether the next write is forwarded *)
Definition forwards (w : World) : bool := default false (head (script w)).
Definition advance (w : World) : World := mkWorld (db_log w) (cache_log w) (tail (script w)).
Definition log_db (q : SqlSM.QueryWrite) (w : World) : World := mkWorld (db_log w ++ [q]) (cache_log w) (tail (script w)).
Definition log_cache (r : CacheSM.CacheRequest) (w : World) : World := mkWorld (db_log w) (cache_log w ++ [r]) (tail (script w)).

Definition canned_db (q : SqlSM.QueryWrite) : SqlSM.Response :=
  match q with
  | SqlSM.Execute _ => SqlSM.RExecute (Ok (Some 1))
  | SqlSM.ExecuteReturning _ => SqlSM.RExecuteReturning (Ok [])
  | SqlSM.Transaction qs => SqlSM.RTransaction (Ok ((fun _ => Some 1) <$> qs))
  | SqlSM.Batch _ => SqlSM.RBatch (Ok [])
  | SqlSM.Migration _ => SqlSM.RMigrate (Ok tt)
  | SqlSM.Backup _ _ => SqlSM.RBackup (Ok tt)
  | SqlSM.RTT => SqlSM.RRTT
  end.
(** A lock is first taken by someone else, then free. *)
Definition canned_cache (r : CacheSM.CacheRequest) : option CacheSM.CacheResponse :=
  match r with
  | CacheSM.Get _ _ | CacheSM.CounterGet _ _ | CacheSM.LockAwait _ _ => None
  | CacheSM.GetRemove _ _ | CacheSM.Replace _ _ _ _ => Some (CacheSM.RValue None)
  | CacheSM.CounterAdd _ _ v => Some (CacheSM.RCounterValue (Some v))
  | CacheSM.Lock _ None => Some (CacheSM.RLock (DLock.Queued 5))
  | CacheSM.Lock _ (Some id) => Some (CacheSM.RLock (DLock.Locked id))
  | CacheSM.LockAlive _ id => Some (CacheSM.RLock (DLock.Locked id))
  | CacheSM.LockRelease _ _ => Some (CacheSM.RLock DLock.Released)
  | _ => Some CacheSM.ROk
  end.
Definition canned_payload (p : ApiStreamRequestPayload) (refused : bool) : option ApiStreamResponsePayload :=
  let e : ApiError := ClientWriteError (Some demo_forward) in
  match p with
  | Execute _ => Some (PExecute (if refused then Err e else Ok (Some 1)))
  | ExecuteReturning _ => Some (PExecuteReturning (if refused then Err e else Ok []))
  | Transaction qs => Some (PTransaction (if refused then Err e else Ok ((fun _ => Some 1) <$> qs)))
  | QueryConsistent _ => Some (PQueryConsistent (Ok []))
  | Batch _ => Some (PBatch (if refused then Err e else Ok []))
  | Migrate _ => Some (PMigrate (if refused then Err e else Ok tt))
  | Backup _ _ => Some (PBackup (if refused then Err e else Ok tt))
  | KV r => if refused then Some (PKV (Err e)) else (fun c => PKV (Ok c)) <$> canned_cache r
  | Query _ => Some (PQuery (Ok []))
  | KVGet _ => Some (PKV (Ok (CacheSM.RValue None)))
  | LockAwait _ => Some (PLock (Ok DLock.Released))
  | Notify _ => Some (PNotify (if refused then Err e else Ok tt))
  end.

Definition demo_stream (l : Layer) (req : ApiStreamRequest) (w : World) : Sent (Channel (Res ApiError ApiStreamResponsePayload)) * World :=
  let p := payload req in
  match canned_payload p (forwards w) with
  | None => (Accepted TimedOut, advance w)
  | Some r =>
      (Accepted (Received (Ok r)),
       if forwards w then advance w
       else match db_entry p, cache_entry p with
            | Some q, _ => log_db q w
            | None, Some c => log_cache c w
            | None, None => advance w
            end)
  end.
#[export] Instance demo_world : ClientWorld World := {|
  local_db q w := if forwards w then (Refused (Some demo_forward), advance w) else (Wrote (canned_db q), log_db q w);
  local_cache r w :=
    if forwards w then (Refused (Some demo_forward), advance w)
    else match canned_cache r with Some c => (Wrote c, log_cache r w) | None => (Stalled, advance w) end;
  stream := demo_stream;
  change_leader _ _ w := (Accepted tt, w);
  local_await _ _ w := (Received DLock.Released, w);
  local_get _ _ w := (Received None, w);
  local_counter _ _ w := (Received None, w);
  await_tick _ w := (None, w);
|}.

#[export] Instance demo_world_ok : ClientWorldOk (W := World).
Proof.
  split.
  - intros q w o w'. simpl. destruct (forwards w); intros [= <- <-]; (split; [done|]); (split; [done|]); [done|].
    intros r [= <-]. by destruct q.
  - intros req w o w'. simpl. destruct (forwards w); [intros [= <- <-]; split; [done|]; by split|].
    destruct (canned_cache req) as [c|] eqn:E; intros [= <- <-]; (split; [done|]); (split; [by try left|]); [|done].
    intros r [= <-]. destruct req as [| | | | | | | | |? []| | | | | | |]; simpl in *; simplify_eq; done.
  - intros l [id p] w o w'. cbn [stream demo_world]. unfold demo_stream. cbn [payload].
    destruct (forwards w) eqn:Ef, p as [| | | | | | |req| | | |]; simpl; try (intros [= <- <-]; simpl; by eauto).
    + intros [= <- <-]. simpl. repeat (split; [done|]). intros c [= <-]. eauto.
    + intros [= <- <-]. simpl. repeat (split; [done|]). by exists DLock.Released.
    + destruct (canned_cache req) as [c|] eqn:E; simpl; intros [= <- <-]; simpl; [|split; [done|]; split; [by left|done]].
      repeat (split; [done|]). intros d [= <-].
      destruct req as [| | | | | | | | |? []| | | | | | |]; simpl in *; simplify_eq; done.
    + intros [= <- <-]. simpl. repeat (split; [done|]). intros c [= <-]. eauto.
    + intros [= <- <-]. simpl. repeat (split; [done|]). by exists DLock.Released.
  - by intros l to w o w' [= <- <-].
  - intros key id w ch w' [= <- <-]. repeat split. by intros s [= <-].
  - by intros l w o w' [= <- <-].
Qed.

(** ** A hash and codecs *)
#[export] Instance demo_sha : Auth.Sha256 := fun m => take 32 (m ++ replicate 32 x00).
#[export] Instance demo_sha_ok : Auth.Sha256Ok.
Proof. intros m. unfold Auth.sha256, demo_sha. rewrite length_take, length_app, length_replicate. lia. Qed.

#[export] Instance demo_auth : Auth.AuthCodec := {|
  Auth.encode_challenge c := Auth.salt c;
  Auth.decode_challenge b := Some (Auth.mkChallenge b);
  Auth.encode_answer r := to_bytes (Auth.cr_node_id r, Byte.to_N <$> Auth.cr_challenge r, Byte.to_N <$> Auth.cr_response r);
  Auth.decode_answer b :=
    (fun '(n, c, r) => Auth.mkResponse n (omap Byte.of_N c) (omap Byte.of_N r)) <$> of_bytes (A := Z * list N * list N) b;
  Auth.encode_final f := Auth.final f;
  Auth.decode_final b := Some (Auth.mkFinal b);
|}.
Lemma of_to_N (l : list byte) : omap Byte.of_N (Byte.to_N <$> l) = l.
Proof. induction l as [|b l IH]; [done|]. rewrite fmap_cons. cbn. rewrite Byte.of_to_N. by f_equal. Qed.
#[export] Instance demo_auth_ok : Auth.AuthCodecOk.
Proof.
  split; [by intros []| |by intros []]. intros [n c r]. cbn [Auth.decode_answer Auth.encode_answer demo_auth]. rewrite of_to_bytes.
  cbn. by rewrite !of_to_N.
Qed.

#[export] Instance demo_events : Listen.EventCodec := {|
  Listen.encode_event e := to_bytes (A := Z * list N) (e.1, (Byte.to_N <$> e.2 : list N));
  Listen.decode_event b := (fun x : Z * list N => (x.1, omap Byte.of_N x.2 : list byte)) <$> of_bytes (A := Z * list N) b;
|}.
#[export] Instance demo_events_ok : Listen.EventCodecOk.
Proof. intros [t d]. cbn [Listen.decode_event Listen.encode_event demo_events]. rewrite of_to_bytes. cbn. by rewrite of_to_N. Qed.

#[export] Instance demo_elapsed : Heartbeat.Elapsed := fun now last => now - last.
#[export] Instance demo_elapsed_ok : Heartbeat.ElapsedOk.
Proof. split; intros now last Hl; unfold Heartbeat.elapsed_ms, demo_elapsed; lia. Qed.

(** ** A Raft that takes everything *)
Module RaftDemo.
Import RaftLink.
#[export] Instance demo_types : RpcTypes := {|
  AppendDbReq := Z; AppendKvReq := Z; VoteReq := Z; SnapDbReq := Z; SnapKvReq := Z;
  AppendResp := Z; VoteResp := Z; SnapResp := Z; InstallSnapshotError := Z;
|}.
(** The numbers it was given; a negative one stops it. *)
Definition take_number (r : Z) (w : list Z) : (Z + RaftError Empty_set) * list Z :=
  if r <? 0 then (inr (RFatal Stopped), w) else (inl (r + 1), w ++ [r]).
#[export] Instance demo_peer : RaftPeer (list Z) := {|
  append_db := take_number;
  vote_db := take_number;
  snapshot_db r w := (inl r, w ++ [r]);
  append_cache := take_number;
  vote_cache := take_number;
  snapshot_cache r w := (inr (APIError r), w);
  set_db_stopped w := w;
  set_cache_stopped w := w;
  is_startup_finished _ := true;
  is_raft_stopped _ := false;
|}.
Definition rpc_code (q : Rpc) : Z * Z :=
  match q with AppendDB r => (0, r) | VoteDB r => (1, r) | SnapshotDB r => (2, r) | AppendCache r => (3, r) | VoteCache r => (4, r) | SnapshotCache r => (5, r) end.
Definition code_rpc (c : Z * Z) : option Rpc :=
  match c with
  | (0, r) => Some (AppendDB r) | (1, r) => Some (VoteDB r) | (2, r) => Some (SnapshotDB r)
  | (3, r) => Some (AppendCache r) | (4, r) => Some (VoteCache r) | (5, r) => Some (SnapshotCache r) | _ => None
  end.
Definition fatal_code (f : Fatal) : Z := match f with StorageError => 0 | Panicked => 1 | Stopped => 2 end.
Definition code_fatal (c : Z) : option Fatal := match c with 0 => Some StorageError | 1 => Some Panicked | 2 => Some Stopped | _ => None end.
Definition result_code (r : Z + RaftError Z) : Z * Z :=
  match r with inl v => (0, v) | inr (APIError e) => (1, e) | inr (RFatal f) => (2, fatal_code f) end.
Definition code_result (c : Z * Z) : option (Z + RaftError Z) :=
  match c with (0, v) => Some (inl v) | (1, e) => Some (inr (APIError e)) | (2, f) => (fun f => inr (RFatal f)) <$> code_fatal f | _ => None end.
Definition widen (r : Z + RaftError Empty_set) : Z + RaftError Z :=
  match r with inl v => inl v | inr (RFatal f) => inr (RFatal f) | inr (APIError e) => match e with end end.
Definition narrow (r : Z + RaftError Z) : option (Z + RaftError Empty_set) :=
  match r with inl v => Some (inl v) | inr (RFatal f) => Some (inr (RFatal f)) | inr (APIError _) => None end.
Definition payload_code (p : Payload) : Z * (Z * Z) :=
  match p with
  | PAppendDB r => (0, result_code (widen r)) | PVoteDB r => (1, result_code (widen r)) | PSnapshotDB r => (2, result_code r)
  | PAppendCache r => (3, result_code (widen r)) | PVoteCache r => (4, result_code (widen r)) | PSnapshotCache r => (5, result_code r)
  end.
Definition code_payload (c : Z * (Z * Z)) : option Payload :=
  match c.1 with
  | 0 => r ← code_result c.2; @PAppendDB demo_types <$> narrow r | 1 => r ← code_result c.2; @PVoteDB demo_types <$> narrow r | 2 => @PSnapshotDB demo_types <$> code_result c.2
  | 3 => r ← code_result c.2; @PAppendCache demo_types <$> narrow r | 4 => r ← code_result c.2; @PVoteCache demo_types <$> narrow r | 5 => @PSnapshotCache demo_types <$> code_result c.2
  | _ => None
  end.
#[export] Instance demo_rpc_codec : RpcCodec := {|
  encode_rpc r := Some (to_bytes (r.1, rpc_code r.2));
  decode_rpc b := c ← of_bytes (A := Z * (Z * Z)) b; q ← code_rpc c.2; Some (c.1, q);
  encode_reply r := Some (to_bytes (r.1, payload_code r.2));
  decode_reply b := c ← of_bytes (A := Z * (Z * (Z * Z))) b; p ← code_payload c.2; Some (c.1, p);
|}.
Lemma result_round r : code_result (result_code r) = Some r.
Proof. by destruct r as [|[|[]]]. Qed.
Lemma narrow_widen r : narrow (widen r) = Some r.
Proof. by destruct r as [|[[]|]]. Qed.
#[export] Instance demo_rpc_codec_ok : RpcCodecOk.
Proof.
  split; intros [id x] b [= <-]; cbn [decode_rpc decode_reply demo_rpc_codec fst snd]; rewrite of_to_bytes; cbn -[result_code code_result].
  - by destruct x.
  - destruct x; cbn -[result_code code_result]; rewrite ?result_round; cbn -[narrow widen]; by rewrite ?narrow_widen.
Qed.
End RaftDemo.
