(* ===== verification/NetPush.v ===== *)
(** Pushing events to remote listeners: the [/listen] endpoint of a node
    ([hiqlite/src/network/api.rs]) and of the proxy ([hiqlite/src/server/proxy/handlers.rs],
    the same code), together with the handler of the notifications they register with, and
    the router of the proxy ([hiqlite/src/server/proxy/notify.rs]).  At the end, the socket
    of a client stream ([handle_socket_concurrent]) with its two tasks.

    A connection is a task of its own that waits for events and for frames it owes the
    client.  The whole server is a state machine over what its tasks do next: the handler
    takes a request from its channel, a connection takes an event from its own channel.
    Channels are unbounded queues.  The channel number of a connection is its position. *)
From stdpp Require Import base strings list numbers.
From Stdlib Require Import Strings.Byte.
From S2P Require Import Prelude Notify NetBase NetStream NetListen NetDemo.
Import Net.

Module Push.

(** [b"Invalid Handshake"] and [b"Done"] behind the code 1000 *)
Definition bytes_of (s : string) : list byte := String.list_byte_of_string s.
Definition close_frame (reason : string) : Frame := mkFrame Close (x03 :: xe8 :: bytes_of reason).

Inductive Phase : Type := Handshake | Serving | Ended.
#[export] Instance Phase_eqdec : EqDecision Phase.
Proof. solve_decision. Defined.

(** [rx_notify]: the events in the channel of the connection; [out]: the frames written *)
Record Conn : Type := mkConn { phase : Phase; rx_notify : list Notify.Message; out : list Frame }.
(** [tx_notify]: the requests in the channel of the handler; [handled]: those it took so far *)
Record Server : Type := mkServer {
  handler : Notify.Handler;
  running : bool;
  tx_notify : list Notify.NotifyRequest;
  handled : list Notify.NotifyRequest;
  conns : list Conn;
}.

Inductive Outcome : Type := Written | NotWritten | NotEncoded.
Inductive Event : Type :=
| Upgraded
| UpgradeFailed (c : nat)
| Greeted (c : nat) (ok written : bool)
| Publish (m : Notify.Message)
| Handle (local_closed : bool)
| Take (c : nat) (o : Outcome) (closed : bool)
| SenderGone (c : nat) (closed : bool)
| Obligated (c : nat) (op : OpCode) (payload : list byte) (written closed : bool)
| ReaderGone (c : nat) (closed : bool).

(** The end of a connection: the close frame, when it can still be written; the receiver
    of the events is dropped with what is in its channel. *)
Definition finish (closed : bool) (c : Conn) : Conn :=
  mkConn Ended [] (if closed then out c ++ [close_frame "Done"] else out c).
(** An obligated frame: a pong, or else the echo of a close *)
Definition obligated (op : OpCode) (payload : list byte) : Frame :=
  match op with Pong => mkFrame Pong payload | _ => mkFrame Close payload end.

Definition is_closed (cs : list Conn) (c : nat) : bool :=
  match cs !! c with Some c => bool_decide (phase c = Ended) | None => true end.
(** What the handler sent arrives in the channels. *)
Definition receive (m : Notify.Message) (c : Conn) : Conn := mkConn (phase c) (rx_notify c ++ [m]) (out c).
Fixpoint deliver (sent : list (option nat * Notify.Message)) (cs : list Conn) : list Conn :=
  match sent with
  | [] => cs
  | (Some i, m) :: sent => deliver sent (alter (receive m) i cs)
  | (None, _) :: sent => deliver sent cs
  end.

Definition with_conns (cs : list Conn) (s : Server) : Server := mkServer (handler s) (running s) (tx_notify s) (handled s) cs.
Definition set_conn (i : nat) (c : Conn) (s : Server) : Server := with_conns (<[i := c]> (conns s)) s.
(** [tx_notify.send_async]: fails when the handler is gone *)
Definition request (req : Notify.NotifyRequest) (s : Server) : Server :=
  mkServer (handler s) (running s) (tx_notify s ++ [req]) (handled s) (conns s).
(** A sender for connection [i] is left, in the handler or in a request on its way. *)
Definition has_sender (i : nat) (s : Server) : bool :=
  running s && (bool_decide (i ∈ Notify.listeners (handler s)) ||
    existsb (fun r => match r with Notify.Listen j => Nat.eqb i j | _ => false end) (tx_notify s)).

Section Server.
Context `{Listen.EventCodec}.

(** [handle_listen_socket] up to its loop *)
Definition greet (i : nat) (ok written : bool) (c : Conn) (s : Server) : Server :=
  if ok then
    if running s then request (Notify.Listen i) (set_conn i (mkConn Serving [] (out c)) s)
    else set_conn i (mkConn Ended [] (out c)) s
  else set_conn i (mkConn Ended [] (if written then out c ++ [close_frame "Invalid Handshake"] else out c)) s.

(** The branches of its loop *)
Definition on_event (o : Outcome) (closed : bool) (c : Conn) : option Conn :=
  match rx_notify c with
  | [] => None
  | m :: rest =>
      Some (match o with
            | Written => mkConn Serving rest (out c ++ [mkFrame Binary (Listen.encode_event m)])
            | _ => finish closed c
            end)
  end.
Definition on_obligated (op : OpCode) (payload : list byte) (written closed : bool) (c : Conn) : Conn :=
  if written then mkConn Serving (rx_notify c) (out c ++ [obligated op payload]) else finish closed c.

(** The connection [i] is in the loop. *)
Definition serving (i : nat) (s : Server) (f : Conn -> option Conn) : option Server :=
  match conns s !! i with
  | Some c => if bool_decide (phase c = Serving) then c ← f c; Some (set_conn i c s) else None
  | None => None
  end.
Definition greeting (i : nat) (s : Server) (f : Conn -> Server) : option Server :=
  match conns s !! i with
  | Some c => if bool_decide (phase c = Handshake) then Some (f c) else None
  | None => None
  end.

(** The handler takes its next request: [None] inside is a panic.  When the task ends, its
    channel and its senders are dropped. *)
Definition handle_next (local_closed : bool) (s : Server) : option (option Server) :=
  match running s, tx_notify s with
  | true, req :: rest =>
      Some ('(h, alive) ← Notify.handle (is_closed (conns s)) local_closed req (handler s);
            Some (mkServer h alive (if (alive : bool) then rest else []) (handled s ++ [req])
                    (deliver (drop (length (Notify.sent (handler s))) (Notify.sent h)) (conns s))))
  | _, _ => None
  end.

(** [None]: the event is not possible here.  Whoever publishes keeps the local receiver
    of the handler as well, so it runs as long as there is something to publish
    ([run_keeps_handler]); a handler that ended takes no request. *)
Definition step (e : Event) (s : Server) : option Server :=
  match e with
  | Upgraded => Some (with_conns (conns s ++ [mkConn Handshake [] []]) s)
  | UpgradeFailed i => greeting i s (fun c => set_conn i (mkConn Ended [] (out c)) s)
  | Greeted i ok written => greeting i s (fun c => greet i ok written c s)
  | Publish m => Some (if running s then request (Notify.Notify m) s else s)
  | Handle local_closed => match handle_next local_closed s with Some (Some s) => Some s | _ => None end
  | Take i o closed => serving i s (on_event o closed)
  | SenderGone i closed => serving i s (fun c => if has_sender i s || negb (bool_decide (rx_notify c = [])) then None else Some (finish closed c))
  | Obligated i op payload written closed => serving i s (fun c => Some (on_obligated op payload written closed c))
  | ReaderGone i closed => serving i s (fun c => Some (finish closed c))
  end.
Fixpoint run (es : list Event) (s : Server) : option Server :=
  match es with [] => Some s | e :: es => s ← step e s; run es s end.
End Server.
Definition start : Server := mkServer (Notify.mkHandler [] []) true [] [] [].

(** [router] of the proxy: what its own listener gets is published to its listeners. *)
Definition router (received : list Listen.Item) : list Event := Publish <$> received.

(** ** The reference: a listener is owed what is handled behind its registration. *)
Definition messages (reqs : list Notify.NotifyRequest) : list Notify.Message :=
  omap (fun r => match r with Notify.Notify m => Some m | Notify.Listen _ => None end) reqs.
Fixpoint owed (c : nat) (reqs : list Notify.NotifyRequest) : list Notify.Message :=
  match reqs with
  | [] => []
  | Notify.Listen j :: reqs => if Nat.eqb c j then messages reqs else owed c reqs
  | Notify.Notify _ :: reqs => owed c reqs
  end.
(** The events among the frames of a connection, and what a client has read of them *)
Definition events_in `{Listen.EventCodec} (fs : list Frame) : list Listen.Item :=
  concat (Listen.event_of <$> Listen.listen_reader fs).
Definition reads (ins : list Listen.Input) : list Listen.ListenRead :=
  omap (fun i => match i with Listen.InRead _ r | Listen.InLeftover r => Some r | _ => None end) ins.
(** The client did not close the connection. *)
Definition unclosed (c : Conn) : Prop := Forall (fun f => opcode f <> Close) (out c).
Definition published (es : list Event) : list Notify.Message := omap (fun e => match e with Publish m => Some m | _ => None end) es.

(** ** The invariant *)
Definition regs (reqs : list Notify.NotifyRequest) : list nat :=
  omap (fun r => match r with Notify.Listen j => Some j | Notify.Notify _ => None end) reqs.

Lemma messages_app l l' : messages (l ++ l') = messages l ++ messages l'.
Proof. apply omap_app. Qed.
Lemma owed_unregistered i reqs : i ∉ regs reqs -> owed i reqs = [].
Proof.
  induction reqs as [|[m|j] reqs IH]; simpl; [done|done|]. intros [Hne Hi]%not_elem_of_cons.
  by rewrite (proj2 (Nat.eqb_neq i j) Hne), IH.
Qed.
Lemma owed_snoc i reqs r : owed i (reqs ++ [r]) =
  owed i reqs ++ (match r with Notify.Notify m => if bool_decide (i ∈ regs reqs) then [m] else [] | Notify.Listen _ => [] end).
Proof.
  induction reqs as [|[m|j] reqs IH]; cbn [owed app].
  - destruct r; cbn [owed]; [done|]. by destruct (Nat.eqb _ _).
  - rewrite IH. destruct r; [|done]. done.
  - destruct (Nat.eqb_spec i j) as [->|Hne].
    + rewrite messages_app. f_equal. destruct r; simpl; [|done]. by rewrite bool_decide_eq_true_2 by left.
    + rewrite IH. destruct r; [|done]. f_equal. erewrite bool_decide_ext; [done|]. simpl. rewrite elem_of_cons. split; [by right|]. by intros [->|?].
Qed.
Lemma owed_app_prefix i reqs l : owed i reqs `prefix_of` owed i (reqs ++ l).
Proof.
  induction l as [|r l IH] using rev_ind; [by rewrite app_nil_r|].
  rewrite app_assoc, owed_snoc. etrans; [exact IH|]. by apply prefix_app_r.
Qed.
Lemma owed_suffix i reqs : owed i reqs `suffix_of` messages reqs.
Proof. induction reqs as [|[m|j] reqs IH]; simpl; [done|by apply suffix_cons_r|]. by destruct (Nat.eqb i j). Qed.

#[local] Instance Publish_inj : Inj (=) (=) Publish.
Proof. by intros m m' [= ->]. Qed.

Section Invariant.
Context `{Listen.EventCodec} `{!Listen.EventCodecOk}.

(** The events of all frames, also of those a reader does not get to *)
Definition binaries (fs : list Frame) : list Listen.Item :=
  omap (fun f => match opcode f with Binary => Listen.decode_event (frame_payload f) | _ => None end) fs.
Definition good (f : Frame) : Prop := opcode f = Binary -> is_Some (Listen.decode_event (frame_payload f)).

Lemma binaries_app l l' : binaries (l ++ l') = binaries l ++ binaries l'.
Proof. apply omap_app. Qed.
Lemma events_cons op p fs : events_in (mkFrame op p :: fs) =
  match op with
  | Binary => match Listen.decode_event p with Some e => e :: events_in fs | None => [] end
  | Close => []
  | _ => events_in fs
  end.
Proof. unfold events_in. simpl. unfold Listen.read_frame. destruct op; simpl; try done. by destruct (Listen.decode_event p). Qed.
Lemma binaries_cons op p fs : binaries (mkFrame op p :: fs) =
  match op with Binary => match Listen.decode_event p with Some e => e :: binaries fs | None => binaries fs end | _ => binaries fs end.
Proof. by destruct op. Qed.
Lemma events_prefix fs : Forall good fs -> events_in fs `prefix_of` binaries fs.
Proof.
  induction 1 as [|[op p] fs Hf Hfs IH]; [done|]. rewrite events_cons, binaries_cons.
  destruct op; try done; [|by apply prefix_nil]. destruct (Hf eq_refl) as [e He]. simpl in He. rewrite He. by apply prefix_cons.
Qed.
Lemma events_all fs : Forall good fs -> Forall (fun f => opcode f <> Close) fs -> events_in fs = binaries fs.
Proof.
  intros Hg. induction 1 as [|[op p] fs Hc _ IH]; [done|]. apply Forall_cons_1 in Hg as [Hf Hg]. specialize (IH Hg).
  rewrite events_cons, binaries_cons. destruct op; try done. destruct (Hf eq_refl) as [e He]. simpl in He. by rewrite He, IH.
Qed.

Definition conn_ok (s : Server) (i : nat) (c : Conn) : Prop :=
  Forall good (out c) /\
  match phase c with
  | Handshake => rx_notify c = [] /\ out c = [] /\ i ∉ regs (handled s ++ tx_notify s)
  | Serving => binaries (out c) ++ rx_notify c = owed i (handled s) /\
               (running s = true -> i ∈ Notify.listeners (handler s) <-> i ∈ regs (handled s))
  | Ended => binaries (out c) `prefix_of` owed i (handled s)
  end.
Record push_ok (s : Server) : Prop := {
  listeners_once : NoDup (Notify.listeners (handler s));
  listeners_known : forall i, i ∈ Notify.listeners (handler s) -> i ∈ regs (handled s);
  regs_once : NoDup (regs (handled s ++ tx_notify s));
  regs_known : forall i, i ∈ regs (handled s ++ tx_notify s) -> exists c, conns s !! i = Some c /\ phase c <> Handshake;
  conns_ok : forall i c, conns s !! i = Some c -> conn_ok s i c;
}.

Lemma start_push_ok : push_ok start.
Proof. split; simpl; try done; try apply NoDup_nil_2; by intros i Hi%elem_of_nil. Qed.

(** A connection that changes on its own *)
Lemma set_conn_ok s i c c' : push_ok s -> conns s !! i = Some c -> conn_ok s i c' -> phase c' <> Handshake -> push_ok (set_conn i c' s).
Proof.
  intros [Hl Hk Hr Hkn Hc] Hi Hok Hp. split; simpl; [done|done|done| |].
  - intros j Hj. destruct (decide (j = i)) as [->|Hne].
    + exists c'. split; [|done]. apply list_lookup_insert_eq. by eapply lookup_lt_Some.
    + destruct (Hkn j Hj) as (d & Hd & Hph). exists d. by rewrite list_lookup_insert_ne.
  - intros j d [(-> & <- & _)|[_ Hd]]%list_lookup_insert_Some; [done|]. by apply Hc in Hd.
Qed.
Lemma ended_ok s i fs : Forall good fs -> binaries fs `prefix_of` owed i (handled s) -> conn_ok s i (mkConn Ended [] fs).
Proof. done. Qed.
Lemma close_good r : good (close_frame r).
Proof. by intros Hb. Qed.
Lemma close_binaries fs r : binaries (fs ++ [close_frame r]) = binaries fs.
Proof. rewrite binaries_app. simpl. by rewrite app_nil_r. Qed.
Lemma finish_ok s i c closed : conn_ok s i c -> phase c = Serving -> conn_ok s i (finish closed c).
Proof.
  intros [Hg Hc] Hp. rewrite Hp in Hc. destruct Hc as [Hc _]. apply ended_ok.
  - destruct closed; [|done]. apply Forall_app_2; [done|]. constructor; [apply close_good|done].
  - destruct closed; rewrite ?close_binaries, <- Hc; by apply prefix_app_r.
Qed.
Lemma on_event_ok s i c o closed c' : conn_ok s i c -> phase c = Serving -> on_event o closed c = Some c' -> conn_ok s i c' /\ phase c' <> Handshake.
Proof.
  intros Hok Hp. unfold on_event. destruct (rx_notify c) as [|m rest] eqn:Er; [done|]. destruct o; intros [= <-].
  2,3: by split; [apply finish_ok|].
  split; [|done]. destruct Hok as [Hg Hc]. rewrite Hp in Hc. destruct Hc as [Hc Hl]. split; cbn [phase out rx_notify].
  - apply Forall_app_2; [done|]. constructor; [|done]. intros _. simpl. by rewrite Listen.event_round.
  - split; [|done]. rewrite binaries_app, <- app_assoc, <- Hc, Er. unfold binaries at 2. simpl. by rewrite Listen.event_round.
Qed.
Lemma on_obligated_ok s i c op p written closed : conn_ok s i c -> phase c = Serving -> conn_ok s i (on_obligated op p written closed c).
Proof.
  intros Hok Hp. destruct written; [|by apply finish_ok]. destruct Hok as [Hg Hc]. rewrite Hp in Hc. destruct Hc as [Hc Hl]. split; cbn [phase out rx_notify on_obligated].
  - apply Forall_app_2; [done|]. constructor; [|done]. by destruct op.
  - split; [|done]. rewrite binaries_app, <- Hc. f_equal. unfold binaries at 2. destruct op; simpl; by rewrite app_nil_r.
Qed.
Lemma serving_ok s i f s' : push_ok s -> serving i s f = Some s' ->
  (forall c c', conn_ok s i c -> phase c = Serving -> f c = Some c' -> conn_ok s i c' /\ phase c' <> Handshake) -> push_ok s'.
Proof.
  intros Hs Hf Hstep. unfold serving in Hf. destruct (conns s !! i) as [c|] eqn:Ei; [|done].
  destruct (bool_decide (phase c = Serving)) eqn:Ep; [|done]. apply bool_decide_eq_true in Ep.
  destruct (f c) as [c'|] eqn:Ec; [|done]. injection Hf as <-. destruct (Hstep c c') as [H1 H2]; [by apply conns_ok|done|done|]. by eapply set_conn_ok.
Qed.

(** The handler *)
Lemma deliver_lookup i m ls : forall cs tail, NoDup ls -> (forall j x, (Some j, x) ∉ tail) ->
  deliver (((fun x => (Some x, m)) <$> ls) ++ tail) cs !! i = (if bool_decide (i ∈ ls) then receive m else id) <$> cs !! i.
Proof.
  induction ls as [|l ls IH]; intros cs tail Hn Ht; cbn [fmap list_fmap app].
  - rewrite bool_decide_eq_false_2 by apply not_elem_of_nil. rewrite option_fmap_id. revert cs. induction tail as [|[[j|] x] tail IHt]; intros cs; cbn [deliver]; [done| |].
    + destruct (Ht j x). by left.
    + apply IHt. intros j' x' Hin. apply (Ht j' x'). by right.
  - apply list.NoDup_cons in Hn as [Hl Hn]. cbn [deliver]. rewrite IH by done. destruct (decide (i = l)) as [->|Hne].
    + rewrite list_lookup_alter_eq, (bool_decide_eq_false_2 (l ∈ ls)), bool_decide_eq_true_2 by (try left; done). by destruct (cs !! l).
    + rewrite list_lookup_alter_ne by done. erewrite (bool_decide_ext (i ∈ l :: ls)); [done|]. rewrite elem_of_cons. split; [by intros [->|?]|by right].
Qed.

(** Notifying, also when the local receiver is gone *)
Lemma notify_step closed local_closed m h :
  exists l tail, Notify.handle closed local_closed (Notify.Notify m) h =
    Some (Notify.mkHandler l (Notify.sent h ++ (((fun x => (Some x, m)) <$> filter (fun x => closed x = false) (Notify.listeners h)) ++ tail)), negb local_closed) /\
    l ≡ₚ filter (fun x => closed x = false) (Notify.listeners h) /\ (forall j x, (Some j, x) ∉ tail).
Proof.
  destruct (Notify.failed_spec closed (Notify.listeners h) 0) as [Hd Hm].
  destruct (Notify.remove_all_ok closed (reverse (Notify.failed closed 0 (Notify.listeners h))) (Notify.listeners h)) as (l & Hrun & Hp); [done| |].
  { intros i x Hi. rewrite elem_of_reverse. by apply (Hm i x). }
  exists l, (if local_closed then [] else [(None, m)]). cbn [Notify.handle]. rewrite Hrun. split; [|split; [done|]].
  - destruct local_closed; simpl; by rewrite ?app_nil_r.
  - intros j x. destruct local_closed; [apply not_elem_of_nil|]. by intros [=]%list_elem_of_singleton.
Qed.

Lemma listen_handled_ok s i rest alive : push_ok s -> running s = true -> tx_notify s = Notify.Listen i :: rest -> (alive = true) ->
  push_ok (mkServer (Notify.mkHandler (Notify.listeners (handler s) ++ [i]) (Notify.sent (handler s))) alive rest (handled s ++ [Notify.Listen i]) (conns s)).
Proof.
  intros [Hl Hk Hr Hkn Hc] Hrun Ht ->. rewrite Ht in Hr, Hkn.
  assert (regs (handled s ++ [Notify.Listen i]) = regs (handled s) ++ [i]) as Hreg by (unfold regs; by rewrite omap_app).
  assert (i ∉ regs (handled s)) as Hni.
  { unfold regs in Hr. rewrite omap_app in Hr. apply list.NoDup_app in Hr as (_ & Hd & _). intros Hi. apply (Hd i Hi). by left. }
  split; simpl.
  - apply list.NoDup_app. split; [done|]. split; [|apply NoDup_singleton]. intros j Hj ->%list_elem_of_singleton. by apply Hni, Hk.
  - intros j Hj. rewrite Hreg. apply elem_of_app in Hj as [Hj|Hj]; apply elem_of_app; [left; by apply Hk|by right].
  - by rewrite <- app_assoc.
  - intros j. rewrite <- app_assoc. apply Hkn.
  - intros j c Hj. destruct (Hc j c Hj) as [Hg Hok]. split; [done|]. simpl. destruct (phase c).
    + rewrite <- app_assoc. by rewrite Ht in Hok.
    + rewrite owed_snoc, app_nil_r, Hreg, !elem_of_app. destruct Hok as [Ho Hli]. split; [done|]. intros _. by rewrite (Hli Hrun).
    + by rewrite owed_snoc, app_nil_r.
Qed.

Lemma notify_handled_ok s m rest l tail alive h : push_ok s -> running s = true -> tx_notify s = Notify.Notify m :: rest ->
  Notify.listeners h = l -> l ≡ₚ filter (fun x => is_closed (conns s) x = false) (Notify.listeners (handler s)) -> (forall j x, (Some j, x) ∉ tail) ->
  push_ok (mkServer h alive (if (alive : bool) then rest else []) (handled s ++ [Notify.Notify m])
    (deliver (((fun x => (Some x, m)) <$> filter (fun x => is_closed (conns s) x = false) (Notify.listeners (handler s))) ++ tail) (conns s))).
Proof.
  intros [Hl Hk Hr Hkn Hc] Hrun Ht <- Hp Htl. rewrite Ht in Hr, Hkn.
  assert (regs (handled s ++ [Notify.Notify m]) = regs (handled s)) as Hreg by (unfold regs; rewrite omap_app; apply app_nil_r).
  assert (regs (handled s ++ Notify.Notify m :: rest) = regs (handled s ++ rest)) as Hreg' by (unfold regs; by rewrite !omap_app).
  assert (regs ((handled s ++ [Notify.Notify m]) ++ (if alive then rest else [])) `prefix_of` regs (handled s ++ rest)) as Hpre.
  { unfold regs. rewrite !omap_app. simpl. rewrite app_nil_r. apply prefix_app. destruct alive; [done|apply prefix_nil]. }
  assert (NoDup (filter (fun x => is_closed (conns s) x = false) (Notify.listeners (handler s)))) as Hnd by (by apply list.NoDup_filter).
  assert (forall i c, conns s !! i = Some c -> is_closed (conns s) i = bool_decide (phase c = Ended)) as Hcl by (intros i c Hi; unfold is_closed; by rewrite Hi).
  rewrite Hreg' in Hr, Hkn. split; simpl.
  - by rewrite Hp.
  - intros i. rewrite Hp, list_elem_of_filter, Hreg. intros [_ Hi]. by apply Hk.
  - destruct Hpre as [k Hpre]. rewrite Hpre in Hr. by apply list.NoDup_app in Hr as (Hr & _ & _).
  - intros i Hi. assert (i ∈ regs (handled s ++ rest)) as Hi' by (destruct Hpre as [k ->]; apply elem_of_app; by left).
    destruct (Hkn i Hi') as (c & Hci & Hph). rewrite deliver_lookup, Hci by done. simpl. eexists. split; [done|]. by destruct (bool_decide _).
  - intros i c. rewrite deliver_lookup by done. destruct (conns s !! i) as [d|] eqn:Ed; [|done]. intros [= <-].
    destruct (Hc i d Ed) as [Hg Hok]. unfold conn_ok. cbn [handled running tx_notify handler].
    assert (i ∈ filter (fun x => is_closed (conns s) x = false) (Notify.listeners (handler s)) <-> phase d <> Ended /\ i ∈ Notify.listeners (handler s)) as HF.
    { rewrite list_elem_of_filter, (Hcl i d Ed), bool_decide_eq_false. done. }
    assert (i ∈ Notify.listeners h <-> phase d <> Ended /\ i ∈ Notify.listeners (handler s)) as HH by by rewrite Hp.
    rewrite owed_snoc, Hreg, (bool_decide_ext _ _ HF). destruct (phase d) eqn:Ep.
    + destruct Hok as (H1 & H2 & H3). rewrite Ht, Hreg' in H3. rewrite bool_decide_eq_false_2.
      * simpl. rewrite Ep. split; [done|]. split; [done|]. split; [done|]. intros Hin. apply H3. destruct Hpre as [k ->]. apply elem_of_app. by left.
      * intros [_ Hin]. apply H3. unfold regs. rewrite omap_app, elem_of_app. left. by apply Hk.
    + destruct Hok as [H1 H2]. specialize (H2 Hrun). rewrite (bool_decide_ext (_ /\ _) (i ∈ regs (handled s))) by (rewrite H2; naive_solver).
      case_bool_decide as Hin; simpl; rewrite Ep; (split; [done|]); rewrite ?app_nil_r, <- H1, <- ?app_assoc; (split; [done|]); intros _; rewrite HH, H2; naive_solver.
    + rewrite bool_decide_eq_false_2 by naive_solver. simpl. rewrite Ep. split; [done|]. by apply prefix_app_r.
Qed.

Lemma handle_next_ok s local_closed : push_ok s ->
  match handle_next local_closed s with Some (Some s') => push_ok s' | Some None => False | None => running s = false \/ tx_notify s = [] end.
Proof.
  intros Hs. unfold handle_next. destruct (running s) eqn:Er; [|by left]. destruct (tx_notify s) as [|[m|i] rest] eqn:Et; [by right| |].
  - destruct (notify_step (is_closed (conns s)) local_closed m (handler s)) as (l & tail & Hh & Hp & Ht). rewrite Hh. cbn [mbind option_bind Notify.sent].
    rewrite drop_app_length. by eapply notify_handled_ok.
  - simpl. rewrite drop_all. by apply listen_handled_ok.
Qed.

Lemma greeting_ok s i f s' : push_ok s -> greeting i s f = Some s' -> (forall c, conns s !! i = Some c -> phase c = Handshake -> push_ok (f c)) -> push_ok s'.
Proof.
  intros Hs Hf Hstep. unfold greeting in Hf. destruct (conns s !! i) as [c|] eqn:Ei; [|done].
  case_bool_decide; [|done]. injection Hf as <-. by apply Hstep.
Qed.
Lemma greet_ended_ok s i c fs : push_ok s -> conns s !! i = Some c -> phase c = Handshake -> Forall good fs -> binaries fs = [] -> push_ok (set_conn i (mkConn Ended [] fs) s).
Proof. intros Hs Hi Hp Hg Hb. eapply set_conn_ok; [done..| |done]. apply ended_ok; [done|]. rewrite Hb. apply prefix_nil. Qed.
Lemma greet_ok s i ok written c : push_ok s -> conns s !! i = Some c -> phase c = Handshake -> push_ok (greet i ok written c s).
Proof.
  intros Hs Hi Hp. pose proof (conns_ok s Hs i c Hi) as [Hg Hc]. rewrite Hp in Hc. destruct Hc as (Hrx & Ho & Hn). unfold greet. rewrite Ho. destruct ok.
  2: { apply (greet_ended_ok s i c); [done..| |]; destruct written; try done. constructor; [apply close_good|done]. }
  destruct (running s) eqn:Er; [|by apply (greet_ended_ok s i c)].
  assert (i ∉ regs (handled s)) as Hn'. { intros Hin. apply Hn. unfold regs. rewrite omap_app. apply elem_of_app. by left. }
  assert (push_ok (set_conn i (mkConn Serving [] []) s)) as [Hl Hk Hr Hkn Hcs].
  { eapply set_conn_ok; [done..| |done]. split; [done|]. simpl. rewrite owed_unregistered by done. split; [done|]. intros _. split; [|done]. apply (listeners_known s Hs). }
  assert (regs (handled s ++ tx_notify s ++ [Notify.Listen i]) = regs (handled s ++ tx_notify s) ++ [i]) as Hreg by (rewrite app_assoc; unfold regs; by rewrite omap_app).
  split; simpl in *; [done|done| | |]; rewrite ?Hreg.
  - apply list.NoDup_app. split; [done|]. split; [|apply NoDup_singleton]. by intros j Hj ->%list_elem_of_singleton.
  - intros j [Hj|Hj]%elem_of_app; [by apply Hkn|]. apply list_elem_of_singleton in Hj as ->.
    exists (mkConn Serving [] []). split; [|done]. apply list_lookup_insert_eq. by eapply lookup_lt_Some.
  - intros j d Hj. destruct (Hcs j d Hj) as [Hgd Hd]. split; [done|]. cbn [phase running handler handled tx_notify] in *. destruct (phase d) eqn:Epd; [|done..].
    destruct Hd as (H1 & H2 & H3). split; [done|]. split; [done|]. simpl in *. rewrite Hreg. intros [Hj'|Hj']%elem_of_app; [done|].
    apply list_elem_of_singleton in Hj' as ->. rewrite list_lookup_insert_eq in Hj by (by eapply lookup_lt_Some). by injection Hj as <-.
Qed.

Lemma step_push_ok e s s' : push_ok s -> step e s = Some s' -> push_ok s'.
Proof.
  intros Hs. destruct e as [|i|i ok written|m|lc|i o closed|i closed|i op p written closed|i closed]; cbn [step].
  - intros [= <-]. destruct Hs as [Hl Hk Hr Hkn Hc]. split; simpl; [done|done|done| |].
    + intros i Hi. destruct (Hkn i Hi) as (c & Hci & Hp). exists c. split; [|done]. by apply lookup_app_l_Some.
    + intros i c [Hi|[Hge Hi]]%lookup_app_Some; [by apply Hc|]. apply list_lookup_singleton_Some in Hi as [Hz <-]. split; [done|]. split; [done|]. split; [done|].
      intros Hin. destruct (Hkn i Hin) as (c & Hci & _). apply lookup_lt_Some in Hci. lia.
  - intros Hf. eapply greeting_ok; [done..|]. intros c Hi Hp. pose proof (conns_ok s Hs i c Hi) as [Hg Hc]. rewrite Hp in Hc. destruct Hc as (_ & -> & _). by eapply greet_ended_ok.
  - intros Hf. eapply greeting_ok; [done..|]. intros c Hi Hp. by apply greet_ok.
  - intros [= <-]. destruct (running s) eqn:Er; [|done]. destruct Hs as [Hl Hk Hr Hkn Hc].
    assert (regs (handled s ++ tx_notify s ++ [Notify.Notify m]) = regs (handled s ++ tx_notify s)) as Hreg by (rewrite app_assoc; unfold regs; rewrite omap_app; apply app_nil_r).
    split; simpl; rewrite ?Hreg; [done..|]. intros i c Hi. destruct (Hc i c Hi) as [Hg Hok]. split; [done|]. simpl. by rewrite Hreg.
  - pose proof (handle_next_ok s lc Hs) as Hh. destruct (handle_next lc s) as [[s1|]|]; try done. by intros [= <-].
  - intros Hf. eapply serving_ok; [done..|]. intros c c' Hok Hp Hc. by eapply on_event_ok.
  - intros Hf. eapply serving_ok; [done..|]. intros c c' Hok Hp. simpl. destruct (_ || _); [done|]. intros [= <-]. by split; [apply finish_ok|].
  - intros Hf. eapply serving_ok; [done..|]. intros c c' Hok Hp [= <-]. split; [by apply on_obligated_ok|]. by destruct written.
  - intros Hf. eapply serving_ok; [done..|]. intros c c' Hok Hp [= <-]. by split; [apply finish_ok|].
Qed.
Lemma run_push_ok es : forall s s', push_ok s -> run es s = Some s' -> push_ok s'.
Proof.
  induction es as [|e es IH]; intros s s' Hs; cbn [run]; [by intros [= <-]|].
  destruct (step e s) as [s1|] eqn:E; simpl; [|done]. intros Hr. eauto using step_push_ok.
Qed.

(** What the handler took was published, in order. *)
Lemma step_running e s s' : step e s = Some s' ->
  if running s then handled s' ++ tx_notify s' = handled s ++ tx_notify s ++ match e with Publish m => [Notify.Notify m] | Greeted i true _ => [Notify.Listen i] | _ => [] end /\ running s' = true \/
    running s' = false /\ published [e] = [] /\ handled s' ++ tx_notify s' `prefix_of` handled s ++ tx_notify s
  else running s' = false /\ handled s' = handled s /\ tx_notify s' = tx_notify s.
Proof.
  destruct e as [|i|i ok written|m|lc|i o closed|i closed|i op p written closed|i closed]; cbn [step]; unfold greeting, serving, handle_next.
  5: { destruct (running s); [|done]. destruct (tx_notify s) as [|req rest]; [done|].
       destruct (Notify.handle _ _ _ _) as [[h []]|]; simpl; [| |done]; intros [= <-]; simpl; [left|right].
       - by rewrite app_nil_r, <- app_assoc.
       - split; [done|]. split; [done|]. rewrite app_nil_r. by exists rest; rewrite <- app_assoc. }
  all: try (destruct (conns s !! i) as [c|]; [|done]; case_bool_decide; [|done]).
  3: { unfold greet. destruct ok, (running s) eqn:Er; intros [= <-]; simpl; rewrite ?Er, ?app_nil_r; auto. }
  3: { intros [= <-]. destruct (running s) eqn:Er; simpl; rewrite ?Er; auto. }
  3: destruct (on_event o closed c); [|done].
  4: destruct (_ || _); [done|].
  all: intros [= <-]; simpl; destruct (running s) eqn:Er; rewrite ?app_nil_r; auto.
Qed.
Lemma run_keeps_handler es : forall s s', Forall (fun e => e <> Handle true) es -> running s = true -> run es s = Some s' -> running s' = true.
Proof.
  induction es as [|e es IH]; intros s s' He Hs; cbn [run]; [by intros [= <-]|]. apply Forall_cons_1 in He as [He Hes].
  destruct (step e s) as [s1|] eqn:E; cbn [mbind option_bind]; [|done]. apply (IH s1); [done|].
  pose proof E as Hst. apply step_running in Hst. rewrite Hs in Hst. destruct Hst as [[_ ?]|(H1 & _ & _)]; [done|].
  destruct e as [|i|i ok written|m|[]|i o closed|i closed|i op p written closed|i closed]; try done; cbn [step] in E; unfold greeting, greet, serving, handle_next in E; rewrite ?Hs in E.
  5: { destruct (tx_notify s) as [|[m|i] rest]; [done| |by injection E as <-].
       destruct (notify_step (is_closed (conns s)) false m (handler s)) as (l & tail & Hh & _). rewrite Hh in E. by injection E as <-. }
  all: repeat case_match; simplify_option_eq; congruence.
Qed.
Lemma run_stopped es : forall s s', running s = false -> run es s = Some s' -> handled s' = handled s /\ tx_notify s' = tx_notify s.
Proof.
  induction es as [|e es IH]; intros s s' Hs; cbn [run]; [by intros [= <-]|].
  destruct (step e s) as [s1|] eqn:E; simpl; [|done]. apply step_running in E. rewrite Hs in E. destruct E as (E1 & E2 & E3).
  rewrite <- E2, <- E3. by apply IH.
Qed.
Lemma run_published es : forall s s', running s = true -> run es s = Some s' ->
  messages (handled s' ++ tx_notify s') `prefix_of` messages (handled s ++ tx_notify s) ++ published es.
Proof.
  induction es as [|e es IH]; intros s s' Hs; cbn [run]; [intros [= <-]; by rewrite app_nil_r|].
  destruct (step e s) as [s1|] eqn:E; cbn [mbind option_bind]; [|done]. apply step_running in E. rewrite Hs in E.
  assert (published (e :: es) = published [e] ++ published es) as -> by by destruct e. rewrite app_assoc.
  destruct E as [[E1 E2]|(E1 & _ & [k Ek])]; intros Hr.
  - specialize (IH s1 s' E2 Hr). etrans; [exact IH|]. rewrite E1, app_assoc, messages_app. by destruct e as [| |i []| | | | | |].
  - destruct (run_stopped es s1 s' E1 Hr) as [-> ->]. rewrite Ek, (messages_app _ k), <- !app_assoc. by apply prefix_app_r.
Qed.

(** ** Delivery *)
Lemma reads_reported ins : concat (Listen.reported <$> ins) = concat (Listen.event_of <$> reads ins).
Proof.
  unfold reads. induction ins as [|i ins IH]; [done|]. rewrite fmap_cons, concat_cons, IH. by destruct i.
Qed.
Lemma events_take fs k : Forall good fs -> events_in (take k fs) `prefix_of` binaries fs.
Proof.
  intros Hg. etrans; [apply events_prefix; by apply Forall_take|]. rewrite <- (take_drop k fs) at 2. rewrite binaries_app. by apply prefix_app_r.
Qed.
Lemma conn_prefix s i c : push_ok s -> conns s !! i = Some c -> binaries (out c) `prefix_of` owed i (handled s).
Proof.
  intros Hs Hi. destruct (conns_ok s Hs i c Hi) as [_ Hc]. destruct (phase c); [|destruct Hc as [<- _]; by apply prefix_app_r|done].
  destruct Hc as (_ & -> & _). apply prefix_nil.
Qed.

Lemma delivers es s i c k ins h : run es start = Some s -> conns s !! i = Some c ->
  Forall (fun x => Listen.stays x = true) ins -> reads ins = Listen.listen_reader (take k (out c)) ->
  Listen.run ins Listen.start = Some h -> Listen.delivered h `prefix_of` owed i (handled s).
Proof.
  intros Hrun Hi Hst Hr Hh. pose proof (run_push_ok es start s start_push_ok Hrun) as Hs. pose proof (conns_ok s Hs i c Hi) as [Hg _].
  rewrite (Listen.run_delivers ins Listen.start h Hst eq_refl Hh). simpl. rewrite reads_reported, Hr.
  etrans; [by apply (events_take (out c) k)|]. by apply conn_prefix.
Qed.

(** C34: A remote listener, at any moment: the client has delivered a prefix of the
    notifications handled behind its registration, each once and in order, however the
    connection ends; a connection that is served has all of them on the wire or in its
    channel, so a client that did not close it gets them all; and the handler of the
    notifications does not panic. *)
Theorem events_in_order es s i c : run es start = Some s -> conns s !! i = Some c ->
  (forall k ins h, Forall (fun x => Listen.stays x = true) ins -> reads ins = Listen.listen_reader (take k (out c)) ->
     Listen.run ins Listen.start = Some h -> Listen.delivered h `prefix_of` owed i (handled s)) /\
  (phase c = Serving -> unclosed c -> events_in (out c) ++ rx_notify c = owed i (handled s)) /\
  (forall local_closed, running s = true -> tx_notify s <> [] -> is_Some (step (Handle local_closed) s)).
Proof.
  intros Hrun Hi. pose proof (run_push_ok es start s start_push_ok Hrun) as Hs. pose proof (conns_ok s Hs i c Hi) as [Hg Hc]. split; [|split].
  - intros k ins h Hst Hr Hh. by eapply delivers.
  - intros Hp Hu. rewrite Hp in Hc. destruct Hc as [<- _]. by rewrite events_all.
  - intros lc Hr Ht. cbn [step]. pose proof (handle_next_ok s lc Hs) as Hh. destruct (handle_next lc s) as [[s'|]|]; [by eexists|done|].
    rewrite Hr in Hh. by destruct Hh.
Qed.

(** A listener of a proxy: the proxy publishes what its own listener got, so what its
    clients get is a contiguous piece of the notifications of the node. *)
Theorem proxy_relays es1 s1 i1 c1 k1 ins1 h1 es2 s2 i2 c2 k2 ins2 h2 :
  run es1 start = Some s1 -> conns s1 !! i1 = Some c1 ->
  Forall (fun x => Listen.stays x = true) ins1 -> reads ins1 = Listen.listen_reader (take k1 (out c1)) -> Listen.run ins1 Listen.start = Some h1 ->
  (Publish <$> published es2) `prefix_of` router (Listen.delivered h1) ->
  run es2 start = Some s2 -> conns s2 !! i2 = Some c2 ->
  Forall (fun x => Listen.stays x = true) ins2 -> reads ins2 = Listen.listen_reader (take k2 (out c2)) -> Listen.run ins2 Listen.start = Some h2 ->
  exists before behind, owed i1 (handled s1) = before ++ Listen.delivered h2 ++ behind.
Proof.
  intros Hr1 Hc1 Hst1 Hrd1 Hh1 Hp Hr2 Hc2 Hst2 Hrd2 Hh2.
  destruct (delivers es1 s1 i1 c1 k1 ins1 h1) as [b1 E1]; [done..|]. destruct (delivers es2 s2 i2 c2 k2 ins2 h2) as [b2 E2]; [done..|].
  destruct (owed_suffix i2 (handled s2)) as [a E3]. destruct (run_published es2 start s2 eq_refl Hr2) as [b3 E4]. change (published es2 = messages (handled s2 ++ tx_notify s2) ++ b3) in E4. rewrite messages_app in E4.
  destruct Hp as [b4 E5]. apply fmap_app_inv in E5 as (l1 & l2 & E5 & E6 & E7). apply (inj (fmap Publish)) in E5. subst l1.
  exists a. eexists. by rewrite E1, E7, E4, E3, E2, <- !app_assoc.
Qed.
End Invariant.
End Push.

(** * The client stream of a node: [handle_socket_concurrent]

    The reader of the socket starts a task per request; the tasks hand their responses to
    the writer in any order. *)
Module Responses.

Inductive WsWriteMsg : Type := Payload (r : ApiStreamResponse) | ObligatedSend (op : OpCode) (payload : list byte) | Break.

Section Socket.
Context `{ApiCodec}.

(** The reader, on the frames the library hands out: the requests it starts, and whether
    it tells the writer to stop *)
Fixpoint read_loop (fs : list Frame) : list ApiStreamRequest * bool :=
  match fs with
  | [] => ([], false)
  | f :: fs =>
      match opcode f with
      | Close => ([], false)
      | Binary => match decode_request (frame_payload f) with
                  | Some req => let '(reqs, broken) := read_loop fs in (req :: reqs, broken)
                  | None => ([], true)
                  end
      | _ => ([], true)
      end
  end.

(** The writer, on what it receives and whether each write succeeds: the frames it wrote *)
Fixpoint write_loop (ms : list (WsWriteMsg * bool)) : list Frame :=
  match ms with
  | [] => []
  | (Payload r, written) :: ms =>
      match encode_response r with
      | Some b => if written then mkFrame Binary b :: write_loop ms else []
      | None => []
      end
  | (ObligatedSend op payload, written) :: ms => if written then Push.obligated op payload :: write_loop ms else []
  | (Break, _) :: _ => []
  end.
Definition write_task (ms : list (WsWriteMsg * bool)) (closed : bool) : list Frame :=
  write_loop ms ++ (if closed then [Push.close_frame "Invalid Request"] else []).

(** The client's side: [stream_reader] until it ends *)
Fixpoint client_reads (fs : list Frame) : list ApiStreamResponse :=
  match fs with
  | [] => []
  | f :: fs => match Stream.read_frame f with
               | Some (Some (Stream.StreamResponse r)) => r :: client_reads fs
               | Some _ => client_reads fs
               | None => []
               end
  end.
Definition responses (ms : list (WsWriteMsg * bool)) : list ApiStreamResponse := omap (fun m => match m.1 with Payload r => Some r | _ => None end) ms.
(** A message that is written and does not end the connection *)
Definition passes (m : WsWriteMsg * bool) : Prop :=
  m.2 = true /\ match m.1 with Payload r => is_Some (encode_response r) | ObligatedSend op _ => op = Pong | Break => False end.

Context (Hround : forall r b, encode_response r = Some b -> decode_response b = Some r).

Lemma client_reads_binary r b fs : encode_response r = Some b -> client_reads (mkFrame Binary b :: fs) = r :: client_reads fs.
Proof. intros Hb. cbn [client_reads]. unfold Stream.read_frame. cbn [opcode frame_payload]. by rewrite (Hround _ _ Hb). Qed.
Lemma client_reads_obligated op p fs : client_reads (Push.obligated op p :: fs) = match op with Pong => client_reads fs | _ => [] end.
Proof. by destruct op. Qed.

(** The client of a stream reads the responses the server wrote, in the order of writing
    and without gaps, however the connection ends; and all of them when every message
    could be written and none of them ended the connection. *)
Theorem responses_read ms closed :
  client_reads (write_task ms closed) `prefix_of` responses ms /\
  (Forall passes ms -> client_reads (write_task ms closed) = responses ms).
Proof.
  induction ms as [|[[r|op p|] written] ms [IHp IHa]].
  - by destruct closed.
  - change (responses ((Payload r, written) :: ms)) with (r :: responses ms). unfold write_task. cbn [write_loop]. destruct (encode_response r) as [b|] eqn:Eb.
    + destruct written.
      * cbn [app]. rewrite (client_reads_binary r b _ Eb). split; [by apply prefix_cons|]. intros [_ Hp]%Forall_cons_1. f_equal. by apply IHa.
      * split; [destruct closed; apply prefix_nil|]. by intros [[? _] _]%Forall_cons_1.
    + split; [destruct closed; apply prefix_nil|]. intros [[_ [b Hb]] _]%Forall_cons_1. simpl in Hb. congruence.
  - change (responses ((ObligatedSend op p, written) :: ms)) with (responses ms). unfold write_task. cbn [write_loop]. destruct written.
    + cbn [app]. rewrite client_reads_obligated. split; [by destruct op; try apply prefix_nil|].
      intros [[_ Hop] Hp]%Forall_cons_1. simpl in Hop. subst op. by apply IHa.
    + split; [destruct closed; apply prefix_nil|]. by intros [[? _] _]%Forall_cons_1.
  - split; [destruct closed; apply prefix_nil|]. by intros [[_ ?] _]%Forall_cons_1.
Qed.

(** Every request in front of the first frame that is none is started, in order. *)
Theorem requests_started reqs fs : (forall req, req ∈ reqs -> decode_request (encode_request req) = Some req) ->
  read_loop (((fun req => mkFrame Binary (encode_request req)) <$> reqs) ++ fs) = (reqs ++ (read_loop fs).1, (read_loop fs).2).
Proof.
  induction reqs as [|req reqs IH]; intros Hr; [cbn [fmap list_fmap app]; by destruct (read_loop fs)|]. rewrite fmap_cons. cbn [app read_loop opcode frame_payload].
  rewrite Hr by left. rewrite IH; [done|]. intros q Hq. apply Hr. by right.
Qed.
End Socket.
End Responses.

(** Two events behind the registration of a listener, one before it; a ping is answered
    in between, and the second event is still in the channel. *)
Definition demo_run : list Push.Event :=
  [Push.Upgraded; Push.Publish (1%Z, [x01]); Push.Greeted 0 true true; Push.Publish (2%Z, [x02]); Push.Publish (3%Z, [x03]);
   Push.Handle false; Push.Handle false; Push.Handle false; Push.Take 0 Push.Written true; Push.Obligated 0 Pong [] true true; Push.Handle false].
Definition demo_server : Push.Server := default Push.start (Push.run demo_run Push.start).
Definition demo_conn : Push.Conn := default (Push.mkConn Push.Handshake [] []) (Push.conns demo_server !! 0%nat).
Definition demo_inputs : list Listen.Input := [Listen.InConnected 0; Listen.InRead 1 (Listen.Event (2%Z, [x02])); Listen.InRead 2 Listen.Liveness].

Lemma events_in_order_witness :
  (exists h, Listen.run demo_inputs Listen.start = Some h /\ Listen.delivered h = [(2%Z, [x02])] /\ [(2%Z, [x02])] `prefix_of` Push.owed 0 (Push.handled demo_server)) /\
  Push.events_in (Push.out demo_conn) ++ Push.rx_notify demo_conn = [(2%Z, [x02]); (3%Z, [x03])].
Proof.
  destruct (Push.events_in_order demo_run demo_server 0 demo_conn) as (H1 & H2 & _); [by vm_compute|by vm_compute|]. split.
  - eexists. split; [by vm_compute|]. split; [done|].
    apply (H1 2%nat demo_inputs (Listen.mkHandler Listen.Connected 0 2 true [(2%Z, [x02])] false)); [by repeat constructor|by vm_compute|by vm_compute].
  - rewrite H2; [by vm_compute|by vm_compute|]. unfold Push.unclosed. by repeat constructor.
Defined.

(** A proxy that relays the first of them *)
Definition demo_proxy_run : list Push.Event :=
  [Push.Upgraded; Push.Greeted 0 true true; Push.Handle false; Push.Publish (2%Z, [x02]); Push.Handle false; Push.Take 0 Push.Written true].
Definition demo_proxy : Push.Server := default Push.start (Push.run demo_proxy_run Push.start).
Lemma proxy_relays_witness : exists before behind, Push.owed 0 (Push.handled demo_server) = before ++ [(2%Z, [x02])] ++ behind.
Proof.
  refine (Push.proxy_relays demo_run demo_server 0 demo_conn 2 demo_inputs (Listen.mkHandler Listen.Connected 0 2 true [(2%Z, [x02])] false)
    demo_proxy_run demo_proxy 0 (default demo_conn (Push.conns demo_proxy !! 0%nat)) 1
    [Listen.InConnected 0; Listen.InRead 1 (Listen.Event (2%Z, [x02]))] (Listen.mkHandler Listen.Connected 0 1 true [(2%Z, [x02])] false) _ _ _ _ _ _ _ _ _ _ _).
  all: try (by vm_compute). all: by repeat constructor.
Defined.
