(* ===== verification/Concrete.v ===== *)
(** Concrete instances of the parameters, for the witnesses: a checksum, codecs
    for the metadata, log ids, entries and snapshots, and the states a store
    starts in.  They stand for the CRC and bincode crates in evaluations only. *)
From stdpp Require Import base gmap strings list numbers countable sorting.
From Stdlib Require Import Ascii Strings.Byte.
From S2P Require Import Prelude Text Codec WalBase WalFile WalFileSpec WalSet WalSetSpec WalPurge WalMeta.
From S2P Require Import WalWriter WalWriterSpec WalReader LogMemory LogStore KvCache DLock Notify CacheSM CacheSMSpec.

#[local] Open Scope Z_scope.

#[export] Instance Metadata_countable : Countable Metadata.
Proof.
  refine (inj_countable' (fun m => (last_purged_log_id m, vote m)) (fun p => mkMeta p.1 p.2) _). by intros [].
Defined.

#[export] Instance LogId_eqdec : EqDecision LogId.
Proof. solve_decision. Defined.
#[export] Instance LogId_countable : Countable LogId.
Proof.
  refine (inj_countable' (fun i => (term i, node_id i, index i)) (fun p => mkLogId p.1.1 p.1.2 p.2) _). by intros [].
Defined.

#[export] Instance LockQueue_eqdec : EqDecision DLock.LockQueue.
Proof. solve_decision. Defined.
#[export] Instance LockQueue_countable : Countable DLock.LockQueue.
Proof.
  refine (inj_countable' (fun q => (DLock.current_ticket q, DLock.exp q, DLock.queue q)) (fun p => DLock.mkLock p.1.1 p.1.2 p.2) _).
  by intros [].
Defined.

#[export] Instance SnapshotMeta_eqdec : EqDecision (CacheSM.SnapshotMeta (M := nat)).
Proof. solve_decision. Defined.
#[export] Instance SnapshotMeta_countable : Countable (CacheSM.SnapshotMeta (M := nat)).
Proof.
  refine (inj_countable' (fun s => (CacheSM.snap_last_log_id s, CacheSM.snap_last_membership s, CacheSM.snapshot_id s))
    (fun p => CacheSM.mkSnapMeta p.1.1 p.1.2 p.2) _).
  by intros [].
Defined.

(** ** The parameters *)
#[export] Instance sum_checksum : Checksum :=
  fun l => foldl (fun a b => (a * 31 + byte_to_Z b + 7) mod 2 ^ 32) 0 l.
#[export] Instance all_features : Features := {| auto_heal := true; oversized_entry_error := true |}.
#[export] Instance meta_codec : MetaCodec := {|
  serialize m := Byte.x00 :: Byte.x00 :: to_bytes m;
  deserialize l := of_bytes (drop 2 l);
|}.
#[export] Instance meta_codec_ok : MetaCodecOk.
Proof.
  split; intros m.
  - apply of_to_bytes.
  - cbn. rewrite !zlen_cons. pose proof (zlen_nonneg (to_bytes m)). lia.
Qed.
#[export] Instance log_id_codec : LogIdCodec := {| encode_log_id := to_bytes; decode_log_id := of_bytes |}.

(** Entries that carry only their index. *)
#[export] Instance nat_log_id : HasLogId nat := fun n => mkLogId 1 1 (Z.of_nat n).
#[export] Instance nat_codec : EntryCodec nat := {|
  enc n := replicate (S n) Byte.x2a;
  dec l := match l with [] => None | _ :: l => Some (length l) end;
|}.
#[export] Instance nat_codec_ok : EntryCodecOk nat.
Proof. split; [|done]. intros n. cbn. by rewrite length_replicate. Qed.

#[export] Instance snap_codec : CacheSM.SnapCodec (M := nat) := {|
  CacheSM.serialize_locks l := Some (to_bytes l);
  CacheSM.deserialize_locks := of_bytes;
  CacheSM.serialize_snap c := Some (to_bytes c);
  CacheSM.deserialize_snap := of_bytes;
|}.
#[export] Instance snap_codec_ok : CacheSM.SnapCodecOk (M := nat).
Proof. split; [eauto|by intros l b [= <-]; apply of_to_bytes|eauto|by intros c b [= <-]; apply of_to_bytes]. Qed.

(** ** A store that was just started *)
Definition cfg0 : Cfg := mkCfg Immediate 8192 8158.
Definition base0 : string := "data".

Lemma cfg0_ok : cfg_ok cfg0.
Proof. by split. Qed.

(** [writer::spawn] on an empty directory, and the mapping of the active file. *)
Definition boot : Res Error unit * (Fs * Writer) :=
  match spawn base0 8192 false false (mkMeta None None) fs_empty with
  | (Ok w, fs) => on_set (on_active mmap_mut_op) (fs, w)
  | (_, fs) => (Panic, (fs, mkWriter (mkMeta None None) (mkSet None base0 []) (mkSet None base0 []) false []))
  end.

Lemma fs_empty_wf : fs_wf fs_empty.
Proof. split; intros; cbn in *; set_solver. Qed.

Lemma boot_ok : exists fs w f,
  boot = (Ok tt, (fs, w)) /\ writer_ok cfg0 fs w [] f [] /\ wal_no f = 1 /\
  out w = [] /\ base_path (wal w) = base0.
Proof.
  destruct (spawn_empty fs_empty base0 8192 Immediate (mkMeta None None) fs_empty_wf) as
    (fs & w & w' & f & Hs & Hm & Hok & Hn & _ & Ho & Hb & _); [done|unfold MIN_WAL_SIZE; done|].
  exists fs, w', f. unfold boot. rewrite Hs. split; [exact Hm|]. split; [exact Hok|]. auto.
Qed.

(** Three logs, and the writer after they were appended. *)
Definition logs3 : list (Z * list byte) := [(1, [Byte.x61]); (2, [Byte.x62; Byte.x63]); (3, [Byte.x64])].

Lemma logs3_fit : Forall (fits cfg0) logs3.
Proof. repeat (apply Forall_cons; split; [by split|]). constructor. Qed.

Lemma boot_logs3 : exists fs w l f rs,
  writer_ok cfg0 fs w l f rs /\ log_of (l ++ [(f, rs)]) = logs3 /\ base_path (wal w) = base0 /\ 1 <= wal_no f <= 5.
Proof.
  destruct boot_ok as (fs & w & f & _ & Hok & Hn & _ & Hb).
  destruct (handle_append_ok cfg0 fs w [] f [] logs3 cfg0_ok Hok logs3_fit) as
    (fs' & w' & l' & f' & rs' & _ & Hok' & Hlog & _ & _ & Hb' & _ & Hno).
  - by exists 1.
  - rewrite Hn. done.
  - exists fs', w', l', f', rs'. rewrite Hb', Hn in *. done.
Qed.

(** The same with the active file: one file holds all three logs. *)
Lemma boot_logs3_active : exists fs w l f rs i,
  writer_ok cfg0 fs w l f rs /\ log_of (l ++ [(f, rs)]) = logs3 /\ base_path (wal w) = base0 /\ 1 <= wal_no f <= 5 /\
  rs <> [] /\ entry_at fs (base_path (wal w)) (f, rs) i /\ mmap_mut f = Some i /\ id_until f <= 3 /\ l = [].
Proof.
  destruct boot_ok as (fs & w & f & Hboot & Hok & Hn & _ & Hb).
  destruct (handle_append_ok cfg0 fs w [] f [] logs3 cfg0_ok Hok logs3_fit) as
    (fs' & w' & l & f' & rs & Hrun & Hok' & Hlog & _ & _ & Hb' & _ & Hno).
  - clear Hboot. by exists 1.
  - clear Hboot. rewrite Hn. done.
  - assert (length (files (wal w')) = 1%nat) as Hlen.
    { assert (w' = snd (snd (handle_append cfg0 logs3 (boot.2)))) as -> by (rewrite Hboot; cbn [snd]; by rewrite Hrun).
      vm_compute. reflexivity. }
    destruct (loop_files _ _ _ _ _ _ (wr_loop _ _ _ _ _ _ Hok')) as (Hf & _ & i & Hat & Hmm).
    assert (l = []) as ->. { clear Hboot. rewrite Hf, length_app, length_fmap in Hlen. cbn in Hlen. destruct l; [done|cbn in Hlen; lia]. }
    cbn in Hlog. change (log_of ([] ++ [(f', rs)])) with (rs ++ []) in Hlog. rewrite app_nil_r in Hlog. subst rs.
    clear Hboot. assert (id_until f' = 3) as Hu.
    { destruct Hat as (_ & [_ _ _ (ds & _ & _ & _ & _ & [Hid _] & Hu)] & _). cbn [fst snd] in *. rewrite Hu, <- Hid. done. }
    exists fs', w', [], f', logs3, i. rewrite Hb', Hu. rewrite Hn in Hno. change (zlen logs3) with 3 in Hno.
    split; [exact Hok'|]. split; [done|]. split; [exact Hb|]. split; [lia|]. split; [done|].
    split; [rewrite Hb' in Hat; exact Hat|]. split; [exact Hmm|]. split; [lia|done].
Qed.

(** A store whose only file is empty holds the empty log. *)
Lemma empty_store fs w f l1 f1 rs1 (log : list nat) :
  writer_ok cfg0 fs w [] f [] -> writer_ok cfg0 fs w l1 f1 rs1 ->
  log_of (l1 ++ [(f1, rs1)]) = entry_of <$> log -> log = [].
Proof.
  intros Hok Hok1 Hlog.
  destruct (loop_files _ _ _ _ _ _ (wr_loop _ _ _ _ _ _ Hok)) as (Hf & _ & i & (Hd & [_ _ _ [Hs _]] & _) & _).
  destruct (loop_files _ _ _ _ _ _ (wr_loop _ _ _ _ _ _ Hok1)) as (Hf1 & _ & i1 & (_ & Hfo & _) & _).
  rewrite Hf in Hf1. destruct l1 as [|e l1]; [|by destruct l1]. injection Hf1 as <-. cbn in Hs, Hfo.
  destruct rs1 as [|r rs1]; [by destruct log|]. destruct (file_ok_data_start _ _ _ Hfo ltac:(done)) as [ds Hds]. congruence.
Qed.
