(* ===== verification/WalTheorems.v ===== *)
(** What the write-ahead log guarantees: the theorems about single files, the
    file set, the writer and reader tasks, the metadata file and the lock file,
    each with an instance on concrete data. *)
From stdpp Require Import base gmap strings list numbers sorting.
From Stdlib Require Import Ascii Strings.Byte.
From S2P Require Import Prelude Text WalBase WalFile WalFileSpec WalSet WalSetSpec WalPurge WalMeta.
From S2P Require Import WalWriter WalWriterSpec WalReader LogMemory LogStore Concrete.

#[local] Open Scope Z_scope.

(** ** Example data: a file of 256 bytes with inode 0 *)
Definition demo_path : string := "data/0000000000000001.wal".
Definition demo_fs (bytes : list byte) : Fs := mkFs {[demo_path := 0%nat]} {[0%nat := mkInode bytes bytes]} 1.
Definition demo_file : WalFile := mkWal 1 1 demo_path 0 0 None None 256 None (Some 0%nat) (Some 0%nat).
Definition demo_bytes : list byte := replicate 256 Byte.x00.

(** The demo file after the three logs were appended. *)
Definition demo3 : Fs * WalFile :=
  snd ((append_log 1 [Byte.x61];; append_log 2 [Byte.x62; Byte.x63];; append_log 3 [Byte.x64]) (demo_fs demo_bytes, demo_file)).

Lemma demo_file_ok : file_ok (fs_content (demo_fs demo_bytes) 0) demo_file [].
Proof. by split. Qed.

Lemma demo3_ok : file_ok (fs_content demo3.1 0) demo3.2 logs3.
Proof.
  split; [by vm_compute|by vm_compute|by vm_compute|].
  assert (data_start demo3.2 = Some 32 /\ data_end demo3.2 = Some (rec_end 32 logs3 - 1) /\ id_from demo3.2 = 1 /\ id_until demo3.2 = 3)
    as (Hs & He & Hf & Hu) by (by vm_compute).
  exists 32. rewrite Hs, He, Hf, Hu. clear. split; [done|]. split; [done|]. split; [done|]. split; [|done].
  repeat (split; [by split|]; split; [vm_compute; reflexivity|]). done.
Qed.

(** ** One file *)
Section File.
Context `{Checksum} `{Features}.

(** appending a record to a file and reading any range back yields exactly the
    records with the ids of that range, the old ones and the new one, in order. *)
Theorem file_append_read fs w i rs r from until :
  file_ok (fs_content fs i) w rs -> mmap w = None -> mmap_mut w = Some i -> rec_ok r ->
  has_space w (zlen r.2) = Ok true -> (rs = [] \/ r.1 = id_until w + 1) ->
  (rs <> [] -> id_from w <= from) -> (rs = [] -> from = r.1) -> from <= until <= r.1 ->
  exists fs' w' off memo, append_log r.1 r.2 (fs, w) = (Ok tt, (fs', w')) /\
    read_logs fs' w' from until None = Ok (off, memo, select from until (rs ++ [r])).
Proof.
  intros Hok Hm Hi Hr Hsp Hid Hf1 Hf2 Hu. pose proof (append_log_ok fs w i rs r Hok Hi Hsp) as Hrun.
  pose proof (file_ok_append _ _ _ _ Hok Hr Hsp Hid) as Hok'.
  destruct (appended_maps w r) as (Am & Ai & Al & Au & An).
  eexists _, _, _, _. split; [exact Hrun|].
  rewrite (read_logs_ok _ _ (append_content (fs_content fs i) w r) (rs ++ [r])); [reflexivity|done| | | |lia| |done].
  - rewrite (mapped_mut _ _ i) by congruence. by rewrite fs_content_store.
  - by destruct rs.
  - destruct rs as [|r0 rs]; [cbn; destruct Hok as [_ _ _ [-> _]]; cbn; rewrite Hf2 by done; lia|].
    destruct (file_ok_data_start _ _ _ Hok ltac:(done)) as [ds Hds]. cbn. rewrite Hds. by apply Hf1.
  - cbn. lia.
Qed.

(** C36: whatever bytes a mapped file holds, reading a range with any memo ends.
    It hands out only records stored in the file whose checksum matches and whose
    id lies in the requested range, or reports an error; it panics exactly when the
    range lies within the ids of the header while the header has no data range. *)
Theorem file_read_sound fs w bytes from until memo :
  mapped fs w = Some bytes -> zlen bytes = len_max w -> 0 <= len_max w < u32_max -> version w = 1 ->
  (forall ds, data_start w = Some ds -> 0 <= ds) ->
  (match read_logs fs w from until memo with
   | Ok (_, _, logs) => Forall (fun r => stored fs w r /\ from <= r.1 <= until) logs
   | Err _ | Panic => True
   | OutOfFuel => False
   end) /\
  (read_logs fs w from until memo = Panic <->
   id_from w <= from <= until /\ until <= id_until w /\ (data_start w = None \/ data_end w = None)).
Proof.
  intros Hmap Hlen Hmax Hv Hds0. unfold read_logs.
  destruct (Z.ltb_spec from (id_from w)); [split; [done|split; [done|lia]]|].
  destruct (Z.ltb_spec (id_until w) until); [split; [done|split; [done|lia]]|].
  destruct (Z.ltb_spec until from); [split; [done|split; [done|lia]]|].
  destruct (data_start w) as [ds|] eqn:Hds; [|split; [done|split; [auto|done]]].
  destruct (data_end w) as [de|] eqn:Hde; [|split; [done|split; [auto|done]]]. step_res. specialize (Hds0 ds eq_refl).
  assert (0 <= memo_start w from ds memo) as Hms.
  { unfold memo_start. destruct memo as [m|]; [|done]. destruct (_ && _ && _); [|done]. unfold wrap32. apply Z.mod_pos_bound. lia. }
  pose proof (read_loop_sound fs w bytes Hmap Hlen ltac:(unfold is_u32, u32_max in *; lia) ltac:(lia) Hv from until
    (S (Z.to_nat (len_max w))) (memo_start w from ds memo) 0 memo [] Hms ltac:(lia)) as Hs.
  destruct (read_loop _ _ _ _ _ _ _ _ _) as [[[o m] logs]|e| |]; try done.
  - destruct Hs as (out & -> & Hall). split; [done|]. split; [done|]. by intros (_ & _ & [?|?]).
  - split; [done|]. split; [done|]. by intros (_ & _ & [?|?]).
Qed.

(** the header written for a file is read back: opening the file yields the
    number, ids and data range it was written with, not mapped. *)
Theorem file_header_roundtrip fs w i base :
  header_fields_ok w -> is_u64 (wal_no w) -> build_full_path base (wal_no w) = Ok (path w) ->
  mmap_mut w = Some i -> dir fs !! path w = Some i -> zlen (fs_content fs i) = len_max w ->
  exists fs', update_header (fs, w) = (Ok tt, (fs', w)) /\ read_from_file fs' (path w) = Ok (clone_no_mmap w).
Proof.
  intros Hh Hn Hp Hm Hd Hl. pose proof (hf_len _ Hh) as Hmax. pose proof (hf_version _ Hh) as Hv.
  rewrite (update_header_ok fs w i Hv Hm) by lia. eexists. split; [reflexivity|].
  destruct (header_of_ok w Hv) as [_ Hz].
  eapply (read_from_file_ok _ _ i base); [done|done|done|done| |].
  - rewrite fs_content_store, zlen_splice by lia. done.
  - rewrite fs_content_store. replace 32 with (0 + zlen (header_of w)) by lia. apply slice_splice_same; lia.
Qed.

(** the deep integrity check of a file finds the records behind the ones its
    header knows (written before a crash, after the last header update) and takes
    them over; the file then holds all of them. *)
Theorem deep_check_recovers fs w i rs os :
  file_ok (fs_content fs i) w rs -> rs <> [] -> mmap w = None -> mmap_mut w = Some i ->
  recs_at (fs_content fs i) (next_start w) os -> ids_from (id_until w + 1) os ->
  log_ends fs w (rec_end (next_start w) os) (id_until w + zlen os) ->
  exists fs' w', check_repair_data_integrity (fs, w) = (Ok tt, (fs', w')) /\
    file_ok (fs_content fs' i) w' (rs ++ os).
Proof.
  intros Hok Hne Hm Hi Hat Hids Hend. destruct (check_repair_ok fs w i rs os Hok Hne Hm Hi Hat Hids Hend) as [Hrun Hfo].
  eexists _, _. split; [exact Hrun|]. destruct os; [done|]. by rewrite fs_content_store.
Qed.

(** a record with a wrong checksum is never taken over: with [auto-heal] the
    file is cut back to the healthy records before it, without it the check fails. *)
Theorem deep_check_stops_at_corruption fs w i r1 ds de bad :
  version w = 1 -> zlen (fs_content fs i) = len_max w -> 32 <= len_max w < u32_max ->
  mmap w = None -> mmap_mut w = Some i ->
  data_start w = Some ds -> 32 <= ds -> data_end w = Some de -> rec_end ds r1 <= de ->
  recs_at (fs_content fs i) ds r1 -> ids_from (id_from w) r1 -> id_from w + zlen r1 <= id_until w ->
  read_record_unchecked fs w (rec_end ds r1) = Ok bad -> is_u64 (log_id bad) ->
  log_id bad = id_from w + zlen r1 -> rec_crc bad <> crc (rec_data bad) ->
  if auto_heal
  then exists fs' w', check_repair_data_integrity (fs, w) = (Ok tt, (fs', w')) /\ file_ok (fs_content fs' i) w' r1
  else check_repair_data_integrity (fs, w) = (Err EIntegrity, (fs, w)).
Proof.
  intros. destruct (check_repair_bad_crc fs w i r1 ds de bad) as [Hrun Hfo]; try done. rewrite Hrun.
  destruct auto_heal; [|done]. eexists _, _. split; [reflexivity|]. by rewrite fs_content_store.
Qed.

End File.

Lemma file_append_read_witness : exists fs' w' off memo,
  append_log 1 [Byte.x61] (demo_fs demo_bytes, demo_file) = (Ok tt, (fs', w')) /\
  read_logs fs' w' 1 1 None = Ok (off, memo, [(1, [Byte.x61])]).
Proof.
  exact (file_append_read (demo_fs demo_bytes) demo_file 0 [] (1, [Byte.x61]) 1 1 demo_file_ok eq_refl eq_refl
    ltac:(by split) eq_refl (or_introl eq_refl) ltac:(done) ltac:(done) ltac:(done)).
Defined.

Lemma file_read_sound_witness :
  (match read_logs demo3.1 demo3.2 2 3 None with
   | Ok (_, _, logs) => Forall (fun r => stored demo3.1 demo3.2 r /\ 2 <= r.1 <= 3) logs
   | Err _ | Panic => True
   | OutOfFuel => False
   end) /\ read_logs demo3.1 demo3.2 2 3 None <> Panic.
Proof.
  destruct (file_read_sound demo3.1 demo3.2 (fs_content demo3.1 0) 2 3 None) as [Hr Hp].
  - vm_compute. reflexivity.
  - vm_compute. reflexivity.
  - by vm_compute.
  - vm_compute. reflexivity.
  - assert (data_start demo3.2 = Some 32) as -> by (vm_compute; reflexivity). by intros ds [= <-].
  - split; [exact Hr|]. intros E. apply Hp in E as (_ & _ & [E|E]); vm_compute in E; done.
Defined.

Lemma file_header_roundtrip_witness : exists fs',
  update_header (demo_fs demo_bytes, demo_file) = (Ok tt, (fs', demo_file)) /\
  read_from_file fs' demo_path = Ok (clone_no_mmap demo_file).
Proof.
  refine (file_header_roundtrip (demo_fs demo_bytes) demo_file 0 "data" _ _ _ _ _ _); try (vm_compute; reflexivity); by split.
Defined.

(** The file as it was after the first log, while the bytes hold all three. *)
Definition demo1 : WalFile := snd (snd (append_log 1 [Byte.x61] (demo_fs demo_bytes, demo_file))).

Lemma deep_check_recovers_witness : exists fs' w',
  check_repair_data_integrity (demo3.1, demo1) = (Ok tt, (fs', w')) /\ file_ok (fs_content fs' 0) w' logs3.
Proof.
  refine (deep_check_recovers demo3.1 demo1 0 [(1, [Byte.x61])] [(2, [Byte.x62; Byte.x63]); (3, [Byte.x64])] _ _ _ _ _ _ _).
  - split; [by vm_compute|by vm_compute|by vm_compute|]. exists 32.
    split; [done|]. do 2 (split; [vm_compute; reflexivity|]). split; [|split; [vm_compute; done|vm_compute; done]].
    split; [by split|]. split; [vm_compute; reflexivity|done].
  - done.
  - vm_compute; reflexivity.
  - vm_compute; reflexivity.
  - repeat (split; [by split|]; split; [vm_compute; reflexivity|]). done.
  - vm_compute. done.
  - right. vm_compute. auto.
Defined.

(** The second record damaged: the first byte of its payload differs. *)
Definition demo_bad : Fs := fs_store 0 (splice (fs_content demo3.1 0) 66 [Byte.x00]) demo3.1.

Lemma deep_check_stops_at_corruption_witness : exists fs' w',
  check_repair_data_integrity (demo_bad, demo3.2) = (Ok tt, (fs', w')) /\ file_ok (fs_content fs' 0) w' [(1, [Byte.x61])].
Proof.
  refine (deep_check_stops_at_corruption demo_bad demo3.2 0 [(1, [Byte.x61])] 32 86
    (mkRecord 2 (crc [Byte.x62; Byte.x63]) [Byte.x00; Byte.x63]) _ _ _ _ _ _ _ _ _ _ _ _ _ _ _ _);
    try (vm_compute; reflexivity); by vm_compute.
Defined.

(** ** The file set and the writer *)
Section Writer.
Context `{Checksum} `{Features} `{MetaCodec}.

(** rolling over seals the active file and opens the next one: no log is lost,
    the set stays well-formed, the new file is active, empty and continues the ids. *)
Theorem set_roll_over fs s l w rs i ws p :
  set_ok fs s (l ++ [(w, rs)]) -> entry_at fs (base_path s) (w, rs) i -> mmap_mut w = Some i ->
  rs <> [] -> MIN_WAL_SIZE <= ws < u32_max -> wal_no w + 1 < u64_max -> id_until w < u64_max ->
  build_full_path (base_path s) (wal_no w + 1) = Ok p ->
  exists fs' s' w' f, roll_over ws (fs, s) = (Ok tt, (fs', s')) /\ set_ok fs' s' (l ++ [(w', rs)] ++ [(f, [])]) /\
    wal_no f = wal_no w + 1 /\ id_from f = id_until w + 1 /\ len_max f = ws /\
    log_of (l ++ [(w', rs)] ++ [(f, [])]) = log_of (l ++ [(w, rs)]).
Proof.
  intros. destruct (roll_over_ok fs s l w rs i ws p) as [Hrun Hok]; try done. cbv zeta in *.
  eexists _, _, _, _. split; [exact Hrun|]. split; [exact Hok|]. split; [done|]. split; [done|]. split; [done|].
  rewrite app_assoc, log_of_snoc, app_nil_r. by rewrite !log_of_snoc.
Qed.

(** C2: an append batch whose entries fit and continue the log is stored whole and
    in order, in as many files as needed; the writer acknowledges it without an
    error, runs the callback, and is well-formed again, shared copy included. *)
Theorem writer_append cfg fs w l f rs es :
  cfg_ok cfg -> writer_ok cfg fs w l f rs -> Forall (fits cfg) es ->
  appends (log_of (l ++ [(f, rs)])) es -> wal_no f + zlen es + 1 < 10 ^ 16 ->
  exists fs' w' l' f' rs', handle cfg (Append es) (fs, w) = (Ok true, (fs', w')) /\
    writer_ok cfg fs' w' l' f' rs' /\ log_of (l' ++ [(f', rs')]) = log_of (l ++ [(f, rs)]) ++ es /\
    out w' = out w ++ [RAck None; RCallback None] /\ meta w' = meta w /\
    (sync cfg = Immediate -> durable fs' (l' ++ [(f', rs')])).
Proof.
  intros Hcfg Hok Hfit Happ Hno.
  destruct (handle_append_ok cfg fs w l f rs es Hcfg Hok Hfit Happ Hno) as
    (fs' & w' & l' & f' & rs' & Hrun & Hok' & Hlog & Hout & Hmeta & _ & Hd & _).
  exists fs', w', l', f', rs'. cbn [handle]. rewrite (st_bind_ok _ _ _ _ _ Hrun). split; [done|].
  split_and!; try done. intros Hi. eapply writer_durable; [done|]. auto.
Qed.

(** a purge drops exactly the logs below the given id, acknowledges without an
    error, and records the purged log id in the metadata. *)
Theorem writer_purge cfg fs w l f rs until last_log :
  cfg_ok cfg -> writer_ok cfg fs w l f rs ->
  exists fs' w' l' f' rs', handle cfg (Remove 0 until (Some last_log)) (fs, w) = (Ok true, (fs', w')) /\
    writer_ok cfg fs' w' l' f' rs' /\
    log_of (l' ++ [(f', rs')]) = keep_from until (log_of (l ++ [(f, rs)])) /\
    out w' = out w ++ [RAck None] /\ meta w' = mkMeta (Some last_log) (vote (meta w)).
Proof.
  intros Hcfg Hok. destruct (handle_purge_ok cfg fs w l f rs until last_log Hcfg Hok) as
    (fs' & w' & l' & f' & rs' & Hrun & Hok' & Hlog & _ & Hout & _ & Hv & _ & Hp).
  exists fs', w', l', f', rs'. cbn [handle]. rewrite (st_bind_ok _ _ _ _ _ Hrun). split_and!; try done.
  destruct (meta w') as [p v]. cbn in *. by subst.
Qed.

(** a truncation from an id on keeps exactly the logs below it, when the id is
    not the first one of a sealed file behind the first; purge frontier and vote
    stay. *)
Theorem writer_truncate cfg fs w l f rs from :
  cfg_ok cfg -> writer_ok cfg fs w l f rs -> from < 2 ^ 64 ->
  Forall (fun e : FileLogs => id_from e.1 <> from) (drop 1 l) ->
  exists fs' w' l' f' rs', handle cfg (Remove from u64_max None) (fs, w) = (Ok true, (fs', w')) /\
    writer_ok cfg fs' w' l' f' rs' /\
    log_of (l' ++ [(f', rs')]) = keep_below from (log_of (l ++ [(f, rs)])) /\
    out w' = out w ++ [RAck None] /\ meta w' = meta w.
Proof.
  intros Hcfg Hok H64 Hseam. destruct (handle_truncate_ok cfg fs w l f rs from Hcfg Hok H64 Hseam) as
    (fs' & w' & l' & f' & rs' & Hrun & Hok' & Hlog & _ & Hout & _ & Hv & _ & Hp).
  exists fs', w', l', f', rs'. cbn [handle]. rewrite (st_bind_ok _ _ _ _ _ Hrun). split_and!; try done.
  destruct (meta w') as [p v], (meta w) as [p' v']. cbn in *. by subst.
Qed.

(** when a vote is acknowledged it is on the device: a restart reads the vote
    and the purge frontier back from the metadata file. *)
Theorem writer_vote_durable `{!MetaCodecOk} cfg fs w l f rs value :
  writer_ok cfg fs w l f rs ->
  exists fs' w' i, handle cfg (Vote value) (fs, w) = (Ok true, (fs', w')) /\ writer_ok cfg fs' w' l f rs /\
    out w' = out w ++ [RAck None] /\ dir fs' !! meta_path (base_path (wal w)) = Some i /\
    fs_durable fs' i = meta_bytes (serialize (meta w')) /\
    read_or_create (base_path (wal w)) fs' = (Ok (mkMeta (last_purged_log_id (meta w)) (Some value)), fs').
Proof.
  intros Hok. destruct (handle_vote_ok cfg fs w l f rs value Hok) as
    (fs' & w' & Hrun & Hok' & Hm & Hout & _ & _ & i & Hi & Hd & Hc).
  exists fs', w', i. cbn [handle]. rewrite (st_bind_ok _ _ _ _ _ Hrun). split_and!; try done.
  rewrite <- Hm. by eapply read_or_create_bytes.
Qed.

(** after a sync every log of the set is on the device, header included, and
    nothing else changed. *)
Theorem writer_sync_durable cfg fs w l f rs :
  writer_ok cfg fs w l f rs ->
  exists fs', handle cfg Sync (fs, w) = (Ok true, (fs', set_dirty false w)) /\
    writer_ok cfg fs' (set_dirty false w) l f rs /\ durable fs' (l ++ [(f, rs)]).
Proof.
  intros Hok. destruct (handle_sync_ok cfg fs w l f rs Hok) as (fs' & Hrun & Hok' & Hd).
  exists fs'. cbn [handle]. by rewrite (st_bind_ok _ _ _ _ _ Hrun).
Qed.

(** a reader that follows the writer answers a request for a range inside the
    log with exactly the logs of that range, in order. *)
Theorem reader_logs fs s l t r from until :
  set_core fs s l -> shared_ok (base_path s) s t -> reader_ok fs (base_path s) l t r ->
  (forall x, head (log_of l) = Some x -> x.1 <= from) -> from <= until ->
  (forall x, last (log_of l) = Some x -> until <= x.1 < u64_max) -> log_of l <> [] ->
  exists r', handle_logs fs t from until r = Ok (r', data_of (select from until (log_of l))).
Proof. apply handle_logs_ok. Qed.

(** the log state a reader reports is the stored purge frontier and the last
    log of the set. *)
Theorem reader_log_state fs s l t r mt :
  set_ok fs s l -> shared_ok (base_path s) s t -> reader_ok fs (base_path s) l t r ->
  exists r', handle_log_state fs t mt r = Ok (r', mkLogState (last_purged_log_id mt) (snd <$> last (log_of l))).
Proof. apply handle_log_state_ok. Qed.

End Writer.

(** The states of a store on an empty directory, before and after three logs. *)
Lemma set_roll_over_witness : exists fs w l f rs fs' s' w' f' p,
  build_full_path (base_path (wal w)) (wal_no f + 1) = Ok p /\ log_of (l ++ [(f, rs)]) = logs3 /\
  roll_over 8192 (fs, wal w) = (Ok tt, (fs', s')) /\ log_of (l ++ [(w', rs)] ++ [(f', [])]) = logs3.
Proof.
  destruct boot_logs3_active as (fs & w & l & f & rs & i & Hok & Hlog & Hb & Hn & Hne & Hat & Hmm & Hu).
  destruct (path_exists (base_path (wal w)) (wal_no f + 1)) as [p Hp]; [lia|].
  destruct (set_roll_over fs (wal w) l f rs i 8192 p) as (fs' & s' & w' & f' & Hrun & _ & _ & _ & _ & Hl); try done.
  - apply Hok.
  - unfold u64_max. lia.
  - unfold u64_max. lia.
  - exists fs, w, l, f, rs, fs', s', w', f', p. by rewrite Hl.
Defined.

Lemma writer_append_witness : exists fs w fs' w' l f rs,
  boot = (Ok tt, (fs, w)) /\ handle cfg0 (Append logs3) (fs, w) = (Ok true, (fs', w')) /\
  log_of (l ++ [(f, rs)]) = logs3 /\ out w' = [RAck None; RCallback None] /\ durable fs' (l ++ [(f, rs)]).
Proof.
  destruct boot_ok as (fs & w & f & Hboot & Hok & Hn & Hout & _).
  destruct (writer_append cfg0 fs w [] f [] logs3 cfg0_ok Hok logs3_fit) as
    (fs' & w' & l' & f' & rs' & Hrun & _ & Hlog & Ho & _ & Hd).
  - clear Hboot. by exists 1.
  - clear Hboot. rewrite Hn. done.
  - exists fs, w, fs', w', l', f', rs'. rewrite Hout in Ho. split; [exact Hboot|]. clear Hboot. split_and!; try done. by apply Hd.
Defined.

Lemma writer_purge_witness : exists fs w fs' w' l f rs,
  handle cfg0 (Remove 0 3 (Some [Byte.x02])) (fs, w) = (Ok true, (fs', w')) /\
  log_of (l ++ [(f, rs)]) = [(3, [Byte.x64])] /\ last_purged_log_id (meta w') = Some [Byte.x02].
Proof.
  destruct boot_logs3 as (fs & w & l & f & rs & Hok & Hlog & _).
  destruct (writer_purge cfg0 fs w l f rs 3 [Byte.x02] cfg0_ok Hok) as (fs' & w' & l' & f' & rs' & Hrun & _ & Hl & _ & Hm).
  exists fs, w, fs', w', l', f', rs'. rewrite Hlog in Hl. rewrite Hm. done.
Defined.

Lemma writer_truncate_witness : exists fs w fs' w' l f rs,
  handle cfg0 (Remove 2 u64_max None) (fs, w) = (Ok true, (fs', w')) /\ log_of (l ++ [(f, rs)]) = [(1, [Byte.x61])].
Proof.
  destruct boot_logs3_active as (fs & w & l & f & rs & i & Hok & Hlog & _ & _ & _ & _ & _ & _ & Hl).
  destruct (writer_truncate cfg0 fs w l f rs 2 cfg0_ok Hok) as (fs' & w' & l' & f' & rs' & Hrun & _ & Hl' & _); [done| |].
  - by rewrite Hl.
  - exists fs, w, fs', w', l', f', rs'. rewrite Hlog in Hl'. done.
Defined.

Lemma writer_vote_durable_witness : exists fs w fs' w',
  boot = (Ok tt, (fs, w)) /\ handle cfg0 (Vote [Byte.x07]) (fs, w) = (Ok true, (fs', w')) /\
  read_or_create (base_path (wal w)) fs' = (Ok (mkMeta (last_purged_log_id (meta w)) (Some [Byte.x07])), fs').
Proof.
  destruct boot_ok as (fs & w & f & Hboot & Hok & _).
  destruct (writer_vote_durable cfg0 fs w [] f [] [Byte.x07] Hok) as (fs' & w' & i & Hrun & _ & _ & _ & _ & Hr).
  exists fs, w, fs', w'. split; [exact Hboot|]. split; [exact Hrun|exact Hr].
Defined.

Lemma writer_sync_durable_witness : exists fs w fs' l,
  handle cfg0 Sync (fs, w) = (Ok true, (fs', set_dirty false w)) /\ log_of l = logs3 /\ durable fs' l.
Proof.
  destruct boot_logs3 as (fs & w & l & f & rs & Hok & Hlog & _).
  destruct (writer_sync_durable cfg0 fs w l f rs Hok) as (fs' & Hrun & _ & Hd).
  exists fs, w, fs', (l ++ [(f, rs)]). done.
Defined.

Lemma reader_logs_witness : exists fs w r r',
  handle_logs fs (wal_locked w) 2 3 r = Ok (r', [Data [Byte.x62; Byte.x63]; Data [Byte.x64]]).
Proof.
  destruct boot_logs3 as (fs & w & l & f & rs & Hok & Hlog & _).
  destruct (reader_logs fs (wal w) (l ++ [(f, rs)]) (wal_locked w) (spawn_reader (mkStore fs w)) 2 3) as [r' Hr].
  - apply Hok.
  - apply Hok.
  - exact (spawn_reader_ok cfg0 (mkStore fs w) l f rs Hok).
  - rewrite Hlog. by intros x [= <-].
  - done.
  - rewrite Hlog. by intros x [= <-].
  - by rewrite Hlog.
  - exists fs, w, (spawn_reader (mkStore fs w)), r'. rewrite Hr, Hlog. done.
Defined.

Lemma reader_log_state_witness : exists fs w r r' m,
  handle_log_state fs (wal_locked w) (mkMeta None m) r = Ok (r', mkLogState None (Some [Byte.x64])).
Proof.
  destruct boot_logs3 as (fs & w & l & f & rs & Hok & Hlog & _).
  destruct (reader_log_state fs (wal w) (l ++ [(f, rs)]) (wal_locked w) (spawn_reader (mkStore fs w)) (mkMeta None None)) as [r' Hr].
  - apply Hok.
  - apply Hok.
  - exact (spawn_reader_ok cfg0 (mkStore fs w) l f rs Hok).
  - exists fs, w, (spawn_reader (mkStore fs w)), r', None. rewrite Hr, Hlog. done.
Defined.

(** ** The store *)
Section Store.
Context `{Checksum} `{Features} `{MetaCodec} `{LogIdCodec}.

(** starting a store on a directory without WAL files gives a running writer
    with an empty log and takes the lock: a second start on the same directory
    panics. *)
Theorem start_fresh base size snc y :
  fs_wf (sys_fs y) -> no_wal (sys_fs y) -> dir (sys_fs y) !! LockFile.path base = None ->
  dir (sys_fs y) !! meta_path base = None -> (forall j, j ∈ locks y -> (j < next_ino (sys_fs y))%nat) ->
  MIN_WAL_SIZE <= size < u32_max ->
  exists i w w' y' f, start base size false y = (Ok (i, w), y') /\ start base size false y' = (Panic, y') /\
    on_set (on_active mmap_mut_op) (sys_fs y', w) = (Ok tt, (sys_fs y', w')) /\
    writer_ok (mkCfg snc size (size - 34)) (sys_fs y') w' [] f [] /\ meta w' = mkMeta None None.
Proof.
  intros Y1 Y2 Y3 Y4 Y5 Y6. destruct (start_fresh_ok base size snc y Y1 Y2 Y3 Y4 Y5 Y6) as (i & w & w' & y' & f & Hs & Ha & Hrest).
  exists i, w, w', y', f. split; [done|]. split; [|done]. unfold start. by rewrite Ha.
Qed.

Context {T V : Type} `{HasLogId T} `{EntryCodec T} `{!EntryCodecOk T}.

(** C1: the WAL store implements the log: any sequence of appends of entries that
    fit into a file, continue the log behind the purge frontier and need no file
    number of more than sixteen digits, of purges, and of truncations that do not
    start at the first log of a sealed file behind the first one is acknowledged and
    leaves the entries of the reference log behind the purge frontier; a reader
    started afterwards returns any range of the stored log. *)
Theorem wal_store_refines cfg (Hcfg : cfg_ok cfg) (s : WalStore) (log : list T) p os :
  store_ok cfg s log ->
  @ops_ok _ _ (wal_storage cfg) _ (wal_storage_spec cfg Hcfg) os s p ->
  exists s' log', @run_ops _ _ (wal_storage cfg) os s = Some s' /\ store_ok cfg s' log' /\
    (let r := fold_left (fun r o => ref_op o r) os (p, above p log) in above r.1 log' = r.2) /\
    forall a b, log' <> [] -> (forall e, head log' = Some e -> idx e <= a) -> a <= b ->
      (forall e, last log' = Some e -> b <= idx e) ->
      exists r, try_get_log_entries (Included a) (Included b) s' (spawn_reader s') = Ok (r, between a b log').
Proof.
  intros Hs Hops.
  destruct (@run_ops_ref _ _ (wal_storage cfg) _ (wal_storage_spec cfg Hcfg) os s log p Hs Hops) as (s' & log' & Hrun & Hok & Href).
  exists s', log'. split; [exact Hrun|]. split; [exact Hok|]. split; [exact Href|].
  intros a b Hne Ha Hab Hb. apply (store_read_ok cfg); [exact Hok|done..].
Qed.

(** the in-memory store implements the same log. *)
Theorem mem_store_refines (s : Memory.LogStoreMemory (E := T) (V := V)) p os :
  Memory.mem_ok s -> Forall (fun e => 0 <= idx e < 2 ^ 64 - 1) (Memory.logs s) ->
  @ops_ok _ _ mem_storage _ mem_storage_spec os s p ->
  exists s', @run_ops _ _ mem_storage os s = Some s' /\ Memory.mem_ok s' /\
    (let r := fold_left (fun r o => ref_op o r) os (p, above p (Memory.logs s)) in above r.1 (Memory.logs s') = r.2) /\
    forall a b, (forall e, head (Memory.logs s') = Some e -> idx e <= a) -> 0 <= a <= b ->
      (forall e, last (Memory.logs s') = Some e -> b <= idx e) ->
      Memory.try_get_log_entries (Included a) (Included b) s' = Ok (between a b (Memory.logs s')).
Proof.
  intros Hs Hb Hops.
  destruct (@run_ops_ref _ _ mem_storage _ mem_storage_spec os s (Memory.logs s) p ltac:(done) Hops) as
    (s' & log' & Hrun & (Hok & Hl & _) & Href).
  exists s'. rewrite Hl. split; [exact Hrun|]. split; [exact Hok|]. split; [exact Href|].
  intros. rewrite <- Hl. apply Memory.try_get_ok; by rewrite ?Hl.
Qed.

End Store.

Lemma start_fresh_witness : exists i w w' y' f,
  start base0 8192 false (mkSys fs_empty ∅) = (Ok (i, w), y') /\ start base0 8192 false y' = (Panic, y') /\
  on_set (on_active mmap_mut_op) (sys_fs y', w) = (Ok tt, (sys_fs y', w')) /\
  writer_ok cfg0 (sys_fs y') w' [] f [] /\ meta w' = mkMeta None None.
Proof.
  exact (start_fresh base0 8192 Immediate (mkSys fs_empty ∅) fs_empty_wf ltac:(done) eq_refl eq_refl ltac:(set_solver) ltac:(done)).
Defined.

(** Appending three entries and purging up to the second. *)
Definition demo_ops : list (Op nat) := [OAppend [1; 2; 3]%nat; OPurge (mkLogId 1 1 2)].

Lemma wal_store_refines_witness : exists s s' log',
  store_ok cfg0 s (@nil nat) /\ @run_ops _ _ (wal_storage cfg0) demo_ops s = Some s' /\
  store_ok cfg0 s' log' /\ above 2 log' = [3%nat].
Proof.
  destruct boot_ok as (fs & w & f & Hboot & Hok & Hn & _). clear Hboot.
  assert (store_ok cfg0 (mkStore fs w) (@nil nat)) as Hs by (exists [], f, []; done).
  destruct (wal_store_refines cfg0 cfg0_ok (mkStore fs w) (@nil nat) 0 demo_ops Hs) as (s' & log' & Hrun & Hok' & Href & _).
  - split; [|by intros s' _; split]. intros log (l1 & f1 & rs1 & Hok1 & Hlog).
    assert (log = []) as -> by (by eapply empty_store).
    split; [split|split; [by exists 1|by repeat constructor]].
    + repeat (apply Forall_cons; split; [by split|]). constructor.
    + destruct (loop_files _ _ _ _ _ _ (wr_loop _ _ _ _ _ _ Hok)) as (Hf & _).
      intros f0 Hf0. cbn [st_writer] in Hf0. rewrite Hf in Hf0. cbn in Hf0. injection Hf0 as <-. rewrite Hn. done.
  - exists (mkStore fs w), s', log'. split; [exact Hs|]. split; [exact Hrun|]. split; [exact Hok'|exact Href].
Defined.

Lemma mem_store_refines_witness : exists s',
  @run_ops _ _ (mem_storage (V := nat)) demo_ops Memory.new = Some s' /\ Memory.mem_ok s' /\ above 2 (Memory.logs s') = [3%nat].
Proof.
  destruct (mem_store_refines (V := nat) Memory.new 0 demo_ops) as (s' & Hrun & Hok & Href & _).
  - split; [by exists 0|done].
  - constructor.
  - split.
    + intros log (_ & <- & _). split; [split; [by repeat constructor|done]|]. split; [by exists 1|by repeat constructor].
    + intros s' [= <-]. split; [|done]. intros log _. exists 2%nat. split; [|done]. right. by left.
  - exists s'. done.
Defined.

(** ** Metadata and lock file *)

(** What is written to the metadata file is what a restart reads. *)
Theorem meta_write_read `{Checksum} `{MetaCodec} `{!MetaCodecOk} base m fs :
  fs_wf fs -> read_or_create base (write m base fs) = (Ok m, write m base fs).
Proof.
  intros Hwf. destruct (write_unchecked_spec base (serialize m) fs Hwf) as (_ & _ & (i & Hi & Hc & _) & _).
  by eapply read_or_create_bytes.
Qed.

Lemma meta_write_read_witness :
  read_or_create base0 (write (mkMeta (Some [Byte.x01]) None) base0 fs_empty) =
    (Ok (mkMeta (Some [Byte.x01]) None), write (mkMeta (Some [Byte.x01]) None) base0 fs_empty).
Proof. exact (meta_write_read base0 (mkMeta (Some [Byte.x01]) None) fs_empty fs_empty_wf). Defined.

(** A directory with a metadata file. *)
Definition demo_meta_fs : Fs := write (mkMeta None None) base0 fs_empty.
Lemma demo_meta_wf : fs_wf demo_meta_fs.
Proof. apply (write_unchecked_spec base0 (serialize (mkMeta None None)) fs_empty fs_empty_wf). Qed.

Lemma meta_crash_witness : exists j,
  dir (run_calls (take 4 (write_calls base0 1 [Byte.x61])) (fs_create (meta_tmp base0) demo_meta_fs).2) !! meta_path base0 = Some j /\
  fs_durable (run_calls (take 4 (write_calls base0 1 [Byte.x61])) (fs_create (meta_tmp base0) demo_meta_fs).2) j =
    fs_durable demo_meta_fs 0.
Proof. exact (write_crash base0 [Byte.x61] demo_meta_fs 0 4 demo_meta_wf ltac:(vm_compute; reflexivity)). Defined.

(** The lock taken on an empty directory. *)
Definition demo_sys : Sys := mkSys fs_empty ∅.
Definition demo_locked : Sys := (LockFile.acquire base0 demo_sys).2.

Lemma lock_twice_witness : LockFile.acquire base0 demo_locked = (Panic, demo_locked).
Proof. exact (LockFile.acquire_twice base0 demo_sys 0 false demo_locked ltac:(vm_compute; reflexivity)). Defined.

Lemma lock_crash_witness : exists y3, LockFile.acquire base0 (mkSys (sys_fs demo_locked) ∅) = (Ok (0%nat, true), y3).
Proof. exact (LockFile.acquire_after_crash base0 demo_sys 0 false demo_locked ltac:(vm_compute; reflexivity)). Defined.
