(* ===== verification/CacheTheorems.v ===== *)
(** What the cache guarantees: the theorems about one cache, the distributed
    locks, the notifications and the replicated state machine, each with an
    instance on concrete data. *)
From stdpp Require Import base gmap strings list numbers sorting.
From Stdlib Require Import Ascii Strings.Byte.
From S2P Require Import Prelude Text Codec WalWriter KvCache DLock Notify CacheSM CacheSMSpec Concrete.

#[local] Open Scope Z_scope.

(** ** One cache *)

(** C39: every request is served, and the expiry index keeps matching the values.
    When all expiries lie within 2^63 microseconds of the clock, the request sees
    exactly the entries that are still live at the time the task looks at the
    clock; otherwise the difference wraps, and only the entries whose expiry comes
    before the first one that does not look due are gone. *)
Theorem cache_serves now now' req c :
  Kv.cache_ok c ->
  exists live, Kv.values live = Kv.swept now (Kv.values c) /\
    (Kv.clock_fits now (Kv.values c) -> Kv.values live = Kv.alive now (Kv.values c)) /\ Kv.counters live = Kv.counters c /\
    Kv.serve now now' req c = Some (Kv.handle now' req live) /\ Kv.cache_ok (Kv.handle now' req live).1.
Proof.
  intros Hok. destruct (Kv.expire_due_ok now c Hok) as (e & E & He & Hc & Hv).
  exists e. unfold Kv.serve. rewrite E. split; [done|]. split; [intros Hf; by rewrite Hv, Kv.swept_alive|].
  split; [done|]. split; [done|]. by apply Kv.handle_preserves.
Qed.

(** a value that was put is what a later get returns until its expiry, and
    nothing afterwards; all other keys read as before. *)
Theorem cache_put_get n1 n1' n2 n2' key key' value expires c :
  Kv.cache_ok c -> Kv.clock_fits n1 (Kv.values c) -> Kv.clock_fits n2 (<[key := (value, expires)]> (Kv.values c)) ->
  n1 <= n2' -> n2 <= n2' ->
  exists c1 c2, Kv.serve n1 n1' (Kv.Put key value expires) c = Some (c1, None) /\
    Kv.serve n2 n2' (Kv.Get key') c1 = Some (c2, Some (Kv.RValue (Kv.visible n2'
      (if decide (key' = key) then Some (value, expires) else Kv.values c !! key')))).
Proof.
  intros Hok F1 F2 H1 H2. destruct (Kv.expire_due_ok n1 c Hok) as (e & E & He & _ & Hv). rewrite Kv.swept_alive in Hv by done.
  pose proof (Kv.handle_preserves n1' (Kv.Put key value expires) e He) as Hok1.
  set (c1 := (Kv.handle n1' (Kv.Put key value expires) e).1) in *.
  destruct (Kv.expire_due_ok n2 c1 Hok1) as (e2 & E2 & _ & _ & Hv2).
  rewrite Kv.swept_alive in Hv2.
  2: { intros k x. cbn. rewrite Hv, lookup_insert. case_decide as Hk.
       - intros [= <-]. apply (F2 key). by rewrite lookup_insert_eq.
       - rewrite Kv.alive_lookup. destruct (Kv.values c !! k) as [y|] eqn:Ey; [|done]. destruct (Kv.liveb _ _); [|done].
         intros [= <-]. apply (F2 k). by rewrite lookup_insert_ne. }
  exists c1, e2. unfold Kv.serve. rewrite E, E2. cbn [mbind option_bind Kv.handle]. split; [done|].
  do 4 f_equal. rewrite Hv2, Kv.visible_alive by done. cbn. case_decide as Hk.
  - subst key'. by rewrite lookup_insert_eq.
  - rewrite lookup_insert_ne by done. rewrite Hv. by apply Kv.visible_alive.
Qed.

(** get-and-remove answers what a get would, and a get afterwards finds
    nothing: a value is handed out at most once. *)
Theorem cache_get_remove_once n1 n1' n2 n2' key c :
  Kv.cache_ok c -> Kv.clock_fits n1 (Kv.values c) -> n1 <= n1' ->
  exists c1 c2, Kv.serve n1 n1' (Kv.GetRemove key) c = Some (c1, Some (Kv.RValue (Kv.visible n1' (Kv.values c !! key)))) /\
    Kv.serve n2 n2' (Kv.Get key) c1 = Some (c2, Some (Kv.RValue None)).
Proof.
  intros Hok F1 H1. destruct (Kv.expire_due_ok n1 c Hok) as (e & E & He & _ & Hv). rewrite Kv.swept_alive in Hv by done.
  pose proof (Kv.handle_preserves n1' (Kv.GetRemove key) e He) as Hok1.
  set (c1 := (Kv.handle n1' (Kv.GetRemove key) e).1) in *.
  destruct (Kv.expire_due_ok n2 c1 Hok1) as (e2 & E2 & _ & _ & Hv2).
  exists c1, e2. unfold Kv.serve. rewrite E, E2. cbn [mbind option_bind Kv.handle].
  split; [do 4 f_equal; by rewrite Hv, Kv.visible_alive|]. rewrite Hv2, Kv.swept_lookup. cbn. by rewrite lookup_delete_eq.
Qed.

(** ** Distributed locks *)

(** every request keeps the lock table consistent: no ticket is queued twice,
    the holder is not queued, and whoever waits has its ticket in the queue. *)
Theorem dlock_request_safe n1 n2 req s :
  DLock.dlock_ok s -> DLock.req_ok req s -> (forall key, DLock.req_key req = Some key -> DLock.steady n1 n2 key s) ->
  DLock.dlock_ok (DLock.handle_request n1 n2 req s).1.
Proof. apply DLock.handle_request_ok. Qed.

(** reply channels are neither lost nor answered twice: the ones that wait
    after a request and the ones it answered are the ones that waited before and
    the one of the request. *)
Theorem dlock_answers_once n1 n2 req s :
  DLock.pending (DLock.waiters (DLock.handle_request n1 n2 req s).1) ++ (DLock.handle_request n1 n2 req s).2.*1 ≡ₚ
  DLock.pending (DLock.waiters s) ++ DLock.req_ack req.
Proof. apply DLock.acks_conserved. Qed.

(** a lock request never cuts in line: while others are queued it is queued
    behind them, and a free lock goes to the front of the queue. *)
Theorem dlock_no_cutting n1 n2 key id ack s lock front rest :
  DLock.steady n1 n2 key s -> DLock.locks s !! key = Some lock -> DLock.queue lock = front :: rest ->
  let r := DLock.handle_request n1 n2 (DLock.Lock key id ack) s in
  exists out lock',
    r.2 = out ++ [(ack, DLock.Queued id)] /\ DLock.locks r.1 !! key = Some lock' /\
    if DLock.is_free lock n1
    then DLock.current_ticket lock' = Some front /\ DLock.queue lock' = rest ++ [id]
    else DLock.current_ticket lock' = DLock.current_ticket lock /\ DLock.queue lock' = front :: rest ++ [id].
Proof.
  intros [Hn Hst] Hl Hq. cbv zeta. cbn [DLock.handle_request]. unfold DLock.handle_lock.
  pose proof (DLock.promote_lock n1 lock (DLock.waiters s) key) as Hp. rewrite Hq in Hp.
  rewrite DLock.promote_key_eq, Hl. cbn [fst snd]. destruct (DLock.promote n1 lock (DLock.waiters s) key) as [[lk w] out].
  cbn [fst snd] in *. subst lk. cbn [DLock.locks]. rewrite lookup_insert_eq, DLock.free_cases. destruct (DLock.is_free lock n1) eqn:Ef.
  - assert (DLock.is_free (DLock.mkLock (Some front) (n1 + DLock.LOCK_VALID_SECONDS) rest) n2 = false) as ->.
    { unfold DLock.is_free. cbn. apply Z.ltb_ge. lia. }
    eexists out, _. split; [done|]. split; [cbn; by rewrite lookup_insert_eq|done].
  - rewrite <- (Hst _ Hl), Ef. eexists out, _. split; [done|]. split; [cbn; by rewrite lookup_insert_eq|]. cbn. by rewrite Hq.
Qed.

(** when the holder releases, the lock goes to the front of the queue with a
    fresh lease, and exactly the requests that wait for that ticket are told. *)
Theorem dlock_release_promotes n1 n2 key id s lock front rest :
  DLock.locks s !! key = Some lock -> DLock.current_ticket lock = Some id -> DLock.queue lock = front :: rest ->
  DLock.handle_request n1 n2 (DLock.Release key id) s =
    (DLock.mkState (<[key := DLock.mkLock (Some front) (n1 + DLock.LOCK_VALID_SECONDS) rest]> (DLock.locks s))
       (DLock.wake front key (DLock.waiters s)).1,
     (fun e => (e.2, DLock.Locked front)) <$> filter (fun e => e.1 = front) (default [] (DLock.waiters s !! key))).
Proof.
  intros Hl Hc Hq. cbn [DLock.handle_request]. unfold DLock.handle_release. rewrite Hl, bool_decide_eq_true_2 by done.
  unfold DLock.promote. cbn [DLock.queue]. rewrite Hq. unfold DLock.is_free. cbn [DLock.current_ticket].
  rewrite bool_decide_eq_true_2 by done. cbn [orb]. unfold DLock.wake. destruct (DLock.waiters s !! key); done.
Qed.

(** ** Notifications *)

(** a notification reaches every listener whose channel is open, once and in
    order, and the local one; exactly the closed listeners are removed. *)
Theorem notify_delivers closed m h :
  exists l, Notify.handle closed false (Notify.Notify m) h =
    Some (Notify.mkHandler l (Notify.sent h ++ ((fun x => (Some x, m)) <$> filter (fun x => closed x = false) (Notify.listeners h)) ++ [(None, m)]), true) /\
    l ≡ₚ filter (fun x => closed x = false) (Notify.listeners h).
Proof. apply Notify.notify_ok. Qed.

(** ** The state machine *)
Section Machine.
Context {M : Type} (show_leader : LogId -> string) (clk : CacheSM.Clock) (closed : nat -> bool).

(** C3: the state machine is a function of the log and the clock readings: replicas
    whose replicated state agrees and which read the same times apply a batch of
    valid entries without a panic, give the same answers, one per entry, and agree
    afterwards, whoever waits or listens at either of them; the applied log id is
    the one of the last entry. *)
Theorem replicas_agree N n es (m m' : CacheSM.StateMachineMemory (M := M)) :
  (forall i, (CacheSM.lock_clock clk i).1 = (CacheSM.lock_clock clk i).2) ->
  es <> [] -> replica_eq m m' -> machine_ok n m -> machine_ok n m' -> length (CacheSM.caches m) = N -> valid_entries N n es ->
  exists rs m1 m1', CacheSM.apply clk closed es m = (Ok rs, m1) /\ CacheSM.apply clk closed es m' = (Ok rs, m1') /\
    replica_eq m1 m1' /\ machine_ok (next_index n es) m1 /\ machine_ok (next_index n es) m1' /\
    length rs = length es /\ (CacheSM.applied_state m1).1 = CacheSM.log_id <$> last es.
Proof.
  intros Hclk Hne Hr Ho Ho' Hl Hv. destruct (apply_same clk closed Hclk N n es m m' Hne Hr Ho Ho' Hl Hv) as
    (rs & m1 & m1' & ? & ? & ? & ? & ? & ? & ? & ?). exists rs, m1, m1'. done.
Qed.

(** replicas whose clocks show different times agree as well, as long as no
    entry of the caches expires and the batch sets no expiry and takes no lock. *)
Theorem replicas_agree_any_clock clk' N n es (m m' : CacheSM.StateMachineMemory (M := M)) :
  es <> [] -> replica_eq m m' -> machine_ok n m -> machine_ok n m' -> length (CacheSM.caches m) = N -> valid_entries N n es ->
  Forall Kv.lasting (CacheSM.caches m) -> Forall clock_free es ->
  exists rs m1 m1', CacheSM.apply clk closed es m = (Ok rs, m1) /\ CacheSM.apply clk' closed es m' = (Ok rs, m1') /\
    replica_eq m1 m1' /\ Forall Kv.lasting (CacheSM.caches m1) /\ length rs = length es.
Proof. apply apply_any_clock. Qed.

End Machine.

(** ** Instances *)
Lemma empty_cache_ok : Kv.cache_ok Kv.empty_cache.
Proof. exact (Kv.rebuild_ok ∅ ∅). Qed.

(** A cache with a value that expires at 100. *)
Definition demo_cache : Kv.Cache := (Kv.handle 0 (Kv.Put "k" [Byte.x61] (Some 100)) Kv.empty_cache).1.
Lemma demo_cache_ok : Kv.cache_ok demo_cache.
Proof. apply Kv.handle_preserves, empty_cache_ok. Qed.

Lemma demo_fits now : 0 <= now <= 1000 -> Kv.clock_fits now (Kv.values demo_cache).
Proof. intros Hn k x. cbn. intros [_ <-]%lookup_singleton_Some. intros e [= <-]. unfold i64_min, i64_max. lia. Qed.

Lemma cache_serves_witness : exists live, Kv.values live = ∅ /\ Kv.counters live = ∅ /\
  Kv.serve 100 100 (Kv.Get "k") demo_cache = Some (Kv.handle 100 (Kv.Get "k") live) /\
  Kv.cache_ok (Kv.handle 100 (Kv.Get "k") live).1.
Proof.
  destruct (cache_serves 100 100 (Kv.Get "k") demo_cache demo_cache_ok) as (live & Hv & _ & Hc & Hs & Hok).
  exists live. split; [rewrite Hv; vm_compute; reflexivity|]. split; [rewrite Hc; vm_compute; reflexivity|]. done.
Defined.

Lemma cache_put_get_witness : exists c1 c2,
  Kv.serve 1 2 (Kv.Put "j" [Byte.x62] (Some 50)) demo_cache = Some (c1, None) /\
  Kv.serve 49 49 (Kv.Get "j") c1 = Some (c2, Some (Kv.RValue (Some [Byte.x62]))).
Proof.
  refine (cache_put_get 1 2 49 49 "j" "j" [Byte.x62] (Some 50) demo_cache demo_cache_ok (demo_fits 1 _) _ _ _); [lia| |done..].
  apply map_Forall_insert_2; [intros e [= <-]; unfold i64_min, i64_max; lia|apply demo_fits; lia].
Defined.

Lemma cache_get_remove_once_witness : exists c1 c2,
  Kv.serve 5 6 (Kv.GetRemove "k") demo_cache = Some (c1, Some (Kv.RValue (Some [Byte.x61]))) /\
  Kv.serve 7 8 (Kv.Get "k") c1 = Some (c2, Some (Kv.RValue None)).
Proof. exact (cache_get_remove_once 5 6 7 8 "k" demo_cache demo_cache_ok (demo_fits 5 ltac:(lia)) ltac:(done)). Defined.

(** Ticket 1 holds the lock until 10, ticket 2 is queued and waits on channel 7. *)
Definition demo_locks : DLock.State :=
  DLock.mkState {["a" := DLock.mkLock (Some 1) 10 [2]]} {["a" := [(2, 7%nat)]]}.

Lemma demo_locks_ok : DLock.dlock_ok demo_locks.
Proof.
  split.
  - intros key l id ack Hl Hin. cbn in Hl. apply lookup_singleton_Some in Hl as [<- <-].
    apply list_elem_of_singleton in Hin. injection Hin as -> ->. eexists. split; [apply lookup_singleton_eq|]. by left.
  - intros key lock Hl. cbn in Hl. apply lookup_singleton_Some in Hl as [<- <-]. split; [apply NoDup_singleton|].
    intros id [= <-] ?%list_elem_of_singleton. done.
Qed.

Lemma demo_steady n : DLock.steady n n "a" demo_locks.
Proof. split; [unfold DLock.LOCK_VALID_SECONDS; lia|done]. Qed.

Lemma dlock_request_safe_witness :
  DLock.dlock_ok (DLock.handle_request 5 5 (DLock.Lock "a" 3 8) demo_locks).1.
Proof.
  apply (dlock_request_safe 5 5 (DLock.Lock "a" 3 8) demo_locks demo_locks_ok).
  - intros lock Hl. cbn in Hl. apply lookup_singleton_Some in Hl as [_ <-]. split; [by intros ?%list_elem_of_singleton|done].
  - intros key [= <-]. apply demo_steady.
Defined.

Lemma dlock_no_cutting_witness : exists out lock',
  (DLock.handle_request 5 5 (DLock.Lock "a" 3 8) demo_locks).2 = out ++ [(8%nat, DLock.Queued 3)] /\
  DLock.locks (DLock.handle_request 5 5 (DLock.Lock "a" 3 8) demo_locks).1 !! "a" = Some lock' /\
  DLock.current_ticket lock' = Some 1 /\ DLock.queue lock' = [2; 3].
Proof. exact (dlock_no_cutting 5 5 "a" 3 8 demo_locks _ 2 [] (demo_steady 5) (lookup_singleton_eq _ _) eq_refl). Defined.

Lemma dlock_release_promotes_witness :
  (DLock.handle_request 5 5 (DLock.Release "a" 1) demo_locks).2 = [(7%nat, DLock.Locked 2)].
Proof.
  rewrite (dlock_release_promotes 5 5 "a" 1 demo_locks _ 2 [] (lookup_singleton_eq _ _) eq_refl eq_refl). vm_compute. reflexivity.
Defined.

Lemma dlock_lease_kept_witness : exists lock',
  DLock.locks (DLock.handle_request 9 10 (DLock.Acquire "a" 2 8) demo_locks).1 !! "a" = Some lock' /\
  DLock.current_ticket lock' = Some 1.
Proof.
  destruct (DLock.lease_kept 9 10 (DLock.Acquire "a" 2 8) demo_locks "a" (DLock.mkLock (Some 1) 10 [2]) 1) as (l & Hl & Hc & _);
    try done. exists l. done.
Defined.

Lemma dlock_sweep_progress_witness : exists lock,
  DLock.locks (DLock.sweep_expired 11 (fun _ => 11) demo_locks).1 !! "a" = Some lock /\
  (DLock.queue lock = [] \/ DLock.is_free lock 11 = false).
Proof.
  eexists. split; [vm_compute; reflexivity|].
  apply (DLock.sweep_progress 11 (fun _ => 11) demo_locks "a"); [done|]. vm_compute. reflexivity.
Defined.

(** A machine with two caches, and a batch of entries. *)
Definition demo_machine : CacheSM.StateMachineMemory (M := nat) := CacheSM.fresh_machine false 2 ∅ 0%nat.
Definition demo_clock : CacheSM.Clock := CacheSM.mkClock (fun i _ => (i, i)) (fun i => (i, i)).
Definition demo_entry (i : Z) (p : CacheSM.EntryPayload (M := nat)) : CacheSM.Entry (M := nat) := CacheSM.mkEntry (mkLogId 1 1 i) p.
Definition demo_entries : list (CacheSM.Entry (M := nat)) := [
  demo_entry 1 (CacheSM.Membership 3%nat);
  demo_entry 2 (CacheSM.Normal (CacheSM.Put 0 "k" [Byte.x61] (Some 1000)));
  demo_entry 3 (CacheSM.Normal (CacheSM.Lock "a" None));
  demo_entry 4 (CacheSM.Normal (CacheSM.CounterAdd 1 "n" 5));
  demo_entry 5 (CacheSM.Normal CacheSM.ClearAll)].

Lemma demo_machine_ok : machine_ok 1 demo_machine.
Proof.
  split; cbn.
  - repeat (apply Forall_cons; split; [apply empty_cache_ok|]). constructor.
  - split; intros key x; cbn; intros; by rewrite lookup_empty in *.
  - intros key id (lock & Hl & _). cbn in Hl. by rewrite lookup_empty in Hl.
  - constructor.
Qed.

Lemma demo_entries_valid : valid_entries 2 1 demo_entries.
Proof. cbn. unfold valid_entry. cbn. repeat split; lia. Qed.

Lemma demo_agrees : replica_eq demo_machine demo_machine.
Proof. split; [done| |done]. reflexivity. Qed.

Lemma replicas_agree_witness : exists rs m1 m1',
  CacheSM.apply demo_clock (fun _ => false) demo_entries demo_machine = (Ok rs, m1) /\
  CacheSM.apply demo_clock (fun _ => false) demo_entries demo_machine = (Ok rs, m1') /\
  replica_eq m1 m1' /\ length rs = 5%nat /\ (CacheSM.applied_state m1).1 = Some (mkLogId 1 1 5).
Proof.
  destruct (replicas_agree demo_clock (fun _ => false) 2 1 demo_entries demo_machine demo_machine ltac:(done) ltac:(done)
    demo_agrees demo_machine_ok demo_machine_ok eq_refl demo_entries_valid) as
    (rs & m1 & m1' & H1 & H2 & H3 & _ & _ & H4 & H5).
  exists rs, m1, m1'. done.
Defined.

(** The same machine with a clock that is far ahead. *)
Definition late_clock : CacheSM.Clock := CacheSM.mkClock (fun _ _ => (10000, 10001)) (fun i => (10000, 10000)).
Definition lasting_entries : list (CacheSM.Entry (M := nat)) := [
  demo_entry 1 (CacheSM.Normal (CacheSM.Put 0 "k" [Byte.x61] None));
  demo_entry 2 (CacheSM.Normal (CacheSM.GetRemove 0 "k"));
  demo_entry 3 (CacheSM.Normal (CacheSM.CounterAdd 1 "n" 5))].

Lemma replicas_agree_any_clock_witness : exists rs m1 m1',
  CacheSM.apply demo_clock (fun _ => false) lasting_entries demo_machine = (Ok rs, m1) /\
  CacheSM.apply late_clock (fun _ => false) lasting_entries demo_machine = (Ok rs, m1') /\ replica_eq m1 m1' /\ length rs = 3%nat.
Proof.
  destruct (replicas_agree_any_clock demo_clock (fun _ => false) late_clock 2 1 lasting_entries demo_machine demo_machine ltac:(done)
    demo_agrees demo_machine_ok demo_machine_ok eq_refl) as (rs & m1 & m1' & H1 & H2 & H3 & _ & H4).
  - cbn. unfold valid_entry. cbn. repeat split; lia.
  - repeat (apply Forall_cons; split; [split; [apply empty_cache_ok|apply map_Forall_empty]|]). constructor.
  - repeat (apply Forall_cons; split; [done|]). constructor.
  - exists rs, m1, m1'. done.
Defined.

Definition demo_show (id : LogId) : string := "1".

Lemma snapshot_then_apply_witness : exists meta bytes m1 m2 rs m3 m4,
  CacheSM.build_snapshot_data demo_show (fun _ => (0, 0)) 10 demo_machine = (Ok (meta, bytes), m1) /\
  CacheSM.apply_snapshot_bytes (fun _ => (0, 0)) bytes demo_machine = (Ok tt, m2) /\
  CacheSM.apply demo_clock (fun _ => false) demo_entries m1 = (Ok rs, m3) /\
  CacheSM.apply demo_clock (fun _ => false) demo_entries m2 = (Ok rs, m4) /\ replica_eq m3 m4.
Proof.
  apply (snapshot_then_apply demo_show demo_clock (fun _ => false) ltac:(done) 1 2 (fun _ => (0, 0)) (fun _ => (0, 0)) 10 demo_entries
    demo_machine demo_machine demo_machine_ok (mo_caches _ _ demo_machine_ok) eq_refl eq_refl ltac:(done) demo_entries_valid).
Defined.

(** A snapshot at log 5, next to an older one at log 4 of the same second. *)
Definition demo_meta : CacheSM.SnapshotMeta (M := nat) :=
  CacheSM.mkSnapMeta (Some (mkLogId 1 1 5)) (None, 0%nat) "10-1-5".
Definition demo_dir : gmap string (list byte) := {["10-1-4" := [Byte.x00]; "temp~" := []]}.

Lemma persist_then_read_witness : exists m',
  CacheSM.persist_snapshot demo_meta (to_bytes (demo_meta, @nil Kv.CacheSnapshot, @nil byte))
    (CacheSM.set_snapshots demo_dir demo_machine) = (Ok "10-1-5", m') /\
  forall names, (forall x, x ∈ names <-> is_Some (CacheSM.snapshots m' !! x)) ->
  CacheSM.read_current_snapshot names m' = Ok (Some ("10-1-5", (demo_meta, [], []))).
Proof.
  apply (persist_then_read demo_show demo_meta _ (demo_meta, [], []) 10 (mkLogId 1 1 5)).
  - exact (of_to_bytes (A := CacheSM.SnapshotMeta (M := nat) * list Kv.CacheSnapshot * list byte) _).
  - vm_compute. reflexivity.
  - done.
  - done.
  - intros x b Hx _. cbn in Hx. unfold demo_dir in Hx. apply lookup_insert_Some in Hx as [[<- _]|[_ Hx]].
    + right. exists (10, 4). split; [vm_compute; reflexivity|]. unfold newer. cbn. lia.
    + apply lookup_singleton_Some in Hx as [<- _]. left. vm_compute. reflexivity.
Defined.

Lemma compatible_iff_witness :
  CacheSM.cache_compatible_with [(0%nat, "App"); (1%nat, "Auth")] (CacheSM.normalized [(0%nat, "App")]) = true.
Proof.
  apply (compatible_iff [(0%nat, "App")] [(0%nat, "App"); (1%nat, "Auth")]); [done| |done|by exists ["Auth"]].
  apply Forall_cons. split; [by split|constructor].
Defined.
