(* ===== verification/ExtTheorems.v ===== *)
(** The theorems of the external state machine, and a concrete engine on which they
    are evaluated: coordinates are numbers, the application keeps a list of numbers,
    an operation appends one and returns the sum. *)
From stdpp Require Import base gmap strings list numbers countable sorting.
From Stdlib Require Import Strings.Byte.
From S2P Require Import Prelude Text Codec ExtBase ExtStore ExtStoreSpec ExtSound ExtEngine ExtEngineSpec ExtLife ExtRun.
#[local] Open Scope Z_scope.

Section ExtTheorems.
Context {C A O Out OpE : Type} `{EqDecision C} `{ExtPrims C, !ExtPrimsOk C} `{SqlOperation A O Out OpE, !SqlOperationOk A O Out OpE}.
Context `{SqliteFiles A}.
#[local] Abbreviation Eng := (@ExternalSqlite C A).
#[local] Abbreviation Req := (@WriterRequest C O).
#[local] Abbreviation Rep := (@WriterReply C Out OpE).

(** C6: every request of the writer keeps the invariant of the running engine,
    whatever call fails, and is answered by the abstract machine over the history:
    with its reply and its step, with an error and no step, or with an error and the
    step when the commit took effect although it reported a failure.  A request that
    poisons the writer leaves a stored history or a marker that demands a rebuild. *)
Theorem request_kept fl g (r : Req) (rep : Rep) p k e h k' e' :
  engine_ok k e h -> request_wf r -> handle fl g r k e = (rep, p, (k', e')) ->
  if p then disk_ok (state e) k'
  else exists h', engine_ok k' e' h' /\ same_config (state e) (state e') /\
         answered fl (state e) h (app (committed (conn e))) r rep h' (app (committed (conn e'))).
Proof.
  intros Hok Hwf Hh. pose proof (handle_ok fl g r k e h Hok Hwf) as Hd. rewrite Hh in Hd. unfold request_done in Hd.
  destruct p; [done|]. destruct Hd as (h' & ? & ? & _ & ?). eauto.
Qed.

(** C8: an engine opened on an empty directory serves any list of entries exactly as
    the abstract machine: the replies, the history and the tables of the application
    are those of applying new entries in order, recovering retries and refusing the
    rest. *)
Theorem entries_refine o env k (l : list Entry) reps h a :
  opts_ok o -> validate o = Ok tt -> env_ok o env -> owner_locked k = false -> rebuild_needed (dirty k) = false -> dbfile k = None ->
  Forall entry_wf l -> spec_serve (fresh_state o) [] empty_app l = (reps, h, a) ->
  exists (e : Eng) k1 k2 e2, open_inner o false false env k = (Ok e, k1) /\
    serve (quietly <$> l) k1 e = (reps, false, (k2, e2)) /\ engine_ok k2 e2 h /\ app (committed (conn e2)) = a.
Proof.
  intros Ho Hv He Hlk Hm Hd Hl Hsp. destruct (open_new o false env k Ho Hv He Hlk Hm (fun _ => Hd)) as (d & Hop & Hok & Ha).
  destruct (serve_refines (fresh_state o) l _ _ _ reps h a Hok (same_config_refl _) Hl) as (k2 & e2 & Hs & Hok2 & Ha2 & _).
  { cbn. by rewrite Ha. }
  eexists _, _, k2, e2. split; [exact Hop|]. done.
Qed.

(** a replica that installs a snapshot of another replica, whose history its own
    is a prefix of, gives the same answers to the entries that follow and ends with
    the same history and tables. *)
Theorem snapshot_transfers `{!SqliteFilesOk A} id uuid path path2 dir env (l : list Entry) k (e : Eng) h k2 (e2 : Eng) h2 reps h3 a3 :
  engine_ok k e h -> files k !! path = None -> engine_ok k2 e2 h2 -> same_config (state e2) (state e) -> h2 `prefix_of` h ->
  parse_uuid id = Some uuid -> pool_ok env = true -> files k2 !! path2 = None -> path2 <> dir +:+ "/" +:+ uuid ->
  files k2 !! (dir +:+ "/" +:+ uuid) = None -> Forall entry_wf l ->
  spec_serve (state e) h (app (committed (conn e))) l = (reps, h3, a3) ->
  exists ev k' e' bytes k3 e3 k4 e4 k5 e5,
    build_snapshot_at no_faults id path k e = (Ok ev, (k', e')) /\ files k' !! path = Some (Regular bytes) /\
    install_snapshot no_faults None env dir path2 ev (set_files (<[path2 := Regular bytes]> (files k2)) k2) e2 = (Ok ev, false, (k3, e3)) /\
    serve (quietly <$> l) k' e' = (reps, false, (k4, e4)) /\ serve (quietly <$> l) k3 e3 = (reps, false, (k5, e5)) /\
    engine_ok k4 e4 h3 /\ engine_ok k5 e5 h3 /\ app (committed (conn e4)) = a3 /\ app (committed (conn e5)) = a3.
Proof.
  intros Hok Hp Hok2 Hsc Hpre Hu Hpool Hp2 Hne Hdest Hl Hsp.
  destruct (build_ok id path k e h Hok Hp) as (k' & e' & Hb & Hok' & Hf' & Hid & Hsc' & Ha').
  assert (engine_ok (set_files (<[path2 := Regular (image (committed (conn e')))]> (files k2)) k2) e2 h2) as Hok2' by (by destruct Hok2; split).
  destruct (install_ok env dir path2 _ e2 h2 (committed (conn e')) (state e') h id uuid Hok2' (eo_store _ _ _ Hok') Hid) as
    (k3 & e3 & Hi & Hok3 & Hs3 & Hc3 & _); try done.
  { by eapply same_config_trans. }
  { cbn. by rewrite lookup_insert_eq. }
  { right. cbn. by rewrite lookup_insert_ne. }
  destruct (serve_refines (state e) l k' e' h reps h3 a3 Hok' Hsc' Hl) as (k4 & e4 & Hs4 & Hok4 & Ha4 & _); [by rewrite Ha'|].
  destruct (serve_refines (state e) l k3 e3 h reps h3 a3 Hok3) as (k5 & e5 & Hs5 & Hok5 & Ha5 & _); [by rewrite Hs3|done|by rewrite Hc3, Ha'|].
  exists (evidence_of (committed (conn e')) (state e') id), k', e', (image (committed (conn e'))), k3, e3, k4, e4, k5, e5. done.
Qed.

(** the receipts table holds exactly the last [receipt_retention] entries of the
    history, or all of them while there are fewer. *)
Theorem receipt_window k e h rows :
  engine_ok k e h -> receipts_table (committed (conn e)) = Some rows ->
  Z.of_nat (size rows) = Z.min (zlen h) (receipt_retention (state e)).
Proof.
  intros Hok Hr. pose proof (eo_store _ _ _ Hok) as Hst. pose proof (sequences_ok _ _ _ _ Hst Hr) as Hs.
  assert (size rows = length (sequences rows)) as ->.
  { unfold sequences. rewrite merge_sort_Permutation, length_fmap. by rewrite length_map_to_list. }
  rewrite Hs, length_fmap, length_seqZ. destruct (so_config _ _ _ Hst) as [Q1 _ Q3 _ _]. pose proof (zlen_nonneg h).
  unfold oldest, floor_of, next_seq, sat_sub, is_u64 in *. lia.
Qed.
End ExtTheorems.

(** ** A concrete engine *)
#[export] Instance MetaRow_eqdec : EqDecision MetaRow.
Proof. solve_decision. Defined.
#[export] Instance MetaRow_countable : Countable MetaRow.
Proof.
  refine (inj_countable'
    (fun r => ((c_format_version r, c_application_id r, c_initial_sequence r, c_initial_state_schema r, c_receipt_codec r,
                c_receipt_retention r, c_max_receipt_bytes r, c_last_sequence r),
               (c_last_coordinate r, c_last_command_digest r, c_last_kind r, c_last_state_schema r, c_last_receipt_schema r,
                c_last_receipt_digest r, c_receipt_floor r, c_snapshot_id r)))
    (fun '((a, b, c, d, e, f, g, h), (i, j, k, l, m, n, o, p)) => mkMetaRow a b c d e f g h i j k l m n o p) _). by intros [].
Defined.
#[export] Instance ReceiptRow_eqdec : EqDecision ReceiptRow.
Proof. solve_decision. Defined.
#[export] Instance ReceiptRow_countable : Countable ReceiptRow.
Proof.
  refine (inj_countable'
    (fun r => (k_coordinate r, k_command_digest r, k_kind r, k_state_schema r, k_receipt_schema r, k_codec r, k_receipt r, k_receipt_digest r))
    (fun '(a, b, c, d, e, f, g, h) => mkReceiptRow a b c d e f g h) _). by intros [].
Defined.
#[export] Instance Db_eqdec : EqDecision (Db (list Z)).
Proof. solve_decision. Defined.
#[export] Instance Db_countable : Countable (Db (list Z)).
Proof.
  refine (inj_countable' (fun d => (meta_table d, receipts_table d, app d)) (fun '(a, b, c) => mkDb a b c) _). by intros [].
Defined.

#[export] Instance demo_prims : ExtPrims nat := {|
  sha256 l := be_encode 32 (foldl (fun a b => a * 257 + byte_to_Z b + 1) 0 l);
  unit_bytes := [];
  ser_coord c := Some (to_bytes c);
  de_coord l := c ← of_bytes l; Some (c, zlen l);
|}.
#[export] Instance demo_prims_ok : ExtPrimsOk nat.
Proof. split; [intros l; apply zlen_be|done|]. intros c b [= <-]. cbn. by rewrite of_to_bytes. Qed.

#[export] Instance demo_ops : SqlOperation (list Z) Z Z unit := {|
  RECEIPT_CODEC := "demo/v1";
  op_apply n a := if n <? 0 then (inr tt, n :: a) else (inl (foldr Z.add 0 (n :: a)), n :: a);
  encode_receipt z := Some (to_bytes z);
  decode_receipt := of_bytes;
|}.
#[export] Instance demo_ops_ok : SqlOperationOk (list Z) Z Z unit.
Proof. split. intros o b [= <-]. apply of_to_bytes. Qed.

#[export] Instance demo_files : SqliteFiles (list Z) := {|
  empty_app := [];
  image d := to_bytes d;
  open_image := of_bytes;
  quick_check _ := true;
  page_size _ := 4096;
  parse_uuid id := Some id;
|}.
#[export] Instance demo_files_ok : SqliteFilesOk (list Z).
Proof. split; [intros d; apply of_to_bytes|done]. Qed.

Definition ext_opts : ExternalSqliteOptions := default_options "demo".
Definition ext_env : OpenEnv := mkEnv 2 true true None None.
Definition ext_disk : Disk (list Z) := mkDisk false None None ∅.
Definition ext_commit (n : Z) : ExternalCommit nat := mkCommit n 7%nat (replicate 32 Byte.x2a) 1 1.
Definition ext_entries : list (Entry (C := nat) (O := Z)) :=
  [EApply (ext_commit 1) 5; EAdvance (ext_commit 2); EApply (ext_commit 3) (-1); EApply (ext_commit 3) 8; EApply (ext_commit 1) 99; EApply (ext_commit 9) 1].

Lemma ext_opts_ok : opts_ok ext_opts.
Proof. by split. Qed.
Lemma ext_env_ok : env_ok ext_opts ext_env.
Proof. by split. Qed.
Lemma ext_commit_ok n : is_u64 n -> commit_ok (ext_commit n).
Proof. by split. Qed.

(** The abstract machine on the entries: applied, advanced, refused by the
    operation, applied, recovered, refused as a gap. *)
Definition ext_run := spec_serve (Out := Z) (OpE := unit) (fresh_state (C := nat) ext_opts) [] [] ext_entries.
Lemma ext_run_replies : ext_run.1.1 =
  [RApply (Ok (Applied 5)); RAdvance (Ok (Applied tt)); RApply (Err (OperationError tt)); RApply (Ok (Applied 13));
   RApply (Ok (Recovered 5)); RApply (Err (Engine (SequenceGap 4 9)))].
Proof. vm_compute. reflexivity. Qed.

(** The engine opened on the empty directory. *)
Definition ext_engine : Disk (list Z) * @ExternalSqlite nat (list Z) :=
  match open_inner ext_opts false false ext_env ext_disk with
  | (Ok e, k) => (k, e)
  | (_, k) => (k, mkEngine (mkConn (mkDb None None []) None) (fresh_state ext_opts) DIRTY_FULL false)
  end.
Lemma ext_opened : engine_ok ext_engine.1 ext_engine.2 [] /\ app (committed (conn ext_engine.2)) = [] /\
  state ext_engine.2 = fresh_state ext_opts /\ files ext_engine.1 = ∅ /\ dirty ext_engine.1 = Some DIRTY_FULL.
Proof.
  destruct (open_new (C := nat) ext_opts false ext_env ext_disk ext_opts_ok eq_refl ext_env_ok eq_refl eq_refl (fun _ => eq_refl)) as (d & Ho & Hok & Ha).
  unfold ext_engine. rewrite Ho. done.
Qed.

(** ** Instances of the theorems *)
#[local] Abbreviation DReq := (@WriterRequest nat Z).
#[local] Abbreviation DRep := (@WriterReply nat Z unit).

(** The state of the demo engine after its first entry. *)
Definition ext_done : Done (C := nat) := mkDone (ext_commit 1) Operation (to_bytes 5).

Definition ext_served : Disk (list Z) * @ExternalSqlite nat (list Z) :=
  (handle no_faults None (WApply (ext_commit 1) 5 : DReq) ext_engine.1 ext_engine.2).2.
Lemma ext_served_ok : engine_ok ext_served.1 ext_served.2 [ext_done] /\ app (committed (conn ext_served.2)) = [5] /\
  same_config (fresh_state ext_opts) (state ext_served.2) /\ files ext_served.1 = ∅.
Proof.
  destruct ext_opened as (Hok & Ha & Hs & Hf & Hd).
  destruct (apply_exact (ext_commit 1) 5 _ _ [] (Ok (Applied 5)) [ext_done] [5] Hok) as (k & e & Hh & Hok' & Ha' & Hsc).
  - by apply ext_commit_ok.
  - rewrite Ha, Hs. vm_compute. reflexivity.
  - unfold ext_served. rewrite Hh. split; [done|]. split; [done|]. split; [by rewrite <- Hs|]. cbn [handle] in Hh.
    destruct (apply_committed _ _ _ _) as [[res p] [cn s]]. cbn [with_conn] in Hh. injection Hh as _ -> <- _. exact Hf.
Qed.

Lemma request_kept_witness : exists k (e : @ExternalSqlite nat (list Z)) h (rep : DRep) p k' e',
  handle no_faults None (WApply (ext_commit 2) 3 : DReq) k e = (rep, p, (k', e')) /\
  if p then disk_ok (state e) k'
  else exists h', engine_ok k' e' h' /\ same_config (state e) (state e') /\
         answered no_faults (state e) h (app (committed (conn e))) (WApply (ext_commit 2) 3) rep h' (app (committed (conn e'))).
Proof.
  destruct ext_served_ok as (Hok & _). revert Hok. generalize ext_served.1 as k, ext_served.2 as e. intros k e Hok.
  destruct (handle no_faults None (WApply (ext_commit 2) 3 : DReq) k e) as [[rep p] [k' e']] eqn:Eh.
  exists k, e, [ext_done], rep, p, k', e'. split; [done|].
  apply (request_kept no_faults None (WApply (ext_commit 2) 3) rep p k e [ext_done] k' e'); [done|by apply ext_commit_ok|done].
Defined.

Lemma entries_refine_witness : exists (e : @ExternalSqlite nat (list Z)) k1 k2 e2,
  open_inner ext_opts false false ext_env ext_disk = (Ok e, k1) /\
  serve (quietly <$> ext_entries) k1 e = (ext_run.1.1, false, (k2, e2)) /\ engine_ok k2 e2 ext_run.1.2 /\ app (committed (conn e2)) = ext_run.2.
Proof.
  apply (entries_refine ext_opts ext_env ext_disk ext_entries ext_run.1.1 ext_run.1.2 ext_run.2); try done.
  repeat (apply Forall_cons; split; [by apply ext_commit_ok|]). constructor.
Defined.

Lemma snapshot_transfers_witness : exists ev k' (e' : @ExternalSqlite nat (list Z)) bytes k3 (e3 : @ExternalSqlite nat (list Z)) k4 e4 k5 e5 k e k2 e2 h3 a3,
    build_snapshot_at no_faults "id" "snap" k e = (Ok ev, (k', e')) /\ files k' !! "snap" = Some (Regular bytes) /\
    install_snapshot no_faults None ext_env "dir" "copy" ev (set_files (<["copy" := Regular bytes]> (files k2)) k2) e2 = (Ok ev, false, (k3, e3)) /\
    serve (quietly <$> [EApply (ext_commit 2) 4]) k' e' = ([RApply (Ok (Applied 9))] : list DRep, false, (k4, e4)) /\
    serve (quietly <$> [EApply (ext_commit 2) 4]) k3 e3 = ([RApply (Ok (Applied 9))] : list DRep, false, (k5, e5)) /\
    engine_ok k4 e4 h3 /\ engine_ok k5 e5 h3 /\ app (committed (conn e4)) = a3 /\ app (committed (conn e5)) = a3.
Proof.
  destruct ext_served_ok as (Hok & Ha & Hsc & Hfs). destruct ext_opened as (Hok2 & _ & Hs2 & Hf2 & _).
  revert Hok Ha Hsc Hfs. generalize ext_served.1 as k, ext_served.2 as e. intros k e Hok Ha Hsc Hfs.
  destruct (spec_serve (Out := Z) (OpE := unit) (state e) [ext_done] (app (committed (conn e))) [EApply (ext_commit 2) 4]) as [[reps h3] a3] eqn:Es.
  assert (reps = [RApply (Ok (Applied 9))]) as ->.
  { cbn [spec_serve] in Es. rewrite (spec_apply_config (fresh_state ext_opts) (state e)), Ha in Es by done.
    assert ((spec_apply (Out := Z) (OpE := unit) (fresh_state ext_opts) [ext_done] [5] (ext_commit 2) 4).1.1 = Ok (Applied 9)) as E9 by (vm_compute; reflexivity).
    destruct (spec_apply _ _ _ _ _) as [[r hh] aa]. cbn in E9. subst r. by injection Es as <- _ _. }
  destruct (snapshot_transfers "id" "id" "snap" "copy" "dir" ext_env [EApply (ext_commit 2) 4] k e [ext_done] ext_engine.1 ext_engine.2 [] [RApply (Ok (Applied 9))] h3 a3 Hok) as
    (ev & k' & e' & bytes & k3 & e3 & k4 & e4 & k5 & e5 & H1 & H2 & H3 & H4 & H5 & H6).
  - by rewrite Hfs.
  - exact Hok2.
  - by rewrite Hs2.
  - apply prefix_nil.
  - reflexivity.
  - reflexivity.
  - by rewrite Hf2.
  - discriminate.
  - by rewrite Hf2.
  - apply Forall_singleton. by apply ext_commit_ok.
  - exact Es.
  - exists ev, k', e', bytes, k3, e3, k4, e4, k5, e5, k, e, ext_engine.1, ext_engine.2, h3, a3. eauto 10.
Defined.

Lemma receipt_window_witness : exists (k : Disk (list Z)) (e : @ExternalSqlite nat (list Z)) rows,
  receipts_table (committed (conn e)) = Some rows /\ Z.of_nat (size rows) = Z.min (zlen [ext_done]) (receipt_retention (state e)).
Proof.
  destruct ext_served_ok as (Hok & _). revert Hok. generalize ext_served.1 as k, ext_served.2 as e. intros k e Hok. destruct (so_rows _ _ _ (eo_store _ _ _ Hok)) as (rows & Hr & _).
  exists k, e, rows. split; [done|]. by apply (receipt_window k e [ext_done] rows).
Defined.

(** A commit that takes effect and reports an error. *)
Definition lost_reply : Faults := mkFaults false false false false (Some TookEffect) false false false false false false None None false.
Definition ext_lost := handle lost_reply None (WApply (ext_commit 1) 5 : DReq) ext_engine.1 ext_engine.2.

Lemma exactly_once_witness : ext_lost.1.1 = RApply (Err (Engine Sqlite)) /\
  ((open_inner ext_opts false false ext_env (killed ext_lost.2.1) = (Err RebuildRequired, killed ext_lost.2.1) /\
    (ext_lost.1.2 = true \/ rebuild_needed (dirty ext_engine.1) = true)) \/
  exists e2 k3 k4 e4 answer, open_inner ext_opts false false ext_env (killed ext_lost.2.1) = (Ok e2, k3) /\
    handle no_faults None (WApply (ext_commit 1) 5 : DReq) k3 e2 = (RApply (Ok answer) : DRep, false, (k4, e4)) /\
    (answer = Applied 5 \/ answer = Recovered 5) /\ engine_ok k4 e4 ([] ++ [mkDone (ext_commit 1) Operation (to_bytes 5)]) /\
    app (committed (conn e4)) = [5]).
Proof.
  split; [vm_compute; reflexivity|]. destruct ext_opened as (Hok & Ha & Hs & _).
  apply (exactly_once lost_reply None (ext_commit 1) 5 5 (to_bytes 5) [5] ext_engine.1 ext_engine.2 [] ext_lost.1.1 ext_lost.1.2 ext_lost.2.1 ext_lost.2.2).
  - exact Hok.
  - by apply ext_commit_ok.
  - by rewrite Hs.
  - by rewrite Ha.
  - reflexivity.
  - rewrite Hs. vm_compute. discriminate.
  - by eexists.
  - unfold ext_lost. by destruct (handle _ _ _ _ _) as [[? ?] [? ?]].
  - split; [done|]. split; [done|]. split; [done|]. vm_compute. reflexivity.
  - reflexivity.
  - exact ext_env_ok.
  - by rewrite Hs.
Defined.

Lemma crash_recovers_witness :
  (rebuild_needed (dirty (killed ext_lost.2.1)) = true /\ open_inner ext_opts false false ext_env (killed ext_lost.2.1) = (Err RebuildRequired, killed ext_lost.2.1)) \/
  (exists d s h k1, d ∈ [committed (conn ext_lost.2.2); committed (conn ext_engine.2)] /\
     open_inner ext_opts false false ext_env (killed ext_lost.2.1) = (Ok (engine_on ext_opts d s), k1) /\ engine_ok k1 (engine_on ext_opts d s) h /\
     (dirty ext_lost.2.1 <> Some DIRTY_NORMAL -> d = committed (conn ext_lost.2.2))).
Proof.
  destruct ext_opened as (Hok & Ha & Hs & _).
  apply (crash_recovers ext_engine.1 ext_engine.2 [] [committed (conn ext_lost.2.2); committed (conn ext_engine.2)] ext_lost.1.2 ext_lost.2.1 ext_lost.2.2).
  - exact Hok.
  - eapply (run_step _ _ [committed (conn ext_engine.2)] _ _ lost_reply None (WApply (ext_commit 1) 5) ext_lost.1.1); [apply run_nil|by apply ext_commit_ok|].
    unfold ext_lost. by destruct (handle _ _ _ _ _) as [[? ?] [? ?]].
  - split; [done|]. split; [done|]. split; [done|]. vm_compute. reflexivity.
  - reflexivity.
  - exact ext_env_ok.
  - by rewrite Hs.
Defined.

Lemma shutdown_reopens_witness :
  (shutdown no_faults ext_served.1 ext_served.2).1 = Ok tt /\
  exists k2, open_inner ext_opts false false ext_env (shutdown no_faults ext_served.1 ext_served.2).2 =
      (Ok (engine_on ext_opts (committed (conn ext_served.2)) (state ext_served.2)), k2) /\
    engine_ok k2 (engine_on ext_opts (committed (conn ext_served.2)) (state ext_served.2)) [ext_done].
Proof.
  destruct ext_served_ok as (Hok & Ha & Hsc & _).
  apply (shutdown_reopens ext_served.1 ext_served.2 [ext_done]); [done|reflexivity|exact ext_env_ok|done|]. by repeat split.
Defined.

Lemma retry_recovers_witness :
  handle lost_reply None (WApply (ext_commit 1) 77 : DReq) ext_served.1 ext_served.2 = (RApply (Ok (Recovered 5)) : DRep, false, (ext_served.1, ext_served.2)).
Proof.
  destruct ext_served_ok as (Hok & Ha & Hsc & _).
  apply (retry_recovers lost_reply None ext_done 5 77 ext_served.1 ext_served.2 [ext_done]); [done|by left| |done|apply of_to_bytes].
  vm_compute. discriminate.
Defined.

Lemma open_sound_witness : exists h, engine_ok ext_engine.1 ext_engine.2 h /\ same_config (fresh_state ext_opts) (state ext_engine.2).
Proof.
  destruct (open_sound (C := nat) ext_opts false false ext_env ext_disk ext_engine.2 ext_engine.1) as [_ Hx]; [vm_compute; reflexivity|exact Hx].
Defined.

(** A projection that is opened with the wrong options keeps its data. *)
Lemma open_keeps_witness : exists d', dbfile (open_inner (C := nat) (default_options "other") false false ext_env (killed ext_served.1)).2 = Some (Some d') /\
  app d' = [5] /\ (false = false -> d' = committed (conn ext_served.2)).
Proof.
  destruct ext_served_ok as (Hok & Ha & _ & _).
  destruct (open_keeps (C := nat) (default_options "other") false ext_env (killed ext_served.1) (committed (conn ext_served.2))
    (open_inner (C := nat) (default_options "other") false false ext_env (killed ext_served.1)).1
    (open_inner (C := nat) (default_options "other") false false ext_env (killed ext_served.1)).2) as (d' & E1 & E2 & E3).
  - by destruct (open_inner _ _ _ _ _).
  - exact (eo_file _ _ _ Hok).
  - exists d'. split; [done|]. split; [by rewrite E2|done].
Defined.

Lemma accepts_iff_witness :
  (load_state (committed (conn ext_served.2)) = Ok (state ext_served.2) /\
   validate_receipts (committed (conn ext_served.2)) (state ext_served.2) = Ok tt /\ receipt_codec (state ext_served.2) = RECEIPT_CODEC) /\
  exists h, store_ok (committed (conn ext_served.2)) (state ext_served.2) h.
Proof.
  assert (exists h, store_ok (committed (conn ext_served.2)) (state ext_served.2) h) as Hx
    by (destruct ext_served_ok as (Hok & _); eexists; by eapply eo_store).
  split; [|exact Hx]. apply (accepts_iff (committed (conn ext_served.2)) (state ext_served.2)). exact Hx.
Defined.

(** * Where the adapter does not do what it means to *)
#[local] Open Scope Z_scope.

(** The demo projection after a crash of its FULL engine: one entry, marker FULL. *)
Definition crashed : Disk (list Z) := killed ext_served.1.

(** Options of another application that asks for the replayable level. *)
Definition wrong_opts : ExternalSqliteOptions :=
  mkOptions true "other" 1 1 128 4 1024 (64 * 1024) ReplayableOff.
Definition off_env : OpenEnv := mkEnv 0 true true None None.

(** an open that is refused because of its options still downgrades the marker of
    a crashed projection: the OFF marker stays behind, the intact projection cannot be
    opened with its own options any more and has to be rebuilt. *)
Theorem refused_open_demands_rebuild :
  let k := (open_inner (C := nat) wrong_opts false false off_env crashed).2 in
  (open_inner (C := nat) wrong_opts false false off_env crashed).1 = Err (ConfigurationMismatch ["application_id"]) /\
  (exists e k', open_inner (C := nat) ext_opts false false ext_env crashed = (Ok e, k') /\ app (committed (conn e)) = [5]) /\
  dbfile k = dbfile crashed /\ dirty k = Some DIRTY_OFF /\
  open_inner (C := nat) ext_opts false false ext_env k = (Err RebuildRequired, k).
Proof.
  cbv zeta. split; [vm_compute; reflexivity|]. split; [eexists _, _; vm_compute; split; reflexivity|].
  split; [vm_compute; reflexivity|]. split; vm_compute; reflexivity.
Qed.

(** A database with tables of its own that also has a table with the name of the
    receipts table. *)
Definition leftover : Disk (list Z) := mkDisk false None (Some (Some (mkDb None (Some ∅) [1; 2]))) ∅.

(** Adopting a database is not atomic: when it fails after the first table was
    created, the database can neither be adopted nor opened afterwards, and the only
    way on is the rebuild that deletes it. *)
Theorem failed_adoption_poisons :
  let k := (open_inner (C := nat) ext_opts false true ext_env leftover).2 in
  let k2 := (open_inner (C := nat) ext_opts false false ext_env k).2 in
  (open_inner (C := nat) ext_opts false true ext_env leftover).1 = Err Sqlite /\
  (open_inner (C := nat) ext_opts false true ext_env k).1 = Err AdoptionNotAllowed /\
  (open_inner (C := nat) ext_opts false false ext_env k).1 = Err Sqlite /\
  open_inner (C := nat) ext_opts false false ext_env k2 = (Err RebuildRequired, k2) /\
  open_inner (C := nat) ext_opts false true ext_env k2 = (Err AdoptionNotAllowed, k2) /\
  exists e k3, open_inner (C := nat) ext_opts true false ext_env k2 = (Ok e, k3) /\ app (committed (conn e)) = [].
Proof.
  cbv zeta. do 5 (split; [vm_compute; reflexivity|]). eexists _, _. vm_compute. split; reflexivity.
Qed.
