(* ===== verification/Findings.v ===== *)
(** Executions in which the code does not do what its comments, its
    acknowledgements or its callers expect.  Each is a concrete run of the model
    on a store that was started on an empty directory. *)
From stdpp Require Import base gmap strings list numbers sorting.
From Stdlib Require Import Ascii Strings.Byte.
From S2P Require Import Prelude Text WalBase WalFile WalFileSpec WalSet WalSetSpec WalPurge WalMeta.
From S2P Require Import WalWriter WalWriterSpec WalReader LogMemory LogStore KvCache DLock CacheSM Concrete WalTheorems CacheTheorems.

#[local] Open Scope Z_scope.

(** The store after a sequence of actions. *)
Definition run_actions (l : list Action) : Res Error bool * (Fs * Writer) := handle_all cfg0 l boot.2.
Definition store_of (l : list Action) : WalStore := let s := (run_actions l).2 in mkStore s.1 s.2.
Definition replies (l : list Action) : list Reply := out (run_actions l).2.2.
Definition bytes_of_len (n : Z) (b : byte) : list byte := replicate (Z.to_nat n) b.

(** What is left after the machine stops: only what reached the device. *)
Definition crash (fs : Fs) : Fs :=
  mkFs (dir fs) ((fun i => mkInode (i_disk i) (i_disk i)) <$> inodes fs) (next_ino fs).

(** The first and last log ids of the files of a set, and of a store started again. *)
Definition ids_of (l : list WalFile) : list (Z * Z) := (fun f => (id_from f, id_until f)) <$> l.
Definition reopened (deep : bool) (fs : Fs) : option (list (Z * Z)) :=
  match spawn base0 8192 deep false (mkMeta None None) fs with
  | (Ok w, _) => Some (ids_of (files (wal w)))
  | _ => None
  end.

Definition read_via (s : WalStore) (from until : Z) (r : Reader) : Res Error (Reader * list Msg) :=
  handle_logs (st_fs s) (wal_locked (st_writer s)) from until r.
Definition messages (r : Res Error (Reader * list Msg)) : option (list Msg) :=
  match r with Ok (_, m) => Some m | _ => None end.

(** a truncation that was acknowledged is not on the device: the writer does
    not mark the file dirty after cutting it and nothing writes its header, so
    after a crash the removed logs 2 and 3 are part of the log again. *)
Theorem truncation_not_durable :
  let l := [Append logs3; Remove 2 u64_max None] in
  replies l = [RAck None; RCallback None; RAck None] /\ is_dirty (run_actions l).2.2 = false /\
  ids_of (files (wal (run_actions l).2.2)) = [(1, 1)] /\ reopened false (crash (run_actions l).2.1) = Some [(1, 3)].
Proof. vm_compute. repeat split. Qed.

(** a reader keeps the position it remembers of a file when the file was cut
    and written again: it then looks for log 3 in the middle of the new log 2 and
    reports a checksum error, while a new reader returns the log. *)
Theorem reader_memo_stale_after_truncate :
  let s1 := store_of [Append logs3] in
  let s2 := store_of [Append logs3; Remove 2 u64_max None; Append [(2, bytes_of_len 20 Byte.x65); (3, [Byte.x66])]] in
  (match read_via s1 1 2 (spawn_reader s1) with
   | Ok (r, _) => messages (read_via s2 3 3 r)
   | _ => None
   end) = Some [Failed EIntegrity] /\
  messages (read_via s2 3 3 (spawn_reader s2)) = Some [Data [Byte.x66]].
Proof. vm_compute. repeat split. Qed.

(** the limit the writer checks entries against leaves no room for the record
    header and the gap byte: an entry of 8150 bytes passes it, does not fit into a
    file of 8192 bytes, and the failed append leaves the file in a state in which
    the next append panics. *)
Theorem entry_limit_too_high :
  8150 <= data_len_limit cfg0 /\
  replies [Append [(1, bytes_of_len 8150 Byte.x61)]] = [RAck (Some EIO); RCallback (Some EIO)] /\
  (run_actions [Append [(1, bytes_of_len 8150 Byte.x61)]; Append [(1, [Byte.x61])]]).1 = Panic.
Proof. vm_compute. repeat split; done. Qed.

(** a truncation at the first log of a sealed file makes that file the active
    one without mapping it: it is acknowledged, and the next append panics. *)
Theorem truncation_at_file_start_breaks_writer :
  let l := [Append [(1, bytes_of_len 5000 Byte.x61)]; Append [(2, bytes_of_len 5000 Byte.x62)];
            Append [(3, bytes_of_len 5000 Byte.x63)]; Remove 2 u64_max None] in
  last (replies l) = Some (RAck None) /\ (run_actions l).1 = Ok false /\
  (run_actions (l ++ [Append [(2, [Byte.x61])]])).1 = Panic.
Proof. vm_compute. repeat split. Qed.

(** A store started on what a stopped one left, with its task running. *)
Definition restarted (fs : Fs) (acts : list Action) : Res Error bool * (Fs * Writer) :=
  match spawn base0 8192 true false (mkMeta None None) fs with
  | (Ok w, fs) => (on_set (on_active mmap_mut_op);; handle_all cfg0 acts) (fs, w)
  | (_, fs) => (Panic, (fs, boot.2.2))
  end.

(** A batch after which the writer has just rolled over to file 2. *)
Definition rolled : list Action := [Append [(1, bytes_of_len 1000 Byte.x61); (2, bytes_of_len 5000 Byte.x62)]].

(** the process is killed after a roll-over and started again: the header of the new
    file still has ids 0, so a truncation from log 2 on stops at that file and is
    acknowledged without removing anything; when log 2 is written again, readers
    get the old one. *)
Theorem truncation_lost_after_restart :
  let r := restarted (run_actions rolled).2.1 [Remove 2 u64_max None; Append [(2, [Byte.x63])]] in
  let s := mkStore r.2.1 r.2.2 in
  r.1 = Ok false /\ out r.2.2 = [RAck None; RAck None; RCallback None] /\
  ids_of (files (wal r.2.2)) = [(1, 2); (2, 2)] /\
  messages (read_via s 2 2 (spawn_reader s)) = Some [Data (bytes_of_len 5000 Byte.x62)].
Proof. vm_compute. repeat split. Qed.

(** The machine stops after a roll-over, before the header of the new file is
    written back: the next start skips the file, and the roll-over after it fails
    because the file exists, which ends the writer. *)
Example unreadable_file_blocks_roll_over :
  let fs := crash (run_actions rolled).2.1 in
  ids_of (files (wal (restarted fs []).2.2)) = [(1, 2)] /\
  (restarted fs [Append [(3, bytes_of_len 5000 Byte.x63)]]).1 = Err EIO.
Proof. vm_compute. repeat split. Qed.

(** The deep check takes over a truncated record that still lies behind the last
    one, even when the header was written after the truncation. *)
Example truncated_log_resurrected :
  let s := (run_actions [Append logs3; Remove 3 u64_max None]).2 in
  let fs := (on_set (on_active (update_header;; flush)) s).2.1 in
  reopened false (crash fs) = Some [(1, 2)] /\ reopened true (crash fs) = Some [(1, 3)].
Proof. vm_compute. repeat split. Qed.

(** When every log is purged, file number 1 is created anew; a reader that mapped
    the old file 1 keeps reading the unlinked one. *)
Example reader_maps_unlinked_file :
  let s1 := store_of [Append logs3] in
  let s2 := store_of [Append logs3; Remove 0 4 (Some [Byte.x03]); Append [(4, [Byte.x65])]] in
  (match read_via s1 1 1 (spawn_reader s1) with
   | Ok (r, _) => messages (read_via s2 4 4 r)
   | _ => None
   end) = Some [Failed EIntegrity] /\
  messages (read_via s2 4 4 (spawn_reader s2)) = Some [Data [Byte.x65]].
Proof. vm_compute. repeat split. Qed.

(** With an empty header the deep check starts one byte behind the first record. *)
Example deep_check_misses_first_record :
  let r := check_repair_data_integrity (demo3.1, demo_file) in
  r.1 = Ok tt /\ data_start r.2.2 = None /\
  read_record_unchecked demo3.1 demo_file 32 = Ok (mkRecord 1 (crc [Byte.x61]) [Byte.x61]).
Proof. vm_compute. repeat split. Qed.

(** The log state after a purge of everything has no last log, where the memory
    store reports the purged one. *)
Example log_state_after_full_purge :
  let id := mkLogId 1 1 3 in
  let s := store_of [Append logs3; Remove 0 4 (Some (encode_log_id id))] in
  (match get_log_state s (spawn_reader s) with Ok (_, st) => Some st | _ => None end) = Some (Some id, None) /\
  Memory.get_log_state (E := nat) (V := nat) (Memory.mkMem [] (Some id) None) = (Some id, Some id).
Proof. vm_compute. repeat split. Qed.

(** A lease that runs out between the two clock reads of one request: the new
    ticket 3 gets the lock while ticket 2 is queued. *)
Example lock_granted_ahead_of_queue :
  let s := DLock.mkState {["a" := DLock.mkLock (Some 1) 10 [2]]} ∅ in
  (DLock.handle_request 10 11 (DLock.Lock "a" 3 8) s).2 = [(8%nat, DLock.Locked 3)].
Proof. vm_compute. reflexivity. Qed.

(** Two replicas apply the same two lock requests, one second of clock skew
    apart at the end of the lease: one grants the second request, the other queues it. *)
Example replicas_disagree_with_skew :
  let es := [demo_entry 1 (CacheSM.Normal (CacheSM.Lock "a" None)); demo_entry 2 (CacheSM.Normal (CacheSM.Lock "a" None))] in
  let clock t1 t2 := CacheSM.mkClock (fun _ _ => (0, 0)) (fun i => if i =? 1 then (t1, t1) else (t2, t2)) in
  (CacheSM.apply (clock 100 111) (fun _ => false) es demo_machine).1 =
    Ok [CacheSM.RLock (DLock.Locked 1); CacheSM.RLock (DLock.Locked 2)] /\
  (CacheSM.apply (clock 100 110) (fun _ => false) es demo_machine).1 =
    Ok [CacheSM.RLock (DLock.Locked 1); CacheSM.RLock (DLock.Queued 2)].
Proof. vm_compute. repeat split. Qed.

(** a value put with the smallest ttl has its expiry 2^63 microseconds before the
    clock of the client; at a later clock the difference wraps, so it is never
    dropped, and as it is the first of the index it keeps every later expiry of the
    cache from being dropped: key [j] was due at 50 and is still stored at 100. *)
Theorem lowest_ttl_blocks_expiry :
  let c := (Kv.handle 0 (Kv.Put "j" [Byte.x62] (Some 50)) (Kv.handle 0 (Kv.Put "k" [Byte.x61] (Some i64_min)) Kv.empty_cache).1).1 in
  (Kv.values <$> Kv.expire_due 100 c) = Some (Kv.values c) /\ Kv.alive 100 (Kv.values c) = ∅.
Proof. vm_compute. split; reflexivity. Qed.
