(* ===== verification/SqlTheorems.v ===== *)
(** The SQLite state machine: what its replicas, its clients and openraft rely on, with
    an instance of each theorem on the database of [SqlDemo]. *)
From stdpp Require Import base gmap strings list numbers sorting.
From Stdlib Require Import Ascii Strings.Byte.
From S2P Require Import Prelude Text WalWriter SqlRows SqlRowsSpec SqlBase SqlWriter SqlSM SqlAgree SqlSMSpec SqlTxn SqlMigrate SqlDemo.
Import Rows Sql SqlWriter SqlSM Migrations.

#[local] Open Scope Z_scope.

Section Theorems.
Context {T : Type} `{SqlEngine T} `{!SqlEngineOk (T := T)} `{Equiv T} `{!SqlEquiv (T := T)} `{RowLib}.
Context {M : Type} `{!MetaCodec (M := M)} `{!MetaCodecOk (M := M)} `{UuidLib} `{!UuidLibOk}.

Abbreviation Writer := (@Writer T M).


(** Applying entries ends: there is one response per entry, unless the writer thread
    panicked; no batch and no migration runs out of fuel. *)
Theorem sql_apply_replies env es (w : Writer) :
  match (apply env es w).1 with Ok rs => length rs = length es | Panic => True | _ => False end.
Proof. apply apply_replies. Qed.

(** C11: A transaction of plain statements that keep the columns of each other does what the
    reference does: the statements in order, each parameter that names an earlier
    output replaced by the value in its first row; after the first failure, or a COMMIT
    that fails, the connection is as it was. *)
Theorem sql_transaction_refines P qs (c : Conn T) :
  steady P qs -> P (user (cur c)) -> saved c = None ->
  transaction qs c =
    match spec_transaction qs (user (cur c)) with
    | Ok (rs, u) => (Ok rs, mkConn (set_user u (cur c)) None)
    | Err x => (Err x, c)
    | Panic => (Panic, c)
    | OutOfFuel => (OutOfFuel, c)
    end.
Proof. apply transaction_ok. Qed.



(** A clean shutdown removes the lock file, and the node that starts on what it left
    reports the log and the membership it had and agrees with it. *)
Theorem sql_clean_restart env heal (w : Writer) :
  idle w ->
  exists k w1 w2, shutdown_sm w = Ok k /\ lock_file k = false /\ disk_snapshots k = snapshots w /\
    new env heal false false k = Ok w1 /\
    applied_state w1 = (Ok (last_applied_log_id (sm_data w), last_membership (sm_data w)), w2) /\ agree w2 w.
Proof. apply shutdown_restart. Qed.

(** C13: Deploying: the database has the rows of a prefix of the embedded migrations, the
    client has read some of them, and the scripts contain no BEGIN, COMMIT or ROLLBACK
    and do not write to [_migrations].  The client sends nothing when it has seen all of
    them; otherwise the writer runs the missing ones in order, as the reference does, up
    to the first that fails, and the rows are again those of a prefix, of all migrations
    when the reply is [Ok]. *)
Theorem sql_migrations_deploy files all rows j l (c : Conn T) :
  try_build files = Ok all -> Forall (plain_migration (T := T)) all -> applied_prefix rows all -> (j <= length rows)%nat ->
  saved c = None -> default [] (migrations (user (cur c))) = rows ->
  match migrate_execute_dedup (take j rows) all with
  | Ok None => j = length all
  | Ok (Some todo) =>
      exists r, spec_migrate (match l with Some l => as_int 64 true (index l) | None => 0 end) (drop (length rows) all)
          (mkUser (tables (user (cur c))) (Some rows)) = Some r /\
        migrate todo l c = (r.1, mkConn (set_user r.2 (cur c)) None) /\
        exists rows', migrations r.2 = Some rows' /\ applied_prefix rows' all /\ (length rows <= length rows')%nat /\
          (r.1 = Ok tt -> length rows' = length all)
  | _ => False
  end.
Proof.
  intros Hb Hpl Hp Hj Hs Hrows. destruct (try_build_ok files all Hb) as (Hn & _ & Hmax).
  pose proof (applied_prefix_length _ _ Hp) as Hlen.
  assert (applied_prefix (take j rows) all) as Hpj.
  { unfold applied_prefix. rewrite length_take, Nat.min_l by done. apply (Forall2_take _ _ _ j) in Hp.
    by rewrite take_take, Nat.min_l in Hp. }
  rewrite (dedup_ok _ _ Hn Hpj), length_take, Nat.min_l by done.
  destruct (drop j all) as [|m todo] eqn:Ed.
  { apply (f_equal length) in Ed. rewrite length_drop in Ed. simpl in Ed. lia. }
  assert (j < length all)%nat as Hjl by (apply (f_equal length) in Ed; rewrite length_drop in Ed; simpl in Ed; lia).
  destruct (spec_migrate_rows (match l with Some l => as_int 64 true (index l) | None => 0 end) (drop (length rows) all) rows
    (mkUser (tables (user (cur c))) (Some rows)) (Forall_drop _ _ _ Hpl) (numbered_drop 1 all (length rows) Hn)
    (row_id all rows Hn Hp) eq_refl) as (r & n & Hr & Hnl & Hmig & Hres).
  exists r. split; [exact Hr|]. split; [rewrite <- Ed; exact (migrate_ok all rows j l c r Hn Hmax Hp Hj Hjl Hs Hrows Hr)|].
  rewrite length_drop in Hnl, Hres. eexists. split; [exact Hmig|]. split; [apply applied_prefix_app; [done|lia]|].
  rewrite length_app, length_fmap, length_take, length_drop. split; [lia|].
  intros Hok. rewrite Hok in Hres. lia.
Qed.
End Theorems.

(** ** Values and rows *)
Section RowTheorems.
Context `{RowLib} `{!RowLibOk}.

(** What is bound as a parameter comes back from a column of its type, and from an
    expression: integers, reals, booleans, UTF-8 text, blobs, UUIDs, URLs, and the
    optional forms of the first five, where [None] is NULL. *)
Theorem sql_row_round_trips :
  (forall i, round_trips param_i64 try_from_i64 [TInteger; TExpr] i) /\
  (forall r, round_trips param_f64 try_from_f64 [TReal; TExpr] r) /\
  (forall b, round_trips into_param_bool try_from_bool [TInteger; TExpr] b) /\
  (forall s, valid_utf8 s = true -> round_trips into_param_string try_from_string [TText; TExpr] s) /\
  (forall b, round_trips into_param_blob try_from_blob [TBlob; TExpr] b) /\
  (forall u, 0 <= u < 2 ^ 128 -> round_trips param_uuid try_from_uuid [TBlob; TExpr] u) /\
  (forall u, round_trips param_url try_from_url [TText; TExpr] u) /\
  (forall o, round_trips (fun o => match o with Some i => param_i64 i | None => PNull end) (try_from_option try_from_i64) [TInteger; TExpr] o) /\
  (forall o, round_trips (fun o => match o with Some r => param_f64 r | None => PNull end) (try_from_option try_from_f64) [TReal; TExpr] o) /\
  (forall o, round_trips (into_param_option (T := bool)) (try_from_opt (T := bool)) [TInteger; TExpr] o) /\
  (forall o, (forall s, o = Some s -> valid_utf8 s = true) -> round_trips (into_param_option (T := string)) (try_from_opt (T := string)) [TText; TExpr] o) /\
  (forall o, round_trips (into_param_option (T := list byte)) (try_from_opt (T := list byte)) [TBlob; TExpr] o).
Proof.
  split; [apply i64_round|]. split; [apply f64_round|]. split; [apply bool_round|]. split; [apply text_round|].
  split; [apply blob_round|]. split; [apply uuid_round|]. split; [apply url_round_trip|].
  split; [intros o; apply option_round; [done|]; intros; apply i64_round|].
  split; [intros o; apply option_round; [done|]; intros; apply f64_round|].
  split; [intros o; apply option_round; [done|]; intros; apply bool_round|].
  split; [intros o Ho; apply option_round; [done|]; intros; apply text_round; by apply Ho|].
  intros o; apply option_round; [done|]; intros; apply blob_round.
Qed.

(** Reading a row succeeds exactly when every value has the type its column is read
    with, and panics otherwise; there is no error. *)
Theorem sql_row_reads row infos :
  (row_fits row infos <-> exists cols, from_row_column (E := SqlError) row infos = Ok cols) /\
  (~ row_fits row infos <-> from_row_column (E := SqlError) row infos = Panic).
Proof.
  pose proof (from_row_column_fits (E := SqlError) row infos) as Hf. split; [done|]. rewrite Hf.
  destruct (from_row_column_no_err (E := SqlError) row infos) as [-> |[cols ->]]; split; try done.
  - by intros _ [cols Hc].
  - intros Hn. destruct Hn. eauto.
Qed.
End RowTheorems.

(** Items without the separator come back from a [VecText], except that empty ones are
    lost. *)
Theorem vec_text_round {T} (S : ascii) (show : T -> string) (parse_item : string -> option T) ts :
  Forall (fun t => has_char S (show t) = false) ts -> (forall t, t ∈ ts -> parse_item (show t) = Some t) ->
  VecText.try_into_vec S parse_item (VecText.new S (show <$> ts)) = Ok (filter (fun t => show t <> "") ts).
Proof.
  intros Hs Hp. rewrite new_join. unfold VecText.try_into_vec. destruct ts as [|t ts]; [done|].
  assert (Forall (no_sep S) (show <$> t :: ts)) as Hf by (apply Forall_fmap; exact Hs).
  rewrite fmap_cons in Hf |- *. rewrite split_join by done. rewrite <- fmap_cons. by apply parse_lines_filter.
Qed.

(** ** Instances *)
#[local] Instance plain : SqlEngine Demo := demo_sql true.
#[local] Instance plain_ok : SqlEngineOk (T := Demo) := demo_sql_ok true.
#[local] Instance plain_equiv : SqlEquiv (T := Demo) := demo_sql_equiv true.

Definition insert (v : Value) : Query :=
  mkQuery "INSERT INTO t VALUES (?1)" [match v with VText s => PText s | VInteger i => PInteger i | _ => PNull end].
Definition entry (i : Z) (q : QueryWrite) : Entry nat := mkEntry (mkLogId 1 1 i) (Normal q).

Definition node : @SqlWriter.Writer Demo nat :=
  (apply (fun _ => calm) [entry 1 (Execute (insert (VText "x"))); entry 2 (Batch "DELETE FROM t;INSERT INTO t VALUES (NULL);")]
    (spawn_writer false empty_db ∅ ∅)).2.
Definition more : list (Entry nat) :=
  [entry 3 (Execute (insert (VText "y"))); entry 4 (Backup 1 7); entry 5 (Transaction [mkQuery "SELECT * FROM t" []; mkQuery "INSERT INTO t VALUES (?1)" [PStmtOutputNamed 0 "v"]])].

Lemma node_idle : idle node.
Proof. vm_compute. eauto. Qed.

(** A statement of this database that is not free of the rowid. *)
Lemma returning_rowid_not_free : ~ rowid_free "INSERT INTO t VALUES (?1) RETURNING rowid".
Proof.
  intros [_ Hq]. specialize (Hq [] (mkUser (mkDemo [(1, VNull)] false) None) (mkUser (mkDemo [(2, VNull)] false) None)).
  destruct Hq as [Hq _]; [done|]. vm_compute in Hq. discriminate.
Qed.


Lemma sql_apply_replies_witness : exists rs, (apply (fun _ => calm) more node).1 = Ok rs /\ length rs = 3%nat.
Proof.
  pose proof (sql_apply_replies (fun _ => calm) more node) as Hr.
  destruct (apply (fun _ => calm) more node).1 as [rs| | |] eqn:E; [by exists rs|vm_compute in E; discriminate..].
Defined.



Lemma sql_clean_restart_witness : exists k, shutdown_sm node = Ok k /\ lock_file k = false.
Proof. destruct (sql_clean_restart calm true node node_idle) as (k & _ & _ & Hk & Hl & _). by exists k. Defined.

Lemma sql_transaction_refines_witness :
  transaction [mkQuery "SELECT * FROM t" []; insert (VText "z")] (conn node) =
  (Ok [Some 0; Some 1], mkConn (set_user (mkUser (mkDemo [(1, VText "z")] false) None) (cur (conn node))) None).
Proof.
  rewrite (sql_transaction_refines (fun u => dropped (tables u) = false)); [reflexivity| |reflexivity|reflexivity].
  split.
  - intros q u u' _ Hu Hu'. change (demo_prepare true (sql q) u = demo_prepare true (sql q) u'). unfold demo_prepare. by rewrite Hu, Hu'.
  - intros q u p Hq _. apply elem_of_cons in Hq as [-> |Hq]; [vm_compute; by intros [= <-]|].
    apply list_elem_of_singleton in Hq as ->. vm_compute. by intros [= <-].
  - intros q vs u Hq Hu. apply elem_of_cons in Hq as [-> |Hq]; [exact Hu|]. apply list_elem_of_singleton in Hq as ->. exact Hu.
  - intros q vs u Hq Hu. apply elem_of_cons in Hq as [-> |Hq]; [exact Hu|]. apply list_elem_of_singleton in Hq as ->. exact Hu.
Defined.

Definition folder : list EmbeddedFile :=
  [mkEmbedded "2_second.sql" "bb" "DELETE FROM t;"; mkEmbedded "1_init.sql" "aa" "DELETE FROM t;ALTER TABLE t DROP COLUMN a;"].
Definition built : list Sql.Migration := match try_build folder with Ok l => l | _ => [] end.

Lemma sql_migrations_deploy_witness :
  migrate built (Some (mkLogId 1 1 4)) (conn node) =
  (Ok tt, mkConn (set_user (mkUser (mkDemo [] true) (Some [mkAppliedMigration 1 "init" 4 "aa"; mkAppliedMigration 2 "second" 4 "bb"])) (cur (conn node))) None).
Proof.
  assert (Forall (plain_migration (T := Demo)) built) as Hpl.
  { assert (forallb (fun m => Nat.ltb (String.length (content m)) 60 &&
      forallb (fun t => match parse_stmt true t with Some (SControl _) => false | _ => true end) (pieces 60 (content m))) built = true) as Hall
      by (vm_compute; reflexivity).
    rewrite forallb_forall in Hall. apply Forall_forall. intros m Hm%list_elem_of_In t Ht u. split.
    - intros p. change (demo_prepare true t u = Some p -> control p = None). unfold demo_prepare.
      specialize (Hall m Hm). apply andb_prop in Hall as [Hlen%Nat.ltb_lt Hall].
      rewrite forallb_forall in Hall. specialize (Hall t (proj1 (list_elem_of_In _ _) (demo_statement true _ _ Ht 60 Hlen))).
      destruct (parse_stmt true t) as [[]|]; try done; by intros [= <-].
    - change (migrations (after (demo_execute true t [] u)) = migrations u). unfold demo_execute. by destruct (parse_stmt true t) as [[]|]. }
  pose proof (sql_migrations_deploy folder built [] 0 (Some (mkLogId 1 1 4)) (conn node) ltac:(reflexivity) Hpl ltac:(constructor)
    ltac:(done) ltac:(reflexivity) ltac:(reflexivity)) as Hd.
  assert (migrate_execute_dedup (take 0 []) built = Ok (Some built)) as E by (vm_compute; reflexivity). rewrite E in Hd.
  destruct Hd as (r & Hr & Hm & _). rewrite Hm. vm_compute in Hr. injection Hr as <-. vm_compute. reflexivity.
Defined.

Lemma sql_row_round_trips_witness : round_trips into_param_string try_from_string [TText; TExpr] "abc".
Proof. destruct sql_row_round_trips as (_ & _ & _ & Ht & _). apply Ht. reflexivity. Defined.

Lemma sql_row_reads_witness : from_row_column (E := SqlError) [VText "2024-01-01"] [mkInfo "created" TInteger] = Panic.
Proof.
  apply (proj1 (proj2 (sql_row_reads [VText "2024-01-01"] [mkInfo "created" TInteger]))).
  intros [_ Hf]. by specialize (Hf 0%nat _ _ eq_refl eq_refl).
Defined.

Lemma vec_text_round_witness : VecText.try_into_vec "," Some (VecText.new "," (id <$> ["a"; ""; "b"])) = Ok ["a"; "b"].
Proof. rewrite (vec_text_round "," id Some); [reflexivity|by repeat constructor|done]. Defined.

(** * What modelling showed *)
Import Rows Sql SqlWriter SqlSM Migrations.

#[local] Open Scope Z_scope.

(** ** Panics in the replicated writer *)
Section Poison.
#[local] Instance poison_sql : SqlEngine Demo := demo_sql false.

(** A statement that returns a column declared as DATETIME, with a timestamp as text:
    the column is read as an integer. *)
Definition timestamp_entry : Entry nat :=
  mkEntry (mkLogId 1 1 1) (Normal (ExecuteReturning (mkQuery "INSERT INTO t VALUES (?1) RETURNING v" [PText "2024-01-01 10:00:00"]))).

(** The writer panics on it, on every node and in every state: also when the entry is
    applied again after a restart. *)
Theorem timestamp_poisons env (w : @Writer Demo nat) : (apply env [timestamp_entry] w).1 = Panic.
Proof. destruct w as [[[[[rows d] m] mt] sv] sm ts sn bk], d; reflexivity. Qed.
End Poison.

Section OlderDeployment.
Context {T : Type} `{SqlEngine T} `{RowLib}.

Lemma dedup_check_more rows : forall migs n, applied_prefix rows migs -> (n < length rows)%nat -> dedup_check rows (take n migs) = Ok None.
Proof.
  unfold applied_prefix. induction rows as [|a rows IH]; intros migs n Hp Hn; [simpl in Hn; lia|].
  destruct migs as [|m migs]; simpl in Hp; [by inversion Hp|]. inversion Hp as [|?? ?? (Hid & _ & Hh) Hp']; subst.
  destruct n as [|n]; [done|]. simpl. rewrite Hid, Hh, Z.eqb_refl, String.eqb_refl. simpl. apply IH; [done|]. simpl in Hn. lia.
Qed.

(** The database has more migrations than an older deployment knows.  Its client does
    nothing when it sees all of them; when it has read the rows before the newer ones
    were applied, it sends what it knows, and the writer panics, on every node. *)
Theorem older_deployment_panics all rows n j l (c : Conn T) :
  numbered 1 all -> Z.of_nat (length all) <= u32_max -> applied_prefix rows all ->
  (n < length rows)%nat -> (j < n)%nat -> default [] (migrations (user (cur c))) = rows ->
  migrate_execute_dedup rows (take n all) = Ok None /\
  migrate_execute_dedup (take j rows) (take n all) = Ok (Some (drop j (take n all))) /\
  (migrate (drop j (take n all)) l c).1 = Panic.
Proof.
  intros Hnum Hmax Hp Hn Hj Hrows. pose proof (applied_prefix_length _ _ Hp) as Hlen.
  split; [unfold migrate_execute_dedup; by rewrite (dedup_check_more rows all n Hp Hn)|].
  assert (numbered 1 (take n all)) as Hnt by (intros i m [Hi _]%lookup_take_Some; by apply Hnum).
  assert (applied_prefix (take j rows) (take n all)) as Hpj.
  { unfold applied_prefix. rewrite length_take, Nat.min_l, take_take, Nat.min_l by lia.
    apply (Forall2_take _ _ _ j) in Hp. by rewrite take_take, Nat.min_l in Hp by lia. }
  destruct (lookup_lt_is_Some_2 (take n all) j) as [m Hm]; [rewrite length_take; lia|].
  split.
  { rewrite (dedup_ok _ _ Hnt Hpj), length_take, Nat.min_l by lia. by rewrite (drop_S _ _ _ Hm). }
  unfold migrate, create_migrations_table, c_user, mbind, st_bind, st_lift. simpl. rewrite Hrows.
  enough (last_applied_migration rows (drop j (take n all)) = Panic) as -> by done.
  unfold last_applied_migration. rewrite (drop_S _ _ _ Hm) at 1. rewrite (Hnt _ _ Hm).
  rewrite (filter_rows_below all rows Hnum Hp), (filter_rows_from all rows Hnum Hp) by lia.
  destruct (_ && _); [done|]. destruct (forallb _ _); [|done].
  replace (1 + Z.of_nat j - 1) with (Z.of_nat j) by lia. unfold wrap32. rewrite Z.mod_small by (unfold u32_max in Hmax; lia).
  apply (check_applied_missing all rows Hnum Hmax Hp n j Hn (n - j) j); lia.
Qed.
End OlderDeployment.

Lemma older_deployment_panics_witness :
  (migrate [mkMigration 2 "b" "bb" ""] None
    (mkConn (mkDb (mkUser (mkDemo [] false) (Some [mkAppliedMigration 1 "a" 0 "aa"; mkAppliedMigration 2 "b" 0 "bb"; mkAppliedMigration 3 "c" 0 "cc"])) None) None)
    (H := demo_sql false)).1 = Panic.
Proof.
  refine (proj2 (proj2 (older_deployment_panics (H := demo_sql false) [mkMigration 1 "a" "aa" ""; mkMigration 2 "b" "bb" ""; mkMigration 3 "c" "cc" ""]
    [mkAppliedMigration 1 "a" 0 "aa"; mkAppliedMigration 2 "b" 0 "bb"; mkAppliedMigration 3 "c" 0 "cc"] 2 1 None _ _ _ _ _ _ _))).
  - intros [|[|[|i]]] m Hm; by simplify_eq/=.
  - vm_compute. done.
  - by repeat constructor.
  - simpl. lia.
  - lia.
  - reflexivity.
Defined.

(** ** Replicas *)
Section Vacuum.
#[local] Instance rowid_sql : SqlEngine Demo := demo_sql true.

Definition text_insert (s : string) : QueryWrite := Execute (mkQuery "INSERT INTO t VALUES (?1)" [PText s]).
Definition at_index (i : Z) (q : QueryWrite) : Entry nat := mkEntry (mkLogId 1 1 i) (Normal q).
Definition rowid_entries : list (Entry nat) :=
  [at_index 1 (text_insert "x"); at_index 2 (text_insert "y"); at_index 3 (Batch "DELETE FROM t WHERE rowid = (SELECT min(rowid) FROM t);");
   at_index 4 (Backup 1 0); at_index 5 (ExecuteReturning (mkQuery "INSERT INTO t VALUES (?1) RETURNING rowid" [PText "z"]))].
(** Two nodes that differ in the time of their last backup *)
Definition rowid_node (t : option Z) : @Writer Demo nat := set_ts t (spawn_writer false empty_db ∅ ∅).

(** A backup VACUUMs the live database unless the node had one in the last minute.
    VACUUM numbers rows without an INTEGER PRIMARY KEY anew, so two nodes that were equal
    give the same new row different numbers. *)
Theorem vacuum_diverges :
  agree (rowid_node None) (rowid_node (Some 0)) /\
  last <$> (match (apply (fun _ => calm) rowid_entries (rowid_node None)).1 with Ok rs => Some rs | _ => None end) =
    Some (Some (RExecuteReturning (Ok [Ok (mkRow [mkColumn "rowid" (Integer 2)])]))) /\
  last <$> (match (apply (fun _ => calm) rowid_entries (rowid_node (Some 0))).1 with Ok rs => Some rs | _ => None end) =
    Some (Some (RExecuteReturning (Ok [Ok (mkRow [mkColumn "rowid" (Integer 3)])]))).
Proof. split; [|by vm_compute]. split; [|done]. split; [by split|constructor]. Qed.
End Vacuum.

(** ** Transactions *)
Section Transactions.
#[local] Instance txn_sql : SqlEngine Demo := demo_sql false.

Definition start : @Writer Demo nat := spawn_writer false empty_db ∅ ∅.
Definition contents (w : @Writer Demo nat) : list Value := (t_rows (tables (user (cur (conn w))))).*2.

(** A batch that begins a transaction and does not end it: later transactions and
    migrations fail, no snapshot can be taken, and after a clean shutdown the node is
    back at the state before the batch, with no applied log. *)
Theorem unfinished_begin :
  let w := (apply (fun _ => calm) [at_index 1 (text_insert "x"); at_index 2 (Batch "BEGIN;"); at_index 3 (text_insert "y")] start).2 in
  contents w = [VText "x"; VText "y"] /\
  (apply (fun _ => calm) [at_index 4 (Transaction [])] w).1 = Ok [RTransaction (Err ETransaction)] /\
  (build_snapshot calm 1 w).1 = Err ESqlite /\
  match shutdown_sm w with
  | Ok k => match new calm true false false k with
            | Ok w' => contents w' = [VText "x"] /\ (applied_state w').1 = Ok (None, (None, 0%nat))
            | _ => False
            end
  | _ => False
  end.
Proof. vm_compute. done. Qed.

(** A COMMIT among the statements of a transaction: the reply is an error, and the
    statements before it stay. *)
Theorem inner_commit_not_atomic :
  let r := apply (fun _ => calm) [at_index 1 (Transaction [mkQuery "INSERT INTO t VALUES (?1)" [PText "x"]; mkQuery "COMMIT" []; mkQuery "INSERT INTO t VALUES (NULL)" []])] start in
  r.1 = Ok [RTransaction (Err ETransaction)] /\ contents r.2 = [VText "x"].
Proof. vm_compute. done. Qed.

(** A parameter that names a column of an earlier statement is resolved against the
    columns that statement has now: after a column was dropped it gets the value of
    another one. *)
Theorem output_name_after_alter :
  let r := apply (fun _ => calm) [at_index 1 (text_insert "x");
    at_index 2 (Transaction [mkQuery "SELECT * FROM t" []; mkQuery "ALTER TABLE t DROP COLUMN a" []; mkQuery "INSERT INTO t VALUES (?1)" [PStmtOutputNamed 0 "v"]])] start in
  contents r.2 = [VText "x"; VText "a"].
Proof. vm_compute. done. Qed.

(** ** Snapshots *)

(** The newest snapshot is the one with the highest UUID, which carries the clock of the
    node that built it.  A node with a snapshot of its own installs one of a leader
    whose clock is behind; after a crash it comes back with its own, older state. *)
Theorem older_snapshot_wins :
  let w1 := (build_snapshot calm 9 (apply (fun _ => calm) [at_index 1 (text_insert "x")] start).2).2 in
  let leader := (apply (fun _ => calm) [at_index 1 (text_insert "x"); at_index 2 (text_insert "y")] start).2 in
  match build_snapshot calm 5 leader with
  | (Ok meta, l) =>
      match snapshots l !! snapshot_id meta with
      | Some file =>
          let r := (begin_receiving_snapshot ;; receive file ;; install_snapshot calm meta) w1 in
          r.1 = Ok tt /\ contents r.2 = [VText "x"; VText "y"] /\
          match new calm true false false (mkDisk None true (snapshots r.2) ∅) with
          | Ok w => contents w = [VText "x"]
          | _ => False
          end
      | None => False
      end
  | _ => False
  end.
Proof. vm_compute. done. Qed.

(** The cleanup after a snapshot removes every other file of the folder, also the one
    that is being received: the installation fails. *)
Theorem cleanup_removes_received :
  match build_snapshot calm 5 start with
  | (Ok meta, l) =>
      match snapshots l !! snapshot_id meta with
      | Some file => ((begin_receiving_snapshot ;; receive file ;; snapshots_cleanup 9 ;; install_snapshot calm meta) start).1 = Err ESqlite
      | None => False
      end
  | _ => False
  end.
Proof. vm_compute. done. Qed.
End Transactions.

(** ** Conversions *)

(** The optional integers wrap where the plain ones stop at the bounds of the type. *)
Theorem optional_cast_wraps :
  try_from_u64 (Integer (-1)) = Ok 0 /\ try_from_u64_opt (Integer (-1)) = Ok (Some (2 ^ 64 - 1)) /\
  downcast_int false 32 true (Integer (2 ^ 40)) = Ok (2 ^ 31 - 1) /\ downcast_int_opt 32 true (Integer (2 ^ 40)) = Ok (Some 0).
Proof. by vm_compute. Qed.

(** [None] is written as NULL, and an optional UUID or URL cannot be read from NULL. *)
Theorem optional_uuid_not_null :
  into_sql (E := SqlError) (into_param_option (T := list byte) None) = Ok VNull /\
  column_value (E := SqlError) TBlob VNull = Ok Null /\ try_from_uuid_opt Null = Err ESqlite /\ try_from_url_opt Null = Err ESqlite.
Proof. by vm_compute. Qed.

(** TEXT that is not UTF-8 in the result of an expression is read as NULL. *)
Theorem invalid_text_is_null s : valid_utf8 s = false -> column_value (E := SqlError) TExpr (VText s) = Ok Null.
Proof. intros Hs. simpl. by rewrite Hs. Qed.
