(* ===== verification/ClusterBase.v ===== *)
(** The node as its cluster sees it: [hiqlite/src/helpers.rs] (openraft behind
    [RaftType]), [hiqlite/src/app_state.rs] and the HTTP requests between nodes.

    openraft is the class [RaftNode]: what it reports and the commands it takes, over a
    state [W] that also holds the clock and the other nodes.  Replies to HTTP requests
    are the class [ClusterHttp].  [RaftNodeOk] says that reading and waiting submits
    nothing, that a command submits at most itself, and that waiting takes time.  A command
    waits for its commit, so it may never return: [OutOfFuel]. *)
From stdpp Require Import base gmap strings list numbers.
From Stdlib Require Import Strings.Byte.
From S2P Require Import Prelude SqlRows NetBase.
Import Net.

#[local] Open Scope Z_scope.

Module Cluster.

(** [RaftType] *)
Inductive RaftType : Type := Sqlite | Cache | Unknown.
#[export] Instance RaftType_eqdec : EqDecision RaftType.
Proof. solve_decision. Defined.

(** [ServerState] of openraft *)
Inductive ServerState : Type := Learner | Follower | Candidate | Leader | SShutdown.
#[export] Instance ServerState_eqdec : EqDecision ServerState.
Proof. solve_decision. Defined.

(** [StoredMembership]: the ids of its voters, and all nodes *)
Record Membership : Type := mkMembership { voters : gset Z; nodes : gmap Z Node }.
Definition is_voter (id : Z) (m : Membership) : bool := bool_decide (id ∈ voters m).
Definition is_node (id : Z) (m : Membership) : bool := bool_decide (is_Some (nodes m !! id)).

(** What the code reads of [RaftMetrics]; [running]: [running_state] is [Ok]. *)
Record Metrics : Type := mkMetrics { running : bool; current_leader : option Z; server_state : ServerState; membership_config : Membership }.

(** [ChangeMembers] as far as it is used; a set of ids is [ReplaceAllVoters]. *)
Inductive ChangeMembers : Type := ReplaceAllVoters (s : gset Z) | RemoveVoters (s : gset Z) | RemoveNodes (s : gset Z).
Inductive Command : Type :=
| Initialize (n : Node)
| AddLearner (n : Node)
| Change (c : ChangeMembers) (retain : bool).

(** The node itself: the parts of [AppState] that are fixed, with its environment *)
Record App : Type := mkApp { app_id : Z; secret_api : list byte; learner_only : bool; health_check_delay : Z; app_start : Z }.

Class RaftNode (W : Type) : Type := {
  is_initialized : RaftType -> W -> Res ApiError bool * W;
  leader_now : RaftType -> W -> option Z * W;
  metrics_now : RaftType -> W -> Metrics * W;
  submit : RaftType -> Command -> W -> Res ApiError unit * W;
  stopped : RaftType -> W -> bool;
  startup_finished : RaftType -> W -> bool;
  set_running : RaftType -> W -> W;
  shutting_down : W -> bool;
  sleep : Z -> W -> W;
  clock : W -> Z;
}.

(** A reply to an HTTP request: none, one without a body, or a body that may not be what
    is expected *)
Inductive Reply (A : Type) : Type :=
| NoConnection
| NoBody (success : bool) (e : ApiError)
| Success (a : option A)
| Failure (e : option ApiError).
Arguments NoConnection {A}. Arguments NoBody {A}. Arguments Success {A}. Arguments Failure {A}.

Inductive Suffix : Type := Add_learner | Become_member.
Class ClusterHttp (W : Type) : Type := {
  req_membership : RaftType -> Node -> W -> Reply Membership * W;
  req_metrics : RaftType -> Node -> W -> Reply Metrics * W;
  req_become : Suffix -> RaftType -> Node -> W -> Reply unit * W;
  req_leave : RaftType -> Node -> W -> Reply unit * W;
}.

Section Helpers.
Context {W : Type} `{RaftNode W}.
Abbreviation RSt := (St ApiError W).

Definition on_world {A} (f : W -> A * W) : RSt A := fun w => let '(a, w) := f w in (Ok a, w).
Definition unknown_raft {A} : RSt A := st_err (Other EError).

(** [is_raft_initialized], [is_raft_stopped], [get_raft_leader], [get_raft_metrics] *)
Definition is_raft_initialized (t : RaftType) : RSt bool := match t with Unknown => unknown_raft | _ => is_initialized t end.
Definition is_raft_stopped (t : RaftType) : RSt bool := fun w => (Ok match t with Unknown => true | _ => stopped t w end, w).
Definition get_raft_leader (t : RaftType) : RSt (option Z) := match t with Unknown => unknown_raft | _ => on_world (leader_now t) end.
Definition get_raft_metrics (t : RaftType) : RSt Metrics := match t with Unknown => unknown_raft | _ => on_world (metrics_now t) end.

(** [add_new_learner], [change_membership], [remove_learner], [remove_voter] *)
Definition raft_command (t : RaftType) (c : Command) : RSt unit := match t with Unknown => unknown_raft | _ => submit t c end.
Definition add_new_learner (t : RaftType) (n : Node) : RSt unit := raft_command t (AddLearner n).
Definition change_membership (t : RaftType) (members : gset Z) (retain : bool) : RSt unit := raft_command t (Change (ReplaceAllVoters members) retain).
Definition remove_learner (t : RaftType) (id : Z) : RSt unit := raft_command t (Change (RemoveNodes {[id]}) false).
Definition remove_voter (t : RaftType) (id : Z) (retain : bool) : RSt unit := raft_command t (Change (RemoveVoters {[id]}) retain).

Definition wait (ms : Z) : RSt unit := fun w => (Ok tt, sleep ms w).
Definition now : RSt Z := fun w => (Ok (clock w), w).
End Helpers.

(** ** What openraft promises *)
Class RaftLog (W : Type) : Type := sent : W -> list (RaftType * Command).

(** Time goes on, and nothing is submitted *)
Definition idle {W} `{RaftNode W} `{RaftLog W} (w w' : W) : Prop := sent w' = sent w /\ clock w <= clock w'.

Class RaftNodeOk {W} `{RaftNode W} `{RaftLog W} : Prop := {
  initialized_ok : forall t w r w', is_initialized t w = (r, w') -> settled r /\ idle w w';
  leader_ok : forall t w l w', leader_now t w = (l, w') -> idle w w';
  metrics_ok : forall t w m w', metrics_now t w = (m, w') -> idle w w';
  submit_ok : forall t c w r w', submit t c w = (r, w') -> r <> Panic /\ clock w <= clock w' /\
    (sent w' = sent w ++ [(t, c)] \/ sent w' = sent w /\ r <> Ok tt);
  running_ok : forall t w, idle w (set_running t w);
  sleep_ok : forall d w, 0 <= d -> sent (sleep d w) = sent w /\ clock w + d <= clock (sleep d w);
}.
Class ClusterHttpOk {W} `{RaftNode W} `{RaftLog W} `{ClusterHttp W} : Prop := {
  req_membership_ok : forall t n w r w', req_membership t n w = (r, w') -> idle w w';
  req_metrics_ok : forall t n w r w', req_metrics t n w = (r, w') -> idle w w';
  req_become_ok : forall s t n w r w', req_become s t n w = (r, w') -> idle w w';
  req_leave_ok : forall t n w r w', req_leave t n w = (r, w') -> idle w w';
}.
End Cluster.
