(* ===== verification/ClusterMgmt.v ===== *)
(** The management endpoints of a node: [hiqlite/src/network/management.rs], and the
    health and readiness checks of [hiqlite/src/network/api.rs] and
    [hiqlite/src/client/mgmt.rs].

    A handler gets the secret of the request and its decoded body ([None]: it cannot be
    decoded).  [raft_lock] serialises the handlers of a node; a handler is one run here.
    The polling loops have a fuel of rounds; [POLLS] and [DEMOTION_POLLS] are enough. *)
From stdpp Require Import base gmap strings list numbers sorting.
From Stdlib Require Import Strings.Byte.
From S2P Require Import Prelude SqlRows NetBase ClusterBase.
Import Net Cluster.

#[local] Open Scope Z_scope.

Module Mgmt.

Definition MEMBERSHIP_COMMIT_TIMEOUT : Z := 40000.
Definition DEMOTION_TIMEOUT : Z := 10000.
Definition POLLS : nat := 82.
Definition DEMOTION_POLLS : nat := 42.

Record ClusterLeaveReq : Type := mkLeave { leave_id : Z; stay_as_learner : bool }.

Section Handlers.
Context {W : Type} `{RaftNode W} (app : App).
Abbreviation RSt := (St ApiError W).

(** [validate_secret], [get_payload] *)
Definition validate_secret (given : option (list byte)) : RSt unit :=
  match given with
  | None => st_err Token
  | Some s => if bool_decide (secret_api app = s) then mret tt else st_err Token
  end.
Definition get_payload {A} (body : option A) : RSt A := match body with Some a => mret a | None => st_err (Other EBincode) end.

(** The guard of every endpoint *)
Definition ensure_running (t : RaftType) (e : ApiError) : RSt unit :=
  s ← is_raft_stopped t;
  if (s : bool) then st_err e
  else i ← is_raft_initialized t; if (i : bool) then mret tt else st_err e.

(** [are_we_leader] *)
Definition are_we_leader (t : RaftType) : RSt unit :=
  l ← get_raft_leader t;
  match l with
  | Some id =>
      if id =? app_id app then mret tt
      else m ← get_raft_metrics t;
           match nodes (membership_config m) !! id with
           | None => st_err (Other EError)
           | Some n => st_err (CheckIsLeaderError (Some (mkForward (Some id) (Some n))))
           end
  | None => st_err LeaderChange
  end.

(** [wait_for_membership_commit] *)
Fixpoint poll_commit (fuel : nat) (t : RaftType) (start : Z) (is_done : Membership -> bool) : RSt unit :=
  match fuel with
  | O => st_lift OutOfFuel
  | S fuel =>
      m ← get_raft_metrics t;
      if is_done (membership_config m) then mret tt
      else wait 500 ;; are_we_leader t ;;
           n ← now; if MEMBERSHIP_COMMIT_TIMEOUT <? n - start then st_err (Other EError) else poll_commit fuel t start is_done
  end.
Definition wait_for_membership_commit (fuel : nat) (t : RaftType) (is_done : Membership -> bool) : RSt unit :=
  start ← now; poll_commit fuel t start is_done.

(** [wait_for_demotion] *)
Fixpoint poll_demotion (fuel : nat) (t : RaftType) (start : Z) : RSt unit :=
  match fuel with
  | O => st_lift OutOfFuel
  | S fuel =>
      m ← get_raft_metrics t;
      if bool_decide (server_state m <> Leader) then mret tt
      else wait 250 ;; n ← now; if DEMOTION_TIMEOUT <? n - start then mret tt else poll_demotion fuel t start
  end.
Definition wait_for_demotion (t : RaftType) : RSt unit := start ← now; poll_demotion DEMOTION_POLLS t start.

(** [add_learner] *)
Definition add_learner (t : RaftType) (secret : option (list byte)) (body : option Node) : RSt unit :=
  validate_secret secret ;; ensure_running t (Other EError) ;; are_we_leader t ;;
  node ← get_payload body;
  add_new_learner t node ;;
  wait_for_membership_commit POLLS t (is_node (node_id node)) ;;
  wait 1000.

(** [become_member] *)
Definition become_member (t : RaftType) (secret : option (list byte)) (body : option Node) : RSt unit :=
  validate_secret secret ;; ensure_running t (Other EError) ;; are_we_leader t ;;
  payload ← get_payload body;
  m ← get_raft_metrics t;
  if is_voter (node_id payload) (membership_config m) then mret tt
  else change_membership t (voters (membership_config m) ∪ {[node_id payload]}) true ;;
       wait_for_membership_commit POLLS t (is_voter (node_id payload)) ;;
       wait 1000.

(** [get_membership] *)
Definition get_membership (t : RaftType) (secret : option (list byte)) : RSt Membership :=
  validate_secret secret ;; ensure_running t Config ;;
  m ← get_raft_metrics t;
  if bool_decide (nodes (membership_config m) = ∅) then wait 1000 ;; get_raft_metrics t ;; st_err Config
  else mret (membership_config m).

(** [post_membership]: the dropped voters in the order of their ids *)
Fixpoint remove_learners (t : RaftType) (ids : list Z) : RSt unit :=
  match ids with
  | [] => mret tt
  | id :: ids => st_try (remove_learner t id) ;; remove_learners t ids
  end.
Definition sorted_ids (s : gset Z) : list Z := merge_sort Z.le (elements s).
Definition post_membership (t : RaftType) (secret : option (list byte)) (body : option (gset Z)) : RSt unit :=
  validate_secret secret ;; ensure_running t Config ;; are_we_leader t ;;
  payload ← get_payload body;
  m ← get_raft_metrics t;
  let old_voters := voters (membership_config m) in
  let self_removal := negb (bool_decide (app_id app ∈ payload)) in
  let dropped_voters := old_voters ∖ payload in
  change_membership t payload self_removal ;;
  if self_removal then
    remove_learners t (sorted_ids dropped_voters) ;;
    if bool_decide (app_id app ∈ dropped_voters) then wait_for_demotion t else mret tt
  else mret tt.

(** [leave_cluster_exec] *)
Definition leave_cluster_exec (t : RaftType) (payload : ClusterLeaveReq) : RSt unit :=
  m ← get_raft_metrics t;
  let id := leave_id payload in
  (if is_node id (membership_config m) then
     if is_voter id (membership_config m) then
       let self_removal := id =? app_id app in
       remove_voter t id (self_removal || stay_as_learner payload) ;;
       wait_for_membership_commit POLLS t (fun mc => negb (is_voter id mc)) ;;
       if self_removal && negb (stay_as_learner payload) then st_try (remove_learner t id) ;; wait_for_demotion t else mret tt
     else if negb (stay_as_learner payload) then
       remove_learner t id ;; wait_for_membership_commit POLLS t (fun mc => negb (is_node id mc))
     else mret tt
   else mret tt) ;;
  get_raft_metrics t ;; mret tt.
(** [leave_cluster] *)
Definition leave_cluster (t : RaftType) (secret : option (list byte)) (body : option ClusterLeaveReq) : RSt unit :=
  validate_secret secret ;; ensure_running t Config ;; are_we_leader t ;;
  payload ← get_payload body; leave_cluster_exec t payload.

(** [metrics] *)
Definition metrics (t : RaftType) (secret : option (list byte)) : RSt Metrics :=
  validate_secret secret ;; ensure_running t (Other EError) ;; get_raft_metrics t.

(** ** Health and readiness *)

(** [check_health]: both Rafts *)
Definition check_health_of (t : RaftType) : RSt unit :=
  m ← get_raft_metrics t;
  if negb (running m) then st_err RaftErrorFatal
  else match current_leader m with None => st_err LeaderChange | Some _ => mret tt end.
Definition check_health : RSt unit :=
  n ← now;
  if n - health_check_delay app <? app_start app then mret tt else check_health_of Sqlite ;; check_health_of Cache.
Definition health : RSt unit := fun w =>
  match check_health w with
  | (Err _, w) => (wait 3000 ;; check_health) w
  | r => r
  end.

(** [ensure_ready_member] *)
Definition ensure_ready_member (id : Z) (learner_only : bool) (s : ServerState) (mc : Membership) : Res ApiError unit :=
  if bool_decide (s = SShutdown) then Err (Other EError)
  else if negb (bool_decide (s = Learner)) && is_voter id mc then Ok tt
  else if learner_only && bool_decide (s = Learner) && is_node id mc then Ok tt
  else Err (Other EError).

(** [ready]: one Raft, and the endpoint *)
Definition ready_of (t : RaftType) (secs_since_start : Z) : RSt unit := fun w =>
  if negb (startup_finished t w) then (Err (Other EError), w)
  else (i ← (if app_id app =? 1 then is_initialized t else mret true);
        if (app_id app =? 1) && negb i && (10 <? secs_since_start) then mret tt
        else s ← is_raft_stopped t;
             if (s : bool) then st_err (Other EError)
             else m ← get_raft_metrics t;
                  st_lift (ensure_ready_member (app_id app) (learner_only app) (server_state m) (membership_config m)) ;;
                  if bool_decide (current_leader m = None) && (negb (app_id app =? 1) || (secs_since_start <? 10)) then st_err (Other EError) else mret tt) w.
Definition ready : RSt unit := fun w =>
  if shutting_down w then (Err (Other EError), w)
  else let secs := (clock w - app_start app) / 1000 in (ready_of Sqlite secs ;; ready_of Cache secs) w.

(** [is_healthy_db], [is_healthy_cache] on a member *)
Definition is_healthy (t : RaftType) : RSt unit :=
  m ← get_raft_metrics t;
  if negb (running m) then st_err RaftErrorFatal
  else match current_leader m with
       | None => st_err LeaderChange
       | Some _ => match server_state m with Learner | Follower | Leader => mret tt | _ => st_err Connect end
       end.
End Handlers.
End Mgmt.
