(* ===== verification/ClusterSpec.v ===== *)
(** What the management endpoints submit to openraft, and that they return. *)
From stdpp Require Import base gmap strings list numbers sorting.
From Stdlib Require Import Strings.Byte.
From S2P Require Import Prelude SqlRows NetBase ClusterBase ClusterMgmt.
Import Net Cluster Mgmt.

#[local] Open Scope Z_scope.

Create HintDb cluster.

Section Spec.
Context {W : Type} `{RaftNode W} `{RaftLog W} `{!RaftNodeOk (W := W)}.
Abbreviation RSt := (St ApiError W).

#[global] Instance idle_refl : Reflexive (idle (W := W)).
Proof. intros w. split; [done|lia]. Qed.
#[global] Instance idle_trans : Transitive (idle (W := W)).
Proof. intros w1 w2 w3 [Hs1 Hc1] [Hs2 Hc2]. split; [congruence|lia]. Qed.

(** A computation that returns and submits nothing *)
Definition calm {A} (m : RSt A) : Prop := forall w r w', m w = (r, w') -> settled r /\ idle w w'.

Lemma calm_ret {A} (a : A) : calm (mret a).
Proof. by intros w r w' [= <- <-]. Qed.
Lemma calm_err {A} e : calm (st_err (A := A) e).
Proof. by intros w r w' [= <- <-]. Qed.
Lemma calm_bind {A B} (m : RSt A) (k : A -> RSt B) : calm m -> (forall a, calm (k a)) -> calm (m ≫= k).
Proof.
  intros Hm Hk w r w'. step_st. destruct (m w) as [[a|e| |] w1] eqn:E; apply Hm in E as [Hs Hi]; try done.
  - intros Hr. apply Hk in Hr as [Hr Hi2]. split; [done|by etrans].
  - by intros [= <- <-].
Qed.
Lemma calm_on_world {A} (f : W -> A * W) : (forall w a w', f w = (a, w') -> idle w w') -> calm (on_world f).
Proof. intros Hf w r w'. unfold on_world. destruct (f w) as [a w1] eqn:E. intros [= <- <-]. split; [done|by eapply Hf]. Qed.
Lemma calm_metrics t : calm (get_raft_metrics t).
Proof. destruct t; [apply calm_on_world; eauto using metrics_ok..|apply calm_err]. Qed.
Lemma calm_leader t : calm (get_raft_leader t).
Proof. destruct t; [apply calm_on_world; eauto using leader_ok..|apply calm_err]. Qed.
Lemma calm_initialized t : calm (is_raft_initialized t).
Proof. destruct t; [intros w r w'; apply initialized_ok..|apply calm_err]. Qed.
Lemma calm_stopped t : calm (is_raft_stopped t).
Proof. by intros w r w' [= <- <-]. Qed.
Lemma calm_wait d : 0 <= d -> calm (wait d).
Proof. intros Hd w r w' [= <- <-]. split; [done|]. pose proof (sleep_ok d w Hd) as [Hs Hc]. split; [done|lia]. Qed.
Lemma calm_now : calm now.
Proof. by intros w r w' [= <- <-]. Qed.

#[local] Hint Resolve calm_ret calm_err calm_metrics calm_leader calm_initialized calm_stopped calm_now : cluster.

Lemma calm_secret app given : calm (validate_secret app given).
Proof. unfold validate_secret. destruct given; [destruct (bool_decide _)|]; auto with cluster. Qed.
Lemma calm_payload {A} (body : option A) : calm (get_payload body).
Proof. destruct body; simpl; auto with cluster. Qed.
Lemma calm_running t e : calm (ensure_running t e).
Proof.
  apply calm_bind; [auto with cluster|]. intros []; [auto with cluster|].
  apply calm_bind; [auto with cluster|]. intros []; auto with cluster.
Qed.
Lemma calm_are_we_leader app t : calm (are_we_leader app t).
Proof.
  apply calm_bind; [auto with cluster|]. intros [id|]; [|auto with cluster]. destruct (id =? _); [auto with cluster|].
  apply calm_bind; [auto with cluster|]. intros m. destruct (nodes _ !! id); auto with cluster.
Qed.
#[local] Hint Resolve calm_secret calm_payload calm_running calm_are_we_leader : cluster.

(** ** Polling ends *)

(** A poll has seen what it waited for. *)
Definition observed (t : RaftType) (is_done : Membership -> bool) (w : W) : Prop :=
  exists w0 m, metrics_now t w0 = (m, w) /\ is_done (membership_config m) = true.

Lemma poll_commit_spec app t start is_done fuel : forall w r w',
  start <= clock w <= start + MEMBERSHIP_COMMIT_TIMEOUT -> start + MEMBERSHIP_COMMIT_TIMEOUT < clock w + 500 * Z.of_nat fuel ->
  poll_commit app fuel t start is_done w = (r, w') -> settled r /\ idle w w' /\ (r = Ok tt -> observed t is_done w').
Proof.
  induction fuel as [|fuel IH]; intros w r w' Hc Hf; [lia|]. cbn [poll_commit]. step_st.
  destruct (get_raft_metrics t w) as [[m|e| |] w1] eqn:E; pose proof (calm_metrics t _ _ _ E) as [Hs1 Hi1]; try done; [|by intros [= <- <-]].
  destruct (is_done (membership_config m)) eqn:Ed.
  { intros [= <- <-]. split; [done|]. split; [done|]. intros _. exists w, m. split; [|done].
    destruct t; [| |done]; unfold get_raft_metrics, on_world in E; destruct (metrics_now _ w) eqn:Em; by simplify_eq. }
  unfold wait at 1. pose proof (sleep_ok 500 w1 ltac:(lia)) as [Hss Hsc]. set (w2 := sleep 500 w1) in *.
  destruct (are_we_leader app t w2) as [[[]|e| |] w3] eqn:El; pose proof (calm_are_we_leader app t _ _ _ El) as [Hs3 Hi3]; try done;
    assert (idle w w3) as Hi by (destruct Hi1, Hi3; split; [congruence|lia]); [|by intros [= <- <-]].
  unfold now. cbn iota beta. destruct (Z.ltb_spec MEMBERSHIP_COMMIT_TIMEOUT (clock w3 - start)) as [Hlt|Hge]; [by intros [= <- <-]|].
  intros Hr. destruct Hi1, Hi3. apply IH in Hr as (Hs & Hi4 & Ho); [|lia|lia]. split; [done|]. split; [by etrans|done].
Qed.
Lemma wait_commit_spec app t is_done w r w' : wait_for_membership_commit app POLLS t is_done w = (r, w') ->
  settled r /\ idle w w' /\ (r = Ok tt -> observed t is_done w').
Proof. unfold wait_for_membership_commit, now. step_st. apply poll_commit_spec; unfold MEMBERSHIP_COMMIT_TIMEOUT, POLLS; lia. Qed.
Lemma calm_commit app t is_done : calm (wait_for_membership_commit app POLLS t is_done).
Proof. intros w r w' Hr. apply wait_commit_spec in Hr as (Hs & Hi & _). done. Qed.

Lemma poll_demotion_spec t start fuel : forall w r w',
  start <= clock w <= start + DEMOTION_TIMEOUT -> start + DEMOTION_TIMEOUT < clock w + 250 * Z.of_nat fuel ->
  poll_demotion fuel t start w = (r, w') -> settled r /\ idle w w'.
Proof.
  induction fuel as [|fuel IH]; intros w r w' Hc Hf; [lia|]. cbn [poll_demotion]. step_st.
  destruct (get_raft_metrics t w) as [[m|e| |] w1] eqn:E; pose proof (calm_metrics t _ _ _ E) as [Hs1 Hi1]; try done; [|by intros [= <- <-]].
  destruct (bool_decide _); [by intros [= <- <-]|].
  unfold wait at 1. pose proof (sleep_ok 250 w1 ltac:(lia)) as [Hss Hsc]. set (w2 := sleep 250 w1) in *.
  assert (idle w w2) as Hi by (destruct Hi1; split; [congruence|lia]). unfold now. cbn iota beta.
  destruct (Z.ltb_spec DEMOTION_TIMEOUT (clock w2 - start)); [by intros [= <- <-]|].
  intros Hr. destruct Hi1. apply IH in Hr as (Hs & Hi4); [|lia|lia]. split; [done|by etrans].
Qed.
Lemma calm_demotion t : calm (wait_for_demotion t).
Proof.
  intros w r w'. unfold wait_for_demotion, now. step_st. apply poll_demotion_spec; unfold DEMOTION_TIMEOUT, DEMOTION_POLLS; lia.
Qed.
#[local] Hint Resolve calm_commit calm_demotion : cluster.

(** ** What is submitted *)

(** A command that openraft never answers *)
Definition command_hangs : Prop := exists t c (w w' : W), submit t c w = (OutOfFuel, w').
Definition ends {A} (r : Res ApiError A) : Prop :=
  match r with Ok _ | Err _ => True | OutOfFuel => command_hangs | Panic => False end.
Lemma settled_ends {A} (r : Res ApiError A) : settled r -> ends r.
Proof. by destruct r. Qed.

(** [m] returns unless a command hangs, and submits a list of commands that depends on the
    result *)
Definition submits {A} (t : RaftType) (P : Res ApiError A -> list Command -> Prop) (m : RSt A) : Prop :=
  forall w r w', m w = (r, w') -> ends r /\ clock w <= clock w' /\ exists l, sent w' = sent w ++ ((t,.) <$> l) /\ P r l.

Lemma calm_submits {A} t P (m : RSt A) : calm m -> (forall r, P r []) -> submits t P m.
Proof. intros Hm HP w r w' Hr. apply Hm in Hr as [Hs [Hi Hc]]. split; [by apply settled_ends|]. split; [done|]. exists []. by rewrite app_nil_r. Qed.

(** After a quiet beginning; an error there ends with nothing submitted. *)
Lemma calm_then {A B} t (P : Res ApiError B -> list Command -> Prop) (m : RSt A) (k : A -> RSt B) :
  calm m -> (forall a, submits t P (k a)) -> (forall e, P (Err e) []) -> submits t P (m ≫= k).
Proof.
  intros Hm Hk He w r w'. step_st. destruct (m w) as [[a|e| |] w1] eqn:E; apply Hm in E as [Hs [Hi Hc]]; try done.
  - intros Hr. apply Hk in Hr as (Hs2 & Hc2 & l & Hl & Hp). split; [done|]. split; [lia|]. exists l. by rewrite Hl, Hi.
  - intros [= <- <-]. split; [done|]. split; [done|]. exists []. by rewrite app_nil_r.
Qed.
(** Before a quiet end *)
Lemma then_calm {A B} t (P : Res ApiError A -> list Command -> Prop) (Q : Res ApiError B -> list Command -> Prop) (m : RSt A) (k : A -> RSt B) :
  submits t P m -> (forall a, calm (k a)) -> (forall a r l, P (Ok a) l -> Q r l) -> (forall e l, P (Err e) l -> Q (Err e) l) ->
  (forall l, P OutOfFuel l -> Q OutOfFuel l) -> submits t Q (m ≫= k).
Proof.
  intros Hm Hk Hok Herr Hfuel w r w'. step_st. destruct (m w) as [[a|e| |] w1] eqn:E; apply Hm in E as (Hs & Hc & l & Hl & Hp); try done.
  - intros Hr. apply Hk in Hr as [Hs2 [Hi2 Hc2]]. split; [by apply settled_ends|]. split; [lia|]. exists l. rewrite Hi2. eauto.
  - intros [= <- <-]. split; [done|]. split; [done|]. eauto.
  - intros [= <- <-]. split; [done|]. split; [done|]. eauto.
Qed.

(** One command: submitted when it succeeds, perhaps when it fails *)
Definition once (c : Command) {A} (r : Res ApiError A) (l : list Command) : Prop := l = [c] \/ l = [] /\ forall a, r <> Ok a.
Lemma command_once t c : submits t (once c) (raft_command t c).
Proof.
  destruct t; [| |intros w r w' [= <- <-]; split; [done|]; split; [done|]; exists []; rewrite app_nil_r; split; [done|by right]].
  all: intros w r w' Hr; assert (ends r) as He by (pose proof (submit_ok _ _ _ _ _ Hr) as (Hs & _); destruct r; try done; by do 4 eexists).
  all: apply submit_ok in Hr as (Hs & Hc & [Hx|[Hx Hn]]); (split; [done|]); (split; [done|]).
  1,3: exists [c]; split; [done|by left].
  all: exists []; rewrite app_nil_r; split; [done|]; right; split; [done|]; by intros [].
Qed.
Lemma try_command t c : submits t (fun (r : Res ApiError (option ApiError)) l => l = [c] \/ l = []) (st_try (raft_command t c)).
Proof.
  intros w r w'. unfold st_try. destruct (raft_command t c w) as [[[]|e| |] w1] eqn:E; apply command_once in E as (Hs & Hc & l & Hl & Hp);
    try done; intros [= <- <-]; (split; [done|]); (split; [done|]); exists l; (split; [done|]); destruct Hp as [-> |[-> _]]; auto.
Qed.
Lemma submits_weaken {A} t (P Q : Res ApiError A -> list Command -> Prop) m : submits t P m -> (forall r l, P r l -> Q r l) -> submits t Q m.
Proof. intros Hm HPQ w r w' Hr. apply Hm in Hr as (Hs & Hc & l & Hl & Hp). eauto 10. Qed.
Lemma submits_bind {A B} t (P : Res ApiError A -> list Command -> Prop) (Q R : Res ApiError B -> list Command -> Prop) (m : RSt A) (k : A -> RSt B) :
  submits t P m -> (forall a, submits t Q (k a)) -> (forall a r l l', P (Ok a) l -> Q r l' -> R r (l ++ l')) ->
  (forall e l, P (Err e) l -> R (Err e) l) -> (forall l, P OutOfFuel l -> R OutOfFuel l) -> submits t R (m ≫= k).
Proof.
  intros Hm Hk Hok Herr Hfuel w r w'. step_st. destruct (m w) as [[a|e| |] w1] eqn:E; apply Hm in E as (Hs & Hc & l & Hl & Hp); try done.
  - intros Hr. apply Hk in Hr as (Hs2 & Hc2 & l2 & Hl2 & Hp2). split; [done|]. split; [lia|]. exists (l ++ l2).
    rewrite Hl2, Hl, fmap_app, app_assoc. eauto.
  - intros [= <- <-]. split; [done|]. split; [done|]. eauto.
  - intros [= <- <-]. split; [done|]. split; [done|]. eauto.
Qed.

(** ** The endpoints *)

(** What leaving submits, in this order, for the membership it has read *)
Definition leave_plan (app : App) (payload : ClusterLeaveReq) (mc : Membership) : list Command :=
  let id := leave_id payload in
  let self := id =? app_id app in
  if is_node id mc then
    if is_voter id mc then
      Change (RemoveVoters {[id]}) (self || stay_as_learner payload) ::
      (if self && negb (stay_as_learner payload) then [Change (RemoveNodes {[id]}) false] else [])
    else if negb (stay_as_learner payload) then [Change (RemoveNodes {[id]}) false] else []
  else [].

(** Some first commands of a plan, at least one if there is any and the call succeeds *)
Definition follows (plan : list Command) {A} (r : Res ApiError A) (l : list Command) : Prop :=
  l `prefix_of` plan /\ (forall a, r = Ok a -> plan <> [] -> l <> []).
Lemma follows_nil plan {A} e : follows plan (Err e : Res ApiError A) [].
Proof. split; [apply prefix_nil|done]. Qed.
Lemma follows_empty {A} (r : Res ApiError A) : follows [] r [].
Proof. split; [done|done]. Qed.

(** A command, a wait for its commit, and a best-effort second command *)
Lemma command_follows {A B} t c tail (m : RSt A) (k : A -> RSt B) :
  calm m -> (forall a, submits t (fun _ l => l `prefix_of` tail) (k a)) ->
  submits t (follows (c :: tail)) (raft_command t c ;; a ← m; k a).
Proof.
  intros Hm Hk. apply (submits_bind t (once c) (fun _ l => l `prefix_of` tail)).
  - apply command_once.
  - intros []. apply calm_then; [done|done|]. intros e. apply prefix_nil.
  - intros [] r l l' [-> |[-> Hn]] Hp; [|by destruct (Hn tt)]. split; [by apply prefix_cons|done].
  - intros e l [-> |[-> Hn]]; [|apply follows_nil]. split; [apply prefix_cons, prefix_nil|done].
  - intros l [-> |[-> Hn]]; (split; [|done]); [apply prefix_cons, prefix_nil|apply prefix_nil].
Qed.

Lemma leave_rest app t payload m : submits t (follows (leave_plan app payload (membership_config m)))
  ((if is_node (leave_id payload) (membership_config m) then
     if is_voter (leave_id payload) (membership_config m) then
       remove_voter t (leave_id payload) ((leave_id payload =? app_id app) || stay_as_learner payload) ;;
       wait_for_membership_commit app POLLS t (fun mc => negb (is_voter (leave_id payload) mc)) ;;
       if (leave_id payload =? app_id app) && negb (stay_as_learner payload) then st_try (remove_learner t (leave_id payload)) ;; wait_for_demotion t else mret tt
     else if negb (stay_as_learner payload) then
       remove_learner t (leave_id payload) ;; wait_for_membership_commit app POLLS t (fun mc => negb (is_node (leave_id payload) mc))
     else mret tt
   else mret tt) : RSt unit).
Proof.
  unfold leave_plan. destruct (is_node _ _); [|apply calm_submits; [apply calm_ret|intros; apply follows_empty]].
  destruct (is_voter _ _).
  - apply command_follows; [auto with cluster|]. intros _. destruct (_ && _).
    + eapply then_calm; [apply try_command|auto with cluster|intros a r l [-> | ->]|intros e l [-> | ->]|intros l [-> | ->]]; first [done|apply prefix_nil].
    + apply calm_submits; [apply calm_ret|done].
  - destruct (negb _); [|apply calm_submits; [apply calm_ret|intros; apply follows_empty]].
    eapply then_calm; [apply command_once|auto with cluster| | |].
    + intros [] r l [-> |[-> Hn]]; [|by destruct (Hn tt)]. by split.
    + intros e l [-> |[-> _]]; [by split|apply follows_nil].
    + intros l [-> |[-> _]]; (split; [|done]); [done|apply prefix_nil].
Qed.

Lemma leave_submits app t payload w r w' : leave_cluster_exec app t payload w = (r, w') -> t <> Unknown ->
  ends r /\ clock w <= clock w' /\
  exists l, sent w' = sent w ++ ((t,.) <$> l) /\ follows (leave_plan app payload (membership_config (metrics_now t w).1)) r l.
Proof.
  unfold leave_cluster_exec. intros Hr Ht. unfold mbind at 1, st_bind at 1 in Hr.
  destruct (get_raft_metrics t w) as [rm w1] eqn:E. pose proof (calm_metrics t _ _ _ E) as [_ [Hs1 Hc1]].
  assert (rm = Ok (metrics_now t w).1) as ->.
  { destruct t; [| |done]; unfold get_raft_metrics, on_world in E; destruct (metrics_now _ w); by injection E as <- _. }
  set (m := (metrics_now t w).1) in *.
  pose proof (then_calm t _ (follows (leave_plan app payload (membership_config m))) _ (fun _ => get_raft_metrics t ;; mret tt) (leave_rest app t payload m)) as Hrest.
  destruct (Hrest ltac:(intros; apply calm_bind; auto with cluster)) with (w := w1) (r := r) (w' := w') as (Hs & Hc & l & Hl & Hp).
  - intros [] r' l [Hp Hn]. split; [done|]. intros [] _. by apply (Hn tt).
  - intros e l [Hp _]. by split.
  - intros l [Hp _]. by split.
  - exact Hr.
  - split; [done|]. split; [lia|]. exists l. by rewrite Hl, Hs1.
Qed.

(** A guarded endpoint *)
Lemma guarded {A B} app t secret e (body : option A) (k : A -> RSt B) (P : Res ApiError B -> list Command -> Prop) :
  (forall a, submits t P (k a)) -> (forall e, P (Err e) []) ->
  submits t P (validate_secret app secret ;; ensure_running t e ;; are_we_leader app t ;; a ← get_payload body; k a).
Proof.
  intros Hk He. repeat (apply calm_then; [auto with cluster| |done]; intros ?). apply Hk.
Qed.

(** The leader is never removed while openraft needs it in the membership. *)
Definition keeps_leader (app : App) (c : Command) : Prop :=
  match c with
  | Change (RemoveVoters s) false => app_id app ∉ s
  | Change (ReplaceAllVoters s) false => app_id app ∈ s
  | _ => True
  end.
Lemma plan_keeps app payload mc : Forall (keeps_leader app) (leave_plan app payload mc).
Proof.
  unfold leave_plan. destruct (is_node _ _); [|constructor]. destruct (is_voter _ _).
  - constructor; [|destruct (_ && _); repeat constructor]. simpl. destruct (Z.eqb_spec (leave_id payload) (app_id app)); [done|].
    destruct (stay_as_learner payload); [done|]. simpl. set_solver.
  - destruct (negb _); repeat constructor.
Qed.
Lemma prefix_Forall {A} (P : A -> Prop) l l' : l `prefix_of` l' -> Forall P l' -> Forall P l.
Proof. intros [k ->] [Hl _]%Forall_app. done. Qed.

Definition safe (app : App) {A} (r : Res ApiError A) (l : list Command) : Prop := Forall (keeps_leader app) l.

Lemma add_learner_safe app t secret body : submits t (safe app) (add_learner app t secret body).
Proof.
  apply guarded; [|constructor]. intros node. eapply then_calm; [apply command_once| | | |].
  - intros _. apply calm_bind; [auto with cluster|]. intros _. by apply calm_wait.
  - intros [] r l [-> |[-> _]]; repeat constructor.
  - intros e l [-> |[-> _]]; repeat constructor.
  - intros l [-> |[-> _]]; repeat constructor.
Qed.
Lemma become_member_safe app t secret body : submits t (safe app) (become_member app t secret body).
Proof.
  apply guarded; [|constructor]. intros payload. apply calm_then; [auto with cluster| |constructor]. intros m.
  destruct (is_voter _ _); [apply calm_submits; [apply calm_ret|constructor]|]. eapply then_calm; [apply command_once| | | |].
  - intros _. apply calm_bind; [auto with cluster|]. intros _. by apply calm_wait.
  - intros [] r l [-> |[-> _]]; repeat constructor.
  - intros e l [-> |[-> _]]; repeat constructor.
  - intros l [-> |[-> _]]; repeat constructor.
Qed.
Lemma remove_learners_safe app t ids : submits t (safe app) (remove_learners t ids).
Proof.
  induction ids as [|id ids IH]; cbn [remove_learners]; [apply calm_submits; [apply calm_ret|constructor]|].
  eapply submits_bind; [apply try_command|intros _; exact IH| | |].
  - intros a r l l' [-> | ->] Hl; [|done]. by constructor.
  - intros e l [-> | ->]; repeat constructor.
  - intros l [-> | ->]; repeat constructor.
Qed.
Lemma post_membership_safe app t secret body : submits t (safe app) (post_membership app t secret body).
Proof.
  apply guarded; [|constructor]. intros payload. apply calm_then; [auto with cluster| |constructor]. intros m. cbv zeta.
  eapply submits_bind; [apply command_once| | | |].
  - intros _. instantiate (1 := safe app). destruct (negb _); [|apply calm_submits; [apply calm_ret|constructor]].
    eapply then_calm; [apply remove_learners_safe| |done|done|done]. intros _. destruct (bool_decide _); auto with cluster.
  - intros [] r l l' [-> |[-> _]] Hl; [|done]. constructor; [|done]. simpl. destruct (bool_decide_reflect (app_id app ∈ payload)); done.
  - intros e l [-> |[-> _]]; [|constructor]. repeat constructor. simpl. destruct (bool_decide_reflect (app_id app ∈ payload)); done.
  - intros l [-> |[-> _]]; [|constructor]. repeat constructor. simpl. destruct (bool_decide_reflect (app_id app ∈ payload)); done.
Qed.
Lemma leave_cluster_safe app t secret body : submits t (safe app) (leave_cluster app t secret body).
Proof.
  apply guarded; [|constructor]. intros payload w r w' Hr. destruct (decide (t = Unknown)) as [-> |Ht].
  - cbv in Hr. unfold leave_cluster_exec, get_raft_metrics, unknown_raft in Hr. injection Hr as <- <-. split; [done|]. split; [lia|]. exists []. split; [by rewrite app_nil_r|constructor].
  - apply leave_submits in Hr as (Hs & Hc & l & Hl & [Hp _]); [|done]. split; [done|]. split; [done|]. exists l. split; [done|].
    eapply prefix_Forall; [done|apply plan_keeps].
Qed.
End Spec.
#[export] Hint Resolve calm_ret calm_err calm_metrics calm_leader calm_initialized calm_stopped calm_now
  calm_secret calm_payload calm_running calm_are_we_leader calm_commit calm_demotion : cluster.
