(* ===== verification/ClusterInit.v ===== *)
(** Joining and leaving a cluster at start and at shutdown: [hiqlite/src/init.rs].

    The loops that wait for other nodes have a fuel of rounds; they are not bounded in
    the source either.  [is_remote_cluster_member] and [leave_remote_cluster] always
    end. *)
From stdpp Require Import base gmap strings list numbers.
From Stdlib Require Import Strings.Byte.
From S2P Require Import Prelude SqlRows NetBase ClusterBase ClusterMgmt ClusterSpec.
Import Net Cluster.

#[local] Open Scope Z_scope.

Module Init.

Inductive SkipBecome : Type := Yes | No.

Section Init.
Context {W : Type} `{RaftNode W} `{ClusterHttp W}.
Abbreviation RSt := (St ApiError W).

(** [get_this_node] *)
Definition get_this_node (this_node : Z) (ns : list Node) : RSt Node :=
  match list_find (fun n => node_id n = this_node) ns with
  | Some (_, n) => mret n
  | None => st_err Config
  end.

(** [is_initialized_timeout_sqlite], [is_initialized_timeout_cache]: wait for five
    heartbeats *)
Definition has_any_nodes (t : RaftType) (id : Z) : RSt bool :=
  m ← on_world (metrics_now t); mret (is_node id (membership_config m)).
Definition is_initialized_timeout (t : RaftType) (heartbeat : Z) (id : Z) : RSt bool :=
  i ← is_initialized t;
  a ← (if (i : bool) then has_any_nodes t id else mret false);
  if (a : bool) then mret true
  else wait (heartbeat * 5) ;;
       i ← is_initialized t;
       if (i : bool) then has_any_nodes t id else mret false.

(** [should_node_1_skip_init]: one pass over the nodes; [inl]: the function returns *)
Fixpoint ask_membership (t : RaftType) (quorum : nat) (ns : list Node) (skip_nodes : list Z) : RSt (bool + list Z) :=
  match ns with
  | [] => mret (inr skip_nodes)
  | n :: ns =>
      if bool_decide (node_id n ∈ skip_nodes) then ask_membership t quorum ns skip_nodes
      else
        r ← on_world (req_membership t n);
        let next (skip : list Z) : RSt (bool + list Z) :=
          if Nat.leb quorum (length skip) then mret (inl false) else ask_membership t quorum ns skip in
        match r with
        | NoBody _ e => st_err e
        | Success None => st_err (Other EBincode)
        | Success (Some m) => if bool_decide (nodes m = ∅) then st_panic else mret (inl true)
        | Failure None => st_err (Other EBadRequest)
        | Failure (Some _) => next (skip_nodes ++ [node_id n])
        | NoConnection => next skip_nodes
        end
  end.
Fixpoint skip_loop (fuel : nat) (t : RaftType) (quorum : nat) (ns : list Node) (skip_nodes : list Z) : RSt bool :=
  match fuel with
  | O => st_lift OutOfFuel
  | S fuel =>
      r ← ask_membership t quorum ns skip_nodes;
      match r with
      | inl b => mret b
      | inr skip => wait 1000 ;; skip_loop fuel t quorum ns skip
      end
  end.
Definition should_node_1_skip_init (fuel : nat) (t : RaftType) (ns : list Node) : RSt bool :=
  if Nat.ltb (length ns) 2 then mret false
  else skip_loop fuel t (length ns / 2) ns [1].

(** [init_pristine_node_1_db], [init_pristine_node_1_cache]: the cache only looks at its
    own state when its WAL is on disk. *)
Definition init_pristine_node_1 (fuel : nat) (t : RaftType) (wal_on_disk : bool) (heartbeat : Z) (id : Z) (ns : list Node) : RSt unit :=
  if negb (id =? 1) then mret tt
  else
    this_node ← get_this_node id ns;
    i ← (if wal_on_disk then is_initialized_timeout t heartbeat id else mret false);
    if (i : bool) then mret tt
    else s ← should_node_1_skip_init fuel t ns;
         if (s : bool) then mret tt else submit t (Initialize this_node).

(** [is_remote_cluster_member]: one pass; [inl]: the function returns *)
Fixpoint member_pass (t : RaftType) (quorum : nat) (this_node : Z) (ns : list Node) (not_initialized : nat) : RSt (bool + nat) :=
  match ns with
  | [] => mret (inr not_initialized)
  | n :: ns =>
      if node_id n =? this_node then member_pass t quorum this_node ns not_initialized
      else if Nat.leb quorum not_initialized then mret (inl false)
      else
        r ← on_world (req_metrics t n);
        match r with
        | NoConnection => wait 500 ;; member_pass t quorum this_node ns not_initialized
        | NoBody true _ | Success None => wait 1000 ;; member_pass t quorum this_node ns not_initialized
        | Success (Some m) => mret (inl (is_node this_node (membership_config m)))
        | NoBody false _ | Failure _ => wait 1000 ;; member_pass t quorum this_node ns (S not_initialized)
        end
  end.
Definition is_remote_cluster_member (t : RaftType) (this_node : Z) (ns : list Node) : RSt bool :=
  let quorum := (length ns / 2)%nat in
  r ← member_pass t quorum this_node ns 0;
  match r with
  | inl b => mret b
  | inr k => r ← member_pass t quorum this_node ns k;
             match r with inl b => mret b | inr _ => mret false end
  end.

(** [leave_remote_cluster]: asking every node to remove this one, *)
Fixpoint leave_pass (t : RaftType) (this_node : Z) (ns : list Node) : RSt bool :=
  match ns with
  | [] => mret false
  | n :: ns =>
      if node_id n =? this_node then leave_pass t this_node ns
      else r ← on_world (req_leave t n);
           match r with
           | Success _ | NoBody true _ => mret true
           | _ => leave_pass t this_node ns
           end
  end.
Fixpoint leave_rounds (rounds : nat) (t : RaftType) (this_node : Z) (ns : list Node) : RSt bool :=
  match rounds with
  | O => mret false
  | S rounds => l ← leave_pass t this_node ns;
                if (l : bool) then mret true else wait 3000 ;; leave_rounds rounds t this_node ns
  end.
(** and looking for a node that no longer has it *)
Fixpoint confirm_pass (t : RaftType) (this_node : Z) (ns : list Node) : RSt bool :=
  match ns with
  | [] => mret false
  | n :: ns =>
      if node_id n =? this_node then confirm_pass t this_node ns
      else r ← on_world (req_metrics t n);
           match r with
           | NoConnection | Failure _ | NoBody false _ => confirm_pass t this_node ns
           | NoBody true e => st_err e
           | Success None => st_err (Other EBincode)
           | Success (Some m) =>
               if is_node this_node (membership_config m) then wait 1000 ;; confirm_pass t this_node ns else mret true
           end
  end.
Fixpoint confirm_rounds (rounds : nat) (t : RaftType) (this_node : Z) (ns : list Node) : RSt unit :=
  match rounds with
  | O => mret tt
  | S rounds => c ← confirm_pass t this_node ns;
                if (c : bool) then mret tt else wait 1000 ;; confirm_rounds rounds t this_node ns
  end.
Definition leave_remote_cluster (t : RaftType) (this_node : Z) (ns : list Node) (retries : nat) : RSt unit :=
  left_cluster ← leave_rounds (retries + 1) t this_node ns;
  if negb left_cluster then st_err Connect else confirm_rounds (retries + 1) t this_node ns.

(** [try_become]: one pass; [None]: no node has answered yet *)
Fixpoint become_pass (s : Suffix) (t : RaftType) (this_node : Z) (ns : list Node) : RSt (option SkipBecome) :=
  match ns with
  | [] => mret None
  | n :: ns =>
      if node_id n =? this_node then become_pass s t this_node ns
      else
        r ← on_world (req_become s t n);
        match r with
        | Success _ | NoBody true _ => mret (Some No)
        | NoBody false _ | Failure None | NoConnection => wait 500 ;; become_pass s t this_node ns
        | Failure (Some e) =>
            match is_forward_to_leader e with
            | Some (mkForward (Some leader) (Some _)) =>
                if leader =? this_node then
                  i ← is_raft_initialized t;
                  if (i : bool) then mret (Some Yes) else st_panic
                else wait 500 ;; become_pass s t this_node ns
            | _ => wait 500 ;; become_pass s t this_node ns
            end
        end
  end.
Fixpoint try_become (fuel : nat) (s : Suffix) (t : RaftType) (this_node : Z) (ns : list Node) (check_init : bool) : RSt SkipBecome :=
  match fuel with
  | O => st_lift OutOfFuel
  | S fuel =>
      i ← (if check_init then is_raft_initialized t else mret false);
      if (i : bool) then mret Yes
      else r ← become_pass s t this_node ns;
           match r with Some skip => mret skip | None => try_become fuel s t this_node ns check_init end
  end.

(** [while !are_we_learner], [while !are_we_voter] *)
Fixpoint await_membership (fuel : nat) (t : RaftType) (is_done : Membership -> bool) : RSt unit :=
  match fuel with
  | O => st_lift OutOfFuel
  | S fuel => m ← get_raft_metrics t;
              if is_done (membership_config m) then mret tt else wait 1000 ;; await_membership fuel t is_done
  end.
(** The wait for a leader after a restart: five rounds at most *)
Fixpoint await_leader (rounds : nat) (t : RaftType) (this_node : Z) (m : Metrics) : RSt unit :=
  match rounds with
  | O => mret tt
  | S rounds =>
      match current_leader m with
      | Some id => if negb (id =? this_node) then mret tt else wait 1000 ;; m ← get_raft_metrics t; await_leader rounds t this_node m
      | None => wait 1000 ;; m ← get_raft_metrics t; await_leader rounds t this_node m
      end
  end.

(** [set_raft_running] *)
Definition set_raft_running (t : RaftType) : RSt unit := match t with Unknown => st_panic | _ => fun w => (Ok tt, set_running t w) end.

(** [become_cluster_member] *)
Definition become_cluster_member (fuel : nat) (app : App) (t : RaftType) (this_node : Z) (ns : list Node) : RSt unit :=
  i ← is_raft_initialized t;
  if (i : bool) then
    set_raft_running t ;;
    if Nat.ltb 1 (length ns) then wait 1000 ;; m ← get_raft_metrics t; await_leader 5 t this_node m else mret tt
  else
    r ← is_remote_cluster_member t this_node ns;
    (if (r : bool) then leave_remote_cluster t this_node ns 10 else mret tt) ;;
    set_raft_running t ;;
    n ← get_this_node this_node ns;
    skip ← try_become fuel Add_learner t (node_id n) ns true;
    match skip with
    | Yes => mret tt
    | No =>
        await_membership fuel t (is_node (app_id app)) ;;
        if learner_only app then mret tt
        else try_become fuel Become_member t (node_id n) ns false ;;
             await_membership fuel t (is_voter (app_id app))
    end.

(** [check_execute_reset]: what is removed, and whether to reset *)
Definition reset_paths (base_path : string) : list string :=
  [base_path +:+ "/logs"; base_path +:+ "/logs_cache"; base_path +:+ "/state_machine/snapshots";
   base_path +:+ "/state_machine_cache/snapshots"; base_path +:+ "/state_machine_cache/cache_index.meta"].
Definition check_execute_reset (base_path : string) (var : option string) : Res ApiError (bool * list string) :=
  match default "false" var with
  | "false" => Ok (false, [])
  | "true" => Ok (true, reset_paths base_path)
  | _ => Panic
  end.
End Init.
End Init.

(** * What is submitted and seen, and which loops end *)
Import Net Cluster Mgmt Init.

#[local] Open Scope Z_scope.

Section InitSpec.
Context {W : Type} `{RaftNode W} `{RaftLog W} `{!RaftNodeOk (W := W)} `{ClusterHttp W} `{!ClusterHttpOk (W := W)}.
Abbreviation RSt := (St ApiError W).

(** A computation that submits nothing, whatever its result *)
Definition still {A} (m : RSt A) : Prop := forall w r w', m w = (r, w') -> idle w w'.
Lemma calm_still {A} (m : RSt A) : calm m -> still m.
Proof. intros Hm w r w' Hr. by destruct (Hm _ _ _ Hr). Qed.
Lemma still_bind {A B} (m : RSt A) (k : A -> RSt B) : still m -> (forall a, still (k a)) -> still (m ≫= k).
Proof.
  intros Hm Hk w r w'. step_st. destruct (m w) as [[a|e| |] w1] eqn:E; apply Hm in E; [|by intros [= <- <-]..].
  intros Hr. apply Hk in Hr. by etrans.
Qed.
Lemma still_lift {A} (r : Res ApiError A) : still (st_lift r).
Proof. by intros w r' w' [= <- <-]. Qed.

(** ** Requests and waits *)
Lemma calm_req_membership t n : calm (on_world (req_membership t n)).
Proof. apply calm_on_world. eauto using req_membership_ok. Qed.
Lemma calm_req_metrics t n : calm (on_world (req_metrics t n)).
Proof. apply calm_on_world. eauto using req_metrics_ok. Qed.
Lemma calm_req_become s t n : calm (on_world (req_become s t n)).
Proof. apply calm_on_world. eauto using req_become_ok. Qed.
Lemma calm_req_leave t n : calm (on_world (req_leave t n)).
Proof. apply calm_on_world. eauto using req_leave_ok. Qed.
Lemma calm_pause d {A} (m : RSt A) : 0 <= d -> calm m -> calm (wait d ;; m).
Proof. intros Hd Hm. apply calm_bind; [by apply calm_wait|done]. Qed.
#[local] Hint Resolve calm_req_membership calm_req_metrics calm_req_become calm_req_leave calm_pause : cluster.

Lemma calm_member_pass t quorum this ns : forall k, calm (member_pass t quorum this ns k).
Proof.
  induction ns as [|n ns IH]; intros k; cbn [member_pass]; [auto with cluster|].
  destruct (node_id n =? this); [done|]. destruct (Nat.leb quorum k); [auto with cluster|].
  apply calm_bind; [auto with cluster|]. intros [|[] ?|[]|]; try (by apply calm_pause; [lia|]); auto with cluster.
Qed.
Lemma calm_remote_member t this ns : calm (is_remote_cluster_member t this ns).
Proof.
  apply calm_bind; [apply calm_member_pass|]. intros [b|k]; [auto with cluster|].
  apply calm_bind; [apply calm_member_pass|]. intros [b|k']; auto with cluster.
Qed.
Lemma calm_leave_pass t this ns : calm (leave_pass t this ns).
Proof.
  induction ns as [|n ns IH]; cbn [leave_pass]; [auto with cluster|]. destruct (node_id n =? this); [done|].
  apply calm_bind; [auto with cluster|]. intros [|[] ?| |]; auto with cluster.
Qed.
Lemma calm_leave_rounds k t this ns : calm (leave_rounds k t this ns).
Proof.
  induction k as [|k IH]; cbn [leave_rounds]; [auto with cluster|]. apply calm_bind; [apply calm_leave_pass|].
  intros []; [auto with cluster|]. by apply calm_pause.
Qed.
Lemma calm_confirm_pass t this ns : calm (confirm_pass t this ns).
Proof.
  induction ns as [|n ns IH]; cbn [confirm_pass]; [auto with cluster|]. destruct (node_id n =? this); [done|].
  apply calm_bind; [auto with cluster|]. intros [|[] ?|[m|]|]; auto with cluster.
  destruct (is_node _ _); [by apply calm_pause|auto with cluster].
Qed.
Lemma calm_confirm_rounds k t this ns : calm (confirm_rounds k t this ns).
Proof.
  induction k as [|k IH]; cbn [confirm_rounds]; [auto with cluster|]. apply calm_bind; [apply calm_confirm_pass|].
  intros []; [auto with cluster|]. by apply calm_pause.
Qed.
Lemma calm_leave_remote t this ns k : calm (leave_remote_cluster t this ns k).
Proof.
  apply calm_bind; [apply calm_leave_rounds|]. intros []; simpl; [apply calm_confirm_rounds|auto with cluster].
Qed.
Lemma calm_await_leader k t this : forall m, calm (await_leader k t this m).
Proof.
  induction k as [|k IH]; intros m; cbn [await_leader]; [auto with cluster|].
  assert (calm (wait 1000 ;; m ← get_raft_metrics t; await_leader k t this m)) as Hw.
  { apply calm_pause; [lia|]. apply calm_bind; auto with cluster. }
  destruct (current_leader m) as [id|]; [destruct (negb _)|]; auto with cluster.
Qed.

(** ** The first node *)

Lemma still_ask t quorum ns : forall skip, still (ask_membership t quorum ns skip).
Proof.
  induction ns as [|n ns IH]; intros skip; cbn [ask_membership]; [apply calm_still; auto with cluster|].
  destruct (bool_decide _); [done|]. apply still_bind; [apply calm_still; auto with cluster|].
  assert (forall s : list Z, still (if Nat.leb quorum (length s) then mret (inl false) else ask_membership t quorum ns s)) as Hn.
  { intros s. destruct (Nat.leb _ _); [apply calm_still; auto with cluster|done]. }
  intros [|b ?|[m|]|[e|]]; try (apply calm_still; auto with cluster; fail); try apply Hn.
  destruct (bool_decide _); [by intros w r w' [= <- <-]|apply calm_still; auto with cluster].
Qed.
Lemma still_skip_loop fuel t quorum ns : forall skip, still (skip_loop fuel t quorum ns skip).
Proof.
  induction fuel as [|fuel IH]; intros skip; cbn [skip_loop]; [apply still_lift|]. apply still_bind; [apply still_ask|].
  intros [b|skip']; [apply calm_still; auto with cluster|]. apply still_bind; [by apply calm_still, calm_wait|done].
Qed.
Lemma still_skip fuel t ns : still (should_node_1_skip_init fuel t ns).
Proof. unfold should_node_1_skip_init. destruct (Nat.ltb _ _); [apply calm_still; auto with cluster|apply still_skip_loop]. Qed.

(** Another node that has a membership *)
Definition reported (t : RaftType) (ns : list Node) (w : W) : Prop :=
  exists n w0 m, n ∈ ns /\ node_id n <> 1 /\ req_membership t n w0 = (Success (Some m), w) /\ nodes m <> ∅.

(** The nodes to skip only grow, and they hold the first node. *)
Definition asked_ok (t : RaftType) (ns : list Node) (w : W) (out : bool + list Z) : Prop :=
  match out with inl true => reported t ns w | inl false => True | inr skip => 1 ∈ skip end.
Lemma asked_cons t n ns w out : asked_ok t ns w out -> asked_ok t (n :: ns) w out.
Proof. destruct out as [[]|s]; try done. intros (x & w1 & m & Hx & Hr). exists x, w1, m. split; [by right|done]. Qed.
Lemma ask_reported t quorum ns : forall skip w w' out, 1 ∈ skip -> ask_membership t quorum ns skip w = (Ok out, w') -> asked_ok t ns w' out.
Proof.
  induction ns as [|n ns IH]; intros skip w w' out Hone; cbn [ask_membership]; [by intros [= <- _]|].
  assert (forall s w0, 1 ∈ s -> (if Nat.leb quorum (length s) then mret (inl false) else ask_membership t quorum ns s) w0 = (Ok out, w') -> asked_ok t (n :: ns) w' out) as Hn.
  { intros s w0 Hs. destruct (Nat.leb _ _); [by intros [= <- _]|]. intros Hr. by apply asked_cons, (IH s w0). }
  destruct (bool_decide_reflect (node_id n ∈ skip)) as [_|Hskip]; [intros Hr; by apply asked_cons, (IH skip w)|].
  step_st. unfold on_world. destruct (req_membership t n w) as [r w1] eqn:E. destruct r as [|b ?|[m|]|[e|]]; try done; [by apply Hn| |].
  - destruct (bool_decide_reflect (nodes m = ∅)); [done|]. intros [= <- <-]. exists n, w, m. split; [by left|]. split; [|done].
    intros Hid. apply Hskip. by rewrite Hid.
  - apply Hn, elem_of_app. by left.
Qed.
Lemma skip_true fuel t ns w w' : should_node_1_skip_init fuel t ns w = (Ok true, w') -> reported t ns w'.
Proof.
  unfold should_node_1_skip_init. destruct (Nat.ltb _ _); [done|]. assert (1 ∈ [1]) as Hone by apply list_elem_of_here. revert Hone. generalize [1]. revert w.
  induction fuel as [|fuel IH]; intros w skip Hone; cbn [skip_loop]; step_st; [done|].
  destruct (ask_membership t (length ns / 2) ns skip w) as [[[b|s]|e| |] w1] eqn:E; try done; pose proof (ask_reported _ _ _ _ _ _ _ Hone E) as Hr.
  - by intros [= -> ->].
  - unfold wait. by apply IH.
Qed.

Lemma calm_initialized_timeout t hb id : 0 <= hb -> calm (is_initialized_timeout t hb id).
Proof.
  intros Hb. assert (calm (is_initialized t)) as Hi by (intros w r w'; apply initialized_ok).
  assert (calm (has_any_nodes t id)) as Hn.
  { apply calm_bind; [apply calm_on_world; eauto using metrics_ok|]. auto with cluster. }
  apply calm_bind; [done|]. intros i. apply calm_bind; [destruct i; auto with cluster|]. intros []; [auto with cluster|].
  apply calm_pause; [lia|]. apply calm_bind; [done|]. intros []; auto with cluster.
Qed.

(** Only the first node initializes, with itself, and after it decided not to skip. *)
Lemma init_pristine_once fuel t disk hb id ns w r w' : 0 <= hb -> init_pristine_node_1 fuel t disk hb id ns w = (r, w') ->
  sent w' = sent w \/
  id = 1 /\ exists n w1 w2, n ∈ ns /\ node_id n = 1 /\ should_node_1_skip_init fuel t ns w1 = (Ok false, w2) /\ idle w w1 /\
    sent w' = sent w ++ [(t, Initialize n)].
Proof.
  intros Hb. unfold init_pristine_node_1. destruct (Z.eqb_spec id 1) as [-> |]; simpl; [|by intros [= <- <-]; left].
  unfold get_this_node. destruct (list_find _ ns) as [[i n]|] eqn:Ef; step_st; [|by intros [= <- <-]; left].
  apply list_find_Some in Ef as (Hl & Hn & _).
  assert (calm (if disk then is_initialized_timeout t hb 1 else mret false)) as Hc.
  { destruct disk; [by apply calm_initialized_timeout|auto with cluster]. }
  match goal with |- context [(if disk then ?a else ?b) w] => destruct ((if disk then a else b) w) as [[x|e| |] w1] eqn:E1 end;
    apply Hc in E1 as [Hs1 Hi1]; try done.
  2: { intros [= <- <-]. left. apply Hi1. }
  destruct x; [intros [= <- <-]; left; apply Hi1|].
  destruct (should_node_1_skip_init fuel t ns w1) as [[s|e| |] w2] eqn:E2; pose proof (still_skip _ _ _ _ _ _ E2) as Hi2;
    try (intros [= <- <-]; left; destruct Hi1, Hi2; congruence).
  destruct s; [intros [= <- <-]; left; destruct Hi1, Hi2; congruence|].
  intros Hr. apply submit_ok in Hr as (_ & _ & [Hx|[Hx _]]).
  - right. split; [done|]. exists n, w1, w2. split; [by eapply list_elem_of_lookup_2|]. split; [done|]. split; [done|]. split; [done|].
    destruct Hi1, Hi2. congruence.
  - left. destruct Hi1, Hi2. congruence.
Qed.

(** ** Joining *)

Lemma still_become_pass s t this ns : still (become_pass s t this ns).
Proof.
  induction ns as [|n ns IH]; cbn [become_pass]; [apply calm_still; auto with cluster|]. destruct (node_id n =? this); [done|].
  assert (still (wait 500 ;; become_pass s t this ns)) as Hw by (apply still_bind; [by apply calm_still, calm_wait|done]).
  apply still_bind; [apply calm_still; auto with cluster|].
  intros [|[] ?| |[e|]]; try done; try (apply calm_still; auto with cluster; fail).
  destruct (is_forward_to_leader e) as [[[l|] [x|]]|]; try done. destruct (l =? this); [|done].
  apply still_bind; [apply calm_still; auto with cluster|]. intros []; [apply calm_still; auto with cluster|].
  by intros w r w' [= <- <-].
Qed.
Lemma still_try_become fuel s t this ns c : still (try_become fuel s t this ns c).
Proof.
  induction fuel as [|fuel IH]; cbn [try_become]; [apply still_lift|].
  apply still_bind; [apply calm_still; destruct c; auto with cluster|]. intros []; [apply calm_still; auto with cluster|].
  apply still_bind; [apply still_become_pass|]. intros [x|]; [apply calm_still; auto with cluster|done].
Qed.
Lemma still_await fuel t d : still (await_membership fuel t d).
Proof.
  induction fuel as [|fuel IH]; cbn [await_membership]; [apply still_lift|]. apply still_bind; [apply calm_still; auto with cluster|].
  intros m. destruct (d _); [apply calm_still; auto with cluster|]. apply still_bind; [by apply calm_still, calm_wait|done].
Qed.
Lemma still_running t : still (set_raft_running t).
Proof. destruct t; intros w r w' [= <- <-]; [apply running_ok..|done]. Qed.
Lemma still_this_node this ns : still (get_this_node this ns).
Proof. apply calm_still. unfold get_this_node. destruct (list_find _ ns) as [[]|]; auto with cluster. Qed.

(** Joining submits nothing on this node. *)
Lemma still_become_member fuel app t this ns : still (become_cluster_member fuel app t this ns).
Proof.
  apply still_bind; [apply calm_still; auto with cluster|]. intros [].
  - apply still_bind; [apply still_running|]. intros _. destruct (Nat.ltb _ _); apply calm_still; [|auto with cluster].
    apply calm_pause; [lia|]. apply calm_bind; [auto with cluster|]. apply calm_await_leader.
  - apply still_bind; [apply calm_still, calm_remote_member|]. intros r.
    apply still_bind; [apply calm_still; destruct r; [apply calm_leave_remote|auto with cluster]|]. intros _.
    apply still_bind; [apply still_running|]. intros _. apply still_bind; [apply still_this_node|]. intros n.
    apply still_bind; [apply still_try_become|]. intros []; [apply calm_still; auto with cluster|].
    apply still_bind; [apply still_await|]. intros _. destruct (learner_only app); [apply calm_still; auto with cluster|].
    apply still_bind; [apply still_try_become|]. intros _. apply still_await.
Qed.

Lemma metrics_read t (w : W) m w' : get_raft_metrics t w = (Ok m, w') -> metrics_now t w = (m, w').
Proof. destruct t; [| |done]; unfold get_raft_metrics, on_world; destruct (metrics_now _ w); by intros [= <- <-]. Qed.
Lemma initialized_read t (w : W) b w' : is_raft_initialized t w = (Ok b, w') -> is_initialized t w = (Ok b, w').
Proof. by destruct t. Qed.
Lemma await_observed fuel t d w w' : await_membership fuel t d w = (Ok tt, w') -> observed t d w'.
Proof.
  revert w. induction fuel as [|fuel IH]; intros w; cbn [await_membership]; step_st; [done|].
  destruct (get_raft_metrics t w) as [[m|e| |] w1] eqn:E; try done. destruct (d (membership_config m)) eqn:Ed.
  - intros [= <-]. exists w, m. split; [by apply metrics_read|done].
  - unfold wait. apply IH.
Qed.

(** [Yes] follows a look at the own Raft. *)
Definition came_up (t : RaftType) (w : W) : Prop := exists w0, is_initialized t w0 = (Ok true, w).
Lemma become_pass_yes s t this ns : forall w w', become_pass s t this ns w = (Ok (Some Yes), w') -> came_up t w'.
Proof.
  induction ns as [|n ns IH]; intros w w'; cbn [become_pass]; [done|]. destruct (node_id n =? this); [apply IH|].
  step_st. destruct (on_world (req_become s t n) w) as [[r|e| |] w1]; try done.
  assert (forall w2, wait 500 w1 = (Ok tt, w2) -> become_pass s t this ns w2 = (Ok (Some Yes), w') -> came_up t w') as Hn by (intros w2 _; apply IH).
  destruct r as [|[] ?| |[e|]]; try done; try (unfold wait; apply IH).
  destruct (is_forward_to_leader e) as [[[l|] [x|]]|]; try (unfold wait; apply IH).
  destruct (l =? this); [|unfold wait; apply IH].
  destruct (is_raft_initialized t w1) as [[[]|e'| |] w2] eqn:E; try done. intros [= <-]. exists w1. by apply initialized_read.
Qed.
Lemma try_become_yes fuel s t this ns : forall w w', try_become fuel s t this ns true w = (Ok Yes, w') -> came_up t w'.
Proof.
  induction fuel as [|fuel IH]; intros w w'; cbn [try_become]; step_st; [done|].
  destruct (is_raft_initialized t w) as [[[]|e'| |] w2] eqn:E; try done.
  - intros [= <-]. exists w. by apply initialized_read.
  - destruct (become_pass s t this ns w2) as [[[x|]|e| |] w3] eqn:E3; try done; [|apply IH].
    intros [= -> ->]. by eapply become_pass_yes.
Qed.

(** When joining returns, the node was initialized before or has just seen that it is, or
    it sees itself in the membership, as a voter unless it stays a learner. *)
Lemma become_member_joined fuel app t this ns w w' : become_cluster_member fuel app t this ns w = (Ok tt, w') ->
  (exists w1, is_initialized t w = (Ok true, w1)) \/ came_up t w' \/
  observed t (if learner_only app then is_node (app_id app) else is_voter (app_id app)) w'.
Proof.
  unfold become_cluster_member. intros Hr. apply st_bind_inv in Hr as (i & w1 & Hi & Hr). apply initialized_read in Hi.
  destruct i; [left; by exists w1|right]. apply st_bind_inv in Hr as (r & w2 & _ & Hr). apply st_bind_inv in Hr as ([] & w3 & _ & Hr).
  apply st_bind_inv in Hr as ([] & w4 & _ & Hr). apply st_bind_inv in Hr as (n & w5 & _ & Hr). apply st_bind_inv in Hr as (skip & w6 & Hs & Hr).
  destruct skip; [left; injection Hr as <-; by eapply try_become_yes|right]. apply st_bind_inv in Hr as ([] & w7 & Ha & Hr).
  destruct (learner_only app); [injection Hr as <-; by eapply await_observed|].
  apply st_bind_inv in Hr as (x & w8 & _ & Hr). by eapply await_observed.
Qed.
(** ** What the other nodes said *)

(** The replies this node got, with the nodes they came from *)
Class ReplyLog (W : Type) : Type := { metrics_replies : W -> list (Z * Reply Metrics); leave_replies : W -> list (Z * Reply unit) }.
Class ReplyLogOk {W} `{RaftNode W} `{ClusterHttp W} `{ReplyLog W} : Prop := {
  metrics_logged : forall t n w r w', req_metrics t n w = (r, w') ->
    metrics_replies w' = metrics_replies w ++ [(node_id n, r)] /\ leave_replies w' = leave_replies w;
  leave_logged : forall t n w r w', req_leave t n w = (r, w') ->
    leave_replies w' = leave_replies w ++ [(node_id n, r)] /\ metrics_replies w' = metrics_replies w;
  sleep_silent : forall d w, metrics_replies (sleep d w) = metrics_replies w /\ leave_replies (sleep d w) = leave_replies w;
}.
Definition others (this : Z) (ns : list Node) : list Z := node_id <$> filter (fun n => node_id n <> this) ns.

(** Nodes that are asked in order until the first reply of a kind: [b] when there is one *)
Definition until {A} (stop : Reply A -> bool) (ids : list Z) (l : list (Z * Reply A)) (b : bool) : Prop :=
  if b then l.*1 `prefix_of` ids /\ exists init x, l = init ++ [x] /\ stop x.2 = true /\ Forall (fun y => stop y.2 = false) init
  else l.*1 = ids /\ Forall (fun y => stop y.2 = false) l.
Lemma until_cons {A} stop i (x : Reply A) ids l b : stop x = false -> until stop ids l b -> until stop (i :: ids) ((i, x) :: l) b.
Proof.
  intros Hx. destruct b; simpl.
  - intros [Hp (init & y & -> & Hy & Hi)]. split; [by apply prefix_cons|]. exists ((i, x) :: init), y. split; [done|]. split; [done|]. by constructor.
  - intros [<- Hl]. split; [done|]. by constructor.
Qed.
Lemma until_now {A} stop i (x : Reply A) ids : stop x = true -> until stop (i :: ids) [(i, x)] true.
Proof. intros Hx. split; [apply prefix_cons, prefix_nil|]. by exists [], (i, x). Qed.
Lemma until_app {A} (stop : Reply A -> bool) ids ids' l l' b : until stop ids l false -> until stop ids' l' b -> until stop (ids ++ ids') (l ++ l') b.
Proof.
  intros [<- Hl]. destruct b; simpl.
  - intros [Hp (init & y & -> & Hy & Hi)]. rewrite fmap_app. split; [by apply prefix_app|]. exists (l ++ init), y. rewrite app_assoc. split; [done|]. split; [done|]. by apply Forall_app.
  - intros [<- Hl']. rewrite fmap_app. split; [done|]. by apply Forall_app.
Qed.
Lemma until_more {A} (stop : Reply A -> bool) ids ids' l : until stop ids l true -> until stop (ids ++ ids') l true.
Proof. intros [Hp Hx]. split; [by apply prefix_app_r|done]. Qed.

(** A request to leave that was accepted; a look at the membership that ends the wait, and
    whether it shows that this node is gone *)
Definition accepted (r : Reply unit) : bool := match r with Success _ | NoBody true _ => true | _ => false end.
Definition conclusive (this : Z) (r : Reply Metrics) : bool :=
  match r with
  | Success (Some m) => negb (is_node this (membership_config m))
  | Success None | NoBody true _ => true
  | _ => false
  end.
Definition gone (r : Reply Metrics) : bool := match r with Success (Some _) => true | _ => false end.

(** An answer to the question for the own membership; a node that is not initialized *)
Definition answers (r : Reply Metrics) : option Membership := match r with Success (Some m) => Some (membership_config m) | _ => None end.
Definition refuses (r : Reply Metrics) : bool := match r with NoBody false _ | Failure _ => true | _ => false end.
Definition refusals (l : list (Z * Reply Metrics)) : nat := length (filter (fun x => refuses x.2 = true) l).

(** The talk of [is_remote_cluster_member], after [k] refusals: every request is made below
    the quorum of refusals; the first answer ends it, with what it says, as does the quorum;
    otherwise everyone was asked. *)
Definition member_talk (this : Z) (quorum k : nat) (ids : list Z) (l : list (Z * Reply Metrics)) (out : bool + nat) : Prop :=
  l.*1 `prefix_of` ids /\ (forall j, (j < length l)%nat -> (k + refusals (take j l) < quorum)%nat) /\
  match out with
  | inr k' => l.*1 = ids /\ Forall (fun x => answers x.2 = None) l /\ k' = (k + refusals l)%nat
  | inl b =>
      (exists init n m mc, l = init ++ [(n, m)] /\ Forall (fun x => answers x.2 = None) init /\ answers m = Some mc /\ b = is_node this mc) \/
      (b = false /\ Forall (fun x => answers x.2 = None) l /\ (quorum <= k + refusals l)%nat)
  end.

Lemma refusals_cons x l : refusals (x :: l) = ((if refuses x.2 then 1 else 0) + refusals l)%nat.
Proof. unfold refusals. rewrite filter_cons. by destruct (refuses x.2). Qed.
Lemma refusals_app l l' : refusals (l ++ l') = (refusals l + refusals l')%nat.
Proof. unfold refusals. by rewrite list.filter_app, length_app. Qed.
Lemma talk_cons this quorum k i x ids l out : (k < quorum)%nat -> answers x = None ->
  member_talk this quorum (if refuses x then S k else k) ids l out -> member_talk this quorum k (i :: ids) ((i, x) :: l) out.
Proof.
  intros Hk Hx (Hp & Hb & Ho). assert (forall n, ((if refuses x then S k else k) + n = k + ((if refuses x then 1 else 0) + n))%nat) as He by (intros n; destruct (refuses x); lia).
  split; [by apply prefix_cons|]. split.
  - intros [|j] Hj; [simpl; unfold refusals; simpl; lia|]. simpl in *. rewrite refusals_cons. simpl. rewrite <- He. apply Hb. lia.
  - destruct out as [b|k']; [destruct Ho as [(init & n & m & mc & -> & Hi & Hm)|(-> & Hl & Hq)]; [left|right]|].
    + exists ((i, x) :: init), n, m, mc. split; [done|]. split; [by constructor|done].
    + split; [done|]. split; [by constructor|]. rewrite refusals_cons. simpl. by rewrite <- He.
    + destruct Ho as (<- & Hl & ->). split; [done|]. split; [by constructor|]. rewrite refusals_cons. simpl. by rewrite He.
Qed.
Lemma talk_app this quorum k k' ids ids' l l' out :
  member_talk this quorum k ids l (inr k') -> member_talk this quorum k' ids' l' out -> member_talk this quorum k (ids ++ ids') (l ++ l') out.
Proof.
  intros (_ & Hb & <- & Hl & ->) (Hp & Hb' & Ho). split; [rewrite fmap_app; by apply prefix_app|]. split.
  - intros j. rewrite length_app. intros Hj. destruct (decide (j < length l)%nat) as [Hlt|Hge]; [rewrite take_app_le by lia; by apply Hb|].
    rewrite take_app_ge, refusals_app by lia. specialize (Hb' (j - length l)%nat ltac:(lia)). lia.
  - destruct out as [b|k']; [destruct Ho as [(init & n & m & mc & -> & Hi & Hm)|(-> & Hl' & Hq)]; [left|right]|].
    + exists (l ++ init), n, m, mc. rewrite app_assoc. split; [done|]. split; [by apply Forall_app|done].
    + split; [done|]. split; [by apply Forall_app|]. rewrite refusals_app. lia.
    + destruct Ho as (<- & Hl' & ->). rewrite fmap_app, refusals_app. split; [done|]. split; [by apply Forall_app|lia].
Qed.

Section Replies.
Context `{!ReplyLog W} `{!ReplyLogOk (W := W)}.

Lemma member_pass_talk t quorum this ns : forall k w r w', member_pass t quorum this ns k w = (r, w') ->
  exists out l, r = Ok out /\ metrics_replies w' = metrics_replies w ++ l /\ leave_replies w' = leave_replies w /\ member_talk this quorum k (others this ns) l out.
Proof.
  induction ns as [|n ns IH]; intros k w r w'; cbn [member_pass].
  { intros [= <- <-]. exists (inr k), []. rewrite app_nil_r. split; [done|]. split; [done|]. split; [done|]. split; [done|]. split; [intros j Hj; simpl in Hj; lia|].
    split; [done|]. split; [constructor|]. unfold refusals. simpl. lia. }
  unfold others. rewrite filter_cons. destruct (Z.eqb_spec (node_id n) this) as [He|He].
  { rewrite decide_False by auto. apply IH. }
  rewrite decide_True by done. rewrite fmap_cons. fold (others this ns). destruct (Nat.leb_spec quorum k) as [Hq|Hq].
  { intros [= <- <-]. exists (inl false), []. rewrite app_nil_r. split; [done|]. split; [done|]. split; [done|]. split; [apply prefix_nil|].
    split; [intros j Hj; simpl in Hj; lia|]. right. split; [done|]. split; [constructor|]. lia. }
  step_st. unfold on_world. destruct (req_metrics t n w) as [x w1] eqn:E. apply metrics_logged in E as [Hm1 Hl1].
  assert (forall d k', answers x = None -> k' = (if refuses x then S k else k) ->
    member_pass t quorum this ns k' (sleep d w1) = (r, w') ->
    exists out l, r = Ok out /\ metrics_replies w' = metrics_replies w ++ l /\ leave_replies w' = leave_replies w /\
      member_talk this quorum k (node_id n :: others this ns) l out) as Hgo.
  { intros d k' Hx -> Hr. apply IH in Hr as (out & l & -> & Hm & Hl & Ht). destruct (sleep_silent d w1) as [Hs1 Hs2].
    exists out, ((node_id n, x) :: l). split; [done|]. rewrite Hm, Hs1, Hm1, <- app_assoc. split; [done|]. split; [congruence|]. by apply talk_cons. }
  unfold wait. destruct x as [|[] e|[m|]|e]; try (by apply Hgo). intros [= <- <-]. eexists _, [(node_id n, Success (Some m))]. split; [done|]. split; [done|].
  split; [done|]. split; [apply prefix_cons, prefix_nil|]. split; [intros [|j] Hj; [unfold refusals; simpl; lia|simpl in Hj; lia]|].
  left. exists [], (node_id n), (Success (Some m)), (membership_config m). done.
Qed.
Lemma remote_member_talk t this ns w r w' : is_remote_cluster_member t this ns w = (r, w') ->
  exists b l, r = Ok b /\ metrics_replies w' = metrics_replies w ++ l /\ leave_replies w' = leave_replies w /\
    (member_talk this (length ns / 2) 0 (others this ns ++ others this ns) l (inl b) \/
     b = false /\ member_talk this (length ns / 2) 0 (others this ns ++ others this ns) l (inr (refusals l))).
Proof.
  unfold is_remote_cluster_member. cbv zeta. step_st. destruct (member_pass _ _ _ _ 0 w) as [r1 w1] eqn:E1.
  apply member_pass_talk in E1 as (out & l & -> & Hm & Hl & Ht). destruct out as [b|k].
  { intros [= <- <-]. exists b, l. split; [done|]. split; [done|]. split; [done|]. left. destruct Ht as (Hp & Hb & Ho). split; [by apply prefix_app_r|done]. }
  destruct (member_pass _ _ _ _ k w1) as [r2 w2] eqn:E2. apply member_pass_talk in E2 as (out2 & l2 & -> & Hm2 & Hl2 & Ht2).
  pose proof (talk_app _ _ _ _ _ _ _ _ _ Ht Ht2) as Hall. assert (metrics_replies w2 = metrics_replies w ++ l ++ l2) as Hmm by (by rewrite Hm2, Hm, app_assoc).
  destruct out2 as [b|k2]; intros [= <- <-]; eexists _, (l ++ l2); (split; [done|]); (split; [done|]); (split; [congruence|]); [by left|right]. split; [done|].
  destruct Hall as (Hp & Hb & Hi & Ha & ->). split; [done|]. split; [done|]. by split.
Qed.

Lemma leave_pass_talk t this ns : forall w r w', leave_pass t this ns w = (r, w') ->
  exists b l, r = Ok b /\ leave_replies w' = leave_replies w ++ l /\ metrics_replies w' = metrics_replies w /\ until accepted (others this ns) l b.
Proof.
  induction ns as [|n ns IH]; intros w r w'; cbn [leave_pass].
  { intros [= <- <-]. exists false, []. by rewrite app_nil_r. }
  unfold others. rewrite filter_cons. destruct (Z.eqb_spec (node_id n) this) as [He|He].
  { rewrite decide_False by auto. apply IH. }
  rewrite decide_True by done. rewrite fmap_cons. fold (others this ns). step_st. unfold on_world. destruct (req_leave t n w) as [x w1] eqn:E. apply leave_logged in E as [Hl1 Hm1].
  assert (accepted x = false -> leave_pass t this ns w1 = (r, w') ->
    exists b l, r = Ok b /\ leave_replies w' = leave_replies w ++ l /\ metrics_replies w' = metrics_replies w /\ until accepted (node_id n :: others this ns) l b) as Hgo.
  { intros Hx Hr. apply IH in Hr as (b & l & -> & Hl & Hm & Hu). exists b, ((node_id n, x) :: l). split; [done|]. rewrite Hl, Hl1, <- app_assoc. split; [done|].
    split; [congruence|]. by apply until_cons. }
  destruct x as [|[] e|a|e]; try (by apply Hgo); intros [= <- <-]; exists true; (eexists [(node_id n, _)]; split; [done|]); (split; [done|]); (split; [done|]); by apply until_now.
Qed.
Lemma leave_rounds_talk k t this ns : forall w r w', leave_rounds k t this ns w = (r, w') ->
  exists b l, r = Ok b /\ leave_replies w' = leave_replies w ++ l /\ metrics_replies w' = metrics_replies w /\
    until accepted (concat (replicate k (others this ns))) l b.
Proof.
  induction k as [|k IH]; intros w r w'; cbn [leave_rounds].
  { intros [= <- <-]. exists false, []. by rewrite app_nil_r. }
  step_st. destruct (leave_pass t this ns w) as [r1 w1] eqn:E1. apply leave_pass_talk in E1 as (b & l & -> & Hl & Hm & Hu). destruct b.
  { intros [= <- <-]. exists true, l. split; [done|]. split; [done|]. split; [done|]. by apply until_more. }
  unfold wait. destruct (sleep_silent 3000 w1) as [Hs1 Hs2]. intros (b & l' & -> & Hl' & Hm' & Hu')%IH. exists b, (l ++ l'). split; [done|].
  rewrite Hl', Hs2, Hl, app_assoc. split; [done|]. split; [congruence|]. by apply until_app.
Qed.

(** The last look tells whether this node is gone, or it is no answer that can be read. *)
Definition seen_gone (l : list (Z * Reply Metrics)) (r : Res ApiError bool) : Prop :=
  exists init x, l = init ++ [x] /\ match r with Ok true => gone x.2 = true | Err _ => gone x.2 = false | _ => False end.
Lemma confirm_pass_talk t this ns : forall w r w', confirm_pass t this ns w = (r, w') ->
  exists b l, metrics_replies w' = metrics_replies w ++ l /\ leave_replies w' = leave_replies w /\ until (conclusive this) (others this ns) l b /\
    if b then seen_gone l r else r = Ok false.
Proof.
  induction ns as [|n ns IH]; intros w r w'; cbn [confirm_pass].
  { intros [= <- <-]. exists false, []. by rewrite app_nil_r. }
  unfold others. rewrite filter_cons. destruct (Z.eqb_spec (node_id n) this) as [He|He].
  { rewrite decide_False by auto. apply IH. }
  rewrite decide_True by done. rewrite fmap_cons. fold (others this ns). step_st. unfold on_world. destruct (req_metrics t n w) as [x w1] eqn:E. apply metrics_logged in E as [Hm1 Hl1].
  assert (forall w2, metrics_replies w2 = metrics_replies w1 -> leave_replies w2 = leave_replies w1 -> conclusive this x = false -> confirm_pass t this ns w2 = (r, w') ->
    exists b l, metrics_replies w' = metrics_replies w ++ l /\ leave_replies w' = leave_replies w /\ until (conclusive this) (node_id n :: others this ns) l b /\
      if b then seen_gone l r else r = Ok false) as Hgo.
  { intros w2 Hw2 Hw2' Hx Hr. apply IH in Hr as (b & l & Hm & Hl & Hu & Hr). exists b, ((node_id n, x) :: l). rewrite Hm, Hw2, Hm1, <- app_assoc. split; [done|].
    split; [congruence|]. split; [by apply until_cons|]. destruct b; [|done]. destruct Hr as (init & y & -> & Hy). by exists ((node_id n, x) :: init), y. }
  assert (forall r0, conclusive this x = true -> seen_gone [(node_id n, x)] r0 -> r = r0 -> w' = w1 ->
    exists b l, metrics_replies w' = metrics_replies w ++ l /\ leave_replies w' = leave_replies w /\ until (conclusive this) (node_id n :: others this ns) l b /\
      if b then seen_gone l r else r = Ok false) as Hend.
  { intros r0 Hx Hg -> ->. exists true, [(node_id n, x)]. split; [done|]. split; [done|]. split; [by apply until_now|done]. }
  destruct x as [|[] e|[m|]|e]; [by apply Hgo| |by apply Hgo| | |by apply Hgo].
  - intros [= <- <-]. by apply (Hend (Err e)); [|exists [], (node_id n, NoBody true e)|..].
  - unfold conclusive in Hgo, Hend. destruct (is_node this (membership_config m)); simpl in Hgo, Hend.
    + destruct (sleep_silent 1000 w1) as [Hs1 Hs2]. unfold wait. by apply Hgo.
    + intros [= <- <-]. by apply (Hend (Ok true)); [|exists [], (node_id n, Success (Some m))|..].
  - intros [= <- <-]. by apply (Hend (Err (Other EBincode))); [|exists [], (node_id n, Success None)|..].
Qed.
Lemma confirm_rounds_talk k t this ns : forall w r w', confirm_rounds k t this ns w = (r, w') ->
  exists b l, metrics_replies w' = metrics_replies w ++ l /\ leave_replies w' = leave_replies w /\
    until (conclusive this) (concat (replicate k (others this ns))) l b /\
    if b then seen_gone l (_ ← r; Ok true) else r = Ok tt.
Proof.
  induction k as [|k IH]; intros w r w'; cbn [confirm_rounds].
  { intros [= <- <-]. exists false, []. by rewrite app_nil_r. }
  step_st. destruct (confirm_pass t this ns w) as [r1 w1] eqn:E1. apply confirm_pass_talk in E1 as (b & l & Hm & Hl & Hu & Hr). destruct b.
  { destruct Hr as (init & x & -> & Hx). destruct r1 as [[]|e| |]; try done; intros [= <- <-]; exists true; eexists; (split; [done|]); (split; [done|]);
      (split; [by apply until_more|]); by exists init, x. }
  subst r1. unfold wait. destruct (sleep_silent 1000 w1) as [Hs1 Hs2]. intros (b & l' & Hm' & Hl' & Hu' & Hr)%IH. exists b, (l ++ l').
  rewrite Hm', Hs1, Hm, app_assoc. split; [done|]. split; [congruence|]. split; [by apply until_app|]. destruct b; [|done].
  destruct Hr as (init & y & -> & Hy). exists (l ++ init), y. by rewrite app_assoc.
Qed.

(** How leaving ends *)
Definition leave_talk (this : Z) (ids : list Z) (asked : list (Z * Reply unit)) (looks : list (Z * Reply Metrics)) (r : Res ApiError unit) : Prop :=
  (until accepted ids asked false /\ looks = [] /\ r = Err Connect) \/
  (until accepted ids asked true /\
     ((until (conclusive this) ids looks true /\ seen_gone looks (_ ← r; Ok true)) \/ (until (conclusive this) ids looks false /\ r = Ok tt))).
Lemma leave_remote_talk t this ns k w r w' : leave_remote_cluster t this ns k w = (r, w') ->
  exists asked looks, leave_replies w' = leave_replies w ++ asked /\ metrics_replies w' = metrics_replies w ++ looks /\
    leave_talk this (concat (replicate (k + 1) (others this ns))) asked looks r.
Proof.
  unfold leave_remote_cluster. step_st. destruct (leave_rounds _ _ _ _ w) as [r1 w1] eqn:E1. apply leave_rounds_talk in E1 as (b & l & -> & Hl & Hm & Hu).
  destruct b; simpl.
  - intros (b & l' & Hm' & Hl' & Hu' & Hr)%confirm_rounds_talk. exists l, l'. rewrite Hm', Hl', Hl, Hm. split; [done|]. split; [done|]. right. split; [done|].
    destruct b; [by left|by right].
  - intros [= <- <-]. exists l, []. rewrite app_nil_r. split; [done|]. split; [done|]. by left.
Qed.
End Replies.
End InitSpec.
