(* ===== verification/ClusterShutdown.v ===== *)
(** The life of a node: its shutdown, [shutdown_execute] of [hiqlite/src/client/mgmt.rs]
    with the handles that start it, and its start, [start_node_inner] of
    [hiqlite/src/start.rs] with [start_raft_db] and [start_raft_cache] of
    [hiqlite/src/store/mod.rs].

    Callers ([Client::shutdown] and the shutdown handle) run concurrently; the atomic
    [is_shutting_down] picks the one that does the work, the others wait for
    [tx_shutdown].  A step is one caller's next action; the order of the actions is that
    of the source.  A caller that gives up after 20 seconds is the step [TimeOut]. *)
From stdpp Require Import base list.
From S2P Require Import Prelude WalBase WalFile WalSet WalMeta WalWriter.

Module Shutdown.

Inductive Action : Type :=
| LeaveCache | StopCache | RaftCache | LogsCache | StreamCache
| StopDb | RaftDb | LogsDb | WriterDb | StreamDb | Signal.
#[export] Instance Action_eqdec : EqDecision Action.
Proof. solve_decision. Defined.

(** The work, for a cache with or without storage on disk *)
Definition teardown (cache_storage_disk : bool) : list Action :=
  (if cache_storage_disk then [] else [LeaveCache]) ++
  [StopCache; RaftCache] ++ (if cache_storage_disk then [LogsCache] else []) ++ [StreamCache] ++
  [StopDb; RaftDb; LogsDb; WriterDb; StreamDb; Signal].

(** The actions whose errors are returned with [?] *)
Definition fallible (a : Action) : bool := match a with RaftCache | LogsCache | RaftDb | LogsDb => true | _ => false end.

(** How [shutdown_execute] ended; [TimedOut] is the timeout around it. *)
Inductive Outcome : Type := Completed | Failed | TimedOut.
Inductive Caller : Type := Fresh | Runner (rest : list Action) | Waiter | Finished (o : Outcome).
(** What [Client::shutdown] makes of it *)
Definition shutdown_result (o : Outcome) : bool := match o with TimedOut => false | _ => true end.

Record Node : Type := mkNode { is_shutting_down : bool; signalled : bool; log : list Action; callers : list Caller }.

Inductive Event : Type := Step (i : nat) (fails : bool) | TimeOut (i : nat).

Definition set_caller (i : nat) (c : Caller) (n : Node) : Node := mkNode (is_shutting_down n) (signalled n) (log n) (<[i := c]> (callers n)).

Definition step (disk : bool) (e : Event) (n : Node) : option Node :=
  match e with
  | Step i fails =>
      match callers n !! i with
      | Some Fresh =>
          Some (if is_shutting_down n then set_caller i Waiter n
                else mkNode true (signalled n) (log n) (<[i := Runner (teardown disk)]> (callers n)))
      | Some (Runner []) => Some (set_caller i (Finished Completed) n)
      | Some (Runner (a :: rest)) =>
          Some (if fails && fallible a then set_caller i (Finished Failed) n
                else mkNode (is_shutting_down n) (signalled n || bool_decide (a = Signal)) (log n ++ [a]) (<[i := Runner rest]> (callers n)))
      | Some Waiter => if signalled n then Some (set_caller i (Finished Completed) n) else None
      | _ => None
      end
  | TimeOut i =>
      match callers n !! i with
      | Some (Runner _) | Some Waiter => Some (set_caller i (Finished TimedOut) n)
      | _ => None
      end
  end.
Fixpoint run (disk : bool) (es : list Event) (n : Node) : option Node :=
  match es with [] => Some n | e :: es => n ← step disk e n; run disk es n end.
Definition start (k : nat) : Node := mkNode false false [] (replicate k Fresh).

(** ** The invariant: one runner at most, and what it has left is what is not done; behind a
    failure there is none *)
Definition stuck_at_failure (disk : bool) (n : Node) : Prop := exists a rest, log n ++ a :: rest = teardown disk /\ fallible a = true.
Record shutdown_ok (disk : bool) (n : Node) : Prop := {
  log_prefix : log n `prefix_of` teardown disk;
  runner_rest : forall i rest, callers n !! i = Some (Runner rest) -> log n ++ rest = teardown disk /\ is_shutting_down n = true;
  one_runner : forall i j r1 r2, callers n !! i = Some (Runner r1) -> callers n !! j = Some (Runner r2) -> i = j;
  not_started : is_shutting_down n = false -> log n = [];
  signal_done : signalled n = true -> log n = teardown disk;
  finished_done : forall i, callers n !! i = Some (Finished Completed) -> log n = teardown disk;
  failed_at : forall i, callers n !! i = Some (Finished Failed) -> is_shutting_down n = true /\ stuck_at_failure disk n /\
    forall j rest, callers n !! j <> Some (Runner rest);
}.

Lemma start_ok disk k : shutdown_ok disk (start k).
Proof.
  split; simpl; try done.
  - apply prefix_nil.
  - intros i rest Hi. by apply lookup_replicate in Hi as [Hi _].
  - intros i j r1 r2 Hi. by apply lookup_replicate in Hi as [Hi _].
  - intros i Hi. by apply lookup_replicate in Hi as [Hi _].
  - intros i Hi. by apply lookup_replicate in Hi as [Hi _].
Qed.

Lemma lookup_set {A} (l : list A) i j x y : <[i := x]> l !! j = Some y -> j = i /\ y = x \/ j <> i /\ l !! j = Some y.
Proof.
  intros Hl. destruct (decide (j = i)) as [-> |Hne]; [left|right; by rewrite list_lookup_insert_ne in Hl].
  split; [done|]. apply list_lookup_insert_Some in Hl as [(_ & -> & _)|[? _]]; done.
Qed.

(** A caller that ends, or starts to wait *)
Lemma set_caller_ok disk n i c : shutdown_ok disk n -> (forall rest, c <> Runner rest) -> (c = Finished Completed -> log n = teardown disk) ->
  (c = Finished Failed -> exists a rest, callers n !! i = Some (Runner (a :: rest)) /\ fallible a = true) ->
  shutdown_ok disk (set_caller i c n).
Proof.
  intros [Hp Hr Ho Hn Hs Hf Hb] Hc Ht Hfail. split; simpl; try done.
  - intros j rest [[-> <-]|[_ Hj]]%lookup_set; [by destruct (Hc rest)|eauto].
  - intros j k r1 r2 [[-> <-]|[_ Hj]]%lookup_set [[-> Hx]|[_ Hk]]%lookup_set; try (by destruct (Hc r1)); [by destruct (Hc r2)|eauto].
  - intros j [[-> <-]|[_ Hj]]%lookup_set; [by apply Ht|eauto].
  - intros j [[-> <-]|[_ Hj]]%lookup_set.
    + destruct (Hfail eq_refl) as (a & rest & Hi & Ha). destruct (Hr _ _ Hi) as [Hl Hsd]. split; [done|]. split; [by exists a, rest|].
      intros k r' [[-> [=]]|[Hne Hk]]%lookup_set. by destruct Hne; eauto.
    + destruct (Hb j Hj) as (Hsd & Hst & Hnr). split; [done|]. split; [done|]. intros k r' [[-> <-]|[_ Hk]]%lookup_set; [by destruct (Hc r')|by apply (Hnr k r')].
Qed.

(** [Signal] is the last action. *)
Lemma signal_last disk l rest : l ++ Signal :: rest = teardown disk -> rest = [].
Proof.
  destruct disk; unfold teardown; simpl; do 11 (destruct l as [|? l]; [by intros [= ?]|simpl; intros Hl; first [discriminate Hl|injection Hl as -> Hl]; revert Hl]).
  all: by intros Hl; apply (f_equal length) in Hl; rewrite length_app in Hl; simpl in Hl; lia.
Qed.

Lemma step_ok disk e n n' : shutdown_ok disk n -> step disk e n = Some n' -> shutdown_ok disk n'.
Proof.
  intros Hok. pose proof Hok as [Hp Hr Ho Hn Hs Hf Hb]. destruct e as [i fails|i]; simpl.
  - destruct (callers n !! i) as [[|[|a rest]| |ok]|] eqn:Ei; try done.
    + intros [= <-]. destruct (is_shutting_down n) eqn:Es; [by apply set_caller_ok|]. specialize (Hn eq_refl). split; simpl; try done.
      * intros j rest [[-> [= ->]]|[_ Hj]]%lookup_set; [by rewrite Hn|]. by destruct (Hr _ _ Hj) as [_ ?].
      * intros j k r1 r2 [[-> _]|[_ Hj]]%lookup_set [[-> _]|[_ Hk]]%lookup_set; try done; [by destruct (Hr _ _ Hk)|by destruct (Hr _ _ Hj)|eauto].
      * intros j [[-> [=]]|[_ Hj]]%lookup_set. eauto.
      * intros j [[-> [=]]|[_ Hj]]%lookup_set. by destruct (Hb j Hj).
    + intros [= <-]. apply set_caller_ok; [done|done| |done]. intros _. destruct (Hr _ _ Ei) as [Hl _]. by rewrite app_nil_r in Hl.
    + destruct (Hr _ _ Ei) as [Hl Hsd]. destruct (fails && fallible a) eqn:Efa; intros [= <-];
        [apply andb_prop in Efa as [_ Hfa]; apply set_caller_ok; [done|done|done|]; intros _; by exists a, rest|].
      assert (forall j r', callers n !! j = Some (Runner r') -> j = i) as Hone by eauto. split; simpl.
      * exists rest. by rewrite <- Hl, <- app_assoc.
      * intros j r' [[-> [= ->]]|[Hne Hj]]%lookup_set; [by rewrite <- app_assoc|by destruct Hne; eauto].
      * intros j k r1 r2 [[-> _]|[Hj1 Hj]]%lookup_set [[-> _]|[Hk1 Hk]]%lookup_set; try done; exfalso; eauto.
      * by rewrite Hsd.
      * intros [Hsig|Ha%bool_decide_eq_true]%orb_true_iff.
        -- rewrite (Hs Hsig) in Hl. apply (f_equal length) in Hl. rewrite length_app in Hl. simpl in Hl. lia.
        -- subst a. pose proof (signal_last disk (log n) rest Hl) as ->. by rewrite <- Hl.
      * intros j [[-> [=]]|[_ Hj]]%lookup_set. rewrite (Hf _ Hj) in Hl. apply (f_equal length) in Hl. rewrite length_app in Hl. simpl in Hl. lia.
      * intros j [[-> [=]]|[_ Hj]]%lookup_set. destruct (Hb j Hj) as (_ & _ & Hnr). by destruct (Hnr i (a :: rest)).
    + destruct (signalled n) eqn:Esig; [|done]. intros [= <-]. apply set_caller_ok; [done|done| |done]. auto.
  - destruct (callers n !! i) as [[|rest| |ok]|] eqn:Ei; try done; intros [= <-]; by apply set_caller_ok.
Qed.
Lemma run_shutdown_ok disk es : forall n n', shutdown_ok disk n -> run disk es n = Some n' -> shutdown_ok disk n'.
Proof.
  induction es as [|e es IH]; intros n n' Hn; cbn [run]; [by intros [= <-]|].
  destruct (step disk e n) as [n1|] eqn:E; simpl; [|done]. intros Hr. eauto using step_ok.
Qed.

(** Behind a failure nothing more is done. *)
Lemma failed_stays disk es i : forall n n', shutdown_ok disk n -> callers n !! i = Some (Finished Failed) -> run disk es n = Some n' -> log n' = log n.
Proof.
  induction es as [|e es IH]; intros n n' Hn Hi; cbn [run]; [by intros [= <-]|].
  destruct (step disk e n) as [n1|] eqn:E; simpl; [|done]. intros Hr.
  assert (log n1 = log n /\ callers n1 !! i = Some (Finished Failed)) as [<- Hi1]; [|by eapply IH; [eapply step_ok|..]].
  destruct (failed_at _ _ Hn i Hi) as (Hsd & _ & Hnr).
  assert (forall j c, callers n !! j = Some c -> c <> Finished Failed -> <[j := Finished Completed]> (callers n) !! i = Some (Finished Failed) /\
    <[j := Finished TimedOut]> (callers n) !! i = Some (Finished Failed) /\ <[j := Waiter]> (callers n) !! i = Some (Finished Failed)) as Hother.
  { intros j c Hj Hc. assert (j <> i) by (intros ->; rewrite Hi in Hj; by injection Hj as <-). by rewrite !list_lookup_insert_ne by done. }
  destruct e as [j fails|j]; simpl in E; destruct (callers n !! j) as [[|rest| |o]|] eqn:Ej; try done; try (by destruct (Hnr j rest)).
  - rewrite Hsd in E. injection E as <-. split; [done|]. by apply (Hother j Fresh).
  - destruct (signalled n); [|done]. injection E as <-. split; [done|]. by apply (Hother j Waiter).
  - injection E as <-. split; [done|]. by apply (Hother j Waiter).
Qed.

(** ** The handle for signals: [hiqlite/src/client/shutdown_handle.rs]

    [Client::shutdown_handle] is for local clients; the handler of signals can be set once
    in a process, a second one is a panic. *)
Definition shutdown_handle (local registered : bool) : Res unit unit := if local then if registered then Panic else Ok tt else Err tt.
(** [ShutdownHandle::wait] is a caller that starts with the signal; its result does not
    depend on how the shutdown ended. *)
Definition wait (disk signal : bool) (i : nat) (fails : bool) (n : Node) : option Node :=
  match callers n !! i with
  | Some Fresh => if signal then step disk (Step i fails) n else None
  | _ => step disk (Step i fails) n
  end.
Definition wait_result (o : Outcome) : bool := true.

(** A handle that waits is one of the callers, so what holds for them holds for it. *)
Lemma wait_ok disk signal i fails n n' : shutdown_ok disk n -> wait disk signal i fails n = Some n' -> shutdown_ok disk n'.
Proof.
  intros Hok. unfold wait. destruct (callers n !! i) as [[]|]; try (by apply step_ok). destruct signal; [by apply step_ok|done].
Qed.
(** It says nothing about the outcome: also a shutdown that failed is [Ok]. *)
Lemma wait_hides_failure : exists n, run true [Step 0 false; Step 0 false; Step 0 true] (start 1) = Some n /\
  callers n = [Finished Failed] /\ log n = [StopCache] /\ wait_result Failed = true.
Proof. eexists. by vm_compute. Qed.
End Shutdown.

(** * The handle of the WAL tasks: [hiqlite-wal/src/shutdown.rs] *)
Module WalHandle.
Inductive ReaderAction : Type := ReadLogs (from until : Z) | ReadState | ReadVote | StopReader.

Section Handle.
Context `{Checksum} `{Features} `{MetaCodec}.

Definition is_shutdown (a : Action) : bool := match a with Shutdown => true | _ => false end.
(** The writer gets the request behind what is already in its channel, and the ack is
    awaited; when another request ends the task first, the sender of the ack is dropped. *)
Definition stop_writer (snc : LogSync) (size : Z) (lock : nat) (pending : list Action) (s : Sys * Writer) : Res unit unit * (Sys * Writer) :=
  let '(r, s) := WalWriter.run snc size lock (pending ++ [Shutdown]) s in
  (match r with
   | Ok _ => if existsb is_shutdown pending then Err tt else Ok tt
   | OutOfFuel => OutOfFuel
   | _ => Err tt
   end, s).
(** [ShutdownHandle::shutdown]: the future that would tell the reader is dropped without
    being polled, so the channel of the reader stays as it is. *)
Definition shutdown (snc : LogSync) (size : Z) (lock : nat) (pending : list Action) (s : Sys * Writer) (reader : list ReaderAction)
    : Res unit unit * (Sys * Writer) * list ReaderAction := (stop_writer snc size lock pending s, reader).
(** [LogStore::stop] *)
Definition stop (snc : LogSync) (size : Z) (lock : nat) (pending : list Action) (s : Sys * Writer) (reader : list ReaderAction)
    : Res unit unit * (Sys * Writer) * list ReaderAction :=
  match stop_writer snc size lock pending s with
  | (Ok tt, s) => (Ok tt, s, reader ++ [StopReader])
  | (r, s) => (r, s, reader)
  end.

Lemma handle_all_shutdown cfg pending : forall s b s', handle_all cfg (pending ++ [Shutdown]) s = (Ok b, s') -> b = true.
Proof.
  induction pending as [|a l IH]; intros s b s'; cbn [app handle_all].
  - cbn. by intros [= <- _].
  - intros (c & s1 & _ & Hc)%st_bind_inv. destruct c; [by apply IH in Hc|]. by injection Hc as <-.
Qed.
(** The writer acknowledges a request it served before it ends. *)
Lemma run_acks snc size lock pending s s' : WalWriter.run snc size lock (pending ++ [Shutdown]) s = (Ok tt, s') -> RShutdown ∈ out s'.2.
Proof.
  unfold WalWriter.run. match goal with |- context [let '(_, _) := ?body (sys_fs _, _) in _] => destruct (body (sys_fs s.1, s.2)) as [r [fs w]] eqn:E end.
  destruct r as [b|e| |]; [|by destruct (drop_files _ _)..|done].
  assert (b = true) as ->.
  { do 3 (apply st_bind_inv in E as (? & ? & _ & E)). apply st_bind_inv in E as (b' & s1 & Hb & E). apply handle_all_shutdown in Hb as ->.
    do 2 (apply st_bind_inv in E as (? & ? & _ & E)). by injection E as <-. }
  destruct (LockFile.release _ _ _) as [[] y]; try done. destruct (drop_files _ _); try done. intros [= <-]. cbn. apply elem_of_app. right. by left.
Qed.

(** Both ways to stop the tasks end with the ack of the writer; only [stop] tells the
    reader, whose thread stays behind a shutdown through the handle. *)
Theorem shutdown_forgets_reader snc size lock pending s reader s' reader' :
  shutdown snc size lock pending s reader = (Ok tt, s', reader') ->
  RShutdown ∈ out s'.2 /\ reader' = reader /\ stop snc size lock pending s reader = (Ok tt, s', reader ++ [StopReader]).
Proof.
  unfold shutdown, stop, stop_writer. destruct (WalWriter.run _ _ _ _ _) as [[[]| | |] s1] eqn:E; try done.
  destruct (existsb is_shutdown pending); [done|]. intros [= <- <-]. by apply run_acks in E.
Qed.
End Handle.
End WalHandle.

(** * The start of a node

    The main task does its steps in order and ends at the first one that fails; the tasks
    that join the two clusters run next to it.  What the steps do is in the files of their
    components; here is their order and who may connect meanwhile. *)
Module Start.
Inductive Layer : Type := Db | Cache.
#[export] Instance Layer_eqdec : EqDecision Layer.
Proof. solve_decision. Defined.

Inductive Step : Type :=
| Validate | MigrateCache | InitEncKeys | InitDashboard | RestoreStart | ValidateRaft | CheckReset
| OpenLogs (l : Layer) | OpenStateMachine (l : Layer) | NewRaft (l : Layer) | InitPristine (l : Layer)
| FindNode | ListenAddrs | SpawnSplitBrainCheck | RestoreFinish | BindRaft | BindApi
| SpawnJoin (l : Layer) | AwaitJoin (l : Layer) | NewClient | StartCron.
#[export] Instance Step_eqdec : EqDecision Step.
Proof. solve_decision. Defined.

(** [start_raft_db] and [start_raft_cache] *)
Definition start_raft_db : list Step := [OpenLogs Db; OpenStateMachine Db; NewRaft Db; InitPristine Db].
Definition start_raft_cache (disk : bool) : list Step :=
  OpenStateMachine Cache :: (if disk then [OpenLogs Cache] else []) ++ [NewRaft Cache; InitPristine Cache].
(** [start_node_inner] up to the API server; [restored]: a backup was applied *)
Definition prepare (disk restored : bool) : list Step :=
  [Validate; MigrateCache; InitEncKeys; InitDashboard; RestoreStart; ValidateRaft; CheckReset] ++
  start_raft_db ++ start_raft_cache disk ++
  [FindNode; ListenAddrs; SpawnSplitBrainCheck] ++ (if restored then [RestoreFinish] else []) ++ [BindRaft; BindApi].
Definition start_node_inner (disk restored : bool) : list Step :=
  prepare disk restored ++ [SpawnJoin Db; SpawnJoin Cache; AwaitJoin Db; AwaitJoin Cache; NewClient; StartCron].

(** The steps whose errors are returned *)
Definition fallible (a : Step) : bool :=
  match a with
  | InitEncKeys | SpawnSplitBrainCheck | RestoreFinish | SpawnJoin _ | NewClient | StartCron => false
  | _ => true
  end.

(** A task of [become_cluster_member]: [set_raft_running] is one of its steps. *)
Inductive Join : Type := NotSpawned | Joining (running : bool) | Ended (running ok : bool).
#[export] Instance Join_eqdec : EqDecision Join.
Proof. solve_decision. Defined.
Definition is_running (j : Join) : bool := match j with Joining r | Ended r _ => r | NotSpawned => false end.
Record Node : Type := mkNode { todo : list Step; completed : list Step; join_db : Join; join_cache : Join; result : option bool }.
Definition join_of (l : Layer) (n : Node) : Join := match l with Db => join_db n | Cache => join_cache n end.
Definition set_join (l : Layer) (j : Join) (n : Node) : Node :=
  match l with
  | Db => mkNode (todo n) (completed n) j (join_cache n) (result n)
  | Cache => mkNode (todo n) (completed n) (join_db n) j (result n)
  end.

(** [is_startup_finished] and [is_raft_stopped] start as [false] and [true]; both are set
    by [set_raft_running]. *)
Definition is_startup_finished (l : Layer) (n : Node) : bool := is_running (join_of l n).
Definition is_raft_stopped (l : Layer) (n : Node) : bool := negb (is_running (join_of l n)).
(** The guard of the [/stream] endpoint of the API *)
Definition stream (n : Node) : Res unit unit :=
  if negb (is_startup_finished Cache n) then Err tt
  else if is_raft_stopped Cache n then Err tt
  else if negb (is_startup_finished Db n) then Err tt
  else if is_raft_stopped Db n then Err tt
  else Ok tt.

Inductive Event : Type := Main (fails : bool) | Runs (l : Layer) | Ends (l : Layer) (ok : bool).
(** The next step of the main task; [None]: it waits. *)
Definition advance (fails : bool) (a : Step) (rest : list Step) (n : Node) : option Node :=
  let ok := mkNode rest (completed n ++ [a]) (join_db n) (join_cache n) (if bool_decide (rest = []) then Some true else None) in
  let failed := mkNode (todo n) (completed n) (join_db n) (join_cache n) (Some false) in
  match a with
  | SpawnJoin l => Some (set_join l (Joining false) ok)
  | AwaitJoin l => match join_of l n with Ended _ joined => Some (if (joined : bool) then ok else failed) | _ => None end
  | _ => Some (if fails && fallible a then failed else ok)
  end.
Definition step (e : Event) (n : Node) : option Node :=
  match e with
  | Main fails => match result n, todo n with None, a :: rest => advance fails a rest n | _, _ => None end
  | Runs l => match join_of l n with Joining false => Some (set_join l (Joining true) n) | _ => None end
  | Ends l ok => match join_of l n with
                 | Joining running => if ok && negb running then None else Some (set_join l (Ended running ok) n)
                 | _ => None
                 end
  end.
Fixpoint run (es : list Event) (n : Node) : option Node :=
  match es with [] => Some n | e :: es => n ← step e n; run es n end.
Definition begin (disk restored : bool) : Node := mkNode (start_node_inner disk restored) [] NotSpawned NotSpawned None.

(** ** The invariant *)
Record start_ok (plan : list Step) (n : Node) : Prop := {
  plan_split : completed n ++ todo n = plan;
  spawned : forall l, join_of l n <> NotSpawned -> SpawnJoin l ∈ completed n;
  awaited : forall l, AwaitJoin l ∈ completed n -> join_of l n = Ended true true;
  joined_running : forall l running, join_of l n = Ended running true -> running = true;
  returned : result n = Some true -> todo n = [];
}.

Lemma set_join_same l j n : join_of l (set_join l j n) = j.
Proof. by destruct l. Qed.
Lemma set_join_other l l' j n : l <> l' -> join_of l' (set_join l j n) = join_of l' n.
Proof. by destruct l, l'. Qed.
Lemma set_join_ok plan l j n : start_ok plan n -> SpawnJoin l ∈ completed n -> AwaitJoin l ∉ completed n ->
  (forall running, j = Ended running true -> running = true) -> start_ok plan (set_join l j n).
Proof.
  intros [Hp Hs Ha Hj Hr] Hsp Haw Hje.
  assert (todo (set_join l j n) = todo n /\ completed (set_join l j n) = completed n /\ result (set_join l j n) = result n) as (Et & Ec & Er) by by destruct l.
  split; rewrite ?Et, ?Ec, ?Er; [done| | | |done].
  - intros l'. destruct (decide (l = l')) as [<-|Hne]; [done|]. rewrite set_join_other by done. apply Hs.
  - intros l' Hl'. destruct (decide (l = l')) as [<-|Hne]; [done|]. rewrite set_join_other by done. by apply Ha.
  - intros l' running. destruct (decide (l = l')) as [<-|Hne]; [rewrite set_join_same; apply Hje|]. rewrite set_join_other by done. apply Hj.
Qed.

Lemma advance_ok plan fails b rest n n' : NoDup plan -> start_ok plan n -> todo n = b :: rest -> advance fails b rest n = Some n' -> start_ok plan n'.
Proof.
  intros Hnd Hok Ht. pose proof Hok as [Hp Hs Ha Hj Hr]. rewrite Ht in Hp.
  assert (b ∉ completed n) as Hb.
  { rewrite <- Hp in Hnd. apply list.NoDup_app in Hnd as (_ & Hd & _). intros Hin. apply (Hd b Hin). by left. }
  assert (start_ok plan (mkNode (todo n) (completed n) (join_db n) (join_cache n) (Some false))) as Hfail by (split; [by rewrite Ht|done..]).
  assert (forall res, (res = Some true -> rest = []) -> (forall l, b = AwaitJoin l -> join_of l n = Ended true true) ->
    start_ok plan (mkNode rest (completed n ++ [b]) (join_db n) (join_cache n) res)) as Hnext.
  { intros res Hres Haw. split; simpl; [by rewrite <- app_assoc| | | |done].
    - intros l Hl. apply elem_of_app. left. by apply Hs.
    - intros l [Hin|Hin]%elem_of_app; [by apply Ha|]. apply list_elem_of_singleton in Hin as Hin. by apply Haw.
    - exact Hj. }
  assert (forall r : option bool, r = (if bool_decide (rest = []) then Some true else None) -> r = Some true -> rest = []) as Hres
    by (intros r -> ; case_bool_decide; done).
  unfold advance. destruct b as [ | | | | | | | | | | | | | | | | |l|l| | ].
  18: { intros [= <-]. apply set_join_ok; [by apply Hnext; [apply Hres|]|apply elem_of_app; right; by left| |done].
        intros [Hin|Hin]%elem_of_app; [|by apply list_elem_of_singleton in Hin]. apply Hb, Hs. by rewrite (Ha l Hin). }
  18: { destruct (join_of l n) as [| |running []] eqn:El; try done; intros [= <-]; [|done].
        apply Hnext; [by apply Hres|]. intros l' [= <-]. by rewrite El, (Hj l running El). }
  all: destruct (fails && fallible _); intros [= <-]; [done|]; apply Hnext; [by apply Hres|done].
Qed.
Lemma join_spawned plan n l j : start_ok plan n -> join_of l n = j -> j <> NotSpawned -> (forall r ok, j <> Ended r ok) ->
  SpawnJoin l ∈ completed n /\ AwaitJoin l ∉ completed n.
Proof.
  intros [Hp Hs Ha Hj Hr] Hl Hn He. split; [apply Hs; by rewrite Hl|]. intros Hin. apply Ha in Hin. rewrite Hl in Hin. by destruct (He true true).
Qed.
Lemma start_step_ok plan e n n' : NoDup plan -> start_ok plan n -> step e n = Some n' -> start_ok plan n'.
Proof.
  intros Hnd Hok. destruct e as [fails|l|l ok]; cbn [step].
  - destruct (result n); [done|]. destruct (todo n) as [|b rest] eqn:Et; [done|]. by eapply advance_ok.
  - destruct (join_of l n) as [|[]|] eqn:El; try done. intros [= <-]. destruct (join_spawned plan n l _ Hok El) as [H1 H2]; [done..|]. by apply set_join_ok.
  - destruct (join_of l n) as [|running|] eqn:El; try done. destruct (ok && negb running) eqn:Eo; [done|]. intros [= <-].
    destruct (join_spawned plan n l _ Hok El) as [H1 H2]; [done..|]. apply set_join_ok; [done..|]. intros r [= <- ->]. by destruct running.
Qed.
Lemma start_run_ok plan es : forall n n', NoDup plan -> start_ok plan n -> run es n = Some n' -> start_ok plan n'.
Proof.
  induction es as [|e es IH]; intros n n' Hnd Hn; cbn [run]; [by intros [= <-]|].
  destruct (step e n) as [n1|] eqn:E; simpl; [|done]. intros Hr. eauto using start_step_ok.
Qed.
Lemma begin_ok disk restored : start_ok (start_node_inner disk restored) (begin disk restored).
Proof. split; [done|by intros []|by intros l Hl%elem_of_nil|by intros []|done]. Qed.
Lemma plan_nodup disk restored : NoDup (start_node_inner disk restored).
Proof. apply (bool_decide_eq_true_1 (NoDup (start_node_inner disk restored))). by destruct disk, restored. Qed.

(** What was done before a step that was done *)
Lemma done_before (done_ pre post : list Step) a : done_ `prefix_of` pre ++ post -> a ∈ done_ -> a ∉ pre -> pre `prefix_of` done_.
Proof.
  intros [k Hk] Hin Hn. destruct (prefix_weak_total pre done_ (pre ++ post)) as [Hp|[r Hr]]; [by apply prefix_app_r|by exists k|done|].
  exfalso. apply Hn. rewrite Hr. apply elem_of_app. by left.
Qed.

(** The start of a node, whatever fails and however the tasks interleave: the steps are
    done in order, each at most once, and a step that fails is the last one tried; a
    client is returned exactly when all are done and both Rafts run; and no stream of a
    client is accepted before the databases are restored and open, the Rafts exist and
    the servers are bound. *)
Theorem start_ordered disk restored es n : run es (begin disk restored) = Some n ->
  completed n ++ todo n = start_node_inner disk restored /\
  (result n = Some true -> todo n = [] /\ stream n = Ok tt) /\
  (stream n = Ok tt -> prepare disk restored `prefix_of` completed n) /\
  (forall l, NewRaft l ∈ completed n -> [Validate; MigrateCache; InitEncKeys; InitDashboard; RestoreStart; ValidateRaft; CheckReset] `prefix_of` completed n).
Proof.
  intros Hr. destruct (start_run_ok _ es _ _ (plan_nodup disk restored) (begin_ok disk restored) Hr) as [Hp Hs Ha Hj Hres].
  assert (completed n `prefix_of` start_node_inner disk restored) as Hpre by (rewrite <- Hp; by apply prefix_app_r).
  split; [done|]. split; [|split].
  - intros Hok. specialize (Hres Hok). split; [done|]. rewrite Hres, app_nil_r in Hp. unfold stream, is_startup_finished, is_raft_stopped.
    assert (forall l, join_of l n = Ended true true) as Hend.
    { intros l. apply Ha. rewrite Hp. unfold start_node_inner. apply elem_of_app. right. destruct l; [do 2 right; by left|do 3 right; by left]. }
    by rewrite !Hend.
  - intros Hst. assert (SpawnJoin Db ∈ completed n) as Hin.
    { apply Hs. intros E. unfold stream, is_startup_finished, is_raft_stopped in Hst. rewrite E in Hst. by destruct (is_running (join_of Cache n)). }
    eapply done_before; [exact Hpre|exact Hin|]. apply (bool_decide_eq_false_1 (SpawnJoin Db ∈ prepare disk restored)). by destruct disk, restored.
  - intros l Hin. eapply done_before; [|exact Hin|apply (bool_decide_eq_false_1 (NewRaft l ∈ _)); by destruct l].
    etrans; [exact Hpre|]. unfold start_node_inner, prepare. rewrite <- app_assoc. done.
Qed.

(** ** Start and shutdown: what the teardown closes *)
Definition closes (a : Shutdown.Action) : list Step :=
  match a with
  | Shutdown.RaftCache => [NewRaft Cache]
  | Shutdown.LogsCache => [OpenLogs Cache]
  | Shutdown.RaftDb => [NewRaft Db]
  | Shutdown.LogsDb => [OpenLogs Db]
  | Shutdown.WriterDb => [OpenStateMachine Db]
  | Shutdown.Signal => [BindRaft; BindApi]
  | _ => []
  end.
Definition opens (a : Step) : bool :=
  match a with NewRaft _ | OpenLogs _ | OpenStateMachine Db | BindRaft | BindApi => true | _ => false end.
(** The shutdown closes what the start opened, each once; of a log store only what was
    opened for this kind of cache. *)
Lemma teardown_closes disk restored : concat (closes <$> Shutdown.teardown disk) ≡ₚ filter (fun a => opens a = true) (start_node_inner disk restored).
Proof. apply (bool_decide_eq_true_1 (_ ≡ₚ _)). by destruct disk, restored. Qed.
End Start.

(** A start in which the two joins overlap and a stream is refused until both are through *)
Definition demo_start : list Start.Event := replicate 22 (Start.Main false) ++ [Start.Runs Start.Cache; Start.Runs Start.Db; Start.Ends Start.Db true; Start.Ends Start.Cache true] ++ replicate 4 (Start.Main false).
Lemma start_ordered_witness : exists n, Start.run demo_start (Start.begin true false) = Some n /\ Start.result n = Some true /\ Start.stream n = Ok tt.
Proof.
  eexists. split; [vm_compute; reflexivity|]. split; [done|].
  refine (proj2 (proj1 (proj2 (Start.start_ordered true false demo_start _ _)) _)); [vm_compute; reflexivity|done].
Defined.
