(* ===== verification/NetTheorems.v ===== *)
(** The client and the network: what callers, servers and listeners rely on, with an
    instance of each theorem on the parameters of [NetDemo]. *)
From stdpp Require Import base gmap strings list numbers.
From Stdlib Require Import Strings.Byte.
From S2P Require Import Prelude WalWriter DLock CacheSM SqlRows SqlBase SqlWriter SqlSM SqlAgree SqlDemo SqlQuery NetBase NetServer NetStream NetStreamSpec NetRaft NetRaftSpec NetAuth NetLimit NetClient NetClientSpec NetProxy NetLock NetListen NetDemo.
Import Net.

#[local] Open Scope Z_scope.

(** ** The stream *)
Section StreamTheorems.
Context `{ApiCodec}.
Import Stream.

(** C14: Whatever happens to the connections of a client stream, every reply channel it took is
    answered, dropped or waiting, exactly once; a successful answer is the result of a
    response with the id of that request; a request is handed to the writer at most once
    and in order; and as long as ids are not reused and the task runs, no channel is
    dropped. *)
Theorem stream_answers l es m :
  run (start l) es m ->
  held m ≡ₚ (all_asked es).*2 /\
  (forall a r, (a, Ok r) ∈ answered m -> exists id, (id, a) ∈ all_asked es /\ mkResponse id r ∈ all_replied es) /\
  sent_bytes m `sublist_of` concat (to_send <$> es) /\
  (NoDup (all_asked es).*1 -> phase m <> Stopped -> dropped m = []).
Proof.
  intros Hr. split; [|split; [|split]].
  - rewrite (run_conserves _ _ _ Hr), taken_asked. cbn. unfold acks. by rewrite map_to_list_empty, app_nil_r.
  - apply (answer_known _ _ _ (run_matched _ _ _ Hr [] [] (start_matched l))).
  - destruct (run_wire _ _ _ Hr) as (k & -> & Hs). exact Hs.
  - intros Hn. apply (nothing_dropped _ (run_unique _ _ _ Hr [] [] (start_matched l) Hn (start_unique l))).
Qed.

(** C17: A request reaches the server as it was sent, and when the response comes back over the
    same connection, the caller gets the result the server computed, whatever requests
    and responses of others come in between. *)
Theorem stream_round_trip `{Server.NodeApi} now now' req a resp b m es m2 :
  decode_request (encode_request req) = Some req -> Server.serve_request req = Ok resp ->
  encode_response resp = Some b -> decode_response b = Some resp ->
  phase m = Connected -> Forall (aside (request_id req)) es ->
  (forall m1, on_event (EvRecv now true (Request (mkPayload req a))) m = Some (Ok m1) -> run m1 es m2) ->
  wire (on_message now true (Request (mkPayload req a)) m) = wire m ++ [Payload (encode_request req)] /\
  Server.read_request <$> write_frames [Payload (encode_request req)] = [Some req] /\
  exists msg m3, read_frame (mkFrame Binary b) = Some (Some msg) /\ on_event (EvRecv now' true msg) m2 = Some (Ok m3) /\
    answered m3 = answered m2 ++ [(a, Ok (result resp))] /\ in_flight m3 = delete (request_id req) (in_flight m2).
Proof.
  intros Hdec Hserve Henc Hback Hp Hes Hrun. split; [done|]. split; [cbn; unfold Server.read_request; cbn; by rewrite Hdec|].
  assert (response_id resp = request_id req) as Hid.
  { unfold Server.serve_request in Hserve. destruct (Server.serve_payload (payload req)) as [r| | |]; try done. by injection Hserve as <-. }
  assert (exists m1, on_event (EvRecv now true (Request (mkPayload req a))) m = Some (Ok m1) /\ waiting_for (request_id req) a m1) as (m1 & H1 & Hw1).
  { unfold on_event. rewrite Hp. eexists. split; [done|]. split; [done|]. cbn. apply lookup_insert_eq. }
  pose proof (asides_wait _ _ _ _ _ Hes (Hrun m1 H1) Hw1) as [Hp2 Hf2]. rewrite <- Hid in Hf2.
  exists (StreamResponse resp), (on_message now' true (StreamResponse resp) m2).
  split; [cbn; by rewrite Hback|]. split; [unfold on_event; by rewrite Hp2|]. cbn [on_message].
  rewrite <- Hid. by apply (forward_answers (awaiting_timeout m2) resp a (set_frame m2 now')).
Qed.
End StreamTheorems.

(** ** The transport of the Raft *)
Section RaftTheorems.
Context `{RaftLink.RpcTypes} {W : Type} `{!RaftLink.RaftPeer W} `{!RaftLink.RpcCodec} `{!RaftLink.RpcCodecOk}.
Import RaftLink.

(** C25: Whatever happens to the connections between two nodes, every call of openraft that
    the client task took is answered, dropped or waiting, exactly once; the Raft of the
    peer serves no call twice, and the calls of one connection in order; and a caller
    gets an error or what the Raft of the peer said to exactly this call: the response
    never is of another kind. *)
Theorem raft_link_faithful es (w : W) l :
  run es (fresh w) = Some l -> Z.of_nat (length (calls es)) + 1 < 2 ^ 64 ->
  holds (client l) ≡ₚ (calls es).*1 /\
  (served l).*1 ⊆+ (calls es).*2 /\ Forall (fun c => got c `sublist_of` sent c) (conns l) /\
  (NoDup (calls es).*1 -> forall a q r, (a, q) ∈ calls es -> outcome a (client l) r ->
     call q r = Err unreachable \/
     exists p v, (q, p) ∈ served l /\ (exists w, (serve q w).1 = p) /\ r = Some (Ok p) /\ call q r = Ok v).
Proof.
  intros Hr Hb. destruct (run_link es [] _ _ Hr (fresh_ok w) Hb) as (iss & Hsub & Hok). simpl in Hok.
  destruct (served_once _ _ Hok) as [Hs Ho]. split; [|split; [|split; [done|]]].
  - rewrite (run_holds es _ _ Hr). simpl. by rewrite app_nil_r.
  - etrans; [done|]. by apply fmap_submseteq, sublist_submseteq.
  - intros Hnd a q r Hq. apply (outcome_honest iss); [done|]. intros q' Hq'. apply (fst_unique (calls es) a); [done| |done].
    by eapply elem_of_submseteq; [|apply sublist_submseteq].
Qed.
End RaftTheorems.

(** ** The server *)
Section ServerTheorems.
Context {T : Type} `{Sql.SqlEngine T} `{Rows.RowLib} `{SqlQuery.ReadEngine T} {M : Type} `{!SqlWriter.MetaCodec (M := M)} {M' : Type}.
Import Server.

(** C16: A server whose answers come from its state machines serves every request a client can
    make with the response variant that client expects: a read answers with rows or an
    error, and a waiting lock ticket is never told that it is queued.  There are two
    exceptions: the remote read of a counter, which the server does not know and on which
    its task panics, and a request whose own call into openraft, or wait for a lock, never
    returns. *)
Theorem server_answers `{NodeApi} req :
  from_machines (T := T) (M := M) (M' := M') -> issued (payload req) = true ->
  (exists r, serve_request req = Ok (mkResponse (request_id req) r) /\ payload_for (payload req) r) \/
  (serve_request req = Panic /\ counter_read (payload req)) \/
  (serve_request req = OutOfFuel /\ stuck (payload req)).
Proof.
  intros Hm%from_machines_ok Hs. unfold serve_request. destruct (serve_typed (payload req) Hs) as [(i & key & ->)|Ht].
  - right. left. split; [done|]. by exists i, key.
  - destruct (serve_payload (payload req)) as [r| | |]; try done; [left; eauto|right; by right].
Qed.
End ServerTheorems.

(** ** The calls of the client *)
Section ClientTheorems.
Context {W : Type} `{Client.ClientWorld W} `{WorldLog W} `{!ClientWorldOk (W := W)}.
Import Client.

(** C15: A write call of the client is in the log exactly once when it succeeds and at most
    once when it fails, also when the first attempt was forwarded to another leader and
    retried; it writes nothing else and it never meets an answer it cannot handle.  It
    returns unless a send to a stream manager blocks for good, or, for the returning
    statement alone, its local write, which has no timeout; then the write is in the log
    at most once, too. *)
Theorem client_writes_once q qs sql :
  db_writes (call_hangs (W := W) true) (SqlSM.Execute q) (execute (W := W) q) /\
  db_writes (call_hangs (W := W) false) (SqlSM.ExecuteReturning q) (execute_returning (W := W) q) /\
  db_writes (call_hangs (W := W) true) (SqlSM.Transaction qs) (txn (W := W) qs) /\
  db_writes (call_hangs (W := W) true) (SqlSM.Batch sql) (batch (W := W) sql).
Proof. split; [apply execute_writes|]. split; [apply execute_returning_writes|]. split; [apply txn_writes|apply batch_writes]. Qed.

(** The same holds for the write calls of the cache: values, counters and events. *)
Theorem cache_calls_once now i key value ttl v payload req :
  cache_writes_one (CacheSM.Put i key value (expires_at now ttl)) (put_bytes (W := W) now i key value ttl) /\
  cache_writes_one (CacheSM.Replace i key value (expires_at now ttl)) (replace_bytes (W := W) now i key value ttl) /\
  cache_writes_one (CacheSM.GetRemove i key) (get_remove_bytes (W := W) i key) /\
  cache_writes_one (CacheSM.CounterAdd i key v) (counter_add (W := W) i key v) /\
  cache_writes_one (CacheSM.Notify payload) (notify (W := W) payload) /\
  cache_writes_one req (cache_write_call (W := W) req).
Proof.
  split; [apply cache_write_call_writes|]. split; [apply replace_writes|]. split; [apply get_remove_writes|].
  split; [apply counter_add_writes|]. split; [apply notify_writes|apply cache_write_call_writes].
Qed.

(** Taking a distributed lock asks for one fresh ticket at most: its entries in the log
    are one request without a ticket, followed only by claims of a ticket it was given.
    It never meets an answer it cannot handle, it has an entry in the log when it
    succeeds, and it runs out of [fuel] rounds only after as many claims, or in a send that
    blocks. *)
Theorem lock_one_ticket fuel key (s s' : Client * W) r :
  lock fuel key s = (r, s') ->
  writes s'.2 = writes s.2 /\ exists l, cache_writes s'.2 = cache_writes s.2 ++ l /\ claims key None l /\
  match r with Panic => False | OutOfFuel => length l = fuel \/ sends_block (W := W) | Ok _ => l <> [] | Err _ => True end.
Proof.
  unfold lock. step_st. destruct (rate_limit Cache s) as [r1 s1] eqn:E. apply rate_limit_quiet in E as (Hw & Hc & Hr).
  destruct r1 as [u|e| |]; try done.
  - intros Hl. apply lock_loop_claims in Hl. by rewrite Hw, Hc in Hl.
  - intros [= <- <-]. split; [done|]. exists []. by rewrite app_nil_r.
  - intros [= <- <-]. split; [done|]. exists []. rewrite app_nil_r. split; [done|]. split; [done|by right].
Qed.

(** C28: A proxy answers every request with the variant that belongs to it, or a send to its
    stream manager blocks for good; it never panics.  The request is in the log of the
    cluster exactly once when the answer is a success, not at all when it names another
    leader and at most once otherwise; reads leave nothing.  Only a backup is asked for
    with the leader and the clock of the proxy. *)
Theorem proxy_serves_once ts ts' req (c : Client) (w : W) r s' : self c = None -> Proxy.serve_request ts ts' req (c, w) = (r, s') ->
  exists q, same_kind (payload req) q /\
  match r with
  | Ok resp => response_id resp = request_id req /\ answer_for (payload req) (result resp) /\ log_effect q (result_of (result resp)) w s'.2
  | OutOfFuel => sends_block (W := W) /\ log_effect q (OutOfFuel : Res ApiError unit) w s'.2
  | Err _ | Panic => False
  end.
Proof.
  intros Hs. destruct (proxy_serves ts ts' (payload req) c w Hs) as (q & Hk & Hq). unfold Proxy.serve_request. step_st.
  destruct (Proxy.serve_payload ts ts' (payload req) (c, w)) as [[p|e| |] s1]; try done; intros [= <- <-]; by exists q.
Qed.
End ClientTheorems.

(** C18: The rate limit: with [n] refills, at most [rps * (n + 1)] calls are admitted, plus one
    for every caller that stopped waiting early; every call is admitted, refused, gone
    or waiting, exactly once; and when nobody stops early the bucket never holds more
    than the larger one of the burst and the [rps] tokens it starts with. *)
Theorem limit_bounds c es b :
  Limit.config_ok c -> Limit.run c es (Limit.start c) = Some b ->
  Z.of_nat (length (Limit.admitted b)) <= Limit.rps c * (Limit.refills es + 1) + Z.of_nat (length (Limit.left_early b)) /\
  Limit.accounted b ≡ₚ Limit.called es /\
  (Forall (fun e => Limit.stays e = true) es -> Limit.tokens b <= Z.max (Limit.rps c) (Limit.burst c)).
Proof.
  intros Hc Hr. assert (Limit.in_range (Limit.start c)) as H0 by (unfold Limit.in_range; simpl; destruct Hc; lia).
  split; [|split].
  - pose proof (Limit.run_spent _ _ _ _ Hc H0 Hr) as [Hin Hs]. unfold Limit.in_range, Limit.spent, Limit.gone in *. simpl in Hs. lia.
  - rewrite (Limit.run_accounted _ _ _ _ Hr). cbn. by rewrite app_nil_r.
  - intros Hst. apply (Limit.run_full c es (Limit.start c) b Hst); [|done]. split; [simpl; lia|constructor].
Qed.

(** One tick of the rate limit answers everyone who waits, first come first served: the
    front of the queue gets the tokens that are there after the refill. *)
Theorem limit_tick_serves c b :
  Limit.config_ok c -> Limit.in_range b -> Forall (fun e => e.2 = true) (Limit.waiting b) ->
  Limit.waiting (Limit.tick c b) = [] /\
  Limit.admitted (Limit.tick c b) =
    Limit.admitted b ++ take (Z.to_nat (Limit.refill_bucket (Limit.tokens b) (Limit.rps c) (Limit.burst c))) (Limit.waiting b).*1.
Proof.
  intros Hc Hb Hw. unfold Limit.tick. split; [by apply Limit.drain_waiting|].
  rewrite Limit.drain_admitted; [done|done| |done]. simpl. unfold Limit.refill_bucket, Limit.in_range, Limit.config_ok in *. lia.
Qed.

(** ** The handshake *)
Section AuthTheorems.
Context `{Auth.Sha256} `{!Auth.Sha256Ok} `{Auth.AuthCodec} `{!Auth.AuthCodecOk}.
Import Auth.

(** C19: With the same secret both sides finish and the server learns the id of the client;
    with secrets whose digests differ the server refuses.  Whatever bytes a peer sends,
    neither side panics, and a side finishes only if the peer sent the digest of its own
    challenge and secret. *)
Theorem handshake_authenticates s1 s2 node_id rs rc :
  handshake s1 s1 node_id (Some rs) (Some rc) = Ok (node_id, Ok tt) /\
  (sha256 (rs ++ s2) <> sha256 (rs ++ s1) -> handshake s1 s2 node_id (Some rs) (Some rc) = Err BadRequest) /\
  (forall f, settled (client_answer s1 node_id (Some rc) f) /\ (forall r, settled (client_finish s1 r f)) /\ settled (server_finish s1 (mkChallenge rs) f)) /\
  (forall f id out, server_finish s1 (mkChallenge rs) f = Ok (id, out) ->
    exists r, read_message decode_answer f = Ok r /\ cr_response r = sha256 (rs ++ s1)) /\
  (forall f r, client_finish s1 r f = Ok tt ->
    exists x, read_message decode_final f = Ok x /\ final x = sha256 (cr_challenge r ++ s1)).
Proof.
  split; [by rewrite handshake_eq, !bool_decide_true by done|]. split; [intros Hne; by rewrite handshake_eq, bool_decide_false|].
  split; [intros f; auto using client_answer_settled, client_finish_settled, server_finish_settled|]. split.
  - intros f id out (r & Hr & _ & Hd & _)%server_finish_inv. by exists r.
  - intros f r Hc. by apply client_finish_inv in Hc.
Qed.
End AuthTheorems.

(** A remote listener hands every event its connections received to the application,
    once and in order, across reconnects and including what was still queued when a
    connection ended; listening after a point in time gives exactly the events behind
    it. *)
Theorem listen_in_order `{Listen.EventCodec} `{!Listen.EventCodecOk} {A} (decode : list byte -> option A) after ins h evs fuel :
  Forall (fun i => Listen.stays i = true) ins -> Listen.run ins Listen.start = Some h ->
  Listen.delivered h = concat (Listen.reported <$> ins) /\
  Listen.listen_reader ((fun e => mkFrame Binary (Listen.encode_event e)) <$> evs) = Listen.Event <$> evs /\
  ((length (Listen.delivered h) < fuel)%nat ->
   Listen.listen_all fuel decode after (Listen.delivered h) =
     (fun e => decode e.2) <$> filter (fun e => after < e.1) (Listen.delivered h)).
Proof.
  intros Hs Hr. split; [by rewrite (Listen.run_delivers ins Listen.start h Hs eq_refl Hr)|]. split; [apply Listen.reader_events|apply Listen.listen_all_eq].
Qed.

(** The heartbeat of a lock never meets an answer it cannot handle, and [is_locked] is
    true only while the next answer arrives within the lease after the last renewal, up
    to the time [d] one request may take. *)
Theorem heartbeat_bounds `{Heartbeat.Elapsed} `{!Heartbeat.ElapsedOk} now d rs r :
  Forall (Heartbeat.round_ok d) rs -> Heartbeat.round_ok d r ->
  exists t, Heartbeat.rounds rs (Heartbeat.acquired now) = Ok t /\
    (Heartbeat.is_locked t = true ->
     Heartbeat.answer_at t r <= Heartbeat.last_renew t + DLock.LOCK_VALID_SECONDS * 1000 + 1 + d).
Proof.
  intros Hrs Hr. destruct (Heartbeat.rounds_fresh d rs (Heartbeat.acquired now) Hrs (Heartbeat.acquired_fresh now)) as (t & Ht & Hf).
  exists t. split; [done|]. by apply Heartbeat.fresh_bound.
Qed.

(** A query on the read pool returns the rows the writer would return for the same
    statement, when the statement changes nothing; it returns rows or an error, also
    where a conversion of a row panics. *)
Theorem local_query_matches {T} `{Sql.SqlEngine T} `{Rows.RowLib} `{SqlQuery.ReadEngine T} `{!SqlQuery.ReadEngineOk (T := T)} q (c : Sql.Conn T) rows :
  SqlQuery.reads_only q (Sql.user (Sql.cur c)) ->
  (SqlQuery.query_owned_local true q (Sql.user (Sql.cur c)) = Ok rows <-> (SqlWriter.execute_returning q c).1 = Ok (Ok <$> rows)) /\
  settled (SqlQuery.query_owned_local true q (Sql.user (Sql.cur c))).
Proof.
  intros Hr. split; [by apply SqlQuery.query_as_returning|].
  by destruct (SqlQuery.query_owned_settled true q (Sql.user (Sql.cur c))) as [[? ->]|[? ->]].
Qed.

(** ** Instances *)

(** One request and one response on the wire *)
Definition demo_request : ApiStreamRequest := mkRequest 7 (KV (CacheSM.Delete 0 "k")).
Definition demo_response : ApiStreamResponse := mkResponse 7 (PKV (Ok CacheSM.ROk)).
#[export] Instance demo_api : ApiCodec := {|
  encode_request r := [x01];
  decode_request b := if bool_decide (b = [x01]) then Some demo_request else None;
  encode_response r := Some [x02];
  decode_response b := if bool_decide (b = [x02]) then Some demo_response else None;
|}.
Definition demo_other : ApiStreamRequest := mkRequest 8 (KV (CacheSM.Delete 0 "j")).
Definition stream_events : list Stream.Event :=
  [Stream.EvConnected 0; Stream.EvRecv 1 true (Stream.Request (Stream.mkPayload demo_request 3));
   Stream.EvRecv 2 true (Stream.Request (Stream.mkPayload demo_other 4)); Stream.EvKeepalive true;
   Stream.EvRecv 5 true (Stream.StreamResponse demo_response); Stream.EvReadTimeout 40000; Stream.EvReaderClosed].
Lemma run_cons e es m m1 m2 : Stream.on_event e m = Some (Ok m1) -> Stream.run m1 es m2 -> Stream.run m (e :: es) m2.
Proof. apply Stream.run_step. Qed.

Lemma stream_answers_witness : exists m, Stream.run (Stream.start (1, "api-1")) stream_events m /\
  held m ≡ₚ [3%nat; 4%nat] /\ (3%nat, Ok (PKV (Ok CacheSM.ROk))) ∈ Stream.answered m /\ Stream.dropped m = [].
Proof.
  assert (exists m, Stream.run (Stream.start (1, "api-1")) stream_events m /\ Stream.phase m = Stream.Connecting /\
    (3%nat, Ok (PKV (Ok CacheSM.ROk))) ∈ Stream.answered m) as (m & Hr & Hp & Ha).
  { eexists. split; [repeat (eapply run_cons; [vm_compute; reflexivity|]); apply Stream.run_nil|]. split; [done|apply list_elem_of_here]. }
  exists m. destruct (stream_answers (1, "api-1") stream_events m Hr) as (Hh & _ & _ & Hd).
  split; [done|]. split; [exact Hh|]. split; [done|]. apply Hd; [|by rewrite Hp]. eapply bool_decide_unpack. vm_compute. exact I.
Defined.

#[local] Instance net_sql : Sql.SqlEngine Demo := demo_sql false.
#[export] Instance demo_read : SqlQuery.ReadEngine Demo := fun s vs u => Sql.result (Sql.stmt_query s vs u).
#[export] Instance demo_read_ok : SqlQuery.ReadEngineOk (T := Demo).
Proof. by intros s vs u _. Qed.

(** A node that answers from fixed states of its machines *)
Definition demo_writer : @SqlWriter.Writer Demo nat := SqlWriter.spawn_writer false Sql.empty_db ∅ ∅.
Definition demo_machine : CacheSM.StateMachineMemory (M := nat) := CacheSM.fresh_machine false 2 ∅ 0%nat.
Definition demo_clock : CacheSM.Clock := CacheSM.mkClock (fun i _ => (i, i)) (fun i => (i, i)).
#[export] Instance demo_node_api : Server.NodeApi := {|
  Server.db_write q := match (SqlSM.apply_write calm (mkLogId 1 1 1) q demo_writer).1 with Ok r => Some (inr r) | _ => Some (inl None) end;
  Server.cache_write req := match (CacheSM.apply_request demo_clock (fun _ => false) (mkLogId 1 1 1) req demo_machine).1 with Ok r => Some (inr r) | _ => Some (inl None) end;
  Server.ensure_linearizable := Some (inr tt);
  Server.local_query q := SqlQuery.query_owned_local true q (Sql.user Sql.empty_db);
  Server.cache_count := 2;
  Server.cache_get _ _ := None;
  Server.lock_await key id := Some (DLock.Locked id);
|}.
Lemma demo_from_machines : Server.from_machines (T := Demo) (M := nat) (M' := nat).
Proof.
  split.
  - intros q r Hr. exists calm, (mkLogId 1 1 1), demo_writer. cbn [Server.db_write demo_node_api] in Hr.
    destruct (SqlSM.apply_write calm (mkLogId 1 1 1) q demo_writer) as [[x| | |] w'] eqn:E; simpl in Hr; simplify_eq. by exists w'.
  - intros req r Hr. exists demo_clock, (fun _ => false), (mkLogId 1 1 1), demo_machine. cbn [Server.cache_write demo_node_api] in Hr.
    destruct (CacheSM.apply_request demo_clock (fun _ => false) (mkLogId 1 1 1) req demo_machine) as [[x| | |] w'] eqn:E; simpl in Hr; simplify_eq. by exists w'.
  - intros key id s [= <-]. exists 5, 5, (DLock.Await key id 9%nat), (DLock.mkState {[key := DLock.mkLock (Some id) 10 []]} ∅), 9%nat. split; [|done].
    cbn. unfold DLock.handle_await, DLock.promote_key. cbn. rewrite lookup_singleton_eq. cbn. rewrite lookup_insert_eq. cbn.
    rewrite bool_decide_true by done. cbn. apply list_elem_of_here.
  - intros q. by exists true, (Sql.user Sql.empty_db).
Qed.

(** The manager with a connection *)
Definition connected : Stream.Manager := Stream.set_phase (Stream.start (1, "api-1")) Stream.Connected.
Definition meanwhile : list Stream.Event := [Stream.EvRecv 2 true (Stream.Request (Stream.mkPayload demo_other 4)); Stream.EvRecv 3 true Stream.Liveness].

Lemma stream_round_trip_witness : exists m2 m3,
  Stream.run (Stream.on_message 1 true (Stream.Request (Stream.mkPayload demo_request 3)) connected) meanwhile m2 /\
  Stream.answered m3 = [(3%nat, Ok (PKV (Ok CacheSM.ROk)))] /\ Stream.in_flight m3 = {[8 := 4%nat]}.
Proof.
  assert (exists m2, Stream.run (Stream.on_message 1 true (Stream.Request (Stream.mkPayload demo_request 3)) connected) meanwhile m2 /\
    Stream.answered m2 = [] /\ delete 7 (Stream.in_flight m2) = {[8 := 4%nat]}) as (m2 & Hr & Ha & Hf).
  { eexists. split; [repeat (eapply run_cons; [vm_compute; reflexivity|]); apply Stream.run_nil|]. split; vm_compute; reflexivity. }
  destruct (stream_round_trip 1 5 demo_request 3 demo_response [x02] connected meanwhile m2) as (_ & _ & msg & m3 & _ & _ & Ha3 & Hf3).
  1-5: vm_compute; reflexivity.
  - by repeat constructor.
  - intros m1 Hm1. vm_compute in Hm1. injection Hm1 as <-. exact Hr.
  - exists m2, m3. split; [done|]. split; [by rewrite Ha3, Ha|]. rewrite Hf3. exact Hf.
Defined.

Lemma server_answers_witness : exists r,
  Server.serve_request (mkRequest 3 (Execute (Sql.mkQuery "DELETE FROM t" []))) = Ok (mkResponse 3 r) /\ r = PExecute (Ok (Some 0)).
Proof.
  destruct (server_answers (mkRequest 3 (Execute (Sql.mkQuery "DELETE FROM t" []))) demo_from_machines eq_refl) as [(r & Hr & _)|[[Hr _]|[Hr _]]].
  - exists r. split; [exact Hr|]. vm_compute in Hr. by injection Hr as <-.
  - vm_compute in Hr. discriminate.
  - vm_compute in Hr. discriminate.
Defined.

(** A client of another node; the leader moved. *)
Definition demo_client : Client.Client := Client.mkClient (Some 1) (1, "api-1") (1, "api-1") 0 [] None (Some 5).
Definition demo_start : Client.Client * World := (demo_client, mkWorld [] [] [true]).
Definition demo_query1 : Sql.Query := Sql.mkQuery "DELETE FROM t" [].

Lemma client_writes_once_witness :
  (Client.execute demo_query1 demo_start).1 = Ok (Some 1) /\
  writes (Client.execute demo_query1 demo_start).2.2 = [SqlSM.Execute demo_query1].
Proof.
  destruct (client_writes_once (W := World) demo_query1 [demo_query1] "DELETE FROM t;") as [He _].
  destruct (Client.execute demo_query1 demo_start) as [r s'] eqn:E. pose proof (He _ _ _ E) as [Hw _].
  vm_compute in E. injection E as <- <-. split; [reflexivity|exact Hw].
Defined.

Definition demo_remote : Client.Client := Client.mkClient None (1, "a") (1, "a") 0 [] None None.
Lemma proxy_serves_once_witness : exists r s',
  Proxy.serve_request 7 8 (mkRequest 5 (Execute demo_query1)) (demo_remote, mkWorld [] [] [true]) = (Ok (mkResponse 5 (PExecute r)), s') /\
  r = Ok (Some 1) /\ writes s'.2 = [SqlSM.Execute demo_query1].
Proof.
  destruct (Proxy.serve_request 7 8 (mkRequest 5 (Execute demo_query1)) (demo_remote, mkWorld [] [] [true])) as [r s'] eqn:E.
  destruct (proxy_serves_once 7 8 (mkRequest 5 (Execute demo_query1)) demo_remote (mkWorld [] [] [true]) r s' eq_refl E) as (q & Hk & Hl).
  simpl in Hk. subst q. vm_compute in E. injection E as <- <-. eexists _, _. split; [reflexivity|]. split; [reflexivity|].
  exact (proj1 (proj2 (proj2 Hl))).
Defined.

Lemma cache_calls_once_witness :
  (Client.counter_add 0 "c" 4 demo_start).1 = Ok 4 /\
  cache_writes (Client.counter_add 0 "c" 4 demo_start).2.2 = [CacheSM.CounterAdd 0 "c" 4].
Proof.
  destruct (cache_calls_once (W := World) 0 0 "c" [] None 4 (1, []) CacheSM.ClearAll) as (_ & _ & _ & Hc & _).
  destruct (Client.counter_add 0 "c" 4 demo_start) as [r s'] eqn:E. pose proof (Hc _ _ _ E) as [Hw _].
  vm_compute in E. injection E as <- <-. split; [reflexivity|exact Hw].
Defined.

Lemma lock_one_ticket_witness : exists l, cache_writes (Client.lock 3 "k" demo_start).2.2 = l /\ claims "k" None l /\ length l = 2%nat.
Proof.
  destruct (Client.lock 3 "k" demo_start) as [r s'] eqn:E.
  destruct (lock_one_ticket 3 "k" demo_start s' r E) as (_ & l & Hl & Hc & _). exists l. split; [exact Hl|]. split; [exact Hc|].
  vm_compute in E. injection E as <- <-. simpl in Hl. by rewrite <- Hl.
Defined.

(** Ten callers, two of them after a refill *)
Definition demo_limit : Limit.RateLimitConfig := Limit.mkLimit 2 3.
Definition limit_events : list Limit.Event :=
  [Limit.Call 1; Limit.Call 2; Limit.Call 3; Limit.Call 4; Limit.Call 5; Limit.Refill; Limit.Answer; Limit.Answer; Limit.Answer; Limit.Call 6].
Lemma limit_bounds_witness : exists b, Limit.run demo_limit limit_events (Limit.start demo_limit) = Some b /\
  Limit.admitted b = [1; 2; 3; 4]%nat /\ Limit.refused b = [5%nat] /\ Limit.tokens b <= 3.
Proof.
  destruct (Limit.run demo_limit limit_events (Limit.start demo_limit)) as [b|] eqn:E; [|vm_compute in E; discriminate].
  destruct (limit_bounds demo_limit limit_events b) as (_ & _ & Ht); [split; simpl; lia|done|].
  exists b. split; [done|]. vm_compute in E. injection E as <-. repeat split. apply Ht. by repeat constructor.
Defined.
Lemma limit_tick_serves_witness :
  Limit.admitted (Limit.tick demo_limit (Limit.mkBucket 0 [(3%nat, true); (4%nat, true); (5%nat, true)] [] [] [])) = [3; 4]%nat.
Proof.
  refine (proj2 (limit_tick_serves demo_limit (Limit.mkBucket 0 [(3%nat, true); (4%nat, true); (5%nat, true)] [] [] []) _ _ _)).
  - split; simpl; lia.
  - split; simpl; lia.
  - by repeat constructor.
Defined.

Lemma handshake_authenticates_witness :
  Auth.handshake [x73] [x73] 4 (Some [x01]) (Some [x02]) = Ok (4, Ok tt) /\
  Auth.handshake [x73] [x74] 4 (Some [x01]) (Some [x02]) = Err Auth.BadRequest.
Proof.
  destruct (handshake_authenticates [x73] [x74] 4 [x01] [x02]) as (H1 & H2 & _). split; [exact H1|]. apply H2. vm_compute. discriminate.
Defined.

Definition listen_inputs : list Listen.Input :=
  [Listen.InConnectFailed; Listen.InConnected 0; Listen.InRead 1 (Listen.Event (10, [x61])); Listen.InRead 2 Listen.Liveness;
   Listen.InReaderGone; Listen.InLeftover (Listen.Event (20, [x62])); Listen.InEmpty; Listen.InConnected 9; Listen.InRead 10 (Listen.Event (30, [x63]))].
Lemma listen_in_order_witness : exists h, Listen.run listen_inputs Listen.start = Some h /\
  Listen.listen_all 9 (fun b => Some b) 15 (Listen.delivered h) = [Some [x62]; Some [x63]].
Proof.
  destruct (Listen.run listen_inputs Listen.start) as [h|] eqn:E; [|vm_compute in E; discriminate]. exists h. split; [done|].
  destruct (listen_in_order (fun b => Some b) 15 listen_inputs h [(10, [x61])] 9) as (Hd & _ & Hl); [by repeat constructor|done|].
  rewrite Hl; rewrite Hd; [reflexivity|vm_compute; lia].
Defined.

Lemma heartbeat_bounds_witness : exists t,
  Heartbeat.rounds [Heartbeat.mkRound (Ok (DLock.Locked 5)) 20; Heartbeat.mkRound (Err Timeout) 400] (Heartbeat.acquired 1000) = Ok t /\
  Heartbeat.is_locked t = true /\ Heartbeat.answer_at t (Heartbeat.mkRound (Err Timeout) 500) <= 4020 + 10501.
Proof.
  destruct (heartbeat_bounds 1000 500 [Heartbeat.mkRound (Ok (DLock.Locked 5)) 20; Heartbeat.mkRound (Err Timeout) 400] (Heartbeat.mkRound (Err Timeout) 500))
    as (t & Ht & Hb); [repeat constructor; simpl; lia|repeat constructor; simpl; lia|].
  exists t. split; [exact Ht|]. vm_compute in Ht. injection Ht as <-. split; [reflexivity|]. apply Hb. reflexivity.
Defined.

Lemma local_query_matches_witness :
  SqlQuery.query_owned_local true (Sql.mkQuery "SELECT * FROM t" []) (Sql.user Sql.empty_db) = Ok [] /\
  (SqlWriter.execute_returning (Sql.mkQuery "SELECT * FROM t" []) (Sql.mkConn Sql.empty_db None)).1 = Ok [].
Proof.
  destruct (local_query_matches (Sql.mkQuery "SELECT * FROM t" []) (Sql.mkConn Sql.empty_db None) []) as [Hq _].
  - split; [|done]. intros p Hp. vm_compute in Hp. by injection Hp as <-.
  - split; [vm_compute; reflexivity|]. apply Hq. vm_compute. reflexivity.
Defined.

Import RaftDemo.
(** A vote over a first connection whose answer is lost, and an append over the second *)
Definition demo_link_events : list (@RaftLink.Event RaftDemo.demo_types (list Z)) :=
  [RaftLink.ELook false true; RaftLink.EConnected; RaftLink.ECall 0 (RaftLink.VoteDB 7) RaftLink.Written; RaftLink.EReadError;
   RaftLink.ELook false true; RaftLink.EConnected; RaftLink.ECall 1 (RaftLink.AppendDB 8) RaftLink.Written;
   RaftLink.EServe 1 true; RaftLink.EServe 0 true; RaftLink.EDeliver].
Definition demo_append : RaftLink.Rpc := RaftLink.AppendDB 8.
Definition demo_appended : RaftLink.Payload := RaftLink.PAppendDB (inl 9).
Lemma raft_link_faithful_witness : exists l, RaftLink.run demo_link_events (RaftLink.fresh []) = Some l /\
  RaftLink.answered (RaftLink.client l) = [(0%nat, Err Connect); (1%nat, Ok demo_appended)] /\
  exists p v, (demo_append, p) ∈ RaftLink.served l /\ RaftLink.call demo_append (Some (Ok p)) = Ok v.
Proof.
  destruct (RaftLink.run demo_link_events (RaftLink.fresh [])) as [l|] eqn:E; [|vm_compute in E; discriminate].
  destruct (raft_link_faithful demo_link_events [] l E ltac:(vm_compute; reflexivity)) as (_ & _ & _ & Hf).
  exists l. assert (RaftLink.answered (RaftLink.client l) = [(0%nat, Err Connect); (1%nat, Ok demo_appended)]) as Ha
    by (vm_compute in E; injection E as <-; reflexivity).
  split; [done|]. split; [done|].
  destruct (Hf ltac:(vm_compute; apply (bool_decide_unpack _); reflexivity) 1%nat demo_append (Some (Ok demo_appended)))
    as [Hu|(p & v & Hp & _ & [= <-] & Hv)].
  - right. left.
  - simpl. rewrite Ha. right. left.
  - discriminate Hu.
  - exists demo_appended, v. done.
Defined.

(** * What modelling showed *)
Import Net.

#[local] Open Scope Z_scope.

(** A remote [counter_get] is a [KVGet] the server does not know: its task panics, so there
    is no response and the call ends with the timeout of the stream. *)
Theorem remote_counter_get_fails `{Server.NodeApi} {W} `{Client.ClientWorld W} (c : Client.Client) (w : W) i key :
  Client.self c = None ->
  (forall l req w, Server.serve_request req = Panic -> (Client.stream l req w).1 = Client.Accepted Client.TimedOut) ->
  (Client.counter_get i key (c, w)).1 = Err Connect.
Proof.
  intros Hself Hs. unfold Client.counter_get, Client.is_member, Client.cache_req_retry, Client.with_retry, Client.retry_with, Client.cache_req, Client.is_leader.
  step_st. rewrite Hself. cbn. rewrite Hself. unfold Client.ask, Client.new_request_id, Client.on_world. step_st.
  pose proof (Hs Client.Cache (mkRequest (Client.next_id c) (KVGet (CacheSM.CounterGet i key))) w eq_refl) as Ht.
  destruct (Client.stream Client.Cache _ w) as [o w']. cbn in Ht. by subst o.
Qed.

(** A [KV] request may carry a read or an await, which the server commits; applying it
    panics on every node, in every state. *)
Theorem read_is_committed `{Server.NodeApi} {M} clk closed id (m : CacheSM.StateMachineMemory (M := M)) i key :
  (i < Server.cache_count)%nat ->
  Server.serve_payload (KV (CacheSM.Get i key)) = (r ← Server.write_kv (CacheSM.Get i key); Ok (PKV r)) /\
  (CacheSM.apply_request clk closed id (CacheSM.Get i key) m).1 = Panic /\
  (CacheSM.apply_request clk closed id (CacheSM.LockAwait key 1) m).1 = Panic.
Proof.
  intros Hi%Nat.ltb_lt. split; [|done]. cbn [Server.serve_payload]. unfold Server.index_ok. cbn [Server.cache_idx]. by rewrite Hi.
Qed.

(** Two requests of the old leader are forwarded; each caller reports the new leader.  The
    second report ends the new connection while the retry of the first caller is in
    flight: the caller gets an error, its write is on the wire. *)
Definition new_leader : Stream.ClientStreamReq := Stream.LeaderChange (Some 2) (Some demo_node).
Definition two_reports : list Stream.Event :=
  [Stream.EvConnected 0; Stream.EvRecv 1 true new_leader; Stream.EvReaderClosed; Stream.EvConnected 2;
   Stream.EvRecv 3 true (Stream.Request (Stream.mkPayload demo_request 5)); Stream.EvRecv 4 true new_leader].
Theorem second_report_fails_retry : exists m, Stream.run (Stream.start (1, "api-1")) two_reports m /\
  Stream.answered m = [(5%nat, Err LeaderChange)] /\ Stream.wire m = [Stream.CloseFrame; Stream.Payload (encode_request demo_request); Stream.CloseFrame] /\
  is_forward_to_leader LeaderChange = None.
Proof.
  eexists. split; [repeat (eapply run_cons; [vm_compute; reflexivity|]); apply Stream.run_nil|]. done.
Qed.

(** A caller that stopped waiting gives a token back that it never took. *)
Definition small_limit : Limit.RateLimitConfig := Limit.mkLimit 1 1.
Theorem gone_caller_mints : exists b,
  Limit.run small_limit
    [Limit.Call 1; Limit.Call 2; Limit.Call 3; Limit.Call 4; Limit.Call 5; Limit.Call 6; Limit.Leave 3; Limit.Leave 5; Limit.Refill;
     Limit.Answer; Limit.Answer; Limit.Answer; Limit.Answer; Limit.Answer] (Limit.start small_limit) = Some b /\
  Limit.admitted b = [1; 2; 4; 6]%nat.
Proof. eexists. split; [vm_compute; reflexivity|done]. Qed.

(** One call takes up to three tokens. *)
Theorem returning_takes_three : exists s,
  Client.execute_returning_map_one demo_query1 (Client.mkClient (Some 1) (1, "api-1") (1, "api-1") 0 [] (Some 3) None, mkWorld [] [] []) =
    (Err (Other EQueryReturnedNoRows), s) /\ Client.tokens_db s.1 = Some 0.
Proof. eexists. split; [vm_compute; reflexivity|done]. Qed.

(** On a leader that lost its quorum [execute] times out, [execute_returning] never
    returns. *)
Theorem returning_never_times_out {W} `{Client.ClientWorld W} (c : Client.Client) (w : W) q :
  Client.self c = Some (Client.leader_db c).1 -> Client.tokens_db c = None -> (forall q w, (Client.local_db q w).1 = Client.Stalled) ->
  (Client.execute q (c, w)).1 = Err Timeout /\ (Client.execute_returning q (c, w)).1 = OutOfFuel.
Proof.
  intros Hself Ht Hs. unfold Client.execute, Client.execute_returning, Client.rate_limit, Client.try_rate_limit, Client.with_retry, Client.retry_with,
    Client.execute_req, Client.execute_returning_req, Client.db_call, Client.is_leader, Client.on_world. step_st. cbn [Client.tokens_of]. rewrite Ht. cbn [fst snd].
  rewrite Hself. cbn [Client.leader_of]. rewrite Z.eqb_refl.
  pose proof (Hs (SqlSM.Execute q) w) as H1. pose proof (Hs (SqlSM.ExecuteReturning q) w) as H2.
  destruct (Client.local_db (SqlSM.Execute q) w) as [o1 w1], (Client.local_db (SqlSM.ExecuteReturning q) w) as [o2 w2]. cbn in H1, H2. by subst.
Qed.

(** While a heartbeat request waits for its timeout, [is_locked] stays true; the lease of
    ten seconds is long over. *)
Theorem flag_outlives_lease : exists t,
  Heartbeat.rounds [] (Heartbeat.acquired 0) = Ok t /\ Heartbeat.is_locked t = true /\
  Heartbeat.answer_at t (Heartbeat.mkRound (Err Connect) 120000) = 123000 /\ Heartbeat.last_renew t + DLock.LOCK_VALID_SECONDS * 1000 = 10000.
Proof. eexists. split; [reflexivity|done]. Qed.

(** A server that does not know the secret finishes the handshake of a client: it has
    another session of a client answer the challenge of the first one. *)
Theorem rogue_server_accepted `{Auth.Sha256} `{!Auth.Sha256Ok} `{Auth.AuthCodec} `{!Auth.AuthCodecOk} secret n1 n2 x c1 c2 :
  exists r1 f1 r2 f2,
    Auth.client_answer secret n1 (Some c1) (Some (mkFrame Binary (Auth.encode_challenge (Auth.mkChallenge x)))) = Ok (r1, f1) /\
    Auth.client_answer secret n2 (Some c2) (Some (mkFrame Binary (Auth.encode_challenge (Auth.mkChallenge (Auth.cr_challenge r1))))) = Ok (r2, f2) /\
    Auth.client_finish secret r1 (Some (mkFrame Binary (Auth.encode_final (Auth.mkFinal (Auth.cr_response r2))))) = Ok tt.
Proof.
  unfold Auth.client_answer. cbn. rewrite Auth.challenge_round. cbn. do 4 eexists. split; [done|]. rewrite Auth.challenge_round. cbn. split; [done|].
  unfold Auth.client_finish. cbn. rewrite Auth.final_round. cbn. unfold Auth.verify_final. cbn.
  by rewrite (proj2 (Auth.cmp_spec _ _)) by (split; [done|apply Auth.sha256_len]).
Qed.

(** The streams of the client ask for a path that the nodes serve and the proxy does not:
    a client cannot open a stream to a proxy. *)
Theorem proxy_serves_no_stream l : Proxy.routed Proxy.NODE_ROUTES (Proxy.stream_path l) = true /\ Proxy.routed Proxy.PROXY_ROUTES (Proxy.stream_path l) = false.
Proof. by destruct l. Qed.

(** An event that the proxy cannot write because the leader has changed is answered with
    the forward, although these are meant to stay behind the proxy; the same request
    would have succeeded with the retry of the other calls. *)
Theorem event_forwarded_through_proxy : exists s1 s2,
  Proxy.serve_payload 0 0 (Notify (CacheSM.Notify (1, []))) (demo_remote, mkWorld [] [] [true]) = (Ok (PNotify (Err (ClientWriteError (Some demo_forward)))), s1) /\
  Proxy.serve_payload 0 0 (KV (CacheSM.Notify (1, []))) (demo_remote, mkWorld [] [] [true]) = (Ok (PKV (Ok CacheSM.ROk)), s2).
Proof. eexists _, _. by vm_compute. Qed.
