(* ===== verification/ClusterTheorems.v ===== *)
(** Membership and shutdown of a node: what its peers and its operator rely on, with an
    instance of each theorem on a small cluster. *)
From stdpp Require Import base gmap strings list numbers sorting.
From Stdlib Require Import Strings.Byte.
From S2P Require Import Prelude SqlRows NetBase ClusterBase ClusterMgmt ClusterSpec ClusterInit ClusterShutdown.
Import Net Cluster Mgmt Init.

#[local] Open Scope Z_scope.

Section Theorems.
Context {W : Type} `{RaftNode W} `{RaftLog W} `{!RaftNodeOk (W := W)} `{ClusterHttp W} `{!ClusterHttpOk (W := W)}.

(** C20: No management endpoint asks openraft to take the leader out of the membership in the
    step that openraft needs it for: a change that removes the leader from the voters keeps
    it as a learner.  Every endpoint ends without a panic: its own waits for a commit or a
    demotion give up after their timeout, and it does not return only if openraft never
    answers a membership command, for which there is no timeout. *)
Theorem endpoints_keep_leader app t secret body ids leave :
  submits t (safe app) (add_learner (W := W) app t secret body) /\
  submits t (safe app) (become_member (W := W) app t secret body) /\
  submits t (safe app) (post_membership (W := W) app t secret ids) /\
  submits t (safe app) (leave_cluster (W := W) app t secret leave).
Proof. split; [apply add_learner_safe|]. split; [apply become_member_safe|]. split; [apply post_membership_safe|apply leave_cluster_safe]. Qed.

(** Leaving submits the commands of the plan for the membership it reads, in order: for a
    voter the removal from the voters, and for the leader itself, unless it stays a
    learner, then the removal of its entry; for a learner that does not stay the removal
    of its entry; nothing else.  When it succeeds at least the first one was submitted. *)
Theorem leave_follows_plan app t payload (w w' : W) r :
  leave_cluster_exec app t payload w = (r, w') -> t <> Unknown ->
  ends (W := W) r /\ clock w <= clock w' /\
  exists l, sent w' = sent w ++ ((t,.) <$> l) /\ follows (leave_plan app payload (membership_config (metrics_now t w).1)) r l.
Proof. apply leave_submits. Qed.

(** No endpoint does anything without the secret of the node. *)
Theorem endpoints_need_secret app t secret body ids leave (w : W) :
  secret <> Some (secret_api app) ->
  add_learner app t secret body w = (Err Token, w) /\ become_member app t secret body w = (Err Token, w) /\
  post_membership app t secret ids w = (Err Token, w) /\ leave_cluster app t secret leave w = (Err Token, w) /\
  get_membership app t secret w = (Err Token, w) /\ metrics app t secret w = (Err Token, w).
Proof.
  intros Hs. assert (validate_secret app secret w = (Err Token, w)) as Hv.
  { unfold validate_secret. destruct secret as [s|]; [|done]. rewrite bool_decide_false by congruence. done. }
  unfold add_learner, become_member, post_membership, leave_cluster, get_membership, metrics.
  unfold mbind, st_bind. by rewrite Hv.
Qed.

(** C21: Joining submits nothing on the joining node, and when it returns, the node was
    initialized before, or has just seen that it is, or it has just seen itself in the
    membership: as a voter, or as a learner when it is to stay one. *)
Theorem join_sees_itself fuel app t this ns (w w' : W) :
  become_cluster_member fuel app t this ns w = (Ok tt, w') ->
  sent w' = sent w /\
  ((exists w1, is_initialized t w = (Ok true, w1)) \/ came_up t w' \/
   observed t (if learner_only app then is_node (app_id app) else is_voter (app_id app)) w').
Proof. intros Hr. split; [by apply still_become_member in Hr as [? _]|by apply become_member_joined in Hr]. Qed.

(** C22: Only node 1 initializes a cluster, with itself as the only member, once, and after it
    decided not to skip; it skips only when another node reports a membership. *)
Theorem only_first_initializes fuel t disk hb id ns (w w' : W) r :
  0 <= hb -> init_pristine_node_1 fuel t disk hb id ns w = (r, w') ->
  (sent w' = sent w \/
   id = 1 /\ exists n w1 w2, n ∈ ns /\ node_id n = 1 /\ should_node_1_skip_init fuel t ns w1 = (Ok false, w2) /\ idle w w1 /\
     sent w' = sent w ++ [(t, Initialize n)]) /\
  (forall w1 w2, should_node_1_skip_init fuel t ns w1 = (Ok true, w2) -> reported t ns w2).
Proof. intros Hb Hr. split; [by eapply init_pristine_once|]. intros w1 w2. apply skip_true. Qed.

(** C24: Looking for the own membership on other nodes and leaving their cluster always end.
    The look asks every other node at most twice, in order, each time only while fewer than
    half of the nodes have refused; the first node that answers with its membership decides,
    and without one the node counts as no member.  Leaving asks every other node once per
    round until one accepts, and fails with [Connect] exactly when no one does in all
    rounds; then it looks at the memberships of the other nodes in as many rounds, until one
    no longer has this node or gives no answer it can read, which is an error; when no one
    does, it succeeds.  Neither submits anything. *)
Theorem remote_checks_end `{!ReplyLog W} `{!ReplyLogOk (W := W)} t this ns retries (w : W) :
  calm (is_remote_cluster_member (W := W) t this ns) /\ calm (leave_remote_cluster (W := W) t this ns retries) /\
  (forall r w', is_remote_cluster_member t this ns w = (r, w') ->
     exists b l, r = Ok b /\ metrics_replies w' = metrics_replies w ++ l /\
       (member_talk this (length ns / 2) 0 (others this ns ++ others this ns) l (inl b) \/
        b = false /\ member_talk this (length ns / 2) 0 (others this ns ++ others this ns) l (inr (refusals l)))) /\
  (forall r w', leave_remote_cluster t this ns retries w = (r, w') ->
     exists asked looks, leave_replies w' = leave_replies w ++ asked /\ metrics_replies w' = metrics_replies w ++ looks /\
       leave_talk this (concat (replicate (retries + 1) (others this ns))) asked looks r).
Proof.
  split; [apply calm_remote_member|]. split; [apply calm_leave_remote|]. split.
  - intros r w' (b & l & Hr & Hm & _ & Ht)%remote_member_talk. by exists b, l.
  - apply leave_remote_talk.
Qed.
End Theorems.

(** C23: However many callers shut a node down at the same time, the work is done at most once
    and in order, by one of them.  [Client::shutdown] reports success when all of it is
    done, to the one that works and to those that wait, and in one other case: to the one
    that works, when one of the actions whose errors are returned has failed; then what
    comes before that action is done, and nothing behind it ever will be. *)
Theorem shutdown_once disk k es n :
  Shutdown.run disk es (Shutdown.start k) = Some n ->
  Shutdown.log n `prefix_of` Shutdown.teardown disk /\
  (forall i j r1 r2, Shutdown.callers n !! i = Some (Shutdown.Runner r1) -> Shutdown.callers n !! j = Some (Shutdown.Runner r2) -> i = j) /\
  (forall i o, Shutdown.callers n !! i = Some (Shutdown.Finished o) -> Shutdown.shutdown_result o = true ->
     Shutdown.log n = Shutdown.teardown disk \/
     o = Shutdown.Failed /\ Shutdown.stuck_at_failure disk n /\
       forall es' n', Shutdown.run disk es' n = Some n' -> Shutdown.log n' = Shutdown.log n).
Proof.
  intros Hr. pose proof (Shutdown.run_shutdown_ok disk es _ _ (Shutdown.start_ok disk k) Hr) as Hok. pose proof Hok as [Hp _ Ho _ _ Hf Hb].
  split; [done|]. split; [done|]. intros i o Hi Hres. destruct o; [left; by eapply Hf|right|done]. split; [done|]. split; [by apply (Hb i)|].
  intros es' n'. by apply (Shutdown.failed_stays disk es' i n n').
Qed.

(** ** A small cluster *)

(** The membership is changed at once; the other nodes answer as given. *)
Record World : Type := mkWorld {
  cmds : list (RaftType * Command);
  time : Z;
  config : Membership;
  leader : option Z;
  up : bool;
  peers : gmap Z (Reply Membership);
  metrics_got : list (Z * Reply Metrics);
  leaves_got : list (Z * Reply unit);
}.
Definition with_config (c : Membership) (w : World) : World := mkWorld (cmds w) (time w) c (leader w) (up w) (peers w) (metrics_got w) (leaves_got w).
Definition obey (c : Command) (m : Membership) : Membership :=
  match c with
  | Initialize n => mkMembership {[node_id n]} {[node_id n := n]}
  | AddLearner n => mkMembership (voters m) (<[node_id n := n]> (nodes m))
  | Change (ReplaceAllVoters s) retain => mkMembership s (if retain then nodes m else filter (fun e => e.1 ∈ s) (nodes m))
  | Change (RemoveVoters s) retain => mkMembership (voters m ∖ s) (if retain then nodes m else filter (fun e => e.1 ∉ s) (nodes m))
  | Change (RemoveNodes s) _ => mkMembership (voters m) (filter (fun e => e.1 ∉ s) (nodes m))
  end.
#[export] Instance demo_raft : RaftNode World := {|
  is_initialized _ w := (Ok (up w), w);
  leader_now _ w := (leader w, w);
  metrics_now _ w := (mkMetrics true (leader w) (if bool_decide (leader w = Some 1 /\ is_node 1 (config w) = true) then Leader else Follower) (config w), w);
  submit t c w := (Ok tt, mkWorld (cmds w ++ [(t, c)]) (time w) (obey c (config w)) (leader w) true (peers w) (metrics_got w) (leaves_got w));
  stopped _ _ := false;
  startup_finished _ _ := true;
  set_running _ w := w;
  shutting_down _ := false;
  sleep d w := mkWorld (cmds w) (time w + d) (config w) (leader w) (up w) (peers w) (metrics_got w) (leaves_got w);
  clock := time;
|}.
#[export] Instance demo_sent : RaftLog World := cmds.
#[export] Instance demo_raft_ok : RaftNodeOk (W := World).
Proof.
  split; simpl.
  - by intros t w r w' [= <- <-].
  - by intros t w r w' [= <- <-].
  - by intros t w r w' [= <- <-].
  - intros t c w r w' [= <- <-]. split; [done|]. split; [simpl; lia|]. by left.
  - done.
  - done.
Qed.
(** A peer takes a request to join, and hands out what the local node then has. *)
Definition join (s : Suffix) (n : Node) (w : World) : World :=
  with_config match s with Add_learner => obey (AddLearner (mkNode 2 "r2" "a2")) (config w) | Become_member => mkMembership ({[2]} ∪ voters (config w)) (nodes (config w)) end w.
#[export] Instance demo_http : ClusterHttp World := {|
  req_membership _ n w := (default NoConnection (peers w !! node_id n), w);
  req_metrics _ n w :=
    let r := match peers w !! node_id n with Some (Success (Some m)) => Success (Some (mkMetrics true None Follower m)) | Some (Failure e) => Failure e | _ => NoConnection end in
    (r, mkWorld (cmds w) (time w) (config w) (leader w) (up w) (peers w) (metrics_got w ++ [(node_id n, r)]) (leaves_got w));
  req_become s _ n w := (Success (Some tt), join s n w);
  req_leave _ n w :=
    let r := match peers w !! node_id n with Some (Success _) => Success (Some tt) | _ => NoConnection end in
    (r, mkWorld (cmds w) (time w) (config w) (leader w) (up w) (peers w) (metrics_got w) (leaves_got w ++ [(node_id n, r)]));
|}.
#[export] Instance demo_http_ok : ClusterHttpOk (W := World).
Proof. split; simpl; [intros ? ? w r w'|intros ? ? w r w'|intros ? ? ? w r w'|intros ? ? w r w']; intros [= <- <-]; done. Qed.

Definition node (i : Z) : Node := mkNode i "r" "a".
Definition three : Membership := mkMembership {[1; 2; 3]} (list_to_map [(1, node 1); (2, node 2); (3, node 3)]).
Definition led : World := mkWorld [] 0 three (Some 1) true ∅ [] [].
Definition demo_app : App := mkApp 1 [x73] false 30000 0.

Lemma endpoints_keep_leader_witness : exists w', leave_cluster demo_app Cache (Some [x73]) (Some (mkLeave 1 false)) led = (Ok tt, w') /\
  cmds w' = [(Cache, Change (RemoveVoters {[1]}) true); (Cache, Change (RemoveNodes {[1]}) false)] /\
  exists l, cmds w' = (Cache,.) <$> l /\ Forall (keeps_leader demo_app) l.
Proof.
  destruct (endpoints_keep_leader (W := World) demo_app Cache (Some [x73]) None None (Some (mkLeave 1 false))) as (_ & _ & _ & Hl).
  destruct (leave_cluster demo_app Cache (Some [x73]) (Some (mkLeave 1 false)) led) as [r w'] eqn:E.
  destruct (Hl _ _ _ E) as (_ & _ & l & Hs & Hf). exists w'. vm_compute in E. injection E as <- <-. split; [done|]. split; [done|]. by exists l.
Defined.
Lemma leave_follows_plan_witness : exists w' l, leave_cluster_exec demo_app Sqlite (mkLeave 2 true) led = (Ok tt, w') /\
  cmds w' = (Sqlite,.) <$> l /\ l `prefix_of` [Change (RemoveVoters {[2]}) true] /\ l <> [].
Proof.
  destruct (leave_cluster_exec demo_app Sqlite (mkLeave 2 true) led) as [r w'] eqn:E.
  destruct (leave_follows_plan demo_app Sqlite (mkLeave 2 true) led w' r E ltac:(done)) as (_ & _ & l & Hs & Hp & Hn).
  exists w', l. vm_compute in E. injection E as <- <-. split; [done|]. split; [exact Hs|]. split; [exact Hp|]. by apply (Hn tt).
Defined.
Lemma endpoints_need_secret_witness : leave_cluster demo_app Cache (Some [x74]) (Some (mkLeave 2 false)) led = (Err Token, led).
Proof. apply (endpoints_need_secret demo_app Cache (Some [x74]) None None (Some (mkLeave 2 false)) led). done. Defined.

Definition joining : World := mkWorld [] 0 (mkMembership ∅ ∅) (Some 1) false ∅ [] [].
Definition demo_app2 : App := mkApp 2 [x73] false 30000 0.
Lemma join_sees_itself_witness : exists w', become_cluster_member 3 demo_app2 Cache 2 [node 1; node 2] joining = (Ok tt, w') /\ is_voter 2 (config w') = true.
Proof.
  destruct (become_cluster_member 3 demo_app2 Cache 2 [node 1; node 2] joining) as [[[]| | |] w'] eqn:E; [|vm_compute in E; discriminate..].
  exists w'. split; [done|]. destruct (join_sees_itself 3 demo_app2 Cache 2 [node 1; node 2] joining w' E) as [_ [[w1 H1]|[[w1 H1]|(w1 & m & Hm & Hv)]]].
  - discriminate H1.
  - vm_compute in E. injection E as <-. reflexivity.
  - simpl in Hm. injection Hm as <- <-. exact Hv.
Defined.

Definition pristine (ps : gmap Z (Reply Membership)) : World := mkWorld [] 0 (mkMembership ∅ ∅) None false ps [] [].
Lemma only_first_initializes_witness : exists w',
  init_pristine_node_1 4 Sqlite true 500 1 [node 1; node 2; node 3] (pristine {[2 := Failure (Some Config)]}) = (Ok tt, w') /\
  cmds w' = [(Sqlite, Initialize (node 1))].
Proof.
  destruct (init_pristine_node_1 4 Sqlite true 500 1 [node 1; node 2; node 3] (pristine {[2 := Failure (Some Config)]})) as [r w'] eqn:E.
  destruct (only_first_initializes 4 Sqlite true 500 1 [node 1; node 2; node 3] _ w' r ltac:(lia) E) as [[Hs|(_ & n & w1 & w2 & _ & _ & _ & _ & Hs)] _];
    exists w'; vm_compute in E; injection E as <- <-; [discriminate Hs|]. split; [done|]. reflexivity.
Defined.
#[export] Instance demo_replies : ReplyLog World := {| metrics_replies := metrics_got; leave_replies := leaves_got |}.
#[export] Instance demo_replies_ok : ReplyLogOk (W := World).
Proof. split; simpl; [by intros t n w r w' [= <- <-]|by intros t n w r w' [= <- <-]|done]. Qed.
(** Node 1 refuses, node 3 still has node 2; then node 2 leaves. *)
Definition refused : World := mkWorld [] 0 three (Some 1) true (list_to_map [(1, Failure None); (3, Success (Some three))]) [] [].
Lemma remote_checks_end_witness : exists w' l,
  is_remote_cluster_member Cache 2 [node 1; node 2; node 3; node 4; node 5] refused = (Ok true, w') /\ metrics_replies w' = l /\ l.*1 = [1; 3] /\
  (member_talk 2 2 0 [1; 3; 4; 5; 1; 3; 4; 5] l (inl true) \/ true = false).
Proof.
  destruct (remote_checks_end (W := World) Cache 2 [node 1; node 2; node 3; node 4; node 5] 1 refused) as (_ & _ & Hm & _).
  destruct (is_remote_cluster_member Cache 2 [node 1; node 2; node 3; node 4; node 5] refused) as [r w'] eqn:E.
  destruct (Hm _ _ eq_refl) as (b & l & Hb & Hl & Ht). exists w', l. vm_compute in E. injection E as <- <-. injection Hb as <-.
  split; [reflexivity|]. split; [exact Hl|]. split; [simpl in Hl; by rewrite <- Hl|]. destruct Ht as [Ht|[Hf _]]; [left; exact Ht|right; exact Hf].
Defined.

Definition two_callers : list Shutdown.Event :=
  Shutdown.Step 0 false :: Shutdown.Step 1 false :: replicate 11 (Shutdown.Step 0 false) ++ [Shutdown.Step 1 false].
Lemma shutdown_once_witness : exists n, Shutdown.run true two_callers (Shutdown.start 2) = Some n /\
  Shutdown.callers n !! 1%nat = Some (Shutdown.Finished Shutdown.Completed) /\ Shutdown.log n = Shutdown.teardown true.
Proof.
  destruct (Shutdown.run true two_callers (Shutdown.start 2)) as [n|] eqn:E; [|vm_compute in E; discriminate].
  destruct (shutdown_once true 2 two_callers n E) as (_ & _ & Hf). exists n. split; [done|].
  assert (Shutdown.callers n !! 1%nat = Some (Shutdown.Finished Shutdown.Completed)) as H1 by (vm_compute in E; injection E as <-; reflexivity).
  split; [done|]. by destruct (Hf 1%nat _ H1 eq_refl) as [Hl|[[=] _]].
Defined.

(** * What modelling showed *)
Import Net Cluster Mgmt Init.

#[local] Open Scope Z_scope.

(** Node 3 runs a cluster and would say so, but node 2, which is asked first, cannot be
    reached: node 1 after the loss of its disk initializes a second cluster, because its
    own entry in the list of skipped nodes counts for the quorum already. *)
Theorem second_cluster_initialized : exists w',
  init_pristine_node_1 1 Sqlite true 500 1 [node 1; node 2; node 3]
    (pristine {[3 := Success (Some (mkMembership {[2; 3]} (list_to_map [(2, node 2); (3, node 3)])))]}) = (Ok tt, w') /\
  cmds w' = [(Sqlite, Initialize (node 1))] /\ reported Sqlite [node 1; node 2; node 3] w'.
Proof.
  eexists. split; [vm_compute; reflexivity|]. split; [reflexivity|].
  unfold reported. match goal with |- exists n w0 m, _ /\ _ /\ _ = (_, ?w) /\ _ => exists (node 3), w end.
  eexists. split; [set_solver|]. split; [done|]. split; [vm_compute; reflexivity|done].
Qed.

(** A node without members that gets its membership while the endpoint waits for it: the
    endpoint reports an error all the same. *)
Theorem membership_wait_in_vain {W} `{RaftNode W} app t (w w0 w1 : W) m :
  ensure_running t Config w = (Ok tt, w0) -> get_raft_metrics t w0 = (Ok m, w1) -> nodes (membership_config m) = ∅ ->
  (get_membership app t (Some (secret_api app)) w).1 = Err Config.
Proof.
  intros Hr Hm Hn. unfold get_membership, validate_secret, wait. unfold mbind, st_bind.
  rewrite bool_decide_true by done. cbn. rewrite Hr, Hm, bool_decide_true by done. cbn.
  destruct t; unfold get_raft_metrics, on_world in *; cbn in *; [by destruct (metrics_now _ (sleep _ _))..|done].
Qed.

(** The shutdown of the cache Raft fails: nothing behind it runs, the caller is told that
    the node was shut down, and a second caller never does the rest. *)
Theorem failed_shutdown_reported_ok : exists n,
  Shutdown.run true [Shutdown.Step 0 false; Shutdown.Step 0 false; Shutdown.Step 0 true; Shutdown.Step 1 false] (Shutdown.start 2) = Some n /\
  Shutdown.callers n = [Shutdown.Finished Shutdown.Failed; Shutdown.Waiter] /\
  Shutdown.log n = [Shutdown.StopCache] /\ Shutdown.shutdown_result Shutdown.Failed = true /\
  forall fails, Shutdown.step true (Shutdown.Step 1 fails) n = None.
Proof. eexists. split; [reflexivity|]. done. Qed.
