(* ===== verification/ClusterCheck.v ===== *)
(** Checks at start and at run time: [hiqlite/src/split_brain_check.rs],
    [hiqlite/src/v0_15_auto_cache_migration.rs], the search for the leader of
    [hiqlite/src/client/helpers.rs], and the listen addresses of [hiqlite/src/start.rs].

    What is logged is part of the state, because it is all the split-brain check does.
    [StoredMembership] also compares the log id of the membership, which [Membership] does
    not have, so its equality is a parameter. *)
From stdpp Require Import base gmap strings list numbers.
From Stdlib Require Import Strings.Byte Ascii.
From S2P Require Import Prelude Text SqlRows SqlBase SqlWriter NetBase ClusterBase.
Import Net Cluster.

#[local] Open Scope Z_scope.

Module Check.

(** ** Split brain *)
Inductive Report : Type :=
| NoLeader (t : RaftType)
| MissingNode (t : RaftType) (remote id : Z)
| Different (t : RaftType) (remote : Z)
| LookupFailed (t : RaftType) (remote : Z)
| CheckFailed (t : RaftType).

Class StoredEq : Type := same_stored : Membership -> Membership -> bool.

Section SplitBrain.
Context {W : Type} `{RaftNode W} `{ClusterHttp W} `{StoredEq}.
Abbreviation LSt := (St ApiError (W * list Report)).
Definition log (l : list Report) : LSt unit := fun '(w, rs) => (Ok tt, (w, rs ++ l)).
Definition on_net {A} (f : W -> A * W) : LSt A := fun '(w, rs) => let '(a, w) := f w in (Ok a, (w, rs)).

(** [check_nodes_in_members] *)
Definition check_nodes_in_members (t : RaftType) (remote : Z) (ns : list Node) (m : Membership) : list Report :=
  (fun n => MissingNode t remote (node_id n)) <$> filter (fun n => is_node (node_id n) m = false) ns.
(** What is logged for the membership of a node *)
Definition differences (t : RaftType) (ns : list Node) (local : Membership) (n : Node) (m : Membership) : list Report :=
  check_nodes_in_members t (node_id n) ns m ++ if same_stored m local then [] else [Different t (node_id n)].
Definition check_node (t : RaftType) (ns : list Node) (local : Membership) (n : Node) : LSt unit :=
  r ← on_net (req_metrics t n);
  match r with
  | NoConnection => st_err Connect
  | NoBody true e => st_err e
  | NoBody false _ | Failure _ => log [LookupFailed t (node_id n)]
  | Success None => st_err (Other EBincode)
  | Success (Some m) => log (differences t ns local n (membership_config m))
  end.
Fixpoint check_each (t : RaftType) (ns : list Node) (local : Membership) (todo : list Node) : LSt unit :=
  match todo with [] => mret tt | n :: todo => check_node t ns local n ;; check_each t ns local todo end.
(** [check_compare_membership] *)
Definition check_compare_membership (t : RaftType) (ns : list Node) (local : Membership) (leader_expected : Z) : LSt unit :=
  check_each t ns local (filter (fun n => node_id n <> leader_expected) ns).

(** One round of [check_split_brain] *)
Definition check_raft (t : RaftType) (ns : list Node) : LSt unit :=
  l ← on_net (leader_now t);
  match l with
  | None => log [NoLeader t]
  | Some leader_expected =>
      m ← on_net (metrics_now t);
      r ← st_try (check_compare_membership t ns (membership_config m) leader_expected);
      match r with Some _ => log [CheckFailed t] | None => mret tt end
  end.
Definition check_split_brain (ns : list Node) : LSt unit := check_raft Sqlite ns ;; check_raft Cache ns.
End SplitBrain.

(** ** The leader a client knows *)

(** [find_set_leader]: what the lock is set to *)
Definition find_set_leader (m : Metrics) : Res ApiError (Z * string) :=
  match current_leader m with
  | None => Err Connect
  | Some id => match nodes (membership_config m) !! id with None => Err Connect | Some n => Ok (id, addr_api n) end
  end.

(** [metrics_db], [metrics_cache] of a remote client at the address it has for the leader *)
Class RemoteMetrics (W : Type) : Type := metrics_at : RaftType -> string -> W -> Res ApiError Metrics * W.

Section Leader.
Context {W : Type} `{RaftNode W} `{RemoteMetrics W}.
(** The state: the lock with the leader *)
Abbreviation KSt := (St ApiError (W * (Z * string))).
Definition set_lock (l : Z * string) : KSt unit := fun '(w, _) => (Ok tt, (w, l)).
Definition pause (ms : Z) : KSt unit := fun '(w, l) => (Ok tt, (sleep ms w, l)).

(** [find_set_active_leader] on a member of the cluster *)
Fixpoint find_local (fuel : nat) (t : RaftType) : KSt unit :=
  match fuel with
  | O => st_lift OutOfFuel
  | S fuel => fun '(w, l) =>
      let '(m, w) := metrics_now t w in
      match find_set_leader m with Ok l' => (Ok tt, (w, l')) | _ => (pause 500 ;; find_local fuel t) (w, l) end
  end.

(** [remote_metrics_loop_db], [remote_metrics_loop_cache]: one pass over the nodes, and the
    loop *)
Fixpoint metrics_pass (t : RaftType) (addrs : list string) : KSt (option Metrics) :=
  match addrs with
  | [] => mret None
  | addr :: addrs => fun '(w, l) =>
      let '(r, w) := metrics_at t addr w in
      match r with Ok m => (Ok (Some m), (w, (l.1, addr))) | _ => metrics_pass t addrs (w, (l.1, addr)) end
  end.
Fixpoint remote_metrics_loop (fuel : nat) (t : RaftType) (addrs : list string) : KSt Metrics :=
  match fuel with
  | O => st_lift OutOfFuel
  | S fuel => r ← metrics_pass t addrs; match r with Some m => mret m | None => pause 500 ;; remote_metrics_loop fuel t addrs end
  end.
(** [find_set_active_leader] of a remote client *)
Fixpoint find_remote (fuel : nat) (t : RaftType) (addrs : list string) : KSt unit :=
  match fuel with
  | O => st_lift OutOfFuel
  | S fuel => m ← remote_metrics_loop (S fuel) t addrs; match find_set_leader m with Ok l => set_lock l | _ => find_remote fuel t addrs end
  end.
End Leader.

(** ** The cleanup of the cache for v0.15 *)

(** What a node answers: to [/ping], and to [/version] with the status and the body *)
Inductive PingReply : Type := PingFailed | PingStatus (success : bool).
Inductive VersionReply : Type := VersionFailed | VersionStatus (status : Z) (body : string).
Class OldNodes (W : Type) : Type := {
  ping : Node -> W -> PingReply * W;
  version : Node -> W -> VersionReply * W;
  nap : Z -> W -> W;
}.
Inductive Dir : Type := Absent | NoEntry | Entries | Unreadable.
Record CacheDisk : Type := mkCacheDisk { index_meta : option bool; dir_logs : Dir; dir_sm : Dir }.
(** The feature [in-memory-snapshots], the two variables, and what is left behind by a
    removal that fails: of the logs, and of the state machine with the metadata in it *)
Record MigEnv : Type := mkMigEnv { is_pure_in_mem : bool; force_migration : bool; auto_migrate : bool;
  f_logs : option Dir; f_sm : option (option bool * Dir) }.

Section Migration.
Context {W : Type} `{OldNodes W}.
Abbreviation MSt := (St ApiError (W * CacheDisk)).
Definition on_nodes {A} (f : W -> A * W) : MSt A := fun '(w, d) => let '(a, w) := f w in (Ok a, (w, d)).
Definition rest (ms : Z) : MSt unit := fun '(w, d) => (Ok tt, (nap ms w, d)).

Definition known_version (v : string) : bool := starts_with "0.15." v || starts_with "0.16." v || starts_with "1.0." v.
(** The two attempts to read the version *)
Fixpoint check_version (tries : nat) (n : Node) : MSt unit :=
  match tries with
  | O => mret tt
  | S tries =>
      r ← on_nodes (version n);
      match r with
      | VersionFailed => rest 500 ;; check_version tries n
      | VersionStatus status body => if (status =? 200) && known_version body then mret tt else st_err (Other EError)
      end
  end.
(** [ensure_no_old_members_running]: one node, and the loop *)
Definition check_member (n : Node) : MSt unit :=
  r ← on_nodes (ping n);
  match r with
  | PingFailed => mret tt
  | PingStatus true => check_version 2 n
  | PingStatus false => st_err (Other EError)
  end.
Fixpoint ensure_no_old_members_running (id : Z) (ns : list Node) : MSt unit :=
  match ns with
  | [] => mret tt
  | n :: ns => (if node_id n =? id then mret tt else check_member n) ;; ensure_no_old_members_running id ns
  end.
Definition has_entries (d : Dir) : bool := match d with Entries => true | _ => false end.
(** [remove_dir_all]; a folder that is not there is no error. *)
Definition remove_logs (env : MigEnv) : MSt unit := fun '(w, d) =>
  match dir_logs d, f_logs env with
  | Absent, _ => (Ok tt, (w, d))
  | _, Some kept => (Err (Other EError), (w, mkCacheDisk (index_meta d) kept (dir_sm d)))
  | _, None => (Ok tt, (w, mkCacheDisk (index_meta d) Absent (dir_sm d)))
  end.
Definition remove_sm (env : MigEnv) : MSt unit := fun '(w, d) =>
  match dir_sm d, f_sm env with
  | Absent, _ => (Ok tt, (w, d))
  | _, Some (meta, kept) => (Err (Other EError), (w, mkCacheDisk meta (dir_logs d) kept))
  | _, None => (Ok tt, (w, mkCacheDisk (Some false) (dir_logs d) Absent))
  end.
Definition cleanup (env : MigEnv) : MSt unit := remove_logs env ;; remove_sm env.
(** Whether there is anything to do: [Ok false] returns at once. *)
Definition must_migrate (env : MigEnv) (d : CacheDisk) : Res ApiError bool :=
  if force_migration env then Ok true
  else if is_pure_in_mem env then Ok true
  else match index_meta d with
       | None => Err (Other EError)
       | Some true => Ok false
       | Some false =>
           if negb (has_entries (dir_logs d)) && negb (has_entries (dir_sm d)) then Ok false
           else if negb (auto_migrate env) then Err (Other EError)
           else Ok true
       end.
(** The two checks of a cluster, five seconds apart *)
Definition no_old_members (id : Z) (ns : list Node) : MSt unit :=
  if Nat.ltb 1 (length ns) then ensure_no_old_members_running id ns ;; rest 5000 ;; ensure_no_old_members_running id ns else mret tt.
(** [check_migrate] *)
Definition check_migrate (env : MigEnv) (id : Z) (ns : list Node) : MSt unit := fun s =>
  ((if force_migration env then rest 10000 else mret tt) ;;
   go ← st_lift (must_migrate env s.2);
   if negb go then mret tt
   else no_old_members id ns ;; if is_pure_in_mem env then mret tt else cleanup env) s.
End Migration.

(** ** Addresses: [build_listen_addr] *)
Definition build_listen_addr (listen_addr node_addr : string) (tls : bool) : string :=
  let port := match rsplit_once ":" node_addr with Some (_, port) => port | None => if tls then "443" else "80" end in
  listen_addr +:+ ":" +:+ port.
End Check.
