(* ===== verification/Backup.v ===== *)
(** Backups: [hiqlite/src/backup.rs], the files of [hiqlite/src/client/backup.rs], the
    endpoint [post_create_backup] of [hiqlite/src/network/api.rs] and [parse_duration] of
    [hiqlite/src/helpers.rs].

    A string is its bytes; [trim] removes ASCII white space only.  Times are nanoseconds
    since the epoch, durations whole seconds.  Restoring works on the folder of the state
    machine ([SqlSM.Disk]), the folder of the Raft logs, the files elsewhere on the host and
    the objects of the bucket; [Faults] says which calls of the file system fail. *)
From stdpp Require Import base gmap strings list numbers pretty.
From Stdlib Require Import Strings.Byte Ascii.
From S2P Require Import Prelude Text SqlRows SqlBase SqlWriter SqlSM SqlMigrate NetBase ClusterBase ClusterMgmt.

#[local] Open Scope Z_scope.

Module Backup.
Import Net.

(** ** [parse_duration] *)
Definition is_space (a : ascii) : bool := let n := N_of_ascii a in (N.leb 9 n && N.leb n 13) || N.eqb n 32.
Fixpoint trim_start (s : string) : string :=
  match s with String a t => if is_space a then trim_start t else s | EmptyString => EmptyString end.
Fixpoint trim_end (s : string) : string :=
  match s with
  | EmptyString => EmptyString
  | String a s => match trim_end s with EmptyString => if is_space a then EmptyString else String a EmptyString | t => String a t end
  end.
Definition trim (s : string) : string := trim_end (trim_start s).

(** [input.split_at(input.len() - 1)], which panics inside of a character *)
Fixpoint split_last (s : string) : option (string * ascii) :=
  match s with
  | EmptyString => None
  | String a s => match split_last s with None => Some (EmptyString, a) | Some (v, c) => Some (String a v, c) end
  end.
Definition is_continuation (a : ascii) : bool := let n := N_of_ascii a in N.leb 128 n && N.ltb n 192.
Definition unit_secs (c : ascii) : option Z :=
  match c with
  | "s"%char | "S"%char => Some 1
  | "m"%char | "M"%char => Some 60
  | "h"%char | "H"%char => Some (60 * 60)
  | "d"%char | "D"%char => Some (60 * 60 * 24)
  | "w"%char | "W"%char => Some (60 * 60 * 24 * 7)
  | "y"%char | "Y"%char => Some (60 * 60 * 24 * 365)
  | _ => None
  end.
Definition parse_duration (input : string) : Res ApiError (option Z) :=
  let input := trim input in
  match split_last input with
  | None => Ok None
  | Some (value, c) =>
      if is_continuation c then Panic
      else match unit_secs c with
           | Some mul => Ok ((fun v => Z.min (v * mul) i64_max) <$> Migrations.parse_u32 (trim value))
           | None => Ok (parse_u64 input)
           end
  end.

(** ** Names and ages *)

(** The name [create_backup] gives a file *)
Definition backup_name (node_id ts : Z) : string :=
  "backup_node_" +:+ to_string node_id +:+ "_" +:+ SqlWriter.i64_to_string ts +:+ ".sqlite".

(** [valid_backup_filename] *)
Definition valid_backup_filename (filename : string) : bool :=
  match strip_prefix "backup_node_" filename with
  | None => false
  | Some rest =>
      match Migrations.strip_suffix ".sqlite" rest with
      | None => false
      | Some stem =>
          match rsplit_once "_"%char stem with
          | None => false
          | Some (node_id, ts) => bool_decide (is_Some (parse_u64 node_id)) && bool_decide (is_Some (parse_i64 ts))
          end
      end
  end.

(** The range of [DateTime<Utc>] in seconds *)
Definition DT_MIN : Z := -8334601228800.
Definition DT_MAX : Z := 8210266876799.
(** [dt_from_backup_name] *)
Definition dt_from_backup_name (name : string) : option Z :=
  backup ← strip_prefix "backup_node_" name;
  '(_, rest) ← split_once "_"%char backup;
  ts ← Migrations.strip_suffix ".sqlite" rest;
  ts ← parse_i64 ts;
  if (DT_MIN <=? ts) && (ts <=? DT_MAX) then Some ts else None.

(** [Utc::now().sub(keep_for)], which panics when the result is out of range *)
Definition sub_duration (now_ns keep_for : Z) : Res SqlError Z :=
  let t := now_ns - keep_for * 10 ^ 9 in if t / 10 ^ 9 <? DT_MIN then Panic else Ok t.

(** [backup_local_cleanup]: an entry of the folder; a name that is no text is [None], as
    are metadata that cannot be read, and the entry itself when the listing fails. *)
Record DirEntry : Type := mkEntry { e_name : option string; e_dir : option bool }.
Definition TS_MIN : Z := 1704063600.
Definition expired (ts_threshold : Z) (s_orig : string) : bool :=
  let s := default s_orig (Migrations.strip_suffix "~" s_orig) in
  if negb (starts_with "backup_node_" s) && negb (ends_with s ".sqlite") then false
  else
    let stripped := default s (Migrations.strip_suffix ".sqlite" s) in
    let ts := match rsplit_once "_"%char stripped with Some (_, ts) => ts | None => EmptyString end in
    match parse_i64 ts with
    | Some ts => (TS_MIN <? ts) && (ts <? ts_threshold)
    | None => false
    end.
(** The state: the files it has removed; a failed removal is only logged. *)
Fixpoint cleanup_entries (f_remove : string -> bool) (ts_threshold : Z) (es : list (option DirEntry)) : St SqlError (list string) unit :=
  match es with
  | [] | None :: _ => mret tt
  | Some e :: es =>
      match e_dir e with
      | None => st_err EError
      | Some true => cleanup_entries f_remove ts_threshold es
      | Some false =>
          (fun removed => (Ok tt,
             match e_name e with
             | Some s => if expired ts_threshold s && negb (f_remove s) then removed ++ [s] else removed
             | None => removed
             end)) ;;
          cleanup_entries f_remove ts_threshold es
      end
  end.
Definition backup_local_cleanup (f_remove : string -> bool) (now_ns keep_for : Z) (listing : option (list (option DirEntry))) : St SqlError (list string) unit :=
  t ← st_lift (sub_duration now_ns keep_for);
  match listing with
  | None => st_err EError
  | Some es => cleanup_entries f_remove (t / 10 ^ 9) es
  end.

(** [backup_cron_job] behind [client.backup()]: the keys of the buckets the credentials can
    see; the state is the deleted keys. *)
Fixpoint delete_expired (f_delete : string -> bool) (threshold_ns : Z) (keys : list string) : St ApiError (list string) unit :=
  match keys with
  | [] => mret tt
  | k :: keys =>
      match dt_from_backup_name k with
      | Some dt => if dt * 10 ^ 9 <? threshold_ns
                   then (if f_delete k then st_err (Other EError) else fun del => (Ok tt, del ++ [k])) ;; delete_expired f_delete threshold_ns keys
                   else delete_expired f_delete threshold_ns keys
      | None => delete_expired f_delete threshold_ns keys
      end
  end.
Fixpoint clean_buckets (f_delete : string -> bool) (own : string) (threshold_ns : Z) (bs : list (string * list string)) : St ApiError (list string) unit :=
  match bs with
  | [] => mret tt
  | (name, keys) :: bs =>
      (if String.eqb name own then delete_expired f_delete threshold_ns keys else mret tt) ;;
      clean_buckets f_delete own threshold_ns bs
  end.

(** [backup_cron_job]: [made] is what [client.backup()] returns; [own] is the name of the
    bucket, if one is configured. *)
Definition backup_cron_job (own : option string) (f_delete : string -> bool) (now_ns keep_for : Z) (made : Res ApiError unit)
    (listing : Res ApiError (list (string * list string))) : St ApiError (list string) unit :=
  st_lift made ;;
  match own with
  | None => mret tt
  | Some own =>
      match sub_duration now_ns keep_for with
      | Ok threshold => bs ← st_lift listing; clean_buckets f_delete own threshold bs
      | _ => st_lift Panic
      end
  end.

(** [start_cron]: how many seconds a round sleeps and whether it makes a backup then, and
    its attempts; times in nanoseconds. *)
Definition cron_sleep (now : Z) (next : option Z) : Z * bool :=
  match next with
  | None => (3600, false)
  | Some next => (if next <=? now then 1 else wrap64 (next / 10 ^ 9 - now / 10 ^ 9), true)
  end.
Definition CRON_RETRIES : nat := 5.
Fixpoint cron_attempts {S} (retries : nat) (job : St ApiError S unit) (sleep : Z -> S -> S) : St ApiError S bool := fun s =>
  match retries with
  | O => (Ok false, s)
  | Datatypes.S retries =>
      match job s with
      | (Ok _, s) => (Ok true, s)
      | (Err _, s) => cron_attempts retries job sleep (sleep 10 s)
      | (Panic, s) => (Panic, s)
      | (OutOfFuel, s) => (OutOfFuel, s)
      end
  end.

(** [backup_list_local]: the names *)
Definition backup_list_local (es : list (option DirEntry)) : Res SqlError (list string) :=
  foldr (fun e r =>
    match e with
    | None => Err EError
    | Some e =>
        match e_dir e with
        | None => Err EError
        | Some true => r
        | Some false => let n := default EmptyString (e_name e) in if starts_with "backup_node_" n then l ← r; mret (n :: l) else r
        end
    end) (Ok []) es.

(** ** Restoring *)
Inductive BackupSource : Type := SrcS3 (obj : string) | SrcFile (path : string).

(** [BackupSource::from_env] *)
Definition from_env (var : option string) : option BackupSource :=
  v ← var;
  match strip_prefix "s3:" v with
  | Some obj => Some (SrcS3 obj)
  | None => SrcFile <$> strip_prefix "file:" v
  end.

Section Restore.
Context {T : Type} `{Sql.SqlEngine T} {M : Type} `{!SqlWriter.MetaCodec (M := M)}.
Import SqlWriter SqlSM.

Record Host : Type := mkHost {
  disk : Disk (T := T);
  raft_logs : list Z;
  elsewhere : gmap string (SqlWriter.File (T := T));
  bucket : option (gmap string (SqlWriter.File (T := T)));
}.
Record Faults : Type := mkFaults {
  f_backups_dir : bool; f_pull : bool; f_copy : bool; f_sync : bool; f_db_dir : bool; f_switch : bool; f_parent : bool; f_access : bool; f_wipe : bool;
}.
Abbreviation HSt := (St SqlError Host).
Definition set_disk (k : Disk) (h : Host) : Host := mkHost k (raft_logs h) (elsewhere h) (bucket h).
Definition set_file (name : string) (f : SqlWriter.File) (h : Host) : Host :=
  let k := disk h in set_disk (mkDisk (db_file k) (lock_file k) (disk_snapshots k) (<[name := f]> (disk_backups k))) h.
Definition fails (b : bool) : HSt unit := if b then st_err EError else mret tt.
Definition h_modify (f : Host -> Host) : HSt unit := fun h => (Ok tt, f h).

Context (path_backups : string) (fl : Faults).

(** The file at a path, which may be in the folder of the backups *)
Definition in_backups (p : string) : option string :=
  match strip_prefix (path_backups +:+ "/") p with
  | Some f => if has_char "/"%char f then None else Some f
  | None => None
  end.
Definition file_at (p : string) (h : Host) : option SqlWriter.File :=
  match in_backups p with Some f => disk_backups (disk h) !! f | None => elsewhere h !! p end.

(** [fs::copy(path_src, path_backup)]: the target is opened and truncated first, so a file
    copied onto itself is empty, which SQLite takes for an empty database. *)
Definition copy (path_src filename : string) : HSt unit := fun h =>
  match file_at path_src h with
  | None | Some Folder => (Err EError, h)
  | Some f =>
      if is_folder (disk_backups (disk h) !! filename) || f_copy fl then (Err EError, h)
      else if bool_decide (in_backups path_src = Some filename) then (Ok tt, set_file filename (SqliteFile Sql.empty_db true) h)
      else (Ok tt, set_file filename f h)
  end.
Definition pull (obj filename : string) : HSt unit := fun h =>
  match bucket h with
  | None => (Err EError, h)
  | Some b => match b !! obj with
              | Some f => if f_pull fl || is_folder (disk_backups (disk h) !! filename) then (Err EError, h) else (Ok tt, set_file filename f h)
              | None => (Err EError, h)
              end
  end.

(** The folders and files a restore removes: the lock file is a file, which
    [remove_dir_all] does not remove. *)
Definition remove_old (h : Host) : Host :=
  mkHost (mkDisk None (lock_file (disk h)) ∅ (disk_backups (disk h))) [] (elsewhere h) (bucket h).

Definition switch_db (filename : string) : HSt unit := fun h =>
  let k := disk h in
  match disk_backups k !! filename with
  | None => (Err EError, h)
  | Some f =>
      if f_switch fl then (Err EError, h)
      else (if f_parent fl then Err EError else Ok tt, set_disk (mkDisk (Some f) (lock_file k) (disk_snapshots k) (delete filename (disk_backups k))) h)
  end.

(** [restore_backup]; [validate_backup_db] can be switched off. *)
Definition fetch (src : BackupSource) : HSt string :=
  match src with
  | SrcS3 obj => pull obj BACKUP_DB_NAME ;; mret BACKUP_DB_NAME
  | SrcFile p => let filename := match rsplit_once "/"%char p with Some (_, f) => f | None => p end in copy p filename ;; mret filename
  end.
Definition validate_backup_db (skip : bool) (filename : string) : HSt unit := fun h =>
  (if skip then Ok tt else validate_db_backup_snapshot (disk_backups (disk h) !! filename), h).
Definition restore_backup (skip : bool) (src : BackupSource) : HSt unit := fun h =>
  match src, bucket h with
  | SrcS3 _, None => (Err EError, h)
  | _, _ =>
      (fails (f_backups_dir fl) ;;
       filename ← fetch src;
       fails (f_sync fl) ;;
       validate_backup_db skip filename ;;
       h_modify remove_old ;;
       fails (f_db_dir fl) ;;
       switch_db filename ;;
       fails (f_access fl)) h
  end.

(** [restore_backup_start]: the other nodes remove everything and join. *)
Definition wipe (h : Host) : Host := mkHost (mkDisk None false ∅ ∅) [] (elsewhere h) (bucket h).
Definition restore_backup_start (node_id : Z) (skip : bool) (var : option string) : HSt bool :=
  match from_env var with
  | None => mret false
  | Some src => if node_id =? 1 then restore_backup skip src ;; mret true
                else h_modify (fun h => if f_wipe fl then h else wipe h) ;; mret false
  end.
End Restore.

(** ** After the restore, and backups on request *)
Section Finish.
Import Cluster Mgmt.
Context {W : Type} `{RaftNode W}.
Abbreviation RSt := (St ApiError W).

(** What [restore_backup_finish] asks of openraft; [write_backup] is a backup through the
    local Raft or the stream, with the result that comes back in the response. *)
Class RestoreRaft : Type := {
  write_rtt : W -> bool * W;
  last_applied : W -> option Z * W;
  trigger_snapshot : W -> bool * W;
  has_snapshot : W -> bool * W;
  purge_log : Z -> W -> bool * W;
  write_backup : bool -> Z -> Z -> W -> Res ApiError (Res SqlError unit) * W;
}.
Context `{RestoreRaft}.

(** [loop]: until [f] gives a result *)
Fixpoint until {A} (fuel : nat) (ms : Z) (f : W -> option A * W) : RSt A :=
  match fuel with
  | O => st_lift OutOfFuel
  | S fuel => r ← on_world f; match r with Some a => mret a | None => wait ms ;; until fuel ms f end
  end.
Definition when (f : W -> bool * W) : W -> option unit * W := fun w => let '(b, w) := f w in (if b then Some tt else None, w).
Definition initialized_now (w : W) : option unit * W := let '(r, w) := is_initialized Sqlite w in (match r with Ok true => Some tt | _ => None end, w).
Definition led_now (w : W) : option unit * W := let '(l, w) := leader_now Sqlite w in (match l with Some _ => Some tt | None => None end, w).
Definition RTT_REQS : nat := 10.
Definition applied_now (w : W) : option Z * W :=
  let '(a, w) := last_applied w in (match a with Some i => if Z.of_nat RTT_REQS <=? i then Some i else None | None => None end, w).
Fixpoint rtts (n : nat) : RSt unit := match n with O => mret tt | S n => on_world write_rtt ;; rtts n end.

Definition restore_backup_finish (fuel : nat) : RSt unit :=
  until fuel 50 initialized_now ;;
  until fuel 50 led_now ;;
  rtts RTT_REQS ;;
  last_log ← until fuel 50 applied_now;
  t ← on_world trigger_snapshot;
  if negb t then mret tt
  else until fuel 100 (when has_snapshot) ;;
       until fuel 100 (when (purge_log last_log)).

(** [post_create_backup]: the result of the backup itself is not looked at. *)
Fixpoint find_leader (rounds : nat) : RSt Z :=
  match rounds with
  | O => mret 0
  | S rounds => l ← on_world (leader_now Sqlite); match l with Some l => mret l | None => wait 1000 ;; find_leader rounds end
  end.
Definition post_create_backup (app : App) (secret : option (list byte)) : RSt unit :=
  validate_secret app secret ;;
  leader ← find_leader 5;
  if leader =? 0 then st_err LeaderChange
  else n ← now; write_backup (leader =? app_id app) leader (n / 1000) ;; mret tt.
End Finish.
End Backup.
