(* ===== verification/BackupTheorems.v ===== *)
(** Backups: the names of the files, what the cleanup removes, and what a restored node
    starts with. *)
From stdpp Require Import base gmap strings list numbers pretty.
From Stdlib Require Import Strings.Byte Ascii.
From S2P Require Import Prelude Text SqlRows SqlBase SqlWriter SqlSM SqlAgree SqlSMSpec SqlMigrate SqlDemo NetBase SqlTheorems ClusterBase ClusterMgmt ClusterTheorems Backup.
Import Backup.

#[local] Open Scope Z_scope.

(** ** Names *)
Lemma string_app_self (s t : string) : s +:+ t = t -> s = EmptyString.
Proof. intros E%(f_equal String.length). rewrite string_length_app in E. destruct s; [done|]. simpl in E. lia. Qed.

Lemma strip_suffix_app s t : Migrations.strip_suffix t (s +:+ t) = Some s.
Proof.
  induction s as [|a s IH].
  - change (EmptyString +:+ t) with t. destruct t; cbn [Migrations.strip_suffix]; [done|]. by rewrite String.eqb_refl.
  - change (String a s +:+ t) with (String a (s +:+ t)). cbn [Migrations.strip_suffix]. destruct (String.eqb_spec (String a (s +:+ t)) t) as [E|_].
    + change (String a (s +:+ t)) with (String a s +:+ t) in E. by apply string_app_self in E.
    + by rewrite IH.
Qed.
Lemma strip_suffix_none t s : ends_with s t = false -> Migrations.strip_suffix t s = None.
Proof.
  induction s as [|a s IH]; cbn [ends_with Migrations.strip_suffix]; intros [He Hs]%orb_false_iff; rewrite He; [done|]. by rewrite IH.
Qed.

Lemma i64_text ts : i64_min <= ts <= i64_max ->
  parse_i64 (SqlWriter.i64_to_string ts) = Some ts /\ has_char "_" (SqlWriter.i64_to_string ts) = false.
Proof.
  intros Hr. unfold SqlWriter.i64_to_string. destruct (Z.ltb_spec ts 0) as [Hn|Hp].
  - change ("-" +:+ to_string (- ts)) with (String "-" (to_string (- ts))).
    split; [|exact (all_digits_no_char "_" _ (all_digits_to_string _) eq_refl)]. unfold parse_i64. cbn [Ascii.eqb Bool.eqb].
    destruct (to_string (- ts)) as [|c s] eqn:E; [by apply to_string_nonempty in E|]. rewrite <- E.
    rewrite parse_digits_to_string by (unfold i64_min, i64_max in *; lia). simpl. f_equal. lia.
  - split; [by apply parse_i64_to_string; unfold i64_max in *; lia|]. by apply all_digits_no_char; [apply all_digits_to_string|].
Qed.

Lemma signless_chars max z s c : parse_digits max 0 s = Some z -> digit_of c = None -> has_char c s = false.
Proof. intros Hp Hc. apply all_digits_no_char; [by apply parse_digits_all in Hp|done]. Qed.
Lemma u64_chars c s z : parse_u64 s = Some z -> digit_of c = None -> c <> "+"%char -> has_char c s = false.
Proof.
  unfold parse_u64. destruct s as [|a s]; [done|]. intros Hp Hc Hn. destruct (Ascii.eqb_spec a "+") as [->|].
  - destruct s as [|b s]; [done|]. cbn [has_char]. rewrite (proj2 (Ascii.eqb_neq _ _)) by congruence.
    exact (signless_chars _ _ _ _ Hp Hc).
  - exact (signless_chars _ _ _ _ Hp Hc).
Qed.
Lemma i64_chars c s z : parse_i64 s = Some z -> digit_of c = None -> c <> "+"%char -> c <> "-"%char -> has_char c s = false.
Proof.
  unfold parse_i64. destruct s as [|a s]; [done|]. intros Hp Hc Hn Hm.
  destruct (Ascii.eqb_spec a "+") as [->|]; [|destruct (Ascii.eqb_spec a "-") as [->|]].
  - destruct s as [|b s]; [done|]. cbn [has_char]. rewrite (proj2 (Ascii.eqb_neq _ _)) by congruence. exact (signless_chars _ _ _ _ Hp Hc).
  - destruct s as [|b s]; [done|]. cbn [has_char]. rewrite (proj2 (Ascii.eqb_neq _ _)) by congruence.
    destruct (parse_digits (i64_max + 1) 0 (String b s)) as [y|] eqn:E; [|done]. exact (signless_chars _ _ _ _ E Hc).
  - exact (signless_chars _ _ _ _ Hp Hc).
Qed.

(** What lies between the prefix and the suffix *)
Definition stem (node_id ts : Z) : string := to_string node_id +:+ String "_" (SqlWriter.i64_to_string ts).
Lemma backup_name_eq node_id ts : backup_name node_id ts = "backup_node_" +:+ (stem node_id ts +:+ ".sqlite").
Proof. unfold backup_name, stem. by rewrite string_app_assoc. Qed.
Lemma backup_name_stem node_id ts : backup_name node_id ts = ("backup_node_" +:+ stem node_id ts) +:+ ".sqlite".
Proof. by rewrite backup_name_eq, string_app_assoc. Qed.
Lemma stem_split node_id ts : i64_min <= ts <= i64_max ->
  rsplit_once "_" (stem node_id ts) = Some (to_string node_id, SqlWriter.i64_to_string ts).
Proof. intros Hr. apply rsplit_once_app. by apply i64_text. Qed.

Lemma backup_name_valid node_id ts : 0 <= node_id <= u64_max -> i64_min <= ts <= i64_max -> valid_backup_filename (backup_name node_id ts) = true.
Proof.
  intros Hn Ht. unfold valid_backup_filename. rewrite backup_name_eq, strip_prefix_app, strip_suffix_app, stem_split by done.
  rewrite parse_u64_to_string by done. destruct (i64_text ts Ht) as [-> _]. done.
Qed.
Lemma backup_name_dt node_id ts : i64_min <= ts <= i64_max -> DT_MIN <= ts <= DT_MAX -> dt_from_backup_name (backup_name node_id ts) = Some ts.
Proof.
  intros Hr Hd. unfold dt_from_backup_name. rewrite backup_name_eq, strip_prefix_app. simpl. unfold stem. rewrite string_app_assoc.
  change (String "_" (SqlWriter.i64_to_string ts) +:+ ".sqlite") with (String "_" (SqlWriter.i64_to_string ts +:+ ".sqlite")).
  rewrite split_once_app by (by apply all_digits_no_char; [apply all_digits_to_string|]). simpl.
  rewrite strip_suffix_app. simpl. destruct (i64_text ts Hr) as [-> _]. simpl.
  by rewrite (proj2 (Z.leb_le _ _)), (proj2 (Z.leb_le _ _)) by lia.
Qed.

Lemma rsplit_once_inv c s l r : rsplit_once c s = Some (l, r) -> s = l +:+ String c r.
Proof.
  revert l. induction s as [|a s IH]; intros l; cbn [rsplit_once]; [done|]. destruct (rsplit_once c s) as [[l' r']|].
  - intros [= <- <-]. by rewrite (IH l').
  - destruct (Ascii.eqb_spec a c) as [->|]; [|done]. by intros [= <- <-].
Qed.
(** A name with a file separator is refused. *)
Lemma valid_no_separator f c : c = "/"%char \/ c = "\"%char -> valid_backup_filename f = true -> has_char c f = false.
Proof.
  intros Hc. unfold valid_backup_filename. destruct (strip_prefix "backup_node_" f) as [rest|] eqn:Ep; [|done]. apply strip_prefix_Some in Ep as ->.
  destruct (Migrations.strip_suffix ".sqlite" rest) as [st|] eqn:Es; [|done]. apply Migrations.strip_suffix_Some in Es as ->.
  destruct (rsplit_once "_" st) as [[n t]|] eqn:Er; [|done]. intros [[z Hn]%bool_decide_eq_true [y Ht]%bool_decide_eq_true]%andb_prop.
  assert (digit_of c = None /\ c <> "+"%char /\ c <> "-"%char /\ c <> "_"%char) as (Hd & Hp & Hm & Hu) by (by destruct Hc as [-> | ->]).
  assert (has_char c st = false) as Hst.
  { apply rsplit_once_inv in Er as ->. rewrite has_char_app. cbn [has_char].
    rewrite (u64_chars c n z Hn Hd Hp), (i64_chars c t y Ht Hd Hp Hm). rewrite (proj2 (Ascii.eqb_neq _ _)) by congruence. done. }
  rewrite !has_char_app, Hst. by destruct Hc as [-> | ->].
Qed.

(** ** The cleanup *)
Lemma expired_own thr node_id ts : i64_min <= ts <= i64_max ->
  expired thr (backup_name node_id ts) = (TS_MIN <? ts) && (ts <? thr) /\
  expired thr (backup_name node_id ts +:+ "~") = (TS_MIN <? ts) && (ts <? thr).
Proof.
  intros Hr. assert (forall s t : string, default s (Some t) = t) as Hd by done. assert (forall s : string, default s None = s) as Hn by done.
  assert (Migrations.strip_suffix "~" (backup_name node_id ts) = None) as Hno.
  { apply strip_suffix_none. rewrite backup_name_stem. by apply ends_with_app_false; [cbn; lia|]. }
  assert (ends_with (backup_name node_id ts) ".sqlite" = true) as He by (by rewrite backup_name_stem; apply ends_with_app).
  assert (rsplit_once "_" ("backup_node_" +:+ stem node_id ts) = Some ("backup_node_" +:+ to_string node_id, SqlWriter.i64_to_string ts)) as Hs.
  { unfold stem. rewrite <- string_app_assoc. apply rsplit_once_app. by apply i64_text. }
  unfold expired. rewrite strip_suffix_app, Hno, Hn, Hd, He, andb_false_r.
  rewrite backup_name_stem, strip_suffix_app, Hd, Hs. by destruct (i64_text ts Hr) as [-> _].
Qed.

(** What a listing names for removal *)
Definition to_remove (f_remove : string -> bool) (thr : Z) (e : option DirEntry) : list string :=
  match e with
  | Some (mkEntry (Some s) (Some false)) => if expired thr s && negb (f_remove s) then [s] else []
  | _ => []
  end.
Definition readable (e : option DirEntry) : Prop := match e with Some e => is_Some (e_dir e) | None => False end.

Lemma cleanup_removes f_remove thr es : forall removed r removed',
  cleanup_entries f_remove thr es removed = (r, removed') ->
  (exists k, removed' = removed ++ k /\ k `sublist_of` concat (to_remove f_remove thr <$> es)) /\ settled r /\
  (Forall readable es -> r = Ok tt /\ removed' = removed ++ concat (to_remove f_remove thr <$> es)).
Proof.
  induction es as [|[[n d]|] es IH]; intros removed r removed'; cbn [cleanup_entries e_dir e_name].
  - intros [= <- <-]. simpl. rewrite app_nil_r. split; [exists []; by rewrite app_nil_r|done].
  - destruct d as [[]|].
    + intros (Hk & Hs & Hf)%IH. simpl. split; [by destruct n|]. split; [done|]. intros [_ Hr]%Forall_cons_1. by destruct n; apply Hf.
    + unfold mbind, st_bind. intros (Hk & Hs & Hf)%IH. split; [|split; [done|]].
      * destruct Hk as (k & -> & Hk). rewrite fmap_cons. cbn [concat to_remove].
        destruct n as [s|]; [destruct (expired thr s && negb (f_remove s))|]; [exists (s :: k); rewrite <- app_assoc; split; [done|by apply sublist_skip]|by exists k..].
      * intros [_ Hr]%Forall_cons_1. destruct (Hf Hr) as [-> ->]. split; [done|]. rewrite fmap_cons. cbn [concat to_remove].
        destruct n as [s|]; [destruct (expired thr s && negb (f_remove s))|]; [by rewrite <- app_assoc|done..].
    + intros [= <- <-]. split; [exists []; rewrite app_nil_r; split; [done|apply sublist_nil_l]|]. split; [done|].
      intros [[? [=]] _]%Forall_cons_1.
  - intros [= <- <-]. split; [exists []; rewrite app_nil_r; split; [done|apply sublist_nil_l]|]. split; [done|].
    intros [[] _]%Forall_cons_1.
Qed.

Lemma elem_of_concat {A} (x : A) ls : x ∈ concat ls <-> exists l, x ∈ l /\ l ∈ ls.
Proof. rewrite list_elem_of_In, in_concat. setoid_rewrite <- list_elem_of_In. firstorder. Qed.
Lemma to_remove_expired f_remove thr s es : s ∈ concat (to_remove f_remove thr <$> es) -> expired thr s = true.
Proof.
  intros (l & Hs & (e & -> & _)%list_elem_of_fmap)%elem_of_concat. unfold to_remove in Hs.
  destruct e as [[[n|] [[]|]]|]; try by apply elem_of_nil in Hs. destruct (expired thr n && negb (f_remove n)) eqn:E; [|by apply elem_of_nil in Hs].
  apply list_elem_of_singleton in Hs as ->. by apply andb_prop in E as [? _].
Qed.
Lemma to_remove_in f_remove thr s es : Some (mkEntry (Some s) (Some false)) ∈ es -> expired thr s = true -> f_remove s = false ->
  s ∈ concat (to_remove f_remove thr <$> es).
Proof.
  intros Hin He Hf. apply elem_of_concat. exists [s]. split; [by left|]. apply list_elem_of_fmap. exists (Some (mkEntry (Some s) (Some false))).
  split; [|done]. simpl. by rewrite He, Hf.
Qed.

(** The objects of the bucket *)
Lemma delete_expired_old f_delete thr keys : forall del r del', delete_expired f_delete thr keys del = (r, del') ->
  exists k, del' = del ++ k /\ k `sublist_of` keys /\ Forall (fun x => exists dt, dt_from_backup_name x = Some dt /\ dt * 10 ^ 9 < thr) k.
Proof.
  induction keys as [|x keys IH]; intros del r del'; cbn [delete_expired]; [intros [= <- <-]; exists []; by rewrite app_nil_r|].
  assert (forall d, delete_expired f_delete thr keys d = (r, del') ->
    exists k, del' = d ++ k /\ k `sublist_of` x :: keys /\ Forall (fun x => exists dt, dt_from_backup_name x = Some dt /\ dt * 10 ^ 9 < thr) k) as Hskip.
  { intros d (k & -> & Hk & Hf)%IH. exists k. split; [done|]. split; [by apply sublist_cons|done]. }
  destruct (dt_from_backup_name x) as [dt|] eqn:Ed; [|apply Hskip]. destruct (Z.ltb_spec (dt * 10 ^ 9) thr) as [Hlt|]; [|apply Hskip].
  unfold mbind, st_bind. destruct (f_delete x).
  - intros [= <- <-]. exists []. rewrite app_nil_r. split; [done|]. split; [apply sublist_nil_l|done].
  - intros (k & -> & Hk & Hf)%IH. exists (x :: k). rewrite <- app_assoc. split; [done|]. split; [by apply sublist_skip|]. constructor; [by exists dt|done].
Qed.

(** ** Restoring *)
Section Restore.
Context {T : Type} `{Sql.SqlEngine T} {M : Type} `{!SqlWriter.MetaCodec (M := M)} `{!SqlWriter.MetaCodecOk (M := M)}.
Import SqlWriter SqlSM.
Abbreviation Host := (@Host T).

Definition untouched (h h' : Host) : Prop :=
  db_file (disk h') = db_file (disk h) /\ lock_file (disk h') = lock_file (disk h) /\
  disk_snapshots (disk h') = disk_snapshots (disk h) /\ raft_logs h' = raft_logs h.

Lemma fetch_untouched pb fl src h r h' : fetch pb fl src h = (r, h') -> untouched h h' /\ settled r.
Proof.
  unfold fetch. destruct src as [obj|p]; unfold mbind, st_bind.
  - unfold pull. destruct (bucket h) as [b|]; [|by intros [= <- <-]]. destruct (b !! obj) as [f|]; [|by intros [= <- <-]].
    destruct (f_pull fl || _); by intros [= <- <-].
  - set (fn := match rsplit_once "/" p with Some (_, f) => f | None => p end). unfold copy.
    destruct (file_at pb p h) as [[]|]; try by intros [= <- <-].
    + destruct (is_folder _ || _); [by intros [= <- <-]|]. destruct (bool_decide _); by intros [= <- <-].
    + destruct (is_folder _ || _); [by intros [= <- <-]|]. destruct (bool_decide _); by intros [= <- <-].
Qed.

(** The file a source stands for, when it can be copied *)
Definition source (pb : string) (src : BackupSource) (h : Host) : option SqlWriter.File :=
  match src with
  | SrcS3 obj => b ← bucket h; b !! obj
  | SrcFile p => file_at pb p h
  end.
Definition own_copy (pb : string) (src : BackupSource) : Prop :=
  match src with SrcS3 _ => False | SrcFile p => is_Some (in_backups pb p) end.

Lemma fetch_file pb fl src h n h' : fetch pb fl src h = (Ok n, h') -> ~ own_copy pb src ->
  disk_backups (disk h') !! n = source pb src h.
Proof.
  unfold fetch, source. destruct src as [obj|p]; unfold mbind, st_bind; intros Hf Hown.
  - unfold pull in Hf. destruct (bucket h) as [b|]; [|done]. simpl. destruct (b !! obj) as [f|]; [|done].
    destruct (f_pull fl || _); [done|]. injection Hf as <- <-. apply lookup_insert_eq.
  - revert Hf. set (fn := match rsplit_once "/" p with Some (_, f) => f | None => p end). unfold copy.
    assert (bool_decide (in_backups pb p = Some fn) = false) as -> by (apply bool_decide_eq_false; intros E; apply Hown; by eexists).
    destruct (file_at pb p h) as [[]|]; try done; (destruct (is_folder _ || _); [done|]); intros [= <- <-]; apply lookup_insert_eq.
Qed.

(** A file that is not a backup changes nothing. *)
Lemma restore_invalid pb fl src h r h' :
  ~ own_copy pb src -> validate_db_backup_snapshot (source pb src h) <> Ok tt ->
  restore_backup pb fl false src h = (r, h') -> r <> Ok tt /\ settled r /\ untouched h h'.
Proof.
  intros Hown Hv. unfold restore_backup.
  assert (forall r h', (fails (f_backups_dir fl);; filename ← fetch pb fl src; fails (f_sync fl);; validate_backup_db false filename;;
       h_modify remove_old;; fails (f_db_dir fl);; switch_db fl filename;; fails (f_access fl)) h = (r, h') -> r <> Ok tt /\ settled r /\ untouched h h') as Hm.
  { clear r h'. intros r h'. unfold mbind at 1, st_bind at 1. unfold fails at 1. destruct (f_backups_dir fl); [by intros [= <- <-]|]. simpl.
    unfold mbind at 1, st_bind at 1. destruct (fetch pb fl src h) as [[n|e| |] h1] eqn:Ef; destruct (fetch_untouched _ _ _ _ _ _ Ef) as [Hu Hs]; try by intros [= <- <-].
    unfold mbind at 1, st_bind at 1. unfold fails at 1. destruct (f_sync fl); [by intros [= <- <-]|]. simpl.
    unfold mbind at 1, st_bind at 1. unfold validate_backup_db at 1. rewrite (fetch_file _ _ _ _ _ _ Ef Hown).
    destruct (validate_db_backup_snapshot (source pb src h)) as [[]|e| |] eqn:Ev; [done|by intros [= <- <-]|..];
      exfalso; revert Ev; unfold validate_db_backup_snapshot; repeat case_match; done. }
  destruct src as [obj|p]; [|apply Hm]. destruct (bucket h); [apply Hm|]. by intros [= <- <-].
Qed.

(** What a restore that succeeds leaves *)
Lemma restore_places pb fl skip src h h' : ~ own_copy pb src -> restore_backup pb fl skip src h = (Ok tt, h') ->
  db_file (disk h') = source pb src h /\ is_Some (source pb src h) /\ lock_file (disk h') = lock_file (disk h) /\
  disk_snapshots (disk h') = ∅ /\ raft_logs h' = [].
Proof.
  intros Hown. unfold restore_backup.
  assert (forall h', (fails (f_backups_dir fl);; filename ← fetch pb fl src; fails (f_sync fl);; validate_backup_db skip filename;;
       h_modify remove_old;; fails (f_db_dir fl);; switch_db fl filename;; fails (f_access fl)) h = (Ok tt, h') ->
       db_file (disk h') = source pb src h /\ is_Some (source pb src h) /\ lock_file (disk h') = lock_file (disk h) /\
       disk_snapshots (disk h') = ∅ /\ raft_logs h' = []) as Hm.
  { clear h'. intros h'. unfold mbind, st_bind. unfold fails. destruct (f_backups_dir fl); [done|]. simpl.
    destruct (fetch pb fl src h) as [[n|e| |] h1] eqn:Ef; try done. destruct (fetch_untouched _ _ _ _ _ _ Ef) as [(_ & Hl & _) _].
    pose proof (fetch_file _ _ _ _ _ _ Ef Hown) as Hn. destruct (f_sync fl); [done|]. simpl.
    destruct (if skip then _ else _); try done. unfold h_modify. destruct (f_db_dir fl); [done|]. simpl.
    unfold switch_db. cbn [remove_old disk disk_backups]. rewrite Hn. destruct (source pb src h) as [f|]; [|done].
    destruct (f_switch fl); [done|]. destruct (f_parent fl); [done|]. destruct (f_access fl); [done|]. intros [= <-]. simpl. eauto 6. }
  destruct src as [obj|p]; [|apply Hm]. destruct (bucket h); [apply Hm|done].
Qed.

(** Without faults a valid file is restored. *)
Definition no_faults : Faults := mkFaults false false false false false false false false false.
Lemma restore_succeeds pb p h f : in_backups pb p = None -> file_at pb p h = Some f -> validate_db_backup_snapshot (Some f) = Ok tt ->
  is_folder (disk_backups (disk h) !! match rsplit_once "/" p with Some (_, f) => f | None => p end) = false ->
  exists h', restore_backup pb no_faults false (SrcFile p) h = (Ok tt, h').
Proof.
  intros Hin Hf Hv Hfold. unfold restore_backup, fetch, mbind, st_bind. unfold fails, no_faults. cbn [f_backups_dir f_sync f_db_dir f_access mret st_ret].
  set (fn := match rsplit_once "/" p with Some (_, f) => f | None => p end) in *. unfold copy. rewrite Hf, Hfold, Hin. cbn [f_copy orb].
  rewrite bool_decide_false by done. destruct f as [d i| |]; [|done|done]. cbn -[validate_db_backup_snapshot].
  unfold validate_backup_db. cbn -[validate_db_backup_snapshot]. rewrite lookup_insert_eq, Hv. cbn. unfold switch_db. cbn. rewrite lookup_insert_eq. by eexists.
Qed.

(** The file of a backup *)
Lemma backup_file env node_id ts (w w' : SqlWriter.Writer (T := T)) :
  create_backup env node_id ts w = (Ok tt, w') -> is_Some (Sql.metadata (Sql.cur (conn w))) ->
  exists b, serialize_meta default_data = Some b /\
    backups w' !! backup_name node_id ts = Some (SqliteFile (Sql.set_metadata (Some (Some b)) (Sql.vacuum_db (Sql.cur (conn w)))) true).
Proof.
  intros Hb [m Hm]. destruct (meta_total default_data) as [b Es]. exists b. split; [done|]. unfold create_backup in Hb. revert Hb. fold (backup_name node_id ts).
  destruct (in_txn w || _ || _); [done|]. destruct (f_rename env || _); [done|]. destruct (f_open_backup env); [done|]. intros [= <-]. simpl.
  rewrite lookup_insert_eq. unfold persist_metadata. rewrite Es. simpl. by rewrite Hm.
Qed.
End Restore.

(** ** After the restore *)
Section Finish.
Context {W : Type} `{Cluster.RaftNode W} `{!RestoreRaft (W := W)}.

Lemma until_result {A} fuel ms (f : W -> option A * W) : forall w a w', until fuel ms f w = (Ok a, w') -> exists w0, f w0 = (Some a, w').
Proof.
  induction fuel as [|fuel IH]; intros w a w'; cbn [until]; [done|]. unfold mbind, st_bind, Cluster.on_world.
  destruct (f w) as [[b|] w1] eqn:E; [intros [= <- <-]; by exists w|]. unfold Cluster.wait. apply IH.
Qed.
Lemma finish_purges fuel (w w' : W) : restore_backup_finish fuel w = (Ok tt, w') ->
  (exists w0, trigger_snapshot w0 = (false, w')) \/
  (exists k w1 w2 w3, Z.of_nat RTT_REQS <= k /\ (last_applied w1).1 = Some k /\ has_snapshot w2 = (true, w3) /\
     exists w4, purge_log k w4 = (true, w')).
Proof.
  unfold restore_backup_finish. unfold mbind, st_bind.
  destruct (until fuel 50 initialized_now w) as [[[]| | |] wa]; try done. destruct (until fuel 50 led_now wa) as [[[]| | |] wb]; try done.
  destruct (rtts RTT_REQS wb) as [[[]| | |] wc]; try done. destruct (until fuel 50 applied_now wc) as [[k| | |] wd] eqn:Ea; try done.
  apply until_result in Ea as [w1 Ea]. unfold Cluster.on_world. destruct (trigger_snapshot wd) as [[] we] eqn:Et; simpl; [|intros [= <-]; left; by exists wd].
  destruct (until fuel 100 (when has_snapshot) we) as [[[]| | |] wf] eqn:Es; try done. intros Hp. right.
  apply until_result in Es as [w2 Es]. apply until_result in Hp as [w4 Hp]. unfold when in *.
  destruct (has_snapshot w2) as [[] w3] eqn:Eh; [|done]. destruct (purge_log k w4) as [[] w5] eqn:Ep; [|done]. simplify_eq.
  unfold applied_now in Ea. destruct (last_applied w1) as [[i|] w6] eqn:El; [|done]. destruct (Z.leb_spec (Z.of_nat RTT_REQS) i); [|done]. simplify_eq.
  exists k, w1, w2, wf. rewrite El. eauto 6.
Qed.
End Finish.

(** ** The schedule *)

(** A round of the cron task makes its backup at the scheduled time or less than a second
    after it, so never twice for one event. *)
Lemma cron_on_time now next : 0 <= now < next * 10 ^ 9 -> next < 2 ^ 63 ->
  exists d, cron_sleep now (Some (next * 10 ^ 9)) = (d, true) /\ 1 <= d /\ next * 10 ^ 9 <= now + d * 10 ^ 9 < next * 10 ^ 9 + 10 ^ 9.
Proof.
  intros Hn Hb. unfold cron_sleep. rewrite (proj2 (Z.leb_gt _ _)) by lia. rewrite Z.div_mul by done. eexists. split; [done|].
  pose proof (Z.div_mod now (10 ^ 9) ltac:(done)). pose proof (Z.mod_pos_bound now (10 ^ 9) ltac:(done)).
  assert (now / 10 ^ 9 < next) by (apply Z.div_lt_upper_bound; lia). assert (0 <= now / 10 ^ 9) by (apply Z.div_pos; lia).
  unfold wrap64. rewrite Z.mod_small by lia. lia.
Qed.
(** Five attempts at most, and none after one that succeeds *)
Lemma cron_attempts_ok {S} retries (job : St Net.ApiError S unit) sleep s b s' : cron_attempts retries job sleep s = (Ok b, s') ->
  exists n, (n <= retries)%nat /\ let before := Nat.iter n (fun s => sleep 10 (job s).2) s in
    if b then job before = (Ok tt, s') /\ (n < retries)%nat else n = retries /\ s' = before.
Proof.
  revert s. induction retries as [|r IH]; intros s; cbn [cron_attempts]; [intros [= <- <-]; exists 0%nat; done|].
  destruct (job s) as [[[]|e| |] s1] eqn:E; try done; [intros [= <- <-]; exists 0%nat; simpl; split; [lia|]; split; [done|lia]|].
  intros (n & Hn & Hb)%IH. exists (Datatypes.S n). split; [lia|]. cbv zeta in *. rewrite Nat.iter_succ_r, E. simpl.
  destruct b; [destruct Hb; split; [done|lia]|destruct Hb; split; [lia|done]].
Qed.

(** * What operators rely on, with instances, and what modelling them showed *)
Import Backup.

#[local] Open Scope Z_scope.

Section Restore.
Context {T : Type} `{Sql.SqlEngine T} `{Equiv T} `{!Sql.SqlEquiv (T := T)} `{SqlSM.UuidLib} {M : Type} `{!SqlWriter.MetaCodec (M := M)} `{!SqlWriter.MetaCodecOk (M := M)}.
Import Sql SqlWriter SqlSM.

(** C26: The backup a node has written can be restored, from a file outside of the node's own
    backup folder, on a node that was shut down cleanly: without I/O errors restoring
    succeeds, the node starts, and its database is the one that was backed up, up to what
    VACUUM may change, with the metadata of an empty state machine; the old snapshots and
    logs are gone. *)
Theorem backup_restores env env' ah pb node_id ts p (w w' : Writer (T := T)) h :
  create_backup env node_id ts w = (Ok tt, w') -> is_Some (metadata (cur (conn w))) ->
  in_backups pb p = None -> elsewhere h !! p = backups w' !! backup_name node_id ts ->
  is_folder (disk_backups (disk h) !! match rsplit_once "/" p with Some (_, f) => f | None => p end) = false ->
  lock_file (disk h) = false ->
  exists h' w2, restore_backup pb no_faults false (SrcFile p) h = (Ok tt, h') /\ raft_logs h' = [] /\ disk_snapshots (disk h') = ∅ /\
    new env' ah false false (disk h') = Ok w2 /\ cur (conn w2) ≡ cur (conn w) /\ read_metadata (cur (conn w2)) = Some default_data.
Proof.
  intros Hb Hm Hin Hp Hfold Hlock. destruct (backup_file _ _ _ _ _ Hb Hm) as (b & Es & Hf).
  assert (file_at pb p h = Some (SqliteFile (set_metadata (Some (Some b)) (vacuum_db (cur (conn w)))) true)) as Hat.
  { unfold file_at. by rewrite Hin, Hp, Hf. }
  assert (~ own_copy pb (SrcFile p)) as Hown by (simpl; rewrite Hin; by intros [? [=]]).
  destruct (restore_succeeds pb p h _ Hin Hat) as [h' Hr]; [simpl; by rewrite (meta_round _ _ Es)|done|].
  destruct (restore_places _ _ _ _ _ _ Hown Hr) as (Hd & _ & Hl & Hs & Hg). simpl in Hd. rewrite Hat in Hd.
  eexists h', _. split; [done|]. split; [done|]. split; [done|]. unfold new, check_set_lock_file. rewrite Hl, Hlock, Hd. simpl. split; [done|].
  split; [split; simpl; [apply vacuum_equiv|done]|]. unfold read_metadata. simpl. by apply meta_round.
Qed.

(** Restoring from a file that is not a valid backup fails and leaves the database, the
    snapshots, the logs and the lock file as they were. *)
Theorem restore_rejects pb fl src (h : Host (T := T)) r h' :
  ~ own_copy pb src -> validate_db_backup_snapshot (source pb src h) <> Ok tt ->
  restore_backup pb fl false src h = (r, h') -> r <> Ok tt /\ settled r /\ untouched h h'.
Proof. apply restore_invalid. Qed.
End Restore.

(** The local cleanup keeps every backup that is not older than the retention and, when the
    folder can be listed, removes every older one, finished or not; of the bucket only
    objects older than the retention are deleted. *)
Theorem backup_retention f_remove now_ns keep_for es r removed node_id ts :
  i64_min <= ts <= i64_max -> backup_local_cleanup f_remove now_ns keep_for (Some es) [] = (r, removed) ->
  (now_ns / 10 ^ 9 - keep_for <= ts -> (backup_name node_id ts ∉ removed) /\ ((backup_name node_id ts +:+ "~") ∉ removed)) /\
  (Forall readable es -> DT_MIN <= now_ns / 10 ^ 9 - keep_for -> TS_MIN < ts < now_ns / 10 ^ 9 - keep_for ->
     forall name, name = backup_name node_id ts \/ name = (backup_name node_id ts +:+ "~") ->
     Some (mkEntry (Some name) (Some false)) ∈ es -> f_remove name = false -> name ∈ removed) /\
  (forall f_delete thr keys r deleted, delete_expired f_delete thr keys [] = (r, deleted) ->
     DT_MIN <= ts <= DT_MAX -> thr <= ts * 10 ^ 9 -> backup_name node_id ts ∉ deleted).
Proof.
  intros Hr Hc. destruct (expired_own (now_ns / 10 ^ 9 - keep_for) node_id ts Hr) as [Ho Ht].
  assert ((now_ns - keep_for * 10 ^ 9) / 10 ^ 9 = now_ns / 10 ^ 9 - keep_for) as Hdiv.
  { replace (now_ns - keep_for * 10 ^ 9) with (now_ns + - keep_for * 10 ^ 9) by lia. rewrite Z.div_add by done. apply Z.add_opp_r. }
  unfold backup_local_cleanup, sub_duration, mbind, st_bind, st_lift in Hc. rewrite Hdiv in Hc. split; [|split].
  - intros Hk. assert (expired (now_ns / 10 ^ 9 - keep_for) (backup_name node_id ts) = false /\
      expired (now_ns / 10 ^ 9 - keep_for) (backup_name node_id ts +:+ "~") = false) as [E1 E2].
    { rewrite Ho, Ht, (proj2 (Z.ltb_ge ts _)) by lia. by rewrite andb_false_r. }
    destruct (_ <? DT_MIN); [injection Hc as <- <-; split; apply not_elem_of_nil|]. rewrite Hdiv in Hc.
    apply cleanup_removes in Hc as ((k & -> & Hk') & _ & _).
    assert (forall s, s ∈ [] ++ k -> expired (now_ns / 10 ^ 9 - keep_for) s = true) as Hx.
    { intros s Hs. eapply to_remove_expired, elem_of_submseteq; [exact Hs|by apply sublist_submseteq]. }
    split; intros Hin%Hx; congruence.
  - intros Hes Hd Hts name Hname Hin Hf. rewrite (proj2 (Z.ltb_ge _ _)) in Hc by done. rewrite Hdiv in Hc.
    apply cleanup_removes in Hc as (_ & _ & Hall). destruct (Hall Hes) as [_ ->]. apply to_remove_in; [done| |done].
    destruct Hname as [-> | ->]; rewrite ?Ho, ?Ht; rewrite !(proj2 (Z.ltb_lt _ _)) by lia; done.
  - intros f_delete thr keys r' deleted (k & -> & _ & Hk)%delete_expired_old Hdt Hthr Hin. simpl in Hin.
    destruct (proj1 (Forall_forall _ _) Hk _ Hin) as (dt & Hd & Hlt). rewrite backup_name_dt in Hd by done. injection Hd as <-. lia.
Qed.

(** The names of backups are accepted for a download and give the time back; no accepted
    name leaves the folder. *)
Theorem backup_names_safe node_id ts :
  0 <= node_id <= u64_max -> i64_min <= ts <= i64_max ->
  valid_backup_filename (backup_name node_id ts) = true /\
  (DT_MIN <= ts <= DT_MAX -> dt_from_backup_name (backup_name node_id ts) = Some ts) /\
  forall f, valid_backup_filename f = true -> has_char "/" f = false /\ has_char "\" f = false.
Proof.
  intros Hn Ht. split; [by apply backup_name_valid|]. split; [by apply backup_name_dt|].
  intros f Hf. split; apply valid_no_separator; auto.
Qed.

(** Finishing a restore returns only when the snapshot could not be triggered or when
    there is a snapshot and the logs up to an applied entry behind the ten round trips
    have been purged. *)
Theorem restore_finishes {W} `{Cluster.RaftNode W} `{!RestoreRaft (W := W)} fuel (w w' : W) :
  restore_backup_finish fuel w = (Ok tt, w') ->
  (exists w0, trigger_snapshot w0 = (false, w')) \/
  (exists k w1 w2 w3, Z.of_nat RTT_REQS <= k /\ (last_applied w1).1 = Some k /\ has_snapshot w2 = (true, w3) /\
     exists w4, purge_log k w4 = (true, w')).
Proof. apply finish_purges. Qed.

(** ** Durations *)
Fixpoint no_space (s : string) : bool := match s with EmptyString => true | String a s => negb (is_space a) && no_space s end.
Lemma trim_end_id s : no_space s = true -> trim_end s = s.
Proof.
  induction s as [|a s IH]; cbn [no_space trim_end]; [done|]. intros [Ha Hs]%andb_prop. rewrite (IH Hs). destruct s; [|done].
  by rewrite (proj1 (negb_true_iff _) Ha).
Qed.
Lemma trim_id s : no_space s = true -> trim s = s.
Proof.
  intros Hs. unfold trim. assert (trim_start s = s) as ->; [|by apply trim_end_id]. destruct s as [|a s]; [done|].
  cbn [no_space trim_start] in *. apply andb_prop in Hs as [Ha _]. by rewrite (proj1 (negb_true_iff _) Ha).
Qed.
Lemma digits_no_space s : all_digits s = true -> no_space s = true.
Proof.
  induction s as [|a s IH]; cbn [all_digits no_space]; [done|]. destruct (digit_of a) eqn:E; [|done]. intros Hs. rewrite (IH Hs), andb_true_r.
  unfold digit_of in E. unfold is_space. destruct (_ && _) eqn:Eb in E; [|done]. apply andb_prop in Eb as [El%Z.leb_le _].
  apply negb_true_iff, orb_false_iff. split; [apply andb_false_iff; right; apply N.leb_gt; lia|apply N.eqb_neq; lia].
Qed.
Lemma no_space_app s t : no_space (s +:+ t) = no_space s && no_space t.
Proof. induction s as [|a s IH]; [done|]. change (negb (is_space a) && no_space (s +:+ t) = negb (is_space a) && no_space s && no_space t). by rewrite IH, andb_assoc. Qed.
Lemma split_last_app s c : split_last (s +:+ String c EmptyString) = Some (s, c).
Proof. induction s as [|a s IH]; [done|]. change (split_last (String a (s +:+ String c "")) = Some (String a s, c)). cbn [split_last]. by rewrite IH. Qed.
Lemma unit_plain c mul : unit_secs c = Some mul -> is_continuation c = false /\ is_space c = false /\ 0 < mul <= 31536000.
Proof.
  destruct c as [[] [] [] [] [] [] [] []]; cbn; try done; intros [= <-]; split; try done; split; try done; lia.
Qed.

(** A number with a unit is that many seconds; no product overflows. *)
Theorem durations_parse n c mul : 0 <= n <= u32_max -> unit_secs c = Some mul ->
  parse_duration (to_string n +:+ String c EmptyString) = Ok (Some (n * mul)).
Proof.
  intros Hn Hu. destruct (unit_plain c mul Hu) as (Hc & Hs & Hm). unfold parse_duration.
  assert (no_space (to_string n) = true) as Hd by apply digits_no_space, all_digits_to_string.
  rewrite trim_id by (rewrite no_space_app, Hd; cbn [no_space]; by rewrite Hs). rewrite split_last_app, Hc, Hu, trim_id by done.
  assert (Migrations.parse_u32 (to_string n) = Some n) as ->.
  { unfold Migrations.parse_u32. pose proof (all_digits_to_string n) as Ha. destruct (to_string n) as [|a s] eqn:E; [by apply to_string_nonempty in E|].
    destruct (Ascii.eqb_spec a "+") as [->|]; [done|]. rewrite <- E. apply parse_digits_to_string. done. }
  simpl. rewrite Z.min_l; [done|]. unfold u32_max, i64_max in *. nia.
Qed.

(** ** Instances *)
Section Instances.
Import Sql SqlWriter SqlSM.
#[local] Existing Instances SqlTheorems.plain SqlTheorems.plain_ok SqlTheorems.plain_equiv.

Definition backed_up : Writer (T := Demo) (M := nat) := (create_backup calm 1 1800000000 SqlTheorems.node).2.
Definition idle_host (locked : bool) : Host (T := Demo) :=
  mkHost (mkDisk (Some Garbage) locked ∅ ∅) [1; 2] (list_to_map [("/tmp/b.sqlite", default Garbage (backups backed_up !! backup_name 1 1800000000))]) None.

Lemma backup_restores_witness : exists h' w2,
  restore_backup "/data/backups" no_faults false (SrcFile "/tmp/b.sqlite") (idle_host false) = (Ok tt, h') /\
  new calm true false false (disk h') = Ok w2 /\ cur (conn w2) ≡ cur (conn SqlTheorems.node).
Proof.
  destruct (backup_restores calm calm true "/data/backups" 1 1800000000 "/tmp/b.sqlite" SqlTheorems.node backed_up (idle_host false))
    as (h' & w2 & Hr & _ & _ & Hn & He & _); [reflexivity|vm_compute; eauto|reflexivity|vm_compute; reflexivity|reflexivity|reflexivity|].
  by exists h', w2.
Defined.
Lemma restore_rejects_witness : exists h', restore_backup "/data/backups" no_faults false (SrcFile "/tmp/none") (idle_host false) = (Err EError, h') /\ untouched (idle_host false) h'.
Proof.
  destruct (restore_backup "/data/backups" no_faults false (SrcFile "/tmp/none") (idle_host false)) as [r h'] eqn:E.
  destruct (restore_rejects "/data/backups" no_faults (SrcFile "/tmp/none") (idle_host false) r h') as (_ & _ & Hu);
    [simpl; intros [x Hx]; discriminate Hx|vm_compute; discriminate|exact E|]. exists h'. split; [|exact Hu]. vm_compute in E. by injection E as <- <-.
Defined.

(** A node that did not stop cleanly keeps its lock file through a restore: with auto-heal
    its start removes the restored database, without it panics. *)
Theorem restore_after_crash_lost : exists h' w2,
  restore_backup "/data/backups" no_faults false (SrcFile "/tmp/b.sqlite") (idle_host true) = (Ok tt, h') /\
  is_Some (db_file (disk h')) /\ new calm true false false (disk h') = Ok w2 /\ t_rows (tables (user (cur (conn w2)))) = [] /\
  new calm false false false (disk h') = Panic.
Proof. eexists _, _. split; [vm_compute; reflexivity|]. split; [by eexists|]. by vm_compute. Qed.

(** A backup named by its path in the folder of the backups is truncated. *)
Theorem restore_own_backup_truncates : exists h',
  restore_backup "/data/backups" no_faults false (SrcFile "/data/backups/backup_node_1_1800000000.sqlite")
    (mkHost (mkDisk None false ∅ (backups backed_up)) [] ∅ None) = (Err ESqlite, h') /\
  backups backed_up !! "backup_node_1_1800000000.sqlite" <> Some (SqliteFile empty_db true) /\
  disk_backups (disk h') !! "backup_node_1_1800000000.sqlite" = Some (SqliteFile empty_db true).
Proof. eexists. split; [vm_compute; reflexivity|]. split; [by vm_compute|by vm_compute]. Qed.
End Instances.

(** Two backups: an old one, and a temporary file of a new one *)
Definition listing : list (option DirEntry) :=
  [Some (mkEntry (Some (backup_name 1 1710000000)) (Some false)); Some (mkEntry (Some "tmp") (Some true));
   Some (mkEntry (Some (backup_name 1 1799999999 +:+ "~")) (Some false))].
Lemma backup_retention_witness : exists r removed,
  backup_local_cleanup (fun _ => false) (1800000000 * 10 ^ 9) 86400 (Some listing) [] = (r, removed) /\ backup_name 1 1710000000 ∈ removed.
Proof.
  destruct (backup_local_cleanup (fun _ => false) (1800000000 * 10 ^ 9) 86400 (Some listing) []) as [r removed] eqn:E. exists r, removed. split; [done|].
  destruct (backup_retention (fun _ => false) (1800000000 * 10 ^ 9) 86400 listing r removed 1 1710000000 ltac:(split; by vm_compute) E) as (_ & Hrem & _).
  apply Hrem; [repeat constructor; by eexists|by vm_compute|split; by vm_compute|by left|left|done].
Defined.
Lemma backup_names_safe_witness : valid_backup_filename "backup_node_1_1700000000.sqlite" = true /\ has_char "/" "backup_node_1_1700000000.sqlite" = false.
Proof.
  destruct (backup_names_safe 1 1700000000 ltac:(split; by vm_compute) ltac:(split; by vm_compute)) as (Hv & _ & Hs).
  split; [exact Hv|]. apply (Hs "backup_node_1_1700000000.sqlite"). exact Hv.
Defined.

(** The test for the name joins its two parts with [&&]: files that are no backups go, when
    only one of the two fits. *)
Theorem cleanup_removes_others :
  (backup_local_cleanup (fun _ => false) (1800000000 * 10 ^ 9) 86400
     (Some [Some (mkEntry (Some "export_1710000000.sqlite") (Some false)); Some (mkEntry (Some "backup_node_notes_1710000000") (Some false))]) []).2 =
  ["export_1710000000.sqlite"; "backup_node_notes_1710000000"].
Proof. vm_compute. reflexivity. Qed.

(** A duration that ends inside of a character of more than one byte *)
Theorem duration_panics : parse_duration (String "5" (String (ascii_of_N 195) (String (ascii_of_N 164) EmptyString))) = Panic.
Proof. reflexivity. Qed.

(** The endpoint reports success although the backup failed. *)
Theorem failed_backup_reported {W} `{Cluster.RaftNode W} `{!RestoreRaft (W := W)} app (w w1 w2 : W) l e :
  Cluster.leader_now Cluster.Sqlite w = (Some l, w1) -> l <> 0 ->
  write_backup (l =? Cluster.app_id app) l (Cluster.clock w1 / 1000) w1 = (Ok (Err e), w2) ->
  post_create_backup app (Some (Cluster.secret_api app)) w = (Ok tt, w2).
Proof.
  intros Hl Hn Hb. unfold post_create_backup, Mgmt.validate_secret. rewrite bool_decide_true by done. unfold mbind, st_bind. simpl.
  unfold mbind, st_bind, Cluster.on_world. rewrite Hl. simpl. rewrite (proj2 (Z.eqb_neq _ _)) by done. unfold Cluster.now. by rewrite Hb.
Qed.
