(* ===== verification/Config.v ===== *)
(** Configuration: [hiqlite/src/config.rs], [hiqlite/src/config_toml.rs] and the settings of
    [hiqlite/src/tls.rs], with every feature on.

    The environment is a function from names to values.  A TOML table is a map; reading a
    key removes it.  Cron schedules, the encryption keys, base64, the connection test of S3
    and the host name are parameters; reading files and [dotenvy] are left out, so a
    secrets file is the table that was read from it, if any. *)
From stdpp Require Import base gmap strings list numbers pretty.
From Stdlib Require Import Ascii.
From S2P Require Import Prelude Text WalWriter SqlRows SqlMigrate NetBase Backup.

#[local] Open Scope Z_scope.

Module Config.
Import Net.

(** [toml::Value]; floats, dates and tables are of no use here. *)
Inductive Value : Type := VString (s : string) | VInteger (i : Z) | VBoolean (b : bool) | VArray (l : list Value) | VOther.
Abbreviation Table := (gmap string Value).

Record EncKeys : Type := mkEncKeys { enc_key_active : string; enc_keys : list (string * list Z) }.
Record S3Config : Type := mkS3 { s3_url : string; s3_bucket : string; s3_region : string; s3_key : string; s3_secret : string; s3_path_style : bool }.
Class ConfigLibs : Type := {
  cron_ok : string -> bool;
  enc_from_env : option EncKeys;
  enc_try_parse : string -> list string -> option EncKeys;
  b64_text : string -> option string;
  s3_url_ok : string -> bool;
  s3_reachable : S3Config -> bool;
  hostname : option string;
  read_secrets : string -> option Table;
}.

Record RateLimitConfig : Type := mkRate { rps : Z; burst : Z }.
Inductive ServerTlsConfig : Type := TlsAutoCertificates | Specific (key cert : string) (danger_tls_no_verify : bool).
(** The fields of [RaftConfig] that are not constant *)
Record RaftConfig : Type := mkRaft { replication_lag_threshold : Z; snapshot_logs_since_last : Z }.
Record NodeConfig : Type := mkConfig {
  node_id : Z;
  nodes : list Node;
  listen_addr_api : string;
  listen_addr_raft : string;
  data_dir : string;
  filename_db : string;
  log_statements : bool;
  prepared_statement_cache_capacity : Z;
  read_pool_size : Z;
  wal_sync : LogSync;
  wal_size : Z;
  cache_storage_disk : bool;
  raft_config : RaftConfig;
  tls_raft : option ServerTlsConfig;
  tls_api : option ServerTlsConfig;
  secret_raft : string;
  secret_api : string;
  keys : EncKeys;
  backup_config : string * Z;
  backup_keep_for_local : Z;
  s3_config : option S3Config;
  password_dashboard : option string;
  insecure_cookie : bool;
  health_check_delay : Z;
  learner_only : bool;
  rate_limit_cache : option RateLimitConfig;
  rate_limit_db : option RateLimitConfig;
}.

(** [default_raft_config] *)
Definition default_raft_config (logs_until_snapshot : Z) : RaftConfig := mkRaft (wrap64 (logs_until_snapshot * 2)) logs_until_snapshot.

(** [is_valid] *)
Definition is_valid (c : NodeConfig) : Res ApiError unit :=
  if bool_decide (nodes c = []) then Err Config
  else if node_id c <? 1 then Err Config
  else if negb (existsb (fun n => Net.node_id n =? node_id c) (nodes c)) then Err Config
  else if Nat.ltb (String.length (secret_raft c)) 16 || Nat.ltb (String.length (secret_api c)) 16 then Err Config
  else if bool_decide (enc_keys (keys c) = []) then Err Config
  else if negb (existsb (fun k => String.eqb k.1 (enc_key_active (keys c))) (enc_keys (keys c))) then Err Config
  else match password_dashboard c with
       | Some p => if Nat.ltb (String.length p) 16 then Err Config else Ok tt
       | None => Ok tt
       end.

Definition parse_bool (s : string) : option bool := if String.eqb s "true" then Some true else if String.eqb s "false" then Some false else None.

(** [impl From<&str> for Node] *)
Definition node_from (s : string) : Res ApiError Node :=
  match split_once " " (Backup.trim s) with
  | None => Panic
  | Some (id, rest) =>
      match split_once " " rest with
      | None => Panic
      | Some (addr_raft, addr_api) =>
          match parse_u64 id with
          | None => Panic
          | Some id => Ok (mkNode id (Backup.trim addr_raft) (Backup.trim addr_api))
          end
      end
  end.
Fixpoint nodes_from (ls : list string) : Res ApiError (list Node) :=
  match ls with [] => Ok [] | l :: ls => n ← node_from l; ns ← nodes_from ls; mret (n :: ns) end.
Definition is_empty (s : string) : bool := String.eqb s "".

Section Env.
Context (env : string -> option string) `{ConfigLibs}.

(** ** From the environment *)
Definition expect {A} (o : option A) : Res ApiError A := match o with Some a => Ok a | None => Panic end.
Definition expect_res {A} (r : Res ApiError A) : Res ApiError A := match r with Err _ => Panic | r => r end.
(** [env::var(name).map(parse).unwrap_or(default)] with a parser that panics *)
Definition env_or {A} (name : string) (parse : string -> option A) (d : A) : Res ApiError A :=
  match env name with Some v => expect (parse v) | None => Ok d end.
Definition env_duration (name : string) (d : Z) : Res ApiError Z :=
  match env name with Some v => o ← Backup.parse_duration v; expect o | None => Ok d end.
Definition env_opt {A} (name : string) (parse : string -> option A) : Res ApiError (option A) :=
  match env name with Some v => a ← expect (parse v); mret (Some a) | None => Ok None end.

(** [Node::parse_from_env] *)
Definition parse_from_env (name : string) : Res ApiError (list Node) :=
  v ← expect (env name); nodes_from (List.filter (fun l => negb (is_empty l)) (lines v)).

(** [node_id_from_hostname] *)
Definition node_id_from_hostname : Res ApiError Z :=
  h ← expect hostname; p ← expect (rsplit_once "-" h); id ← expect (parse_u64 p.2); mret (wrap64 (id + 1)).

(** [ServerTlsConfig::from_env] *)
Definition tls_from_env (variant : string) : Res ApiError (option ServerTlsConfig) :=
  let auto := match env "HQL_TLS_AUTO_CERTS" with Some v => default false (parse_bool v) | None => false end in
  let key := env ("HQL_TLS_" +:+ variant +:+ "_KEY") in
  let cert := env ("HQL_TLS_" +:+ variant +:+ "_CERT") in
  no_verify ← env_opt ("HQL_TLS_" +:+ variant +:+ "_NO_VERIFY") parse_bool;
  match key, cert with
  | Some k, Some c => mret (Some (Specific k c (default false no_verify)))
  | Some _, None | None, Some _ => Err Config
  | None, None => mret (if auto then Some TlsAutoCertificates else None)
  end.

(** [S3Config::try_from_env] *)
Definition s3_try_from_env : Res ApiError (option S3Config) :=
  match env "HQL_S3_URL" with
  | None => Ok None
  | Some url =>
      if negb (s3_url_ok url) then Panic
      else bucket ← expect (env "HQL_S3_BUCKET"); region ← expect (env "HQL_S3_REGION");
           style ← expect (env "HQL_S3_PATH_STYLE"); path_style ← expect (parse_bool style);
           key ← expect (env "HQL_S3_KEY"); secret ← expect (env "HQL_S3_SECRET");
           mret (Some (mkS3 url bucket region key secret path_style))
  end.
(** [DashboardState::from_env] *)
Definition password_from_env : Res ApiError (option string) :=
  match env "HQL_PASSWORD_DASHBOARD" with Some b64 => p ← expect (b64_text b64); mret (Some p) | None => Ok None end.
(** [BackupConfig::from_env] *)
Definition DEFAULT_CRON : string := "0 30 2 * * * *".
Definition backup_from_env : Res ApiError (string * Z) :=
  let cron := default DEFAULT_CRON (env "HQL_BACKUP_CRON") in
  if negb (cron_ok cron) then Panic else keep ← env_duration "HQL_BACKUP_KEEP_FOR" (30 * 24 * 3600); mret (cron, keep).
Definition rate_from_env (rps_var burst_var : string) : Res ApiError (option RateLimitConfig) :=
  r ← env_opt rps_var Migrations.parse_u32;
  match r with
  | None => mret None
  | Some rps => b ← env_opt burst_var Migrations.parse_u32; mret (Some (mkRate rps (default rps b)))
  end.
Definition sync_of (s : string) : option LogSync := match LogSync_try_from s with Ok l => Some l | _ => None end.

(** [from_env_parse] *)
Definition from_env_parse : Res ApiError NodeConfig :=
  node_id ← (if String.eqb (default "" (env "HQL_NODE_ID_FROM")) "k8s" then node_id_from_hostname
             else v ← expect (env "HQL_NODE_ID"); expect (parse_u64 v));
  cache_disk ← env_or "HQL_CACHE_STORAGE_DISK" parse_bool true;
  logs_keep ← env_or "HQL_LOGS_UNTIL_SNAPSHOT" parse_u64 10000;
  keep_local ← env_duration "HQL_BACKUP_KEEP_FOR_LOCAL" (3 * 24 * 3600);
  insecure ← env_or "HQL_INSECURE_COOKIE" parse_bool false;
  rate_cache ← rate_from_env "HQL_RL_CACHE_RPS" "HQL_RL_CACHE_BURST";
  rate_db ← rate_from_env "HQL_RL_DB_RPS" "HQL_RL_DB_BURST";
  ns ← parse_from_env "HQL_NODES";
  log_stmts ← env_or "HQL_LOG_STATEMENTS" parse_bool false;
  pool ← env_or "HQL_READ_POOL_SIZE" parse_u64 4;
  sync ← env_or "HQL_LOG_SYNC" sync_of (IntervalMillis 200);
  size ← env_or "HQL_WAL_SIZE" Migrations.parse_u32 (2 * 1024 * 1024);
  raft ← expect_res (tls_from_env "RAFT");
  api ← expect_res (tls_from_env "API");
  s_raft ← expect (env "HQL_SECRET_RAFT");
  s_api ← expect (env "HQL_SECRET_API");
  enc ← expect enc_from_env;
  backup ← backup_from_env;
  s3 ← s3_try_from_env;
  pwd ← password_from_env;
  delay ← env_duration "HQL_HEALTH_CHECK_DELAY" 30;
  learner ← env_or "HQL_LEARNER_ONLY" parse_bool false;
  let c := mkConfig node_id ns (default "0.0.0.0" (env "HQL_LISTEN_ADDR_API")) (default "0.0.0.0" (env "HQL_LISTEN_ADDR_RAFT"))
    (default "data" (env "HQL_DATA_DIR")) (default "hiqlite.db" (env "HQL_FILENAME_DB")) log_stmts 1024 pool sync size cache_disk
    (default_raft_config logs_keep) raft api s_raft s_api enc backup keep_local s3 pwd insecure delay learner rate_cache rate_db in
  expect_res (is_valid c);; mret c.

(** ** From a TOML table *)
Abbreviation TSt := (St ApiError Table).
Definition remove (key : string) : TSt (option Value) := fun m => (Ok (m !! key), delete key m).
(** The environment, when the variable has a name *)
Definition var (name : string) : option string := if is_empty name then None else env name.

Definition t_bool (key name : string) : TSt (option bool) :=
  value ← remove key;
  match var name with
  | Some v => match parse_bool v with Some b => mret (Some b) | None => st_err Config end
  | None => match value with Some (VBoolean b) => mret (Some b) | Some _ => st_err Config | None => mret None end
  end.
Definition t_duration (key name : string) : TSt (option Z) :=
  value ← remove key;
  match var name with
  | Some v => o ← st_lift (Backup.parse_duration v); match o with Some d => mret (Some d) | None => st_err Config end
  | None =>
      match value with
      | None => mret None
      | Some (VString s) => o ← st_lift (Backup.parse_duration s); match o with Some d => mret (Some d) | None => st_err Config end
      | Some (VInteger i) => if i <? 0 then st_err Config else mret (Some i)
      | Some _ => st_err Config
      end
  end.
Definition t_i64 (key name : string) : TSt (option Z) :=
  value ← remove key;
  match var name with
  | Some v => match parse_i64 v with Some i => mret (Some i) | None => st_err Config end
  | None => match value with Some (VInteger i) => mret (Some i) | Some _ => st_err Config | None => mret None end
  end.
(** [t_u64], [t_u32], [t_u16]: an error of [t_i64] is taken for a key that is not there. *)
Definition t_unsigned (max : Z) (key name : string) : TSt (option Z) := fun m =>
  match t_i64 key name m with
  | (Ok (Some v), m) => if (v <? 0) || (max <? v) then (Err Config, m) else (Ok (Some v), m)
  | (_, m) => (Ok None, m)
  end.
Definition t_u64 := t_unsigned i64_max.
Definition t_u32 := t_unsigned u32_max.
Definition t_u16 := t_unsigned (2 ^ 16 - 1).
Definition t_str (key name : string) : TSt (option string) :=
  value ← remove key;
  match var name with
  | Some v => mret (Some v)
  | None => match value with Some (VString s) => mret (Some s) | Some _ => st_err Config | None => mret None end
  end.
Fixpoint strings_of (l : list Value) : Res ApiError (list string) :=
  match l with [] => Ok [] | VString s :: l => ss ← strings_of l; mret (s :: ss) | _ => Err Config end.
(** The lines of a variable, trimmed, without the empty ones *)
Definition trimmed_lines (v : string) : list string := List.filter (fun l => negb (is_empty l)) (Backup.trim <$> lines v).
Definition t_str_vec (key name : string) : TSt (option (list string)) :=
  value ← remove key;
  match var name with
  | Some v => mret (Some (trimmed_lines v))
  | None => match value with Some (VArray l) => ss ← st_lift (strings_of l); mret (Some ss) | _ => mret None end
  end.

Definition SECRETS_REF : string := "$SECRETS".
Definition t_str_secret (key name : string) (secrets : option Table) : TSt (option string) :=
  v ← t_str key name;
  match v with
  | Some v =>
      if String.eqb v SECRETS_REF then
        match secrets with
        | None => st_err Config
        | Some t => match t !! key with Some (VString s) => mret (Some s) | _ => st_err Config end
        end
      else mret (Some v)
  | None => mret None
  end.
Definition secret_vec_lookup (key : string) (secrets : option Table) : Res ApiError (option (list string)) :=
  match secrets with
  | None => Err Config
  | Some t => match t !! key with Some (VArray l) => ss ← strings_of l; mret (Some ss) | _ => Err Config end
  end.
Definition t_str_vec_secret (key name : string) (secrets : option Table) : TSt (option (list string)) :=
  value ← remove key;
  match var name with
  | Some v => if String.eqb v SECRETS_REF then st_lift (secret_vec_lookup key secrets) else mret (Some (trimmed_lines v))
  | None =>
      match value with
      | Some (VString s) => if String.eqb s SECRETS_REF then st_lift (secret_vec_lookup key secrets) else mret None
      | Some (VArray l) => ss ← st_lift (strings_of l); mret (Some ss)
      | _ => mret None
      end
  end.

(** [check_empty]: keys of features that are off *)
Definition FEATURE_KEYS : list string :=
  ["backup_cron"; "backup_keep_for"; "backup_keep_for_local"; "cache_storage_disk"; "s3_url"; "s3_bucket"; "s3_region"; "s3_path_style";
   "s3_key"; "s3_secret"; "password_dashboard"; "insecure_cookie"; "enc_key_active"; "enc_keys"; "rate_limit_cache_rps";
   "rate_limit_cache_burst"; "rate_limit_db_rps"; "rate_limit_db_burst"].
Definition check_empty : TSt unit := fun m =>
  (if forallb (fun k => bool_decide (k ∈ FEATURE_KEYS)) (map_to_list m).*1 then Ok tt else Err Config, m).

Definition mandatory {A} (m : TSt (option A)) : TSt A := o ← m; match o with Some a => mret a | None => st_err Config end.
Definition or_default {A} (m : TSt (option A)) (d : A) : TSt A := o ← m; mret (default d o).

Definition t_tls (auto : bool) (p v : string) : TSt (option ServerTlsConfig) :=
  key ← t_str ("tls_" +:+ p +:+ "_key") ("HQL_TLS_" +:+ v +:+ "_KEY");
  cert ← t_str ("tls_" +:+ p +:+ "_cert") ("HQL_TLS_" +:+ v +:+ "_CERT");
  no_verify ← or_default (t_bool ("tls_" +:+ p +:+ "_danger_tls_no_verify") ("HQL_TLS_" +:+ v +:+ "_NO_VERIFY")) false;
  match key, cert with
  | Some k, Some c => mret (Some (Specific k c no_verify))
  | None, None => mret (if auto then Some TlsAutoCertificates else None)
  | _, _ => st_err Config
  end.
Definition t_rate (p v : string) : TSt (option RateLimitConfig) :=
  r ← t_u32 ("rate_limit_" +:+ p +:+ "_rps") ("HQL_RL_" +:+ v +:+ "_RPS");
  match r with
  | None => mret None
  | Some rps => b ← or_default (t_u32 ("rate_limit_" +:+ p +:+ "_burst") ("HQL_RL_" +:+ v +:+ "_BURST")) rps; mret (Some (mkRate rps b))
  end.
Definition t_s3 (secrets : option Table) : TSt (option S3Config) :=
  url ← t_str "s3_url" "HQL_S3_URL";
  match url with
  | None => mret None
  | Some url =>
      bucket ← mandatory (t_str "s3_bucket" "HQL_S3_BUCKET"); region ← mandatory (t_str "s3_region" "HQL_S3_REGION");
      path_style ← or_default (t_bool "s3_path_style" "HQL_S3_PATH_STYLE") true;
      key ← mandatory (t_str_secret "s3_key" "HQL_S3_KEY" secrets); secret ← mandatory (t_str_secret "s3_secret" "HQL_S3_SECRET" secrets);
      let c := mkS3 url bucket region key secret path_style in
      if negb (s3_url_ok url && s3_reachable c) then st_err Config else mret (Some c)
  end.
Definition t_password (secrets : option Table) : TSt (option string) :=
  p ← t_str_secret "password_dashboard" "HQL_PASSWORD_DASHBOARD" secrets;
  match p with
  | None => mret None
  | Some b64 => match b64_text b64 with Some s => mret (Some s) | None => st_err Config end
  end.
Definition t_enc_keys (given : option EncKeys) (secrets : option Table) : TSt EncKeys :=
  match given with
  | Some k => mret k
  | None =>
      active ← mandatory (t_str_secret "enc_key_active" "ENC_KEY_ACTIVE" secrets);
      ks ← mandatory (t_str_vec_secret "enc_keys" "ENC_KEYS" secrets);
      match enc_try_parse active ks with Some k => mret k | None => st_err Config end
  end.
Definition t_node_id : TSt Z :=
  from ← t_str "node_id_from" "HQL_NODE_ID_FROM";
  if String.eqb (default "" from) "k8s" then st_lift node_id_from_hostname else or_default (t_u64 "node_id" "HQL_NODE_ID") 0.
Definition t_nodes : TSt (list Node) :=
  o ← t_str_vec "nodes" "HQL_NODES";
  match o with Some ls => st_lift (nodes_from ls) | None => mret [mkNode 1 "localhost:8100" "localhost:8200"] end.
Definition t_log_sync : TSt LogSync :=
  o ← t_str "log_sync" "HQL_LOG_SYNC";
  match o with Some v => match sync_of v with Some s => mret s | None => st_err Config end | None => mret (IntervalMillis 200) end.
Definition t_backup : TSt ((string * Z) * Z) :=
  cron ← or_default (t_str "backup_cron" "HQL_BACKUP_CRON") DEFAULT_CRON;
  keep ← or_default (t_duration "backup_keep_for" "HQL_BACKUP_KEEP_FOR") (30 * 24 * 3600);
  local ← or_default (t_duration "backup_keep_for_local" "HQL_BACKUP_KEEP_FOR_LOCAL") (3 * 24 * 3600);
  if cron_ok cron then mret ((cron, keep), local) else st_err Config.
(** The secrets: the given table, or the one of a file *)
Definition t_secrets (given : option Table) : TSt (option Table) :=
  match given with
  | Some t => mret (Some t)
  | None => p ← t_str "secrets_file" "HQL_SECRETS_FILE";
            match p with
            | Some p => match read_secrets p with Some t => mret (Some t) | None => st_err Config end
            | None => mret None
            end
  end.

(** [from_toml_table] *)
Definition from_toml_table (given : option Table) (enc : option EncKeys) : TSt NodeConfig :=
  secrets ← t_secrets given;
  node_id ← t_node_id;
  ns ← t_nodes;
  l_api ← or_default (t_str "listen_addr_api" "HQL_LISTEN_ADDR_API") "0.0.0.0";
  l_raft ← or_default (t_str "listen_addr_raft" "HQL_LISTEN_ADDR_RAFT") "0.0.0.0";
  dir ← or_default (t_str "data_dir" "HQL_DATA_DIR") "data";
  file ← or_default (t_str "filename_db" "HQL_FILENAME_DB") "hiqlite.db";
  log_stmts ← or_default (t_bool "log_statements" "HQL_LOG_STATEMENTS") false;
  capacity ← or_default (t_u16 "prepared_statement_cache_capacity" "") 1024;
  pool ← or_default (t_u16 "read_pool_size" "HQL_READ_POOL_SIZE") 4;
  sync ← t_log_sync;
  size ← or_default (t_u32 "wal_size" "HQL_WAL_SIZE") (2 * 1024 * 1024);
  cache_disk ← or_default (t_bool "cache_storage_disk" "HQL_CACHE_STORAGE_DISK") true;
  logs_until ← or_default (t_u64 "logs_until_snapshot" "HQL_LOGS_UNTIL_SNAPSHOT") 10000;
  auto ← or_default (t_bool "tls_auto_certificates" "HQL_TLS_AUTO_CERTS") false;
  raft ← t_tls auto "raft" "RAFT";
  api ← t_tls auto "api" "API";
  s_raft ← mandatory (t_str_secret "secret_raft" "HQL_SECRET_RAFT" secrets);
  s_api ← mandatory (t_str_secret "secret_api" "HQL_SECRET_API" secrets);
  delay ← or_default (t_duration "health_check_delay" "HQL_HEALTH_CHECK_DELAY") 30;
  learner ← or_default (t_bool "learner_only" "HQL_LEARNER_ONLY") false;
  bk ← t_backup;
  s3 ← t_s3 secrets;
  pwd ← t_password secrets;
  insecure ← or_default (t_bool "insecure_cookie" "HQL_INSECURE_COOKIE") false;
  ks ← t_enc_keys enc secrets;
  rate_cache ← t_rate "cache" "CACHE";
  rate_db ← t_rate "db" "DB";
  check_empty ;;
  mret (mkConfig node_id ns l_api l_raft dir file log_stmts capacity pool sync size cache_disk (default_raft_config logs_until) raft api
    s_raft s_api ks bk.1 bk.2 s3 pwd insecure delay learner rate_cache rate_db).
End Env.
End Config.
