(* ===== verification/ConfigTheorems.v ===== *)
(** Configuration: the environment alone gives the same configuration through both ways,
    and every key of an accepted table is known. *)
From stdpp Require Import base gmap strings list numbers pretty.
From Stdlib Require Import Ascii.
From S2P Require Import Prelude Text WalWriter SqlRows SqlMigrate NetBase Backup Config.
Import Net Config.

#[local] Open Scope Z_scope.

(** ** Numbers *)
Lemma parse_digits_low M m s : forall acc z, 0 <= acc -> parse_digits M acc s = Some z -> z <= m -> parse_digits m acc s = Some z /\ acc <= z.
Proof.
  induction s as [|a s IH]; intros acc z Ha; cbn [parse_digits]; [by intros [= <-]|]. destruct (digit_of a) as [d|] eqn:Ed; [|done].
  assert (0 <= d) by (unfold digit_of in Ed; destruct (_ && _) eqn:E in Ed; [apply andb_prop in E as [?%Z.leb_le _]; injection Ed; lia|done]).
  destruct (acc * 10 + d <=? M); [|done]. intros Hp Hm. destruct (IH (acc * 10 + d) z ltac:(lia) Hp Hm) as [-> Hle].
  rewrite (proj2 (Z.leb_le _ _)) by lia. split; [done|lia].
Qed.
(** An unsigned number in range is read the same as an [i64]. *)
Lemma u_as_i64 M s z :
  match s with
  | EmptyString => None
  | String a s' => if Ascii.eqb a "+" then match s' with EmptyString => None | _ => parse_digits M 0 s' end else parse_digits M 0 s
  end = Some z -> z <= i64_max -> parse_i64 s = Some z /\ 0 <= z.
Proof.
  unfold parse_i64. destruct s as [|a s]; [done|]. intros Hp Hz. destruct (Ascii.eqb_spec a "+") as [->|].
  - destruct s as [|b s]; [done|]. by destruct (parse_digits_low M i64_max _ 0 z ltac:(lia) Hp Hz).
  - destruct (Ascii.eqb_spec a "-") as [->|]; [done|]. by destruct (parse_digits_low M i64_max _ 0 z ltac:(lia) Hp Hz).
Qed.
Lemma u64_as_i64 s z : parse_u64 s = Some z -> z <= i64_max -> parse_i64 s = Some z /\ 0 <= z.
Proof. apply u_as_i64. Qed.
Lemma u32_as_i64 s z : Migrations.parse_u32 s = Some z -> parse_i64 s = Some z /\ 0 <= z <= u32_max.
Proof.
  intros Hp. assert (0 <= z <= u32_max) as Hr.
  { unfold Migrations.parse_u32 in Hp. destruct s as [|a s]; [done|].
    destruct (Ascii.eqb a "+"); [destruct s; [done|]|]; apply parse_digits_range in Hp; unfold u32_max in *; lia. }
  destruct (u_as_i64 u32_max s z Hp) as [? ?]; [unfold u32_max, i64_max in *; lia|]. done.
Qed.

(** ** Lines of nodes *)
Lemma trim_start_idem s : Backup.trim_start (Backup.trim_start s) = Backup.trim_start s.
Proof. induction s as [|a s IH]; [done|]. cbn [Backup.trim_start]. destruct (Backup.is_space a) eqn:E; [done|]. cbn [Backup.trim_start]. by rewrite E. Qed.
Lemma trim_end_idem s : Backup.trim_end (Backup.trim_end s) = Backup.trim_end s.
Proof.
  induction s as [|a s IH]; [done|]. cbn [Backup.trim_end]. destruct (Backup.trim_end s) as [|b t] eqn:E.
  - destruct (Backup.is_space a) eqn:Ea; [done|]. cbn [Backup.trim_end]. by rewrite Ea.
  - cbn [Backup.trim_end] in *. by rewrite IH.
Qed.
Lemma trim_end_start s : Backup.trim_start s = s -> Backup.trim_start (Backup.trim_end s) = Backup.trim_end s.
Proof.
  destruct s as [|a s]; [done|]. cbn [Backup.trim_start Backup.trim_end]. destruct (Backup.is_space a) eqn:Ea.
  - intros E. exfalso. apply (f_equal String.length) in E. clear Ea.
    assert (forall t, String.length (Backup.trim_start t) <= String.length t)%nat as Hl.
    { induction t as [|b t IH]; [done|]. cbn [Backup.trim_start]. destruct (Backup.is_space b); simpl; lia. }
    specialize (Hl s). simpl in E. lia.
  - intros _. destruct (Backup.trim_end s); cbn [Backup.trim_start]; by rewrite Ea.
Qed.
Lemma trim_idem s : Backup.trim (Backup.trim s) = Backup.trim s.
Proof.
  unfold Backup.trim. rewrite (trim_end_start (Backup.trim_start s)) by apply trim_start_idem. apply trim_end_idem.
Qed.
Lemma node_from_trim s : node_from (Backup.trim s) = node_from s.
Proof. unfold node_from. by rewrite trim_idem. Qed.
Lemma node_from_blank s n : node_from s = Ok n -> is_empty (Backup.trim s) = false.
Proof. unfold node_from. intros Hn. destruct (Backup.trim s); [done|done]. Qed.

Lemma nodes_trimmed ls ns : nodes_from (List.filter (fun l => negb (is_empty l)) ls) = Ok ns ->
  nodes_from (List.filter (fun l => negb (is_empty l)) (Backup.trim <$> ls)) = Ok ns.
Proof.
  revert ns. induction ls as [|l ls IH]; intros ns; [done|]. rewrite fmap_cons. cbn [List.filter].
  destruct (is_empty l) eqn:El; cbn [negb].
  - apply String.eqb_eq in El as ->. cbn. apply IH.
  - cbn [nodes_from]. destruct (node_from l) as [n| | |] eqn:En; try done. cbn. destruct (nodes_from _) as [ns'| | |] eqn:Er; try done.
    intros [= <-]. rewrite (node_from_blank l n En). cbn. rewrite node_from_trim, En. cbn. by rewrite (IH ns').
Qed.

(** ** The environment alone *)
Section Agree.
Context (env : string -> option string) `{ConfigLibs}.
#[local] Arguments remove : simpl never.

Lemma remove_empty key : remove key ∅ = (Ok None, ∅).
Proof. unfold remove. by rewrite lookup_empty, delete_empty. Qed.
Lemma var_named name : name <> "" -> var env name = env name.
Proof. intros Hn. unfold var, is_empty. by rewrite (proj2 (String.eqb_neq _ _) Hn). Qed.

(** A setting with a default, in both ways *)
Definition reads {A} (m : St ApiError Table A) (r : Res ApiError A) : Prop := forall a, r = Ok a -> m ∅ = (Ok a, ∅).
Lemma reads_bind {A B} (m : St ApiError Table A) r (k : A -> St ApiError Table B) (k' : A -> Res ApiError B) :
  reads m r -> (forall a, r = Ok a -> reads (k a) (k' a)) -> reads (m ≫= k) (r ≫= k').
Proof. intros Hm Hk b (a & Hr & Hb)%res_bind_ok. rewrite (st_bind_ok _ _ _ _ _ (Hm a Hr)). by apply Hk. Qed.
Lemma reads_ret {A} (a : A) : reads (mret a) (Ok a).
Proof. by intros ? [= <-]. Qed.
Lemma reads_lift {A} (r : Res ApiError A) : reads (st_lift r) r.
Proof. by intros a ->. Qed.
Lemma reads_eq {A} (m : St ApiError Table A) r r' : reads m r -> (forall a, r' = Ok a -> r = Ok a) -> reads m r'.
Proof. intros Hm Hr a Ha. by apply Hm, Hr. Qed.

Lemma reads_bool key name d : name <> "" -> reads (or_default (t_bool env key name) d) (env_or env name parse_bool d).
Proof.
  intros Hn b. unfold env_or, or_default, t_bool. unfold mbind, st_bind. rewrite remove_empty, (var_named name Hn).
  destruct (env name) as [v|]; [|by intros [= <-]]. destruct (parse_bool v); [by intros [= <-]|done].
Qed.
Lemma reads_str key name d : name <> "" -> reads (or_default (t_str env key name) d) (Ok (default d (env name))).
Proof.
  intros Hn b [= <-]. unfold or_default, t_str. unfold mbind, st_bind. rewrite remove_empty, (var_named name Hn). by destruct (env name).
Qed.
Lemma reads_str_opt key name : name <> "" -> reads (t_str env key name) (Ok (env name)).
Proof. intros Hn b [= <-]. unfold t_str. unfold mbind, st_bind. rewrite remove_empty, (var_named name Hn). by destruct (env name). Qed.
Lemma reads_duration key name d : name <> "" -> reads (or_default (t_duration env key name) d) (env_duration env name d).
Proof.
  intros Hn b. unfold env_duration, or_default, t_duration. unfold mbind, st_bind. rewrite remove_empty, (var_named name Hn).
  destruct (env name) as [v|]; [|by intros [= <-]]. unfold st_lift. destruct (Backup.parse_duration v) as [[z|]| | |]; try done. by intros [= <-].
Qed.
(** A number that fits *)
Definition fits (max : Z) (name : string) (parse : string -> option Z) : Prop := forall v z, env name = Some v -> parse v = Some z -> parse_i64 v = Some z /\ 0 <= z <= max.
Lemma unsigned_eq max key name parse z : name <> "" -> fits max name parse -> env_opt env name parse = Ok z -> t_unsigned env max key name ∅ = (Ok z, ∅).
Proof.
  intros Hn Hf. unfold env_opt, t_unsigned, t_i64. unfold mbind, st_bind. rewrite remove_empty, (var_named name Hn).
  destruct (env name) as [v|] eqn:Ev; [|by intros [= <-]]. destruct (parse v) as [y|] eqn:Ep; [|done]. intros [= <-].
  destruct (Hf v y Ev Ep) as [-> Hr]. simpl. rewrite !(proj2 (Z.ltb_ge _ _)) by lia. done.
Qed.
Lemma reads_unsigned max key name parse d : name <> "" -> fits max name parse ->
  reads (or_default (t_unsigned env max key name) d) (env_or env name parse d).
Proof.
  intros Hn Hf b Hb. unfold or_default. erewrite st_bind_ok; [|apply (unsigned_eq max key name parse (env name ≫= parse) Hn Hf)].
  - unfold env_or in Hb. destruct (env name) as [v|]; [|by injection Hb as <-]. simpl. destruct (parse v); [by injection Hb as <-|done].
  - unfold env_opt. unfold env_or in Hb. destruct (env name) as [v|]; [|done]. simpl. by destruct (parse v).
Qed.
Lemma fits_u32 name : fits u32_max name Migrations.parse_u32.
Proof. intros v z _ Hp. by apply u32_as_i64. Qed.
Lemma fits_u64 max name : max <= i64_max -> (forall v z, env name = Some v -> parse_u64 v = Some z -> z <= max) -> fits max name parse_u64.
Proof. intros Hm Hb v z Hv Hp. pose proof (Hb v z Hv Hp). destruct (u64_as_i64 v z Hp); [lia|]. done. Qed.

Lemma reads_rate p v : reads (t_rate env p v) (rate_from_env env ("HQL_RL_" +:+ v +:+ "_RPS") ("HQL_RL_" +:+ v +:+ "_BURST")).
Proof.
  unfold t_rate, rate_from_env. apply reads_bind.
  - intros z. apply unsigned_eq; [done|apply fits_u32].
  - intros [rps|] _; [|apply reads_ret]. intros r Hr. apply res_bind_ok in Hr as (b & Hb & [= <-]).
    rewrite (st_bind_ok _ _ ∅ ∅ (default rps b)); [done|]. unfold or_default. rewrite (st_bind_ok _ _ ∅ ∅ b); [done|].
    by apply (unsigned_eq u32_max _ _ Migrations.parse_u32); [|apply fits_u32|].
Qed.

Lemma reads_mandatory key name : name <> "" -> reads (mandatory (t_str env key name)) (expect (env name)).
Proof.
  intros Hn a Ha. unfold mandatory. erewrite st_bind_ok; [|by apply reads_str_opt]. destruct (env name); [by injection Ha as <-|done].
Qed.
Lemma secret_eq key name sec : name <> "" -> env name <> Some SECRETS_REF -> t_str_secret env key name sec ∅ = (Ok (env name), ∅).
Proof.
  intros Hn Hs. unfold t_str_secret. erewrite st_bind_ok; [|by apply reads_str_opt]. destruct (env name) as [v|]; [|done].
  by rewrite (proj2 (String.eqb_neq _ _)) by congruence.
Qed.
Lemma reads_secret key name sec : name <> "" -> env name <> Some SECRETS_REF -> reads (mandatory (t_str_secret env key name sec)) (expect (env name)).
Proof.
  intros Hn Hs a Ha. unfold mandatory. erewrite st_bind_ok; [|by apply secret_eq]. destruct (env name); [by injection Ha as <-|done].
Qed.

Definition auto_of : bool := match env "HQL_TLS_AUTO_CERTS" with Some v => default false (parse_bool v) | None => false end.
Lemma reads_tls p v : reads (t_tls env auto_of p v) (expect_res (tls_from_env env v)).
Proof.
  intros t Ht. unfold t_tls. erewrite st_bind_ok; [|by apply reads_str_opt]. erewrite st_bind_ok; [|by apply reads_str_opt].
  unfold tls_from_env in Ht. destruct (env_opt env ("HQL_TLS_" +:+ v +:+ "_NO_VERIFY") parse_bool) as [nv| | |] eqn:E; try done. cbn [mbind res_bind] in Ht.
  assert (env_or env ("HQL_TLS_" +:+ v +:+ "_NO_VERIFY") parse_bool false = Ok (default false nv)) as Hnv.
  { unfold env_opt in E. unfold env_or. destruct (env ("HQL_TLS_" +:+ v +:+ "_NO_VERIFY")) as [x|]; [|by injection E as <-].
    destruct (parse_bool x) as [b|]; [|done]. by injection E as <-. }
  erewrite st_bind_ok; [|by apply reads_bool].
  destruct (env ("HQL_TLS_" +:+ v +:+ "_KEY")), (env ("HQL_TLS_" +:+ v +:+ "_CERT")); try done; by injection Ht as <-.
Qed.

(** What the two ways read differently: numbers beyond [i64] or [u16], references to the
    secrets, a certificate setting that is no bool; and S3 has to be there.  cryptr reads
    the keys from the same two variables. *)
Record env_plain : Prop := {
  no_secrets_file : env "HQL_SECRETS_FILE" = None;
  id_fits : forall v z, env "HQL_NODE_ID" = Some v -> parse_u64 v = Some z -> z <= i64_max;
  logs_fit : forall v z, env "HQL_LOGS_UNTIL_SNAPSHOT" = Some v -> parse_u64 v = Some z -> z <= i64_max;
  pool_fits : forall v z, env "HQL_READ_POOL_SIZE" = Some v -> parse_u64 v = Some z -> z <= 2 ^ 16 - 1;
  auto_readable : forall v, env "HQL_TLS_AUTO_CERTS" = Some v -> is_Some (parse_bool v);
  no_reference : forall n, n ∈ ["HQL_SECRET_RAFT"; "HQL_SECRET_API"; "HQL_S3_KEY"; "HQL_S3_SECRET"; "HQL_PASSWORD_DASHBOARD"; "ENC_KEY_ACTIVE"; "ENC_KEYS"] -> env n <> Some SECRETS_REF;
  keys_there : forall k, enc_from_env = Some k ->
    exists active ks, env "ENC_KEY_ACTIVE" = Some active /\ env "ENC_KEYS" = Some ks /\ enc_try_parse active (trimmed_lines ks) = Some k;
  s3_there : forall c, s3_try_from_env env = Ok (Some c) -> s3_reachable c = true;
}.

Lemma reads_node_id : env_plain ->
  reads (t_node_id env) (if String.eqb (default "" (env "HQL_NODE_ID_FROM")) "k8s" then node_id_from_hostname
                         else v ← expect (env "HQL_NODE_ID"); expect (parse_u64 v)).
Proof.
  intros Hp id Hid. unfold t_node_id. erewrite st_bind_ok; [|by apply reads_str_opt].
  destruct (String.eqb _ "k8s"); [by apply reads_lift|]. apply (reads_unsigned i64_max _ _ parse_u64); [done|by apply fits_u64; [|apply id_fits]|].
  unfold env_or. by destruct (env "HQL_NODE_ID").
Qed.
Lemma reads_nodes : reads (t_nodes env) (parse_from_env env "HQL_NODES").
Proof.
  intros ns Hn. unfold t_nodes, t_str_vec, parse_from_env in *. unfold mbind at 1 2, st_bind at 1 2. rewrite remove_empty, var_named by done.
  destruct (env "HQL_NODES") as [v|]; [|done]. cbn in *. apply reads_lift. by apply nodes_trimmed.
Qed.
Lemma reads_sync : reads (t_log_sync env) (env_or env "HQL_LOG_SYNC" sync_of (IntervalMillis 200)).
Proof.
  intros l Hl. unfold t_log_sync, env_or in *. erewrite st_bind_ok; [|by apply reads_str_opt]. destruct (env "HQL_LOG_SYNC") as [v|]; [|by injection Hl as <-].
  destruct (sync_of v); [by injection Hl as <-|done].
Qed.
Lemma reads_backup : reads (t_backup env) (b ← backup_from_env env; l ← env_duration env "HQL_BACKUP_KEEP_FOR_LOCAL" (3 * 24 * 3600); mret (b, l)).
Proof.
  intros x Hx. apply res_bind_ok in Hx as (b & Hb & Hx). apply res_bind_ok in Hx as (l & Hl & [= <-]).
  unfold backup_from_env in Hb. destruct (cron_ok (default DEFAULT_CRON (env "HQL_BACKUP_CRON"))) eqn:Ec; [|done]. cbn [negb] in Hb.
  apply res_bind_ok in Hb as (k & Hk & [= <-]). unfold t_backup.
  erewrite st_bind_ok; [|by apply reads_str]. erewrite st_bind_ok; [|by apply reads_duration]. erewrite st_bind_ok; [|by apply reads_duration].
  by rewrite Ec.
Qed.
Lemma reads_s3 sec : env_plain -> reads (t_s3 env sec) (s3_try_from_env env).
Proof.
  intros Hp o Ho. pose proof (s3_there Hp) as Hr. rewrite Ho in Hr. unfold t_s3, s3_try_from_env in *. erewrite st_bind_ok; [|by apply reads_str_opt].
  destruct (env "HQL_S3_URL") as [url|]; [|by injection Ho as <-]. destruct (s3_url_ok url) eqn:Eu; [|done]. cbn [negb] in Ho.
  apply res_bind_ok in Ho as (b & Hb & Ho). apply res_bind_ok in Ho as (rg & Hrg & Ho). apply res_bind_ok in Ho as (st & Hst & Ho).
  apply res_bind_ok in Ho as (ps & Hps & Ho). apply res_bind_ok in Ho as (k & Hk & Ho). apply res_bind_ok in Ho as (sc & Hsc & [= <-]).
  erewrite st_bind_ok; [|by apply reads_mandatory]. erewrite st_bind_ok; [|by apply reads_mandatory].
  erewrite st_bind_ok; [|apply reads_bool; [done|]; unfold env_or; destruct (env "HQL_S3_PATH_STYLE") as [x|]; [injection Hst as ->; exact Hps|done]].
  erewrite st_bind_ok; [|apply reads_secret; [done|apply (no_reference Hp); set_solver|done]].
  erewrite st_bind_ok; [|apply reads_secret; [done|apply (no_reference Hp); set_solver|done]].
  by rewrite (Hr _ eq_refl).
Qed.
Lemma reads_password sec : env_plain -> reads (t_password env sec) (password_from_env env).
Proof.
  intros Hp o Ho. unfold t_password, password_from_env in *. erewrite st_bind_ok; [|apply secret_eq; [done|apply (no_reference Hp); set_solver]].
  destruct (env "HQL_PASSWORD_DASHBOARD") as [b|]; [|by injection Ho as <-]. destruct (b64_text b); [by injection Ho as <-|done].
Qed.
Lemma reads_auto : env_plain -> or_default (t_bool env "tls_auto_certificates" "HQL_TLS_AUTO_CERTS") false ∅ = (Ok (auto_of), ∅).
Proof.
  intros Hp. apply reads_bool; [done|]. unfold env_or, auto_of. destruct (env "HQL_TLS_AUTO_CERTS") as [v|] eqn:E; [|done].
  by destruct (auto_readable Hp v E) as [b ->].
Qed.

Lemma reads_keys k : env_plain -> enc_from_env = Some k -> t_enc_keys env None None ∅ = (Ok k, ∅).
Proof.
  intros Hp Hk. destruct (keys_there Hp k Hk) as (active & ks & Ha & Hks & Ht). unfold t_enc_keys, mandatory.
  rewrite (st_bind_ok _ _ ∅ ∅ active).
  2: { erewrite st_bind_ok; [|apply secret_eq; [done|apply (no_reference Hp); set_solver]]. by rewrite Ha. }
  rewrite (st_bind_ok _ _ ∅ ∅ (trimmed_lines ks)); [by rewrite Ht|].
  rewrite (st_bind_ok _ _ ∅ ∅ (Some (trimmed_lines ks))); [done|]. unfold t_str_vec_secret. unfold mbind, st_bind. rewrite remove_empty, var_named by done.
  rewrite Hks, (proj2 (String.eqb_neq _ _)); [done|]. intros ->. by apply (no_reference Hp "ENC_KEYS"); [set_solver|].
Qed.
Lemma reads_secrets : env_plain -> t_secrets env None ∅ = (Ok None, ∅).
Proof. intros Hp. unfold t_secrets. erewrite st_bind_ok; [|by apply reads_str_opt]. by rewrite (no_secrets_file Hp). Qed.
Lemma reads_capacity : or_default (t_u16 env "prepared_statement_cache_capacity" "") 1024 ∅ = (Ok 1024, ∅).
Proof.
  unfold or_default. rewrite (st_bind_ok _ _ ∅ ∅ None); [done|]. unfold t_u16, t_unsigned, t_i64. unfold mbind, st_bind. by rewrite remove_empty.
Qed.
Lemma reads_check : check_empty ∅ = (Ok tt, ∅ : Table).
Proof. unfold check_empty. by rewrite map_to_list_empty. Qed.

Lemma env_agrees c : env_plain -> from_env_parse env = Ok c -> from_toml_table env None None ∅ = (Ok c, ∅) /\ is_valid c = Ok tt.
Proof.
  intros Hp Hc. unfold from_env_parse in Hc.
  apply res_bind_ok in Hc as (id & Hid & Hc). apply res_bind_ok in Hc as (cd & Hcd & Hc). apply res_bind_ok in Hc as (lk & Hlk & Hc).
  apply res_bind_ok in Hc as (kl & Hkl & Hc). apply res_bind_ok in Hc as (ins & Hins & Hc). apply res_bind_ok in Hc as (rc & Hrc & Hc).
  apply res_bind_ok in Hc as (rd & Hrd & Hc). apply res_bind_ok in Hc as (ns & Hns & Hc). apply res_bind_ok in Hc as (ls & Hls & Hc).
  apply res_bind_ok in Hc as (po & Hpo & Hc). apply res_bind_ok in Hc as (sy & Hsy & Hc). apply res_bind_ok in Hc as (sz & Hsz & Hc).
  apply res_bind_ok in Hc as (ra & Hra & Hc). apply res_bind_ok in Hc as (ap & Hap & Hc). apply res_bind_ok in Hc as (sr & Hsr & Hc).
  apply res_bind_ok in Hc as (sa & Hsa & Hc). apply res_bind_ok in Hc as (en & Hen & Hc). apply res_bind_ok in Hc as (bk & Hbk & Hc).
  apply res_bind_ok in Hc as (s3 & Hs3 & Hc). apply res_bind_ok in Hc as (pw & Hpw & Hc). apply res_bind_ok in Hc as (de & Hde & Hc).
  apply res_bind_ok in Hc as (le & Hle & Hc). cbv zeta in Hc. apply res_bind_ok in Hc as ([] & Hv & Hc). injection Hc as <-.
  split; [|by destruct (is_valid _) as [[]| | |]].
  unfold from_toml_table. erewrite st_bind_ok; [|by apply reads_secrets]. erewrite st_bind_ok; [|by apply reads_node_id].
  erewrite st_bind_ok; [|by apply reads_nodes]. do 4 (erewrite st_bind_ok; [|by apply reads_str]). erewrite st_bind_ok; [|by apply reads_bool].
  erewrite st_bind_ok; [|apply reads_capacity].
  erewrite st_bind_ok; [|apply (reads_unsigned _ _ _ parse_u64); [done|apply fits_u64; [done|apply (pool_fits Hp)]|exact Hpo]].
  erewrite st_bind_ok; [|by apply reads_sync]. erewrite st_bind_ok; [|apply (reads_unsigned _ _ _ Migrations.parse_u32); [done|apply fits_u32|exact Hsz]].
  erewrite st_bind_ok; [|by apply reads_bool].
  erewrite st_bind_ok; [|apply (reads_unsigned _ _ _ parse_u64); [done|apply fits_u64; [done|apply (logs_fit Hp)]|exact Hlk]].
  erewrite st_bind_ok; [|by apply reads_auto]. erewrite st_bind_ok; [|by apply reads_tls]. erewrite st_bind_ok; [|by apply reads_tls].
  do 2 (erewrite st_bind_ok; [|apply reads_secret; [done|apply (no_reference Hp); set_solver|done]]).
  erewrite st_bind_ok; [|by apply reads_duration]. erewrite st_bind_ok; [|by apply reads_bool].
  erewrite st_bind_ok; [|apply reads_backup; rewrite Hbk; cbn [mbind res_bind]; by rewrite Hkl].
  erewrite st_bind_ok; [|by apply reads_s3]. erewrite st_bind_ok; [|by apply reads_password]. erewrite st_bind_ok; [|by apply reads_bool].
  erewrite st_bind_ok; [|apply (reads_keys en Hp); destruct enc_from_env; [by injection Hen as <-|done]].
  erewrite st_bind_ok; [|by apply reads_rate]. erewrite st_bind_ok; [|by apply reads_rate]. by erewrite st_bind_ok; [|apply reads_check].
Qed.
End Agree.

(** ** Tables: which variable stands before which key *)
Definition KEYS : list (string * string) :=
  [("secrets_file", "HQL_SECRETS_FILE"); ("node_id_from", "HQL_NODE_ID_FROM"); ("node_id", "HQL_NODE_ID"); ("nodes", "HQL_NODES");
   ("listen_addr_api", "HQL_LISTEN_ADDR_API"); ("listen_addr_raft", "HQL_LISTEN_ADDR_RAFT"); ("data_dir", "HQL_DATA_DIR");
   ("filename_db", "HQL_FILENAME_DB"); ("log_statements", "HQL_LOG_STATEMENTS"); ("prepared_statement_cache_capacity", "");
   ("read_pool_size", "HQL_READ_POOL_SIZE"); ("log_sync", "HQL_LOG_SYNC"); ("wal_size", "HQL_WAL_SIZE");
   ("cache_storage_disk", "HQL_CACHE_STORAGE_DISK"); ("logs_until_snapshot", "HQL_LOGS_UNTIL_SNAPSHOT");
   ("tls_auto_certificates", "HQL_TLS_AUTO_CERTS"); ("tls_raft_key", "HQL_TLS_RAFT_KEY"); ("tls_raft_cert", "HQL_TLS_RAFT_CERT");
   ("tls_raft_danger_tls_no_verify", "HQL_TLS_RAFT_NO_VERIFY"); ("tls_api_key", "HQL_TLS_API_KEY"); ("tls_api_cert", "HQL_TLS_API_CERT");
   ("tls_api_danger_tls_no_verify", "HQL_TLS_API_NO_VERIFY"); ("secret_raft", "HQL_SECRET_RAFT"); ("secret_api", "HQL_SECRET_API");
   ("health_check_delay", "HQL_HEALTH_CHECK_DELAY"); ("learner_only", "HQL_LEARNER_ONLY"); ("backup_cron", "HQL_BACKUP_CRON");
   ("backup_keep_for", "HQL_BACKUP_KEEP_FOR"); ("backup_keep_for_local", "HQL_BACKUP_KEEP_FOR_LOCAL"); ("s3_url", "HQL_S3_URL");
   ("s3_bucket", "HQL_S3_BUCKET"); ("s3_region", "HQL_S3_REGION"); ("s3_path_style", "HQL_S3_PATH_STYLE"); ("s3_key", "HQL_S3_KEY");
   ("s3_secret", "HQL_S3_SECRET"); ("password_dashboard", "HQL_PASSWORD_DASHBOARD"); ("insecure_cookie", "HQL_INSECURE_COOKIE");
   ("enc_key_active", "ENC_KEY_ACTIVE"); ("enc_keys", "ENC_KEYS"); ("rate_limit_cache_rps", "HQL_RL_CACHE_RPS");
   ("rate_limit_cache_burst", "HQL_RL_CACHE_BURST"); ("rate_limit_db_rps", "HQL_RL_DB_RPS"); ("rate_limit_db_burst", "HQL_RL_DB_BURST")].
Definition var_of (key : string) : string :=
  match List.find (fun p => String.eqb p.1 key) KEYS with Some p => p.2 | None => "" end.

Lemma forallb_same {A} (f : A -> bool) l1 l2 : (forall x, In x l1 <-> In x l2) -> forallb f l1 = forallb f l2.
Proof. intros Hl. apply eq_bool_prop_intro. rewrite !Is_true_true, !forallb_forall. by setoid_rewrite Hl. Qed.

Create HintDb config.
Section Tables.
Context (env : string -> option string) `{ConfigLibs}.
#[local] Arguments remove : simpl never.

(** *** Two tables that differ only where the environment decides *)
Definition shadows (m1 m2 : Table) : Prop :=
  dom m1 = dom m2 /\ forall key, var env (var_of key) = None -> m1 !! key = m2 !! key.
Definition same {A} (p : St ApiError Table A) : Prop :=
  forall m1 m2, shadows m1 m2 -> (p m1).1 = (p m2).1 /\ shadows (p m1).2 (p m2).2.

Lemma same_ret {A} (a : A) : same (mret a).
Proof. by intros m1 m2 Hs. Qed.
Lemma same_err {A} e : same (st_err e : St ApiError Table A).
Proof. by intros m1 m2 Hs. Qed.
Lemma same_lift {A} (r : Res ApiError A) : same (st_lift r).
Proof. by intros m1 m2 Hs. Qed.
Lemma same_bind {A B} (p : St ApiError Table A) (k : A -> St ApiError Table B) : same p -> (forall a, same (k a)) -> same (p ≫= k).
Proof.
  intros Hp Hk m1 m2 Hs. destruct (Hp m1 m2 Hs) as [E Hs']. unfold mbind, st_bind. destruct (p m1) as [r1 n1], (p m2) as [r2 n2].
  simpl in E, Hs'. subst r2. destruct r1 as [a| | |]; try done. by apply Hk.
Qed.
Lemma shadows_delete key m1 m2 : shadows m1 m2 -> shadows (delete key m1) (delete key m2).
Proof.
  intros [Hd Hl]. split; [by rewrite !dom_delete_L, Hd|]. intros k Hk. destruct (decide (k = key)) as [->|]; [by rewrite !lookup_delete_eq|].
  rewrite !lookup_delete_ne by done. by apply Hl.
Qed.
(** A key that is taken out, its variable looked at first *)
Lemma same_remove {A} key name (k : option Value -> St ApiError Table A) : var_of key = name ->
  (forall o, same (k o)) -> (forall v, var env name = Some v -> forall o o', k o = k o') -> same (remove key ≫= k).
Proof.
  intros Hn Hk Hv m1 m2 Hs. unfold mbind, st_bind, remove. assert (k (m1 !! key) = k (m2 !! key)) as ->; [|by apply Hk, shadows_delete].
  destruct (var env name) as [v|] eqn:E; [by apply (Hv v)|]. destruct Hs as [_ Hl]. by rewrite (Hl key) by by rewrite Hn.
Qed.

#[local] Hint Resolve same_ret same_err same_lift : config.
(** Walks through a reader: each step taken, each case looked at. *)
#[local] Hint Extern 0 (var_of _ = _) => reflexivity : config.
Ltac same_step := repeat first [solve [auto with config] | progress case_match | apply same_bind; [|intros]].
Ltac same_key := eapply same_remove; [eassumption|intros; same_step|intros v -> ? ?; done].

Lemma same_t_bool key name : var_of key = name -> same (t_bool env key name).
Proof. intros. unfold t_bool. same_key. Qed.
Lemma same_t_duration key name : var_of key = name -> same (t_duration env key name).
Proof. intros. unfold t_duration. same_key. Qed.
Lemma same_t_i64 key name : var_of key = name -> same (t_i64 env key name).
Proof. intros. unfold t_i64. same_key. Qed.
Lemma same_t_unsigned max key name : var_of key = name -> same (t_unsigned env max key name).
Proof.
  intros Hn m1 m2 Hs. destruct (same_t_i64 key name Hn m1 m2 Hs) as [E Hs']. unfold t_unsigned.
  destruct (t_i64 env key name m1) as [r1 n1], (t_i64 env key name m2) as [r2 n2]. simpl in E, Hs'. subst r2.
  destruct r1 as [[v|]| | |]; [by case_match|done..].
Qed.
Lemma same_t_str key name : var_of key = name -> same (t_str env key name).
Proof. intros. unfold t_str. same_key. Qed.
Lemma same_t_str_vec key name : var_of key = name -> same (t_str_vec env key name).
Proof. intros. unfold t_str_vec. same_key. Qed.
Lemma same_t_str_vec_secret key name sec : var_of key = name -> same (t_str_vec_secret env key name sec).
Proof. intros. unfold t_str_vec_secret. same_key. Qed.
#[local] Hint Resolve same_t_bool same_t_duration same_t_unsigned same_t_str same_t_str_vec same_t_str_vec_secret : config.
Lemma same_t_str_secret key name sec : var_of key = name -> same (t_str_secret env key name sec).
Proof. intros. unfold t_str_secret. same_step. Qed.
Lemma same_mandatory {A} (p : St ApiError Table (option A)) : same p -> same (mandatory p).
Proof. intros. unfold mandatory. same_step. Qed.
Lemma same_or_default {A} (p : St ApiError Table (option A)) d : same p -> same (or_default p d).
Proof. intros. unfold or_default. same_step. Qed.
Lemma same_check_empty : same check_empty.
Proof.
  intros m1 m2 Hs. unfold check_empty. split; [|done]. cbn [fst]. rewrite (forallb_same _ (map_to_list m1).*1 (map_to_list m2).*1); [done|].
  intros k. rewrite <- !list_elem_of_In, <- !(elem_of_list_to_set (C := gset string)), <- !dom_alt. by rewrite (proj1 Hs).
Qed.
#[local] Hint Resolve same_t_str_secret same_mandatory same_or_default same_check_empty : config.

Lemma same_from_toml_table given enc : same (from_toml_table env given enc).
Proof.
  unfold from_toml_table, t_secrets, t_node_id, t_nodes, t_log_sync, t_tls, t_backup, t_s3, t_password, t_enc_keys, t_rate, t_u64, t_u32, t_u16.
  same_step.
Qed.

(** *** A key nobody reads *)
Section Keeps.
Context (k : string).
Definition leaves {A} (p : St ApiError Table A) : Prop := forall m, (p m).2 !! k = m !! k.
Lemma leaves_ret {A} (a : A) : leaves (mret a).
Proof. by intros m. Qed.
Lemma leaves_err {A} e : leaves (st_err e : St ApiError Table A).
Proof. by intros m. Qed.
Lemma leaves_lift {A} (r : Res ApiError A) : leaves (st_lift r).
Proof. by intros m. Qed.
Lemma leaves_bind {A B} (p : St ApiError Table A) (f : A -> St ApiError Table B) : leaves p -> (forall a, leaves (f a)) -> leaves (p ≫= f).
Proof.
  intros Hp Hf m. specialize (Hp m). unfold mbind, st_bind. destruct (p m) as [r n]. simpl in Hp. destruct r as [a| | |]; try done.
  by rewrite Hf.
Qed.
Lemma leaves_remove key : k <> key -> leaves (remove key).
Proof. intros Hk m. unfold remove. simpl. by rewrite lookup_delete_ne. Qed.
#[local] Hint Resolve leaves_ret leaves_err leaves_lift leaves_remove : config.
Ltac leaves_step := repeat first [solve [auto with config] | progress case_match | apply leaves_bind; [|intros]].
Lemma leaves_t_bool key name : k <> key -> leaves (t_bool env key name).
Proof. intros. unfold t_bool. leaves_step. Qed.
Lemma leaves_t_duration key name : k <> key -> leaves (t_duration env key name).
Proof. intros. unfold t_duration. leaves_step. Qed.
Lemma leaves_t_unsigned max key name : k <> key -> leaves (t_unsigned env max key name).
Proof.
  intros Hk m. assert (leaves (t_i64 env key name)) as Hi by (unfold t_i64; leaves_step). specialize (Hi m). unfold t_unsigned.
  destruct (t_i64 env key name m) as [[[v|]| | |] n]; [by case_match|done..].
Qed.
Lemma leaves_t_str key name : k <> key -> leaves (t_str env key name).
Proof. intros. unfold t_str. leaves_step. Qed.
Lemma leaves_t_str_vec key name : k <> key -> leaves (t_str_vec env key name).
Proof. intros. unfold t_str_vec. leaves_step. Qed.
Lemma leaves_t_str_vec_secret key name sec : k <> key -> leaves (t_str_vec_secret env key name sec).
Proof. intros. unfold t_str_vec_secret. leaves_step. Qed.
#[local] Hint Resolve leaves_t_bool leaves_t_duration leaves_t_unsigned leaves_t_str leaves_t_str_vec leaves_t_str_vec_secret : config.
Lemma leaves_t_str_secret key name sec : k <> key -> leaves (t_str_secret env key name sec).
Proof. intros. unfold t_str_secret. leaves_step. Qed.
Lemma leaves_mandatory {A} (p : St ApiError Table (option A)) : leaves p -> leaves (mandatory p).
Proof. intros. unfold mandatory. leaves_step. Qed.
Lemma leaves_or_default {A} (p : St ApiError Table (option A)) d : leaves p -> leaves (or_default p d).
Proof. intros. unfold or_default. leaves_step. Qed.
Lemma leaves_check_empty : leaves check_empty.
Proof. by intros m. Qed.
#[local] Hint Resolve leaves_t_str_secret leaves_mandatory leaves_or_default leaves_check_empty : config.

Context (Hk : k ∉ KEYS.*1).
Lemma unknown_ne key : key ∈ KEYS.*1 -> k <> key.
Proof. intros Hin ->. done. Qed.
#[local] Hint Extern 0 (_ <> _) => (apply unknown_ne; refine (bool_decide_eq_true_1 _ _); reflexivity) : config.
Lemma leaves_from_toml_table given enc : leaves (from_toml_table env given enc).
Proof.
  unfold from_toml_table, t_secrets, t_node_id, t_nodes, t_log_sync, t_tls, t_backup, t_s3, t_password, t_enc_keys, t_rate, t_u64, t_u32, t_u16.
  leaves_step.
Qed.
End Keeps.

(** The last step of an accepted table is [check_empty]. *)
Definition checked {A} (p : St ApiError Table A) : Prop := forall m a m', p m = (Ok a, m') -> forall k, k ∈ dom m' -> k ∈ FEATURE_KEYS.
Lemma checked_bind {A B} (p : St ApiError Table A) (f : A -> St ApiError Table B) : (forall a, checked (f a)) -> checked (p ≫= f).
Proof. intros Hf m b m' (a & n & _ & Hb)%st_bind_inv. by apply (Hf a n b m'). Qed.
Lemma checked_check {A} (a : A) : checked (check_empty ;; mret a).
Proof.
  intros m b m' ([] & n & Hc & [= _ <-])%st_bind_inv k Hk. unfold check_empty in Hc. destruct (forallb _ _) eqn:E; [|done]. injection Hc as <-.
  apply (bool_decide_eq_true_1 (k ∈ FEATURE_KEYS)). apply (proj1 (forallb_forall _ _) E), list_elem_of_In.
  apply (elem_of_list_to_set (C := gset string)). by apply dom_alt.
Qed.
Lemma checked_from_toml_table given enc : checked (from_toml_table env given enc).
Proof. unfold from_toml_table. repeat first [apply checked_check | apply checked_bind; intros]. Qed.

Lemma accepted_keys given enc m c m' : from_toml_table env given enc m = (Ok c, m') -> forall k, k ∈ dom m -> k ∈ KEYS.*1.
Proof.
  intros Hm k Hk. destruct (decide (k ∈ KEYS.*1)) as [|Hn]; [done|]. exfalso. apply Hn.
  assert (Forall (fun f => f ∈ KEYS.*1) FEATURE_KEYS) as Hf by (refine (bool_decide_eq_true_1 _ _); reflexivity).
  apply (proj1 (Forall_forall _ _) Hf). apply (checked_from_toml_table given enc m c m' Hm).
  pose proof (leaves_from_toml_table k Hn given enc m) as E. rewrite Hm in E. simpl in E. apply elem_of_dom. rewrite E. by apply elem_of_dom.
Qed.
End Tables.

(** * What an operator relies on, with instances, and what modelling it showed *)
Import Net Config.

#[local] Open Scope Z_scope.

(** C27: The environment alone gives the same configuration through [from_env_parse] and through
    [from_toml_table] on an empty table, which then reads the encryption keys, too, and it
    is a valid one, when its numbers fit both readers, [HQL_TLS_AUTO_CERTS] is a boolean if
    it is set, no value refers to a secrets file and the bucket can be reached. *)
Theorem env_config_agrees env `{ConfigLibs} c :
  env_plain env -> from_env_parse env = Ok c -> from_toml_table env None None ∅ = (Ok c, ∅) /\ is_valid c = Ok tt.
Proof. apply env_agrees. Qed.

(** The environment stands before the table: two tables with the same keys that differ only
    in values whose variable is set give the same result, an error or the same
    configuration. *)
Theorem config_precedence env `{ConfigLibs} given enc m1 m2 :
  dom m1 = dom m2 -> (forall key, var env (var_of key) = None -> m1 !! key = m2 !! key) ->
  (from_toml_table env given enc m1).1 = (from_toml_table env given enc m2).1.
Proof. intros Hd Hl. by apply same_from_toml_table. Qed.

(** A table that is accepted has known keys only: a key that is misspelled is an error and is
    never taken for a default. *)
Theorem config_keys_known env `{ConfigLibs} given enc m c m' :
  from_toml_table env given enc m = (Ok c, m') -> forall k, k ∈ dom m -> k ∈ KEYS.*1.
Proof. apply accepted_keys. Qed.

(** ** A node of a cluster of two *)
Definition demo_libs : ConfigLibs := {|
  cron_ok := fun s => String.eqb s DEFAULT_CRON;
  enc_from_env := Some (mkEncKeys "k1" [("k1", [])]);
  enc_try_parse := fun a ks => Some (mkEncKeys a ((fun k => (k, [])) <$> ks));
  b64_text := Some;
  s3_url_ok := fun _ => true;
  s3_reachable := fun _ => true;
  hostname := Some "hiqlite-1";
  read_secrets := fun _ => None |}.
Definition demo_env (vs : list (string * string)) (name : string) : option string := snd <$> List.find (fun p => String.eqb p.1 name) vs.
Definition NODES : string := "1 hiqlite-0:8100 hiqlite-0:8200" +:+ String "010" "2 hiqlite-1:8100 hiqlite-1:8200".
Definition SECRETS : list (string * string) := [("HQL_SECRET_RAFT", "SuperSecureRaftSecret1337"); ("HQL_SECRET_API", "SuperSecureApiSecret1337")].
Definition two_nodes : list (string * string) :=
  SECRETS ++ [("HQL_NODE_ID", "2"); ("HQL_NODES", NODES); ("HQL_WAL_SIZE", "4096"); ("HQL_RL_DB_RPS", "100"); ("HQL_TLS_AUTO_CERTS", "true"); ("ENC_KEY_ACTIVE", "k1"); ("ENC_KEYS", "k1")].
#[local] Existing Instance demo_libs.

Lemma two_nodes_plain : env_plain (demo_env two_nodes).
Proof.
  split; try done.
  - intros v z [= <-] Hp. vm_compute in Hp. injection Hp as <-. done.
  - intros v [= <-]. by exists true.
  - intros n Hn. repeat (apply elem_of_cons in Hn as [->|Hn]; [done|]). by apply elem_of_nil in Hn.
  - intros k [= <-]. exists "k1", "k1". by vm_compute.
Qed.
Definition two_nodes_config : NodeConfig := default (mkConfig 0 [] "" "" "" "" false 0 0 ImmediateAsync 0 false (mkRaft 0 0) None None "" "" (mkEncKeys "" []) ("", 0) 0 None None false 0 false None None)
  match from_env_parse (demo_env two_nodes) with Ok c => Some c | _ => None end.
Lemma env_config_agrees_witness :
  from_toml_table (demo_env two_nodes) None None ∅ = (Ok two_nodes_config, ∅) /\ is_valid two_nodes_config = Ok tt /\
  wal_size two_nodes_config = 4096 /\ length (nodes two_nodes_config) = 2%nat.
Proof.
  destruct (env_config_agrees (demo_env two_nodes) two_nodes_config two_nodes_plain ltac:(by vm_compute)) as [Ht Hv].
  split; [exact Ht|]. split; [exact Hv|]. by vm_compute.
Defined.

(** The variable of the WAL size is set, so the table's value of it does not matter. *)
Definition table1 : Table := <["wal_size" := VInteger 8192]> (<["data_dir" := VString "d"]> ∅).
Definition table2 : Table := <["wal_size" := VOther]> (<["data_dir" := VString "d"]> ∅).
Lemma config_precedence_witness :
  (from_toml_table (demo_env two_nodes) None enc_from_env table1).1 = (from_toml_table (demo_env two_nodes) None enc_from_env table2).1 /\
  exists c, (from_toml_table (demo_env two_nodes) None enc_from_env table1).1 = Ok c /\ wal_size c = 4096 /\ data_dir c = "d".
Proof.
  split; [|eexists; by vm_compute].
  apply (config_precedence (demo_env two_nodes) None enc_from_env table1 table2).
  - unfold table1, table2. by rewrite !dom_insert_L.
  - intros key Hk. unfold table1, table2. destruct (decide (key = "wal_size")) as [->|]; [done|]. by rewrite !(lookup_insert_ne _ "wal_size").
Defined.
Lemma config_keys_known_witness : exists c m', from_toml_table (demo_env two_nodes) None enc_from_env table1 = (Ok c, m') /\ "data_dir" ∈ KEYS.*1.
Proof.
  destruct (from_toml_table (demo_env two_nodes) None enc_from_env table1) as [r m'] eqn:E.
  assert (exists c, r = Ok c) as [c Hc].
  { assert (match (from_toml_table (demo_env two_nodes) None enc_from_env table1).1 with Ok _ => True | _ => False end) as Hr by by vm_compute.
    rewrite E in Hr. destruct r; try done. by eexists. }
  subst r. exists c, m'. split; [done|]. apply (config_keys_known (demo_env two_nodes) None enc_from_env table1 c m' E). unfold table1. set_solver.
Defined.

(** ** What modelling it showed *)

(** A number given as a string is taken for one that is not given: no error, and the
    default is used. *)
Lemma wrong_type_ignored : exists c,
  (from_toml_table (demo_env SECRETS) None enc_from_env (<["wal_size" := VString "33554432"]> (<["node_id" := VInteger 1]> ∅))).1 = Ok c /\
  wal_size c = 2 * 1024 * 1024.
Proof. eexists. by vm_compute. Qed.
(** The same for a variable that is no number. *)
Lemma wrong_variable_ignored : exists c,
  (from_toml_table (demo_env (SECRETS ++ [("HQL_NODE_ID", "1"); ("HQL_WAL_SIZE", "32MB")])) None enc_from_env ∅).1 = Ok c /\ wal_size c = 2 * 1024 * 1024.
Proof. eexists. by vm_compute. Qed.
(** Nodes that are not given as an array are ignored: the node takes itself for a cluster of
    one. *)
Lemma wrong_nodes_ignored : exists c,
  (from_toml_table (demo_env SECRETS) None enc_from_env (<["nodes" := VString NODES]> (<["node_id" := VInteger 1]> ∅))).1 = Ok c /\
  nodes c = [mkNode 1 "localhost:8100" "localhost:8200"].
Proof. eexists. by vm_compute. Qed.
(** [node_id] is not ignored next to [node_id_from = k8s]. *)
Lemma node_id_next_to_k8s :
  (from_toml_table (demo_env SECRETS) None enc_from_env (<["node_id_from" := VString "k8s"]> ∅)).1 <> Err Config /\
  (from_toml_table (demo_env SECRETS) None enc_from_env (<["node_id_from" := VString "k8s"]> (<["node_id" := VInteger 0]> ∅))).1 = Err Config.
Proof. by vm_compute. Qed.
(** [secrets_file] next to a given table of secrets *)
Lemma secrets_file_next_to_table :
  (from_toml_table (demo_env SECRETS) (Some ∅) enc_from_env (<["secrets_file" := VString "s.toml"]> ∅)).1 = Err Config.
Proof. by vm_compute. Qed.
(** A duration without a unit can be above [i64::MAX]. *)
Lemma duration_above_i64 : exists c,
  (from_toml_table (demo_env (SECRETS ++ [("HQL_BACKUP_KEEP_FOR", "18446744073709551615")])) None enc_from_env ∅).1 = Ok c /\ i64_max < (backup_config c).2.
Proof. eexists. by vm_compute. Qed.
