(* ===== verification/NetPool.v ===== *)
(** The proxy of the server binary as a service: its configuration
    ([hiqlite/src/server/proxy/config.rs]), the permits of its streams
    ([hiqlite/src/server/proxy/state.rs]) and the handlers that hold them
    ([listen] and [stream] of [hiqlite/src/server/proxy/handlers.rs]).

    tokio's semaphore is the class [Semaphore]; [SemaphoreOk] says that its permits are
    conserved and that a permit that is given back is free or goes to a request that waits.
    A request is the number of its arrival. *)
From stdpp Require Import base gmap strings list numbers.
From Stdlib Require Import Ascii.
From S2P Require Import Prelude Text NetBase Config ConfigTheorems.
Import Net.

#[local] Open Scope Z_scope.

(** * The configuration *)
Module ProxyConfig.
Import Config.

Record ProxyConfig : Type := mkProxyConfig {
  listen_addr : string;
  listen_port : Z;
  proxy_nodes : list string;
  tls_config : option ServerTlsConfig;
  proxy_secret : string;
  max_stream_connections : Z;
  rate_cache : option RateLimitConfig;
  rate_db : option RateLimitConfig;
}.

Abbreviation TSt := (St ApiError Table).
Section Env.
Context (env : string -> option string) `{ConfigLibs}.

(** The nodes: only the API address of each is kept. *)
Definition t_addresses : TSt (list string) :=
  o ← t_str_vec env "nodes" "HQL_NODES";
  match o with Some ls => ns ← st_lift (nodes_from ls); mret (addr_api <$> ns) | None => mret [] end.
(** Every key that is left is unknown. *)
Definition check_none_left : TSt unit := fun m => (if bool_decide (m = ∅) then Ok tt else Err Net.Config, m).

(** [from_toml_table] *)
Definition from_toml_table (given : option Table) : TSt ProxyConfig :=
  secrets ← t_secrets env given;
  ns ← t_addresses;
  addr ← or_default (t_str env "listen_addr" "LISTEN_ADDR") "0.0.0.0";
  port ← or_default (t_u16 env "listen_port" "LISTEN_PORT") 8200;
  max ← or_default (t_u32 env "max_stream_connections" "HQL_PROXY_MAX_STREAM_CONNECTIONS") 20;
  cache ← t_rate env "cache" "CACHE";
  db ← t_rate env "db" "DB";
  auto ← or_default (t_bool env "tls_auto_certificates" "HQL_TLS_AUTO_CERTS") false;
  tls ← t_tls env auto "api" "API";
  secret ← mandatory (t_str_secret env "secret_api" "HQL_SECRET_API" secrets);
  check_none_left ;;
  mret (mkProxyConfig addr port ns tls secret max cache db).
End Env.

(** [s.chars().count()]: the bytes of a string that start a character *)
Fixpoint chars_count (s : string) : nat :=
  match s with
  | EmptyString => 0
  | String b s => let n := nat_of_ascii b in if Nat.leb 128 n && Nat.leb n 191 then chars_count s else S (chars_count s)
  end.

(** [is_valid] *)
Definition is_valid (c : ProxyConfig) : Res ApiError unit :=
  if bool_decide (proxy_nodes c = []) then Err Net.Config
  else if Nat.ltb (chars_count (proxy_secret c)) 16 then Err Net.Config
  else if max_stream_connections c =? 0 then Err Net.Config
  else Ok tt.
End ProxyConfig.

(** * The streams *)
Module Pool.

(** Where a request of [/stream] or [/listen] is: waiting for a permit, in the handler
    with one, in its task, or at its end. *)
Inductive Phase : Type :=
| Waiting (deadline : Z)
| Permitted
| Streaming
| Served
| Refused (timeout : bool)
| Cancelled.
#[export] Instance Phase_eqdec : EqDecision Phase.
Proof. solve_decision. Defined.
Definition holds (p : Phase) : bool := match p with Permitted | Streaming => true | _ => false end.
Definition waits (p : Phase) : bool := match p with Waiting _ => true | _ => false end.

(** [tokio::sync::Semaphore] with the requests that wait in it: a request that asks gets a
    permit or waits; a permit that is dropped goes to one that waits, or is free. *)
Class Semaphore (S : Type) : Type := {
  sem_new : nat -> S;
  sem_acquire : nat -> S -> bool * S;
  sem_release : S -> option nat * S;
  sem_abandon : nat -> S -> S;
  sem_free : S -> nat;
  sem_waiting : S -> gset nat;
}.
Class SemaphoreOk {S} `{Semaphore S} : Prop := {
  new_ok : forall n, sem_free (sem_new n) = n /\ sem_waiting (sem_new n) = ∅;
  acquire_ok : forall i s got s', sem_acquire i s = (got, s') -> i ∉ sem_waiting s ->
    if got then sem_free s = Datatypes.S (sem_free s') /\ sem_waiting s' = sem_waiting s
    else sem_free s' = sem_free s /\ sem_waiting s' = {[i]} ∪ sem_waiting s;
  release_ok : forall s o s', sem_release s = (o, s') ->
    match o with
    | None => sem_free s' = Datatypes.S (sem_free s) /\ sem_waiting s' = sem_waiting s
    | Some i => i ∈ sem_waiting s /\ sem_free s' = sem_free s /\ sem_waiting s' = sem_waiting s ∖ {[i]}
    end;
  abandon_ok : forall i s, i ∈ sem_waiting s -> sem_free (sem_abandon i s) = sem_free s /\ sem_waiting (sem_abandon i s) = sem_waiting s ∖ {[i]};
}.

Inductive Event : Type :=
| Arrive (now : Z)
| Expire (i : nat) (now : Z)
| Upgrade (i : nat) (ok : bool)
| Finish (i : nat)
| Cancel (i : nat).

Definition PERMIT_TIMEOUT : Z := 10000.

Section Pool.
Context {S : Type} `{Semaphore S}.

Record Pool : Type := mkPool { sem : S; reqs : list Phase }.
(** [active_streams_permits] of [start_proxy] *)
Definition start (c : ProxyConfig.ProxyConfig) : Pool := mkPool (sem_new (Z.to_nat (ProxyConfig.max_stream_connections c))) [].

(** The request ends, and the permit it has is dropped with it. *)
Definition end_with (i : nat) (p : Phase) (s : Pool) : Pool :=
  let reqs := <[i := p]> (reqs s) in
  match sem_release (sem s) with
  | (Some j, m) => mkPool m (<[j := Permitted]> reqs)
  | (None, m) => mkPool m reqs
  end.
(** The request ends while it waits. *)
Definition leave (i : nat) (p : Phase) (s : Pool) : Pool := mkPool (sem_abandon i (sem s)) (<[i := p]> (reqs s)).

(** [get_stream_permit] up to its wait *)
Definition arrive (now : Z) (s : Pool) : Pool :=
  let '(got, m) := sem_acquire (length (reqs s)) (sem s) in
  mkPool m (reqs s ++ [if (got : bool) then Permitted else Waiting (now + PERMIT_TIMEOUT)]).

(** The handlers of [/stream] and [/listen]: the permit comes first; a wait that times out
    and an upgrade that fails are errors, and the permit moves into the task of the
    stream. *)
Definition step (e : Event) (s : Pool) : option Pool :=
  match e with
  | Arrive now => Some (arrive now s)
  | Expire i now =>
      match reqs s !! i with
      | Some (Waiting d) => if d <=? now then Some (leave i (Refused true) s) else None
      | _ => None
      end
  | Upgrade i ok =>
      match reqs s !! i with
      | Some Permitted => Some (if ok then mkPool (sem s) (<[i := Streaming]> (reqs s)) else end_with i (Refused false) s)
      | _ => None
      end
  | Finish i => match reqs s !! i with Some Streaming => Some (end_with i Served s) | _ => None end
  | Cancel i =>
      match reqs s !! i with
      | Some (Waiting _) => Some (leave i Cancelled s)
      | Some Permitted => Some (end_with i Cancelled s)
      | _ => None
      end
  end.
Fixpoint run (es : list Event) (s : Pool) : option Pool :=
  match es with [] => Some s | e :: es => s ← step e s; run es s end.

(** The requests that hold a permit, and those among them with an open stream *)
Definition count (f : Phase -> bool) (l : list Phase) : nat := length (filter (fun p => f p = true) l).
Definition active (s : Pool) : nat := count holds (reqs s).
Definition streaming (p : Phase) : bool := match p with Streaming => true | _ => false end.

(** ** The invariant *)
Context `{!SemaphoreOk (S := S)}.
Record pool_ok (max : nat) (s : Pool) : Prop := {
  permits_sum : (sem_free (sem s) + active s = max)%nat;
  waiting_there : forall i, i ∈ sem_waiting (sem s) <-> exists d, reqs s !! i = Some (Waiting d);
}.

Lemma count_insert f l i p p' : l !! i = Some p -> (count f (<[i := p']> l) + Nat.b2n (f p) = count f l + Nat.b2n (f p'))%nat.
Proof.
  unfold count. revert i. induction l as [|q l IH]; intros [|i] Hi; [done|done| |].
  - injection Hi as ->. simpl. rewrite !filter_cons. destruct (f p), (f p'); simpl; lia.
  - specialize (IH i Hi). simpl. rewrite !filter_cons. destruct (decide (f q = true)); simpl; lia.
Qed.
Lemma start_pool_ok c : pool_ok (Z.to_nat (ProxyConfig.max_stream_connections c)) (start c).
Proof.
  destruct (new_ok (Z.to_nat (ProxyConfig.max_stream_connections c))) as [Hf Hw]. split; simpl; [rewrite Hf; unfold active, count; simpl; lia|].
  intros i. rewrite Hw. split; [set_solver|by intros [d Hd]].
Qed.
Lemma waiting_insert (m : S) (l : list Phase) i p p' : (forall j, j ∈ sem_waiting m <-> exists d, l !! j = Some (Waiting d)) ->
  l !! i = Some p -> waits p = false -> waits p' = false -> forall j, j ∈ sem_waiting m <-> exists d, <[i := p']> l !! j = Some (Waiting d).
Proof.
  intros Hq Hi Hp Hp' j. rewrite Hq. split; intros [d Hd]; exists d.
  - rewrite list_lookup_insert_ne; [done|]. intros ->. rewrite Hd in Hi. by injection Hi as <-.
  - apply list_lookup_insert_Some in Hd as [(-> & -> & _)|[_ Hd]]; done.
Qed.
Lemma waiting_leaves (m m' : S) (l : list Phase) i d p' : (forall j, j ∈ sem_waiting m <-> exists d, l !! j = Some (Waiting d)) ->
  l !! i = Some (Waiting d) -> waits p' = false -> sem_waiting m' = sem_waiting m ∖ {[i]} ->
  forall j, j ∈ sem_waiting m' <-> exists d, <[i := p']> l !! j = Some (Waiting d).
Proof.
  intros Hq Hi Hp' -> j. rewrite elem_of_difference, elem_of_singleton, Hq. split.
  - intros [[d' Hd'] Hne]. exists d'. by rewrite list_lookup_insert_ne.
  - intros [d' Hd']. apply list_lookup_insert_Some in Hd' as [(_ & -> & _)|[Hne Hd']]; [done|]. split; [by exists d'|done].
Qed.

Lemma end_with_ok max s i p p' : pool_ok max s -> reqs s !! i = Some p -> holds p = true -> holds p' = false -> waits p' = false -> pool_ok max (end_with i p' s).
Proof.
  intros [Hs Hq] Hi Hh Hh' Hw'. assert (waits p = false) as Hw by by destruct p. unfold active in Hs. unfold end_with.
  pose proof (count_insert holds (reqs s) i p p' Hi) as Ha. rewrite Hh, Hh' in Ha. simpl in Ha. pose proof (waiting_insert (sem s) (reqs s) i p p' Hq Hi Hw Hw') as Hq1.
  destruct (sem_release (sem s)) as [[j|] m] eqn:E; apply release_ok in E.
  - destruct E as (Hj & Hf & Hm). destruct (proj1 (Hq1 j) Hj) as [d Hd]. pose proof (count_insert holds _ j (Waiting d) Permitted Hd) as Hb. simpl in Hb.
    split; simpl; [unfold active; simpl; lia|]. by eapply waiting_leaves.
  - destruct E as [Hf Hm]. split; simpl; [unfold active; simpl; lia|]. by rewrite Hm.
Qed.
Lemma leave_ok max s i d p : pool_ok max s -> reqs s !! i = Some (Waiting d) -> holds p = false -> waits p = false -> pool_ok max (leave i p s).
Proof.
  intros [Hs Hq] Hi Hh Hw. pose proof (count_insert holds (reqs s) i (Waiting d) p Hi) as Ha. rewrite Hh in Ha. unfold active in Hs. simpl in Ha.
  destruct (abandon_ok i (sem s)) as [Hf Hm]; [apply Hq; by exists d|]. split; simpl; [unfold active; simpl; lia|]. by eapply waiting_leaves.
Qed.
Lemma arrive_ok max now s : pool_ok max s -> pool_ok max (arrive now s).
Proof.
  intros [Hs Hq]. unfold arrive. assert (length (reqs s) ∉ sem_waiting (sem s)) as Hfresh.
  { intros [d Hd]%Hq. apply lookup_lt_Some in Hd. lia. }
  assert (forall p, count holds (reqs s ++ [p]) = active s + Nat.b2n (holds p))%nat as Hact.
  { intros p. unfold active, count. rewrite list.filter_app, length_app, filter_cons, filter_nil. by destruct (holds p). }
  destruct (sem_acquire (length (reqs s)) (sem s)) as [got m] eqn:E. apply acquire_ok in E as E; [|done].
  destruct got; destruct E as [Hf Hm]; split; simpl; try (unfold active at 1; simpl; rewrite Hact; simpl; lia).
  - intros i. rewrite Hm, Hq. split; intros [d Hd]; exists d; [by apply lookup_app_l_Some|]. apply lookup_app_Some in Hd as [Hd|[_ Hd]]; [done|].
    by apply list_lookup_singleton_Some in Hd as [_ [=]].
  - intros i. rewrite Hm, elem_of_union, elem_of_singleton, Hq. split.
    + intros [-> |[d Hd]]; [eexists; by rewrite lookup_app_r, Nat.sub_diag|exists d; by apply lookup_app_l_Some].
    + intros [d [Hd|[Hge Hd]]%lookup_app_Some]; [right; by exists d|left]. apply list_lookup_singleton_Some in Hd as [Hz _]. lia.
Qed.
Lemma step_pool_ok max e s s' : pool_ok max s -> step e s = Some s' -> pool_ok max s'.
Proof.
  intros Hs. destruct e as [now|i now|i ok|i|i]; cbn [step].
  - intros [= <-]. by apply arrive_ok.
  - destruct (reqs s !! i) as [[d| | | | |]|] eqn:Ei; try done. destruct (d <=? now); [|done]. intros [= <-]. by eapply leave_ok.
  - destruct (reqs s !! i) as [[| | | | |]|] eqn:Ei; try done. destruct ok; intros [= <-]; [|by eapply end_with_ok].
    destruct Hs as [Hs Hq]. pose proof (count_insert holds (reqs s) i Permitted Streaming Ei) as Ha. simpl in Ha. unfold active in Hs.
    split; simpl; [unfold active; simpl; lia|]. by eapply waiting_insert.
  - destruct (reqs s !! i) as [[| | | | |]|] eqn:Ei; try done. intros [= <-]. by eapply end_with_ok.
  - destruct (reqs s !! i) as [[d| | | | |]|] eqn:Ei; try done; intros [= <-]; [by eapply leave_ok|by eapply end_with_ok].
Qed.
Lemma run_pool_ok max es : forall s s', pool_ok max s -> run es s = Some s' -> pool_ok max s'.
Proof.
  induction es as [|e es IH]; intros s s' Hs; cbn [run]; [by intros [= <-]|].
  destruct (step e s) as [s1|] eqn:E; simpl; [|done]. intros Hr. eauto using step_pool_ok.
Qed.
Lemma streaming_active l : (count streaming l <= count holds l)%nat.
Proof.
  unfold count. induction l as [|p l IH]; [done|]. rewrite !filter_cons. destruct p; simpl; lia.
Qed.
End Pool.
Arguments Pool S : clear implicits.
End Pool.

(** * Theorems *)
Section ConfigTheorems.
Import Config ProxyConfig.
Context (env : string -> option string) `{ConfigLibs}.

Definition PROXY_KEYS : list string :=
  ["secrets_file"; "nodes"; "listen_addr"; "listen_port"; "max_stream_connections"; "rate_limit_cache_rps"; "rate_limit_cache_burst"; "rate_limit_db_rps";
   "rate_limit_db_burst"; "tls_auto_certificates"; "tls_api_key"; "tls_api_cert"; "tls_api_danger_tls_no_verify"; "secret_api"].

Lemma leaves_proxy k given : k ∉ PROXY_KEYS -> leaves k (ProxyConfig.from_toml_table env given).
Proof.
  intros Hk. assert (forall key, bool_decide (key ∈ PROXY_KEYS) = true -> k <> key) as Hne by (intros key Hin%bool_decide_eq_true_1 ->; done).
  unfold ProxyConfig.from_toml_table, t_addresses, t_secrets, t_rate, t_tls, t_u16, t_u32.
  repeat first [apply leaves_ret | apply leaves_err | apply leaves_lift | apply leaves_mandatory | apply leaves_or_default
    | apply leaves_t_str; by apply Hne | apply leaves_t_bool; by apply Hne | apply leaves_t_unsigned; by apply Hne | apply leaves_t_str_vec; by apply Hne
    | apply leaves_t_str_secret; by apply Hne | progress case_match | apply leaves_bind; [|intros] | by intros m].
Qed.

(** The last steps: nothing is left, and the number of streams fits. *)
Lemma unsigned_range key name m v m' max : t_unsigned env max key name m = (Ok (Some v), m') -> 0 <= v <= max.
Proof.
  unfold t_unsigned. destruct (t_i64 env key name m) as [[[z|]| | |] n]; try done. destruct (_ || _) eqn:E; [done|]. intros [= <- <-].
  apply orb_false_iff in E as [H1%Z.ltb_ge H2%Z.ltb_ge]. lia.
Qed.
Definition table_done (p : TSt ProxyConfig.ProxyConfig) : Prop := forall m c m', p m = (Ok c, m') -> m' = ∅.
Definition in_range (p : TSt ProxyConfig.ProxyConfig) : Prop := forall m c m', p m = (Ok c, m') -> 0 <= max_stream_connections c <= u32_max.
Lemma done_bind {A} (p : St ApiError Table A) f : (forall a, table_done (f a)) -> table_done (p ≫= f).
Proof. intros Hf m c m' (a & n & _ & Hc)%st_bind_inv. by apply (Hf a n c). Qed.
Lemma range_bind {A} (p : St ApiError Table A) f : (forall a, in_range (f a)) -> in_range (p ≫= f).
Proof. intros Hf m c m' (a & n & _ & Hc)%st_bind_inv. by apply (Hf a n c m'). Qed.
Lemma range_bind_max p f : (forall a, 0 <= a <= u32_max -> in_range (f a)) -> in_range (or_default (t_u32 env p "HQL_PROXY_MAX_STREAM_CONNECTIONS") 20 ≫= f).
Proof.
  intros Hf m c m' (a & n & Ha & Hc)%st_bind_inv. apply (Hf a) with n m'; [|done]. unfold or_default in Ha. apply st_bind_inv in Ha as (o & n' & Ho & [= <- <-]).
  destruct o as [v|]; [|done]. by apply unsigned_range in Ho.
Qed.
Lemma accepted_table given m c m' : ProxyConfig.from_toml_table env given m = (Ok c, m') -> m' = ∅ /\ 0 <= max_stream_connections c <= u32_max.
Proof.
  intros Hm. split.
  - enough (table_done (ProxyConfig.from_toml_table env given)) as Ht by by apply (Ht m c m'). unfold ProxyConfig.from_toml_table.
    do 10 (apply done_bind; intros). intros n d n'. unfold check_none_left, mbind, st_bind. case_bool_decide; [|done]. by intros [= _ <-].
  - enough (in_range (ProxyConfig.from_toml_table env given)) as Ht by by apply (Ht m c m'). unfold ProxyConfig.from_toml_table.
    do 4 (apply range_bind; intros). apply range_bind_max. intros max Hmax. repeat (apply range_bind; intros). by intros n d n' [= <- _].
Qed.

Lemma valid_max c : ProxyConfig.is_valid c = Ok tt -> max_stream_connections c <> 0.
Proof. unfold ProxyConfig.is_valid. do 2 (case_match; [done|]). by destruct (Z.eqb_spec (max_stream_connections c) 0). Qed.

(** The proxy refuses every table with a key it does not know. *)
Theorem proxy_keys_known given m c m' : ProxyConfig.from_toml_table env given m = (Ok c, m') -> forall k, k ∈ dom m -> k ∈ PROXY_KEYS.
Proof.
  intros Hm k Hk. destruct (decide (k ∈ PROXY_KEYS)) as [|Hn]; [done|]. pose proof (leaves_proxy k given Hn m) as E. rewrite Hm in E.
  destruct (accepted_table _ _ _ _ Hm) as [-> _]. simpl in E. rewrite lookup_empty in E. apply elem_of_dom in Hk as [v Hv]. congruence.
Qed.
End ConfigTheorems.

Import Pool.

(** C35: A proxy started with an accepted and valid configuration, whatever requests arrive,
    wait, give up, fail or end: at most [max_stream_connections] streams are open, which is
    at least one, and every permit is free or held by exactly one request that is on its
    way to a stream or in it.  So none is lost on a refused upgrade, a timeout, a
    dropped request or the end of a stream: when none of them is left all permits are free
    again.  Exactly the requests that wait for a permit wait in the semaphore. *)
Theorem streams_bounded {S} `{Semaphore S} `{!SemaphoreOk (S := S)} env `{Config.ConfigLibs} given m c m' es (s : Pool S) :
  ProxyConfig.from_toml_table env given m = (Ok c, m') -> ProxyConfig.is_valid c = Ok tt -> run es (start c) = Some s ->
  let max := Z.to_nat (ProxyConfig.max_stream_connections c) in
  (1 <= max)%nat /\ (count streaming (reqs s) <= max)%nat /\ (sem_free (sem s) + active s = max)%nat /\
  (forall i, i ∈ sem_waiting (sem s) <-> exists d, reqs s !! i = Some (Waiting d)).
Proof.
  intros Hm Hv Hr max. destruct (accepted_table env given m c m' Hm) as [_ Hmax]. pose proof (valid_max c Hv) as Hne.
  destruct (run_pool_ok _ es _ _ (start_pool_ok c) Hr) as [Hs Hq]. pose proof (streaming_active (reqs s)) as Hle. unfold active in Hs.
  split; [unfold max; lia|]. split; [unfold max; lia|]. by split.
Qed.

(** ** A proxy with one stream *)
#[local] Existing Instance demo_libs.
Definition proxy_table : Config.Table :=
  <["nodes" := Config.VArray [Config.VString "1 hiqlite-0:8100 hiqlite-0:8200"]]>
  (<["secret_api" := Config.VString "SuperSecureApiSecret1337"]> (<["max_stream_connections" := Config.VInteger 1]> ∅)).
Definition demo_proxy_config : ProxyConfig.ProxyConfig :=
  ProxyConfig.mkProxyConfig "0.0.0.0" 8200 ["hiqlite-0:8200"] None "SuperSecureApiSecret1337" 1 None None.
(** A fair semaphore: what is free, and who waits, the oldest first *)
#[local] Instance fair : Semaphore (nat * list nat) := {|
  sem_new n := (n, []);
  sem_acquire i s := match s with (Datatypes.S n, q) => (true, (n, q)) | (O, q) => (false, (O, q ++ [i])) end;
  sem_release s := match s with (n, []) => (None, (Datatypes.S n, [])) | (n, i :: q) => (Some i, (n, filter (fun j => j <> i) q)) end;
  sem_abandon i s := (s.1, filter (fun j => j <> i) s.2);
  sem_free s := s.1;
  sem_waiting s := list_to_set s.2 |}.
Lemma set_without i (q : list nat) : list_to_set (C := gset nat) (filter (fun j => j <> i) q) = list_to_set q ∖ {[i]}.
Proof. apply set_eq. intros x. rewrite elem_of_difference, !elem_of_list_to_set, list_elem_of_filter, elem_of_singleton. tauto. Qed.
#[local] Instance fair_ok : SemaphoreOk (S := nat * list nat).
Proof.
  split.
  - done.
  - intros i [[|n] q] got s' [= <- <-] _; simpl; [|done]. split; [done|]. rewrite list_to_set_app_L. set_solver.
  - intros [n [|i q]] o s' [= <- <-]; simpl; [done|]. split; [set_solver|]. split; [done|]. rewrite set_without. set_solver.
  - intros i [n q] _. simpl. by rewrite set_without.
Qed.
(** The second request waits and gets the permit of the first, the third gives up, the
    upgrade of the second fails, the fourth finds the permit free. *)
Definition demo_pool_run : list Event :=
  [Arrive 0; Upgrade 0 true; Arrive 100; Arrive 200; Expire 2 10200; Finish 0; Upgrade 1 false; Arrive 10300; Upgrade 3 true; Arrive 10400].
Definition demo_pool : Pool (nat * list nat) := default (start demo_proxy_config) (run demo_pool_run (start demo_proxy_config)).
Lemma streams_bounded_witness :
  reqs demo_pool = [Served; Refused false; Refused true; Streaming; Waiting 20400] /\ sem demo_pool = (0%nat, [4%nat]) /\
  (count streaming (reqs demo_pool) <= 1)%nat /\ (sem_free (sem demo_pool) + active demo_pool = 1)%nat.
Proof.
  destruct (streams_bounded (demo_env []) None proxy_table demo_proxy_config ∅ demo_pool_run demo_pool) as (_ & H2 & H3 & _);
    [by vm_compute|by vm_compute|by vm_compute|].
  split; [by vm_compute|]. split; [by vm_compute|]. split; [exact H2|exact H3].
Defined.
Lemma proxy_keys_known_witness : "max_stream_connections" ∈ PROXY_KEYS.
Proof.
  refine (proxy_keys_known (demo_env []) None proxy_table demo_proxy_config ∅ _ "max_stream_connections" _); [by vm_compute|].
  apply elem_of_dom. exists (Config.VInteger 1). by vm_compute.
Defined.

(** A number of streams that is given as a string is ignored. *)
Lemma wrong_max_ignored : exists c,
  ProxyConfig.from_toml_table (demo_env []) None (<["max_stream_connections" := Config.VString "50"]> proxy_table) = (Ok c, ∅) /\
  ProxyConfig.max_stream_connections c = 20.
Proof. exists (ProxyConfig.mkProxyConfig "0.0.0.0" 8200 ["hiqlite-0:8200"] None "SuperSecureApiSecret1337" 20 None None). split; by vm_compute. Qed.

(** A secret of sixteen bytes in eight characters: a node counts its bytes and takes it,
    the proxy counts the characters and does not. *)
Definition two_byte_secret : string := Nat.iter 8 (fun s => String "195" (String "164" s)) "".
Lemma secret_counted_differently : Nat.ltb (String.length two_byte_secret) 16 = false /\
  ProxyConfig.is_valid (ProxyConfig.mkProxyConfig "0.0.0.0" 8200 ["hiqlite-0:8200"] None two_byte_secret 20 None None) = Err Net.Config.
Proof. by vm_compute. Qed.
