(* ===== verification/Derive.v ===== *)
(** The derive macros: [hiqlite-derive/src/{from_row,try_from_row,into_cache_data}.rs], with
    [Row::get] and [Row::try_get] of [hiqlite/src/query/rows.rs] which the generated code
    calls.

    The input is the syntax tree of syn, as far as the macros look at it: an identifier is
    what it prints, a literal is [Some] text when it is a string.  The output of the row
    macros is one expression per field, in a small language of what [quote!] produces, and
    an evaluator says what the expression does to a row.  [.into()], [.parse()] and
    [Default::default()] are resolved by the type of the field, as rustc does.  The types
    of the fields and their conversions belong to the application: the class [RustTypes].
    rusqlite finds a column by its name, ignoring case: a parameter too. *)
From stdpp Require Import base strings list numbers.
From Stdlib Require Import Strings.Byte Ascii.
From S2P Require Import Prelude Text SqlRows CacheSM CacheSMSpec.
Import Rows.

#[local] Open Scope Z_scope.

Module Derive.

(** ** The input *)
Inductive Token : Type := TIdent (s : string) | TPunct (c : ascii) | TLiteral (text : option string) | TGroup.
Inductive Ty : Type := TyPath (segments : list Segment) | TyOther
with Segment : Type := Seg (seg_ident : string) (arguments : PathArguments)
with PathArguments : Type := ArgNone | AngleBracketed (args : list GenericArgument) | Parenthesized
with GenericArgument : Type := ArgType (t : Ty) | ArgOther.
Inductive Meta : Type := MetaPath | MetaList (tokens : list Token) | MetaNameValue.
(** [path] is the identifier when the path is one. *)
Record Attribute : Type := mkAttribute { path : option string; meta : Meta }.
Record Field : Type := mkField { f_ident : option string; f_ty : Ty; f_attrs : list Attribute }.
Record Variant : Type := mkVariant { v_ident : string; v_fields : nat }.
Inductive Data : Type := Struct (fields : list Field) | Enum (variants : list Variant) | Union.
Record DeriveInput : Type := mkInput { ident : string; generics : nat; data : Data }.

Inductive DeriveError : Type :=
| NotAStruct | TupleField | DuplicateColumn (col : string) | UnsignedTarget | ExpectedOption
| SecondColumnAttribute | EmptyAttribute | RenameUnread | NotAList | NotColumn
| ExpectedEq | ExpectedLiteral | RenameTwice | UnknownAttribute (kw : string) | SecondConversion | ExpectedComma | ExpectedKeyword
| GenericEnum | NotAnEnum | VariantValues.

(** ** The plan *)
Inductive ColumnAttr : Type := NoAttr | Skip | Flatten | Parse | FromString | FromI64 | FromI32.
#[export] Instance ColumnAttr_eqdec : EqDecision ColumnAttr.
Proof. solve_decision. Defined.
Record ColumnArgs : Type := mkArgs { a_keyword : option ColumnAttr; a_rename : option string }.
Record ColumnHandler : Type := mkHandler { h_attr : ColumnAttr; h_rename : option string }.
Record FieldSpec : Type := mkSpec { s_ident : string; s_ty : Ty; attr : ColumnAttr; col_name : string; rename : option string; is_opt : bool }.
Record RowPlan : Type := mkPlan { plan_name : string; with_from_str : bool; fields : list FieldSpec }.
Abbreviation DRes := (Res DeriveError).

Definition keyword_of (kw : string) : option ColumnAttr :=
  if String.eqb kw "skip" then Some Skip
  else if String.eqb kw "flatten" then Some Flatten
  else if String.eqb kw "parse" then Some Parse
  else if String.eqb kw "from_string" then Some FromString
  else if String.eqb kw "from_i64" then Some FromI64
  else if String.eqb kw "from_i32" then Some FromI32
  else None.
(** The last arm of the loop *)
Definition unexpected (keyword : option ColumnAttr) (rename : option string) (is_keyword : bool) : DeriveError :=
  if bool_decide (is_Some keyword) && is_keyword then SecondConversion
  else if bool_decide (is_Some keyword) || bool_decide (is_Some rename) then ExpectedComma
  else ExpectedKeyword.
Fixpoint parse_tokens (tokens : list Token) (keyword : option ColumnAttr) (rename : option string) : DRes ColumnArgs :=
  match tokens with
  | [] => Ok (mkArgs keyword rename)
  | TPunct c :: ts => if Ascii.eqb c "," then parse_tokens ts keyword rename else Err (unexpected keyword rename false)
  | TIdent i :: ts =>
      if String.eqb i "rename" then
        match rename with
        | Some _ => Err RenameTwice
        | None =>
            match ts with
            | TPunct c :: ts =>
                if Ascii.eqb c "=" then
                  match ts with
                  | TLiteral (Some s) :: ts => parse_tokens ts keyword (Some s)
                  | _ => Err ExpectedLiteral
                  end
                else Err ExpectedEq
            | _ => Err ExpectedEq
            end
        end
      else
        match keyword with
        | None => match keyword_of i with Some k => parse_tokens ts (Some k) rename | None => Err (UnknownAttribute i) end
        | Some _ => Err (unexpected keyword rename (bool_decide (is_Some (keyword_of i))))
        end
  | _ :: _ => Err (unexpected keyword rename false)
  end.
Definition is_column (a : Attribute) : bool := match path a with Some i => String.eqb i "column" | None => false end.
(** [parse_column_list] *)
Definition parse_column_list (a : Attribute) : DRes ColumnArgs :=
  match meta a with
  | MetaList tokens => if is_column a then parse_tokens tokens None None else Err NotColumn
  | _ => Err NotAList
  end.

(** [TryFrom<&[Attribute]> for ColumnHandler]: the loop, and the checks behind it *)
Fixpoint column_attrs (attrs : list Attribute) (h : option ColumnHandler) : DRes (option ColumnHandler) :=
  match attrs with
  | [] => Ok h
  | a :: attrs =>
      if negb (is_column a) then column_attrs attrs h
      else match h with
           | Some _ => Err SecondColumnAttribute
           | None => args ← parse_column_list a; column_attrs attrs (Some (mkHandler (default NoAttr (a_keyword args)) (a_rename args)))
           end
  end.
Definition column_handler (attrs : list Attribute) : DRes ColumnHandler :=
  h ← column_attrs attrs None;
  match h with
  | Some (mkHandler NoAttr None) => Err EmptyAttribute
  | Some (mkHandler (Skip | Flatten) (Some _)) => Err RenameUnread
  | _ => Ok (default (mkHandler NoAttr None) h)
  end.

(** [is_field_ty_opt], [option_inner], [check_unsigned_target] *)
Definition is_field_ty_opt (ty : Ty) : bool :=
  match ty with TyPath [Seg i _] => String.eqb i "Option" | _ => false end.
Definition option_inner (ty : Ty) : DRes Ty :=
  match ty with
  | TyPath [Seg i (AngleBracketed (ArgType inner :: _))] => if String.eqb i "Option" then Ok inner else Err ExpectedOption
  | _ => Err ExpectedOption
  end.
Definition UNSIGNED : list string := ["u8"; "u16"; "u32"; "u64"; "usize"].
Definition check_unsigned_target (ty : Ty) (is_opt : bool) : DRes unit :=
  ty ← (if is_opt then option_inner ty else Ok ty);
  match ty with
  | TyPath segs => match segs !! pred (length segs) with Some (Seg i _) => if bool_decide (i ∈ UNSIGNED) then Err UnsignedTarget else Ok tt | None => Ok tt end
  | TyOther => Ok tt
  end.

(** [plan_fields]: one field, the loop with the columns that are taken, the whole *)
Definition reads (a : ColumnAttr) : bool := match a with Skip | Flatten => false | _ => true end.
Definition plan_field (f : Field) (columns : list string) : DRes (FieldSpec * list string) :=
  match f_ident f with
  | None => Err TupleField
  | Some id =>
      ch ← column_handler (f_attrs f);
      let opt := is_field_ty_opt (f_ty f) in
      let col := default id (h_rename ch) in
      cols ← (if reads (h_attr ch) then if bool_decide (col ∈ columns) then Err (DuplicateColumn col) else Ok (columns ++ [col]) else Ok columns);
      match h_attr ch with FromI32 | FromI64 => check_unsigned_target (f_ty f) opt | _ => Ok tt end ;;
      mret (mkSpec id (f_ty f) (h_attr ch) col (h_rename ch) opt, cols)
  end.
Fixpoint plan_loop (fs : list Field) (columns : list string) : DRes (list FieldSpec) :=
  match fs with
  | [] => Ok []
  | f :: fs => '(s, columns) ← plan_field f columns; ss ← plan_loop fs columns; mret (s :: ss)
  end.
Definition plan_fields (input : DeriveInput) : DRes RowPlan :=
  match data input with
  | Struct fs => ss ← plan_loop fs []; mret (mkPlan (ident input) (existsb (fun s => bool_decide (attr s = Parse)) ss) ss)
  | _ => Err NotAStruct
  end.

(** ** The generated code: what is read, and the expression of a field.  [EVar] is the
    variable of the closure or block around it. *)
Inductive ColTy : Type := CField (t : Ty) | CI64 | COptI64 | CString | COptString.
Inductive Expr : Type :=
| EVar
| EGet (t : ColTy) (name : string)
| ETryGet (t : ColTy) (name : string)
| ETryFromRow
| EDefault
| EQuestion (e : Expr)
| EExpect (e : Expr)
| EMapErr (e : Expr)
| EI32TryFrom (e : Expr)
| EInto (e : Expr)
| EParse (e : Expr)
| ETranspose (e : Expr)
| EMap (e body : Expr)
| ELet (e body : Expr).

(** The loop body of [impl_from_row] and of [impl_try_from_row] *)
Definition literal (f : FieldSpec) : string := match rename f with Some r => r | None => col_name f end.
Definition from_expr (f : FieldSpec) : Expr :=
  let name := literal f in
  match attr f with
  | NoAttr => EGet (CField (s_ty f)) name
  | Flatten => EExpect ETryFromRow
  | FromI32 => if is_opt f then EMap (EGet COptI64 name) (EInto (EExpect (EI32TryFrom EVar)))
               else ELet (EGet CI64 name) (EInto (EExpect (EI32TryFrom EVar)))
  | FromI64 => if is_opt f then EMap (EGet COptI64 name) (EInto EVar) else EInto (EGet CI64 name)
  | Parse => if is_opt f then EMap (EGet COptString name) (EExpect (EParse EVar)) else EExpect (EParse (EGet CString name))
  | FromString => if is_opt f then EMap (EGet COptString name) (EInto EVar) else EInto (EGet CString name)
  | Skip => EDefault
  end.
Definition try_expr (f : FieldSpec) : Expr :=
  let name := literal f in
  match attr f with
  | NoAttr => EQuestion (ETryGet (CField (s_ty f)) name)
  | Flatten => EQuestion ETryFromRow
  | FromI32 => if is_opt f
               then EMap (EQuestion (EMapErr (ETranspose (EMap (EQuestion (ETryGet COptI64 name)) (EI32TryFrom EVar))))) (EInto EVar)
               else ELet (EQuestion (ETryGet CI64 name)) (EInto (EQuestion (EMapErr (EI32TryFrom EVar))))
  | FromI64 => if is_opt f then EMap (EQuestion (ETryGet COptI64 name)) (EInto EVar) else EInto (EQuestion (ETryGet CI64 name))
  | Parse => if is_opt f
             then EQuestion (ETranspose (EMap (EQuestion (ETryGet COptString name)) (EMapErr (EParse EVar))))
             else EQuestion (EMapErr (EParse (EQuestion (ETryGet CString name))))
  | FromString => if is_opt f then EMap (EQuestion (ETryGet COptString name)) (EInto EVar) else EInto (EQuestion (ETryGet CString name))
  | Skip => EDefault
  end.
(** [impl_from_row], [impl_try_from_row]: the fields of the struct expression *)
Definition impl_from_row (input : DeriveInput) : DRes (list (FieldSpec * Expr)) :=
  plan ← plan_fields input; mret ((fun f => (f, from_expr f)) <$> fields plan).
Definition impl_try_from_row (input : DeriveInput) : DRes (list (FieldSpec * Expr)) :=
  plan ← plan_fields input; mret ((fun f => (f, try_expr f)) <$> fields plan).

(** ** Rows *)
Inductive Row : Type := Borrowed (cols : list (string * Value)) | Owned (o : RowOwned).

(** The types of the application: [FromSql], [TryFrom<ValueOwned>], [From<i64>], [From<i32>],
    [From<String>], [FromStr], [Default] and [TryFrom<&mut Row>]; and the index of a
    column in rusqlite *)
Class RustTypes : Type := {
  U : Type;
  from_sql : Ty -> Value -> option U;
  from_value : Ty -> ValueOwned -> Res SqlError U;
  from_i64 : Ty -> Z -> U;
  from_i32 : Ty -> Z -> U;
  from_string : Ty -> string -> U;
  from_str : Ty -> string -> option U;
  type_default : Ty -> U;
  try_from_row : Ty -> St SqlError Row U;
  column_index : string -> list string -> option nat;
}.

Section Eval.
Context `{RowLib} `{RustTypes}.

(** [Row::try_get] and [Row::get] *)
Definition row_try_get {A} (sql : Value -> option A) (val : ValueOwned -> Res SqlError A) (idx : string) : St SqlError Row A := fun r =>
  match r with
  | Borrowed cols =>
      (match column_index idx (fst <$> cols) with
       | None => Err ESqlite
       | Some i => match cols !! i with None => Err ESqlite | Some c => match sql c.2 with Some a => Ok a | None => Err ESqlite end end
       end, r)
  | Owned o => let '(a, o) := try_get val idx o in (a, Owned o)
  end.
(** An error becomes a panic: [unwrap], [expect]. *)
Definition or_panic {E E' S A} (m : St E S A) : St E' S A := fun s =>
  match m s with
  | (Ok a, s) => (Ok a, s)
  | (Err _, s) | (Panic, s) => (Panic, s)
  | (OutOfFuel, s) => (OutOfFuel, s)
  end.

(** ** Evaluation *)
Inductive Val : Type := VI64 (z : Z) | VI32 (z : Z) | VStr (s : string) | VUser (u : U) | VNone | VSome (v : Val) | VOk (v : Val) | VErr (e : SqlError).
(** What ends the function early: [?], or an expression that rustc would not accept *)
Inductive Exit : Type := Return (e : SqlError) | IllTyped.
Abbreviation XSt := (St Exit Row).

Definition read (t : ColTy) (name : string) : St SqlError Row Val :=
  match t with
  | CField ty => u ← row_try_get (from_sql ty) (from_value ty) name; mret (VUser u)
  | CI64 => z ← row_try_get get_i64 try_from_i64 name; mret (VI64 z)
  | COptI64 => o ← row_try_get (get_option get_i64) (try_from_option try_from_i64) name;
               mret match o with Some z => VSome (VI64 z) | None => VNone end
  | CString => s ← row_try_get get_string try_from_string name; mret (VStr s)
  | COptString => o ← row_try_get (get_option get_string) (try_from_option try_from_string) name;
                  mret match o with Some s => VSome (VStr s) | None => VNone end
  end.
(** A [Result] as a value *)
Definition as_val (m : St SqlError Row Val) : XSt Val := fun s =>
  match m s with
  | (Ok v, s) => (Ok (VOk v), s)
  | (Err e, s) => (Ok (VErr e), s)
  | (Panic, s) => (Panic, s)
  | (OutOfFuel, s) => (OutOfFuel, s)
  end.
Definition fits_i32 (z : Z) : bool := (- 2 ^ 31 <=? z) && (z <=? 2 ^ 31 - 1).

Fixpoint eval (ty : Ty) (var : option Val) (e : Expr) : XSt Val :=
  match e with
  | EVar => match var with Some v => mret v | None => st_err IllTyped end
  | EGet t name => or_panic (read t name)
  | ETryGet t name => as_val (read t name)
  | ETryFromRow => as_val (u ← try_from_row ty; mret (VUser u))
  | EDefault => mret (VUser (type_default ty))
  | EQuestion e => v ← eval ty var e; match v with VOk v => mret v | VErr e => st_err (Return e) | _ => st_err IllTyped end
  | EExpect e => v ← eval ty var e; match v with VOk v => mret v | VErr _ => st_panic | _ => st_err IllTyped end
  | EMapErr e => v ← eval ty var e; match v with VOk v => mret (VOk v) | VErr _ => mret (VErr ESqlite) | _ => st_err IllTyped end
  | EI32TryFrom e => v ← eval ty var e; match v with VI64 z => mret (if fits_i32 z then VOk (VI32 z) else VErr EError) | _ => st_err IllTyped end
  | EInto e =>
      v ← eval ty var e;
      match v with
      | VI64 z => mret (VUser (from_i64 ty z))
      | VI32 z => mret (VUser (from_i32 ty z))
      | VStr s => mret (VUser (from_string ty s))
      | _ => st_err IllTyped
      end
  | EParse e => v ← eval ty var e; match v with VStr s => mret (match from_str ty s with Some u => VOk (VUser u) | None => VErr EError end) | _ => st_err IllTyped end
  | ETranspose e =>
      v ← eval ty var e;
      match v with
      | VNone => mret (VOk VNone)
      | VSome (VOk v) => mret (VOk (VSome v))
      | VSome (VErr e) => mret (VErr e)
      | _ => st_err IllTyped
      end
  | EMap e body =>
      v ← eval ty var e;
      match v, option_inner ty with
      | VNone, Ok _ => mret VNone
      | VSome x, Ok inner => y ← eval inner (Some x) body; mret (VSome y)
      | _, _ => st_err IllTyped
      end
  | ELet e body => v ← eval ty var e; eval ty (Some v) body
  end.
(** [Self { #(#body)* }]: the fields in order *)
Fixpoint eval_fields (body : list (FieldSpec * Expr)) : XSt (list (string * Val)) :=
  match body with
  | [] => mret []
  | (f, e) :: body => v ← eval (s_ty f) None e; vs ← eval_fields body; mret ((s_ident f, v) :: vs)
  end.
End Eval.

(** ** [impl_cache_variants]: the arms of [hiqlite_cache_index] and the table *)
Fixpoint variant_arms (idx : nat) (vs : list Variant) : DRes (list (string * nat)) :=
  match vs with
  | [] => Ok []
  | v :: vs => if Nat.eqb (v_fields v) 0 then arms ← variant_arms (S idx) vs; mret ((v_ident v, idx) :: arms) else Err VariantValues
  end.
Record CacheImpl : Type := mkCacheImpl { index_matches : list (string * nat); variants_return : list (nat * string) }.
Definition impl_cache_variants (input : DeriveInput) : DRes CacheImpl :=
  if negb (Nat.eqb (generics input) 0) then Err GenericEnum
  else match data input with
       | Enum vs => arms ← variant_arms 0 vs; mret (mkCacheImpl arms ((fun a => (a.2, a.1)) <$> arms))
       | _ => Err NotAnEnum
       end.
End Derive.

(** * The macro [params!] of [hiqlite/src/macros.rs]

    The arguments are tokens: expressions, whose value is already a [Param], and commas.
    The arms for one to eight and for nine to twenty-four expressions come first, in
    order; the patterns of the longer ones are written with a comma at the end. *)
Module Params.
Inductive Arg (P : Type) : Type := Expr (p : P) | Comma.
Arguments Expr {P} p.
Arguments Comma {P}.

Section Params.
Context {P : Type}.

(** [$p1:expr, .., $pn:expr], with or without a comma at the end *)
Fixpoint arm (n : nat) (trailing : bool) (ts : list (Arg P)) : option (list P) :=
  match n, ts with
  | 1%nat, [Expr p] => if trailing then None else Some [p]
  | 1%nat, [Expr p; Comma] => if trailing then Some [p] else None
  | S n, Expr p :: Comma :: ts => ps ← arm n trailing ts; Some (p :: ps)
  | _, _ => None
  end.
(** [$( $param:expr ),*] *)
Fixpoint separated (ts : list (Arg P)) : option (list P) :=
  match ts with
  | [Expr p] => Some [p]
  | Expr p :: Comma :: ts => match ts with [] => None | _ => ps ← separated ts; Some (p :: ps) end
  | _ => None
  end.
Definition arms : list (nat * bool) := ((fun n => (n, false)) <$> seq 1 8) ++ ((fun n => (n, true)) <$> seq 9 16).
Fixpoint first_arm (l : list (nat * bool)) (ts : list (Arg P)) : option (list P) :=
  match l with
  | [] => match ts with [] => Some [] | _ => separated ts end
  | (n, t) :: l => match arm n t ts with Some ps => Some ps | None => first_arm l ts end
  end.
(** The macro; [None] is a compile error. *)
Definition params (ts : list (Arg P)) : option (list P) := first_arm arms ts.

(** What is written: the expressions with commas in between, and maybe one at the end *)
Fixpoint commas (ps : list P) (trailing : bool) : list (Arg P) :=
  match ps with
  | [] => []
  | [p] => if trailing then [Expr p; Comma] else [Expr p]
  | p :: ps => Expr p :: Comma :: commas ps trailing
  end.

Lemma arm_step n t p ts : arm (S (S n)) t (Expr p :: Comma :: ts) = ps ← arm (S n) t ts; Some (p :: ps).
Proof. done. Qed.
Lemma arm_sound n t : forall ts ps, arm n t ts = Some ps -> ts = commas ps t /\ length ps = n.
Proof.
  induction n as [|n IH]; intros ts ps; [done|]. destruct n as [|n].
  - destruct ts as [|[p|] [|[q|] [|[r|] ts]]], t; cbn; try done; by intros [= <-].
  - destruct ts as [|[p|] [|[q|] ts]]; try done. rewrite arm_step. destruct (arm (S n) t ts) as [qs|] eqn:E; [|done]. intros [= <-].
    apply IH in E as [-> Hl]. split; [|simpl; by rewrite Hl]. destruct qs; [done|]. done.
Qed.
Lemma arm_complete t ps : ps <> [] -> arm (length ps) t (commas ps t) = Some ps.
Proof.
  induction ps as [|p [|q ps] IH]; [done|by destruct t|]. intros _. change (commas (p :: q :: ps) t) with (Expr p :: Comma :: commas (q :: ps) t). cbn [length] in *. rewrite arm_step.
  by rewrite (IH ltac:(done)).
Qed.
Lemma separated_sound ts : forall ps, separated ts = Some ps -> ts = commas ps false.
Proof.
  induction ts as [ts IH] using (induction_ltof1 _ (@length _)). unfold ltof in IH. intros ps.
  destruct ts as [|[p|] [|[q|] [|a ts]]]; try done; [by intros [= <-]|].
  change (separated (Expr p :: Comma :: a :: ts)) with (qs ← separated (a :: ts); Some (p :: qs)).
  destruct (separated (a :: ts)) as [qs|] eqn:E; [|done]. intros [= <-]. apply IH in E; [|simpl; lia]. rewrite E. by destruct qs.
Qed.
Lemma separated_complete ps : ps <> [] -> separated (commas ps false) = Some ps.
Proof.
  induction ps as [|p [|q ps] IH]; [done|done|]. intros _. change (commas (p :: q :: ps) false) with (Expr p :: Comma :: commas (q :: ps) false). specialize (IH ltac:(done)).
  cbn [separated]. rewrite IH. by destruct ps.
Qed.
Lemma commas_inj ps : forall qs t u, commas ps t = commas qs u -> ps = qs.
Proof.
  induction ps as [|p ps IH]; intros [|q qs] t u; [done| | |].
  - by destruct qs, u.
  - by destruct ps, t.
  - destruct ps as [|p' ps], qs as [|q' qs].
    + destruct t, u; cbn; congruence.
    + destruct t; cbn; [|done]. destruct qs, u; cbn; congruence.
    + destruct u; cbn; [|by destruct ps, t]. destruct ps, t; cbn; congruence.
    + change (Expr p :: Comma :: commas (p' :: ps) t = Expr q :: Comma :: commas (q' :: qs) u -> p :: p' :: ps = q :: q' :: qs).
      intros [= -> E]. f_equal. by apply (IH (q' :: qs) t u).
Qed.

Definition accepted (l : list (nat * bool)) (ts : list (Arg P)) (ps : list P) : Prop :=
  ts = commas ps false \/ exists n t, (n, t) ∈ l /\ ts = commas ps t /\ length ps = n.
Lemma first_arm_sound l ts ps : first_arm l ts = Some ps -> accepted l ts ps.
Proof.
  induction l as [|[n t] l IH]; cbn [first_arm].
  - intros Hs. left. destruct ts; [by injection Hs as <-|by apply separated_sound].
  - destruct (arm n t ts) as [qs|] eqn:E; [intros [= <-]; right; exists n, t; split; [by left|by apply arm_sound]|].
    intros [->|(m & u & Hin & Hc)]%IH; [by left|right; exists m, u; split; [by right|done]].
Qed.
Lemma first_arm_complete l ts ps : accepted l ts ps -> Forall (fun a => a.1 <> 0%nat) l -> first_arm l ts = Some ps.
Proof.
  intros Ha Hl. assert (is_Some (first_arm l ts)) as [qs Hq].
  { induction l as [|[n t] l IH]; cbn [first_arm].
    - destruct Ha as [->|(m & u & Hin & _)]; [|by apply elem_of_nil in Hin]. destruct ps as [|p ps]; [by eexists|].
      rewrite separated_complete by done. by destruct ps.
    - destruct (arm n t ts) eqn:E; [by eexists|]. apply Forall_cons_1 in Hl as [Hn Hl]. apply IH; [|done].
      destruct Ha as [->|(m & u & [[= -> ->]|Hin]%elem_of_cons & -> & Hlen)]; [by left| |right; by exists m, u].
      rewrite <- Hlen, arm_complete in E; [done|]. intros ->. done. }
  rewrite Hq. f_equal. apply first_arm_sound in Hq. destruct Ha as [->|(m & u & _ & -> & _)], Hq as [E|(m' & u' & _ & E & _)]; symmetry; by eapply commas_inj.
Qed.

(** The macro takes any number of expressions with commas in between and keeps them all in
    their order; a comma at the end only behind nine to twenty-four of them. *)
Theorem params_accepts ts ps : params ts = Some ps <-> ts = commas ps false \/ ts = commas ps true /\ (9 <= length ps <= 24)%nat.
Proof.
  assert (forall n t, (n, t) ∈ arms <-> (t = false /\ 1 <= n <= 8 \/ t = true /\ 9 <= n <= 24)%nat) as Harms.
  { intros n t. unfold arms. rewrite elem_of_app, !list_elem_of_fmap. setoid_rewrite elem_of_seq. split.
    - intros [(m & [= -> ->] & Hm)|(m & [= -> ->] & Hm)]; [left|right]; (split; [done|lia]).
    - intros [[-> Hn]|[-> Hn]]; [left|right]; exists n; (split; [done|lia]). }
  split.
  - intros [->|(n & t & Hin & -> & Hl)]%first_arm_sound; [by left|]. apply Harms in Hin as [[-> _]|[-> Hn]]; [by left|right]. by rewrite Hl.
  - intros Ha. apply first_arm_complete; [|by apply (bool_decide_eq_true_1 _)].
    destruct Ha as [->|[-> Hn]]; [by left|right]. exists (length ps), true. split; [apply Harms; by right|done].
Qed.
End Params.
End Params.
