(* ===== verification/DeriveTheorems.v ===== *)
(** The derive macros: the generated code against what the attributes say, which inputs are
    accepted, and what modelling them showed. *)
From stdpp Require Import base strings list numbers.
From Stdlib Require Import Strings.Byte Ascii.
From S2P Require Import Prelude Text Notify SqlRows CacheSM CacheSMSpec Derive.
Import Rows Derive.

#[local] Open Scope Z_scope.

(** ** The reference: a field is one read of its column with one conversion. *)
Section Reference.
Context `{RowLib} `{RustTypes}.

Definition to_res {A} (o : option A) : Res SqlError A := match o with Some a => Ok a | None => Err ESqlite end.
Definition at_column {A} (sql : Value -> Res SqlError A) (val : ValueOwned -> Res SqlError A) (idx : string) : St SqlError Row A := fun r =>
  match r with
  | Borrowed cols =>
      (match column_index idx (fst <$> cols) with
       | None => Err ESqlite
       | Some i => match cols !! i with None => Err ESqlite | Some c => sql c.2 end
       end, r)
  | Owned o => let '(a, o) := try_get val idx o in (a, Owned o)
  end.

Definition inner (ty : Ty) : Ty := match option_inner ty with Ok t => t | _ => ty end.
(** A conversion [k] of what is stored; an optional field keeps NULL. *)
Definition optional {A} (f : FieldSpec) (plain : Res SqlError A) (opt : Res SqlError (option A)) (k : Ty -> A -> Res SqlError Val) : Res SqlError Val :=
  if is_opt f then o ← opt; match o with None => Ok VNone | Some a => v ← k (inner (s_ty f)) a; Ok (VSome v) end
  else a ← plain; k (s_ty f) a.
Definition int_conv (a : ColumnAttr) (t : Ty) (z : Z) : Res SqlError Val :=
  match a with FromI32 => if fits_i32 z then Ok (VUser (from_i32 t z)) else Err ESqlite | _ => Ok (VUser (from_i64 t z)) end.
Definition str_conv (a : ColumnAttr) (t : Ty) (s : string) : Res SqlError Val :=
  match a with Parse => match from_str t s with Some u => Ok (VUser u) | None => Err ESqlite end | _ => Ok (VUser (from_string t s)) end.
Definition conv (f : FieldSpec) (own : Res SqlError U) (z : Res SqlError Z) (oz : Res SqlError (option Z)) (s : Res SqlError string) (os : Res SqlError (option string)) : Res SqlError Val :=
  match attr f with
  | FromI64 | FromI32 => optional f z oz (int_conv (attr f))
  | Parse | FromString => optional f s os (str_conv (attr f))
  | _ => u ← own; Ok (VUser u)
  end.
Definition sql_conv (f : FieldSpec) (v : Value) : Res SqlError Val :=
  conv f (to_res (from_sql (s_ty f) v)) (to_res (get_i64 v)) (to_res (get_option get_i64 v)) (to_res (get_string v)) (to_res (get_option get_string v)).
Definition val_conv (f : FieldSpec) (v : ValueOwned) : Res SqlError Val :=
  conv f (from_value (s_ty f) v) (try_from_i64 v) (try_from_option try_from_i64 v) (try_from_string v) (try_from_option try_from_string v).

Definition read_field (f : FieldSpec) : St SqlError Row Val :=
  match attr f with
  | Skip => mret (VUser (type_default (s_ty f)))
  | Flatten => u ← try_from_row (s_ty f); mret (VUser u)
  | _ => at_column (sql_conv f) (val_conv f) (col_name f)
  end.
Fixpoint read_fields (fs : list FieldSpec) : St SqlError Row (list (string * Val)) :=
  match fs with
  | [] => mret []
  | f :: fs => v ← read_field f; vs ← read_fields fs; mret ((s_ident f, v) :: vs)
  end.
(** [Err(e)] is returned by [?]. *)
Definition returning {A} (m : St SqlError Row A) : St Exit Row A := fun s =>
  match m s with
  | (Ok a, s) => (Ok a, s)
  | (Err e, s) => (Err (Return e), s)
  | (Panic, s) => (Panic, s)
  | (OutOfFuel, s) => (OutOfFuel, s)
  end.

(** What a plan says of its fields; an [Option] has a type in it. *)
Definition spec_ok (f : FieldSpec) : Prop :=
  literal f = col_name f /\ (is_opt f = true -> exists t, option_inner (s_ty f) = Ok t).

Lemma read_at t name r :
  read t name r = match t with
                  | CField ty => at_column (fun v => u ← to_res (from_sql ty v); Ok (VUser u)) (fun v => u ← from_value ty v; Ok (VUser u)) name r
                  | CI64 => at_column (fun v => z ← to_res (get_i64 v); Ok (VI64 z)) (fun v => z ← try_from_i64 v; Ok (VI64 z)) name r
                  | COptI64 => at_column (fun v => o ← to_res (get_option get_i64 v); Ok match o with Some z => VSome (VI64 z) | None => VNone end)
                                 (fun v => o ← try_from_option try_from_i64 v; Ok match o with Some z => VSome (VI64 z) | None => VNone end) name r
                  | CString => at_column (fun v => s ← to_res (get_string v); Ok (VStr s)) (fun v => s ← try_from_string v; Ok (VStr s)) name r
                  | COptString => at_column (fun v => o ← to_res (get_option get_string v); Ok match o with Some z => VSome (VStr z) | None => VNone end)
                                 (fun v => o ← try_from_option try_from_string v; Ok match o with Some z => VSome (VStr z) | None => VNone end) name r
                  end.
Proof.
  destruct t; unfold read, row_try_get, at_column, to_res, try_get; step_st; step_res; destruct r as [cols|o];
    repeat (case_match; simplify_eq; try done); cbn in *; simplify_eq; try done.
Qed.

(** A row has no such column, or one value that every conversion gets. *)
Lemma at_column_cases name r :
  (exists e r', forall A sql val, at_column (A := A) sql val name r = (Err e, r')) \/
  (exists v r', forall A sql val, at_column (A := A) sql val name r = (sql v, r')) \/
  (exists v r', forall A sql val, at_column (A := A) sql val name r = (val v, r')).
Proof.
  destruct r as [cols|o]; unfold at_column, try_get.
  - destruct (column_index name (fst <$> cols)) as [i|]; [|eauto]. destruct (cols !! i) as [c|]; eauto.
  - destruct (list_find _ (columns o)) as [[i c]|]; eauto.
Qed.

#[local] Ltac settle_conv := repeat (match goal with
  | |- context [from_sql ?t ?v] => destruct (from_sql t v)
  | |- context [from_value ?t ?v] => destruct (from_value t v)
  | |- context [get_option ?g ?v] => destruct (get_option g v) as [[]|]
  | |- context [get_i64 ?v] => destruct (get_i64 v)
  | |- context [get_string ?v] => destruct (get_string v)
  | |- context [fits_i32 ?z] => destruct (fits_i32 z)
  | |- context [from_str ?t ?s] => destruct (from_str t s)
  | |- context [match ?v with Null => _ | _ => _ end] => destruct v
  end; step_res).

(** The code of both macros for one field *)
Lemma field_eval f r : spec_ok f ->
  eval (s_ty f) None (try_expr f) r = returning (read_field f) r /\ eval (s_ty f) None (from_expr f) r = or_panic (read_field f) r.
Proof.
  intros [Hl Ho]. unfold try_expr, from_expr. rewrite Hl. unfold read_field, sql_conv, val_conv, conv, optional, inner, int_conv, str_conv.
  destruct (attr f) eqn:Ha; try (destruct (is_opt f) eqn:Hi; [destruct (Ho eq_refl) as [t Ht]|]); cbn [eval];
    unfold returning, or_panic, as_val; step_st; rewrite ?Ht; try done; try (by destruct (try_from_row (s_ty f) r) as [[]]).
  all: rewrite !read_at; destruct (at_column_cases (col_name f) r) as [(e & r' & He)|[(v & r' & He)|(v & r' & He)]]; rewrite !He; try done.
  all: unfold to_res, try_from_option, try_from_i64, try_from_string; step_res; by settle_conv.
Qed.

Lemma returning_bind {A B} (m : St SqlError Row A) (k : A -> St SqlError Row B) r :
  returning (m ≫= k) r = (returning m ≫= (fun a => returning (k a))) r.
Proof. unfold returning. step_st. by destruct (m r) as [[] ?]. Qed.
Lemma or_panic_bind {A B} (m : St SqlError Row A) (k : A -> St SqlError Row B) r :
  or_panic (E' := Exit) (m ≫= k) r = (or_panic m ≫= (fun a => or_panic (k a))) r.
Proof. unfold or_panic. step_st. by destruct (m r) as [[] ?]. Qed.

Lemma fields_eval fs : Forall spec_ok fs -> forall r,
  eval_fields ((fun f => (f, try_expr f)) <$> fs) r = returning (read_fields fs) r /\
  eval_fields ((fun f => (f, from_expr f)) <$> fs) r = or_panic (read_fields fs) r.
Proof.
  induction 1 as [|f fs Hf _ IH]; intros r; [done|]. cbn [fmap list_fmap eval_fields read_fields]. rewrite returning_bind, or_panic_bind.
  destruct (field_eval f r Hf) as [Ht Hr]. split; unfold mbind at 1 3, st_bind; [rewrite Ht|rewrite Hr].
  - destruct (returning (read_field f) r) as [[v|e| |] r1]; try done. destruct (IH r1) as [IHt _].
    unfold mbind, st_bind. rewrite IHt. unfold returning. by destruct (read_fields fs r1) as [[] ?].
  - destruct (or_panic (read_field f) r) as [[v|e| |] r1]; try done. destruct (IH r1) as [_ IHr].
    unfold mbind, st_bind. rewrite IHr. unfold or_panic. by destruct (read_fields fs r1) as [[] ?].
Qed.
End Reference.

(** ** The plan *)

(** [Option] always has a type in it, or rustc refuses the struct. *)
Definition type_ok (f : Field) : Prop := is_field_ty_opt (f_ty f) = true -> exists t, option_inner (f_ty f) = Ok t.
Definition types_ok (input : DeriveInput) : Prop := match data input with Struct fs => Forall type_ok fs | _ => True end.
Definition named (i : string) (f : Field) : Prop := f_ident f = Some i.

Definition narrow (f : Field) (ch : ColumnHandler) : DRes unit :=
  match h_attr ch with FromI32 | FromI64 => check_unsigned_target (f_ty f) (is_field_ty_opt (f_ty f)) | _ => Ok tt end.
(** What makes a field acceptable on its own, and the column it takes *)
Definition field_ok (f : Field) : Prop := exists i ch, f_ident f = Some i /\ column_handler (f_attrs f) = Ok ch /\ narrow f ch = Ok tt.
Definition column_of (f : Field) : list string :=
  match f_ident f, column_handler (f_attrs f) with
  | Some i, Ok ch => if reads (h_attr ch) then [default i (h_rename ch)] else []
  | _, _ => []
  end.
Definition spec_of (f : Field) : list FieldSpec :=
  match f_ident f, column_handler (f_attrs f) with
  | Some i, Ok ch => [mkSpec i (f_ty f) (h_attr ch) (default i (h_rename ch)) (h_rename ch) (is_field_ty_opt (f_ty f))]
  | _, _ => []
  end.

Lemma parse_tokens_settled ts k r : settled (parse_tokens ts k r).
Proof.
  remember (length ts) as n eqn:Hn. revert ts k r Hn. induction (lt_wf n) as [n _ IH]. intros ts k r ->.
  destruct ts as [|[i|c|t|] ts]; cbn [parse_tokens]; [done|..|done|done].
  - destruct (String.eqb i "rename").
    + destruct r; [done|]. destruct ts as [|[| c | |] [|[| |[s|]|] ts]]; try (by destruct (Ascii.eqb c "=")); try done.
      destruct (Ascii.eqb c "="); [|done]. eapply IH; [|done]. simpl. lia.
    + destruct k; [done|]. destruct (keyword_of i); [|done]. eapply IH; [|done]. simpl. lia.
  - destruct (Ascii.eqb c ","); [|done]. eapply IH; [|done]. simpl. lia.
Qed.
Lemma column_attrs_settled al : forall h, settled (column_attrs al h).
Proof.
  induction al as [|a al IH]; intros h; cbn [column_attrs]; [done|]. destruct (is_column a) eqn:Ea; cbn [negb]; [|done]. destruct h; [done|].
  apply settled_bind; [|done]. unfold parse_column_list. rewrite Ea. destruct (meta a); try done. apply parse_tokens_settled.
Qed.
Lemma column_handler_settled al : settled (column_handler al).
Proof. unfold column_handler. apply settled_bind; [apply column_attrs_settled|]. intros [[[] []]|] _; done. Qed.
Lemma check_unsigned_settled ty b : settled (check_unsigned_target ty b).
Proof.
  unfold check_unsigned_target. apply settled_bind; [destruct b; [|done]; unfold option_inner; by repeat case_match|].
  intros t _. by repeat case_match.
Qed.

Lemma plan_field_inv f cols : match plan_field f cols with
  | Ok (s, cols') => field_ok f /\ cols' = cols ++ column_of f /\ [s] = spec_of f /\ (forall c, c ∈ column_of f -> c ∉ cols)
  | Err _ => ~ field_ok f \/ exists c, c ∈ column_of f /\ c ∈ cols
  | _ => False
  end.
Proof.
  unfold plan_field, column_of, spec_of, field_ok. destruct (f_ident f) as [i|]; [|left; by intros (? & ? & [=] & _)].
  pose proof (column_handler_settled (f_attrs f)) as Hs. destruct (column_handler (f_attrs f)) as [ch|e| |]; try done; step_res; [|left; by intros (? & ? & _ & [=] & _)].
  set (col := default i (h_rename ch)). destruct (reads (h_attr ch) && bool_decide (col ∈ cols)) eqn:Ec.
  { apply andb_prop in Ec as [-> Hc]. rewrite Hc. step_res. right. exists col. split; [apply list_elem_of_here|by apply bool_decide_eq_true in Hc]. }
  assert (forall c, c ∈ (if reads (h_attr ch) then [col] else []) -> c ∉ cols) as Hn.
  { destruct (reads (h_attr ch)); [|intros c Hc; by apply elem_of_nil in Hc]. intros c ->%list_elem_of_singleton. by apply bool_decide_eq_false in Ec. }
  replace (if reads (h_attr ch) then if bool_decide (col ∈ cols) then Err (DuplicateColumn col) else Ok (cols ++ [col]) else Ok cols)
    with (Ok (cols ++ if reads (h_attr ch) then [col] else []) : DRes (list string)).
  2: { destruct (reads (h_attr ch)); [by rewrite andb_true_l in Ec; rewrite Ec|by rewrite app_nil_r]. }
  step_res. fold (narrow f ch). assert (settled (narrow f ch)) as Hu by (unfold narrow; destruct (h_attr ch); try done; apply check_unsigned_settled).
  destruct (narrow f ch) as [[]|e| |] eqn:En; try done; step_res; [split; [by eauto|done]|]. left. intros (i' & ch' & _ & [= <-] & Hn'). congruence.
Qed.

(** The macros accept exactly the structs whose fields are named, have a well-formed
    attribute and no unsigned target for a narrowing, and read each column once. *)
Lemma plan_loop_inv fs : forall cols, NoDup cols -> match plan_loop fs cols with
  | Ok ss => Forall field_ok fs /\ NoDup (cols ++ (fs ≫= column_of)) /\ ss = fs ≫= spec_of
  | Err _ => ~ (Forall field_ok fs /\ NoDup (cols ++ (fs ≫= column_of)))
  | _ => False
  end.
Proof.
  induction fs as [|f fs IH]; intros cols Hc; cbn [plan_loop]; [by rewrite app_nil_r|].
  pose proof (plan_field_inv f cols) as Hf. destruct (plan_field f cols) as [[s cols']|e| |]; try done; step_res.
  - destruct Hf as (Hok & -> & Hs & Hn). assert (NoDup (column_of f)) as Hnd.
    { unfold column_of. repeat case_match; try constructor; [apply not_elem_of_nil|constructor]. }
    specialize (IH (cols ++ column_of f) ltac:(apply list.NoDup_app; split_and!; [done| |done]; intros c Hin Hc'; by eapply Hn)).
    destruct (plan_loop fs (cols ++ column_of f)) as [ss|e| |]; try done; step_res.
    + destruct IH as (H1 & H2 & ->). split; [by constructor|]. cbn [mbind list_bind]. rewrite app_assoc. split; [done|]. by rewrite <- Hs.
    + intros [Hall Hd]. apply Forall_cons_1 in Hall as [_ Hall]. apply IH. split; [done|]. cbn [mbind list_bind] in Hd. by rewrite app_assoc in Hd.
  - intros [Hall Hd]. apply Forall_cons_1 in Hall as [Hok _]. destruct Hf as [Hf|(c & Hc1 & Hc2)]; [done|].
    cbn [mbind list_bind] in Hd. apply list.NoDup_app in Hd as (_ & Hd & _). apply (Hd c Hc2), elem_of_app. by left.
Qed.

Lemma plan_fields_inv input plan : plan_fields input = Ok plan -> exists fs, data input = Struct fs /\
  Forall field_ok fs /\ NoDup (fs ≫= column_of) /\ fields plan = fs ≫= spec_of.
Proof.
  unfold plan_fields. destruct (data input) as [fs| |]; try done. pose proof (plan_loop_inv fs [] ltac:(constructor)) as Hp.
  destruct (plan_loop fs []) as [ss|e| |]; try done. step_res. intros [= <-]. exists fs. destruct Hp as (? & ? & ?). done.
Qed.

Lemma spec_of_ok f : type_ok f -> Forall spec_ok (spec_of f).
Proof.
  intros Ht. unfold spec_of. destruct (f_ident f) as [i|]; [|done]. destruct (column_handler (f_attrs f)) as [ch|e| |]; try done.
  constructor; [|done]. split; [|exact Ht]. unfold literal. simpl. by destruct (h_rename ch).
Qed.

Lemma plan_spec_ok input plan : plan_fields input = Ok plan -> types_ok input -> Forall spec_ok (fields plan).
Proof.
  intros (fs & Hd & _ & _ & ->)%plan_fields_inv. unfold types_ok. rewrite Hd. clear. induction 1 as [|f fs Hf _ IH]; [constructor|].
  cbn [mbind list_bind]. apply Forall_app. split; [by apply spec_of_ok|done].
Qed.

Section Theorems.
Context `{RowLib} `{RustTypes}.

(** *** A field as it is declared: its name, type and conversion, the name of its column when
    that is another one, and the attributes around that are not for this macro.  The two
    options of the attribute can be written in either order. *)
Record Decl : Type := mkDecl { d_name : string; d_ty : Ty; d_attr : ColumnAttr; d_rename : option string; d_rename_first : bool; d_before : list Attribute; d_after : list Attribute }.
Definition spelling (a : ColumnAttr) : option string :=
  match a with
  | NoAttr => None
  | Skip => Some "skip"
  | Flatten => Some "flatten"
  | Parse => Some "parse"
  | FromString => Some "from_string"
  | FromI64 => Some "from_i64"
  | FromI32 => Some "from_i32"
  end.
Definition column_attribute (d : Decl) : list Attribute :=
  let wrap ts := [mkAttribute (Some "column") (MetaList ts)] in
  let renamed s := [TIdent "rename"; TPunct "="; TLiteral (Some s)] in
  match spelling (d_attr d), d_rename d with
  | None, None => []
  | Some kw, None => wrap [TIdent kw]
  | None, Some s => wrap (renamed s)
  | Some kw, Some s => wrap (if d_rename_first d then renamed s ++ [TPunct ","; TIdent kw] else [TIdent kw; TPunct ","] ++ renamed s)
  end.
Definition field_of (d : Decl) : Field := mkField (Some (d_name d)) (d_ty d) (d_before d ++ column_attribute d ++ d_after d).
Definition input_of (ident : string) (generics : nat) (ds : list Decl) : DeriveInput := mkInput ident generics (Struct (field_of <$> ds)).

(** What rustc accepts: an [Option] has a type in it; and the other attributes are others. *)
Definition well_typed (d : Decl) : Prop :=
  type_ok (field_of d) /\ Forall (fun a => path a <> Some "column") (d_before d ++ d_after d).
(** The target of a narrowing *)
Definition last_name (t : Ty) : option string :=
  match t with TyPath segs => match segs !! pred (length segs) with Some (Seg i _) => Some i | None => None end | TyOther => None end.
(** A field that reads no column has no other name for it, and an integer does not become an
    unsigned one. *)
Definition sound (d : Decl) : Prop :=
  match d_attr d with
  | Skip | Flatten => d_rename d = None
  | FromI64 | FromI32 => forall i, last_name (inner (d_ty d)) = Some i -> i ∉ ["u8"; "u16"; "u32"; "u64"; "usize"]
  | _ => True
  end.
(** The column of a field, and the field as the reference reads it *)
Definition column_name (d : Decl) : string := match d_rename d with Some s => s | None => d_name d end.
Definition declared_columns (ds : list Decl) : list string :=
  ds ≫= (fun d => match d_attr d with Skip | Flatten => [] | _ => [column_name d] end).
Definition is_option (t : Ty) : bool := match option_inner t with Ok _ => true | _ => false end.
Definition declared (d : Decl) : FieldSpec := mkSpec (d_name d) (d_ty d) (d_attr d) (column_name d) (d_rename d) (is_option (d_ty d)).

Lemma other_attributes l h l' : Forall (fun a => path a <> Some "column") l -> column_attrs (l ++ l') h = column_attrs l' h.
Proof.
  induction 1 as [|a l Ha _ IH]; [done|]. cbn [column_attrs app]. assert (is_column a = false) as ->; [|done].
  unfold is_column. destruct (path a) as [i|]; [|done]. apply String.eqb_neq. congruence.
Qed.
Lemma other_attributes_end l h : Forall (fun a => path a <> Some "column") l -> column_attrs l h = Ok h.
Proof. intros Hl. by rewrite <- (app_nil_r l), other_attributes. Qed.
Lemma handler_of d : well_typed d -> column_handler (f_attrs (field_of d)) =
  match d_attr d, d_rename d with (Skip | Flatten), Some _ => Err RenameUnread | a, r => Ok (mkHandler a r) end.
Proof.
  intros [_ [Hb Ha]%Forall_app]. unfold column_handler, field_of, column_attribute. cbn [f_attrs]. rewrite other_attributes by done.
  destruct (d_attr d), (d_rename d) as [s|], (d_rename_first d); cbn [spelling app column_attrs is_column path negb]; rewrite ?other_attributes_end by done; try done;
    by (cbn -[column_attrs]; rewrite ?other_attributes_end by done).
Qed.

Lemma option_iff t : (is_field_ty_opt t = true -> exists u, option_inner t = Ok u) -> is_field_ty_opt t = is_option t.
Proof.
  unfold is_option. destruct (is_field_ty_opt t) eqn:E; [intros [u ->]; done|]. intros _. unfold option_inner. repeat (case_match; try done; simplify_eq). simpl in E. congruence.
Qed.
Lemma narrow_target t : (is_field_ty_opt t = true -> exists u, option_inner t = Ok u) ->
  check_unsigned_target t (is_field_ty_opt t) = Ok tt <-> forall i, last_name (inner t) = Some i -> i ∉ ["u8"; "u16"; "u32"; "u64"; "usize"].
Proof.
  intros Ht. rewrite (option_iff t Ht). unfold check_unsigned_target, is_option, inner. assert (forall u : Ty,
    match u with
    | TyPath segs => match segs !! pred (length segs) with Some (Seg i _) => if bool_decide (i ∈ UNSIGNED) then Err UnsignedTarget else Ok tt | None => Ok tt end
    | TyOther => Ok tt
    end = Ok tt <-> forall i, last_name u = Some i -> i ∉ ["u8"; "u16"; "u32"; "u64"; "usize"]) as Hu.
  { intros u. unfold last_name. destruct u as [segs|]; [|done]. destruct (segs !! _) as [[i a]|]; [|done]. case_bool_decide; split; try done.
    - intros Hn. by destruct (Hn i eq_refl).
    - by intros _ j [= <-]. }
  destruct (option_inner t) as [u| | |]; apply Hu.
Qed.

Lemma decl_field_ok d : well_typed d -> field_ok (field_of d) <-> sound d.
Proof.
  intros Hw. pose proof (handler_of d Hw) as Hh. destruct Hw as [Ht _]. unfold field_ok, sound, narrow. rewrite Hh.
  pose proof (narrow_target (d_ty d) Ht) as Hn. cbn [field_of f_ident f_ty]. split.
  - intros (i & ch & _ & Hc & Hu). destruct (d_attr d), (d_rename d); try done; injection Hc as <-; by apply Hn.
  - intros Hs. exists (d_name d), (mkHandler (d_attr d) (d_rename d)). split; [done|]. split.
    + destruct (d_attr d); try done; by rewrite Hs.
    + cbn [h_attr]. destruct (d_attr d); try done; by apply Hn.
Qed.
Lemma decl_specs ds : Forall well_typed ds -> Forall sound ds ->
  (field_of <$> ds) ≫= spec_of = declared <$> ds /\ (field_of <$> ds) ≫= column_of = declared_columns ds.
Proof.
  induction 1 as [|d ds Hw _ IH]; [done|]. intros [Hs Hss]%Forall_cons_1. destruct (IH Hss) as [IH1 IH2]. unfold declared_columns in *.
  rewrite !fmap_cons. cbn [mbind list_bind] in *. rewrite IH1, IH2. pose proof (handler_of d Hw) as Hh. destruct Hw as [Ht _].
  assert (column_handler (f_attrs (field_of d)) = Ok (mkHandler (d_attr d) (d_rename d))) as Hh' by (rewrite Hh; unfold sound in Hs; destruct (d_attr d); try done; by rewrite Hs).
  unfold spec_of, column_of, declared, column_name. rewrite Hh'. cbn [field_of f_ident f_ty h_attr h_rename]. rewrite (option_iff (d_ty d) Ht).
  split; [by destruct (d_rename d)|]. f_equal. by destruct (d_attr d), (d_rename d).
Qed.
Lemma decl_columns_nd ds : Forall well_typed ds -> Forall field_ok (field_of <$> ds) /\ NoDup ((field_of <$> ds) ≫= column_of) <-> Forall sound ds /\ NoDup (declared_columns ds).
Proof.
  intros Hw. assert (Forall field_ok (field_of <$> ds) <-> Forall sound ds) as He.
  { rewrite Forall_fmap. split; intros Hf; (eapply Forall_impl; [|exact (Forall_and Hw Hf)]); simpl; intros d [Hd Hx]; by apply decl_field_ok. }
  rewrite He. split; intros [Hs Hn]; (split; [done|]); by destruct (decl_specs ds Hw Hs) as [_ E]; rewrite E in *.
Qed.

(** C32: The two row macros accept the same structs.  They accept one whose fields are declared
    with the options of the attribute exactly when no two fields read the same column, no
    field that reads none renames it, and no integer conversion has an unsigned target; and
    then their code reads every field in order as it was declared, from an owned and from a
    borrowed row alike: from the column of the given name, or of the name of the field (a
    raw identifier keeps its prefix), with the given conversion.  The code of [TryFromRow]
    returns the error of the first field that fails, the code of [FromRow] panics there,
    and both give the same struct and leave the same row when no field fails. *)
Theorem derive_refines ident generics ds : Forall well_typed ds ->
  (Forall sound ds /\ NoDup (declared_columns ds) /\
     exists from try, impl_from_row (input_of ident generics ds) = Ok from /\ impl_try_from_row (input_of ident generics ds) = Ok try /\
     forall r, eval_fields try r = returning (read_fields (declared <$> ds)) r /\ eval_fields from r = or_panic (read_fields (declared <$> ds)) r) \/
  (~ (Forall sound ds /\ NoDup (declared_columns ds)) /\
     exists e, impl_from_row (input_of ident generics ds) = Err e /\ impl_try_from_row (input_of ident generics ds) = Err e).
Proof.
  intros Hw. pose proof (decl_columns_nd ds Hw) as Hiff. pose proof (plan_loop_inv (field_of <$> ds) [] ltac:(constructor)) as Hp. simpl in Hp.
  unfold impl_from_row, impl_try_from_row, plan_fields, input_of. cbn [data]. destruct (plan_loop (field_of <$> ds) []) as [ss|e| |]; try done; step_res.
  - left. destruct Hp as (Hf & Hn & ->). destruct (proj1 Hiff (conj Hf Hn)) as [Hs Hnd]. split; [done|]. split; [done|].
    destruct (decl_specs ds Hw Hs) as [He _]. eexists _, _. split; [done|]. split; [done|]. cbn [fields]. rewrite He. apply fields_eval.
    rewrite Forall_fmap. eapply Forall_impl; [|exact Hw]. intros d [Ht _]. split; [unfold literal; simpl; unfold column_name; by destruct (d_rename d)|].
    unfold declared, is_option. cbn [is_opt s_ty]. destruct (option_inner (d_ty d)) as [u| | |]; try done. by eexists.
  - right. split; [by rewrite <- Hiff|]. by exists e.
Qed.

(** The macros accept exactly the structs with named fields whose attributes are
    well-formed, which narrow to no unsigned type, and of which no two read the same
    column. *)
Theorem plan_accepts input :
  (exists plan, plan_fields input = Ok plan) <->
  exists fs, data input = Struct fs /\ Forall field_ok fs /\ NoDup (fs ≫= column_of).
Proof.
  split.
  - intros [plan (fs & ? & ? & ? & _)%plan_fields_inv]. by exists fs.
  - intros (fs & Hd & Hall & Hn). unfold plan_fields. rewrite Hd. pose proof (plan_loop_inv fs [] ltac:(constructor)) as Hp.
    destruct (plan_loop fs []) as [ss|e| |]; try done; [by eexists|]. by destruct Hp.
Qed.

(** ** Owned rows *)

Lemma swap_remove_perm {A} i (l : list A) x : l !! i = Some x -> l ≡ₚ x :: swap_remove i l.
Proof.
  intros Hi. destruct (Notify.swap_remove_ok l i x Hi) as (l' & Hr & Hp & _). cut (l' = swap_remove i l); [by intros <-|]. revert Hr.
  unfold Notify.swap_remove, swap_remove. rewrite Hi, Nat.sub_1_r. cbn [mbind option_bind]. by destruct (l !! pred (length l)); intros [= <-].
Qed.

Definition find_col (c : string) (cols : list ColumnOwned) : option ValueOwned :=
  match list_find (fun x => name x = c) cols with Some (_, x) => Some (value x) | None => None end.
Lemma find_col_spec c cols v : NoDup (name <$> cols) -> find_col c cols = Some v <-> mkColumn c v ∈ cols.
Proof.
  intros Hn. unfold find_col. split.
  - destruct (list_find _ cols) as [[i x]|] eqn:E; [|done]. apply list_find_Some in E as (Hi & <- & _). intros [= <-]. destruct x as [n v']. simpl. by eapply list_elem_of_lookup_2.
  - intros [i Hi]%list_elem_of_lookup_1. destruct (list_find _ cols) as [[j x]|] eqn:E.
    + apply list_find_Some in E as (Hj & Hx & _). f_equal. assert (i = j) as ->; [|rewrite Hj in Hi; by injection Hi as ->].
      eapply (NoDup_lookup (name <$> cols)); [done|by rewrite list_lookup_fmap, Hi|by rewrite list_lookup_fmap, Hj, <- Hx].
    + apply list_find_None in E. by apply (Forall_lookup_1 _ _ _ _ E) in Hi.
Qed.
Lemma find_col_perm c cols cols' : NoDup (name <$> cols) -> cols ≡ₚ cols' -> find_col c cols = find_col c cols'.
Proof.
  intros Hn Hp. assert (NoDup (name <$> cols')) as Hn' by (by rewrite <- Hp). apply option_eq. intros v.
  by rewrite (find_col_spec c cols v Hn), (find_col_spec c cols' v Hn'), Hp.
Qed.

(** What a field gets from the columns of a row, whatever else is read from it *)
Definition field_value (f : FieldSpec) (cols : list ColumnOwned) : Res SqlError Val :=
  match attr f with
  | Skip => Ok (VUser (type_default (s_ty f)))
  | _ => match find_col (col_name f) cols with Some v => val_conv f v | None => Err EQueryParams end
  end.
Fixpoint field_values (fs : list FieldSpec) (cols : list ColumnOwned) : Res SqlError (list (string * Val)) :=
  match fs with
  | [] => Ok []
  | f :: fs => v ← field_value f cols; vs ← field_values fs cols; mret ((s_ident f, v) :: vs)
  end.
Definition spec_column (f : FieldSpec) : list string := if reads (attr f) then [col_name f] else [].

Lemma read_field_owned f cols : attr f <> Flatten -> NoDup (name <$> cols) ->
  exists cols', read_field f (Owned (mkRow cols)) = (field_value f cols, Owned (mkRow cols')) /\ NoDup (name <$> cols') /\
    forall c, c ∉ spec_column f -> find_col c cols' = find_col c cols.
Proof.
  intros Hf Hn. destruct (decide (attr f = Skip)) as [Hs|Hs].
  { exists cols. unfold read_field, field_value. rewrite Hs. done. }
  assert (spec_column f = [col_name f]) as Hc by (unfold spec_column; by destruct (attr f)).
  assert (read_field f (Owned (mkRow cols)) = at_column (sql_conv f) (val_conv f) (col_name f) (Owned (mkRow cols))) as ->
    by (unfold read_field; by destruct (attr f)).
  assert (field_value f cols = match find_col (col_name f) cols with Some v => val_conv f v | None => Err EQueryParams end) as ->
    by (unfold field_value; by destruct (attr f)).
  unfold at_column, try_get, find_col at 1. cbn [columns]. destruct (list_find _ cols) as [[i x]|] eqn:E; [|by exists cols].
  apply list_find_Some in E as (Hi & Hx & _). exists (swap_remove i cols). pose proof (swap_remove_perm i cols x Hi) as Hp.
  split; [done|]. assert (NoDup (name <$> x :: swap_remove i cols)) as Hn' by (by rewrite <- Hp).
  split; [by apply list.NoDup_cons in Hn' as [_ ?]|]. intros c Hc'. rewrite (find_col_perm c cols _ Hn Hp).
  unfold find_col. cbn [list_find]. rewrite decide_False; [by destruct (list_find _ (swap_remove i cols)) as [[]|]|].
  intros <-. apply Hc'. rewrite Hc, Hx. apply list_elem_of_here.
Qed.

Lemma read_fields_owned fs cols : Forall (fun f => attr f <> Flatten) fs -> NoDup (fs ≫= spec_column) -> forall cols', NoDup (name <$> cols') ->
  (forall c, c ∈ fs ≫= spec_column -> find_col c cols' = find_col c cols) -> (read_fields fs (Owned (mkRow cols'))).1 = field_values fs cols.
Proof.
  induction 1 as [|f fs Hf _ IH]; intros Hd cols' Hn Hc; [done|]. cbn [mbind list_bind] in Hd, Hc. apply list.NoDup_app in Hd as (_ & Hdis & Hd).
  cbn [read_fields field_values]. step_st. destruct (read_field_owned f cols' Hf Hn) as (cols1 & -> & Hn1 & Hf1).
  assert (field_value f cols' = field_value f cols) as ->.
  { unfold field_value. unfold spec_column in Hc. destruct (attr f) eqn:Ea; try done; by rewrite Hc by (simpl; apply list_elem_of_here). }
  assert ((read_fields fs (Owned (mkRow cols1))).1 = field_values fs cols) as Hfs.
  { apply IH; [done|done|]. intros c Hin. rewrite Hf1; [apply Hc, elem_of_app; by right|]. intros Hin'. by eapply Hdis. }
  destruct (field_value f cols); step_res; try done. revert Hfs. destruct (read_fields fs (Owned (mkRow cols1))) as [[] ?]; simpl; by intros <-.
Qed.

(** A plan reads no column twice. *)
Lemma plan_columns input plan : plan_fields input = Ok plan -> NoDup (fields plan ≫= spec_column).
Proof.
  intros (fs & _ & _ & Hd & ->)%plan_fields_inv. revert Hd. clear. intros Hd. cut ((fs ≫= spec_of) ≫= spec_column = fs ≫= column_of); [by intros ->|].
  induction fs as [|f fs IH]; [done|]. cbn [mbind list_bind] in *. rewrite bind_app. apply list.NoDup_app in Hd as (_ & _ & Hd). rewrite IH by done.
  f_equal. unfold spec_of, column_of, spec_column. destruct (f_ident f); [|done]. destruct (column_handler (f_attrs f)) as [ch| | |]; try done.
  cbn. by destruct (reads (h_attr ch)).
Qed.

(** On an owned row, where reading a column removes it, every field still gets its own
    column: the struct is the one that reading each field from the whole row gives, because
    no two fields read the same column.  Flattened fields, which read on their own, are
    excluded. *)
Theorem derived_columns input plan from try cols :
  types_ok input -> plan_fields input = Ok plan -> impl_from_row input = Ok from -> impl_try_from_row input = Ok try ->
  Forall (fun f => attr f <> Flatten) (fields plan) -> NoDup (name <$> cols) ->
  (eval_fields try (Owned (mkRow cols))).1 = match field_values (fields plan) cols with Ok vs => Ok vs | Err e => Err (Return e) | Panic => Panic | OutOfFuel => OutOfFuel end /\
  (eval_fields from (Owned (mkRow cols))).1 = match field_values (fields plan) cols with Ok vs => Ok vs | Err _ | Panic => Panic | OutOfFuel => OutOfFuel end.
Proof.
  intros Ht Hp Hf Hy Hfl Hn. pose proof (plan_spec_ok _ _ Hp Ht) as Hok. unfold impl_from_row in Hf. unfold impl_try_from_row in Hy.
  rewrite Hp in Hf, Hy. injection Hf as <-. injection Hy as <-. destruct (fields_eval _ Hok (Owned (mkRow cols))) as [-> ->].
  pose proof (plan_columns _ _ Hp) as Hd.
  pose proof (read_fields_owned (fields plan) cols Hfl Hd cols Hn ltac:(done)) as Hr. unfold returning, or_panic.
  revert Hr. destruct (read_fields (fields plan) (Owned (mkRow cols))) as [[] ?]; simpl; by intros <-.
Qed.
End Theorems.

(** ** Cache variants *)
Lemma variant_arms_inv vs : forall i, match variant_arms i vs with
  | Ok arms => Forall (fun v => v_fields v = 0%nat) vs /\ arms.*1 = v_ident <$> vs /\ arms.*2 = seq i (length vs)
  | Err e => ~ Forall (fun v => v_fields v = 0%nat) vs
  | _ => False
  end.
Proof.
  induction vs as [|v vs IH]; intros i; cbn [variant_arms]; [done|]. destruct (Nat.eqb_spec (v_fields v) 0) as [Hv|Hv].
  - specialize (IH (S i)). destruct (variant_arms (S i) vs) as [arms|e| |]; try done; step_res.
    + destruct IH as (H1 & H2 & H3). rewrite !fmap_cons, H2, H3. split; [by constructor|done].
    + by intros [_ ?]%Forall_cons_1.
  - by intros [? _]%Forall_cons_1.
Qed.

Lemma impl_cache_inv input impl : impl_cache_variants input = Ok impl ->
  exists vs, data input = Enum vs /\ Forall (fun v => v_fields v = 0%nat) vs /\ index_matches impl = zip (v_ident <$> vs) (seq 0 (length vs)) /\
    (variants_return impl).*1 = seq 0 (length vs) /\ (variants_return impl).*2 = v_ident <$> vs.
Proof.
  unfold impl_cache_variants. destruct (Nat.eqb (generics input) 0); [|done]. cbn [negb]. destruct (data input) as [|vs|]; try done.
  pose proof (variant_arms_inv vs 0) as Hv. destruct (variant_arms 0 vs) as [arms|e| |]; try done. step_res. intros [= <-].
  destruct Hv as (H1 & H2 & H3). exists vs. split; [done|]. split; [done|]. cbn [index_matches variants_return].
  split; [by rewrite <- (zip_fst_snd arms) at 1; rewrite H2, H3|]. by rewrite <- !list_fmap_compose, <- H3, <- H2.
Qed.

(** The table of a derived enum: an accepted enum is flat, its variants count up from zero
    in their order, so the check of the indices at the start of the cache passes; and a
    later version of the enum is compatible with what an earlier one stored exactly when
    it only appends variants. *)
Theorem cache_variants_derived input impl : impl_cache_variants input = Ok impl ->
  exists vs, data input = Enum vs /\ Forall (fun v => v_fields v = 0%nat) vs /\
    index_matches impl = zip (v_ident <$> vs) (seq 0 (length vs)) /\
    CacheSM.check_indices (variants_return impl) (replicate (length (variants_return impl)) false) = true /\
    forall input' impl' vs', impl_cache_variants input' = Ok impl' -> data input' = Enum vs' ->
      Forall (fun v => plain (v_ident v)) vs -> Z.of_nat (length vs) <= u64_max ->
      CacheSM.cache_compatible_with (variants_return impl') (CacheSM.normalized (variants_return impl)) = true <->
      v_ident <$> vs `prefix_of` v_ident <$> vs'.
Proof.
  intros (vs & Hd & Hfl & Hm & H1 & H2)%impl_cache_inv. exists vs. split; [done|]. split; [done|]. split; [done|].
  assert (length (variants_return impl) = length vs) as Hlen by (by rewrite <- (length_fmap fst), H1, length_seq).
  split; [apply check_indices_ok; by rewrite H1, Hlen|].
  intros input' impl' vs' (vs1 & Hd' & _ & _ & _ & H2')%impl_cache_inv Hd1 Hpl Hb. rewrite Hd1 in Hd'. injection Hd' as <-.
  rewrite compatible_iff; [by rewrite H2, H2'|by rewrite H1, Hlen| |by rewrite Hlen].
  apply (Forall_fmap snd plain). rewrite H2. by apply Forall_fmap.
Qed.

(** ** Instances: text columns of SQLite, and an application whose types hold what was read *)
Inductive DemoVal : Type := DSql (v : Value) | DVal (v : ValueOwned) | DInt (z : Z) | DText (s : string) | DDefault.
#[local] Instance demo_lib : RowLib := {|
  get_string v := match v with VText s => if valid_utf8 s then Some s else None | _ => None end;
  get_i64 v := match v with VInteger i => Some i | _ => None end;
  get_f64 v := match v with VReal r => Some r | _ => None end;
  get_blob v := match v with VBlob b => Some b | _ => None end;
  to_uppercase := map_ascii upper_ascii;
  Url := string; url_parse := Some; url_to_string s := s;
|}.
(** A flattened field reads the column [id] once more. *)
#[local] Instance demo_types : RustTypes := {|
  U := DemoVal;
  from_sql _ v := Some (DSql v);
  from_value _ v := Ok (DVal v);
  from_i64 _ z := DInt z;
  from_i32 _ z := DInt z;
  from_string _ s := DText s;
  from_str _ s := if bool_decide (s = "") then None else Some (DText s);
  type_default _ := DDefault;
  try_from_row _ := fun r => match r with
    | Owned o => let '(v, o) := try_get (fun v => Ok (DVal v)) "id" o in (v, Owned o)
    | Borrowed cols => (match list_find (fun c => c.1 = "id") cols with Some (_, c) => Ok (DSql c.2) | None => Err ESqlite end, r)
    end;
  column_index c names := fst <$> list_find (fun n => n = c) names;
|}.

Definition ty (i : string) : Ty := TyPath [Seg i ArgNone].
Definition opt (t : Ty) : Ty := TyPath [Seg "Option" (AngleBracketed [ArgType t])].
Definition column (ts : list Token) : list Attribute := [mkAttribute (Some "doc") MetaNameValue; mkAttribute (Some "column") (MetaList ts)].
Definition demo_struct : DeriveInput := mkInput "Entity" 0 (Struct [
  mkField (Some "id") (ty "i64") [];
  mkField (Some "num") (opt (ty "i32")) (column [TIdent "from_i32"; TPunct ","; TIdent "rename"; TPunct "="; TLiteral (Some "n")]);
  mkField (Some "kind") (ty "Kind") (column [TIdent "parse"]);
  mkField (Some "cached") (ty "bool") (column [TIdent "skip"])]).
Definition demo_row (n : Z) : list ColumnOwned := [mkColumn "kind" (Text "a"); mkColumn "n" (Integer n); mkColumn "id" (Integer 7)].

Lemma demo_types_ok : types_ok demo_struct.
Proof. repeat constructor; vm_compute; try done. intros _. by eexists. Defined.

Definition demo_decls : list Decl := [
  mkDecl "id" (ty "i64") NoAttr None false [] [];
  mkDecl "num" (opt (ty "i32")) FromI32 (Some "n") true [mkAttribute (Some "doc") MetaNameValue] [];
  mkDecl "kind" (ty "Kind") Parse None false [] [mkAttribute (Some "serde") MetaPath];
  mkDecl "cached" (ty "bool") Skip None false [] []].
Lemma derive_refines_witness : exists from try,
  impl_from_row (input_of "Entity" 0 demo_decls) = Ok from /\ impl_try_from_row (input_of "Entity" 0 demo_decls) = Ok try /\
  eval_fields try (Owned (mkRow (demo_row 5000000000))) = returning (read_fields (declared <$> demo_decls)) (Owned (mkRow (demo_row 5000000000))) /\
  (eval_fields try (Owned (mkRow (demo_row 5000000000)))).1 = Err (Return ESqlite) /\ (eval_fields from (Owned (mkRow (demo_row 5000000000)))).1 = Panic.
Proof.
  assert (Forall well_typed demo_decls) as Hw.
  { repeat constructor; cbn; try done. intros _. by eexists. }
  destruct (derive_refines "Entity" 0 demo_decls Hw) as [(_ & _ & from & try & Hf & Ht & He)|(_ & e & He & _)]; [|vm_compute in He; discriminate].
  exists from, try. split; [done|]. split; [done|]. destruct (He (Owned (mkRow (demo_row 5000000000)))) as [H1 _]. split; [done|].
  clear - Hf Ht. vm_compute in Hf, Ht. injection Hf as <-. injection Ht as <-. by vm_compute.
Defined.

Lemma derived_columns_witness : exists plan from try, plan_fields demo_struct = Ok plan /\ impl_try_from_row demo_struct = Ok try /\ impl_from_row demo_struct = Ok from /\
  (eval_fields try (Owned (mkRow (demo_row 5)))).1 =
    Ok [("id", VUser (DVal (Integer 7))); ("num", VSome (VUser (DInt 5))); ("kind", VUser (DText "a")); ("cached", VUser DDefault)].
Proof.
  eexists _, _, _. split; [reflexivity|]. split; [reflexivity|]. split; [reflexivity|].
  edestruct (derived_columns demo_struct) as [He _]; [exact demo_types_ok|reflexivity|reflexivity|reflexivity|repeat constructor; done| |rewrite He; by vm_compute].
  by apply (bool_decide_unpack (NoDup (name <$> demo_row 5))).
Defined.

Lemma cache_variants_derived_witness : exists impl, impl_cache_variants (mkInput "Cache" 0 (Enum [mkVariant "App" 0; mkVariant "Auth" 0])) = Ok impl /\
  CacheSM.check_indices (variants_return impl) (replicate (length (variants_return impl)) false) = true.
Proof.
  destruct (cache_variants_derived (mkInput "Cache" 0 (Enum [mkVariant "App" 0; mkVariant "Auth" 0])) _ eq_refl) as (vs & _ & _ & _ & Hc & _).
  by eexists.
Defined.

(** ** What modelling them showed *)

(** The list of options is not the strict comma-separated list its comment promises: the
    comma between two options may be missing, and commas may stand anywhere else. *)
Lemma commas_optional :
  parse_tokens [TIdent "from_i32"; TIdent "rename"; TPunct "="; TLiteral (Some "n")] None None = Ok (mkArgs (Some FromI32) (Some "n")) /\
  parse_tokens [TPunct ","; TPunct ","; TIdent "skip"] None None = Ok (mkArgs (Some Skip) None).
Proof. done. Qed.

(** A field that is named by a raw identifier reads a column with the prefix in its name. *)
Lemma raw_identifier_kept : exists f, plan_fields (mkInput "Entity" 0 (Struct [mkField (Some "r#type") (ty "String") []])) = Ok (mkPlan "Entity" false [f]) /\ col_name f = "r#type".
Proof. by eexists. Qed.

(** A flattened field can collide with a column of another field: the local, borrowed row
    gives both their value, and the owned row of a remote query fails. *)
Definition flat_struct : DeriveInput := mkInput "Outer" 0 (Struct [mkField (Some "id") (ty "i64") []; mkField (Some "inner") (ty "Inner") (column [TIdent "flatten"])]).
Lemma flatten_collides : exists try, impl_try_from_row flat_struct = Ok try /\
  (eval_fields try (Borrowed [("id", VInteger 7)])).1 = Ok [("id", VUser (DSql (VInteger 7))); ("inner", VUser (DSql (VInteger 7)))] /\
  (eval_fields try (Owned (mkRow [mkColumn "id" (Integer 7)]))).1 = Err (Return EQueryParams).
Proof. eexists. split; [reflexivity|]. by vm_compute. Qed.
