(* ===== verification/ClientQuery.v ===== *)
(** The queries of the client: [hiqlite/src/client/query.rs], and [query_as] of
    [hiqlite/src/query/mod.rs].

    A client on a member of the cluster reads from its own pool, with rows borrowed from
    rusqlite; a remote client gets owned rows over the stream.  The conversions of the
    caller ([From<&mut Row>], [TryFrom<&mut Row>], serde) are arguments; a conversion with
    [From] may panic.  The theorem is that both kinds of client see the same structs, with
    the code of the derive macros as the conversion, on the values that rusqlite's [FromSql]
    and the [TryFrom<ValueOwned>] of [hiqlite/src/query/rows.rs] read alike: [reads_alike]
    says which these are for the types of the language. *)
From stdpp Require Import base gmap strings list numbers sorting.
From Stdlib Require Import Strings.Byte Ascii.
From S2P Require Import Prelude SqlRows SqlRowsSpec SqlBase SqlWriter SqlSM SqlDemo SqlQuery NetBase NetServer NetLimit NetClient NetDemo NetTheorems Derive DeriveTheorems.
Import Net Client Derive Rows.

#[local] Open Scope Z_scope.

Module ClientQuery.

(** The read pool of a member, on the state it has applied *)
Class ReadPool (T W : Type) : Type := { pool_ok : W -> bool; read_db : W -> Sql.UserDb T }.

Section Queries.
Context {T : Type} `{Sql.SqlEngine T} `{RowLib} `{SqlQuery.ReadEngine T} {W : Type} `{ClientWorld W} `{ReadPool T W}.
Abbreviation CSt := (St ApiError (Client * W)).

(** A row of rusqlite: the names of the statement with the values *)
Definition names_of (q : Sql.Query) (u : Sql.UserDb T) : list string :=
  match Sql.prepare (Sql.sql q) u with Some p => fst <$> Sql.stmt_columns p | None => [] end.
Definition borrowed (q : Sql.Query) (u : Sql.UserDb T) (vs : list Value) : Row := Borrowed (zip (names_of q u) vs).

(** A query on the pool of this node *)
Definition on_pool {A} (f : bool -> Sql.UserDb T -> Res SqlError A) : CSt A := fun '(c, w) => (lift_error (f (pool_ok w) (read_db w)), (c, w)).
Definition is_local : CSt bool := fun s => (Ok (bool_decide (is_Some (self s.1))), s).
Fixpoint convert {A} (conv : Row -> Res SqlError A) (rows : list RowOwned) : Res ApiError (list A) :=
  match rows with
  | [] => Ok []
  | r :: rows => a ← lift_error (conv (Owned r)); l ← convert conv rows; mret (a :: l)
  end.
(** [T::try_from] whose error is part of the result *)
Definition caught {A} (conv : Row -> Res SqlError A) (r : Row) : Res SqlError (Res SqlError A) :=
  match conv r with Ok a => Ok (Ok a) | Err e => Ok (Err e) | Panic => Panic | OutOfFuel => OutOfFuel end.
(** The only row of a remote query *)
Definition only {A B} (conv : A -> Res ApiError B) (rows : list A) (none : SqlError) : Res ApiError B :=
  match rows with [] => Err (Other none) | [r] => conv r | _ => Err (Other ESqlite) end.
Definition first {A B} (conv : A -> Res ApiError B) (rows : list A) : Res ApiError (option B) :=
  match rows with [] => Ok None | r :: _ => b ← conv r; mret (Some b) end.
Definition with_row {A} (conv : Row -> Res SqlError A) (r : RowOwned) : Res ApiError A := lift_error (conv (Owned r)).

Definition query_consistent (q : Sql.Query) : CSt (list RowOwned) := rate_limit Db ;; query_remote q true.
Definition query_consistent_map {A} (from : Row -> Res SqlError A) (q : Sql.Query) : CSt (list A) :=
  rate_limit Db ;; rows ← query_remote q true; st_lift (convert from rows).
Definition query_map {A} (from : Row -> Res SqlError A) (q : Sql.Query) : CSt (list A) :=
  l ← is_local;
  if (l : bool) then on_pool (fun pool u => SqlQuery.query_map (fun vs => from (borrowed q u vs)) pool q u)
  else rows ← query_remote q false; st_lift (convert from rows).
Definition query_try_map {A} (try_from : Row -> Res SqlError A) (q : Sql.Query) : CSt (list (Res SqlError A)) := query_map (caught try_from) q.
Definition query_map_one {A} (from : Row -> Res SqlError A) (q : Sql.Query) : CSt A :=
  l ← is_local;
  if (l : bool) then on_pool (fun pool u => SqlQuery.query_map_one (fun vs => from (borrowed q u vs)) pool q u)
  else rows ← query_remote q false; st_lift (only (with_row from) rows EQueryReturnedNoRows).
Definition query_try_map_one {A} (try_from : Row -> Res SqlError A) (q : Sql.Query) : CSt (Res SqlError A) := query_map_one (caught try_from) q.
Definition query_map_optional {A} (from : Row -> Res SqlError A) (q : Sql.Query) : CSt (option A) :=
  l ← is_local;
  if (l : bool) then on_pool (fun pool u => SqlQuery.query_map_optional (fun vs => from (borrowed q u vs)) pool q u)
  else rows ← query_remote q false; st_lift (first (with_row from) rows).
Definition query_try_map_optional {A} (try_from : Row -> Res SqlError A) (q : Sql.Query) : CSt (option (Res SqlError A)) := query_map_optional (caught try_from) q.

(** [query_as] and the like; an error of serde is an error of the query. *)
Definition query_as {A} (serde : Row -> option A) (q : Sql.Query) : CSt (list A) :=
  l ← is_local;
  if (l : bool) then on_pool (fun pool u => SqlQuery.query_map (fun vs => to_res (serde (borrowed q u vs))) pool q u) else st_err Config.
Definition query_as_one {A} (serde : Row -> option A) (q : Sql.Query) : CSt A :=
  l ← is_local;
  if (l : bool) then on_pool (fun pool u => SqlQuery.query_map_one (fun vs => to_res (serde (borrowed q u vs))) pool q u) else st_err Config.
Definition query_as_optional {A} (serde : Row -> option A) (q : Sql.Query) : CSt (option A) :=
  l ← is_local;
  if (l : bool) then on_pool (fun pool u => SqlQuery.query_map_optional (fun vs => to_res (serde (borrowed q u vs))) pool q u) else st_err Config.

Definition query_raw (q : Sql.Query) : CSt (list RowOwned) :=
  l ← is_local;
  if (l : bool) then on_pool (fun pool u => SqlQuery.query_owned_local pool q u) else query_remote q false.
Definition query_raw_one (q : Sql.Query) : CSt RowOwned := rows ← query_raw q; st_lift (only Ok rows ESqlite).
End Queries.

(** ** Local and remote clients *)

(** Both succeed with related results, or both fail: [alike] takes a panic for an error,
    [same] does not. *)
Definition alike {E E' A B} (R : A -> B -> Prop) (r : Res E A) (r' : Res E' B) : Prop :=
  match r, r' with
  | Ok a, Ok b => R a b
  | (Err _ | Panic), (Err _ | Panic) => True
  | _, _ => False
  end.
Definition same {E E' A B} (R : A -> B -> Prop) (r : Res E A) (r' : Res E' B) : Prop :=
  match r, r' with
  | Ok a, Ok b => R a b
  | Err _, Err _ | Panic, Panic => True
  | _, _ => False
  end.
(** A value that is what the owned row carries *)
Definition kept (v : Value) (w : ValueOwned) : Prop :=
  match v, w with
  | VNull, Null => True
  | VInteger i, Integer j => i = j
  | VReal r, Real r' => r = r'
  | VText s, Text s' => s = s' /\ valid_utf8 s = true
  | VBlob b, Blob b' => b = b'
  | _, _ => False
  end.

Lemma same_res_bind {E E' A B A' B'} (R : A -> B -> Prop) (R' : A' -> B' -> Prop) (r : Res E A) (r' : Res E' B) k k' :
  same R r r' -> (forall a b, R a b -> same R' (k a) (k' b)) -> same R' (r ≫= k) (r' ≫= k').
Proof. destruct r, r'; simpl; auto; done. Qed.
Lemma same_alike {E E' A B} (R : A -> B -> Prop) (r : Res E A) (r' : Res E' B) : same R r r' -> alike R r r'.
Proof. by destruct r, r'. Qed.

Section RowsAlike.
Context `{RowLib} `{!RowLibOk} `{RustTypes}.

(** *** The types of the language that a field can have *)
Inductive Prim : Type := PI64 | PInt (bits : Z) (signed : bool) | PU64 | PF64 | PBool | PString | PBytes.
Inductive PVal : Type := XInt (i : Z) | XReal (r : Z) | XBool (b : bool) | XStr (s : string) | XBytes (b : list byte) | XNone | XSome (v : PVal).
Definition prim_of (t : Ty) : option Prim :=
  match t with
  | TyPath [Seg i ArgNone] =>
      snd <$> List.find (fun e => String.eqb e.1 i)
        [("i64", PI64); ("i32", PInt 32 true); ("i16", PInt 16 true); ("i8", PInt 8 true); ("u32", PInt 32 false); ("u16", PInt 16 false);
         ("u8", PInt 8 false); ("u64", PU64); ("f64", PF64); ("bool", PBool); ("String", PString)]
  | TyPath [Seg i (AngleBracketed [ArgType (TyPath [Seg j ArgNone])])] => if String.eqb i "Vec" && String.eqb j "u8" then Some PBytes else None
  | _ => None
  end.

(** [FromSql] of rusqlite: integers are checked, any integer but zero is true, and an
    integer is a float, too. *)
Definition checked (lo hi : Z) (v : Value) : option PVal := i ← get_i64 v; if (lo <=? i) && (i <=? hi) then Some (XInt i) else None.
Definition sql_prim (p : Prim) (v : Value) : option PVal :=
  match p with
  | PI64 => XInt <$> get_i64 v
  | PInt bits signed => checked (int_min bits signed) (int_max bits signed) v
  | PU64 => checked 0 (2 ^ 63 - 1) v
  | PF64 => XReal <$> get_f64 v
  | PBool => (fun i => XBool (negb (i =? 0))) <$> get_i64 v
  | PString => XStr <$> get_string v
  | PBytes => XBytes <$> get_blob v
  end.
Definition as_option (o : option PVal) : PVal := match o with Some v => XSome v | None => XNone end.
Definition sql_option (p : Prim) (v : Value) : option PVal := as_option <$> get_option (sql_prim p) v.

(** [TryFrom<ValueOwned>] of [rows.rs]; [unchecked] is the feature [cast_ints_unchecked]. *)
Definition own_prim (unchecked : bool) (p : Prim) (w : ValueOwned) : Res SqlError PVal :=
  match p with
  | PI64 => i ← try_from_i64 w; mret (XInt i)
  | PInt bits signed => i ← downcast_int unchecked bits signed w; mret (XInt i)
  | PU64 => i ← try_from_u64 w; mret (XInt i)
  | PF64 => r ← try_from_f64 w; mret (XReal r)
  | PBool => b ← try_from_bool w; mret (XBool b)
  | PString => s ← try_from_string w; mret (XStr s)
  | PBytes => b ← try_from_blob w; mret (XBytes b)
  end.
Definition own_option (unchecked : bool) (p : Prim) (w : ValueOwned) : Res SqlError PVal :=
  match p with
  | PInt bits signed => o ← downcast_int_opt bits signed w; mret (as_option (XInt <$> o))
  | PU64 => o ← try_from_u64_opt w; mret (as_option (XInt <$> o))
  | _ => o ← try_from_option (own_prim unchecked p) w; mret (as_option o)
  end.

(** The types of the application include those of the language; a column is looked up in
    rusqlite without regard to case. *)
Definition upper (s : string) : string := map_ascii upper_ascii s.
Class LanguageTypes : Type := {
  unchecked : bool;
  of_prim : PVal -> U;
  prim_from_sql : forall t p v, prim_of t = Some p -> from_sql t v = of_prim <$> sql_prim p v;
  prim_from_value : forall t p w, prim_of t = Some p -> from_value t w = (x ← own_prim unchecked p w; mret (of_prim x));
  option_from_sql : forall t t' p v, option_inner t = Ok t' -> prim_of t' = Some p -> from_sql t v = of_prim <$> sql_option p v;
  option_from_value : forall t t' p w, option_inner t = Ok t' -> prim_of t' = Some p -> from_value t w = (x ← own_option unchecked p w; mret (of_prim x));
  column_index_ci : forall c names, column_index c names = fst <$> list_find (fun n => upper n = upper c) names;
}.

(** The values that both conversions of a type of the language read alike: integers within
    the bounds of the type, zero and one for a boolean, reals for a float *)
Definition prim_alike (p : Prim) (v : Value) : bool :=
  match p, v with
  | PInt bits signed, VInteger i => (int_min bits signed <=? i) && (i <=? int_max bits signed)
  | PU64, VInteger i => (0 <=? i) && (i <=? 2 ^ 63 - 1)
  | PF64, VInteger _ => false
  | PBool, VInteger i => (i =? 0) || (i =? 1)
  | PBool, (VReal _ | VText _) => false
  | _, _ => true
  end.
(** The value of a field: of such a type, an option of it, or of a type of the application
    with two conversions of its own *)
Definition reads_alike (t : Ty) (v : Value) : Prop :=
  match prim_of t, option_inner t with
  | Some p, _ => prim_alike p v = true
  | None, Ok t' => match prim_of t' with
                   | Some p => prim_alike p v = true
                   | None => forall w, kept v w -> same eq (to_res (from_sql t v)) (from_value t w)
                   end
  | None, _ => forall w, kept v w -> same eq (to_res (from_sql t v)) (from_value t w)
  end.

Definition bits_ok (p : Prim) : Prop := match p with PInt bits _ => 0 < bits | _ => True end.
Lemma prim_bits t p : prim_of t = Some p -> bits_ok p.
Proof.
  unfold prim_of. intros Hp. repeat (case_match; try done; simplify_eq; try done); cbn [List.find fst snd] in Hp;
    repeat (case_match; [cbn in Hp; injection Hp as <-; cbn; lia || done|]); done.
Qed.

Lemma cast_in_range u bits signed i : 0 < bits -> (int_min bits signed <=? i) && (i <=? int_max bits signed) = true ->
  downcast_int u bits signed (Integer i) = Ok i /\ downcast_int_opt bits signed (Integer i) = Ok (Some i).
Proof.
  intros Hb Hi. assert (int_min bits signed <= i <= int_max bits signed) as Hr by lia. unfold downcast_int, downcast_int_opt. simpl.
  rewrite Z.max_r, Z.min_r, !as_int_id by lia. by destruct u, (i <? 0).
Qed.

Lemma prim_agree u p v w : bits_ok p -> prim_alike p v = true -> kept v w ->
  same eq (to_res (sql_prim p v)) (own_prim u p w) /\ same eq (to_res (sql_option p v)) (own_option u p w).
Proof.
  intros Hb Ha Hk. unfold sql_option, get_option.
  destruct p as [|bits signed| | | | |], v, w; simpl in Hk; try done; simpl in Ha; cbn [sql_prim own_prim own_option]; unfold checked; subst;
    rewrite ?get_i64_integer, ?get_i64_other, ?get_f64_real, ?get_f64_none, ?get_string_other, ?get_blob_blob, ?get_blob_none by done; try done.
  - simpl in Hb. destruct (cast_in_range u bits signed i0 Hb Ha) as [-> ->]. simpl. rewrite Ha. done.
  - simpl. rewrite Ha. unfold try_from_u64, try_from_u64_opt. simpl. destruct (Z.ltb_spec i0 0); [lia|]. rewrite as_int_id; [done|lia|].
    unfold int_min, int_max. lia.
  - simpl. destruct (Z.eqb_spec i0 0) as [->|]; [done|]. destruct (Z.eqb_spec i0 1) as [->|]; done.
  - destruct Hk as [-> Hu]. by rewrite get_string_text, Hu.
Qed.

Context `{!LanguageTypes}.
Lemma value_alike t v w : reads_alike t v -> kept v w -> same eq (to_res (from_sql t v)) (from_value t w).
Proof.
  assert (forall (o : option PVal) (r : Res SqlError PVal), same eq (to_res o) r -> same eq (to_res (of_prim <$> o)) (x ← r; mret (of_prim x))) as Hmap
    by (intros [] [] Hs; simpl in *; try done; by subst).
  unfold reads_alike. destruct (prim_of t) as [p|] eqn:Ep.
  - intros Ha Hk. rewrite (prim_from_sql t p v Ep), (prim_from_value t p w Ep). by apply Hmap, prim_agree; [eapply prim_bits|..].
  - destruct (option_inner t) as [t'| | |] eqn:Ei; auto. destruct (prim_of t') as [p|] eqn:Ep'; [|by auto].
    intros Ha Hk. rewrite (option_from_sql t t' p v Ei Ep'), (option_from_value t t' p w Ei Ep'). by apply Hmap, prim_agree; [eapply prim_bits|..].
Qed.

Lemma kept_i64 v w : kept v w -> same eq (to_res (get_i64 v)) (try_from_i64 w) /\ same eq (to_res (get_option get_i64 v)) (try_from_option try_from_i64 w).
Proof.
  unfold get_option. destruct v, w; simpl; try done; intros Hk; rewrite ?get_i64_integer, ?get_i64_other by done; simpl; try done.
  subst. done.
Qed.
Lemma kept_string v w : kept v w ->
  same eq (to_res (get_string v)) (try_from_string w) /\ same eq (to_res (get_option get_string v)) (try_from_option try_from_string w).
Proof.
  unfold get_option. destruct v, w; simpl; try done; intros Hk; rewrite ?get_string_other by done; simpl; try done.
  destruct Hk as [-> Hu]. by rewrite get_string_text, Hu.
Qed.

Lemma conv_alike f v w : (attr f = NoAttr -> reads_alike (s_ty f) v) -> reads (attr f) = true -> kept v w -> same eq (sql_conv f v) (val_conv f w).
Proof.
  intros Ht Hread Hk. unfold sql_conv, val_conv, conv, optional. destruct (kept_i64 v w Hk) as [Hi Hio]. destruct (kept_string v w Hk) as [Hs Hso].
  assert (forall A (r : Res SqlError A), (match r with OutOfFuel => False | _ => True end) -> same eq r r) as Hrefl by (by intros A []).
  destruct (attr f) eqn:Ea; try done.
  1: eapply same_res_bind; [apply (value_alike _ _ _ (Ht eq_refl) Hk)|by intros ? ? ->].
  all: destruct (is_opt f); (eapply same_res_bind; [eassumption|]); intros a b ->; [destruct b as [b|]; [|done]|]; apply Hrefl; unfold int_conv, str_conv; by repeat case_match.
Qed.

(** The names of the columns differ in more than their case, and a field is spelled like its
    column. *)
Definition spelled (names : list string) (fs : list FieldSpec) : Prop :=
  NoDup (upper <$> names) /\ forall f n, f ∈ fs -> n ∈ names -> upper n = upper (col_name f) -> n = col_name f.
(** The values of the fields without a conversion of their own *)
Definition fields_read_alike (fs : list FieldSpec) (names : list string) (vs : list Value) : Prop :=
  forall f i v, f ∈ fs -> attr f = NoAttr -> names !! i = Some (col_name f) -> vs !! i = Some v -> reads_alike (s_ty f) v.

Lemma index_here names i c : NoDup (upper <$> names) -> names !! i = Some c -> column_index c names = Some i.
Proof.
  intros Hnd Hi. rewrite column_index_ci. assert (list_find (fun n => upper n = upper c) names = Some (i, c)) as ->; [|done].
  apply list_find_Some. split; [done|]. split; [done|]. intros j y Hj Hlt Hu.
  assert (j = i); [|lia]. eapply (NoDup_lookup (upper <$> names)); [done|by rewrite list_lookup_fmap, Hj|rewrite list_lookup_fmap, Hi; simpl; by f_equal].
Qed.
Lemma index_none names fs f : spelled names fs -> f ∈ fs -> col_name f ∉ names -> column_index (col_name f) names = None.
Proof.
  intros [_ Hs] Hf Hno. rewrite column_index_ci. destruct (list_find _ names) as [[i n]|] eqn:E; [|done]. exfalso.
  apply list_find_Some in E as (Hi & Hu & _). apply list_elem_of_lookup_2 in Hi. apply Hno. by rewrite <- (Hs f n Hf Hi Hu).
Qed.

Lemma field_alike fs f names vs cols : f ∈ fs -> attr f <> Flatten -> names = name <$> cols -> Forall2 kept vs (value <$> cols) ->
  spelled names fs -> fields_read_alike fs names vs ->
  exists x, read_field f (Borrowed (zip names vs)) = (x, Borrowed (zip names vs)) /\ same eq x (field_value f cols).
Proof.
  intros Hin Hf Hn Hk Hsp Hra. destruct (decide (attr f = Skip)) as [Hs|Hs].
  { eexists. unfold read_field, field_value. rewrite Hs. by split. }
  assert (NoDup (name <$> cols)) as Hnd by (rewrite <- Hn; by eapply NoDup_fmap_1, Hsp).
  assert (field_value f cols = match find_col (col_name f) cols with Some v => val_conv f v | None => Err EQueryParams end) as ->
    by (unfold field_value; by destruct (attr f)).
  assert (length names = length vs) as Hlen by (rewrite (Forall2_length _ _ _ Hk), Hn, !length_fmap; done).
  assert (read_field f (Borrowed (zip names vs)) = at_column (sql_conv f) (val_conv f) (col_name f) (Borrowed (zip names vs))) as ->
    by (unfold read_field; by destruct (attr f)).
  eexists. split; [done|]. rewrite fst_zip by lia. destruct (decide (col_name f ∈ names)) as [[i Hi]%list_elem_of_lookup_1|Hno].
  - rewrite (index_here names i _ (proj1 Hsp) Hi). pose proof Hi as Hi'. rewrite Hn, list_lookup_fmap in Hi'.
    destruct (cols !! i) as [col|] eqn:Ec; [|done]. injection Hi' as Hc.
    assert (find_col (col_name f) cols = Some (value col)) as ->.
    { apply find_col_spec; [done|]. rewrite <- Hc. destruct col. by eapply list_elem_of_lookup_2. }
    destruct (Forall2_lookup_r _ _ _ i (value col) Hk) as (v & Hv & Hkv); [by rewrite list_lookup_fmap, Ec|].
    assert (zip names vs !! i = Some (col_name f, v)) as -> by (rewrite lookup_zip_with, Hi; simpl; by rewrite Hv).
    apply conv_alike; [|by destruct (attr f)|done]. intros Ha. by eapply Hra.
  - rewrite (index_none names fs f) by done. destruct (find_col (col_name f) cols) as [v|] eqn:E; [|done].
    exfalso. apply Hno. rewrite Hn. apply find_col_spec in E; [|done]. apply list_elem_of_fmap. by exists (mkColumn (col_name f) v).
Qed.

Lemma fields_alike all names vs cols : names = name <$> cols -> Forall2 kept vs (value <$> cols) -> spelled names all -> fields_read_alike all names vs ->
  forall fs, (forall f, f ∈ fs -> f ∈ all) -> Forall (fun f => attr f <> Flatten) fs ->
  same eq (read_fields fs (Borrowed (zip names vs))).1 (field_values fs cols).
Proof.
  intros Hn Hk Hsp Hra fs Hall Hf. induction Hf as [|f fs Hf _ IH]; [done|]. cbn [read_fields field_values].
  destruct (field_alike all f names vs cols) as (x & Hx & Hax); [apply Hall, list_elem_of_here|done..|].
  specialize (IH ltac:(intros g Hg; apply Hall; by apply list_elem_of_further)). step_st. rewrite Hx. revert Hax IH.
  destruct x, (field_value f cols); simpl; try done. intros ->.
  destruct (read_fields fs (Borrowed (zip names vs))) as [[] ?], (field_values fs cols); simpl; try done. by intros ->.
Qed.

(** The code of both macros reads a borrowed and an owned row alike. *)
Lemma derived_alike input plan from try vs cols :
  types_ok input -> plan_fields input = Ok plan -> impl_from_row input = Ok from -> impl_try_from_row input = Ok try ->
  Forall (fun f => attr f <> Flatten) (fields plan) -> Forall2 kept vs (value <$> cols) ->
  spelled (name <$> cols) (fields plan) -> fields_read_alike (fields plan) (name <$> cols) vs ->
  same eq (eval_fields from (Borrowed (zip (name <$> cols) vs))).1 (eval_fields from (Owned (mkRow cols))).1 /\
  same eq (eval_fields try (Borrowed (zip (name <$> cols) vs))).1 (eval_fields try (Owned (mkRow cols))).1.
Proof.
  intros Hty Hp Hf Hy Hfl Hk Hsp Hra. pose proof (fields_alike (fields plan) (name <$> cols) vs cols eq_refl Hk Hsp Hra (fields plan) ltac:(done) Hfl) as Ha.
  assert (NoDup (name <$> cols)) as Hnd by (by eapply NoDup_fmap_1, Hsp).
  pose proof (plan_spec_ok _ _ Hp Hty) as Hok. pose proof (plan_columns _ _ Hp) as Hd.
  pose proof (read_fields_owned (fields plan) cols Hfl Hd cols Hnd ltac:(done)) as Hr. unfold impl_from_row in Hf. unfold impl_try_from_row in Hy.
  rewrite Hp in Hf, Hy. injection Hf as <-. injection Hy as <-.
  destruct (fields_eval _ Hok (Owned (mkRow cols))) as [-> ->]. destruct (fields_eval _ Hok (Borrowed (zip (name <$> cols) vs))) as [-> ->].
  unfold returning, or_panic. revert Ha Hr. destruct (read_fields _ (Owned (mkRow cols))) as [r1 s1], (read_fields _ (Borrowed _)) as [r2 s2]. simpl.
  intros Ha ->. by destruct r2, (field_values (fields plan) cols).
Qed.
End RowsAlike.

Section Agree.
Context {T : Type} `{Sql.SqlEngine T} `{RowLib} `{!RowLibOk} `{SqlQuery.ReadEngine T} {W : Type} `{ClientWorld W} `{ReadPool T W} `{RustTypes} `{!LanguageTypes}.

(** The impl of a macro as the conversion of a query *)
Definition derived (body : list (FieldSpec * Expr)) (r : Row) : Res SqlError (list (string * Val)) :=
  match (eval_fields body r).1 with
  | Ok v => Ok v
  | Err (Return e) => Err e
  | Err IllTyped => Err EError
  | Panic => Panic
  | OutOfFuel => OutOfFuel
  end.
(** What a query returns: the columns are spelled like the fields, the values fit their
    declared types without a change, and are read alike. *)
Definition rows_ok (q : Sql.Query) (u : Sql.UserDb T) (fs : list FieldSpec) : Prop := forall p vs rs err,
  Sql.prepare (Sql.sql q) u = Some p -> SqlQuery.bind_all p 1 (Sql.params q) = Ok vs -> SqlQuery.read_query (Sql.sql q) vs u = (rs, err) ->
  spelled (fst <$> Sql.stmt_columns p) fs /\
  Forall (fun row => fields_read_alike fs (fst <$> Sql.stmt_columns p) row /\ exists cols, from_row_column (E := SqlError) row (mapping_cols_from_stmt (Sql.stmt_columns p)) = Ok cols /\ Forall2 kept row (value <$> cols)) rs.
(** A stream to a node with the same database as the pool *)
Definition served (q : Sql.Query) (w : W) : Prop := forall id,
  (stream Db (mkRequest id (Query q)) w).1 = Accepted (Received (Ok (PQuery (lift_error (SqlQuery.query_owned_local (pool_ok w) q (read_db w)))))).

Lemma from_row_column_names {E} row infos cols : from_row_column (E := E) row infos = Ok cols -> name <$> cols = info_name <$> infos.
Proof.
  revert row cols. induction infos as [|info infos IH]; intros row cols; simpl; [by intros [= <-]|]. destruct row as [|v row]; [done|].
  destruct (column_value (typ info) v) as [x| | |]; try done. simpl. destruct (from_row_column row infos) as [l| | |] eqn:El; try done.
  simpl. intros [= <-]. rewrite fmap_cons. simpl. by rewrite (IH row l El).
Qed.

Lemma map_alike {A B} (R : A -> B -> Prop) conv conv' infos rs err :
  Forall (fun row => exists cols, from_row_column (E := SqlError) row infos = Ok cols /\ alike R (conv row) (conv' (Owned (mkRow cols)) : Res SqlError B)) rs ->
  alike (Forall2 R) (SqlQuery.map_rows (A := A) conv rs err) (lift_error (SqlQuery.own_rows infos rs err) ≫= convert conv').
Proof.
  induction 1 as [|row rs (cols & Hc & Ha) _ IH]; simpl; [destruct err; [done|constructor]|]. rewrite Hc. simpl.
  destruct (SqlQuery.own_rows infos rs err) as [l| | |]; simpl in *; revert Ha IH.
  - destruct (conv row), (conv' (Owned (mkRow cols))); simpl; try done; intros Ha; destruct (SqlQuery.map_rows conv rs err), (convert conv' l); simpl; try done. by constructor.
  - destruct (conv row), (conv' (Owned (mkRow cols))); simpl; try done; intros Ha; destruct (SqlQuery.map_rows conv rs err); done.
  - destruct (conv row), (conv' (Owned (mkRow cols))); simpl; try done; intros Ha; destruct (SqlQuery.map_rows conv rs err); done.
  - destruct (conv row), (conv' (Owned (mkRow cols))); simpl; try done; intros Ha; destruct (SqlQuery.map_rows conv rs err); done.
Qed.

Lemma remote_rows q (c : Client) (w : W) : served q w ->
  (query_remote q false (c, w)).1 = lift_error (SqlQuery.query_owned_local (pool_ok w) q (read_db w)).
Proof.
  intros Hs. unfold query_remote, with_retry, retry_with, query_remote_req, ask, new_request_id, on_world, expect. step_st.
  specialize (Hs (next_id c)). destruct (stream Db (mkRequest (next_id c) (Query q)) w) as [o w1]. simpl in Hs. subst o. simpl.
  destruct (SqlQuery.query_owned_settled (pool_ok w) q (read_db w)) as [[rows ->]|[e ->]]; done.
Qed.

Lemma query_map_alike {A} (R : A -> A -> Prop) (from : Row -> Res SqlError A) q (c c' : Client) (w : W) n :
  self c = Some n -> self c' = None -> served q w ->
  (forall p vs rs err, Sql.prepare (Sql.sql q) (read_db w) = Some p -> SqlQuery.bind_all p 1 (Sql.params q) = Ok vs ->
     SqlQuery.read_query (Sql.sql q) vs (read_db w) = (rs, err) ->
     Forall (fun row => exists cols, from_row_column (E := SqlError) row (mapping_cols_from_stmt (Sql.stmt_columns p)) = Ok cols /\
                         alike R (from (borrowed q (read_db w) row)) (from (Owned (mkRow cols)))) rs) ->
  alike (Forall2 R) (query_map from q (c, w)).1 (query_map from q (c', w)).1.
Proof.
  intros Hc Hc' Hs Hrows. unfold query_map, is_local, on_pool. step_st. cbn [fst]. rewrite Hc, Hc'. cbn [is_Some bool_decide decide_rel is_Some_dec]. simpl.
  pose proof (remote_rows q c' w Hs) as Hr. destruct (query_remote q false (c', w)) as [r s1]. simpl in Hr. subst r.
  assert (forall r : Res ApiError (list RowOwned), (let (r, s') := (r, s1) in match r with Ok a => (convert from a, s') | Err e => (Err e, s') | Panic => (Panic, s') | OutOfFuel => (OutOfFuel, s') end).1
    = r ≫= convert from) as -> by (by intros []).
  unfold SqlQuery.query_map, SqlQuery.query_owned_local, SqlQuery.query_blocking. destruct (pool_ok w); [|done].
  destruct (Sql.prepare (Sql.sql q) (read_db w)) as [p|] eqn:Ep; [|done].
  pose proof (SqlQuery.bind_all_fuel p 1 (Sql.params q)) as Hb. destruct (SqlQuery.bind_all p 1 (Sql.params q)) as [vs|e| |] eqn:Eb; try done. simpl.
  destruct (SqlQuery.read_query (Sql.sql q) vs (read_db w)) as [rs err] eqn:Er.
  pose proof (map_alike R _ from _ rs err (Hrows p vs rs err eq_refl Eb Er)) as Ha. revert Ha.
  set (m := SqlQuery.map_rows _ rs err). destruct (SqlQuery.own_rows _ rs err) as [l|e| |]; simpl; destruct m; simpl; try done.
Qed.

(** C33: A client on a member and a remote client whose stream ends at a node with the same
    database get the same structs from a query, with the code of either derive macro for a
    struct without a flattened field.  This holds when every value fits the declared type
    of its column and the type of its field (an integer within the bounds of the type, zero
    or one for a boolean, a real for a float), and when the columns are spelled like the
    fields, in the same case.  A type of the application has to read such a value alike
    with its two conversions.  Where the one client fails the other does; an error of one
    row stays with that row in [query_try_map]. *)
Theorem local_remote_alike input plan from try q (c c' : Client) (w : W) n :
  types_ok input -> plan_fields input = Ok plan -> impl_from_row input = Ok from -> impl_try_from_row input = Ok try ->
  Forall (fun f => attr f <> Flatten) (fields plan) -> self c = Some n -> self c' = None -> served q w -> rows_ok q (read_db w) (fields plan) ->
  alike eq (query_map (derived from) q (c, w)).1 (query_map (derived from) q (c', w)).1 /\
  alike (Forall2 (same eq)) (query_try_map (derived try) q (c, w)).1 (query_try_map (derived try) q (c', w)).1.
Proof.
  intros Hty Hp Hf Hy Hfl Hc Hc' Hs Hrows.
  assert (forall p vs rs err, Sql.prepare (Sql.sql q) (read_db w) = Some p -> SqlQuery.bind_all p 1 (Sql.params q) = Ok vs ->
     SqlQuery.read_query (Sql.sql q) vs (read_db w) = (rs, err) ->
     Forall (fun row => exists cols, from_row_column (E := SqlError) row (mapping_cols_from_stmt (Sql.stmt_columns p)) = Ok cols /\
       same eq (derived from (borrowed q (read_db w) row)) (derived from (Owned (mkRow cols))) /\
       same eq (derived try (borrowed q (read_db w) row)) (derived try (Owned (mkRow cols)))) rs) as Hall.
  { intros p vs rs err Ep Eb Er. destruct (Hrows p vs rs err Ep Eb Er) as (Hsp & Hr). eapply Forall_impl; [exact Hr|].
    intros row (Hra & cols & Hcol & Hk). exists cols. split; [done|]. pose proof (from_row_column_names _ _ _ Hcol) as Hn.
    assert (name <$> cols = fst <$> Sql.stmt_columns p) as Hn' by (rewrite Hn; unfold mapping_cols_from_stmt; by rewrite <- list_fmap_compose).
    unfold borrowed, names_of. rewrite Ep, <- Hn'. rewrite <- Hn' in Hsp, Hra.
    destruct (derived_alike input plan from try row cols Hty Hp Hf Hy Hfl Hk Hsp Hra) as [Hda Hdb].
    unfold derived. split; [revert Hda|revert Hdb]; clear; destruct (eval_fields _ (Borrowed _)) as [[?|[]| |] ?], (eval_fields _ (Owned _)) as [[?|[]| |] ?]; done. }
  split.
  - assert (alike (Forall2 eq) (query_map (derived from) q (c, w)).1 (query_map (derived from) q (c', w)).1) as Ha.
    { eapply query_map_alike; [done..|]. intros p vs rs err Ep Eb Er. eapply Forall_impl; [by eapply Hall|]. intros row (cols & ? & ?%same_alike & _). eauto. }
    revert Ha. destruct (query_map (derived from) q (c, w)) as [[] ?], (query_map (derived from) q (c', w)) as [[] ?]; simpl; try done. apply list_eq_Forall2.
  - eapply query_map_alike; [done..|]. intros p vs rs err Ep Eb Er. eapply Forall_impl; [by eapply Hall|]. intros row (cols & Hcol & _ & Ha). exists cols. split; [done|].
    revert Ha. unfold caught. destruct (derived try (borrowed q (read_db w) row)), (derived try (Owned (mkRow cols))); done.
Qed.
End Agree.
End ClientQuery.
Import ClientQuery.

(** ** An instance: one row of the small database, read by a struct with both columns *)
#[local] Existing Instance demo_rows.
#[local] Instance demo_engine : Sql.SqlEngine Demo := demo_sql false.
#[local] Instance demo_reader : SqlQuery.ReadEngine Demo := fun s vs u => Sql.result (Sql.stmt_query s vs u).
(** What a type of the language holds; every other type fails. *)
Definition first_prim (t : Ty) : option (bool * Prim) :=
  match prim_of t, option_inner t with
  | Some p, _ => Some (false, p)
  | None, Ok t' => (fun p => (true, p)) <$> prim_of t'
  | None, _ => None
  end.
#[local] Instance demo_app : RustTypes := {|
  U := PVal;
  from_sql t v := match first_prim t with Some (false, p) => sql_prim p v | Some (true, p) => sql_option p v | None => None end;
  from_value t w := match first_prim t with Some (false, p) => own_prim false p w | Some (true, p) => own_option false p w | None => Err ESqlite end;
  from_i64 _ z := XInt z; from_i32 _ z := XInt z; from_string _ s := XStr s;
  from_str _ s := Some (XStr s); type_default _ := XNone; try_from_row _ := st_err ESqlite;
  Derive.column_index c names := fst <$> list_find (fun n => upper n = upper c) names;
|}.
Lemma option_no_prim t t' : option_inner t = Ok t' -> prim_of t = None.
Proof.
  unfold option_inner. intros Ho. repeat (case_match; try done; simplify_eq).
  match goal with He : String.eqb _ "Option" = true |- _ => apply String.eqb_eq in He as -> end. simpl. by repeat case_match.
Qed.
#[local] Instance demo_language : LanguageTypes.
Proof.
  refine {| unchecked := false; of_prim := fun x => x |}; simpl; unfold first_prim.
  - intros t p v ->. by destruct (sql_prim p v).
  - intros t p w ->. by destruct (own_prim false p w).
  - intros t t' p v Ho Hp. rewrite (option_no_prim _ _ Ho), Ho, Hp. simpl. by destruct (sql_option p v).
  - intros t t' p w Ho Hp. rewrite (option_no_prim _ _ Ho), Ho, Hp. simpl. by destruct (own_option false p w).
  - done.
Defined.
Definition demo_db : Sql.UserDb Demo := Sql.mkUser (mkDemo [(1, VInteger 5)] false) None.
Definition demo_select : Sql.Query := Sql.mkQuery "SELECT * FROM t" [].
#[local] Instance demo_pool : ReadPool Demo unit := {| pool_ok _ := true; read_db _ := demo_db |}.
#[local] Instance demo_node : ClientWorld unit := {|
  local_db _ w := (Stalled, w); local_cache _ w := (Stalled, w);
  stream _ req w := (Accepted (Received (Ok (PQuery (lift_error (SqlQuery.query_owned_local true demo_select demo_db))))), w);
  change_leader _ _ w := (Accepted tt, w);
  local_await _ _ w := (TimedOut, w); local_get _ _ w := (TimedOut, w); local_counter _ _ w := (TimedOut, w); await_tick _ w := (None, w) |}.
Definition demo_input : DeriveInput := mkInput "Entity" 0 (Struct [
  mkField (Some "a") (ty "String") []; mkField (Some "num") (ty "i32") (column [TIdent "rename"; TPunct "="; TLiteral (Some "v")])]).

Lemma local_remote_alike_witness : exists from, impl_from_row demo_input = Ok from /\
  (query_map (derived from) demo_select (mkClient (Some 1) (1, "a") (1, "a") 0 [] None None, tt)).1 = Ok [[("a", VUser (XStr "a")); ("num", VUser (XInt 5))]] /\
  alike eq (query_map (derived from) demo_select (mkClient (Some 1) (1, "a") (1, "a") 0 [] None None, tt)).1
           (query_map (derived from) demo_select (mkClient None (1, "a") (1, "a") 0 [] None None, tt)).1.
Proof.
  eexists. split; [reflexivity|]. split; [reflexivity|].
  refine (proj1 (local_remote_alike demo_input _ _ _ demo_select (mkClient (Some 1) (1, "a") (1, "a") 0 [] None None)
    (mkClient None (1, "a") (1, "a") 0 [] None None) tt 1 _ eq_refl eq_refl eq_refl _ eq_refl eq_refl _ _)).
  - repeat constructor; done.
  - repeat constructor; done.
  - by intros id.
  - intros p vs rs err Hp Hb Hr. injection Hp as <-. injection Hb as <-. injection Hr as <- <-. split; [split|].
    + by apply (bool_decide_unpack (NoDup ["A"; "V"])).
    + intros f n Hf Hn Hu. repeat (apply elem_of_cons in Hf as [->|Hf]; [repeat (apply elem_of_cons in Hn as [->|Hn]; [by vm_compute in Hu|]); by apply elem_of_nil in Hn|]).
      by apply elem_of_nil in Hf.
    + constructor; [|constructor]. split; [|eexists; split; [reflexivity|]; by repeat constructor].
      intros f [|[|i]] v Hf _; repeat (apply elem_of_cons in Hf as [->|Hf]); try (by apply elem_of_nil in Hf); simpl; intros [=] [= <-]; done.
Defined.

(** A column that only differs in case is found in the borrowed row, not in the owned one;
    and the two conversions to a boolean differ on two. *)
Lemma case_and_bool_differ : exists try, impl_try_from_row demo_input = Ok try /\
  (eval_fields try (Borrowed [("A", VText "x"); ("v", VInteger 5)])).1 = Ok [("a", VUser (XStr "x")); ("num", VUser (XInt 5))] /\
  (eval_fields try (Owned (mkRow [mkColumn "A" (Text "x"); mkColumn "v" (Integer 5)]))).1 = Err (Return EQueryParams) /\
  sql_prim PBool (VInteger 2) = Some (XBool true) /\ own_prim false PBool (Integer 2) = Ok (XBool false).
Proof. eexists. split; [reflexivity|]. split; [reflexivity|]. split; reflexivity || split; reflexivity. Qed.
