(* ===== verification/DashQuery.v ===== *)
(** Manual queries of the dashboard: [hiqlite/src/dashboard/query.rs].

    A statement is its bytes.  [find_forbidden_non_det_fn] walks over an index as the code
    does; [calls] is the reference: a mask says which bytes are code and not part of a
    string literal or a comment, and a call counts when it starts in code. *)
From stdpp Require Import base gmap strings list numbers.
From Stdlib Require Import Ascii.
From S2P Require Import Prelude Text SqlRows SqlBase SqlWriter SqlSM SqlQuery NetBase NetServer NetLimit NetClient NetClientSpec Backup.
#[local] Open Scope Z_scope.

Module DashQuery.
Import Net Client.

(** [to_ascii_lowercase], [is_ascii_alphanumeric] *)
Definition code (a : ascii) : N := N_of_ascii a.
Definition lower (a : ascii) : ascii := if N.leb 65 (code a) && N.leb (code a) 90 then ascii_of_N (code a + 32) else a.
Definition is_alphanumeric (a : ascii) : bool :=
  let n := code a in (N.leb 48 n && N.leb n 57) || (N.leb 65 n && N.leb n 90) || (N.leb 97 n && N.leb n 122).

Definition FORBIDDEN_NON_DET_FNS : list string :=
  ["date"; "datetime"; "julianday"; "now"; "random"; "randomblob"; "strftime"; "time"; "timediff"; "unixepoch"].

Definition bytes_of (s : string) : list ascii := String.list_ascii_of_string s.
Fixpoint starts (needle rest : list ascii) : bool :=
  match needle, rest with
  | [], _ => true
  | a :: needle, b :: rest => Ascii.eqb a b && starts needle rest
  | _ :: _, [] => false
  end.
Definition is_char (c : ascii) (o : option ascii) : bool := match o with Some b => Ascii.eqb b c | None => false end.
(** The forbidden function whose call starts at byte [i] *)
Definition call_at (bytes : list ascii) (i : nat) : option string :=
  List.find (fun name =>
    let needle := bytes_of name in
    starts needle (drop i bytes) && is_char "(" (drop i bytes !! length needle) &&
    match i with
    | O => true
    | S j => match bytes !! j with Some prev => negb (is_alphanumeric prev) && negb (Ascii.eqb prev "_") | None => true end
    end) FORBIDDEN_NON_DET_FNS.

(** The loops that skip a comment: the index behind them *)
Definition newline : ascii := "010".
Fixpoint skip_line (rest : list ascii) (i : nat) : nat :=
  match rest with [] => i | c :: rest => if Ascii.eqb c newline then i else skip_line rest (S i) end.
Fixpoint skip_block (rest : list ascii) (i : nat) : nat :=
  match rest with
  | [] => i
  | c :: rest => match rest with
                 | [] => S i
                 | d :: _ => if Ascii.eqb c "*" && Ascii.eqb d "/" then S (S i) else skip_block rest (S i)
                 end
  end.

Fixpoint scan (fuel : nat) (bytes : list ascii) (i : nat) (in_string : bool) : Res unit (option string) :=
  match fuel with
  | O => OutOfFuel
  | S fuel =>
      match bytes !! i with
      | None => Ok None
      | Some b =>
          if in_string then
            if Ascii.eqb b "'" then if is_char "'" (bytes !! S i) then scan fuel bytes (S (S i)) true else scan fuel bytes (S i) false
            else scan fuel bytes (S i) true
          else if Ascii.eqb b "'" then scan fuel bytes (S i) true
          else if Ascii.eqb b "-" && is_char "-" (bytes !! S i) then scan fuel bytes (skip_line (drop (S (S i)) bytes) (S (S i))) false
          else if Ascii.eqb b "/" && is_char "*" (bytes !! S i) then scan fuel bytes (skip_block (drop (S (S i)) bytes) (S (S i))) false
          else match call_at bytes i with
               | Some name => Ok (Some name)
               | None => scan fuel bytes (S i) false
               end
      end
  end.
(** [find_forbidden_non_det_fn] *)
Definition find_forbidden_non_det_fn (sql : string) : Res unit (option string) :=
  let bytes := lower <$> bytes_of sql in scan (S (length bytes)) bytes 0 false.

(** ** Dispatch *)

(** [sql.split_at(7)], which panics inside of a character, and the statements that read *)
Definition is_select (sql : string) : Res ApiError bool :=
  let bytes := bytes_of sql in
  match bytes !! 7%nat with
  | None => Err (Other EBadRequest)
  | Some b =>
      if Backup.is_continuation b then Panic
      else let start_lower := lower <$> take 7 bytes in
           Ok (starts (bytes_of "select") start_lower || starts (bytes_of "explain") start_lower || starts (bytes_of "pragma") start_lower)
  end.

(** Rows of the read pool, or the row [rows_affected] *)
Inductive Shown : Type := Table (rows : list Rows.RowOwned) | Affected (n : option Z).

Class DashWorld (T W : Type) : Type := {
  current_leader : W -> option Z * W;
  pool_ok : W -> bool;
  read_db : W -> Sql.UserDb T;
}.

Section Dynamic.
Context {T : Type} `{Sql.SqlEngine T} `{Rows.RowLib} `{SqlQuery.ReadEngine T} {W : Type} `{ClientWorld W} `{DashWorld T W}.
Abbreviation CSt := (St ApiError (Client * W)).

(** [is_this_local_leader] *)
Definition is_this_local_leader : CSt bool := fun '(c, w) =>
  let '(l, w) := current_leader w in
  match l with
  | None => (Err LeaderChange, (c, w))
  | Some current => (Ok (bool_decide (self c = Some current)), (c, w))
  end.
(** [execute_dynamic]: there is no timeout, and a reply channel that is dropped panics;
    [OutOfFuel] when it never returns *)
Definition execute_dynamic (q : Sql.Query) : CSt (option Z) :=
  local ← is_this_local_leader;
  if (local : bool) then
    o ← on_world (local_db (SqlSM.Execute q)); resp ← st_lift (client_write_untimed o);
    match resp with SqlSM.RExecute r => st_lift (lift_error r) | _ => st_panic end
  else
    id ← new_request_id;
    o ← on_world (stream Db (mkRequest id (Execute q)));
    match o with
    | Gone => st_err (Other EError)
    | Accepted (Received r) => p ← st_lift r; match p with PExecute r => st_lift r | _ => st_panic end
    | Accepted Closed => st_panic
    | Accepted TimedOut | Blocked => st_lift OutOfFuel
    end.
(** The message to the stream manager when the leader has changed *)
Definition report_leader (f : Forward) : CSt unit := fun '(c, w) =>
  match change_leader Db (leader_id f, leader_node f) w with
  | (Accepted _, w) =>
      (Ok tt, (mkClient (self c) (leader_db c) (leader_cache c) (next_id c) (changes c ++ [(Db, (leader_id f, leader_node f))]) (tokens_db c) (tokens_cache c), w))
  | (Gone, w) => (Err (Other EError), (c, w))
  | (Blocked, w) => (OutOfFuel, (c, w))
  end.
Definition execute_twice (q : Sql.Query) : CSt (option Z) := fun s =>
  match execute_dynamic q s with
  | (Err e, s1) =>
      match is_forward_to_leader e with
      | Some f => (report_leader f ;; execute_dynamic q) s1
      | None => (Err e, s1)
      end
  | r => r
  end.

(** A statement on the read pool *)
Definition select_local (sql : string) : CSt Shown := fun '(c, w) =>
  (rows ← lift_error (SqlQuery.query_owned_local (pool_ok w) (Sql.mkQuery sql []) (read_db w)); mret (Table rows), (c, w)).

(** [dashboard_query_dynamic] *)
Definition dashboard_query_dynamic (sql : string) : CSt Shown :=
  select ← st_lift (is_select sql);
  if (select : bool) then select_local sql
  else
    match find_forbidden_non_det_fn sql with
    | Ok (Some _) => st_err (Other EBadRequest)
    | Ok None => n ← execute_twice (Sql.mkQuery sql []); mret (Affected ((fun z => Z.min z i64_max) <$> n))
    | _ => st_panic
    end.
End Dynamic.

(** ** The reference *)
Inductive Lex : Type := Code | Str | Dash | Line | Slash | Block | Star.
Fixpoint mask (st : Lex) (s : list ascii) : list bool :=
  match s with
  | [] => []
  | c :: s =>
      match st with
      | Code => if Ascii.eqb c "'" then false :: mask Str s
                else if Ascii.eqb c "-" && is_char "-" (head s) then false :: mask Dash s
                else if Ascii.eqb c "/" && is_char "*" (head s) then false :: mask Slash s
                else true :: mask Code s
      | Str => false :: mask (if Ascii.eqb c "'" then Code else Str) s
      | Dash => false :: mask Line s
      | Line => if Ascii.eqb c newline then true :: mask Code s else false :: mask Line s
      | Slash => false :: mask Block s
      | Block => false :: mask (if Ascii.eqb c "*" && is_char "/" (head s) then Star else Block) s
      | Star => false :: mask Code s
      end
  end.
Fixpoint first_call (bytes : list ascii) (i : nat) (m : list bool) : option string :=
  match m with
  | [] => None
  | b :: m => match (if b then call_at bytes i else None) with Some name => Some name | None => first_call bytes (S i) m end
  end.
Definition calls (sql : string) : option string := let bytes := lower <$> bytes_of sql in first_call bytes 0 (mask Code bytes).

(** *** A call as it is written: one of the names, directly followed by a parenthesis, with no
    character of an identifier in front of it *)
Definition IDENT_CHARS : list ascii := bytes_of "ABCDEFGHIJKLMNOPQRSTUVWXYZabcdefghijklmnopqrstuvwxyz0123456789_".
Definition written_call (bytes : list ascii) (i : nat) (name : string) : Prop :=
  exists before after, bytes = before ++ bytes_of name ++ "("%char :: after /\ length before = i /\ name ∈ FORBIDDEN_NON_DET_FNS /\
    forall c, before !! pred (length before) = Some c -> c ∉ IDENT_CHARS.

Lemma ident_char c : negb (is_alphanumeric c) && negb (Ascii.eqb c "_") = bool_decide (c ∉ IDENT_CHARS).
Proof. by destruct c as [[] [] [] [] [] [] [] []]; vm_compute. Qed.
Lemma starts_spec needle rest : starts needle rest = true <-> exists after, rest = needle ++ after.
Proof.
  revert rest. induction needle as [|a needle IH]; intros rest; simpl; [split; [by exists rest|done]|]. destruct rest as [|b rest]; [split; [done|by intros [? [=]]]|].
  rewrite andb_true_iff, Ascii.eqb_eq, IH. split; [intros [-> [x ->]]; by exists x|intros [x [= -> ->]]; eauto].
Qed.
Lemma call_at_written bytes i name : call_at bytes i = Some name -> written_call bytes i name.
Proof.
  unfold call_at. intros [Hin%list_elem_of_In Hp]%List.find_some. apply andb_prop in Hp as [[[rest Hr]%starts_spec Hc]%andb_prop Hprev].
  rewrite Hr, lookup_app_r, Nat.sub_diag in Hc by lia. destruct rest as [|c rest]; [done|]. apply Ascii.eqb_eq in Hc as ->.
  assert (i < length bytes)%nat as Hi.
  { assert (length (drop i bytes) = length (bytes_of name ++ "("%char :: rest)) as Hl by (by rewrite Hr). rewrite length_drop, length_app in Hl. simpl in Hl. lia. }
  exists (take i bytes), rest. split; [by rewrite <- Hr, take_drop|]. split; [rewrite length_take; lia|]. split; [done|].
  intros c. rewrite length_take, Nat.min_l by lia. destruct i as [|j]; [done|]. cbn [pred]. rewrite lookup_take_lt by lia.
  intros Hc. rewrite Hc, ident_char in Hprev. by apply bool_decide_eq_true in Hprev.
Qed.
Lemma written_call_at bytes i name : written_call bytes i name -> call_at bytes i <> None.
Proof.
  intros (before & after & -> & Hl & Hin & Hprev) Hn. unfold call_at in Hn. pose proof (List.find_none _ _ Hn name (proj1 (list_elem_of_In _ _) Hin)) as Hf. cbv beta zeta in Hf.
  rewrite drop_app_length' in Hf by done. assert (starts (bytes_of name) (bytes_of name ++ "("%char :: after) = true) as Hs by (apply starts_spec; eauto).
  rewrite Hs, lookup_app_r, Nat.sub_diag in Hf by lia. cbn in Hf. destruct i as [|j]; [done|]. rewrite lookup_app_l in Hf by lia.
  destruct (before !! j) as [c|] eqn:Ec; [|done]. rewrite ident_char in Hf. apply bool_decide_eq_false in Hf. apply Hf, Hprev.
  by rewrite Hl.
Qed.

Section Scan.
Context (bytes : list ascii).

Lemma drop_head i b : bytes !! i = Some b -> drop i bytes = b :: drop (S i) bytes.
Proof. apply drop_S. Qed.
Lemma head_drop i : head (drop i bytes) = bytes !! i.
Proof. rewrite head_lookup, lookup_drop. by rewrite Nat.add_0_r. Qed.
Lemma drop_cons_S i c rest : c :: rest = drop i bytes -> rest = drop (S i) bytes.
Proof. intros E. replace (S i) with (i + 1)%nat by lia. by rewrite <- drop_drop, <- E. Qed.

Lemma skip_line_first rest : forall i, rest = drop i bytes ->
  first_call bytes i (mask Line rest) = first_call bytes (skip_line rest i) (mask Code (drop (skip_line rest i) bytes)) /\
  (i <= skip_line rest i)%nat.
Proof.
  induction rest as [|c rest IH]; intros i E; simpl; [by rewrite <- E|]. destruct (Ascii.eqb c newline) eqn:Ec; simpl.
  - rewrite <- E. apply Ascii.eqb_eq in Ec as ->. by split.
  - destruct (IH (S i) (drop_cons_S _ _ _ E)) as [H1 H2]. split; [done|lia].
Qed.
Lemma skip_block_first rest : forall i, rest = drop i bytes ->
  first_call bytes i (mask Block rest) = first_call bytes (skip_block rest i) (mask Code (drop (skip_block rest i) bytes)) /\
  (i <= skip_block rest i)%nat.
Proof.
  induction rest as [|c rest IH]; intros i E; simpl; [by rewrite <- E|]. pose proof (drop_cons_S _ _ _ E) as E1.
  destruct rest as [|d rest]; simpl.
  - rewrite <- E1. split; [done|lia].
  - destruct (Ascii.eqb c "*" && Ascii.eqb d "/"); simpl.
    + rewrite <- (drop_cons_S _ _ _ E1). split; [done|lia].
    + destruct (IH (S i) E1) as [H1 H2]. split; [done|]. change (i <= skip_block (d :: rest) (S i))%nat. lia.
Qed.

Lemma scan_correct fuel : forall i in_string, (length bytes - i < fuel)%nat ->
  scan fuel bytes i in_string = Ok (first_call bytes i (mask (if in_string then Str else Code) (drop i bytes))).
Proof.
  induction fuel as [|fuel IH]; intros i in_string Hf; [lia|]. cbn [scan]. destruct (bytes !! i) as [b|] eqn:Eb.
  2: { apply lookup_ge_None in Eb. by rewrite drop_ge. }
  pose proof (lookup_lt_Some _ _ _ Eb) as Hlt. rewrite (drop_head i b Eb). destruct in_string; cbn [mask first_call].
  - destruct (Ascii.eqb b "'"); [|rewrite IH by lia; done]. destruct (is_char "'" (bytes !! S i)) eqn:E1.
    + rewrite IH by lia. unfold is_char in E1. destruct (bytes !! S i) as [d|] eqn:Ed; [|done]. rewrite (drop_head _ _ Ed).
      cbn [mask first_call]. by rewrite E1.
    + by rewrite IH by lia.
  - rewrite head_drop. destruct (Ascii.eqb b "'"); [by rewrite IH by lia|].
    destruct (Ascii.eqb b "-" && is_char "-" (bytes !! S i)) eqn:E1; [|destruct (Ascii.eqb b "/" && is_char "*" (bytes !! S i)) eqn:E2].
    + apply andb_prop in E1 as [_ E1]. unfold is_char in E1. destruct (bytes !! S i) as [d|] eqn:Ed; [|done].
      destruct (skip_line_first (drop (S (S i)) bytes) (S (S i)) eq_refl) as [H1 H2]. rewrite IH by lia. rewrite (drop_head _ _ Ed).
      cbn [mask first_call]. by rewrite H1.
    + apply andb_prop in E2 as [_ E2]. unfold is_char in E2. destruct (bytes !! S i) as [d|] eqn:Ed; [|done].
      destruct (skip_block_first (drop (S (S i)) bytes) (S (S i)) eq_refl) as [H1 H2]. rewrite IH by lia. rewrite (drop_head _ _ Ed).
      cbn [mask first_call]. by rewrite H1.
    + cbn [first_call]. destruct (call_at bytes i); [done|]. by rewrite IH by lia.
Qed.
End Scan.

Lemma find_forbidden_calls sql : find_forbidden_non_det_fn sql = Ok (calls sql).
Proof. unfold find_forbidden_non_det_fn, calls. rewrite scan_correct by lia. done. Qed.

(** The reference, position by position *)
Lemma first_call_none bytes m : forall i, first_call bytes i m = None <-> forall k, m !! k = Some true -> call_at bytes (i + k) = None.
Proof.
  induction m as [|b m IH]; intros i; simpl; [split; [|done]; intros _ k Hk; by rewrite lookup_nil in Hk|]. split.
  - destruct b; [destruct (call_at bytes i) eqn:E; [done|]|]; intros Hn [|k]; simpl; try done; try (rewrite Nat.add_0_r; done);
      intros Hk; rewrite <- Nat.add_succ_comm; by apply IH.
  - intros Hn. assert (first_call bytes (S i) m = None) as Hr by (apply IH; intros k Hk; rewrite Nat.add_succ_comm; by apply (Hn (S k))).
    destruct b; [|done]. pose proof (Hn 0%nat eq_refl) as H0. rewrite Nat.add_0_r in H0. by rewrite H0.
Qed.
Lemma first_call_some bytes m name : forall i, first_call bytes i m = Some name ->
  exists k, m !! k = Some true /\ call_at bytes (i + k) = Some name /\ forall j, (j < k)%nat -> m !! j = Some true -> call_at bytes (i + j) = None.
Proof.
  induction m as [|b m IH]; intros i; simpl; [done|].
  assert (first_call bytes (S i) m = Some name -> (b = true -> call_at bytes i = None) ->
    exists k, (b :: m) !! k = Some true /\ call_at bytes (i + k) = Some name /\ forall j, (j < k)%nat -> (b :: m) !! j = Some true -> call_at bytes (i + j) = None) as Hs.
  { intros (k & Hk & Hc & Hf)%IH Hb. exists (S k). rewrite <- Nat.add_succ_comm. split; [done|]. split; [done|].
    intros [|j] Hj Hm; [rewrite Nat.add_0_r; apply Hb; simpl in Hm; congruence|]. rewrite <- Nat.add_succ_comm. apply Hf; [lia|done]. }
  destruct b; [destruct (call_at bytes i) eqn:E|]; [|by intros ?%Hs|by intros ?%Hs].
  intros [= <-]. exists 0%nat. rewrite Nat.add_0_r. split; [done|]. split; [done|]. lia.
Qed.
End DashQuery.

(** * What a manual query leaves in the log *)
Import Net Server Client DashQuery.

#[local] Open Scope Z_scope.

Class DashWorldOk (T W : Type) `{WorldLog W} `{DashWorld T W} : Prop :=
  leader_quiet : forall w l w', current_leader w = (l, w') -> writes w' = writes w /\ cache_writes w' = cache_writes w.

(** The log after a statement: a panic is a reply channel that was dropped. *)
Definition dash_effect {A B} (x : A) (r : Res ApiError B) (l l' : list A) : Prop :=
  match r with Panic => at_most x l l' | r => effect True x r l l' end.

Section Spec.
Context {T : Type} `{Sql.SqlEngine T} `{Rows.RowLib} `{SqlQuery.ReadEngine T} {W : Type} `{ClientWorld W} `{WorldLog W} `{!ClientWorldOk (W := W)}.
Context `{!DashWorld T W} `{!DashWorldOk T W}.

Lemma execute_dynamic_effect q (s : Client * W) r s' : execute_dynamic (T := T) q s = (r, s') ->
  dash_effect (SqlSM.Execute q) r (writes s.2) (writes s'.2) /\ cache_writes s'.2 = cache_writes s.2.
Proof.
  destruct s as [c w]. unfold execute_dynamic, is_this_local_leader. step_st. destruct (current_leader w) as [[cur|] w1] eqn:El;
    apply leader_quiet in El as [Hw1 Hc1]; [|intros [= <- <-]; simpl; rewrite Hw1; split; [by left|done]].
  unfold on_world, new_request_id. case_bool_decide.
  - destruct (local_db _ w1) as [o w2] eqn:E. apply local_db_ok in E as (Hc2 & He & Ht). unfold local_effect in He. rewrite Hw1 in He. rewrite Hc1 in Hc2.
    destruct o as [resp|fwd|]; cbn [client_write_local client_write_untimed] in *; [|by intros [= <- <-]|by intros [= <- <-]; split; [split; [done|]|]].
    specialize (Ht _ eq_refl). destruct resp; try done. intros [= <- <-]. simpl in Ht, He. split; [|done]. destruct r0; try done. simpl. by right.
  - destruct (stream Db _ w1) as [o w2] eqn:E. apply stream_ok in E as (Hd & Hc & Hp). cbn in Hd, Hc. rewrite Hw1 in Hd. rewrite Hc1 in Hc.
    destruct o as [[a| |]| |]; [|intros [= <- <-]; by repeat split..|intros [= <- <-]; simpl; split; [by left|done]|intros [= <- <-]; split; [split; [done|by left]|done]].
    destruct a as [p|e| |]; try done; [|intros [= <- <-]; simpl; by rewrite Hp].
    destruct p; try done. intros [= <- <-]. split; [|done]. cbn in Hd. destruct r0; try done.
Qed.

Lemma execute_twice_effect q (s : Client * W) r s' : execute_twice (T := T) q s = (r, s') ->
  dash_effect (SqlSM.Execute q) r (writes s.2) (writes s'.2) /\ cache_writes s'.2 = cache_writes s.2.
Proof.
  unfold execute_twice. destruct (execute_dynamic q s) as [[n|e| |] s1] eqn:E; pose proof (execute_dynamic_effect _ _ _ _ E) as [He Hc];
    try (by intros [= <- <-]). simpl in He. destruct (is_forward_to_leader e) as [f|] eqn:Ef; [|intros [= <- <-]; simpl; by rewrite Ef].
  unfold report_leader. destruct s1 as [c1 w1]. step_st. destruct (change_leader Db _ w1) as [o w2] eqn:Ec. apply change_ok in Ec as [Hw2 Hcw2]. simpl in He, Hc.
  destruct o; [|intros [= <- <-]; simpl; rewrite Hw2, Hcw2, He; split; [by left|done]|intros [= <- <-]; simpl; rewrite Hw2, Hcw2, He; split; [split; [done|by left]|done]].
  intros Hr. apply execute_dynamic_effect in Hr as [He2 Hc2]. simpl in *. by rewrite Hw2, Hcw2, He, Hc in *.
Qed.

(** A manual query: what it answers and leaves *)
Definition query_outcome (sql : string) (r : Res ApiError Shown) (c : Client) (w : W) (s' : Client * W) : Prop :=
  match is_select sql with
  | Ok true => s' = (c, w) /\ r = (rows ← lift_error (SqlQuery.query_owned_local (pool_ok w) (Sql.mkQuery sql []) (read_db w)); mret (Table rows))
  | Ok false =>
      match calls sql with
      | Some _ => r = Err (Other EBadRequest) /\ s' = (c, w)
      | None => dash_effect (SqlSM.Execute (Sql.mkQuery sql [])) r (writes w) (writes s'.2) /\ cache_writes s'.2 = cache_writes w /\
                forall a, r = Ok a -> exists n, a = Affected n
      end
  | Err e => r = Err e /\ s' = (c, w)
  | Panic => r = Panic /\ s' = (c, w)
  | OutOfFuel => False
  end.
Lemma dashboard_query_outcome sql c w r s' : dashboard_query_dynamic (T := T) sql (c, w) = (r, s') -> query_outcome sql r c w s'.
Proof.
  unfold dashboard_query_dynamic, query_outcome, select_local. step_st. rewrite find_forbidden_calls. destruct (is_select sql) as [[]|e| |] eqn:Es; try (by intros [= <- <-]).
  - destruct (calls sql) as [name|]; [by intros [= <- <-]|]. destruct (execute_twice _ (c, w)) as [r1 s1] eqn:E. apply execute_twice_effect in E as [He Hc].
    destruct r1 as [n|e| |]; intros [= <- <-]; (split; [done|]); (split; [done|]); try done. intros a [= <-]. eauto.
  - unfold is_select in Es. by repeat case_match.
Qed.
End Spec.
