(* ===== verification/Dashboard.v ===== *)
(** Access to the dashboard: [hiqlite/src/dashboard/{session,handlers,password}.rs] and its
    routes in [hiqlite/src/start.rs].

    Encryption, base64, the codec of a session, the password hash and the proof of work
    are parameters.  A header that is no text reads as the empty string, so it is
    [Some None]; the clock is part of a request, as is whether a hashing permit was
    free. *)
From stdpp Require Import base gmap strings list numbers.
From Stdlib Require Import Strings.Byte.
From S2P Require Import Prelude.

#[local] Open Scope Z_scope.

Module Dash.

Inductive DashError : Type := Unauthorized | Timeout | Cryptr | Decode | NotFound.

Record Session : Type := mkSession { created : Z; expires : Z }.
Class SessionLib : Type := {
  serialize_network : Session -> list byte;
  deserialize : list byte -> option Session;
  encrypt : Z -> list byte -> option (list byte);
  decrypt : list byte -> option (list byte);
  b64_encode : list byte -> string;
  b64_decode : string -> option (list byte);
  verify_hash : string -> string -> bool;
  pow_valid : string -> bool;
}.
Class SessionLibOk `{SessionLib} : Prop := {
  session_round : forall s, deserialize (serialize_network s) = Some s;
  decrypt_round : forall n b c, encrypt n b = Some c -> decrypt c = Some b;
  b64_round : forall b, b64_decode (b64_encode b) = Some b;
}.

(** [HQL_INSECURE_COOKIE], TLS of the API, the configured hash *)
Record Settings : Type := mkSettings { insecure_cookies : bool; tls : bool; password_dashboard : option string }.
Record Headers : Type := mkHeaders { sec_fetch_site : option (option string); sec_fetch_dest : option (option string); sec_fetch_mode : option (option string) }.
Inductive Method : Type := GET | POST.

(** [check_csrf] *)
Definition text (h : option string) : string := default EmptyString h.
Definition check_csrf (st : Settings) (m : Method) (h : Headers) : Res DashError unit :=
  match sec_fetch_site h with
  | Some site =>
      let site := text site in
      if String.eqb site "same-origin" then Ok tt
      else
        let dest := default EmptyString (text <$> sec_fetch_dest h) in
        let mode := default EmptyString (text <$> sec_fetch_mode h) in
        match m with
        | GET => if String.eqb site "none" then Ok tt
                 else if String.eqb dest "image" && String.eqb mode "no-cors" then Ok tt
                 else if String.eqb mode "navigate" && negb (bool_decide (dest ∈ ["embed"; "iframe"; "object"])) then Ok tt
                 else Err Unauthorized
        | POST => Err Unauthorized
        end
  | None => if insecure_cookies st then Ok tt else Err Unauthorized
  end.

(** ** Sessions *)
Definition SESSION_LIFETIME : Z := 3600.
Definition COOKIE_NAME : string := "__Host-Hiqlite-Session".
Definition COOKIE_NAME_DEV : string := "Hiqlite-Session".
Definition cookie_name (st : Settings) : string := if insecure_cookies st then COOKIE_NAME_DEV else COOKIE_NAME.
Record Cookie : Type := mkCookie { c_name : string; c_value : string; c_max_age : Z; c_secure : bool }.

Section Access.
Context `{SessionLib}.

(** [Session::new], [as_cookie], [is_valid], [try_from_jar] *)
Definition new_session (now : Z) : Session := mkSession now (now + SESSION_LIFETIME).
Definition as_cookie (st : Settings) (nonce now : Z) (s : Session) : Res DashError Cookie :=
  match encrypt nonce (serialize_network s) with
  | None => Err Cryptr
  | Some enc => Ok (mkCookie (cookie_name st) (b64_encode enc) (expires s - now) (negb (insecure_cookies st)))
  end.
Definition is_valid (now : Z) (s : Session) : Res DashError unit := if expires s <? now then Err Unauthorized else Ok tt.
Definition try_from_jar (st : Settings) (now : Z) (jar : string -> option string) : Res DashError Session :=
  match jar (cookie_name st) with
  | None => Err Unauthorized
  | Some v =>
      match b64_decode v with
      | None => Err Cryptr
      | Some enc =>
          match decrypt enc with
          | None => Err Cryptr
          | Some dec => match deserialize dec with None => Err Decode | Some s => is_valid now s ;; mret s end
          end
      end
  end.
(** [FromRequestParts for Session] *)
Definition from_request_parts (st : Settings) (m : Method) (h : Headers) (now : Z) (jar : string -> option string) : Res DashError Session :=
  check_csrf st m h ;; try_from_jar st now jar.

(** [verify_password]; [permit]: the permit came within five seconds. *)
Definition verify_password (permit : bool) (plain hash : string) : Res DashError unit :=
  if negb permit then Err Timeout else if verify_hash hash plain then Ok tt else Err Unauthorized.
Definition validate_pow_if_tls (st : Settings) (pow : string) : Res DashError unit :=
  if tls st then if pow_valid pow then Ok tt else Err Unauthorized else Ok tt.
(** [set_session_verify]; the clock is read for the session and for the cookie. *)
Definition set_session_verify (st : Settings) (h : Headers) (permit : bool) (nonce now now' : Z) (password : string) : Res DashError (Session * Cookie) :=
  check_csrf st POST h ;;
  match password_dashboard st with
  | None => Err Unauthorized
  | Some hash =>
      verify_password permit password hash ;;
      let s := new_session now in c ← as_cookie st nonce now' s; mret (s, c)
  end.
(** [post_session] *)
Definition post_session (st : Settings) (h : Headers) (permit : bool) (nonce now now' : Z) (password pow : string) : Res DashError (Session * Cookie) :=
  validate_pow_if_tls st pow ;; set_session_verify st h permit nonce now now' password.

(** ** Routes and handlers *)
Inductive Target : Type := Login (password pow : string) | GetPow | GetSession | GetTables | GetTablesFiltered (filter : string) | PostQuery (sql : string) | GetMetrics.
Definition method_of (t : Target) : Method := match t with Login _ _ | PostQuery _ => POST | _ => GET end.
Record Request : Type := mkRequest {
  target : Target; headers : Headers; jar : string -> option string; clock : Z; clock' : Z; nonce : Z; permit : bool;
}.
Inductive Outcome : Type := Denied (e : DashError) | LoggedIn (s : Session) (c : Cookie) | Challenge | Served (t : Target).

Definition handle (st : Settings) (r : Request) : Outcome :=
  match password_dashboard st with
  | None => Denied NotFound
  | Some _ =>
      match target r with
      | Login password pow =>
          match post_session st (headers r) (permit r) (nonce r) (clock r) (clock' r) password pow with
          | Ok (s, c) => LoggedIn s c
          | Err e => Denied e
          | _ => Denied Unauthorized
          end
      | GetPow => Challenge
      | t =>
          match from_request_parts st (method_of t) (headers r) (clock r) (jar r) with
          | Ok _ => Served t
          | Err e => Denied e
          | _ => Denied Unauthorized
          end
      end
  end.

(** The origins that may send a request, by the [Sec-Fetch] headers: the same site; nothing
    at all where insecure cookies are configured; and, for a read, the user, an image, or a
    link that is not embedded *)
Definition origin_ok (st : Settings) (m : Method) (h : Headers) : Prop :=
  sec_fetch_site h = Some (Some "same-origin") \/
  (sec_fetch_site h = None /\ insecure_cookies st = true) \/
  (m = GET /\ sec_fetch_site h <> None /\
     (sec_fetch_site h = Some (Some "none") \/
      (sec_fetch_dest h = Some (Some "image") /\ sec_fetch_mode h = Some (Some "no-cors")) \/
      (sec_fetch_mode h = Some (Some "navigate") /\ forall d, sec_fetch_dest h = Some (Some d) -> d ∉ ["embed"; "iframe"; "object"]))).

(** Encryption is authentic: a value that decrypts was handed out by an earlier login, on
    this node or on another one with the same keys.  A visit is a request and the settings
    of the node that gets it. *)
Definition authentic (vs : list (Settings * Request)) : Prop :=
  forall k st r v enc dec, vs !! k = Some (st, r) -> jar r (cookie_name st) = Some v -> b64_decode v = Some enc -> decrypt enc = Some dec ->
  exists j st0 r0 s c, (j < k)%nat /\ vs !! j = Some (st0, r0) /\ handle st0 r0 = LoggedIn s c /\ b64_decode (c_value c) = Some enc.

(** ** Lemmas *)
Context `{!SessionLibOk}.

Lemma text_eq (o : option (option string)) s : s <> EmptyString -> default EmptyString (text <$> o) = s <-> o = Some (Some s).
Proof. intros Hs. destruct o as [[x|]|]; simpl; unfold text; simpl; split; intros E; simplify_eq; done. Qed.
Lemma csrf_origin st m h : check_csrf st m h = Ok tt <-> origin_ok st m h.
Proof.
  unfold check_csrf, origin_ok. destruct (sec_fetch_site h) as [site|] eqn:Es.
  2: { destruct (insecure_cookies st); split; try done; [by right; left|]. by intros [[=]|[[_ [=]]|(_ & Hn & _)]]. }
  assert (forall s, s <> EmptyString -> String.eqb (text site) s = true <-> Some site = Some (Some s)) as Hsite.
  { intros s Hs. rewrite String.eqb_eq, <- (text_eq (Some site) s Hs). done. }
  destruct (String.eqb (text site) "same-origin") eqn:E0; [split; [|done]; intros _; left; by apply Hsite in E0|].
  assert (Some site <> Some (Some "same-origin")) as Hn0 by (intros E; apply (Hsite "same-origin") in E; [congruence|done]).
  destruct m; [|split; [done|]; by intros [|[[[=] _]|[[=] _]]]].
  destruct (String.eqb (text site) "none") eqn:E1; [split; [|done]; intros _; right; right; do 2 (split; [done|]); left; by apply Hsite in E1|].
  assert (Some site <> Some (Some "none")) as Hn1 by (intros E; apply (Hsite "none") in E; [congruence|done]).
  set (dest := default EmptyString (text <$> sec_fetch_dest h)). set (mode := default EmptyString (text <$> sec_fetch_mode h)).
  assert (String.eqb dest "image" && String.eqb mode "no-cors" = true <-> sec_fetch_dest h = Some (Some "image") /\ sec_fetch_mode h = Some (Some "no-cors")) as Himg.
  { rewrite andb_true_iff, !String.eqb_eq. unfold dest, mode. by rewrite !text_eq by done. }
  assert (String.eqb mode "navigate" && negb (bool_decide (dest ∈ ["embed"; "iframe"; "object"])) = true <->
    sec_fetch_mode h = Some (Some "navigate") /\ forall d, sec_fetch_dest h = Some (Some d) -> d ∉ ["embed"; "iframe"; "object"]) as Hnav.
  { rewrite andb_true_iff, negb_true_iff, bool_decide_eq_false, String.eqb_eq. unfold mode, dest. rewrite text_eq by done.
    split; intros [-> Hd]; (split; [done|]); [intros d Ed; by rewrite Ed in Hd|]. destruct (sec_fetch_dest h) as [[d|]|]; [by apply Hd|by apply (bool_decide_unpack _)..]. }
  destruct (_ && _) eqn:E2 in |- *; [split; [|done]; intros _; right; right; do 2 (split; [done|]); right; left; by apply Himg|].
  destruct (_ && _) eqn:E3 in |- *; [split; [|done]; intros _; right; right; do 2 (split; [done|]); right; right; by apply Hnav|].
  split; [done|]. intros [|[[[=] _]|(_ & _ & [|[Hi|Hv]])]]; try done; [apply Himg in Hi|apply Hnav in Hv]; congruence.
Qed.

Lemma csrf_settled st m h : check_csrf st m h = Ok tt \/ check_csrf st m h = Err Unauthorized.
Proof. unfold check_csrf. repeat case_match; auto. Qed.

Lemma as_cookie_round st n now s c : as_cookie st n now s = Ok c -> exists enc, b64_decode (c_value c) = Some enc /\ decrypt enc = Some (serialize_network s).
Proof.
  unfold as_cookie. destruct (encrypt n (serialize_network s)) as [enc|] eqn:E; [|done]. intros [= <-]. exists enc. simpl.
  by rewrite b64_round, (decrypt_round _ _ _ E).
Qed.
(** A login that succeeded *)
Lemma login_inv st r s c : handle st r = LoggedIn s c ->
  exists hash password pow, password_dashboard st = Some hash /\ target r = Login password pow /\ verify_hash hash password = true /\
    (tls st = true -> pow_valid pow = true) /\ check_csrf st POST (headers r) = Ok tt /\
    s = new_session (clock r) /\ as_cookie st (nonce r) (clock' r) s = Ok c.
Proof.
  unfold handle. destruct (password_dashboard st) as [hash|] eqn:Eh; [|done]. destruct (target r) as [password pow| | | | | |]; try (by case_match); [|done].
  unfold post_session, validate_pow_if_tls, set_session_verify. rewrite Eh. intros E. exists hash, password, pow. revert E.
  destruct (csrf_settled st POST (headers r)) as [Hc|Hc]; rewrite Hc; unfold verify_password.
  - destruct (tls st); [destruct (pow_valid pow) eqn:Ep; [|done]|]; cbn; destruct (permit r); try done; cbn; destruct (verify_hash hash password) eqn:Ev; try done; cbn;
      destruct (as_cookie st _ _ _) as [c'|e| |] eqn:Ec; try done; cbn; intros [= <- <-]; done.
  - destruct (tls st); [destruct (pow_valid pow)|]; done.
Qed.
(** A request that was served *)
Lemma served_inv st r t : handle st r = Served t ->
  check_csrf st (method_of t) (headers r) = Ok tt /\ t = target r /\
  exists v enc dec s, jar r (cookie_name st) = Some v /\ b64_decode v = Some enc /\ decrypt enc = Some dec /\ deserialize dec = Some s /\ clock r <= expires s.
Proof.
  unfold handle. destruct (password_dashboard st) as [hash|]; [|done].
  assert (forall t, match from_request_parts st (method_of t) (headers r) (clock r) (jar r) with Ok _ => Served t | Err e => Denied e | _ => Denied Unauthorized end = Served t ->
    check_csrf st (method_of t) (headers r) = Ok tt /\
    exists v enc dec s, jar r (cookie_name st) = Some v /\ b64_decode v = Some enc /\ decrypt enc = Some dec /\ deserialize dec = Some s /\ clock r <= expires s) as Hs.
  { clear t. intros t0. unfold from_request_parts. destruct (csrf_settled st (method_of t0) (headers r)) as [Hc|Hc]; rewrite Hc; [|done]. cbn.
    unfold try_from_jar. destruct (jar r (cookie_name st)) as [v|]; [|done]. destruct (b64_decode v) as [enc|] eqn:Eb; [|done].
    destruct (decrypt enc) as [dec|] eqn:Ed; [|done]. destruct (deserialize dec) as [s|] eqn:Es; [|done]. unfold is_valid.
    destruct (expires s <? clock r) eqn:Ex; [done|]. intros _. apply Z.ltb_ge in Ex. split; [done|]. eauto 10. }
  destruct (target r) eqn:Et; try done; [by case_match; [case_match|..]|..]; intros Hr;
    (assert (t = target r) as Ht by (rewrite Et; by repeat case_match; simplify_eq)); rewrite Et in Ht; subst t; destruct (Hs _ Hr); eauto.
Qed.
End Access.

(** ** The hashing permit: who holds it and which hashes run; a job cannot be stopped, but
    a request that is dropped gives the permit back. *)
Record Hasher : Type := mkHasher { holder : option nat; jobs : list nat }.
Inductive HashEvent : Type := Start (i : nat) | Done (i : nat) | Gone (i : nat).
Definition hash_step (e : HashEvent) (h : Hasher) : option Hasher :=
  match e with
  | Start i => match holder h with None => Some (mkHasher (Some i) (i :: jobs h)) | Some _ => None end
  | Done i => if bool_decide (i ∈ jobs h)
              then Some (mkHasher (if bool_decide (holder h = Some i) then None else holder h) (filter (.≠ i) (jobs h)))
              else None
  | Gone i => if bool_decide (holder h = Some i) then Some (mkHasher None (jobs h)) else None
  end.
Fixpoint hash_run (es : list HashEvent) (h : Hasher) : option Hasher :=
  match es with [] => Some h | e :: es => h ← hash_step e h; hash_run es h end.
Definition idle : Hasher := mkHasher None [].
End Dash.
