(* ===== verification/DashTheorems.v ===== *)
(** The dashboard: who gets to see data and what a manual query does, with an instance of
    each theorem, and what modelling it showed. *)
From stdpp Require Import base gmap strings list numbers countable.
From Stdlib Require Import Strings.Byte Ascii.
From S2P Require Import Prelude Codec Text SqlRows SqlBase SqlWriter SqlSM SqlDemo SqlQuery NetBase NetServer NetLimit NetClient NetClientSpec NetDemo NetTheorems Backup DashQuery Dashboard.
Import DashQuery Dash.

#[local] Open Scope Z_scope.

(** ** Manual queries *)

(** C30: The scan of a manual query always ends, and it decides whether one of the forbidden
    names is written as a call: the name, directly followed by an opening parenthesis, with
    no character of an identifier in front of it, in any case, outside of string literals
    and comments.  It reports no function exactly when there is no such place, and the name
    it reports stands at the first one. *)
Theorem forbidden_scan_exact sql :
  let bytes := lower <$> bytes_of sql in
  (find_forbidden_non_det_fn sql = Ok None <-> forall i name, mask Code bytes !! i = Some true -> ~ written_call bytes i name) /\
  (forall name, find_forbidden_non_det_fn sql = Ok (Some name) ->
     exists i, mask Code bytes !! i = Some true /\ written_call bytes i name /\
       forall j other, (j < i)%nat -> mask Code bytes !! j = Some true -> ~ written_call bytes j other) /\
  exists o, find_forbidden_non_det_fn sql = Ok o.
Proof.
  intros bytes. rewrite find_forbidden_calls. unfold calls. fold bytes. split; [|split; [|by eexists]].
  - split.
    + intros [= Hn] i name Hi Hw. rewrite first_call_none in Hn. by apply (written_call_at _ _ _ Hw), (Hn i).
    + intros Hn. f_equal. apply first_call_none. intros k Hk. destruct (call_at bytes (0 + k)) as [name|] eqn:E; [|done].
      by destruct (Hn k name Hk (call_at_written _ _ _ E)).
  - intros name [= Hn]. apply first_call_some in Hn as (k & Hk & Hc & Hfirst). exists k. split; [done|]. split; [by apply call_at_written|].
    intros j other Hj Hm Hw. by apply (written_call_at _ _ _ Hw), (Hfirst j).
Qed.

Section Queries.
Context {T : Type} `{Sql.SqlEngine T} `{Rows.RowLib} `{SqlQuery.ReadEngine T} {W : Type} `{Client.ClientWorld W} `{WorldLog W} `{!ClientWorldOk (W := W)}.
Context `{!DashWorld T W} `{!DashWorldOk T W}.

(** A manual query that reads is answered by the read pool and leaves nothing in the log.
    One with a forbidden call is refused and leaves nothing.  Any other is in the log
    exactly once when it is answered, not at all when the leader cannot be found and at
    most once otherwise, also over the retry; it writes nothing else. *)
Theorem dashboard_query_once sql c (w : W) r s' :
  dashboard_query_dynamic (T := T) sql (c, w) = (r, s') -> query_outcome sql r c w s'.
Proof. apply dashboard_query_outcome. Qed.
End Queries.

(** ** Access *)
Section AccessTheorems.
Context `{SessionLib} `{!SessionLibOk}.

(** C29: When encrypted values cannot be forged, data is only served to a request of an allowed
    origin and at most an hour after a login, earlier in the history, on this node or on
    another one with the same keys.  By the settings of the node of the login, its password
    matched the configured hash, its proof of work was valid if the node has TLS, and it
    came from the same site, or without the header of the origin to a node with insecure
    cookies. *)
Theorem dashboard_access vs k st r t :
  authentic vs -> vs !! k = Some (st, r) -> handle st r = Served t ->
  origin_ok st (method_of t) (headers r) /\
  exists j st0 r0 hash password pow, (j < k)%nat /\ vs !! j = Some (st0, r0) /\ target r0 = Login password pow /\
    password_dashboard st0 = Some hash /\ verify_hash hash password = true /\ (tls st0 = true -> pow_valid pow = true) /\
    (sec_fetch_site (headers r0) = Some (Some "same-origin") \/ (sec_fetch_site (headers r0) = None /\ insecure_cookies st0 = true)) /\
    clock r <= clock r0 + SESSION_LIFETIME.
Proof.
  intros Hauth Hk (Hc & -> & v & enc & dec & s & Hv & Hb & Hd & Hs & Hle)%served_inv. split; [by apply csrf_origin|].
  destruct (Hauth k st r v enc dec Hk Hv Hb Hd) as (j & st0 & r0 & s0 & c & Hj & Hr0 & Hl & Hcv).
  destruct (login_inv _ _ _ _ Hl) as (hash & password & pow & Hh & Ht & Hver & Hpow & Hcsrf & -> & Hcook).
  destruct (as_cookie_round _ _ _ _ _ Hcook) as (enc' & Hb' & Hd'). rewrite Hcv in Hb'. injection Hb' as <-.
  rewrite Hd in Hd'. injection Hd' as ->. rewrite session_round in Hs. injection Hs as <-. simpl in Hle.
  exists j, st0, r0, hash, password, pow. do 6 (split; [done|]). split; [|done].
  apply csrf_origin in Hcsrf as [|[|[[=] _]]]; [by left|by right].
Qed.

(** The cookie of a login opens every page for an hour and none afterwards. *)
Theorem session_lasts st r0 s c r t :
  handle st r0 = LoggedIn s c -> target r = t -> (forall p q, t <> Login p q) -> t <> GetPow ->
  check_csrf st (method_of t) (headers r) = Ok tt -> jar r (cookie_name st) = Some (c_value c) ->
  handle st r = if clock r <=? clock r0 + SESSION_LIFETIME then Served t else Denied Unauthorized.
Proof.
  intros (hash & password & pow & Hh & _ & _ & _ & _ & -> & Hc)%login_inv Ht Hl Hp Hcs Hj.
  destruct (as_cookie_round _ _ _ _ _ Hc) as (enc & Hb & Hd).
  assert (from_request_parts st (method_of t) (headers r) (clock r) (jar r) =
    if clock r <=? clock r0 + SESSION_LIFETIME then Ok (new_session (clock r0)) else Err Unauthorized) as Hf.
  { unfold from_request_parts, try_from_jar, is_valid. rewrite Hcs, Hj. cbn. rewrite Hb, Hd, session_round. cbn.
    rewrite Z.ltb_antisym. by destruct (clock r <=? _). }
  unfold handle. rewrite Hh, Ht. destruct t; try (by destruct (Hl password0 pow0)); try done; rewrite Hf; by destruct (_ <=? _).
Qed.
End AccessTheorems.

(** One hash at a time, as long as no request is dropped while its hash runs *)
Lemma one_hash_at_a_time es h : hash_run es idle = Some h -> Forall (fun e => forall i, e <> Gone i) es -> (length (jobs h) <= 1)%nat.
Proof.
  intros Hr Hg. assert (forall es h0 h, hash_run es h0 = Some h -> Forall (fun e => forall i, e <> Gone i) es -> jobs h0 = option_list (holder h0) -> jobs h = option_list (holder h)) as Hinv.
  { clear. induction es as [|e es IH]; intros h0 h; simpl; [by intros [= ->]|]. intros Hr [He Hes]%Forall_cons_1 Hj.
    destruct (hash_step e h0) as [h1|] eqn:E; [|done]. simpl in Hr. apply (IH h1 h Hr Hes). destruct e as [i|i|i]; simpl in E.
    - destruct (holder h0); [done|]. injection E as <-. simpl in *. by rewrite Hj.
    - case_bool_decide as Hi; [|done]. injection E as <-. simpl. rewrite Hj in *. destruct (holder h0) as [x|]; [|by apply elem_of_nil in Hi].
      apply list_elem_of_singleton in Hi as <-. rewrite bool_decide_true by done. simpl. by rewrite filter_cons_False by (intros Hn; by apply Hn).
    - by destruct (He i). }
  rewrite (Hinv es idle h Hr Hg eq_refl). destruct (holder h); simpl; lia.
Qed.

(** ** Instances *)
#[local] Instance dash_sql : Sql.SqlEngine Demo := demo_sql false.
#[export] Instance demo_dash : DashWorld Demo World := {|
  current_leader w := (Some 1, w);
  pool_ok _ := true;
  read_db _ := Sql.user Sql.empty_db;
|}.
#[export] Instance demo_dash_ok : DashWorldOk Demo World.
Proof. by intros w l w' [= <- <-]. Qed.

Definition demo_select : string := "SELECT 1 FROM t".
Definition demo_delete : string := "DELETE FROM t WHERE a = 'now()'".
Lemma dashboard_query_once_witness :
  (dashboard_query_dynamic (T := Demo) demo_delete demo_start).1 = Ok (Affected (Some 1)) /\
  writes (dashboard_query_dynamic (T := Demo) demo_delete demo_start).2.2 = [SqlSM.Execute (Sql.mkQuery demo_delete [])].
Proof.
  destruct (dashboard_query_dynamic (T := Demo) demo_delete demo_start) as [r s'] eqn:E.
  pose proof (dashboard_query_once (T := Demo) demo_delete _ _ r s' E) as Ho.
  vm_compute in E. injection E as <- <-. split; [reflexivity|]. unfold query_outcome in Ho. vm_compute in Ho. apply Ho.
Defined.

#[export] Instance demo_sessions : SessionLib := {|
  serialize_network s := to_bytes (created s, expires s);
  deserialize b := (fun p : Z * Z => mkSession p.1 p.2) <$> of_bytes b;
  encrypt _ b := Some (x07 :: b);
  decrypt c := match c with x07 :: b => Some b | _ => None end;
  b64_encode := String.string_of_list_byte;
  b64_decode s := Some (String.list_byte_of_string s);
  verify_hash hash plain := String.eqb hash plain;
  pow_valid p := String.eqb p "solved";
|}.
#[export] Instance demo_sessions_ok : SessionLibOk.
Proof.
  split.
  - intros [a b]. unfold deserialize, serialize_network, demo_sessions. cbv beta iota. by rewrite of_to_bytes.
  - by intros n b c [= <-].
  - intros b. unfold b64_decode, b64_encode, demo_sessions. cbv beta iota. by rewrite String.list_byte_of_string_of_list_byte.
Qed.
Definition demo_settings : Settings := mkSettings false true (Some "0123456789abcdef").
Definition same_site : Headers := mkHeaders (Some (Some "same-origin")) None None.
Definition demo_login : Request := mkRequest (Login "0123456789abcdef" "solved") same_site (fun _ => None) 1000 1000 5 true.
Definition demo_cookie : Cookie := match handle demo_settings demo_login with LoggedIn _ c => c | _ => mkCookie "" "" 0 false end.
Definition demo_visit (t : Target) (now : Z) : Request := mkRequest t same_site (fun _ => Some (c_value demo_cookie)) now now 0 true.
Lemma session_lasts_witness : handle demo_settings (demo_visit GetTables 4600) = Served GetTables /\ handle demo_settings (demo_visit GetTables 4601) = Denied Unauthorized.
Proof.
  assert (exists s, handle demo_settings demo_login = LoggedIn s demo_cookie) as [s Hl] by (eexists; vm_compute; reflexivity).
  split.
  - rewrite (session_lasts demo_settings demo_login s demo_cookie (demo_visit GetTables 4600) GetTables Hl); [reflexivity|reflexivity|intros p q Hq; discriminate Hq|intros Hq; discriminate Hq|reflexivity|reflexivity].
  - rewrite (session_lasts demo_settings demo_login s demo_cookie (demo_visit GetTables 4601) GetTables Hl); [reflexivity|reflexivity|intros p q Hq; discriminate Hq|intros Hq; discriminate Hq|reflexivity|reflexivity].
Defined.
(** The login of one node opens another one, which has other settings. *)
Definition other_settings : Settings := mkSettings false false (Some "another password").
Definition demo_visits : list (Settings * Request) := [(demo_settings, demo_login); (other_settings, demo_visit GetTables 2000)].
Lemma dashboard_access_witness : authentic demo_visits /\ handle other_settings (demo_visit GetTables 2000) = Served GetTables /\
  exists j st0 r0, (j < 1)%nat /\ demo_visits !! j = Some (st0, r0) /\ 2000 <= clock r0 + SESSION_LIFETIME.
Proof.
  assert (authentic demo_visits) as Ha.
  { intros [|[|k]] st r v enc dec Hr; simpl in Hr; try discriminate Hr; injection Hr as <- <-; [intros Hj; discriminate Hj|].
    intros [= <-] Hb _. exists 0%nat, demo_settings, demo_login. eexists _, demo_cookie. split; [lia|]. split; [reflexivity|]. split; [vm_compute; reflexivity|exact Hb]. }
  split; [exact Ha|]. assert (handle other_settings (demo_visit GetTables 2000) = Served GetTables) as Hs by (vm_compute; reflexivity).
  split; [exact Hs|].
  destruct (dashboard_access demo_visits 1 other_settings (demo_visit GetTables 2000) GetTables Ha eq_refl Hs)
    as (_ & j & st0 & r0 & _ & _ & _ & Hj & Hr & _ & _ & _ & _ & _ & Hc).
  exists j, st0, r0. done.
Defined.

(** ** What modelling it showed *)

(** A space in front of the parenthesis hides a call from the scan; SQLite takes it for
    one, and the guard of the writer panics on every node. *)
Lemma scan_misses_call : find_forbidden_non_det_fn "INSERT INTO t VALUES (datetime ('now'))" = Ok None /\
  find_forbidden_non_det_fn "INSERT INTO t VALUES (datetime('now'))" = Ok (Some "datetime").
Proof. by vm_compute. Qed.
(** A quoted identifier is taken for a call. *)
Lemma scan_refuses_identifier :
  find_forbidden_non_det_fn (String.string_of_list_byte (String.list_byte_of_string "DELETE FROM " ++ x22 :: String.list_byte_of_string "now()" ++ [x22])) = Ok (Some "now").
Proof. by vm_compute. Qed.
(** A character across the seventh byte makes the handler panic. *)
Lemma dispatch_panics : is_select (String.string_of_list_byte ([x64; x65; x6c; x65; x74; x65; xc3; xa9; x66])) = Panic.
Proof. by vm_compute. Qed.
(** A dropped request gives its permit back while its hash still runs. *)
Lemma two_hashes_run : hash_run [Start 1; Gone 1; Start 2] idle = Some (mkHasher (Some 2%nat) [2%nat; 1%nat]).
Proof. by vm_compute. Qed.
