(* ===== verification/CheckTheorems.v ===== *)
(** The checks at start and at run time: what they promise, with an instance of each
    theorem, and what modelling them showed. *)
From stdpp Require Import base gmap strings list numbers.
From Stdlib Require Import Strings.Byte Ascii.
From S2P Require Import Prelude Text SqlRows NetBase ClusterBase ClusterCheck.
Import Net Cluster Check.

#[local] Open Scope Z_scope.

(** ** Split brain *)
Section SplitBrain.
Context {W : Type} `{ClusterHttp W} `{StoredEq}.

(** What is logged for one node: it answered with its membership, or it refused *)
Definition logged (t : RaftType) (ns : list Node) (local : Membership) (n : Node) (reply : option Membership) : list Report :=
  match reply with Some m => differences t ns local n m | None => [LookupFailed t (node_id n)] end.
Definition said (t : RaftType) (n : Node) (reply : option Membership) : Prop :=
  exists w : W, match reply, (req_metrics t n w).1 with
                | Some m, Success (Some x) => m = membership_config x
                | None, (NoBody false _ | Failure _) => True
                | _, _ => False
                end.

Lemma check_node_inv t ns local n w rs r w' rs' : check_node t ns local n (w, rs) = (r, (w', rs')) ->
  (r = Ok tt /\ exists reply, said t n reply /\ rs' = rs ++ logged t ns local n reply) \/ (r <> Ok tt /\ settled r /\ rs' = rs).
Proof.
  unfold check_node, on_net. step_st. destruct (req_metrics t n w) as [reply w1] eqn:E.
  destruct reply as [|[] e|[m|]|e]; intros [= <- <- <-]; try (by right); left; (split; [done|]).
  - exists None. split; [|done]. exists w. by rewrite E.
  - exists (Some (membership_config m)). split; [|done]. exists w. by rewrite E.
  - exists None. split; [|done]. exists w. by rewrite E.
Qed.

(** A round over the other nodes logs, for each node it gets to and in order, exactly the
    configured nodes that are missing in the membership this node reports, whether it
    differs from the local one, or that it refused.  It gets to all of them unless one
    cannot be reached or answers with something else; then it is an error. *)
Theorem split_brain_reported t ns local leader w rs r w' rs' :
  check_compare_membership t ns local leader (w, rs) = (r, (w', rs')) ->
  let todo := filter (fun n => node_id n <> leader) ns in
  exists replies, rs' = rs ++ concat (zip_with (logged t ns local) todo replies) /\
    Forall2 (said t) (take (length replies) todo) replies /\
    match r with Ok _ => length replies = length todo | Err _ => (length replies < length todo)%nat | _ => False end.
Proof.
  unfold check_compare_membership. generalize (filter (fun n => node_id n <> leader) ns) as todo. intros todo. revert w rs.
  induction todo as [|n todo IH]; intros w rs; cbn [check_each].
  { intros [= <- <- <-]. exists []. by rewrite app_nil_r. }
  step_st. destruct (check_node t ns local n (w, rs)) as [r1 [w1 rs1]] eqn:E. apply check_node_inv in E as [[-> (reply & Hs & ->)]|(Hr & Hset & ->)].
  - intros (replies & -> & Hf & Hl)%IH. exists (reply :: replies). cbn [zip_with concat length take]. rewrite <- app_assoc.
    split; [done|]. split; [by constructor|]. destruct r; lia.
  - destruct r1 as [[]|e| |]; try done. intros [= <- <- <-]. exists []. simpl. rewrite app_nil_r. split; [done|]. split; [constructor|lia].
Qed.
End SplitBrain.

(** ** The leader a client knows *)
Section Leader.
Context {W : Type} `{RaftNode W} `{RemoteMetrics W}.

Definition from_membership (m : Metrics) (l : Z * string) : Prop :=
  exists n, current_leader m = Some l.1 /\ nodes (membership_config m) !! l.1 = Some n /\ l.2 = addr_api n.

Lemma find_set_leader_ok m l : find_set_leader m = Ok l -> from_membership m l.
Proof.
  unfold find_set_leader. destruct (current_leader m) as [id|] eqn:Hl; [|done]. destruct (nodes (membership_config m) !! id) as [n|] eqn:E; [|done].
  intros [= <-]. by exists n.
Qed.

Lemma metrics_pass_ok t al s r s' : metrics_pass t al s = (r, s') ->
  match r with Ok (Some m) => exists a w, a ∈ al /\ (metrics_at t a w).1 = Ok m | Ok None => True | _ => False end.
Proof.
  revert s. induction al as [|a al IH]; intros [w l]; cbn [metrics_pass]; [by intros [= <- <-]|]. destruct (metrics_at t a w) as [rm w1] eqn:E.
  destruct rm as [m|e| |]; [intros [= <- <-]; exists a, w; rewrite E; split; [apply list_elem_of_here|done]|..].
  all: intros Hr%IH; destruct r as [[m|]|e'| |]; try done; destruct Hr as (b & wb & Hb & Hm); exists b, wb; split; [by apply list_elem_of_further|done].
Qed.

Lemma remote_metrics_loop_ok fuel t al s r s' : remote_metrics_loop fuel t al s = (r, s') ->
  match r with Ok m => exists a w, a ∈ al /\ (metrics_at t a w).1 = Ok m | OutOfFuel => True | _ => False end.
Proof.
  revert s. induction fuel as [|fuel IH]; intros s; cbn [remote_metrics_loop]; [by intros [= <- <-]|]. step_st.
  destruct (metrics_pass t al s) as [r1 s1] eqn:E. apply metrics_pass_ok in E. destruct r1 as [[m|]|e| |]; try done; [by intros [= <- <-]|].
  destruct s1 as [w1 l1]. unfold pause. apply IH.
Qed.

Lemma find_local_ok fuel t s r w' l : find_local fuel t s = (r, (w', l)) ->
  match r with Ok _ => exists m w, from_membership m l /\ (metrics_now t w).1 = m | OutOfFuel => True | _ => False end.
Proof.
  revert s. induction fuel as [|fuel IH]; intros [w l0]; cbn [find_local]; [by intros [= <- _ _]|].
  destruct (metrics_now t w) as [m w1] eqn:E. destruct (find_set_leader m) as [l1|e| |] eqn:El.
  1: { intros [= <- <- <-]. exists m, w. rewrite E. split; [by apply find_set_leader_ok|done]. }
  all: unfold pause; step_st; apply IH.
Qed.

Lemma find_remote_ok fuel t al s r w' l : find_remote fuel t al s = (r, (w', l)) ->
  match r with Ok _ => exists m a w, from_membership m l /\ a ∈ al /\ (metrics_at t a w).1 = Ok m | OutOfFuel => True | _ => False end.
Proof.
  revert s. induction fuel as [|fuel IH]; intros s; cbn [find_remote]; [destruct s; by intros [= <- _ _]|]. step_st.
  destruct (remote_metrics_loop (S fuel) t al s) as [r1 s1] eqn:E. apply remote_metrics_loop_ok in E.
  destruct r1 as [m|e| |]; try done; [|by intros [= <- _]]. destruct (find_set_leader m) as [l1|e| |] eqn:El; [|apply IH..].
  destruct s1 as [w1 l0]. unfold set_lock. intros [= <- <- <-]. destruct E as (a & w & Ha & Hm). exists m, a, w. split; [by apply find_set_leader_ok|done].
Qed.

(** When the search ends, the client knows a leader that is part of the membership it was
    reported with, and the address that membership has for it: never the address it
    probed with, and not its id with another address. *)
Theorem leader_from_membership fuel t addrs (s : W * (Z * string)) r w' l :
  (find_local fuel t s = (r, (w', l)) \/ find_remote fuel t addrs s = (r, (w', l))) ->
  match r with
  | Ok _ => exists m, from_membership m l /\ ((exists w, (metrics_now t w).1 = m) \/ exists a w, a ∈ addrs /\ (metrics_at t a w).1 = Ok m)
  | OutOfFuel => True
  | _ => False
  end.
Proof.
  intros [Hf%find_local_ok|Hf%find_remote_ok]; destruct r as [[]| | |]; try done.
  - destruct Hf as (m & w & ? & ?). eauto.
  - destruct Hf as (m & a & w & ? & ? & ?). exists m. eauto 6.
Qed.
End Leader.

(** ** The cleanup of the cache for v0.15 *)
Section Migration.
Context {W : Type} `{OldNodes W}.

(** A node that cannot run an old version: it is not reachable, it has a known version, or
    it went away between the requests. *)
Inductive not_old (n : Node) : W -> W -> Prop :=
| Unreachable w w' : ping n w = (PingFailed, w') -> not_old n w w'
| Upgraded w w1 w' v : ping n w = (PingStatus true, w1) -> version n w1 = (VersionStatus 200 v, w') -> known_version v = true -> not_old n w w'
| Retried w w1 w2 w' v : ping n w = (PingStatus true, w1) -> version n w1 = (VersionFailed, w2) ->
    version n (nap 500 w2) = (VersionStatus 200 v, w') -> known_version v = true -> not_old n w w'
| WentAway w w1 w2 w' : ping n w = (PingStatus true, w1) -> version n w1 = (VersionFailed, w2) ->
    version n (nap 500 w2) = (VersionFailed, w') -> not_old n w (nap 500 w').
(** A round over the other nodes that finds no old one *)
Inductive round (id : Z) : list Node -> W -> W -> Prop :=
| RoundEnd w : round id [] w w
| RoundSelf n ns w w' : node_id n = id -> round id ns w w' -> round id (n :: ns) w w'
| RoundNode n ns w w1 w' : node_id n <> id -> not_old n w w1 -> round id ns w1 w' -> round id (n :: ns) w w'.
Hint Constructors not_old round : core.

(** What there is to remove, and that it may be removed *)
Definition due (env : MigEnv) (d : CacheDisk) : Prop :=
  force_migration env = true \/
  index_meta d = Some false /\ auto_migrate env = true /\ (has_entries (dir_logs d) = true \/ has_entries (dir_sm d) = true).

Lemma not_old_det n w w1 w2 : not_old n w w1 -> not_old n w w2 -> w1 = w2.
Proof. intros H1 H2. destruct H1; inversion H2; congruence. Qed.

Lemma check_member_spec n w d r w' d' : check_member n (w, d) = (r, (w', d')) ->
  d' = d /\ (r = Ok tt /\ not_old n w w' \/ (exists e, r = Err e) /\ forall w1, ~ not_old n w w1).
Proof.
  unfold check_member. cbn [check_version]. unfold on_nodes, rest. step_st. destruct (ping n w) as [p w1] eqn:Hp. destruct p as [|[]]; [intros [= <- <- <-]; eauto| |].
  2: { intros [= <- <- <-]. split; [done|]. right. split; [eauto|]. intros w2 Hn. inversion Hn; congruence. }
  destruct (version n w1) as [v w2] eqn:Hv. destruct v as [|st b].
  - destruct (version n (nap 500 w2)) as [v w3] eqn:Hv2. destruct v as [|st b]; [intros [= <- <- <-]; eauto|].
    destruct ((st =? 200) && known_version b) eqn:Hk; intros [= <- <- <-]; (split; [done|]).
    + apply andb_prop in Hk as [->%Z.eqb_eq Hk]. left. eauto.
    + right. split; [eauto|]. intros w4 Hn. apply andb_false_iff in Hk as [Hk%Z.eqb_neq|Hk]; inversion Hn; congruence.
  - destruct ((st =? 200) && known_version b) eqn:Hk; intros [= <- <- <-]; (split; [done|]).
    + apply andb_prop in Hk as [->%Z.eqb_eq Hk]. left. eauto.
    + right. split; [eauto|]. intros w4 Hn. apply andb_false_iff in Hk as [Hk%Z.eqb_neq|Hk]; inversion Hn; congruence.
Qed.

Lemma ensure_round id ns w d r w' d' : ensure_no_old_members_running id ns (w, d) = (r, (w', d')) ->
  d' = d /\ (r = Ok tt /\ round id ns w w' \/ (exists e, r = Err e) /\ forall w1, ~ round id ns w w1).
Proof.
  revert w. induction ns as [|n ns IH]; intros w; cbn [ensure_no_old_members_running]; [intros [= <- <- <-]; eauto|]. step_st.
  destruct (node_id n =? id) eqn:Hid.
  - apply Z.eqb_eq in Hid. intros [-> [[-> Hr]|[He Hr]]]%IH; (split; [done|]); [left; eauto|right]. split; [done|]. intros w1 Hw. inversion Hw; subst; [by eapply Hr|done].
  - apply Z.eqb_neq in Hid. destruct (check_member n (w, d)) as [r1 [w1 d1]] eqn:E. apply check_member_spec in E as [-> [[-> Hn]|[[e ->] Hn]]].
    + intros [-> [[-> Hr]|[He Hr]]]%IH; (split; [done|]); [left; eauto|right]. split; [done|]. intros w2 Hw. inversion Hw as [|? ? ? ? Hs|? ? ? w3 ? ? Hn' Hr']; subst; [done|].
      rewrite (not_old_det _ _ _ _ Hn' Hn) in Hr'. by eapply Hr.
    + intros [= <- <- <-]. split; [done|]. right. split; [eauto|]. intros w2 Hw. inversion Hw; subst; [done|by eapply Hn].
Qed.

(** The two rounds, five seconds apart; a single node needs none. *)
Definition none_old (id : Z) (ns : list Node) (w w' : W) : Prop :=
  if Nat.ltb 1 (length ns) then exists w1, round id ns w w1 /\ round id ns (nap 5000 w1) w' else w' = w.

Lemma cleanup_spec env (w : W) d r w' d' : cleanup env (w, d) = (r, (w', d')) ->
  w' = w /\ match r with Ok _ => dir_logs d' = Absent /\ dir_sm d' = Absent | Err _ => True | _ => False end.
Proof.
  unfold cleanup, remove_logs, remove_sm. step_st.
  destruct d as [meta l sm], env as [? ? ? [fl|] [[fm fs]|]]; simpl; destruct l, sm; intros [= <- <- <-]; done.
Qed.

Lemma round_det id ns w w1 w2 : round id ns w w1 -> round id ns w w2 -> w1 = w2.
Proof.
  intros H1. revert w2. induction H1 as [|n ns w w' Hn H1 IH|n ns w w1 w' Hn Ho H1 IH]; intros w2 H2; inversion H2; subst; try done; eauto.
  apply IH. by rewrite (not_old_det n w w1 w3).
Qed.

Lemma none_old_spec id ns w d r w' d' : no_old_members id ns (w, d) = (r, (w', d')) ->
  d' = d /\ (r = Ok tt /\ none_old id ns w w' \/ (exists e, r = Err e) /\ forall w1, ~ none_old id ns w w1).
Proof.
  unfold none_old, no_old_members. destruct (Nat.ltb 1 (length ns)); [|intros [= <- <- <-]; eauto]. unfold rest. step_st.
  destruct (ensure_no_old_members_running id ns (w, d)) as [r1 [w1 d1]] eqn:E. apply ensure_round in E as [-> [[-> H1]|[[e ->] H1]]].
  2: { intros [= <- <- <-]. split; [done|]. right. split; [eauto|]. intros w2 (w3 & H2 & _). by eapply H1. }
  intros [-> [[-> H2]|[He H2]]]%ensure_round; (split; [done|]); [left; eauto|right]. split; [done|].
  intros w2 (w3 & H3 & H4). rewrite (round_det _ _ _ _ _ H3 H1) in H4. by eapply H2.
Qed.

Lemma must_migrate_spec env d : match must_migrate env d with
  | Ok true => is_pure_in_mem env = true \/ due env d
  | Ok false => ~ due env d /\ (index_meta d = Some true \/ has_entries (dir_logs d) = false /\ has_entries (dir_sm d) = false)
  | Err _ => ~ due env d
  | _ => False
  end.
Proof.
  unfold must_migrate, due. destruct (force_migration env), (is_pure_in_mem env); auto. destruct (index_meta d) as [[]|]; [intuition congruence| |intuition congruence].
  destruct (has_entries (dir_logs d)), (has_entries (dir_sm d)), (auto_migrate env); simpl; intuition congruence.
Qed.

(** The four ways [check_migrate] goes *)
Lemma check_migrate_inv env id ns w d r w' d' : check_migrate env id ns (w, d) = (r, (w', d')) ->
  let w0 := if force_migration env then nap 10000 w else w in
  (d' = d /\ (is_pure_in_mem env = false -> ~ due env d) /\ match r with
     | Ok _ => index_meta d = Some true \/ has_entries (dir_logs d) = false /\ has_entries (dir_sm d) = false
     | Err _ => True | _ => False end) \/
  (d' = d /\ is_pure_in_mem env = true /\ match r with Ok _ | Err _ => True | _ => False end) \/
  (d' = d /\ due env d /\ (forall w1, ~ none_old id ns w0 w1) /\ exists e, r = Err e) \/
  (is_pure_in_mem env = false /\ due env d /\ none_old id ns w0 w' /\ cleanup env (w', d) = (r, (w', d'))).
Proof.
  intros Hm w0. assert (((go ← st_lift (must_migrate env d); if negb go then mret tt
    else no_old_members id ns ;; if is_pure_in_mem env then mret tt else cleanup env) : St ApiError (W * CacheDisk) unit) (w0, d) = (r, (w', d'))) as Hg.
  { revert Hm. unfold check_migrate, rest, w0. step_st. by destruct (force_migration env). }
  clear Hm. revert Hg. pose proof (must_migrate_spec env d) as Hmust. step_st. destruct (must_migrate env d) as [[]|e| |]; cbn [negb]; try done.
  - destruct (no_old_members id ns (w0, d)) as [r1 [w1 d1]] eqn:E.
    apply none_old_spec in E as [-> [[-> Hn]|[[e ->] Hn]]].
    + destruct (is_pure_in_mem env) eqn:Hp; [intros [= <- <- <-]; auto|]. intros Hc. pose proof Hc as [-> _]%cleanup_spec. destruct Hmust; [done|]. right; right; right. auto.
    + intros [= <- <- <-]. destruct (is_pure_in_mem env) eqn:Hp; [auto|]. destruct Hmust; [done|]. right; right; left. eauto.
  - intros [= <- <- <-]. tauto.
  - intros [= <- <- <-]. tauto.
Qed.

(** C31: The folders of the cache are removed only when there is something to remove and it may
    be removed, and only after both rounds found no node that can run an old version; a
    node that may be old, or an answer that is unexpected, is an error that leaves the
    disk as it was.  When the function returns without an error, there was nothing to do
    or both folders are gone. *)
Theorem migration_safe env id ns w d r w' d' : check_migrate env id ns (w, d) = (r, (w', d')) ->
  let w0 := if force_migration env then nap 10000 w else w in
  (d' <> d -> is_pure_in_mem env = false /\ due env d /\ none_old id ns w0 w') /\
  (is_pure_in_mem env = false -> due env d -> (forall w1, ~ none_old id ns w0 w1) -> d' = d /\ exists e, r = Err e) /\
  match r with
  | Ok _ => is_pure_in_mem env = true \/
            (d' = d /\ (index_meta d = Some true \/ has_entries (dir_logs d) = false /\ has_entries (dir_sm d) = false)) \/
            (due env d /\ dir_logs d' = Absent /\ dir_sm d' = Absent)
  | Err _ => True
  | _ => False
  end.
Proof.
  intros Hm w0. apply check_migrate_inv in Hm as [(-> & Hn & Hr)|[(-> & Hp & Hr)|[(-> & Hd & Hno & e & ->)|(Hp & Hd & Hno & Hc)]]].
  - split; [done|]. split; [tauto|]. destruct r; tauto.
  - split; [done|]. split; [congruence|]. destruct r; tauto.
  - split; [done|]. split; [eauto|done].
  - apply cleanup_spec in Hc as [_ Hc]. split; [done|]. split; [|destruct r; tauto]. intros _ _ Hno'. by destruct (Hno' w').
Qed.
End Migration.

(** ** The listen addresses *)

(** A node listens on the port of its address, whatever the address is otherwise. *)
Lemma listen_on_port listen host port tls :
  has_char ":"%char port = false -> build_listen_addr listen (host +:+ ":" +:+ port) tls = listen +:+ ":" +:+ port.
Proof. intros Hp. unfold build_listen_addr. change (":" +:+ port) with (String ":"%char port) at 1. by rewrite (rsplit_once_app ":"%char host port Hp). Qed.

(** ** Instances *)

(** A cluster of three: node 2 reports a membership without node 3, node 3 is gone. *)
Definition full : Membership := mkMembership {[1; 2; 3]} (list_to_map [(1, mkNode 1 "r1" "a1"); (2, mkNode 2 "r2" "a2"); (3, mkNode 3 "r3" "a3")]).
Definition part : Membership := mkMembership {[1; 2]} (list_to_map [(1, mkNode 1 "r1" "a1"); (2, mkNode 2 "r2" "a2")]).
Definition cluster : list Node := [mkNode 1 "r1" "a1"; mkNode 2 "r2" "a2"; mkNode 3 "r3" "a3"].
#[local] Instance demo_peers : ClusterHttp unit := {|
  req_membership _ _ w := (NoConnection, w);
  req_metrics _ n w := (if node_id n =? 2 then Success (Some (mkMetrics true (Some 1) Follower part)) else NoConnection, w);
  req_become _ _ _ w := (NoConnection, w);
  req_leave _ _ w := (NoConnection, w);
|}.
#[local] Instance demo_eq : StoredEq := fun a b => bool_decide (voters a = voters b).

Lemma split_brain_reported_witness : exists replies,
  check_compare_membership Sqlite [mkNode 2 "r2" "a2"; mkNode 3 "r3" "a3"] full 3 (tt, []) = (Ok tt, (tt, [MissingNode Sqlite 2 3; Different Sqlite 2])) /\
  length replies = 1%nat /\ Forall2 (said (W := unit) Sqlite) (take (length replies) [mkNode 2 "r2" "a2"]) replies.
Proof.
  destruct (split_brain_reported Sqlite [mkNode 2 "r2" "a2"; mkNode 3 "r3" "a3"] full 3 tt [] (Ok tt) tt
    [MissingNode Sqlite 2 3; Different Sqlite 2] ltac:(vm_compute; done)) as (replies & _ & Hs & Hlen).
  exists replies. split; [vm_compute; done|]. split; [exact Hlen|exact Hs].
Defined.

(** A node that cannot be reached ends the round: what the nodes after it would have said is
    not looked at, although node 2 reports a membership without node 3. *)
Lemma unreachable_node_hides_split_brain :
  check_compare_membership Sqlite cluster full 3 (tt, []) = (Err Connect, (tt, [])) /\
  (check_compare_membership Sqlite [mkNode 2 "r2" "a2"] full 3 (tt, [])).2.2 = [Different Sqlite 2].
Proof. split; vm_compute; done. Qed.

#[local] Instance demo_metrics : RemoteMetrics unit := fun _ a w => (if bool_decide (a = "a1") then Err Connect else Ok (mkMetrics true (Some 3) Follower full), w).
#[local] Instance demo_member : RaftNode unit := {|
  is_initialized _ w := (Ok true, w); leader_now _ w := (Some 3, w); metrics_now _ w := (mkMetrics true (Some 3) Follower full, w);
  submit _ _ w := (Err Connect, w); stopped _ _ := false; startup_finished _ _ := true; set_running _ w := w; shutting_down _ := false; sleep _ w := w; clock _ := 0 |}.
Lemma leader_from_membership_witness : exists m : Metrics, find_remote 1 Cache ["a1"; "a2"] (tt, (0, "a1")) = (Ok tt, (tt, (3, "a3"))) /\ from_membership m (3, "a3").
Proof.
  destruct (leader_from_membership (W := unit) 1 Cache ["a1"; "a2"] (tt, (0, "a1")) (Ok tt) tt (3, "a3") ltac:(right; vm_compute; done)) as (m & Hm & _).
  exists m. split; [vm_compute; done|done].
Defined.

(** Node 2 runs the new version, node 3 is down; the world counts the requests. *)
#[local] Instance demo_old : OldNodes Z := {|
  ping n w := (if node_id n =? 2 then PingStatus true else PingFailed, w + 1);
  version n w := (VersionStatus 200 "0.15.3", w + 1);
  nap _ w := w;
|}.
Lemma migration_safe_witness : exists d',
  check_migrate (mkMigEnv false false true None None) 1 cluster (0, mkCacheDisk (Some false) Entries Entries) = (Ok tt, (6, d')) /\
  none_old 1 cluster 0 6 /\ dir_logs d' = Absent /\ dir_sm d' = Absent.
Proof.
  exists (mkCacheDisk (Some false) Absent Absent). split; [vm_compute; done|].
  destruct (migration_safe (mkMigEnv false false true None None) 1 cluster 0 (mkCacheDisk (Some false) Entries Entries) (Ok tt) 6
    (mkCacheDisk (Some false) Absent Absent) ltac:(vm_compute; done)) as (Hd & _ & _).
  destruct Hd as (_ & _ & Hn); [done|]. done.
Defined.
